(* ===== verification/_CoqProject ===== *)
-Q . S2P
Prelude.v
Errors.v
Usage.v
OrchTypes.v
MemStore.v
MemCommands.v
StoreInv.v
StoreDeps.v
StoreOps.v
StoreLife.v
StoreSafety.v
StoreClaims.v
StoreCommands.v
Scheduler.v
SchedulerSafety.v
Messages.v
Truncate.v
AgentTypes.v
AutoContext.v
AgentTools.v
AgentLoop.v
AgentToolsSafety.v
AgentLoopSpec.v
AgentTurn.v
AgentSafety.v
AutoContextSafety.v
Json.v
Serialize.v
Snapshot.v
RunSetup.v
AgentEvents.v
RunSafety.v
Steer.v
Stream.v
StreamSafety.v
SteerSafety.v
History.v
EventBus.v
ModelUtil.v
Iter.v
Graph.v
OrchHistory.v
OrchHistorySafety.v
Runner.v
SchedulerFrame.v
Team.v
TeamStore.v
TeamSafety.v
TimeText.v
OrchJson.v
SqliteTx.v
SqliteStore.v
SqliteLogic.v
SqliteInv.v
SqliteOps.v
SqliteDeps.v
SqliteFrame.v
SqliteSafety.v
SqliteClaims.v
AguiSession.v
AguiReplay.v
AguiAdapter.v
AguiStream.v
AguiStreamSafety.v
AguiSse.v
AguiSseSafety.v
AguiFrame.v
AguiApproval.v
AguiEnvelope.v
AguiTrack.v
AguiAction.v
Orchestration.v
LongMemory.v
LongMemorySafety.v
CoreUtil.v
Batch.v
Middleware.v
