(* ===== verification/Prelude.v ===== *)
(** * gollem, verified

    gollem is a Go framework for language-model agents.  This development models the
    parts that carry its own logic and proves them correct:

    - the _orchestrator_ (src/ext/orchestrator): a durable task queue with leases,
      dependencies, retries, operator commands and artifacts, its in-memory store
      (memory/store.go, memory/artifacts.go, memory/commands.go), the scheduler that
      claims tasks and runs them (scheduler.go), the recovery manager
      (recovery_manager.go), the projections of its event history (history.go), queries
      (query.go) and the runner that executes an agent per task (runner.go);
    - the _agent core_ (src/core): conversation messages, usage limits, the execution
      of tool calls, the agent loop, whole runs in their synchronous, streaming and
      iterative forms, steering of a running agent, serialisation and snapshots, the
      event bus, compression, normalisation and memory strategies for the history, and
      the truncation of tool output;
    - _around them_: retry, fallback, routing and caching of models (src/modelutil), the
      graph runner (src/ext/graph), teams of agents (src/ext/team) and the AG-UI protocol
      to a user interface (src/ext/agui): sessions, the adapter of run events, streams of
      model output, approvals, server-sent events and actions.

    The scheduler drives a store through an interface, of which the in-memory store and
    the worker store of a team are instances; an agent run is what a task of the
    orchestrator executes; streaming, iterative and resumed runs share the turn engine.

    ** Files

    - Prelude: Go values (the [any] of metadata, results and documents), time, strings,
      errors and results; functional record update; shared lemmas.  Errors: [Error()] methods, [errors.Is] and [errors.As],
      sentinels.  Usage: src/core/usage.go and quota.go.
    - OrchTypes: the orchestrator's records, enumerations and events.
    - MemStore, MemCommands: the in-memory store.  The state is the record [Store]
      (tasks, leases and commands as maps, their creation order as lists, counters,
      the published events); each exported method is one function on it, since each
      holds the store's mutex for its whole body.
    - StoreInv: the store invariant [Inv].  StoreDeps: the dependency graph.
      StoreOps: a store call as a value [Op], [run_op], the step relation and
      reachability, and that every call preserves [Inv].  StoreLife: the abstract
      lifecycle of a task ([TaskView], [life_step]) and the effect of each call.
    - StoreSafety, StoreClaims, StoreCommands: the claims about the store.
    - Scheduler: the class [OrchStore] (operations of a store) and [OrchStoreLaws]
      (what the scheduler relies on), configuration, slots, dispatch, renewal, the
      end of a run, commands, recovery and the polling loop, as programs of single actions
      (a store call, a clock reading, a section under a mutex, a slot taken or given
      back) on the store and the scheduler's own state; [sched_step] interleaves the
      actions of all goroutines.  SchedulerSafety: its claims; the laws
      are proved for the in-memory store there.  SchedulerFrame: relations that every
      call of a store keeps hold across every step of the scheduler.
    - Messages: src/core/message.go, deferred.go, injectDeferredResults.
    - Truncate: src/core/truncate.go.
    - AgentTypes: the types of the loop: tools, agent, run state, callbacks, events.
    - AutoContext, AutoContextSafety: src/core/autocontext.go, instruction_pin.go.
    - AgentTools, AgentToolsSafety: executeSingleTool and executeFunctionTools of
      src/core/agent.go.
    - AgentLoop: processResponse and runLoop of agent.go, Step of run_engine.go.
      AgentLoopSpec, AgentTurn: rules for its parts.  AgentSafety: claims about the loop.
    - Json: JSON values, UTF-8 coercion and the encoding of the types used, with what
      becomes of a value of type [any].  Serialize: src/core/
      serialize.go.  Snapshot: snapshot.go and the snapshots of run_state.go.
    - RunSetup: run_engine.go and agent.go from the options of a run to its first turn,
      and its end.  AgentEvents: the events of a run.  RunSafety: claims about runs.
    - Steer: src/core/steer.go.  Stream: src/core/stream.go.  StreamSafety, SteerSafety.
    - Iter: src/core/iter.go.  EventBus: src/core/eventbus.go.
    - History: src/core/normalize.go and src/core/memory/strategy.go.
    - ModelUtil: retry.go, fallback.go, router.go and cache.go of src/modelutil.
    - Graph: src/ext/graph/graph.go.
    - OrchHistory, OrchHistorySafety: src/ext/orchestrator/history.go over the class
      [EventStore], and the selection of events of sqlite/history.go as its instance.
    - Runner: query.go and runner.go; scheduler, store and agent composed.
    - TimeText: times as RFC 3339 text, and how far the order of the texts is that of the
      times.  OrchJson: the orchestrator's records as JSON.
    - SqliteTx, SqliteStore: src/ext/orchestrator/sqlite.  [DB] is the tables, [TX] code on
      a connection, each exported method a function on [SqlStore].  SqliteLogic: triples
      over the content of the database as Go values.  SqliteInv: its well-formedness and
      the lifecycle of its tasks.  SqliteOps, SqliteDeps: every operation.  SqliteFrame: a
      call as a function of [Op], and that the event table only grows.  SqliteSafety,
      SqliteClaims: the claims.
    - Team: team.go, teammate.go, tasks.go and tools.go of src/ext/team.  TeamStore:
      store_adapter.go, the worker store as an instance of [OrchStore].  TeamSafety: the
      life of teammates.
    - AguiSession: event.go, replay.go and session.go of src/ext/agui; AguiReplay:
      reconnection.  AguiAdapter: adapter.go.  AguiStream: stream_consumer.go, a program of
      calls on the adapter that shares it with event handlers; AguiStreamSafety: its
      protocol, by rely-guarantee rules.  AguiSse: transport/sse.go; AguiSseSafety: what a
      request writes; AguiFrame: its frames.  AguiApproval: approval.go.  AguiEnvelope,
      AguiTrack: adapter and session composed.  AguiAction: action.go and
      transport/action.go.
    - Orchestration: src/core/orchestration over the [Run] method of agents; the class
      [RunEnds] is what its termination relies on, proved for agents with a request limit.
      LongMemory, LongMemorySafety: src/ext/memory.  CoreUtil: guardrails.go,
      condition.go and interceptor.go of src/core, and src/core/streamutil.  Batch:
      src/core/batch.go.  Middleware: src/ext/middleware.

    ** What is proved

    Store.  Every reachable store satisfies the invariant (C1) and refines
    an abstract task lifecycle (C2); lease tokens fence
    (C3), an unexpired lease excludes other workers
    (C24), completed tasks are final ([completed_is_final]); claims
    take the first claimable task (C25), wait for dependencies and
    respect the attempt limit (C26); recovery, completion and
    failure have their functional specifications (C27,
    [CompleteTask_correct], C30).  Commands refine their own lifecycle and
    are fenced by token ([commands_refine_lifecycle], [command_claim_excludes]).  Release,
    creation, deletion, the order of delivery of commands and the finality of handled
    commands are theorems of StoreClaims and StoreCommands.

    SQLite store.  For every sequence of calls with UTF-8 strings and arbitrary values of
    type [any], refused statements and restarts: every row decodes to a record in its JSON
    form and the content is well formed (C5), a call is atomic and publishes what it
    records (C4), tasks move along the lifecycle of the in-memory store
    (C6), stale tokens are fenced
    (C7), claims and recovery meet their specifications
    (C28, C29).

    Scheduler.  In every interleaving of single actions the occupied slots are the live
    runs, and one more while the polling loop claims, and never exceed the configured
    number (C31); a run that lost its lease writes nothing
    (C32); its loops terminate, cancellation and recovery sweeps do
    what they promise (SchedulerSafety).  A claimed task is carried to its end by
    scheduler, agent and store together (C8).  Replay of the event
    history is complete ([replay_complete]) and its projections agree
    ([ListRuns_GetRun]).

    Runs.  A run without auto-context returns a history that is paired but for the calls of
    its last response, all of it for an agent that processes all calls and has no run
    conditions, also across a deferral (C9); every run terminates within
    its request limit (C10), respects its tool-call limit
    (C33), ends on a fatal tool error ([fatal_tool_ends_run]) and
    publishes well-bracketed events (C35); a resumed run continues in
    the state of its snapshot (C14).  Streaming and iterative runs
    are equivalent to synchronous ones (C11, without response interceptors,
    steer queue and delta events; C37, without the hooks and events that only
    [Run] fires), and steering instructions are consumed by a request that carries them, or
    rejected, exactly once (C12).
    Tool calls are answered in order under every schedule
    (C13) and never run without a required approval
    (C34).

    Parts.  Compression yields an alternating history without orphaned results
    (C36), normalisation cleans a history
    ([NormalizeHistory_correct]), truncation fits its budget ([TruncateToolOutput_spec]).
    The event bus delivers in the order of its queue, which keeps the order of each
    publisher, and drains when closed (C38, C39).  Retries are bounded ([retryLoop_correct]); graphs terminate
    (C40) and fan-outs do not depend on the order of their branches
    ([executeFanOut_deterministic]).  Fallback, routers, the cache and the memory
    strategies have theorems in ModelUtil and History.

    Teams.  A teammate stays within its team (C15), claims its own work
    first ([team_ClaimReadyTask_first]), gives it back when it leaves
    ([exit_returns_work]) and stops after its task when asked to
    ([shutdown_after_task]).

    Compositions.  A handoff of agents with request limits ends within the requests of its
    agents, with a paired history if they return one (C20), a chain is a handoff ([chain_is_handoff]), a batch
    returns its results in order ([batch_results_in_order]).  The document stores of the
    long-term memory refine a map of values, which SQLite keeps in their JSON form
    (C21, [values_differ]) and find the same documents
    ([search_agrees]); the cache of the middleware package hands out copies
    ([cached_response_is_copy]); streamed text is complete ([stream_text_complete]).

    AG-UI.  Under every interleaving the stream of messages keeps the protocol
    (C17), a connection receives what follows its cursor in order and
    without duplicates (C16), and an approval returns the decision made for
    it (C19).  Reconnection is exact (C22), a session
    tracks its run (C18), frames are read back
    (C23) and actions do what they say ([action_does_what_it_says]).

    Behaviour that contradicts the documentation or the evident intent is stated as
    theorems as well: [claim_scan_fails_canceled_task],
    [short_lease_expires_before_renewal], [early_output_leaves_calls_open],
    [condition_leaves_calls_open], [broken_turn_reports_earlier_response],
    [SlidingWindowMemory_zero_panics], [SummaryMemory_leaves_orphans],
    [early_return_kept], [cached_response_is_shared], [iter_resumes_silently],
    [stale_target_hides_command], [deleted_task_blocks_shutdown],
    [shutdown_stops_claimed_task], [scan_reports_completed_task_failed],
    [recovery_misses_fraction], [self_dependency_one_sided], [skipped_frame_is_lost],
    [both_resolves_delivered], [cancelled_resolve_delivered], [race_reopens_message],
    [deferred_run_is_reported_completed], [namespace_collision], [wildcard_finds_all],
    [inner_usage_not_counted] and [pending_text_is_lost].

    ** Modelling choices and bounds

    - Integers are unbounded; they agree with Go's 64-bit [int] as long as counters
      stay below 2^63.  [UnixNano] and the counter of the round-robin router are wrapped
      to 64 bits; back-off uses IEEE double arithmetic.
    - Clock readings are inputs: [wall i] is the i-th [time.Now()] of a store call.
    - The scheduler is a step relation on configurations: what is left of the programs of
      the polling loop, the renewals and the ending runs, of which a step performs the
      first action, that is one store call, one clock reading, one section under a mutex
      or one operation on the slots.  The steps of the event bus are its critical
      sections: a publication copies the subscribers in one and enters the queue, or calls
      a handler, in another; [publication_overtaken] is a run where that matters.
    - A stream logs its deltas, with their place among the events of the run, and the
      messages of each request the model accepted.
    - A tool call is a program of atomic actions; a concurrent batch is a pool of such
      programs run by an arbitrary schedule, and what a schedule leaves unfinished
      runs to completion in order.  The branches of a fan-out run in an arbitrary order.
    - User callbacks are functions on an abstract world, atomic with respect to each
      other; [ctx.Err()] is read from that world.  The text of times in a
      snapshot is a parameter with its law.
    - A value of type [any] is a tree; encoding/json reads every number back as a
      [float64], rounded to 53 bits, every object as a map, and refuses channels,
      functions and infinities.
    - Fuel: [dispatch] and [process_loop] take an iteration bound that
      [dispatch_terminates] and [processCommands_terminates] prove sufficient; [Step],
      [runLoop] and [Run] take one that C10 and
      [runLoop_terminates_by_retries] prove sufficient, [graph_loop] one that
      C40 proves sufficient; the loops over strings are bounded by the
      string's length.
    - Where Go ranges over a map only to publish events, the order is that of
      [map_to_list].  Timestamps of messages and events of the agent, durations and
      traces are left out of the loop: nothing there reads them.
    - The SQL of the SQLite store is modelled as functions on the tables; the database may
      refuse any statement, and a transaction that fails leaves the tables as they were.
      JSON and time texts are modelled, UUIDs and the text of event payloads are parameters
      with their laws.  The strings of calls are required to be UTF-8 ([op_text]); nothing
      is required of their values of type [any].
    - AG-UI: sequence numbers wrap at 2^64, and claims about them bound the length of the
      history by it; goroutines interleave at channel operations and critical sections,
      as lists of actions; sent, missed and logged events are recorded beside the state
      for the statements; part indices of a stream are not negative, as providers number
      them; clock readings and random identifiers are arguments.
    - A team works on the in-memory store, its default; the agent of a teammate enters
      with what its run returned.

    ** Not modelled, and next

    Rate limiting (token buckets in floating point, timers), cost tracking, tracing, deep
    agents and evaluation come next.  Providers, servers, protocol types, tools with file
    and process access and user interfaces are input and output around this core. *)

From stdpp Require Export base gmap strings list pretty sorting.
From Stdlib Require Export ZArith Lia.

#[global] Open Scope Z_scope.

(** ** Functional record update

    Go code assigns struct fields in place ([task.Status = ...]).  The
    development writes the same assignments as [t <| task_Status := v |>].  A
    record opts in with a [RecordEta] instance; the setter of a field is derived
    from it. *)

Class RecordEta (R : Type) := record_eta : R → R.
Class FieldUpdate {R E : Type} (field : R → E) := update_field : (E → E) → R → R.

Ltac derive_field_update R field :=
  let eta := eval hnf in (record_eta (R := R)) in
  lazymatch eval pattern field in eta with
  | ?rebuild _ =>
    let u := eval cbv beta in (fun upd => rebuild (fun r => upd (field r))) in
    exact u
  end.

#[export] Hint Extern 1 (@FieldUpdate ?R _ ?field) =>
  derive_field_update R field : typeclass_instances.
#[export] Hint Mode FieldUpdate - - ! : typeclass_instances.
Arguments update_field {R E} field {_} _ _ /.

Declare Scope record_scope.
Delimit Scope record_scope with record.
#[global] Open Scope record_scope.
Notation "r <| field ::= f |>" := (update_field field f r)
  (at level 1, f at level 99, left associativity,
   format "r <| field  ::=  f |>") : record_scope.
Notation "r <| field := v |>" := (update_field field (λ _, v) r)
  (at level 1, v at level 99, left associativity,
   format "r <| field  :=  v |>") : record_scope.

(** ** Go values

    [any] stands for Go's [interface{}] values held in metadata, results and documents.
    A finite [float64] is an integral value, the fraction [m / 2^e] or negative zero.  A
    map is the list of its fields in the order of their keys; a struct the list of its
    fields as encoding/json sees them, in the order of their declaration.  The opaque
    values are those [json.Marshal] refuses: channels, functions, infinities. *)

Inductive float64 : Type :=
| FInt (z : Z)
| FFrac (m : Z) (e : positive)
| FNegZero.
#[export] Instance float64_eq_dec : EqDecision float64.
Proof. solve_decision. Defined.

Inductive any : Type :=
| ANil
| ABool (b : bool)
| AInt (n : Z)
| AFloat (f : float64)
| AString (s : string)
| ATypedNil
| ASlice (l : list any)
| AMap (fields : list (string * any))
| AStruct (fields : list (string * any))
| AOpaque (tag : positive).

#[export] Instance any_eq_dec : EqDecision any.
Proof.
  refine (fix go x y :=
    let _ : EqDecision any := @go in
    match x, y with
    | ANil, ANil | ATypedNil, ATypedNil => left eq_refl
    | ABool b, ABool b' => cast_if (decide (b = b'))
    | AInt n, AInt n' => cast_if (decide (n = n'))
    | AFloat f, AFloat f' => cast_if (decide (f = f'))
    | AString s, AString s' => cast_if (decide (s = s'))
    | ASlice l, ASlice l' => cast_if (decide (l = l'))
    | AMap l, AMap l' => cast_if (decide (l = l'))
    | AStruct l, AStruct l' => cast_if (decide (l = l'))
    | AOpaque p, AOpaque p' => cast_if (decide (p = p'))
    | _, _ => right _
    end); abstract congruence.
Defined.

Definition any_is_nil (v : any) : bool :=
  match v with ANil => true | _ => false end.

(** A Go [map[string]any].  A nil map and an empty map are identified: [len],
    [range] and lookups do not tell them apart. *)
Abbreviation AnyMap := (gmap string any).

(** ** Time

    A [time.Time] is its number of nanoseconds since Go's zero time, a
    [time.Duration] a number of nanoseconds; [UTC()] and monotonic readings do
    not change the instant. *)

Abbreviation Time := Z (only parsing).
Abbreviation Duration := Z (only parsing).

Definition zero_time : Time := 0.
Definition IsZero (t : Time) : bool := t =? 0.
Definition After (t u : Time) : bool := u <? t.
Definition Before (t u : Time) : bool := t <? u.
Definition TimeAdd (t : Time) (d : Duration) : Time := t + d.

(** [UnixNano] of a time, wrapped to Go's int64. *)
Definition int64_wrap (z : Z) : Z := (z + 2 ^ 63) mod 2 ^ 64 - 2 ^ 63.
Definition unix_epoch : Time := 62135596800 * 1000000000.
Definition UnixNano (t : Time) : Z := int64_wrap (t - unix_epoch).

(** ** Strings *)

(** Go's [%d] verb and [strconv.Itoa]. *)
Definition itoa (n : Z) : string := pretty n.

(** The UTF-8 encodings of the runes [unicode.IsSpace] accepts. *)
Definition byte_string (l : list nat) : string :=
  foldr (λ n s, String (Ascii.ascii_of_nat n) s) EmptyString l.

Definition space_runes : list string :=
  (λ n, byte_string [n]) <$> [9%nat; 10%nat; 11%nat; 12%nat; 13%nat; 32%nat].
Definition wide_space_runes : list string :=
  byte_string <$>
    ([ [194; 133]; [194; 160]; [225; 154; 128];
       [226; 128; 168]; [226; 128; 169]; [226; 128; 175]; [226; 129; 159];
       [227; 128; 128] ]
     ++ ((λ n, [226; 128; n]) <$> seq 128 11))%nat.

Fixpoint strip_prefix (p s : string) : option string :=
  match p, s with
  | EmptyString, _ => Some s
  | String a p, String b s => if Ascii.eqb a b then strip_prefix p s else None
  | String _ _, EmptyString => None
  end.

Definition strip_any (ps : list string) (s : string) : option string :=
  foldr (λ p acc, match strip_prefix p s with Some r => Some r | None => acc end) None ps.

Fixpoint trim_with (fuel : nat) (ps : list string) (s : string) : string :=
  match fuel with
  | O => s
  | S fuel =>
    match strip_any ps s with
    | Some r => trim_with fuel ps r
    | None => s
    end
  end.

Fixpoint string_rev_app (s acc : string) : string :=
  match s with
  | EmptyString => acc
  | String a s => string_rev_app s (String a acc)
  end.
Definition string_rev (s : string) : string := string_rev_app s EmptyString.

(** [strings.TrimSpace]: white space is dropped from both ends.  The fuel is the
    length of the string, and every dropped rune has at least one byte. *)
Definition TrimSpace (s : string) : string :=
  let ps := space_runes ++ wide_space_runes in
  let l := trim_with (String.length s) ps s in
  string_rev (trim_with (String.length l) (string_rev <$> ps) (string_rev l)).

(** ** Errors

    Package-level sentinels are compared by identity and are identified with
    their message; wrapping errors carry the error they wrap; the concrete error
    types the modelled code inspects with [errors.As] are constructors. *)

Inductive error : Type :=
| ESentinel (msg : string)                       (* var Err... = errors.New(msg) *)
| ENew (msg : string)                            (* errors.New / fmt.Errorf without %w *)
| EWrap (prefix : string) (inner : error) (suffix : string) (* fmt.Errorf("..%w..") *)
| ERetryable (inner : error)                     (* orchestrator.RetryableError *)
| ERetryableNil                                  (* RetryableError{Err: nil} *)
| ETaskCancelCause (reason : string)             (* orchestrator.TaskCancelCause *)
| ERunAbortCause (reason : string)               (* orchestrator.RunAbortCause *)
| EModelRetry (msg : string)                     (* core.ModelRetryError *)
| EFatalTool (inner : error)                     (* core.FatalToolError *)
| EFatalToolNil                                  (* FatalToolError{Err: nil} *)
| ECallDeferred (msg : string)                   (* core.CallDeferred *)
| EUsageLimitExceeded (msg : string)             (* core.UsageLimitExceeded *)
| EQuotaExceeded (msg : string)                  (* core.QuotaExceededError *)
| EUnexpectedModelBehavior (msg : string)        (* core.UnexpectedModelBehavior *)
| EContentFilter (msg : string)                  (* core.ContentFilterError *)
| EIncompleteToolCall (msg : string)             (* core.IncompleteToolCall *)
| EGuardrail (name msg : string)                 (* core.GuardrailError *)
| ERunCondition (reason : string)                (* core.RunConditionError *)
| EModelHTTP (msg : string) (statusCode : Z) (body : string) (retryAfter : Z) (* core.ModelHTTPError *)
| EFailedCurrentTask (reason : string)           (* team.failedCurrentTaskError *)
| ENet (msg : string)                            (* an error of package net *)
| EJoin (first rest : error).                    (* errors.Join of two or more *)

#[export] Instance error_eq_dec : EqDecision error.
Proof. solve_decision. Defined.

(** [errors.Is(err, target)] for a sentinel target: some error of the unwrap
    chain is the target. *)
Fixpoint errors_is (e : error) (target : string) : bool :=
  match e with
  | ESentinel m => String.eqb m target
  | EWrap _ inner _ => errors_is inner target
  | ERetryable inner | EFatalTool inner => errors_is inner target
  | EJoin first rest => errors_is first target || errors_is rest target
  | _ => false
  end.

(** ** Results of fallible operations *)

Inductive res (A : Type) : Type :=
| Ok (a : A)
| Err (e : error).
Arguments Ok {A} _.
Arguments Err {A} _.

Definition is_ok {A} (r : res A) : bool := match r with Ok _ => true | Err _ => false end.

Lemma pair_ok_inj {A B} (a a' : A) (b b' : B) :
  (a, Ok b) = (a', Ok b') → a' = a ∧ b' = b.
Proof. by intros [= -> ->]. Qed.

(** ** Filters that keep everything, or a property of everything *)

Lemma filter_all {A} (P : A → Prop) `{∀ x, Decision (P x)} (l : list A) : Forall P l → filter P l = l.
Proof. induction 1; [done|]. rewrite filter_cons_True by done. by f_equal. Qed.
Lemma Forall_filter {A} (P Q : A → Prop) `{∀ x, Decision (P x)} (l : list A) : Forall Q l → Forall Q (filter P l).
Proof. induction 1; [constructor|]. rewrite filter_cons. case_decide; [by constructor|done]. Qed.
