(* ===== verification/Errors.v ===== *)
(** * Errors of core and orchestrator

    The [Error()] methods and the [errors.As] inspections of the concrete error
    types: src/core/errors.go, src/core/deferred.go, src/core/quota.go,
    src/core/guardrails.go, src/core/condition.go,
    src/ext/orchestrator/types.go and src/ext/orchestrator/commands.go. *)

From S2P Require Import Prelude.

(** The [%q] verb for byte strings: quotes, backslashes and control bytes are
    escaped, printable ASCII and UTF-8 sequences are kept. *)
Definition quote_char : string := byte_string [34%nat].

Definition hex_digit (n : nat) : string :=
  byte_string [(if n <? 10 then 48 + n else 87 + n)%nat].

Definition quote_byte (a : Ascii.ascii) : string :=
  match Ascii.nat_of_ascii a with
  | 7 => "\a" | 8 => "\b" | 9 => "\t" | 10 => "\n" | 11 => "\v" | 12 => "\f" | 13 => "\r"
  | 34 => byte_string [92; 34]
  | 92 => byte_string [92; 92]
  | n => if (n <? 32) || (n =? 127)
         then "\x" +:+ hex_digit (n / 16) +:+ hex_digit (n mod 16)
         else String a EmptyString
  end%nat.

Fixpoint quote_body (s : string) : string :=
  match s with
  | EmptyString => EmptyString
  | String a s => quote_byte a +:+ quote_body s
  end.
Definition go_quote (s : string) : string := quote_char +:+ quote_body s +:+ quote_char.

(** [formatCommandCause] with a non-nil cause. *)
Definition formatCommandCause (prefix reason : string) : string :=
  let prefix := if String.eqb (TrimSpace prefix) "" then "orchestrator command" else prefix in
  let trimmed := TrimSpace reason in
  if negb (String.eqb trimmed "") then prefix +:+ ": " +:+ trimmed else prefix.

Definition TaskCancelCause_Error (reason : string) : string :=
  formatCommandCause "orchestrator task canceled" reason.
Definition RunAbortCause_Error (reason : string) : string :=
  formatCommandCause "orchestrator run aborted" reason.

Definition UsageLimitExceeded_Error (msg : string) : string :=
  if negb (String.eqb msg "") then msg else "usage limit exceeded".
Definition GuardrailError_Error (name msg : string) : string :=
  "guardrail " +:+ go_quote name +:+ ": " +:+ msg.

Definition failedCurrentTaskError_Error (reason : string) : string :=
  if String.eqb reason "" then "current team task failed" else "current team task failed: " +:+ reason.

(** [err.Error()]. *)
Fixpoint Error (e : error) : string :=
  match e with
  | ESentinel m | ENew m => m
  | EWrap p inner s => p +:+ Error inner +:+ s
  | ERetryable inner => Error inner
  | ERetryableNil => "retryable task failure"
  | ETaskCancelCause reason => TaskCancelCause_Error reason
  | ERunAbortCause reason => RunAbortCause_Error reason
  | EModelRetry m => m
  | EFatalTool inner => Error inner
  | EFatalToolNil => "fatal tool error"
  | ECallDeferred m => "deferred: " +:+ m
  | EUsageLimitExceeded m => UsageLimitExceeded_Error m
  | EQuotaExceeded m => "usage quota exceeded: " +:+ m
  | EUnexpectedModelBehavior m | EContentFilter m | EIncompleteToolCall m => m
  | EGuardrail name m => GuardrailError_Error name m
  | ERunCondition reason => "run stopped: " +:+ reason
  | EModelHTTP m code _ _ => m +:+ " (status " +:+ itoa code +:+ ")"
  | EFailedCurrentTask reason => failedCurrentTaskError_Error reason
  | ENet m => m
  | EJoin first rest => Error first +:+ byte_string [10%nat] +:+ Error rest
  end.

(** The unwrap chain of an error, outermost first. *)
Fixpoint unwrap_chain (e : error) : list error :=
  e :: match e with
       | EWrap _ inner _ | ERetryable inner | EFatalTool inner => unwrap_chain inner
       | EJoin first rest => unwrap_chain first ++ unwrap_chain rest
       | _ => []
       end.

(** [errors.As] for a pointer type of the chain: the first error of that type. *)
Definition errors_as {A} (select : error → option A) (e : error) : option A :=
  head (omap select (unwrap_chain e)).

Definition as_retryable (e : error) : option error :=
  match e with ERetryable _ | ERetryableNil => Some e | _ => None end.
Definition as_fatal (e : error) : option error :=
  match e with EFatalTool _ | EFatalToolNil => Some e | _ => None end.
Definition as_deferred (e : error) : option string :=
  match e with ECallDeferred m => Some m | _ => None end.
Definition as_failed_current (e : error) : option string :=
  match e with EFailedCurrentTask reason => Some reason | _ => None end.
Definition as_task_cancel (e : error) : option string :=
  match e with ETaskCancelCause reason => Some reason | _ => None end.
Definition as_model_retry (e : error) : option string :=
  match e with EModelRetry m => Some m | _ => None end.

Definition isRetryable (e : error) : bool :=
  bool_decide (is_Some (errors_as as_retryable e)).

(** [Retryable(err)]. *)
Definition Retryable (e : option error) : option error := ERetryable <$> e.

(** ** Sentinels of the orchestrator package *)

Definition ErrTaskNotFound := ESentinel "orchestrator: task not found".
Definition ErrTaskDependencyNotFound := ESentinel "orchestrator: task dependency not found".
Definition ErrTaskBlocked := ESentinel "orchestrator: task blocked".
Definition ErrNoReadyTask := ESentinel "orchestrator: no ready task".
Definition ErrTaskNotCancelable := ESentinel "orchestrator: task not cancelable".
Definition ErrTaskNotRetryable := ESentinel "orchestrator: task not retryable".
Definition ErrArtifactNotFound := ESentinel "orchestrator: artifact not found".
Definition ErrArtifactTaskRequired := ESentinel "orchestrator: artifact task id required".
Definition ErrLeaseNotFound := ESentinel "orchestrator: lease not found".
Definition ErrLeaseExpired := ESentinel "orchestrator: lease expired".
Definition ErrLeaseMismatch := ESentinel "orchestrator: lease token mismatch".
Definition ErrCommandNotFound := ESentinel "orchestrator: command not found".
Definition ErrNoPendingCommand := ESentinel "orchestrator: no pending command".
Definition ErrCommandClaimMismatch := ESentinel "orchestrator: command claim mismatch".
Definition ErrEventNotFound := ESentinel "orchestrator: event not found".
Definition ErrRunNotFound := ESentinel "orchestrator: run not found".
Definition ErrRunControlUnavailable := ESentinel "orchestrator: run control unavailable".
Definition ErrInvalidCommand := ESentinel "orchestrator: invalid command".

(** context.Canceled and context.DeadlineExceeded of the standard library. *)
Definition ContextCanceled := ESentinel "context canceled".
Definition ContextDeadlineExceeded := ESentinel "context deadline exceeded".

(** [errors.Is(e, target)] with a sentinel value as target. *)
Definition Is (e target : error) : bool :=
  match target with ESentinel m => errors_is e m | _ => bool_decide (e = target) end.

Lemma Is_chain e m : Is e (ESentinel m) = true ↔ ESentinel m ∈ unwrap_chain e.
Proof.
  simpl. induction e; simpl; rewrite ?elem_of_cons, ?elem_of_nil, ?String.eqb_eq;
    try rewrite IHe; try rewrite orb_true_iff, IHe1, IHe2, elem_of_app; naive_solver.
Qed.
