(* ===== verification/Usage.v ===== *)
(** * Usage accounting, limits and quotas

    src/core/usage.go and src/core/quota.go: token and request counters of a
    run, the per-run [UsageLimits] and the hard [UsageQuota].  Counters are Go
    [int]s; they are modelled as unbounded integers, which agree with the
    64-bit ones as long as the totals stay below 2^63. *)

From S2P Require Import Prelude Errors.

Record Usage := MkUsage {
  InputTokens : Z;
  OutputTokens : Z;
  CacheWriteTokens : Z;
  CacheReadTokens : Z;
  Details : gmap string Z;
}.
#[export] Instance Usage_eta : RecordEta Usage := λ u,
  MkUsage (InputTokens u) (OutputTokens u) (CacheWriteTokens u) (CacheReadTokens u) (Details u).

Definition zero_usage : Usage := MkUsage 0 0 0 0 ∅.

Definition TotalTokens (u : Usage) : Z := InputTokens u + OutputTokens u.

(** [for k, v := range other { d[k] += v }]: the entries are independent, so the
    range order does not matter. *)
Definition add_details (d other : gmap string Z) : gmap string Z :=
  union_with (λ x y, Some (x + y)) d other.

Definition Usage_Incr (u other : Usage) : Usage :=
  MkUsage
    (InputTokens u + InputTokens other)
    (OutputTokens u + OutputTokens other)
    (CacheWriteTokens u + CacheWriteTokens other)
    (CacheReadTokens u + CacheReadTokens other)
    (if bool_decide (Details other = ∅) then Details u
     else add_details (Details u) (Details other)).

(** [RunUsage] embeds [Usage]. *)
Record RunUsage := MkRunUsage {
  ru_Usage : Usage;
  Requests : Z;
  ToolCalls : Z;
}.
#[export] Instance RunUsage_eta : RecordEta RunUsage := λ u,
  MkRunUsage (ru_Usage u) (Requests u) (ToolCalls u).

Definition zero_run_usage : RunUsage := MkRunUsage zero_usage 0 0.

Definition IncrRequest (u : RunUsage) (other : Usage) : RunUsage :=
  u <| ru_Usage ::= λ x, Usage_Incr x other |> <| Requests ::= Z.add 1 |>.

Definition IncrToolCall (u : RunUsage) : RunUsage := u <| ToolCalls ::= Z.add 1 |>.

Definition IncrRun (u other : RunUsage) : RunUsage :=
  MkRunUsage (Usage_Incr (ru_Usage u) (ru_Usage other))
    (Requests u + Requests other) (ToolCalls u + ToolCalls other).

(** [UsageLimits]: a nil pointer is no limit. *)
Record UsageLimits := MkUsageLimits {
  RequestLimit : option Z;
  InputTokensLimit : option Z;
  OutputTokensLimit : option Z;
  TotalTokensLimit : option Z;
  ToolCallsLimit : option Z;
}.

Definition DefaultUsageLimits : UsageLimits := MkUsageLimits (Some 50) None None None None.

Definition limit_msg (what : string) (limit used : Z) : error :=
  EUsageLimitExceeded (what +:+ " limit of " +:+ itoa limit +:+ " exceeded (used " +:+ itoa used +:+ ")").

Definition CheckBeforeRequest (l : UsageLimits) (u : RunUsage) : option error :=
  match RequestLimit l with
  | Some n => if Requests u >=? n then Some (limit_msg "request" n (Requests u)) else None
  | None => None
  end.

Definition CheckTokens (l : UsageLimits) (u : RunUsage) : option error :=
  let exceeded (what : string) (limit : option Z) (used : Z) : option error :=
    match limit with
    | Some n => if used >? n then Some (limit_msg what n used) else None
    | None => None
    end in
  match exceeded "input token" (InputTokensLimit l) (InputTokens (ru_Usage u)) with
  | Some e => Some e
  | None =>
    match exceeded "output token" (OutputTokensLimit l) (OutputTokens (ru_Usage u)) with
    | Some e => Some e
    | None => exceeded "total token" (TotalTokensLimit l) (TotalTokens (ru_Usage u))
    end
  end.

Definition CheckToolCalls (l : UsageLimits) (u : RunUsage) : option error :=
  match ToolCallsLimit l with
  | Some n => if ToolCalls u >? n then Some (limit_msg "tool call" n (ToolCalls u)) else None
  | None => None
  end.

Definition HasTokenLimits (l : UsageLimits) : bool :=
  bool_decide (is_Some (InputTokensLimit l)) ||
  bool_decide (is_Some (OutputTokensLimit l)) ||
  bool_decide (is_Some (TotalTokensLimit l)).

Record UsageQuota := MkUsageQuota {
  MaxRequests : Z;
  MaxTotalTokens : Z;
  MaxInputTokens : Z;
  MaxOutputTokens : Z;
}.

Definition quota_msg (what : string) (limit used : Z) : error :=
  EQuotaExceeded (what +:+ " limit " +:+ itoa limit +:+ " reached (used " +:+ itoa used +:+ ")").

Definition checkQuota (quota : option UsageQuota) (u : RunUsage) : option error :=
  match quota with
  | None => None
  | Some q =>
    if (MaxRequests q >? 0) && (Requests u >=? MaxRequests q) then
      Some (quota_msg "request" (MaxRequests q) (Requests u))
    else if (MaxTotalTokens q >? 0) && (TotalTokens (ru_Usage u) >=? MaxTotalTokens q) then
      Some (quota_msg "total token" (MaxTotalTokens q) (TotalTokens (ru_Usage u)))
    else if (MaxInputTokens q >? 0) && (InputTokens (ru_Usage u) >=? MaxInputTokens q) then
      Some (quota_msg "input token" (MaxInputTokens q) (InputTokens (ru_Usage u)))
    else if (MaxOutputTokens q >? 0) && (OutputTokens (ru_Usage u) >=? MaxOutputTokens q) then
      Some (quota_msg "output token" (MaxOutputTokens q) (OutputTokens (ru_Usage u)))
    else None
  end.

(** ** Lemmas *)

Lemma lookup_add_details (d e : gmap string Z) k :
  default 0 (add_details d e !! k) = default 0 (d !! k) + default 0 (e !! k).
Proof.
  unfold add_details. rewrite lookup_union_with.
  destruct (d !! k), (e !! k); simpl; lia.
Qed.

(** The two ways of writing [Incr]'s details agree on every key. *)
Lemma Usage_Incr_details u v k :
  default 0 (Details (Usage_Incr u v) !! k) =
  default 0 (Details u !! k) + default 0 (Details v !! k).
Proof.
  simpl. case_bool_decide as H; [|apply lookup_add_details].
  rewrite H, lookup_empty. simpl. lia.
Qed.

Lemma add_details_assoc d e f :
  add_details d (add_details e f) = add_details (add_details d e) f.
Proof.
  apply map_eq; intros k. unfold add_details. rewrite !lookup_union_with.
  destruct (d !! k), (e !! k), (f !! k); simpl; f_equal; lia.
Qed.

Lemma CheckBeforeRequest_pass l u n :
  RequestLimit l = Some n → CheckBeforeRequest l u = None → Requests u < n.
Proof.
  unfold CheckBeforeRequest. intros ->. rewrite Z.geb_leb.
  destruct (Z.leb_spec n (Requests u)); [discriminate|lia].
Qed.

Lemma Requests_IncrRequest u v : Requests (IncrRequest u v) = 1 + Requests u.
Proof. reflexivity. Qed.
