(* ===== verification/OrchTypes.v ===== *)
(** * Orchestrator data model

    The records, enumerations and events of src/ext/orchestrator/types.go,
    commands.go, artifacts.go, recovery.go, query.go, runner.go and events.go.
    A Go pointer that may be nil is an [option]; slices are lists, with nil and
    empty identified. *)

From S2P Require Import Prelude Errors Usage.

(** [TaskStatusNone] is the empty string, the zero value of the type. *)
Inductive TaskStatus :=
| TaskPending | TaskRunning | TaskCompleted | TaskFailed | TaskCanceled | TaskStatusNone.

Inductive CommandKind :=
| CommandCancelTask | CommandAbortRun | CommandRetryTask
| CommandKindOther (s : string).

Inductive CommandStatus := CommandPending | CommandClaimed | CommandHandled.

#[export] Instance TaskStatus_eq_dec : EqDecision TaskStatus.
Proof. solve_decision. Defined.
#[export] Instance CommandKind_eq_dec : EqDecision CommandKind.
Proof. solve_decision. Defined.
#[export] Instance CommandStatus_eq_dec : EqDecision CommandStatus.
Proof. solve_decision. Defined.

Record RunRef := MkRunRef {
  run_ID : string;
  run_TaskID : string;
  run_WorkerID : string;
  run_Attempt : Z;
  run_StartedAt : Time;
}.

Record TaskResult := MkTaskResult {
  result_RunnerRunID : string;
  result_Output : any;
  result_Usage : RunUsage;
  result_ToolState : AnyMap;
  result_Metadata : AnyMap;
  result_CompletedAt : Time;
}.
#[export] Instance TaskResult_eta : RecordEta TaskResult := λ r,
  MkTaskResult (result_RunnerRunID r) (result_Output r) (result_Usage r)
    (result_ToolState r) (result_Metadata r) (result_CompletedAt r).

Record Task := MkTask {
  task_ID : string;
  task_Kind : string;
  task_Subject : string;
  task_Description : string;
  task_Input : string;
  task_Status : TaskStatus;
  task_Attempt : Z;
  task_MaxAttempts : Z;
  task_Blocks : list string;
  task_BlockedBy : list string;
  task_Metadata : AnyMap;
  task_Run : option RunRef;
  task_Result : option TaskResult;
  task_LastError : string;
  task_CreatedAt : Time;
  task_UpdatedAt : Time;
  task_StartedAt : Time;
  task_CompletedAt : Time;
}.
#[export] Instance Task_eta : RecordEta Task := λ t,
  MkTask (task_ID t) (task_Kind t) (task_Subject t) (task_Description t) (task_Input t)
    (task_Status t) (task_Attempt t) (task_MaxAttempts t) (task_Blocks t)
    (task_BlockedBy t) (task_Metadata t) (task_Run t) (task_Result t) (task_LastError t)
    (task_CreatedAt t) (task_UpdatedAt t) (task_StartedAt t) (task_CompletedAt t).

Record Lease := MkLease {
  lease_ID : string;
  lease_TaskID : string;
  lease_WorkerID : string;
  lease_Token : string;
  lease_AcquiredAt : Time;
  lease_ExpiresAt : Time;
}.
#[export] Instance Lease_eta : RecordEta Lease := λ l,
  MkLease (lease_ID l) (lease_TaskID l) (lease_WorkerID l) (lease_Token l)
    (lease_AcquiredAt l) (lease_ExpiresAt l).

Record CreateTaskRequest := MkCreateTaskRequest {
  ctr_Kind : string;
  ctr_Subject : string;
  ctr_Description : string;
  ctr_Input : string;
  ctr_Blocks : list string;
  ctr_BlockedBy : list string;
  ctr_MaxAttempts : Z;
  ctr_Metadata : AnyMap;
}.

Record UpdateTaskRequest := MkUpdateTaskRequest {
  utr_ID : string;
  utr_Subject : option string;
  utr_Description : option string;
  utr_AddBlocks : list string;
  utr_AddBlockedBy : list string;
  utr_Metadata : AnyMap;
}.

Record TaskFilter := MkTaskFilter {
  tf_Kinds : list string;
  tf_Statuses : list TaskStatus;
}.

Record ClaimTaskRequest := MkClaimTaskRequest {
  claim_WorkerID : string;
  claim_LeaseTTL : Duration;
  claim_Now : Time;
  claim_Kinds : list string;
  claim_ExcludeTaskIDs : list string;
}.

Record ClaimedTask := MkClaimedTask {
  claimed_Task : Task;
  claimed_Lease : Lease;
  claimed_Run : option RunRef;
}.

Record Artifact := MkArtifact {
  art_ID : string;
  art_TaskID : string;
  art_RunID : string;
  art_Kind : string;
  art_Name : string;
  art_ContentType : string;
  art_Body : string;
  art_Metadata : AnyMap;
  art_CreatedAt : Time;
}.
#[export] Instance Artifact_eta : RecordEta Artifact := λ x,
  MkArtifact (art_ID x) (art_TaskID x) (art_RunID x) (art_Kind x) (art_Name x) (art_ContentType x)
    (art_Body x) (art_Metadata x) (art_CreatedAt x).

Record ArtifactSpec := MkArtifactSpec {
  spec_Kind : string;
  spec_Name : string;
  spec_ContentType : string;
  spec_Body : string;
  spec_Metadata : AnyMap;
}.

Record CreateArtifactRequest := MkCreateArtifactRequest {
  car_TaskID : string;
  car_RunID : string;
  car_Kind : string;
  car_Name : string;
  car_ContentType : string;
  car_Body : string;
  car_Metadata : AnyMap;
}.

Record ArtifactFilter := MkArtifactFilter {
  af_TaskID : string;
  af_RunID : string;
  af_Kind : string;
  af_Name : string;
}.

Record TaskOutcome := MkTaskOutcome {
  outcome_Result : option TaskResult;
  outcome_Artifacts : list ArtifactSpec;
}.
#[export] Instance TaskOutcome_eta : RecordEta TaskOutcome := λ o,
  MkTaskOutcome (outcome_Result o) (outcome_Artifacts o).

Record Command := MkCommand {
  cmd_ID : string;
  cmd_Kind : CommandKind;
  cmd_TaskID : string;
  cmd_RunID : string;
  cmd_TargetWorkerID : string;
  cmd_Reason : string;
  cmd_Metadata : AnyMap;
  cmd_Status : CommandStatus;
  cmd_ClaimToken : string;
  cmd_ClaimedBy : string;
  cmd_HandledBy : string;
  cmd_CreatedAt : Time;
  cmd_ClaimedAt : Time;
  cmd_HandledAt : Time;
}.
#[export] Instance Command_eta : RecordEta Command := λ c,
  MkCommand (cmd_ID c) (cmd_Kind c) (cmd_TaskID c) (cmd_RunID c) (cmd_TargetWorkerID c)
    (cmd_Reason c) (cmd_Metadata c) (cmd_Status c) (cmd_ClaimToken c) (cmd_ClaimedBy c)
    (cmd_HandledBy c) (cmd_CreatedAt c) (cmd_ClaimedAt c) (cmd_HandledAt c).

Record CreateCommandRequest := MkCreateCommandRequest {
  ccr_Kind : CommandKind;
  ccr_TaskID : string;
  ccr_RunID : string;
  ccr_Reason : string;
  ccr_Metadata : AnyMap;
}.

Record CommandFilter := MkCommandFilter {
  cf_Kinds : list CommandKind;
  cf_Statuses : list CommandStatus;
  cf_TaskID : string;
  cf_RunID : string;
  cf_TargetWorkerID : string;
}.

Record ClaimCommandRequest := MkClaimCommandRequest {
  ccmd_WorkerID : string;
  ccmd_Now : Time;
}.

Record LeaseRecovery := MkLeaseRecovery {
  lrec_Task : Task;
  lrec_Lease : Lease;
  lrec_RecoveredAt : Time;
  lrec_ResultStatus : TaskStatus;
  lrec_Requeued : bool;
  lrec_Reason : string;
}.

Record CommandRecovery := MkCommandRecovery {
  crec_Command : Command;
  crec_RecoveredAt : Time;
  crec_ReleasedBy : string;
}.

Record ExpiredLeaseSummary := MkExpiredLeaseSummary {
  els_LeaseID : string;
  els_TaskID : string;
  els_RunID : string;
  els_WorkerID : string;
  els_Attempt : Z;
  els_ExpiresAt : Time;
}.

Record StaleClaimedCommandSummary := MkStaleClaimedCommandSummary {
  scs_CommandID : string;
  scs_Kind : CommandKind;
  scs_TaskID : string;
  scs_RunID : string;
  scs_TargetWorkerID : string;
  scs_ClaimedBy : string;
  scs_ClaimedAt : Time;
  scs_Reason : string;
}.

(** ** Lifecycle events (events.go) *)

Record TaskCreatedEvent := MkTaskCreatedEvent {
  tce_TaskID : string; tce_Kind : string; tce_Subject : string;
  tce_Description : string; tce_CreatedAt : Time }.
Record TaskUpdatedEvent := MkTaskUpdatedEvent {
  tue_TaskID : string; tue_Subject : string; tue_Blocks : list string;
  tue_BlockedBy : list string; tue_UpdatedAt : Time }.
Record TaskDeletedEvent := MkTaskDeletedEvent {
  tde_TaskID : string; tde_DeletedAt : Time }.
Record TaskClaimedEvent := MkTaskClaimedEvent {
  tcl_TaskID : string; tcl_RunID : string; tcl_LeaseID : string; tcl_WorkerID : string;
  tcl_Attempt : Z; tcl_AcquiredAt : Time; tcl_ExpiresAt : Time }.
Record LeaseRenewedEvent := MkLeaseRenewedEvent {
  lre_TaskID : string; lre_RunID : string; lre_LeaseID : string;
  lre_WorkerID : string; lre_ExpiresAt : Time }.
Record LeaseReleasedEvent := MkLeaseReleasedEvent {
  lrl_TaskID : string; lrl_RunID : string; lrl_LeaseID : string; lrl_WorkerID : string;
  lrl_ReleasedAt : Time; lrl_Requeued : bool; lrl_ResultStatus : TaskStatus;
  lrl_Reason : string; lrl_Recovered : bool }.
Record TaskRequeuedEvent := MkTaskRequeuedEvent {
  trq_TaskID : string; trq_LastRunID : string; trq_LastAttempt : Z;
  trq_Reason : string; trq_RequeuedAt : Time }.
Record TaskCompletedEvent := MkTaskCompletedEvent {
  tcp_TaskID : string; tcp_RunID : string; tcp_Attempt : Z; tcp_CompletedAt : Time }.
Record TaskFailedEvent := MkTaskFailedEvent {
  tfe_TaskID : string; tfe_RunID : string; tfe_Attempt : Z; tfe_Error : string;
  tfe_FailedAt : Time }.
Record TaskCanceledEvent := MkTaskCanceledEvent {
  tca_TaskID : string; tca_RunID : string; tca_Attempt : Z; tca_Reason : string;
  tca_CanceledAt : Time }.
Record ArtifactCreatedEvent := MkArtifactCreatedEvent {
  ace_ArtifactID : string; ace_TaskID : string; ace_RunID : string; ace_Kind : string;
  ace_Name : string; ace_ContentType : string; ace_SizeBytes : Z; ace_CreatedAt : Time }.
Record CommandCreatedEvent := MkCommandCreatedEvent {
  cce_CommandID : string; cce_Kind : CommandKind; cce_TaskID : string; cce_RunID : string;
  cce_TargetWorkerID : string; cce_CreatedAt : Time }.
Record CommandClaimedEvent := MkCommandClaimedEvent {
  ccl_CommandID : string; ccl_Kind : CommandKind; ccl_TaskID : string; ccl_RunID : string;
  ccl_ClaimedBy : string; ccl_ClaimedAt : Time }.
Record CommandReleasedEvent := MkCommandReleasedEvent {
  crl_CommandID : string; crl_Kind : CommandKind; crl_TaskID : string; crl_RunID : string;
  crl_ReleasedBy : string; crl_ReleasedAt : Time; crl_Reason : string; crl_Recovered : bool }.
Record CommandHandledEvent := MkCommandHandledEvent {
  che_CommandID : string; che_Kind : CommandKind; che_TaskID : string; che_RunID : string;
  che_HandledBy : string; che_HandledAt : Time }.

(** The values a store publishes on its event bus. *)
Inductive Event :=
| EvTaskCreated (e : TaskCreatedEvent)
| EvTaskUpdated (e : TaskUpdatedEvent)
| EvTaskDeleted (e : TaskDeletedEvent)
| EvTaskClaimed (e : TaskClaimedEvent)
| EvLeaseRenewed (e : LeaseRenewedEvent)
| EvLeaseReleased (e : LeaseReleasedEvent)
| EvTaskRequeued (e : TaskRequeuedEvent)
| EvTaskCompleted (e : TaskCompletedEvent)
| EvTaskFailed (e : TaskFailedEvent)
| EvTaskCanceled (e : TaskCanceledEvent)
| EvArtifactCreated (e : ArtifactCreatedEvent)
| EvCommandCreated (e : CommandCreatedEvent)
| EvCommandClaimed (e : CommandClaimedEvent)
| EvCommandReleased (e : CommandReleasedEvent)
| EvCommandHandled (e : CommandHandledEvent).
