(* ===== verification/MemStore.v ===== *)
(** * In-memory orchestration store: tasks, leases and artifacts

    src/ext/orchestrator/memory/store.go and artifacts.go.  Every exported
    method holds the store's mutex for its whole body, so each is one atomic
    function on [Store].  The objects of the maps are only reachable through the
    store (methods return clones), so a mutation through a pointer obtained from
    [s.tasks[id]] is an update of the map at [id].

    [wall i] is the i-th reading of [time.Now()] inside the call.  The event bus
    is the log [st_published]; with no bus ([st_bus = false]) nothing is
    published.  Where the Go code ranges over a map to publish updates, the order
    is unspecified; the model takes the order of [map_to_list]. *)

From S2P Require Import Prelude Errors Usage OrchTypes.

Record Store := MkStore {
  st_tasks : gmap string Task;
  st_taskOrder : list string;
  st_leases : gmap string Lease;
  st_commands : gmap string Command;
  st_commandOrder : list string;
  st_artifacts : gmap string Artifact;
  st_artifactOrder : list string;
  st_nextTask : Z;
  st_nextLease : Z;
  st_nextRun : Z;
  st_nextCommand : Z;
  st_nextArtifact : Z;
  st_bus : bool;
  st_published : list Event;
}.
#[export] Instance Store_eta : RecordEta Store := λ s,
  MkStore (st_tasks s) (st_taskOrder s) (st_leases s) (st_commands s) (st_commandOrder s)
    (st_artifacts s) (st_artifactOrder s) (st_nextTask s) (st_nextLease s) (st_nextRun s)
    (st_nextCommand s) (st_nextArtifact s) (st_bus s) (st_published s).

(** [NewStore()], with or without [WithEventBus]. *)
Definition NewStore (bus : bool) : Store :=
  MkStore ∅ [] ∅ ∅ [] ∅ [] 0 0 0 0 0 bus [].

(** ** Helpers *)

Definition normalizeNow (wall now : Time) : Time := if IsZero now then wall else now.

Definition containsString (slice : list string) (target : string) : bool :=
  bool_decide (target ∈ slice).

Definition removeString (slice : list string) (target : string) : list string :=
  filter (λ item, item ≠ target) slice.

(** The [seen] set of the Go loop is always the set of elements of [dst]. *)
Definition append_unique (dst : list string) (v : string) : list string :=
  if String.eqb v "" then dst
  else if bool_decide (v ∈ dst) then dst else dst ++ [v].
Definition appendUniqueStrings (dst values : list string) : list string :=
  foldl append_unique dst values.
Arguments appendUniqueStrings : simpl never.

Definition matchesKinds (task : Task) (kinds : list string) : bool :=
  bool_decide (kinds = []) || bool_decide (task_Kind task ∈ kinds).
Definition matchesStatuses (task : Task) (statuses : list TaskStatus) : bool :=
  bool_decide (statuses = []) || bool_decide (task_Status task ∈ statuses).
Definition matchesFilter (task : Task) (filter : TaskFilter) : bool :=
  matchesKinds task (tf_Kinds filter) && matchesStatuses task (tf_Statuses filter).

Definition cancelReason (reason : string) : string :=
  let trimmed := TrimSpace reason in
  if negb (String.eqb trimmed "") then trimmed else "task canceled".
Definition retryReason (reason : string) : string :=
  let trimmed := TrimSpace reason in
  if negb (String.eqb trimmed "") then "command retry: " +:+ trimmed else "command retry".

Definition isBlocked (s : Store) (task : Task) : bool :=
  existsb (λ blockerID,
    match st_tasks s !! blockerID with
    | None => false
    | Some blocker => negb (bool_decide (task_Status blocker = TaskCompleted))
    end) (task_BlockedBy task).

Definition exhaustedAttempts (task : Task) : bool :=
  (task_MaxAttempts task >? 0) && (task_Attempt task >=? task_MaxAttempts task).

(** The run ID of a task, empty when it has no run. *)
Definition task_runID (task : Task) : string :=
  match task_Run task with Some r => run_ID r | None => "" end.

Definition putTask (id : string) (task : Task) (s : Store) : Store :=
  s <| st_tasks ::= <[id := task]> |>.
Definition dropLease (id : string) (s : Store) : Store := s <| st_leases ::= delete id |>.

(** ** Publishing *)

Definition publish (e : Event) (s : Store) : Store :=
  if st_bus s then s <| st_published ::= λ l, l ++ [e] |> else s.

Definition publishTaskCreated (task : Task) : Store → Store :=
  publish (EvTaskCreated (MkTaskCreatedEvent (task_ID task) (task_Kind task)
    (task_Subject task) (task_Description task) (task_CreatedAt task))).

Definition publishTaskUpdated (task : Task) : Store → Store :=
  publish (EvTaskUpdated (MkTaskUpdatedEvent (task_ID task) (task_Subject task)
    (task_Blocks task) (task_BlockedBy task) (task_UpdatedAt task))).

(** The peers are pointers into the store: what is published is their state at
    this point. *)
Definition publishTaskUpdates (ids : list string) (s : Store) : Store :=
  foldl (λ s id, match st_tasks s !! id with
                 | Some task => publishTaskUpdated task s
                 | None => s
                 end) s ids.

Definition publishTaskDeleted (taskID : string) (wall : Time) : Store → Store :=
  publish (EvTaskDeleted (MkTaskDeletedEvent taskID wall)).

Definition publishTaskClaimed (task : Task) (lease : Lease) (s : Store) : Store :=
  match task_Run task with
  | None => s
  | Some run =>
    publish (EvTaskClaimed (MkTaskClaimedEvent (task_ID task) (run_ID run) (lease_ID lease)
      (lease_WorkerID lease) (task_Attempt task) (lease_AcquiredAt lease)
      (lease_ExpiresAt lease))) s
  end.

Definition publishLeaseRenewed (lease : Lease) (runID : string) : Store → Store :=
  publish (EvLeaseRenewed (MkLeaseRenewedEvent (lease_TaskID lease) runID (lease_ID lease)
    (lease_WorkerID lease) (lease_ExpiresAt lease))).

Definition publishLeaseReleased (lease : Lease) (runID : string) (requeued : bool)
    (resultStatus : TaskStatus) (reason : string) (recovered : bool) (releasedAt : Time)
    : Store → Store :=
  publish (EvLeaseReleased (MkLeaseReleasedEvent (lease_TaskID lease) runID (lease_ID lease)
    (lease_WorkerID lease) releasedAt requeued resultStatus reason recovered)).

Definition publishTaskRequeued (task : Task) (lastRunID : string) (lastAttempt : Z)
    (reason : string) : Store → Store :=
  publish (EvTaskRequeued (MkTaskRequeuedEvent (task_ID task) lastRunID lastAttempt reason
    (task_UpdatedAt task))).

Definition publishTaskCompleted (task : Task) : Store → Store :=
  publish (EvTaskCompleted (MkTaskCompletedEvent (task_ID task) (task_runID task)
    (task_Attempt task) (task_CompletedAt task))).

Definition publishTaskFailed (task : Task) : Store → Store :=
  publish (EvTaskFailed (MkTaskFailedEvent (task_ID task) (task_runID task)
    (task_Attempt task) (task_LastError task) (task_CompletedAt task))).

Definition publishTaskCanceled (task : Task) : Store → Store :=
  publish (EvTaskCanceled (MkTaskCanceledEvent (task_ID task) (task_runID task)
    (task_Attempt task) (task_LastError task) (task_CompletedAt task))).

Definition publishArtifactCreated (a : Artifact) : Store → Store :=
  publish (EvArtifactCreated (MkArtifactCreatedEvent (art_ID a) (art_TaskID a) (art_RunID a)
    (art_Kind a) (art_Name a) (art_ContentType a) (Z.of_nat (String.length (art_Body a)))
    (art_CreatedAt a))).

(** ** Dependencies *)

Definition missing_dep (s : Store) (what : string) (ids : list string) : option error :=
  head (omap (λ id, match st_tasks s !! id with
                    | Some _ => None
                    | None => Some (EWrap "" ErrTaskDependencyNotFound
                                      (": " +:+ what +:+ " " +:+ go_quote id))
                    end) ids).

Definition validateTaskDependencies (s : Store) (blocks blockedBy : list string)
    : option error :=
  match missing_dep s "blocks" blocks with
  | Some e => Some e
  | None => missing_dep s "blocked_by" blockedBy
  end.

(** The loop state of [linkTaskDependencies]: the task map and the map [updated],
    from the ID of a changed peer to the key of its object. *)
Definition LinkAcc : Type := gmap string Task * gmap string string.

Definition link_blocked (selfID : string) (now : Time) (acc : LinkAcc) (blockedID : string)
    : LinkAcc :=
  match acc.1 !! blockedID with
  | None => acc
  | Some blocked =>
    let before := length (task_BlockedBy blocked) in
    let blocked := blocked <| task_BlockedBy ::= λ l, appendUniqueStrings l [selfID] |> in
    if bool_decide (length (task_BlockedBy blocked) = before)
    then (<[blockedID := blocked]> acc.1, acc.2)
    else (<[blockedID := blocked <| task_UpdatedAt := now |>]> acc.1,
          <[task_ID blocked := blockedID]> acc.2)
  end.

Definition link_blocker (selfID : string) (now : Time) (acc : LinkAcc) (blockerID : string)
    : LinkAcc :=
  match acc.1 !! blockerID with
  | None => acc
  | Some blocker =>
    let before := length (task_Blocks blocker) in
    let blocker := blocker <| task_Blocks ::= λ l, appendUniqueStrings l [selfID] |> in
    if bool_decide (length (task_Blocks blocker) = before)
    then (<[blockerID := blocker]> acc.1, acc.2)
    else (<[blockerID := blocker <| task_UpdatedAt := now |>]> acc.1,
          <[task_ID blocker := blockerID]> acc.2)
  end.

(** [deref] reads the task pointer: a task that is already stored is read through
    the map (a task may be its own peer), a new one is not stored yet. *)
Definition linkTaskDependencies (deref : gmap string Task → Task) (selfID : string)
    (now : Time) (s : Store) : Store * list string :=
  let acc1 := foldl (link_blocked selfID now) (st_tasks s, ∅)
                (task_Blocks (deref (st_tasks s))) in
  let acc2 := foldl (link_blocker selfID now) acc1 (task_BlockedBy (deref acc1.1)) in
  (s <| st_tasks := acc2.1 |>, (map_to_list acc2.2).*2).

(** ** Task operations *)

Definition CreateTask (wall : nat → Time) (req : CreateTaskRequest) (s : Store)
    : Store * res Task :=
  match validateTaskDependencies s (ctr_Blocks req) (ctr_BlockedBy req) with
  | Some e => (s, Err e)
  | None =>
    let s := s <| st_nextTask ::= Z.add 1 |> in
    let now := wall 0%nat in
    let id := "task-" +:+ itoa (st_nextTask s) in
    let task :=
      MkTask id (ctr_Kind req) (ctr_Subject req) (ctr_Description req) (ctr_Input req)
        TaskPending 0 (ctr_MaxAttempts req) (ctr_Blocks req) (ctr_BlockedBy req)
        (ctr_Metadata req) None None "" now now zero_time zero_time in
    let '(s, peers) := linkTaskDependencies (λ _, task) id now s in
    let s := putTask id task s in
    let s := s <| st_taskOrder ::= λ l, l ++ [id] |> in
    let s := publishTaskCreated task s in
    let s := publishTaskUpdates peers s in
    (s, Ok task)
  end.

Definition GetTask (id : string) (s : Store) : res Task :=
  match st_tasks s !! id with
  | Some task => Ok task
  | None => Err ErrTaskNotFound
  end.

Definition ListTasks (filter : TaskFilter) (s : Store) : list Task :=
  omap (λ id, match st_tasks s !! id with
              | Some task => if matchesFilter task filter then Some task else None
              | None => None
              end) (st_taskOrder s).

Definition lease_ttl_error : error := ENew "orchestrator/memory: lease ttl must be positive".

(** The exhausted branch of [claimTaskLocked]: the attempts of the task are used
    up; a task that is neither completed nor failed becomes failed. *)
Definition claim_exhausted (taskID : string) (now : Time) (task : Task) (s : Store) : Store :=
  if negb (bool_decide (task_Status task = TaskCompleted))
     && negb (bool_decide (task_Status task = TaskFailed)) then
    let task := task <| task_Status := TaskFailed |>
                     <| task_LastError := "task exhausted max attempts" |>
                     <| task_CompletedAt := now |> <| task_UpdatedAt := now |> in
    publishTaskFailed task (dropLease (task_ID task) (putTask taskID task s))
  else s.

(** The tail of [claimTaskLocked]: start a run and acquire a lease. *)
Definition claim_start (taskID : string) (req : ClaimTaskRequest) (now : Time)
    (task : Task) (s : Store) : Store * res ClaimedTask :=
  let s := s <| st_nextRun ::= Z.add 1 |> in
  let attempt := task_Attempt task + 1 in
  let run := MkRunRef ("run-" +:+ itoa (st_nextRun s)) (task_ID task) (claim_WorkerID req)
               attempt now in
  let task := task <| task_Attempt := attempt |> <| task_Status := TaskRunning |>
                   <| task_Run := Some run |> <| task_Result := None |>
                   <| task_LastError := "" |> <| task_StartedAt := now |>
                   <| task_CompletedAt := zero_time |> <| task_UpdatedAt := now |> in
  let s := putTask taskID task s in
  let s := s <| st_nextLease ::= Z.add 1 |> in
  let leaseID := "lease-" +:+ itoa (st_nextLease s) in
  let lease := MkLease leaseID (task_ID task) (claim_WorkerID req) leaseID now
                 (TimeAdd now (claim_LeaseTTL req)) in
  let s := s <| st_leases ::= <[task_ID task := lease]> |> in
  let s := publishTaskClaimed task lease s in
  (s, Ok (MkClaimedTask task lease (task_Run task))).

Definition claimTaskLocked (taskID : string) (req : ClaimTaskRequest) (now : Time)
    (s : Store) : Store * res ClaimedTask :=
  match st_tasks s !! taskID with
  | None => (s, Err ErrTaskNotFound)
  | Some task =>
    if containsString (claim_ExcludeTaskIDs req) taskID then (s, Err ErrNoReadyTask)
    else if negb (matchesKinds task (claim_Kinds req)) then (s, Err ErrNoReadyTask)
    else if isBlocked s task then (s, Err ErrTaskBlocked)
    else
      let lease := st_leases s !! taskID in
      let leaseExpired :=
        match lease with Some l => negb (After (lease_ExpiresAt l) now) | None => false end in
      let hasActiveLease :=
        match lease with Some _ => negb leaseExpired | None => false end in
      if hasActiveLease then (s, Err ErrNoReadyTask)
      else if exhaustedAttempts task then
        (claim_exhausted taskID now task s, Err ErrNoReadyTask)
      else
        match task_Status task with
        | TaskPending => claim_start taskID req now task s
        | TaskRunning =>
          if negb leaseExpired && bool_decide (is_Some lease)
          then (s, Err ErrNoReadyTask)
          else claim_start taskID req now task s
        | _ => (s, Err ErrNoReadyTask)
        end
  end.

(** The loop of [ClaimReadyTask] over the task order. *)
Fixpoint claim_scan (ids : list string) (req : ClaimTaskRequest) (now : Time) (s : Store)
    : Store * res ClaimedTask :=
  match ids with
  | [] => (s, Err ErrNoReadyTask)
  | id :: ids =>
    match claimTaskLocked id req now s with
    | (s, Ok claim) => (s, Ok claim)
    | (s, Err e) =>
      if Is e ErrNoReadyTask || Is e ErrTaskBlocked then claim_scan ids req now s
      else (s, Err e)
    end
  end.

Definition ClaimReadyTask (wall : nat → Time) (req : ClaimTaskRequest) (s : Store)
    : Store * res ClaimedTask :=
  if claim_LeaseTTL req <=? 0 then (s, Err lease_ttl_error)
  else claim_scan (st_taskOrder s) req (normalizeNow (wall 0%nat) (claim_Now req)) s.

Definition ClaimTask (wall : nat → Time) (taskID : string) (req : ClaimTaskRequest)
    (s : Store) : Store * res ClaimedTask :=
  if claim_LeaseTTL req <=? 0 then (s, Err lease_ttl_error)
  else claimTaskLocked taskID req (normalizeNow (wall 0%nat) (claim_Now req)) s.

(** [for key, value := range req.Metadata]: a nil value deletes the key.  Each
    key is visited once, so the range order does not matter. *)
Definition merge_metadata (old new : AnyMap) : AnyMap :=
  merge (λ o n, match n with
                | Some v => if any_is_nil v then None else Some v
                | None => o
                end) old new.

Definition UpdateTask (wall : nat → Time) (req : UpdateTaskRequest) (s : Store)
    : Store * res Task :=
  let id := utr_ID req in
  if String.eqb id "" then (s, Err (ENew "orchestrator/memory: task id must not be empty"))
  else
  match st_tasks s !! id with
  | None => (s, Err ErrTaskNotFound)
  | Some task =>
    match validateTaskDependencies s (utr_AddBlocks req) (utr_AddBlockedBy req) with
    | Some e => (s, Err e)
    | None =>
      let task := match utr_Subject req with
                  | Some v => task <| task_Subject := v |> | None => task end in
      let task := match utr_Description req with
                  | Some v => task <| task_Description := v |> | None => task end in
      let task := task <| task_Blocks ::= λ l, appendUniqueStrings l (utr_AddBlocks req) |> in
      let task := task <| task_BlockedBy ::= λ l, appendUniqueStrings l (utr_AddBlockedBy req) |> in
      let task := task <| task_Metadata ::= λ m, merge_metadata m (utr_Metadata req) |> in
      let now := wall 0%nat in
      let '(s, peers) :=
        linkTaskDependencies (λ m, default task (m !! id)) (task_ID task) now
          (putTask id task s) in
      let task := (default task (st_tasks s !! id)) <| task_UpdatedAt := now |> in
      let s := putTask id task s in
      let s := publishTaskUpdated task s in
      let s := publishTaskUpdates peers s in
      (s, Ok task)
    end
  end.

(** The artifacts of a task go with it; the kept order is the filtered one. *)
Definition deleteTaskArtifactsLocked (taskID : string) (s : Store) : Store :=
  let doomed (artifactID : string) : bool :=
    match st_artifacts s !! artifactID with
    | Some a => bool_decide (art_TaskID a = taskID)
    | None => false
    end in
  let gone := List.filter doomed (st_artifactOrder s) in
  s <| st_artifacts ::= λ m, foldl (λ m id, delete id m) m gone |>
    <| st_artifactOrder ::= List.filter (λ id, negb (doomed id)) |>.

Definition unlink_task (id : string) (now : Time) (task : Task) : Task :=
  let t := task <| task_Blocks ::= λ l, removeString l id |>
                <| task_BlockedBy ::= λ l, removeString l id |> in
  if bool_decide (length (task_Blocks t) = length (task_Blocks task))
     && bool_decide (length (task_BlockedBy t) = length (task_BlockedBy task))
  then t else t <| task_UpdatedAt := now |>.

Definition DeleteTask (wall : nat → Time) (id : string) (s : Store) : Store * res unit :=
  match st_tasks s !! id with
  | None => (s, Err ErrTaskNotFound)
  | Some _ =>
    let now := wall 0%nat in
    let s := s <| st_tasks ::= delete id |> <| st_leases ::= delete id |>
               <| st_taskOrder ::= λ l, removeString l id |> in
    let s := deleteTaskArtifactsLocked id s in
    let changed (t : Task) : bool :=
      negb (bool_decide (length (removeString (task_Blocks t) id) = length (task_Blocks t))
            && bool_decide (length (removeString (task_BlockedBy t) id)
                            = length (task_BlockedBy t))) in
    let peers := (List.filter (λ kt, changed kt.2) (map_to_list (st_tasks s))).*1 in
    let s := s <| st_tasks ::= fmap (unlink_task id now) |> in
    let s := publishTaskDeleted id (wall 1%nat) s in
    let s := publishTaskUpdates peers s in
    (s, Ok tt)
  end.

Definition validateLeaseLocked (wall : Time) (taskID leaseToken : string) (now : Time)
    (s : Store) : res (Task * Lease) :=
  match st_tasks s !! taskID with
  | None => Err ErrTaskNotFound
  | Some task =>
    match st_leases s !! taskID with
    | None => Err ErrLeaseNotFound
    | Some lease =>
      if negb (String.eqb (lease_Token lease) leaseToken) then Err ErrLeaseMismatch
      else if negb (After (lease_ExpiresAt lease) (normalizeNow wall now)) then Err ErrLeaseExpired
      else Ok (task, lease)
    end
  end.

Definition create_outcome_artifact (taskID runID : string) (createdAt : Time) (s : Store)
    (spec : ArtifactSpec) : Store :=
  let s := s <| st_nextArtifact ::= Z.add 1 |> in
  let a := MkArtifact ("artifact-" +:+ itoa (st_nextArtifact s)) taskID runID
             (spec_Kind spec) (spec_Name spec) (spec_ContentType spec) (spec_Body spec)
             (spec_Metadata spec) createdAt in
  let s := s <| st_artifacts ::= <[art_ID a := a]> |>
             <| st_artifactOrder ::= λ l, l ++ [art_ID a] |> in
  publishArtifactCreated a s.

Definition createOutcomeArtifactsLocked (task : Task) (artifacts : list ArtifactSpec)
    (createdAt : Time) (s : Store) : Store :=
  foldl (create_outcome_artifact (task_ID task) (task_runID task) createdAt) s artifacts.

Definition CompleteTask (wall : nat → Time) (taskID leaseToken : string)
    (outcome : option TaskOutcome) (now : Time) (s : Store) : Store * res Task :=
  match validateLeaseLocked (wall 0%nat) taskID leaseToken now s with
  | Err e => (s, Err e)
  | Ok (task, lease) =>
    let result := match outcome with Some o => outcome_Result o | None => None end in
    let result :=
      (λ r, if IsZero (result_CompletedAt r)
            then r <| result_CompletedAt := normalizeNow (wall 1%nat) now |> else r) <$> result in
    let completedAt := normalizeNow (wall 2%nat) now in
    let task := task <| task_Status := TaskCompleted |> <| task_Result := result |>
                     <| task_LastError := "" |> <| task_CompletedAt := completedAt |>
                     <| task_UpdatedAt := completedAt |> in
    let s := dropLease (lease_TaskID lease) (putTask taskID task s) in
    let s := match outcome with
             | Some o => createOutcomeArtifactsLocked task (outcome_Artifacts o) completedAt s
             | None => s
             end in
    (publishTaskCompleted task s, Ok task)
  end.

(** [requeueTaskLocked] returns the store, the requeued task, the last run ID and
    the last attempt.  [key] is the map key of the task object, [taskID] the key
    of the lease that is dropped. *)
Definition requeueTaskLocked (wall : Time) (key : string) (task : Task) (taskID : string)
    (now : Time) (rollbackAttempt : bool) (s : Store) : Store * Task * string * Z :=
  let lastRunID := task_runID task in
  let lastAttempt := task_Attempt task in
  let task := task <| task_Status := TaskPending |> <| task_Result := None |>
                   <| task_Run := None |> <| task_StartedAt := zero_time |>
                   <| task_CompletedAt := zero_time |>
                   <| task_UpdatedAt := normalizeNow wall now |> in
  let task := if rollbackAttempt && (task_Attempt task >? 0)
              then task <| task_Attempt ::= λ n, n - 1 |> else task in
  (putTask key task (dropLease taskID s), task, lastRunID, lastAttempt).

Definition FailTask (wall : nat → Time) (taskID leaseToken : string)
    (runErr : option error) (now : Time) (s : Store) : Store * res Task :=
  match validateLeaseLocked (wall 0%nat) taskID leaseToken now s with
  | Err e => (s, Err e)
  | Ok (task, lease) =>
    let retryable := match runErr with Some e => isRetryable e | None => false end in
    let lastError := match runErr with Some e => Error e | None => "task failed" end in
    if retryable && negb (exhaustedAttempts task) then
      let '(s, task, lastRunID, lastAttempt) :=
        requeueTaskLocked (wall 1%nat) taskID task (lease_TaskID lease) now false s in
      let task := task <| task_LastError := lastError |> in
      let s := putTask taskID task s in
      (publishTaskRequeued task lastRunID lastAttempt "retryable failure" s, Ok task)
    else
      let completedAt := normalizeNow (wall 1%nat) now in
      let task := task <| task_Status := TaskFailed |> <| task_Result := None |>
                       <| task_LastError := lastError |>
                       <| task_CompletedAt := completedAt |>
                       <| task_UpdatedAt := completedAt |> in
      let s := dropLease (lease_TaskID lease) (putTask taskID task s) in
      (publishTaskFailed task s, Ok task)
  end.

(** The guard of [CancelTask]: [None] lets the cancellation through. *)
Definition cancel_guard (taskID leaseToken : string) (now : Time) (task : Task) (s : Store)
    : option error :=
  match task_Status task with
  | TaskPending => if negb (String.eqb leaseToken "") then Some ErrLeaseMismatch else None
  | TaskRunning =>
    match st_leases s !! taskID with
    | None => Some ErrLeaseNotFound
    | Some lease =>
      if negb (After (lease_ExpiresAt lease) now) then Some ErrLeaseExpired
      else if String.eqb leaseToken "" || negb (String.eqb (lease_Token lease) leaseToken)
      then Some ErrLeaseMismatch
      else None
    end
  | _ => Some ErrTaskNotCancelable
  end.

Definition CancelTask (wall : nat → Time) (taskID leaseToken reason : string) (now : Time)
    (s : Store) : Store * res Task :=
  match st_tasks s !! taskID with
  | None => (s, Err ErrTaskNotFound)
  | Some task =>
    let now := normalizeNow (wall 0%nat) now in
    match cancel_guard taskID leaseToken now task s with
    | Some e => (s, Err e)
    | None =>
      let completedAt := normalizeNow (wall 1%nat) now in
      let task := task <| task_Status := TaskCanceled |> <| task_Result := None |>
                       <| task_LastError := cancelReason reason |>
                       <| task_CompletedAt := completedAt |>
                       <| task_UpdatedAt := completedAt |> in
      let s := dropLease taskID (putTask taskID task s) in
      (publishTaskCanceled task s, Ok task)
    end
  end.

Definition RetryTask (wall : nat → Time) (taskID reason : string) (now : Time) (s : Store)
    : Store * res Task :=
  match st_tasks s !! taskID with
  | None => (s, Err ErrTaskNotFound)
  | Some task =>
    if negb (bool_decide (task_Status task = TaskFailed))
       && negb (bool_decide (task_Status task = TaskCanceled))
    then (s, Err ErrTaskNotRetryable)
    else
      let now := normalizeNow (wall 0%nat) now in
      let lastRunID := task_runID task in
      let lastAttempt := task_Attempt task in
      let task := task <| task_Status := TaskPending |> <| task_Result := None |>
                       <| task_LastError := "" |> <| task_Run := None |>
                       <| task_StartedAt := zero_time |> <| task_CompletedAt := zero_time |>
                       <| task_UpdatedAt := now |> <| task_Attempt := 0 |> in
      let s := dropLease taskID (putTask taskID task s) in
      (publishTaskRequeued task lastRunID lastAttempt (retryReason reason) s, Ok task)
  end.

(** ** Lease operations *)

Definition GetLease (taskID : string) (s : Store) : res Lease :=
  match st_leases s !! taskID with
  | Some lease => Ok lease
  | None => Err ErrLeaseNotFound
  end.

Definition RenewLease (wall : nat → Time) (taskID leaseToken : string) (ttl : Duration)
    (now : Time) (s : Store) : Store * res Lease :=
  if ttl <=? 0 then (s, Err lease_ttl_error)
  else
  match st_leases s !! taskID with
  | None => (s, Err ErrLeaseNotFound)
  | Some lease =>
    if negb (String.eqb (lease_Token lease) leaseToken) then (s, Err ErrLeaseMismatch)
    else
      let now := normalizeNow (wall 0%nat) now in
      if negb (After (lease_ExpiresAt lease) now) then (s, Err ErrLeaseExpired)
      else
        let lease := lease <| lease_ExpiresAt := TimeAdd now ttl |> in
        let s := s <| st_leases ::= <[taskID := lease]> |> in
        let runID := match st_tasks s !! taskID with
                     | Some task => task_runID task | None => "" end in
        (publishLeaseRenewed lease runID s, Ok lease)
  end.

Definition ReleaseLease (wall : nat → Time) (taskID leaseToken : string) (s : Store)
    : Store * res unit :=
  match st_leases s !! taskID with
  | None => (s, Err ErrLeaseNotFound)
  | Some lease =>
    if negb (String.eqb (lease_Token lease) leaseToken) then (s, Err ErrLeaseMismatch)
    else
      let releasedAt := wall 0%nat in
      let release_only (s : Store) : Store * res unit :=
        let s := dropLease taskID s in
        let '(runID, resultStatus) :=
          match st_tasks s !! taskID with
          | Some task => match task_Run task with
                         | Some run => (run_ID run, task_Status task)
                         | None => (""%string, TaskStatusNone) end
          | None => (""%string, TaskStatusNone)
          end in
        (publishLeaseReleased lease runID false resultStatus "lease released" false releasedAt s,
         Ok tt) in
      match st_tasks s !! taskID with
      | Some task =>
        if bool_decide (task_Status task = TaskRunning) then
          let '(s, task, lastRunID, lastAttempt) :=
            requeueTaskLocked (wall 2%nat) taskID task taskID (wall 1%nat) true s in
          let s := publishLeaseReleased lease lastRunID true TaskPending "lease released"
                     false releasedAt s in
          (publishTaskRequeued task lastRunID lastAttempt "lease released" s, Ok tt)
        else release_only s
      | None => release_only s
      end
  end.

(** ** Lease recovery *)

Definition recoverExpiredLeaseLocked (wall : Time) (taskID : string) (now : Time) (s : Store)
    : Store * option LeaseRecovery :=
  match st_leases s !! taskID with
  | None => (s, None)
  | Some lease =>
    if After (lease_ExpiresAt lease) now then (s, None)
    else
    match st_tasks s !! taskID with
    | None => (dropLease taskID s, None)
    | Some task =>
      let recovery status requeued :=
        MkLeaseRecovery task lease now status requeued "lease expired" in
      if bool_decide (task_Status task = TaskRunning) && exhaustedAttempts task then
        let runID := task_runID task in
        let failed := task <| task_Status := TaskFailed |> <| task_Result := None |>
                           <| task_LastError := "lease expired" |>
                           <| task_CompletedAt := now |> <| task_UpdatedAt := now |> in
        let s := dropLease taskID (putTask taskID failed s) in
        let s := publishLeaseReleased lease runID false TaskFailed "lease expired" true now s in
        (publishTaskFailed failed s, Some (recovery TaskFailed false))
      else if bool_decide (task_Status task = TaskRunning) then
        let '(s, requeued, lastRunID, lastAttempt) :=
          requeueTaskLocked wall taskID task taskID now false s in
        let requeued := requeued <| task_LastError := "lease expired" |> in
        let s := putTask taskID requeued s in
        let s := publishLeaseReleased lease lastRunID true TaskPending "lease expired" true now s in
        (publishTaskRequeued requeued lastRunID lastAttempt "lease expired" s,
         Some (recovery TaskPending true))
      else
        let s := dropLease taskID s in
        (publishLeaseReleased lease (task_runID task) false (task_Status task)
           "lease expired" true now s,
         Some (recovery (task_Status task) false))
    end
  end.

Fixpoint recover_scan (wall : Time) (ids : list string) (now : Time) (s : Store)
    : Store * list LeaseRecovery :=
  match ids with
  | [] => (s, [])
  | id :: ids =>
    let '(s, r) := recoverExpiredLeaseLocked wall id now s in
    let '(s, rs) := recover_scan wall ids now s in
    (s, match r with Some r => r :: rs | None => rs end)
  end.

Definition string_le (s t : string) : Prop := String.leb s t = true.
#[export] Instance string_le_dec s t : Decision (string_le s t).
Proof. unfold string_le. apply _. Defined.

Definition RecoverExpiredLeases (wall : nat → Time) (now : Time) (s : Store)
    : Store * list LeaseRecovery :=
  let now := normalizeNow (wall 0%nat) now in
  let taskIDs := merge_sort string_le (map_to_list (st_leases s)).*1 in
  recover_scan (wall 1%nat) taskIDs now s.

Definition RecoverExpiredLease (wall : nat → Time) (taskID : string) (now : Time) (s : Store)
    : Store * option LeaseRecovery :=
  recoverExpiredLeaseLocked (wall 1%nat) taskID (normalizeNow (wall 0%nat) now) s.

(** [sort.Slice] by expiry, ties by task ID; the task IDs are distinct, so the
    comparison is total. *)
Definition lease_order (a b : string * Lease) : Prop :=
  lease_ExpiresAt a.2 < lease_ExpiresAt b.2 ∨
  (lease_ExpiresAt a.2 = lease_ExpiresAt b.2 ∧ string_le a.1 b.1).
#[export] Instance lease_order_dec a b : Decision (lease_order a b).
Proof. unfold lease_order. apply _. Defined.

Definition ListExpiredLeases (wall : nat → Time) (now : Time) (s : Store)
    : list ExpiredLeaseSummary :=
  let now := normalizeNow (wall 0%nat) now in
  omap (λ item,
    let '(taskID, lease) := item in
    if After (lease_ExpiresAt lease) now then None
    else
      let '(runID, attempt) :=
        match st_tasks s !! taskID with
        | Some task => match task_Run task with
                       | Some run => (run_ID run, run_Attempt run) | None => (""%string, 0) end
        | None => (""%string, 0)
        end in
      Some (MkExpiredLeaseSummary (lease_ID lease) (lease_TaskID lease) runID
              (lease_WorkerID lease) attempt (lease_ExpiresAt lease)))
    (merge_sort lease_order (map_to_list (st_leases s))).

(** ** Artifacts *)

Definition CreateArtifact (wall : nat → Time) (req : CreateArtifactRequest) (s : Store)
    : Store * res Artifact :=
  if String.eqb (car_TaskID req) "" then (s, Err ErrArtifactTaskRequired)
  else
  match st_tasks s !! car_TaskID req with
  | None => (s, Err ErrTaskNotFound)
  | Some _ =>
    let s := s <| st_nextArtifact ::= Z.add 1 |> in
    let a := MkArtifact ("artifact-" +:+ itoa (st_nextArtifact s)) (car_TaskID req)
               (car_RunID req) (car_Kind req) (car_Name req) (car_ContentType req)
               (car_Body req) (car_Metadata req) (wall 0%nat) in
    let s := s <| st_artifacts ::= <[art_ID a := a]> |>
               <| st_artifactOrder ::= λ l, l ++ [art_ID a] |> in
    (publishArtifactCreated a s, Ok a)
  end.

Definition GetArtifact (id : string) (s : Store) : res Artifact :=
  match st_artifacts s !! id with
  | Some a => Ok a
  | None => Err ErrArtifactNotFound
  end.

(** An empty filter field matches everything. *)
Definition field_matches (want have : string) : bool :=
  String.eqb want "" || String.eqb have want.

Definition matchesArtifactFilter (a : Artifact) (f : ArtifactFilter) : bool :=
  field_matches (af_TaskID f) (art_TaskID a) && field_matches (af_RunID f) (art_RunID a) &&
  field_matches (af_Kind f) (art_Kind a) && field_matches (af_Name f) (art_Name a).

Definition ListArtifacts (f : ArtifactFilter) (s : Store) : list Artifact :=
  omap (λ id, match st_artifacts s !! id with
              | Some a => if matchesArtifactFilter a f then Some a else None
              | None => None
              end) (st_artifactOrder s).
