(* ===== verification/MemCommands.v ===== *)
(** * In-memory orchestration store: commands

    src/ext/orchestrator/memory/commands.go.  Commands live in the same store
    (and behind the same mutex) as the tasks they address. *)

From S2P Require Import Prelude Errors Usage OrchTypes MemStore.

Definition putCommand (id : string) (c : Command) (s : Store) : Store :=
  s <| st_commands ::= <[id := c]> |>.

Definition publishCommandCreated (c : Command) : Store → Store :=
  publish (EvCommandCreated (MkCommandCreatedEvent (cmd_ID c) (cmd_Kind c) (cmd_TaskID c)
    (cmd_RunID c) (cmd_TargetWorkerID c) (cmd_CreatedAt c))).
Definition publishCommandClaimed (c : Command) : Store → Store :=
  publish (EvCommandClaimed (MkCommandClaimedEvent (cmd_ID c) (cmd_Kind c) (cmd_TaskID c)
    (cmd_RunID c) (cmd_ClaimedBy c) (cmd_ClaimedAt c))).
Definition publishCommandReleased (c : Command) (releasedBy : string) (releasedAt : Time)
    (reason : string) (recovered : bool) : Store → Store :=
  publish (EvCommandReleased (MkCommandReleasedEvent (cmd_ID c) (cmd_Kind c) (cmd_TaskID c)
    (cmd_RunID c) releasedBy releasedAt reason recovered)).
Definition publishCommandHandled (c : Command) : Store → Store :=
  publish (EvCommandHandled (MkCommandHandledEvent (cmd_ID c) (cmd_Kind c) (cmd_TaskID c)
    (cmd_RunID c) (cmd_HandledBy c) (cmd_HandledAt c))).

(** The run and worker a new command addresses, or why it is refused. *)
Definition validateCommandTargetLocked (task : Task) (req : CreateCommandRequest)
    : res (string * string) :=
  let runID := if String.eqb (ccr_RunID req) "" then task_runID task else ccr_RunID req in
  match ccr_Kind req with
  | CommandCancelTask =>
    match task_Status task with
    | TaskPending => Ok (runID, "")
    | TaskRunning =>
      match task_Run task with
      | None => Err ErrInvalidCommand
      | Some run => if String.eqb (run_WorkerID run) "" then Err ErrInvalidCommand
                    else Ok (runID, run_WorkerID run)
      end
    | _ => Err ErrTaskNotCancelable
    end
  | CommandAbortRun =>
    match task_Status task, task_Run task with
    | TaskRunning, Some run =>
      if String.eqb (run_WorkerID run) "" then Err ErrRunNotFound
      else if negb (String.eqb (ccr_RunID req) "") && negb (String.eqb (run_ID run) (ccr_RunID req))
      then Err ErrRunNotFound
      else Ok (run_ID run, run_WorkerID run)
    | _, _ => Err ErrRunNotFound
    end
  | CommandRetryTask =>
    match task_Status task with
    | TaskFailed | TaskCanceled => Ok (runID, "")
    | _ => Err ErrTaskNotRetryable
    end
  | CommandKindOther _ => Err ErrInvalidCommand
  end.

Definition CreateCommand (wall : nat → Time) (req : CreateCommandRequest) (s : Store)
    : Store * res Command :=
  if String.eqb (ccr_TaskID req) "" then (s, Err ErrTaskNotFound)
  else
  match st_tasks s !! ccr_TaskID req with
  | None => (s, Err ErrTaskNotFound)
  | Some task =>
    match validateCommandTargetLocked task req with
    | Err e => (s, Err e)
    | Ok (runID, targetWorkerID) =>
      let s := s <| st_nextCommand ::= Z.add 1 |> in
      let c := MkCommand ("command-" +:+ itoa (st_nextCommand s)) (ccr_Kind req)
                 (ccr_TaskID req) runID targetWorkerID (ccr_Reason req) (ccr_Metadata req)
                 CommandPending "" "" "" (wall 0%nat) zero_time zero_time in
      let s := putCommand (cmd_ID c) c s in
      let s := s <| st_commandOrder ::= λ l, l ++ [cmd_ID c] |> in
      (publishCommandCreated c s, Ok c)
    end
  end.

Definition GetCommand (id : string) (s : Store) : res Command :=
  match st_commands s !! id with
  | Some c => Ok c
  | None => Err ErrCommandNotFound
  end.

Definition matchesCommandFilter (c : Command) (f : CommandFilter) : bool :=
  field_matches (cf_TaskID f) (cmd_TaskID c) && field_matches (cf_RunID f) (cmd_RunID c) &&
  field_matches (cf_TargetWorkerID f) (cmd_TargetWorkerID c) &&
  (bool_decide (cf_Kinds f = []) || bool_decide (cmd_Kind c ∈ cf_Kinds f)) &&
  (bool_decide (cf_Statuses f = []) || bool_decide (cmd_Status c ∈ cf_Statuses f)).

Definition ListCommands (f : CommandFilter) (s : Store) : list Command :=
  omap (λ id, match st_commands s !! id with
              | Some c => if matchesCommandFilter c f then Some c else None
              | None => None
              end) (st_commandOrder s).

(** A pending command follows its task: the run and worker it addresses are
    recomputed from the task's current state. *)
Definition refreshCommandTargetLocked (s : Store) (c : Command) : Command :=
  match st_tasks s !! cmd_TaskID c with
  | None => c <| cmd_TargetWorkerID := "" |> <| cmd_RunID := "" |>
  | Some task =>
    match cmd_Kind c with
    | CommandCancelTask =>
      match task_Status task with
      | TaskRunning =>
        match task_Run task with
        | Some run => c <| cmd_RunID := run_ID run |> <| cmd_TargetWorkerID := run_WorkerID run |>
        | None => c
        end
      | TaskPending => c <| cmd_RunID := "" |> <| cmd_TargetWorkerID := "" |>
      | _ => c
      end
    | CommandAbortRun =>
      match task_Status task, task_Run task with
      | TaskRunning, Some run =>
        if negb (String.eqb (run_WorkerID run) "") then
          let c := if String.eqb (cmd_RunID c) "" then c <| cmd_RunID := run_ID run |> else c in
          if String.eqb (run_ID run) (cmd_RunID c)
          then c <| cmd_TargetWorkerID := run_WorkerID run |>
          else c <| cmd_TargetWorkerID := "" |>
        else c <| cmd_TargetWorkerID := "" |>
      | _, _ => c <| cmd_TargetWorkerID := "" |>
      end
    | CommandRetryTask =>
      let c := c <| cmd_TargetWorkerID := "" |> in
      match task_Run task with None => c <| cmd_RunID := "" |> | Some _ => c end
    | CommandKindOther _ => c
    end
  end.

(** Is a refreshed command out of reach of [worker]? *)
Definition targets_other (worker : string) (c : Command) : bool :=
  negb (String.eqb (cmd_TargetWorkerID c) "") && negb (String.eqb (cmd_TargetWorkerID c) worker).

(** The assignments both claim operations share. *)
Definition claim_command (worker : string) (now : Time) (c : Command) : Command :=
  c <| cmd_Status := CommandClaimed |> <| cmd_ClaimedBy := worker |>
    <| cmd_ClaimToken := cmd_ID c +:+ "-claim-" +:+ itoa (UnixNano now) |>
    <| cmd_ClaimedAt := now |>.

Definition claim_worker_error : error :=
  ENew "orchestrator/memory: command claim worker id must not be empty".

Fixpoint claim_command_scan (ids : list string) (worker : string) (now : Time) (s : Store)
    : Store * res Command :=
  match ids with
  | [] => (s, Err ErrNoPendingCommand)
  | id :: ids =>
    match st_commands s !! id with
    | None => claim_command_scan ids worker now s
    | Some c =>
      if negb (bool_decide (cmd_Status c = CommandPending)) then claim_command_scan ids worker now s
      else
        let c := refreshCommandTargetLocked s c in
        let s := putCommand id c s in
        if targets_other worker c then claim_command_scan ids worker now s
        else
          let c := claim_command worker now c in
          (publishCommandClaimed c (putCommand id c s), Ok c)
    end
  end.

Definition ClaimPendingCommand (wall : nat → Time) (req : ClaimCommandRequest) (s : Store)
    : Store * res Command :=
  if String.eqb (ccmd_WorkerID req) "" then (s, Err claim_worker_error)
  else claim_command_scan (st_commandOrder s) (ccmd_WorkerID req)
         (normalizeNow (wall 0%nat) (ccmd_Now req)) s.

Definition ClaimCommand (wall : nat → Time) (id : string) (req : ClaimCommandRequest)
    (s : Store) : Store * res Command :=
  if String.eqb (ccmd_WorkerID req) "" then (s, Err claim_worker_error)
  else
  let now := normalizeNow (wall 0%nat) (ccmd_Now req) in
  match st_commands s !! id with
  | None => (s, Err ErrCommandNotFound)
  | Some c =>
    if negb (bool_decide (cmd_Status c = CommandPending)) then (s, Err ErrNoPendingCommand)
    else
      let c := refreshCommandTargetLocked s c in
      let s := putCommand id c s in
      if targets_other (ccmd_WorkerID req) c then (s, Err ErrNoPendingCommand)
      else
        let c := claim_command (ccmd_WorkerID req) now c in
        (publishCommandClaimed c (putCommand id c s), Ok c)
  end.

(** Does [claimToken] currently own command [c]? *)
Definition claim_matches (c : Command) (claimToken : string) : bool :=
  bool_decide (cmd_Status c = CommandClaimed) && String.eqb (cmd_ClaimToken c) claimToken.

Definition HandleCommand (wall : nat → Time) (id claimToken handledBy : string) (now : Time)
    (s : Store) : Store * res Command :=
  match st_commands s !! id with
  | None => (s, Err ErrCommandNotFound)
  | Some c =>
    if negb (claim_matches c claimToken) then (s, Err ErrCommandClaimMismatch)
    else
      let c := c <| cmd_Status := CommandHandled |> <| cmd_HandledBy := handledBy |>
                 <| cmd_HandledAt := normalizeNow (wall 0%nat) now |>
                 <| cmd_ClaimToken := "" |> in
      (publishCommandHandled c (putCommand id c s), Ok c)
  end.

(** Back to pending: the claim fields are cleared. *)
Definition release_command (c : Command) : Command :=
  c <| cmd_Status := CommandPending |> <| cmd_ClaimedBy := "" |> <| cmd_ClaimToken := "" |>
    <| cmd_ClaimedAt := zero_time |>.

Definition ReleaseCommand (wall : nat → Time) (id claimToken : string) (s : Store)
    : Store * res unit :=
  match st_commands s !! id with
  | None => (s, Err ErrCommandNotFound)
  | Some c =>
    if negb (claim_matches c claimToken) then (s, Err ErrCommandClaimMismatch)
    else
      let releasedBy := cmd_ClaimedBy c in
      let c := release_command c in
      (publishCommandReleased c releasedBy (wall 0%nat) "command released" false
         (putCommand id c s), Ok tt)
  end.

(** A claimed command is stale when it was claimed no later than [claimedBefore]. *)
Definition stale_claim (c : Command) (claimedBefore : Time) : bool :=
  bool_decide (cmd_Status c = CommandClaimed) &&
  negb (IsZero (cmd_ClaimedAt c) || After (cmd_ClaimedAt c) claimedBefore).

Definition recoverClaimedCommandLocked (id : string) (claimedBefore now : Time) (s : Store)
    : Store * option CommandRecovery :=
  match st_commands s !! id with
  | None => (s, None)
  | Some c =>
    if negb (stale_claim c claimedBefore) then (s, None)
    else
      let releasedBy := cmd_ClaimedBy c in
      let c := release_command c in
      (publishCommandReleased c releasedBy now "claim expired" true (putCommand id c s),
       Some (MkCommandRecovery c now releasedBy))
  end.

Fixpoint recover_command_scan (ids : list string) (claimedBefore now : Time) (s : Store)
    : Store * list CommandRecovery :=
  match ids with
  | [] => (s, [])
  | id :: ids =>
    let '(s, r) := recoverClaimedCommandLocked id claimedBefore now s in
    let '(s, rs) := recover_command_scan ids claimedBefore now s in
    (s, match r with Some r => r :: rs | None => rs end)
  end.

Definition RecoverClaimedCommands (wall : nat → Time) (claimedBefore now : Time) (s : Store)
    : Store * list CommandRecovery :=
  let now := normalizeNow (wall 0%nat) now in
  let claimedBefore := if IsZero claimedBefore then now else claimedBefore in
  recover_command_scan (st_commandOrder s) claimedBefore now s.

Definition RecoverClaimedCommand (wall : nat → Time) (id : string) (claimedBefore now : Time)
    (s : Store) : Store * option CommandRecovery :=
  let now := normalizeNow (wall 0%nat) now in
  let claimedBefore := if IsZero claimedBefore then now else claimedBefore in
  recoverClaimedCommandLocked id claimedBefore now s.

(** [sort.Slice] by claim time, ties by command ID. *)
Definition command_order (a b : string * Command) : Prop :=
  cmd_ClaimedAt a.2 < cmd_ClaimedAt b.2 ∨
  (cmd_ClaimedAt a.2 = cmd_ClaimedAt b.2 ∧ string_le a.1 b.1).
#[export] Instance command_order_dec a b : Decision (command_order a b).
Proof. unfold command_order. apply _. Defined.

Definition ListStaleClaimedCommands (wall : nat → Time) (claimedBefore : Time) (s : Store)
    : list StaleClaimedCommandSummary :=
  let claimedBefore := normalizeNow (wall 0%nat) claimedBefore in
  omap (λ item : string * Command,
    let c := item.2 in
    if stale_claim c claimedBefore then
      Some (MkStaleClaimedCommandSummary (cmd_ID c) (cmd_Kind c) (cmd_TaskID c) (cmd_RunID c)
              (cmd_TargetWorkerID c) (cmd_ClaimedBy c) (cmd_ClaimedAt c) (cmd_Reason c))
    else None)
    (merge_sort command_order
       (omap (λ id, pair id <$> st_commands s !! id) (st_commandOrder s))).
