(* ===== verification/StoreInv.v ===== *)
(** * Invariants of the in-memory store

    The well-formedness of [Store] (task order, identifiers, leases, attempts,
    the dependency graph, commands and artifacts) and its preservation by every
    task operation of MemStore.  Creating, updating and deleting tasks is the
    subject of StoreDeps, commands and artifacts of StoreOps. *)

From S2P Require Import Prelude Errors Usage OrchTypes MemStore MemCommands.

(** ** Identifiers

    [issued p n id]: [id] is one of the identifiers [p]1 .. [p]n. *)
Definition issued (p : string) (n : Z) (id : string) : Prop :=
  ∃ k, 1 ≤ k ≤ n ∧ id = p +:+ itoa k.

Lemma app_itoa_inj p j k : p +:+ itoa j = p +:+ itoa k → j = k.
Proof. intros H. apply (inj (String.append p)) in H. by apply (inj pretty) in H. Qed.

Lemma issued_fresh p n : ¬ issued p n (p +:+ itoa (1 + n)).
Proof. intros (k & Hk & H%app_itoa_inj). lia. Qed.

Lemma issued_mono p n m id : n ≤ m → issued p n id → issued p m id.
Proof. intros ? (k & ? & ->). exists k. split; [lia|done]. Qed.

Lemma issued_next p n : 0 ≤ n → issued p (1 + n) (p +:+ itoa (1 + n)).
Proof. exists (1 + n). split; [lia|done]. Qed.

Lemma issued_nonempty_task n id : issued "task-" n id → id ≠ "".
Proof. by intros (k & _ & ->). Qed.

(** ** The invariant *)

Record task_wf (s : Store) (id : string) (t : Task) : Prop := {
  tw_id : task_ID t = id;
  tw_issued : issued "task-" (st_nextTask s) id;
  tw_attempt : 0 ≤ task_Attempt t;
  tw_max : 0 < task_MaxAttempts t → task_Attempt t ≤ task_MaxAttempts t;
}.

(** A lease names its task, its token is an issued lease ID, and the task it
    covers is running the attempt the lease was acquired for, under a run ID. *)
Record lease_wf (s : Store) (id : string) (l : Lease) : Prop := {
  lw_task : lease_TaskID l = id;
  lw_token : lease_Token l = lease_ID l;
  lw_issued : issued "lease-" (st_nextLease s) (lease_Token l);
  lw_run : ∃ t r, st_tasks s !! id = Some t ∧ task_Status t = TaskRunning ∧
             task_Run t = Some r ∧ run_TaskID r = id ∧
             run_WorkerID r = lease_WorkerID l ∧ run_Attempt r = task_Attempt t ∧ run_ID r ≠ "";
}.

Record TaskInv (s : Store) : Prop := {
  ti_counters : 0 ≤ st_nextTask s ∧ 0 ≤ st_nextLease s;
  ti_order_nodup : NoDup (st_taskOrder s);
  ti_order : ∀ id, id ∈ st_taskOrder s ↔ is_Some (st_tasks s !! id);
  ti_tasks : ∀ id t, st_tasks s !! id = Some t → task_wf s id t;
  ti_leases : ∀ id l, st_leases s !! id = Some l → lease_wf s id l;
  ti_running : ∀ id t, st_tasks s !! id = Some t → task_Status t = TaskRunning →
                 is_Some (st_leases s !! id);
  ti_tokens : ∀ i j li lj, st_leases s !! i = Some li → st_leases s !! j = Some lj →
                lease_Token li = lease_Token lj → i = j;
}.

(** The dependency graph: edges are recorded at both ends, and only between
    stored tasks. *)
Record DepInv (tasks : gmap string Task) : Prop := {
  di_sym : ∀ a b ta tb, tasks !! a = Some ta → tasks !! b = Some tb →
             (b ∈ task_Blocks ta ↔ a ∈ task_BlockedBy tb);
  di_blocks : ∀ a ta x, tasks !! a = Some ta → x ∈ task_Blocks ta → is_Some (tasks !! x);
  di_blockedBy : ∀ a ta x, tasks !! a = Some ta → x ∈ task_BlockedBy ta → is_Some (tasks !! x);
}.

(** Claim fields of a command match its status. *)
Definition claim_fields_ok (c : Command) : Prop :=
  match cmd_Status c with
  | CommandPending => cmd_ClaimToken c = "" ∧ cmd_ClaimedBy c = "" ∧ cmd_ClaimedAt c = zero_time
  | CommandClaimed => cmd_ClaimToken c ≠ "" ∧ cmd_ClaimedBy c ≠ ""
  | CommandHandled => cmd_ClaimToken c = ""
  end.

Record CmdInv (s : Store) : Prop := {
  ci_counter : 0 ≤ st_nextCommand s;
  ci_order_nodup : NoDup (st_commandOrder s);
  ci_order : ∀ id, id ∈ st_commandOrder s ↔ is_Some (st_commands s !! id);
  ci_commands : ∀ id c, st_commands s !! id = Some c →
    cmd_ID c = id ∧ issued "command-" (st_nextCommand s) id ∧ claim_fields_ok c;
}.

Record ArtInv (s : Store) : Prop := {
  ai_counter : 0 ≤ st_nextArtifact s;
  ai_order_nodup : NoDup (st_artifactOrder s);
  ai_order : ∀ id, id ∈ st_artifactOrder s ↔ is_Some (st_artifacts s !! id);
  ai_artifacts : ∀ id a, st_artifacts s !! id = Some a →
    art_ID a = id ∧ issued "artifact-" (st_nextArtifact s) id ∧
    is_Some (st_tasks s !! art_TaskID a);
}.

Record Inv (s : Store) : Prop := {
  inv_task : TaskInv s;
  inv_dep : DepInv (st_tasks s);
  inv_cmd : CmdInv s;
  inv_art : ArtInv s;
}.

Create HintDb store discriminated.
#[export] Hint Resolve inv_task inv_dep inv_cmd inv_art : store.

(** ** Publishing does not touch the state *)

(** Equal up to the published events. *)
Definition same_state (s s' : Store) : Prop :=
  s' = s <| st_published := st_published s' |>.

Lemma publish_same e s : same_state s (publish e s).
Proof. unfold same_state, publish. destruct (st_bus s); by destruct s. Qed.

#[export] Instance same_state_equiv : Equivalence same_state.
Proof.
  split.
  - intros []; done.
  - intros [] []; unfold same_state; simpl. intros [=]; by simplify_eq.
  - intros [] [] []; unfold same_state; simpl. intros [=] [=]; by simplify_eq.
Qed.

#[export] Instance Inv_proper : Proper (same_state ==> iff) Inv.
Proof.
  intros s s' H. unfold same_state in H. rewrite H. clear H.
  split; intros [[] Hd [] []]; (split; [split|exact Hd|split|split]); auto;
    intros ?? Hl;
    match goal with
    | H : ∀ id t, _ → task_wf _ _ _ |- task_wf _ _ _ => destruct (H _ _ Hl); by split
    | H : ∀ id l, _ → lease_wf _ _ _ |- lease_wf _ _ _ => destruct (H _ _ Hl); by split
    end.
Qed.

Lemma publishTaskUpdates_same ids s : same_state s (publishTaskUpdates ids s).
Proof.
  unfold publishTaskUpdates. revert s. induction ids as [|id ids IH]; intros s; simpl; [reflexivity|].
  etransitivity; [|apply IH]. destruct (st_tasks s !! id); [|reflexivity].
  apply publish_same.
Qed.

(** Reduce [Inv] of a published store to [Inv] of the store. *)
Lemma Inv_publish e s : Inv s → Inv (publish e s).
Proof. intros H. by rewrite <- (publish_same e s). Qed.
Lemma Inv_publish_updates ids s : Inv s → Inv (publishTaskUpdates ids s).
Proof. intros H. by rewrite <- (publishTaskUpdates_same ids s). Qed.
Lemma Inv_publishTaskClaimed t l s : Inv s → Inv (publishTaskClaimed t l s).
Proof. intros H. unfold publishTaskClaimed. destruct (task_Run t); [by apply Inv_publish|done]. Qed.
#[export] Hint Resolve Inv_publish Inv_publish_updates Inv_publishTaskClaimed : store.

(** ** Changing one stored task

    Most operations rewrite one task and its lease.  [task_change] says how, and
    [Inv_change] is the single preservation argument for all of them. *)

Definition same_rest (s s' : Store) : Prop :=
  st_taskOrder s' = st_taskOrder s ∧ st_nextTask s' = st_nextTask s ∧
  st_commands s' = st_commands s ∧ st_commandOrder s' = st_commandOrder s ∧
  st_nextCommand s' = st_nextCommand s ∧ st_artifacts s' = st_artifacts s ∧
  st_artifactOrder s' = st_artifactOrder s ∧ st_nextArtifact s' = st_nextArtifact s.

(** The attempts of the rewritten task stay within the bounds of [task_wf]. *)
Definition attempts_ok (t : Task) : Prop :=
  0 ≤ task_Attempt t ∧ (0 < task_MaxAttempts t → task_Attempt t ≤ task_MaxAttempts t).

(** Whether the rewritten task and its new lease [ol] fit together. *)
Definition lease_fits (s s' : Store) (id : string) (t' : Task) (ol : option Lease) : Prop :=
  match ol with
  | None => task_Status t' ≠ TaskRunning
  | Some l =>
    task_Status t' = TaskRunning ∧ lease_TaskID l = id ∧ lease_Token l = lease_ID l ∧
    issued "lease-" (st_nextLease s') (lease_Token l) ∧
    (∃ r, task_Run t' = Some r ∧ run_TaskID r = id ∧
          run_WorkerID r = lease_WorkerID l ∧ run_Attempt r = task_Attempt t' ∧ run_ID r ≠ "") ∧
    (∀ j lj, st_leases s !! j = Some lj → lease_Token lj = lease_Token l → j = id)
  end.

Record task_change (s s' : Store) (id : string) (t t' : Task) (ol : option Lease) : Prop := {
  tc_old : st_tasks s !! id = Some t;
  tc_tasks : st_tasks s' = <[id := t']> (st_tasks s);
  tc_leases : st_leases s' = partial_alter (λ _, ol) id (st_leases s);
  tc_nextLease : st_nextLease s ≤ st_nextLease s';
  tc_ids : task_ID t' = task_ID t;
  tc_deps : task_Blocks t' = task_Blocks t ∧ task_BlockedBy t' = task_BlockedBy t;
  tc_attempts : attempts_ok t → attempts_ok t';
  tc_lease : lease_fits s s' id t' ol;
}.

Lemma DepInv_insert tasks id t t' :
  tasks !! id = Some t →
  task_Blocks t' = task_Blocks t → task_BlockedBy t' = task_BlockedBy t →
  DepInv tasks → DepInv (<[id := t']> tasks).
Proof.
  intros Hid Hb Hbb [Hs H1 H2].
  assert (Hdom : ∀ x, is_Some (tasks !! x) → is_Some (<[id := t']> tasks !! x)).
  { intros x Hx. rewrite lookup_insert. by case_decide; eauto. }
  assert (Hget : ∀ x tx, <[id := t']> tasks !! x = Some tx →
    ∃ tx0, tasks !! x = Some tx0 ∧ task_Blocks tx = task_Blocks tx0 ∧
           task_BlockedBy tx = task_BlockedBy tx0).
  { intros x tx Hx. rewrite lookup_insert in Hx. case_decide; simplify_eq; eauto. }
  split.
  - intros a b ta tb (ta0 & Ha & Ea & _)%Hget (tb0 & Hb0 & _ & Eb)%Hget.
    rewrite Ea, Eb. eauto.
  - intros a ta x (ta0 & Ha & Ea & _)%Hget. rewrite Ea. eauto.
  - intros a ta x (ta0 & Ha & _ & Ea)%Hget. rewrite Ea. eauto.
Qed.

Lemma lease_wf_mono s s' id l :
  st_tasks s' !! id = st_tasks s !! id → st_nextLease s ≤ st_nextLease s' →
  lease_wf s id l → lease_wf s' id l.
Proof.
  intros Ht Hn [? ? ? Hr]. split; [done..|by eapply issued_mono|by rewrite Ht].
Qed.

Lemma TaskInv_change s s' id t t' ol :
  st_taskOrder s' = st_taskOrder s → st_nextTask s' = st_nextTask s →
  task_change s s' id t t' ol → TaskInv s → TaskInv s'.
Proof.
  intros Ho Hn [Hold Ht Hl HnL Hid _ Hatt Hfit] [Hc Hnd Hord Htasks Hleases Hrun Htok].
  pose proof (Htasks _ _ Hold) as [? Hiss Ha Hm].
  assert (Hlk : ∀ j l, st_leases s' !! j = Some l →
    (j = id ∧ ol = Some l) ∨ (j ≠ id ∧ st_leases s !! j = Some l)).
  { intros j l. rewrite Hl. destruct (decide (j = id)) as [->|Hne].
    - rewrite lookup_partial_alter_eq. auto.
    - rewrite lookup_partial_alter_ne by done. auto. }
  split.
  - rewrite Hn. split; [apply Hc|]. lia.
  - by rewrite Ho.
  - intros j. rewrite Ho, Hord, Ht, lookup_insert.
    case_decide; [subst; rewrite Hold|done]. split; eauto.
  - intros j tj Hj. rewrite Ht, lookup_insert in Hj. case_decide; simplify_eq.
    + destruct Hatt; [done|]. split; [congruence|by rewrite Hn|done..].
    + destruct (Htasks _ _ Hj). split; [done|by rewrite Hn|done..].
  - intros j l [[-> Hol]|[Hne Hlj]]%Hlk.
    + rewrite Hol in Hfit. destruct Hfit as (Hst & ? & ? & ? & (r & ?) & _).
      split; [done..|]. exists t', r. rewrite Ht, lookup_insert_eq. naive_solver.
    + eapply (lease_wf_mono s); [by rewrite Ht, lookup_insert_ne|done|by apply Hleases].
  - intros j tj Hj Hst. rewrite Ht, lookup_insert in Hj. rewrite Hl. case_decide; simplify_eq.
    + rewrite lookup_partial_alter_eq. destruct ol; [eauto|by destruct Hfit].
    + rewrite lookup_partial_alter_ne by done. eauto.
  - intros i j li lj [[-> Hi]|[Hni Hi]]%Hlk [[-> Hj]|[Hnj Hj]]%Hlk Heq; [done|..].
    + rewrite Hi in Hfit. symmetry. eapply Hfit; eauto.
    + rewrite Hj in Hfit. eapply Hfit; eauto.
    + eauto.
Qed.

Lemma ArtInv_frame s s' :
  st_artifacts s' = st_artifacts s → st_artifactOrder s' = st_artifactOrder s →
  st_nextArtifact s' = st_nextArtifact s →
  (∀ x, is_Some (st_tasks s !! x) → is_Some (st_tasks s' !! x)) →
  ArtInv s → ArtInv s'.
Proof.
  intros H1 H2 H3 Hd [? ? ? Ha]. split; rewrite ?H1, ?H2, ?H3; try done.
  intros id a Hid. destruct (Ha id a Hid) as (? & ? & ?). eauto.
Qed.

Lemma CmdInv_frame s s' :
  st_commands s' = st_commands s → st_commandOrder s' = st_commandOrder s →
  st_nextCommand s' = st_nextCommand s → CmdInv s → CmdInv s'.
Proof. intros H1 H2 H3 []. split; rewrite ?H1, ?H2, ?H3; done. Qed.

Lemma Inv_change s s' id t t' ol :
  same_rest s s' → task_change s s' id t t' ol → Inv s → Inv s'.
Proof.
  intros (Ho & Hn & Hc1 & Hc2 & Hc3 & Ha1 & Ha2 & Ha3) Hch [HT HD HC HA].
  pose proof Hch as [Hold Htasks _ _ _ [Hb Hbb] _ _]. split.
  - by eapply TaskInv_change.
  - rewrite Htasks. by eapply DepInv_insert.
  - by eapply CmdInv_frame.
  - eapply ArtInv_frame; [done..| |done]. intros x Hx.
    rewrite Htasks, lookup_insert. case_decide; eauto.
Qed.

(** A stored task leaves (or stays out of) the running state and its lease, if
    any, is dropped. *)
Lemma Inv_retire s id t t' :
  st_tasks s !! id = Some t →
  task_ID t' = task_ID t →
  task_Blocks t' = task_Blocks t ∧ task_BlockedBy t' = task_BlockedBy t →
  (attempts_ok t → attempts_ok t') → task_Status t' ≠ TaskRunning →
  Inv s → Inv (dropLease id (putTask id t' s)).
Proof.
  intros Hid ? ? ? ? HI. apply (Inv_change s _ id t t' None); [done| |done].
  by split.
Qed.

Lemma Inv_task_key s id t : Inv s → st_tasks s !! id = Some t → task_ID t = id.
Proof. intros HI Hid. by destruct (ti_tasks _ (inv_task _ HI) _ _ Hid). Qed.

Lemma Inv_lease_key s id l : Inv s → st_leases s !! id = Some l → lease_TaskID l = id.
Proof. intros HI Hid. by destruct (ti_leases _ (inv_task _ HI) _ _ Hid). Qed.

Lemma Inv_attempts s id t : Inv s → st_tasks s !! id = Some t → attempts_ok t.
Proof. intros HI Hid. by destruct (ti_tasks _ (inv_task _ HI) _ _ Hid). Qed.

(** A validated lease: the task, its lease, and the checks that passed. *)
Lemma validateLease_ok wall id tok now s t l :
  validateLeaseLocked wall id tok now s = Ok (t, l) →
  st_tasks s !! id = Some t ∧ st_leases s !! id = Some l ∧ lease_Token l = tok ∧
  normalizeNow wall now < lease_ExpiresAt l.
Proof.
  unfold validateLeaseLocked. repeat case_match; try discriminate. intros [= -> ->].
  rewrite negb_false_iff in *. unfold After in *.
  rewrite String.eqb_eq, Z.ltb_lt in *. done.
Qed.

Lemma Inv_create_artifact taskID runID at_ s spec :
  is_Some (st_tasks s !! taskID) → Inv s →
  Inv (create_outcome_artifact taskID runID at_ s spec).
Proof.
  intros Ht [HT HD HC HA]. apply Inv_publish. split; [| |by destruct HC|].
  - destruct HT as [? ? ? Htasks Hleases ? ?]. split; try done.
    + intros id t Hid. by destruct (Htasks id t Hid).
    + intros id l Hid. by destruct (Hleases id l Hid).
  - done.
  - destruct HA as [Hc Hnd Ho Ha]. simpl. split; simpl; [lia| | |].
    + apply NoDup_app. split; [done|]. split; [|apply NoDup_singleton].
      intros id Hid%Ho Hn%list_elem_of_singleton. subst.
      destruct Hid as [a Hid]. destruct (Ha _ _ Hid) as (_ & Hiss & _).
      by eapply issued_fresh.
    + intros id. rewrite elem_of_app, list_elem_of_singleton, Ho, lookup_insert.
      case_decide; subst; naive_solver.
    + intros id a. rewrite lookup_insert. case_decide; intros; simplify_eq; simpl.
      * split; [done|]. split; [by apply issued_next|done].
      * destruct (Ha _ _ H0) as (? & ? & ?). split; [done|]. split; [|done].
        eapply issued_mono; [|done]. lia.
Qed.

Lemma Inv_create_artifacts t specs at_ s :
  is_Some (st_tasks s !! task_ID t) → Inv s →
  Inv (createOutcomeArtifactsLocked t specs at_ s).
Proof.
  unfold createOutcomeArtifactsLocked. revert s.
  induction specs as [|spec specs IH]; intros s Ht HI; simpl; [done|].
  apply IH; [|by apply Inv_create_artifact].
  unfold create_outcome_artifact, publishArtifactCreated, publish. by case_match.
Qed.

(** ** Preservation, operation by operation *)

Lemma CompleteTask_Inv wall id tok o now s : Inv s → Inv (CompleteTask wall id tok o now s).1.
Proof.
  intros HI. unfold CompleteTask.
  destruct (validateLeaseLocked _ _ _ _ _) as [[t l]|] eqn:Hv; [|done].
  apply validateLease_ok in Hv as (Ht & Hl & _ & _). simpl.
  rewrite (Inv_lease_key _ _ _ HI Hl). apply Inv_publish.
  pose proof (Inv_task_key _ _ _ HI Ht) as Hid.
  match goal with |- context [dropLease id ?s0] => assert (Inv (dropLease id s0)) as HI' end.
  { by eapply Inv_retire. }
  destruct o; [|done]. apply Inv_create_artifacts; [|done].
  simpl. rewrite Hid, lookup_insert_eq. eauto.
Qed.

(** [requeueTaskLocked], up to a later change of fields the invariant ignores. *)
Lemma requeue_Inv w key t now rb s s1 t1 lastRun lastAttempt t2 :
  st_tasks s !! key = Some t →
  requeueTaskLocked w key t key now rb s = (s1, t1, lastRun, lastAttempt) →
  task_ID t2 = task_ID t1 → task_Status t2 = task_Status t1 →
  task_Attempt t2 = task_Attempt t1 → task_MaxAttempts t2 = task_MaxAttempts t1 →
  task_Blocks t2 = task_Blocks t1 ∧ task_BlockedBy t2 = task_BlockedBy t1 →
  Inv s → Inv (putTask key t2 s1).
Proof.
  intros Ht Hrq Hid Hst Hat Hmx Hdep HI. unfold requeueTaskLocked in Hrq.
  injection Hrq as <- <- <- <-.
  assert (Hset : ∀ t1 t2, putTask key t2 (putTask key t1 (dropLease key s)) =
                          dropLease key (putTask key t2 s)).
  { intros ? ?. unfold putTask, dropLease. simpl. by rewrite insert_insert_eq. }
  rewrite Hset. eapply Inv_retire; [done| | | | |done].
  - rewrite Hid. by case_match.
  - destruct Hdep as [-> ->]. by case_match.
  - unfold attempts_ok. rewrite Hat, Hmx. case_match eqn:E; simpl; [|done].
    apply andb_true_iff in E as [_ E]. rewrite Z.gtb_lt in E. simpl in E. lia.
  - rewrite Hst. by case_match.
Qed.

Lemma requeue_stored w key t now rb s s1 t1 lastRun lastAttempt :
  requeueTaskLocked w key t key now rb s = (s1, t1, lastRun, lastAttempt) →
  putTask key t1 s1 = s1.
Proof.
  intros Hrq. injection Hrq as <- <- <- <-.
  unfold putTask. simpl. by rewrite insert_insert_eq.
Qed.

Lemma FailTask_Inv wall id tok e now s : Inv s → Inv (FailTask wall id tok e now s).1.
Proof.
  intros HI. unfold FailTask.
  destruct (validateLeaseLocked _ _ _ _ _) as [[t l]|] eqn:Hv; [|done].
  apply validateLease_ok in Hv as (Ht & Hl & _ & _).
  rewrite (Inv_lease_key _ _ _ HI Hl). case_match.
  - destruct (requeueTaskLocked _ _ _ _ _ _ _) as [[[s1 t1] lr] la] eqn:Hrq.
    apply Inv_publish. by eapply requeue_Inv.
  - apply Inv_publish. by eapply Inv_retire.
Qed.

Lemma CancelTask_Inv wall id tok reason now s : Inv s → Inv (CancelTask wall id tok reason now s).1.
Proof.
  intros HI. unfold CancelTask. destruct (st_tasks s !! id) as [t|] eqn:Ht; [|done].
  case_match; [done|]. apply Inv_publish. by eapply Inv_retire.
Qed.

Lemma RetryTask_Inv wall id reason now s : Inv s → Inv (RetryTask wall id reason now s).1.
Proof.
  intros HI. unfold RetryTask. destruct (st_tasks s !! id) as [t|] eqn:Ht; [|done].
  case_match; [done|]. apply Inv_publish. eapply Inv_retire; [done..| |done|done].
  unfold attempts_ok. simpl. lia.
Qed.

(** A lease of a running task is replaced by one of the same holder, with an
    issued token no other task holds. *)
Lemma Inv_release s id t :
  st_tasks s !! id = Some t → task_Status t ≠ TaskRunning → Inv s → Inv (dropLease id s).
Proof.
  intros Ht Hst HI.
  assert (dropLease id s = dropLease id (putTask id t s)) as ->.
  { unfold dropLease, putTask. simpl. by rewrite insert_id. }
  by eapply Inv_retire.
Qed.

Lemma RenewLease_Inv wall id tok ttl now s : Inv s → Inv (RenewLease wall id tok ttl now s).1.
Proof.
  intros HI. unfold RenewLease. case_match; [done|].
  destruct (st_leases s !! id) as [l|] eqn:Hl; [|done]. repeat (case_match; [done|]). simpl.
  apply Inv_publish. pose proof (ti_leases _ (inv_task _ HI) _ _ Hl) as [? ? ? (t & r & Ht & ?)].
  eapply (Inv_change s _ id t t (Some _)); [done| |done]. split; try done; simpl.
  - by rewrite insert_id.
  - split_and!; try naive_solver. intros j lj Hj Htok.
    eapply (ti_tokens _ (inv_task _ HI)); eauto.
Qed.

Lemma ReleaseLease_Inv wall id tok s : Inv s → Inv (ReleaseLease wall id tok s).1.
Proof.
  intros HI. unfold ReleaseLease. destruct (st_leases s !! id) as [l|] eqn:Hl; [|done].
  case_match; [done|].
  pose proof (ti_leases _ (inv_task _ HI) _ _ Hl) as [_ _ _ (t & r & Ht & Hst & _)].
  rewrite Ht, Hst, bool_decide_eq_true_2 by done.
  destruct (requeueTaskLocked _ _ _ _ _ _ _) as [[[s1 t1] lr] la] eqn:Hrq.
  do 2 apply Inv_publish. rewrite <- (requeue_stored _ _ _ _ _ _ _ _ _ _ Hrq).
  by eapply requeue_Inv.
Qed.

Lemma recoverExpiredLease_Inv w id now s : Inv s → Inv (recoverExpiredLeaseLocked w id now s).1.
Proof.
  intros HI. unfold recoverExpiredLeaseLocked. destruct (st_leases s !! id) as [l|] eqn:Hl; [|done].
  case_match; [done|].
  pose proof (ti_leases _ (inv_task _ HI) _ _ Hl) as [_ _ _ (t & r & Ht & Hst & _)].
  rewrite Ht. case_match; [|case_match].
  - simpl. do 2 apply Inv_publish. by eapply Inv_retire.
  - destruct (requeueTaskLocked _ _ _ _ _ _ _) as [[[s1 t1] lr] la] eqn:Hrq.
    do 2 apply Inv_publish. by eapply requeue_Inv.
  - by rewrite Hst in *.
Qed.

Lemma recover_scan_Inv w ids now s : Inv s → Inv (recover_scan w ids now s).1.
Proof.
  revert s. induction ids as [|id ids IH]; intros s HI; simpl; [done|].
  pose proof (recoverExpiredLease_Inv w id now s HI) as H1.
  destruct (recoverExpiredLeaseLocked w id now s) as [s1 r]. specialize (IH s1 H1).
  by destruct (recover_scan w ids now s1).
Qed.

Lemma claim_exhausted_Inv id now t s :
  st_tasks s !! id = Some t → Inv s → Inv (claim_exhausted id now t s).
Proof.
  intros Ht HI. unfold claim_exhausted. case_match; [|done]. apply Inv_publish.
  lazymatch goal with |- Inv (dropLease (task_ID ?t') _) =>
    change (task_ID t') with (task_ID t) end.
  rewrite (Inv_task_key _ _ _ HI Ht). by eapply Inv_retire.
Qed.

Lemma claim_start_Inv id req now t s :
  st_tasks s !! id = Some t → exhaustedAttempts t = false → Inv s →
  Inv (claim_start id req now t s).1.
Proof.
  intros Ht Hex HI. unfold claim_start. simpl. apply Inv_publish.
  pose proof (Inv_task_key _ _ _ HI Ht) as Hid.
  pose proof (ti_counters _ (inv_task _ HI)) as [_ Hn].
  eapply (Inv_change s _ id t _ (Some _)); [done| |done]. split; try done; simpl.
  - by rewrite Hid.
  - lia.
  - unfold attempts_ok, exhaustedAttempts in *. simpl.
    apply andb_false_iff in Hex. rewrite Z.gtb_ltb, Z.ltb_ge, Z.geb_leb, Z.leb_gt in Hex. lia.
  - split_and!; try done; [by apply issued_next|by eexists|].
    intros j lj Hj Htok. destruct (ti_leases _ (inv_task _ HI) _ _ Hj) as [_ _ Hiss _].
    rewrite Htok in Hiss. by apply issued_fresh in Hiss.
Qed.

Lemma claimTaskLocked_Inv id req now s : Inv s → Inv (claimTaskLocked id req now s).1.
Proof.
  intros HI. unfold claimTaskLocked. destruct (st_tasks s !! id) as [t|] eqn:Ht; [|done].
  repeat (case_match; [done|]).
  destruct (exhaustedAttempts t) eqn:Hex; [by apply claim_exhausted_Inv|].
  destruct (task_Status t); try done; repeat case_match; try done; by apply claim_start_Inv.
Qed.

Lemma claim_scan_Inv ids req now s : Inv s → Inv (claim_scan ids req now s).1.
Proof.
  revert s. induction ids as [|id ids IH]; intros s HI; simpl; [done|].
  pose proof (claimTaskLocked_Inv id req now s HI) as H1.
  destruct (claimTaskLocked id req now s) as [s1 [c|e]]; [done|]. case_match; [by apply IH|done].
Qed.
