(* ===== verification/StoreDeps.v ===== *)
(** * Dependency edges of the in-memory store

    [linkTaskDependencies] mirrors every dependency edge at its other end.  This
    file characterises the linked task map and shows that creating, updating and
    deleting tasks keep the graph symmetric and closed ([DepInv]), including
    for a task that names itself. *)

From S2P Require Import Prelude Errors Usage OrchTypes MemStore MemCommands StoreInv.

Lemma elem_of_append_unique l v x :
  x ∈ append_unique l v ↔ x ∈ l ∨ (x = v ∧ v ≠ "").
Proof.
  unfold append_unique. destruct (String.eqb_spec v "") as [->|Hv]; [naive_solver|].
  case_bool_decide; [naive_solver|]. rewrite elem_of_app, list_elem_of_singleton. naive_solver.
Qed.

Lemma elem_of_appendUniqueStrings l vs x :
  x ∈ appendUniqueStrings l vs ↔ x ∈ l ∨ (x ∈ vs ∧ x ≠ "").
Proof.
  unfold appendUniqueStrings. revert l. induction vs as [|v vs IH]; intros l; simpl.
  - set_solver.
  - rewrite IH, elem_of_append_unique, elem_of_cons. naive_solver.
Qed.

(** Appending keeps a duplicate-free list duplicate-free. *)
Lemma NoDup_appendUniqueStrings l vs : NoDup l → NoDup (appendUniqueStrings l vs).
Proof.
  unfold appendUniqueStrings. revert l. induction vs as [|v vs IH]; intros l Hl; simpl; [done|].
  apply IH. unfold append_unique. case_match; [done|]. case_bool_decide; [done|].
  apply NoDup_app. split; [done|]. split; [set_solver|apply NoDup_singleton].
Qed.

Lemma elem_of_removeString l y x : x ∈ removeString l y ↔ x ∈ l ∧ x ≠ y.
Proof. unfold removeString. rewrite list_elem_of_filter. naive_solver. Qed.

(** [t'] is [t] with [self] added to [Blocks] when [inB] and to [BlockedBy] when
    [inBB]; apart from those and [UpdatedAt] nothing changes. *)
Record linked (self : string) (inB inBB : Prop) (t t' : Task) : Prop := {
  lk_core : t' = t <| task_Blocks := task_Blocks t' |>
                   <| task_BlockedBy := task_BlockedBy t' |>
                   <| task_UpdatedAt := task_UpdatedAt t' |>;
  lk_blocks : ∀ x, x ∈ task_Blocks t' ↔ x ∈ task_Blocks t ∨ (x = self ∧ inB);
  lk_blockedBy : ∀ x, x ∈ task_BlockedBy t' ↔ x ∈ task_BlockedBy t ∨ (x = self ∧ inBB);
}.

Lemma linked_refl self (P Q : Prop) t : ¬ P → ¬ Q → linked self P Q t t.
Proof. intros ? ?. split; [by destruct t|naive_solver..]. Qed.

Lemma linked_trans self (P1 Q1 P2 Q2 : Prop) t1 t2 t3 :
  linked self P1 Q1 t1 t2 → linked self P2 Q2 t2 t3 →
  linked self (P1 ∨ P2) (Q1 ∨ Q2) t1 t3.
Proof.
  intros [H1 B1 C1] [H2 B2 C2]. split.
  - rewrite H2, H1. done.
  - intros x. rewrite B2, B1. tauto.
  - intros x. rewrite C2, C1. tauto.
Qed.

Lemma linked_iff self (P P' Q Q' : Prop) t t' :
  (P ↔ P') → (Q ↔ Q') → linked self P Q t t' → linked self P' Q' t t'.
Proof. intros HP HQ [? B C]. split; [done|..]; intros x; [rewrite B|rewrite C]; tauto. Qed.

Definition linked_map (self : string) (inB inBB : string → Prop)
    (m m' : gmap string Task) : Prop :=
  ∀ k, option_Forall2 (linked self (inB k) (inBB k)) (m !! k) (m' !! k).

Lemma linked_map_trans self P1 Q1 P2 Q2 m1 m2 m3 :
  linked_map self P1 Q1 m1 m2 → linked_map self P2 Q2 m2 m3 →
  linked_map self (λ k, P1 k ∨ P2 k) (λ k, Q1 k ∨ Q2 k) m1 m3.
Proof.
  intros H1 H2 k. specialize (H1 k). specialize (H2 k).
  destruct (m1 !! k), (m2 !! k), (m3 !! k); inversion H1; inversion H2; simplify_eq; constructor.
  by eapply linked_trans.
Qed.

Lemma linked_map_iff self (P P' Q Q' : string → Prop) m m' :
  (∀ k, P k ↔ P' k) → (∀ k, Q k ↔ Q' k) →
  linked_map self P Q m m' → linked_map self P' Q' m m'.
Proof.
  intros HP HQ H k. specialize (H k).
  destruct (m !! k), (m' !! k); inversion H; simplify_eq; constructor. eapply linked_iff; eauto.
Qed.

Lemma linked_map_refl self m : linked_map self (λ _, False) (λ _, False) m m.
Proof. intros k. destruct (m !! k); constructor. apply linked_refl; tauto. Qed.

(** One iteration of the first loop. *)
Lemma link_blocked_linked self now acc id :
  self ≠ "" →
  linked_map self (λ _, False) (λ k, k = id) acc.1 (link_blocked self now acc id).1.
Proof.
  intros Hs. unfold link_blocked. destruct (acc.1 !! id) as [b|] eqn:Hb.
  - assert (Hl : ∀ u, linked self False True b
      (b <| task_BlockedBy ::= λ l, appendUniqueStrings l [self] |> <| task_UpdatedAt := u |>)).
    { intros u. split; simpl; [done|naive_solver|]. intros x.
      rewrite elem_of_appendUniqueStrings, list_elem_of_singleton. naive_solver. }
    case_bool_decide; simpl; intros k; rewrite lookup_insert;
      (case_decide; [subst; rewrite Hb; constructor; eapply linked_iff; [..|apply Hl]; tauto|]);
      destruct (acc.1 !! k); constructor; apply linked_refl; congruence || tauto.
  - intros k. destruct (acc.1 !! k) eqn:Hk; constructor.
    apply linked_refl; [tauto|congruence].
Qed.

(** One iteration of the second loop. *)
Lemma link_blocker_linked self now acc id :
  self ≠ "" →
  linked_map self (λ k, k = id) (λ _, False) acc.1 (link_blocker self now acc id).1.
Proof.
  intros Hs. unfold link_blocker. destruct (acc.1 !! id) as [b|] eqn:Hb.
  - assert (Hl : ∀ u, linked self True False b
      (b <| task_Blocks ::= λ l, appendUniqueStrings l [self] |> <| task_UpdatedAt := u |>)).
    { intros u. split; simpl; [done| |naive_solver]. intros x.
      rewrite elem_of_appendUniqueStrings, list_elem_of_singleton. naive_solver. }
    case_bool_decide; simpl; intros k; rewrite lookup_insert;
      (case_decide; [subst; rewrite Hb; constructor; eapply linked_iff; [..|apply Hl]; tauto|]);
      destruct (acc.1 !! k); constructor; apply linked_refl; congruence || tauto.
  - intros k. destruct (acc.1 !! k) eqn:Hk; constructor.
    apply linked_refl; [congruence|tauto].
Qed.

Lemma fold_link_blocked self now ids acc :
  self ≠ "" →
  linked_map self (λ _, False) (λ k, k ∈ ids) acc.1 (foldl (link_blocked self now) acc ids).1.
Proof.
  intros Hs. revert acc. induction ids as [|id ids IH]; intros acc; simpl.
  - eapply linked_map_iff; [| |apply linked_map_refl]; set_solver.
  - eapply linked_map_iff; [| |eapply linked_map_trans; [by apply link_blocked_linked|apply IH]];
      set_solver.
Qed.

Lemma fold_link_blocker self now ids acc :
  self ≠ "" →
  linked_map self (λ k, k ∈ ids) (λ _, False) acc.1 (foldl (link_blocker self now) acc ids).1.
Proof.
  intros Hs. revert acc. induction ids as [|id ids IH]; intros acc; simpl.
  - eapply linked_map_iff; [| |apply linked_map_refl]; set_solver.
  - eapply linked_map_iff; [| |eapply linked_map_trans; [by apply link_blocker_linked|apply IH]];
      set_solver.
Qed.

(** ** The linked graph is symmetric and closed

    [m] is the map [m0] after linking task [t] (stored at [id]) with its peers.
    In [m0] the edges between other tasks are already mirrored, and an edge from
    another task to [id] is recorded at [id]; linking adds the other halves. *)
Section linked_graph.
Context (m0 m : gmap string Task) (id : string) (t : Task) (BBs : list string).
Hypothesis Hid : m0 !! id = Some t.
Hypothesis HBBs : ∀ x, x ∈ BBs ↔ x ∈ task_BlockedBy t ∨ (x = id ∧ id ∈ task_Blocks t).
Hypothesis Hlk : linked_map id (λ k, k ∈ BBs) (λ k, k ∈ task_Blocks t) m0 m.
Hypothesis Hsym : ∀ a b ta tb, a ≠ id → b ≠ id → m0 !! a = Some ta → m0 !! b = Some tb →
  (b ∈ task_Blocks ta ↔ a ∈ task_BlockedBy tb).
Hypothesis Hself : ∀ a ta, a ≠ id → m0 !! a = Some ta →
  (id ∈ task_Blocks ta → a ∈ BBs) ∧ (id ∈ task_BlockedBy ta → a ∈ task_Blocks t).
Hypothesis Hclosed : ∀ a ta x, m0 !! a = Some ta →
  x ∈ task_Blocks ta ∨ x ∈ task_BlockedBy ta → is_Some (m0 !! x).

Lemma linked_get k tk : m !! k = Some tk →
  ∃ tk0, m0 !! k = Some tk0 ∧ linked id (k ∈ BBs) (k ∈ task_Blocks t) tk0 tk.
Proof using Hlk.
  intros Hk. specialize (Hlk k). rewrite Hk in Hlk.
  destruct (m0 !! k); inversion Hlk; simplify_eq; eauto.
Qed.

Lemma linked_dom k : is_Some (m0 !! k) → is_Some (m !! k).
Proof using Hlk.
  specialize (Hlk k). destruct (m0 !! k), (m !! k); inversion Hlk; eauto.
Qed.

Lemma DepInv_linked : DepInv m.
Proof using All.
  split.
  - intros a b ta tb (ta0 & Ha & [_ Ba _])%linked_get (tb0 & Hb & [_ _ Cb])%linked_get.
    rewrite Ba, Cb.
    destruct (decide (a = id)) as [->|Hna], (decide (b = id)) as [->|Hnb]; simplify_eq.
    + rewrite HBBs. tauto.
    + pose proof (Hself b tb0 Hnb Hb). tauto.
    + pose proof (Hself a ta0 Hna Ha). rewrite HBBs in *. naive_solver.
    + pose proof (Hsym a b ta0 tb0 Hna Hnb Ha Hb). naive_solver.
  - intros a ta x (ta0 & Ha & [_ Ba _])%linked_get. rewrite Ba.
    intros [Hx|[-> _]]; apply linked_dom; eauto.
  - intros a ta x (ta0 & Ha & [_ _ Ca])%linked_get. rewrite Ca.
    intros [Hx|[-> _]]; apply linked_dom; eauto.
Qed.
End linked_graph.

(** A validated dependency list names stored tasks only. *)
Lemma missing_dep_none s what ids :
  missing_dep s what ids = None ↔ ∀ x, x ∈ ids → is_Some (st_tasks s !! x).
Proof.
  unfold missing_dep. induction ids as [|id ids IH]; simpl; [set_solver|].
  destruct (st_tasks s !! id) eqn:Hid; simpl.
  - rewrite IH. setoid_rewrite elem_of_cons. naive_solver.
  - split; [done|]. intros H. destruct (H id); [set_solver|congruence].
Qed.

Lemma validateTaskDependencies_none s bs bbs :
  validateTaskDependencies s bs bbs = None ↔
  ∀ x, x ∈ bs ∨ x ∈ bbs → is_Some (st_tasks s !! x).
Proof.
  unfold validateTaskDependencies. destruct (missing_dep s "blocks" bs) eqn:E.
  - split; [done|]. intros H. assert (missing_dep s "blocks" bs = None); [|congruence].
    apply missing_dep_none. eauto.
  - rewrite missing_dep_none in *. naive_solver.
Qed.

Lemma missing_dep_some s what ids e :
  missing_dep s what ids = Some e →
  Is e ErrTaskDependencyNotFound = true ∧ ∃ x, x ∈ ids ∧ st_tasks s !! x = None.
Proof.
  unfold missing_dep. induction ids as [|id ids IH]; simpl; [done|].
  destruct (st_tasks s !! id) eqn:Hid; simpl.
  - intros (? & x & ? & ?)%IH. split; [done|]. exists x. set_solver.
  - intros [= <-]. split; [done|]. exists id. set_solver.
Qed.

(** A refused dependency list: the error, and a task that is not stored. *)
Lemma missing_dependency s bs bbs e :
  validateTaskDependencies s bs bbs = Some e →
  Is e ErrTaskDependencyNotFound = true ∧
  ∃ x, (x ∈ bs ∨ x ∈ bbs) ∧ st_tasks s !! x = None.
Proof.
  unfold validateTaskDependencies. destruct (missing_dep s "blocks" bs) eqn:E.
  - intros [= <-]. apply missing_dep_some in E as (? & x & ? & ?). eauto.
  - intros (? & x & ? & ?)%missing_dep_some. eauto.
Qed.

(** The map [linkTaskDependencies] leaves behind. *)
Lemma linkTaskDependencies_linked deref self now s s' peers :
  self ≠ "" →
  linkTaskDependencies deref self now s = (s', peers) →
  ∃ m1, linked_map self (λ _, False) (λ k, k ∈ task_Blocks (deref (st_tasks s))) (st_tasks s) m1 ∧
    linked_map self (λ k, k ∈ task_BlockedBy (deref m1))
      (λ k, k ∈ task_Blocks (deref (st_tasks s))) (st_tasks s) (st_tasks s') ∧
    s' = s <| st_tasks := st_tasks s' |>.
Proof.
  intros Hself Hl. unfold linkTaskDependencies in Hl. simplify_eq.
  set (acc1 := foldl (link_blocked self now) (st_tasks s, ∅) (task_Blocks (deref (st_tasks s)))).
  exists acc1.1.
  assert (H1 : linked_map self (λ _, False) (λ k, k ∈ task_Blocks (deref (st_tasks s)))
                 (st_tasks s) acc1.1) by exact (fold_link_blocked self now _ (_, ∅) Hself).
  split; [exact H1|]. split; [|done]. simpl.
  eapply linked_map_iff; [| |eapply linked_map_trans; [exact H1|by apply fold_link_blocker]];
    simpl; tauto.
Qed.

(** ** Changing many tasks without touching their execution state *)

(** The fields the task invariant reads. *)
Definition same_exec (t t' : Task) : Prop :=
  task_ID t' = task_ID t ∧ task_Status t' = task_Status t ∧ task_Attempt t' = task_Attempt t ∧
  task_MaxAttempts t' = task_MaxAttempts t ∧ task_Run t' = task_Run t ∧
  task_Result t' = task_Result t.
Definition same_exec_map (m m' : gmap string Task) : Prop :=
  ∀ k, option_Forall2 same_exec (m !! k) (m' !! k).

Lemma linked_same_exec self P Q t t' : linked self P Q t t' → same_exec t t'.
Proof. intros [-> _ _]. done. Qed.

Lemma linked_map_same_exec self P Q m m' : linked_map self P Q m m' → same_exec_map m m'.
Proof.
  intros H k. specialize (H k). destruct (m !! k), (m' !! k); inversion H; simplify_eq; constructor.
  by eapply linked_same_exec.
Qed.

Lemma same_exec_map_trans m1 m2 m3 :
  same_exec_map m1 m2 → same_exec_map m2 m3 → same_exec_map m1 m3.
Proof.
  intros H1 H2 k. specialize (H1 k). specialize (H2 k).
  destruct (m1 !! k), (m2 !! k), (m3 !! k); inversion H1; inversion H2; simplify_eq; constructor.
  unfold same_exec in *. naive_solver congruence.
Qed.

Lemma same_exec_map_insert m id t t' :
  m !! id = Some t → same_exec t t' → same_exec_map m (<[id := t']> m).
Proof.
  intros Hid Ht k. rewrite lookup_insert. case_decide; [subst; rewrite Hid; by constructor|].
  destruct (m !! k); constructor. by repeat split.
Qed.

Lemma same_exec_map_get m m' k t' :
  same_exec_map m m' → m' !! k = Some t' → ∃ t, m !! k = Some t ∧ same_exec t t'.
Proof.
  intros H Hk. specialize (H k). rewrite Hk in H.
  destruct (m !! k); inversion H; simplify_eq; eauto.
Qed.

Lemma same_exec_map_dom m m' k : same_exec_map m m' → is_Some (m !! k) ↔ is_Some (m' !! k).
Proof.
  intros H. specialize (H k). destruct (m !! k), (m' !! k); inversion H; split; eauto.
Qed.

Lemma TaskInv_same_exec s m' :
  same_exec_map (st_tasks s) m' → TaskInv s → TaskInv (s <| st_tasks := m' |>).
Proof.
  intros H [Hc Hnd Hord Htasks Hleases Hrun Htok]. split; simpl; try done.
  - intros id. by rewrite Hord, same_exec_map_dom.
  - intros id t (t0 & Ht0 & E1 & E2 & E3 & E4 & E5 & _)%(same_exec_map_get _ _ _ _ H).
    destruct (Htasks _ _ Ht0). split; simpl; congruence || done || (rewrite ?E3, ?E4; done).
  - intros id l Hl. destruct (Hleases id l Hl) as [? ? ? (t & r & Ht & ?)].
    split; simpl; try done. specialize (H id). rewrite Ht in H. simpl.
    destruct (m' !! id) as [t'|] eqn:E; inversion H as [? ? HE|]; subst.
    exists t', r. destruct HE as (E1 & E2 & E3 & E4 & E5 & _). rewrite E2, E3, E5. naive_solver.
  - intros id t (t0 & Ht0 & E1 & E2 & _)%(same_exec_map_get _ _ _ _ H) Hst.
    eapply Hrun; [done|congruence].
Qed.

(** ** [CreateTask] *)

(** The next task identifier is not in use, neither as a task nor as an edge. *)
Definition next_id (s : Store) : string := "task-" +:+ itoa (1 + st_nextTask s).

Lemma next_id_fresh s : Inv s → st_tasks s !! next_id s = None.
Proof.
  intros HI. destruct (st_tasks s !! next_id s) eqn:E; [|done].
  destruct (ti_tasks _ (inv_task _ HI) _ _ E) as [_ Hiss _ _]. by apply issued_fresh in Hiss.
Qed.

Lemma next_id_no_edge s a ta :
  Inv s → st_tasks s !! a = Some ta → next_id s ∉ task_Blocks ta ∧ next_id s ∉ task_BlockedBy ta.
Proof.
  intros HI Ha. pose proof (next_id_fresh s HI) as Hf. destruct (inv_dep _ HI) as [_ H1 H2].
  split; intros Hin; [destruct (H1 a ta _ Ha Hin)|destruct (H2 a ta _ Ha Hin)]; congruence.
Qed.

(** Storing a new pending task under the next identifier. *)
Lemma TaskInv_add s t m' :
  same_exec_map (st_tasks s) m' → Inv s → task_ID t = next_id s → task_Status t = TaskPending →
  task_Attempt t = 0 →
  TaskInv (s <| st_nextTask ::= Z.add 1 |> <| st_tasks := <[next_id s := t]> m' |>
             <| st_taskOrder ::= λ l, l ++ [next_id s] |>).
Proof.
  intros Hm HI Hid Hst Hat. pose proof (next_id_fresh s HI) as Hf.
  destruct (TaskInv_same_exec s m' Hm (inv_task _ HI)) as [Hc Hnd Hord Htasks Hleases Hrun Htok].
  simpl in *.
  assert (Hf' : m' !! next_id s = None).
  { specialize (Hm (next_id s)). rewrite Hf in Hm. by destruct (m' !! next_id s); inversion Hm. }
  assert (Hno : st_leases s !! next_id s = None).
  { destruct (st_leases s !! next_id s) eqn:E; [|done].
    destruct (Hleases _ _ E) as [_ _ _ (t0 & ? & ? & _)]. simpl in *. congruence. }
  split; simpl; try done.
  - lia.
  - apply NoDup_app. split; [done|]. split; [|apply NoDup_singleton].
    intros x Hx%Hord ->%list_elem_of_singleton. rewrite Hf' in Hx. by destruct Hx.
  - intros x. rewrite elem_of_app, list_elem_of_singleton, Hord, lookup_insert.
    case_decide; naive_solver.
  - intros x tx Hx. rewrite lookup_insert in Hx. case_decide; simplify_eq.
    + split; simpl; [done|apply issued_next; lia|lia..].
    + destruct (Htasks x tx Hx). split; simpl in *; try done. eapply issued_mono; [|done]. lia.
  - intros x l Hl. assert (x ≠ next_id s) by congruence.
    eapply (lease_wf_mono (s <| st_tasks := m' |>)); [|done|by apply Hleases].
    simpl. by rewrite lookup_insert_ne.
  - intros x tx Hx Hs. rewrite lookup_insert in Hx. case_decide; simplify_eq; [congruence|eauto].
Qed.

Lemma CreateTask_dep s task m2 :
  let id := next_id s in
  Inv s →
  (∀ x, x ∈ task_Blocks task ∨ x ∈ task_BlockedBy task → is_Some (st_tasks s !! x)) →
  linked_map id (λ k, k ∈ task_BlockedBy task) (λ k, k ∈ task_Blocks task) (st_tasks s) m2 →
  DepInv (<[id := task]> m2).
Proof.
  intros id HI Hdeps Hlk. pose proof (next_id_fresh s HI) as Hf.
  assert (Hn1 : id ∉ task_Blocks task).
  { intros Hin. destruct (Hdeps id) as [? E]; [auto|]. unfold id in E. congruence. }
  assert (Hn2 : id ∉ task_BlockedBy task).
  { intros Hin. destruct (Hdeps id) as [? E]; [auto|]. unfold id in E. congruence. }
  destruct (inv_dep _ HI) as [Hsym H1 H2].
  apply (DepInv_linked (<[id := task]> (st_tasks s)) _ id task (task_BlockedBy task)).
  - by rewrite lookup_insert_eq.
  - naive_solver.
  - intros k. specialize (Hlk k). destruct (decide (k = id)) as [->|Hne].
    + rewrite !lookup_insert_eq. constructor. by apply linked_refl.
    + by rewrite !lookup_insert_ne.
  - intros a b ta tb Ha Hb. rewrite !lookup_insert_ne by done. eauto.
  - intros a ta Hne. rewrite lookup_insert_ne by done. intros Ha.
    pose proof (next_id_no_edge s a ta HI Ha). unfold id. tauto.
  - intros a ta x Ha Hx. apply lookup_insert_is_Some'. right.
    rewrite lookup_insert in Ha. case_decide; simplify_eq; [by eauto|]. naive_solver.
Qed.

Lemma CreateTask_Inv wall req s : Inv s → Inv (CreateTask wall req s).1.
Proof.
  intros HI. unfold CreateTask.
  destruct (validateTaskDependencies _ _ _) eqn:Hv; [done|].
  rewrite validateTaskDependencies_none in Hv.
  destruct (linkTaskDependencies _ _ _ _) as [s' peers] eqn:Hl.
  apply linkTaskDependencies_linked in Hl as (m1 & _ & Hlk & Hs'); [|done].
  match goal with |- context [putTask _ ?t _] => set (task := t) in * end.
  simpl in Hs'. rewrite Hs'. apply Inv_publish_updates, Inv_publish.
  pose proof (linked_map_same_exec _ _ _ _ _ Hlk) as Hse. split.
  - by apply (TaskInv_add s task).
  - simpl. by apply CreateTask_dep.
  - by eapply (CmdInv_frame s); [..|apply HI].
  - eapply (ArtInv_frame s); [done..| |apply HI]. intros x Hx%(same_exec_map_dom _ _ _ Hse).
    simpl. rewrite lookup_insert. case_decide; eauto.
Qed.

(** ** [UpdateTask] *)

Lemma UpdateTask_dep s id t t1 m1 m2 t2 :
  Inv s → st_tasks s !! id = Some t → same_exec t t1 →
  (∀ x, x ∈ task_Blocks t → x ∈ task_Blocks t1) →
  (∀ x, x ∈ task_BlockedBy t → x ∈ task_BlockedBy t1) →
  (∀ x, x ∈ task_Blocks t1 ∨ x ∈ task_BlockedBy t1 → is_Some (st_tasks s !! x)) →
  linked_map id (λ _, False) (λ k, k ∈ task_Blocks t1) (<[id := t1]> (st_tasks s)) m1 →
  linked_map id (λ k, k ∈ task_BlockedBy (default t1 (m1 !! id))) (λ k, k ∈ task_Blocks t1)
    (<[id := t1]> (st_tasks s)) m2 →
  m2 !! id = Some t2 →
  DepInv m2.
Proof.
  intros HI Hid Hse Hb Hbb Hdeps Hl1 Hl2 Ht2.
  destruct (inv_dep _ HI) as [Hsym H1 H2].
  specialize (Hl1 id). rewrite lookup_insert_eq in Hl1.
  destruct (m1 !! id) as [t1'|]; inversion Hl1 as [? ? [_ _ HC]|]; subst. simpl in Hl2.
  apply (DepInv_linked (<[id := t1]> (st_tasks s)) _ id t1 (task_BlockedBy t1')); try done.
  - by rewrite lookup_insert_eq.
  - intros a b ta tb Ha Hnb. rewrite !lookup_insert_ne by done. eauto.
  - intros a ta Hne. rewrite lookup_insert_ne by done. intros Ha. split; intros Hin.
    + apply HC. left. apply Hbb. by eapply (Hsym a id).
    + apply Hb. by eapply (Hsym id a).
  - intros a ta x Ha Hx. apply lookup_insert_is_Some'. right.
    rewrite lookup_insert in Ha. case_decide; simplify_eq; [by eauto|]. naive_solver.
Qed.

Lemma Inv_same_exec s m' :
  same_exec_map (st_tasks s) m' → DepInv m' → Inv s → Inv (s <| st_tasks := m' |>).
Proof.
  intros Hm HD [HT _ HC HA]. split; [by apply TaskInv_same_exec|done|by eapply (CmdInv_frame s)|].
  eapply (ArtInv_frame s); [done..| |done]. intros x. by rewrite (same_exec_map_dom _ _ _ Hm).
Qed.

Lemma UpdateTask_Inv wall req s : Inv s → Inv (UpdateTask wall req s).1.
Proof.
  intros HI. unfold UpdateTask. case_match; [done|].
  destruct (st_tasks s !! utr_ID req) as [t|] eqn:Ht; [|done].
  destruct (validateTaskDependencies _ _ _) eqn:Hv; [done|].
  rewrite validateTaskDependencies_none in Hv.
  match goal with |- context [linkTaskDependencies _ (task_ID ?t0) _ _] => set (t1 := t0) end.
  assert (Hse : same_exec t t1). { unfold t1. by repeat case_match. }
  assert (Hb : ∀ x, x ∈ task_Blocks t1 ↔ x ∈ task_Blocks t ∨ (x ∈ utr_AddBlocks req ∧ x ≠ "")).
  { intros x. unfold t1. simpl. rewrite elem_of_appendUniqueStrings. by repeat case_match. }
  assert (Hbb : ∀ x, x ∈ task_BlockedBy t1 ↔
                     x ∈ task_BlockedBy t ∨ (x ∈ utr_AddBlockedBy req ∧ x ≠ "")).
  { intros x. unfold t1. simpl. rewrite elem_of_appendUniqueStrings. by repeat case_match. }
  clearbody t1. pose proof (Inv_task_key _ _ _ HI Ht) as Hkey.
  assert (Hid1 : task_ID t1 = utr_ID req) by (destruct Hse; congruence). rewrite Hid1.
  destruct (linkTaskDependencies _ _ _ _) as [s' peers] eqn:Hl.
  apply linkTaskDependencies_linked in Hl as (m1 & Hl1 & Hl2 & Hs'); [|by apply String.eqb_neq].
  simpl in Hl1, Hl2, Hs'. rewrite lookup_insert_eq in Hl1, Hl2. simpl in Hl1, Hl2.
  pose proof (linked_map_same_exec _ _ _ _ _ Hl2) as Hse2.
  assert (is_Some (st_tasks s' !! utr_ID req)) as [t2 Ht2].
  { rewrite <- (same_exec_map_dom _ _ _ Hse2), lookup_insert_eq. eauto. }
  assert (HD : DepInv (st_tasks s')).
  { eapply (UpdateTask_dep s _ t t1 m1); eauto; try (intros x; rewrite ?Hb, ?Hbb; tauto).
    destruct (inv_dep _ HI). intros x. rewrite Hb, Hbb. naive_solver. }
  rewrite Ht2. simpl default. apply Inv_publish_updates, Inv_publish.
  rewrite Hs'. unfold putTask. simpl. apply (Inv_same_exec s _); [| |done].
  - eapply same_exec_map_trans; [by eapply same_exec_map_insert|].
    eapply same_exec_map_trans; [exact Hse2|]. eapply same_exec_map_insert; [done|]. done.
  - by eapply DepInv_insert.
Qed.

(** ** [DeleteTask] *)

Lemma unlink_same_exec id now t : same_exec t (unlink_task id now t).
Proof. unfold unlink_task. by case_match. Qed.

Lemma unlink_deps id now t x :
  (x ∈ task_Blocks (unlink_task id now t) ↔ x ∈ task_Blocks t ∧ x ≠ id) ∧
  (x ∈ task_BlockedBy (unlink_task id now t) ↔ x ∈ task_BlockedBy t ∧ x ≠ id).
Proof. unfold unlink_task. case_match; simpl; by rewrite !elem_of_removeString. Qed.

Lemma DepInv_delete m id now : DepInv m → DepInv (unlink_task id now <$> delete id m).
Proof.
  intros [Hsym H1 H2].
  assert (Hget : ∀ k tk, (unlink_task id now <$> delete id m) !! k = Some tk →
    ∃ tk0, m !! k = Some tk0 ∧ k ≠ id ∧ tk = unlink_task id now tk0).
  { intros k tk. rewrite lookup_fmap, fmap_Some. intros (tk0 & Hk & ->).
    apply lookup_delete_Some in Hk as [? ?]. eauto. }
  assert (Hdom : ∀ k, k ≠ id → is_Some (m !! k) →
    is_Some ((unlink_task id now <$> delete id m) !! k)).
  { intros k Hne [tk Hk]. rewrite lookup_fmap, lookup_delete_ne, Hk by done. eauto. }
  split.
  - intros a b ta tb (ta0 & Ha & ? & ->)%Hget (tb0 & Hb & ? & ->)%Hget.
    rewrite (proj1 (unlink_deps id now ta0 b)), (proj2 (unlink_deps id now tb0 a)).
    rewrite (Hsym a b ta0 tb0) by done. tauto.
  - intros a ta x (ta0 & Ha & ? & ->)%Hget [Hx Hne]%(proj1 (unlink_deps _ _ _ _)). eauto.
  - intros a ta x (ta0 & Ha & ? & ->)%Hget [Hx Hne]%(proj2 (unlink_deps _ _ _ _)). eauto.
Qed.

(** Dropping a stored task and its lease. *)
Definition drop_task (id : string) (s : Store) : Store :=
  s <| st_tasks ::= delete id |> <| st_leases ::= delete id |>
    <| st_taskOrder ::= λ l, removeString l id |>.

Lemma TaskInv_drop id s : TaskInv s → TaskInv (drop_task id s).
Proof.
  intros [Hc Hnd Hord Htasks Hleases Hrun Htok]. split; simpl; try done.
  - by apply NoDup_filter.
  - intros x. rewrite elem_of_removeString, Hord.
    destruct (decide (x = id)) as [->|Hne].
    + rewrite lookup_delete_eq. split; [tauto|]. by intros [].
    + rewrite lookup_delete_ne by done. tauto.
  - intros x t [Hne Hx]%lookup_delete_Some. destruct (Htasks x t Hx). by split.
  - intros x l [Hne Hx]%lookup_delete_Some. eapply (lease_wf_mono s); [|done|by apply Hleases].
    simpl. by rewrite lookup_delete_ne.
  - intros x t [Hne Hx]%lookup_delete_Some Hst. rewrite lookup_delete_ne by done. eauto.
  - intros i j li lj [_ Hi]%lookup_delete_Some [_ Hj]%lookup_delete_Some. eauto.
Qed.

Lemma foldl_delete_lookup {A} (m : gmap string A) ids k :
  foldl (λ m id, delete id m) m ids !! k = if bool_decide (k ∈ ids) then None else m !! k.
Proof.
  revert m. induction ids as [|id ids IH]; intros m.
  - rewrite bool_decide_eq_false_2; [done|set_solver].
  - cbn [foldl]. rewrite IH. destruct (decide (k = id)) as [->|Hne].
    + rewrite (bool_decide_eq_true_2 (id ∈ id :: ids)) by set_solver.
      rewrite lookup_delete_eq. by case_match.
    + rewrite lookup_delete_ne by done. repeat case_bool_decide; set_solver.
Qed.

(** The artifacts that survive: those of other tasks. *)
Lemma deleteTaskArtifacts_lookup id s k a :
  ArtInv s → (st_artifacts (deleteTaskArtifactsLocked id s) !! k = Some a ↔
              st_artifacts s !! k = Some a ∧ art_TaskID a ≠ id).
Proof.
  intros [_ _ Hord _]. unfold deleteTaskArtifactsLocked. simpl. rewrite foldl_delete_lookup.
  case_bool_decide as Hin.
  - apply list_elem_of_In, filter_In in Hin as [_ Hd].
    destruct (st_artifacts s !! k) eqn:E; [|done]. apply bool_decide_eq_true in Hd. naive_solver.
  - split; [|by intros [? _]]. intros Hk. split; [done|]. intros Hid. apply Hin.
    apply list_elem_of_In, filter_In. rewrite Hk, <- list_elem_of_In, Hord.
    by rewrite bool_decide_eq_true_2; eauto.
Qed.

Lemma deleteTaskArtifacts_order id s k :
  ArtInv s → (k ∈ st_artifactOrder (deleteTaskArtifactsLocked id s) ↔
              is_Some (st_artifacts (deleteTaskArtifactsLocked id s) !! k)).
Proof.
  intros HA. pose proof (deleteTaskArtifacts_lookup id s k) as Hl.
  destruct HA as [? ? Hord Ha]. unfold is_Some. setoid_rewrite Hl; [|by split].
  unfold deleteTaskArtifactsLocked. simpl. rewrite list_elem_of_In, filter_In, <- list_elem_of_In.
  rewrite Hord. destruct (st_artifacts s !! k) as [a|] eqn:E.
  - destruct (decide (art_TaskID a = id)) as [Heq|Hne].
    + rewrite (bool_decide_eq_true_2 _ Heq). naive_solver.
    + rewrite (bool_decide_eq_false_2 _ Hne). naive_solver.
  - split; [by intros [[? ?] _]|by intros (? & ? & ?)].
Qed.

Lemma ArtInv_delete id s s' :
  st_artifacts s' = st_artifacts (deleteTaskArtifactsLocked id s) →
  st_artifactOrder s' = st_artifactOrder (deleteTaskArtifactsLocked id s) →
  st_nextArtifact s' = st_nextArtifact s →
  (∀ x, x ≠ id → is_Some (st_tasks s !! x) → is_Some (st_tasks s' !! x)) →
  ArtInv s → ArtInv s'.
Proof.
  intros H1 H2 H3 Hd HA. split.
  - rewrite H3. apply HA.
  - rewrite H2. apply NoDup_ListNoDup, List.NoDup_filter, NoDup_ListNoDup, HA.
  - intros k. rewrite H1, H2. by apply deleteTaskArtifacts_order.
  - intros k a. rewrite H1, H3. intros [Hk Hne]%deleteTaskArtifacts_lookup; [|done].
    destruct (ai_artifacts _ HA k a Hk) as (? & ? & ?). eauto.
Qed.

Lemma DeleteTask_Inv wall id s : Inv s → Inv (DeleteTask wall id s).1.
Proof.
  intros HI. unfold DeleteTask. destruct (st_tasks s !! id) as [t|] eqn:Ht; [|done].
  apply Inv_publish_updates, Inv_publish.
  set (m' := unlink_task id (wall 0%nat) <$> delete id (st_tasks s)).
  change (Inv ((deleteTaskArtifactsLocked id (drop_task id s)) <| st_tasks := m' |>)).
  split.
  - apply TaskInv_same_exec.
    + intros k. unfold m'. simpl. rewrite lookup_fmap.
      destruct (delete id (st_tasks s) !! k); constructor. apply unlink_same_exec.
    + destruct (TaskInv_drop id s (inv_task _ HI)) as [? ? ? Ht' Hl' ? ?]. split; try done.
      * intros k tk Hk. by destruct (Ht' k tk Hk).
      * intros k lk Hk. by destruct (Hl' k lk Hk).
  - apply DepInv_delete, HI.
  - eapply (CmdInv_frame s); [done..|apply HI].
  - eapply (ArtInv_delete id s); [done..| |apply HI].
    intros x Hne Hx. unfold m'. simpl. by rewrite lookup_fmap, fmap_is_Some, lookup_delete_ne.
Qed.
