(* ===== verification/StoreOps.v ===== *)
(** * The store as a labelled transition system

    [Op] lists the state-changing methods of the in-memory store (store.go,
    commands.go and artifacts.go) and [run_op] runs one of them; [step] is one
    call, [reachable] the stores some sequence of calls leads to from [NewStore].
    Every reachable store satisfies the invariant of StoreInv.

    The second half proves what a single call can do to a task: the status
    transitions it allows and how leases and attempt counters move. *)

From S2P Require Import Prelude Errors Usage OrchTypes MemStore MemCommands StoreInv StoreDeps.

(** ** Commands and artifacts preserve the invariant *)

Lemma Inv_putCommand s id c c' :
  st_commands s !! id = Some c → cmd_ID c' = cmd_ID c → claim_fields_ok c' →
  Inv s → Inv (putCommand id c' s).
Proof.
  intros Hid Hc Hok [HT HD HC HA]. destruct HT as [? ? ? Htasks Hleases ? ?].
  split; [split; try done| |split|by destruct HA].
  - intros k t Hk. by destruct (Htasks k t Hk).
  - intros k l Hk. by destruct (Hleases k l Hk).
  - done.
  - apply HC.
  - apply HC.
  - intros k. simpl. rewrite (ci_order _ HC), lookup_insert. case_decide; naive_solver.
  - intros k ck. simpl. rewrite lookup_insert. case_decide; intros; simplify_eq.
    + destruct (ci_commands _ HC _ _ Hid) as (? & ? & _). rewrite Hc. done.
    + by apply (ci_commands _ HC).
Qed.

Lemma claim_fields_stored s id c :
  Inv s → st_commands s !! id = Some c → claim_fields_ok c.
Proof. intros HI Hid. by destruct (ci_commands _ (inv_cmd _ HI) _ _ Hid) as (_ & _ & ?). Qed.

(** Refreshing a target leaves everything but the run and the worker alone. *)
Lemma refresh_core s c :
  refreshCommandTargetLocked s c =
    c <| cmd_RunID := cmd_RunID (refreshCommandTargetLocked s c) |>
      <| cmd_TargetWorkerID := cmd_TargetWorkerID (refreshCommandTargetLocked s c) |>.
Proof. unfold refreshCommandTargetLocked. destruct c. by repeat case_match. Qed.

Lemma refresh_claim_fields s c :
  claim_fields_ok (refreshCommandTargetLocked s c) ↔ claim_fields_ok c.
Proof. rewrite refresh_core. done. Qed.

Lemma append_nonempty (a b c : string) : b ≠ "" → a +:+ b +:+ c ≠ "".
Proof. destruct a, b; done. Qed.

Lemma claim_command_fields worker now c :
  worker ≠ "" → claim_fields_ok (claim_command worker now c).
Proof. intros Hw. split; simpl; [by apply append_nonempty|done]. Qed.

Lemma claim_refresh_Inv s id c :
  Inv s → st_commands s !! id = Some c → Inv (putCommand id (refreshCommandTargetLocked s c) s).
Proof.
  intros HI Hc. eapply Inv_putCommand; [done| | |done].
  - by rewrite refresh_core.
  - rewrite refresh_claim_fields. by eapply claim_fields_stored.
Qed.

(** The assignments of a successful claim, after the refresh. *)
Lemma claim_put_Inv s id c worker now :
  Inv s → st_commands s !! id = Some c → worker ≠ "" →
  let c1 := refreshCommandTargetLocked s c in
  Inv (putCommand id (claim_command worker now c1) (putCommand id c1 s)).
Proof.
  intros HI Hc Hw c1. eapply (Inv_putCommand _ _ c1).
  - simpl. by rewrite lookup_insert_eq.
  - done.
  - by apply claim_command_fields.
  - by apply claim_refresh_Inv.
Qed.

Lemma claim_command_scan_Inv ids worker now s :
  worker ≠ "" → Inv s → Inv (claim_command_scan ids worker now s).1.
Proof.
  intros Hw. revert s. induction ids as [|id ids IH]; intros s HI; simpl; [done|].
  destruct (st_commands s !! id) as [c|] eqn:Hc; [|by apply IH].
  case_match; [by apply IH|].
  case_match; [by apply IH, claim_refresh_Inv|]. by apply Inv_publish, claim_put_Inv.
Qed.

Lemma ClaimPendingCommand_Inv wall req s : Inv s → Inv (ClaimPendingCommand wall req s).1.
Proof.
  intros HI. unfold ClaimPendingCommand. destruct (String.eqb_spec (ccmd_WorkerID req) ""); [done|].
  by apply claim_command_scan_Inv.
Qed.

Lemma ClaimCommand_Inv wall id req s : Inv s → Inv (ClaimCommand wall id req s).1.
Proof.
  intros HI. unfold ClaimCommand. destruct (String.eqb_spec (ccmd_WorkerID req) ""); [done|].
  destruct (st_commands s !! id) as [c|] eqn:Hc; [|done].
  case_match; [done|]. case_match; [by apply claim_refresh_Inv|].
  by apply Inv_publish, claim_put_Inv.
Qed.

Lemma HandleCommand_Inv wall id tok by_ now s : Inv s → Inv (HandleCommand wall id tok by_ now s).1.
Proof.
  intros HI. unfold HandleCommand. destruct (st_commands s !! id) as [c|] eqn:Hc; [|done].
  case_match; [done|]. apply Inv_publish. by eapply Inv_putCommand.
Qed.

Lemma ReleaseCommand_Inv wall id tok s : Inv s → Inv (ReleaseCommand wall id tok s).1.
Proof.
  intros HI. unfold ReleaseCommand. destruct (st_commands s !! id) as [c|] eqn:Hc; [|done].
  case_match; [done|]. apply Inv_publish. by eapply Inv_putCommand.
Qed.

Lemma recoverClaimedCommand_Inv id before now s :
  Inv s → Inv (recoverClaimedCommandLocked id before now s).1.
Proof.
  intros HI. unfold recoverClaimedCommandLocked.
  destruct (st_commands s !! id) as [c|] eqn:Hc; [|done].
  case_match; [done|]. apply Inv_publish. by eapply Inv_putCommand.
Qed.

Lemma recover_command_scan_Inv ids before now s :
  Inv s → Inv (recover_command_scan ids before now s).1.
Proof.
  revert s. induction ids as [|id ids IH]; intros s HI; simpl; [done|].
  pose proof (recoverClaimedCommand_Inv id before now s HI) as H1.
  destruct (recoverClaimedCommandLocked id before now s) as [s1 r]. specialize (IH s1 H1).
  by destruct (recover_command_scan ids before now s1).
Qed.

Lemma CreateCommand_Inv wall req s : Inv s → Inv (CreateCommand wall req s).1.
Proof.
  intros HI. unfold CreateCommand. case_match; [done|].
  destruct (st_tasks s !! ccr_TaskID req) eqn:Ht; [|done].
  destruct (validateCommandTargetLocked _ _) as [[runID w]|]; [|done].
  apply Inv_publish. destruct HI as [HT HD HC HA]. destruct HT as [? ? ? Htasks Hleases ? ?].
  split; [split; try done| |split|by destruct HA].
  - intros k tk Hk. by destruct (Htasks k tk Hk).
  - intros k l Hk. by destruct (Hleases k l Hk).
  - done.
  - pose proof (ci_counter _ HC). simpl. lia.
  - simpl. apply NoDup_app. split; [apply HC|]. split; [|apply NoDup_singleton].
    intros k [c Hk]%(ci_order _ HC) ->%list_elem_of_singleton.
    destruct (ci_commands _ HC _ _ Hk) as (_ & Hiss & _). by apply issued_fresh in Hiss.
  - intros k. simpl. rewrite elem_of_app, list_elem_of_singleton, (ci_order _ HC), lookup_insert.
    case_decide; naive_solver.
  - intros k c. simpl. rewrite lookup_insert. pose proof (ci_counter _ HC).
    case_decide as Hd; intros Hk; simplify_eq.
    + split; [done|]. split; [by apply issued_next|done].
    + destruct (ci_commands _ HC _ _ Hk) as (? & ? & ?). split; [done|]. split; [|done].
      eapply issued_mono; [|done]. lia.
Qed.

Lemma CreateArtifact_Inv wall req s : Inv s → Inv (CreateArtifact wall req s).1.
Proof.
  intros HI. unfold CreateArtifact. case_match; [done|].
  destruct (st_tasks s !! car_TaskID req) eqn:Ht; [|done].
  apply (Inv_create_artifact (car_TaskID req) (car_RunID req) (wall 0%nat) s
    (MkArtifactSpec (car_Kind req) (car_Name req) (car_ContentType req) (car_Body req)
       (car_Metadata req))); eauto.
Qed.

(** ** Operations as steps *)

Inductive Op :=
| OpCreateTask (req : CreateTaskRequest)
| OpUpdateTask (req : UpdateTaskRequest)
| OpDeleteTask (id : string)
| OpClaimReadyTask (req : ClaimTaskRequest)
| OpClaimTask (id : string) (req : ClaimTaskRequest)
| OpCompleteTask (id token : string) (o : option TaskOutcome) (now : Time)
| OpFailTask (id token : string) (e : option error) (now : Time)
| OpCancelTask (id token reason : string) (now : Time)
| OpRetryTask (id reason : string) (now : Time)
| OpRenewLease (id token : string) (ttl : Duration) (now : Time)
| OpReleaseLease (id token : string)
| OpRecoverExpiredLeases (now : Time)
| OpRecoverExpiredLease (id : string) (now : Time)
| OpCreateArtifact (req : CreateArtifactRequest)
| OpCreateCommand (req : CreateCommandRequest)
| OpClaimPendingCommand (req : ClaimCommandRequest)
| OpClaimCommand (id : string) (req : ClaimCommandRequest)
| OpHandleCommand (id token handledBy : string) (now : Time)
| OpReleaseCommand (id token : string)
| OpRecoverClaimedCommands (before now : Time)
| OpRecoverClaimedCommand (id : string) (before now : Time).

(** The store after a call; [wall] gives the clock readings inside it. *)
Definition run_op (wall : nat → Time) (op : Op) (s : Store) : Store :=
  match op with
  | OpCreateTask req => (CreateTask wall req s).1
  | OpUpdateTask req => (UpdateTask wall req s).1
  | OpDeleteTask id => (DeleteTask wall id s).1
  | OpClaimReadyTask req => (ClaimReadyTask wall req s).1
  | OpClaimTask id req => (ClaimTask wall id req s).1
  | OpCompleteTask id tok o now => (CompleteTask wall id tok o now s).1
  | OpFailTask id tok e now => (FailTask wall id tok e now s).1
  | OpCancelTask id tok reason now => (CancelTask wall id tok reason now s).1
  | OpRetryTask id reason now => (RetryTask wall id reason now s).1
  | OpRenewLease id tok ttl now => (RenewLease wall id tok ttl now s).1
  | OpReleaseLease id tok => (ReleaseLease wall id tok s).1
  | OpRecoverExpiredLeases now => (RecoverExpiredLeases wall now s).1
  | OpRecoverExpiredLease id now => (RecoverExpiredLease wall id now s).1
  | OpCreateArtifact req => (CreateArtifact wall req s).1
  | OpCreateCommand req => (CreateCommand wall req s).1
  | OpClaimPendingCommand req => (ClaimPendingCommand wall req s).1
  | OpClaimCommand id req => (ClaimCommand wall id req s).1
  | OpHandleCommand id tok by_ now => (HandleCommand wall id tok by_ now s).1
  | OpReleaseCommand id tok => (ReleaseCommand wall id tok s).1
  | OpRecoverClaimedCommands before now => (RecoverClaimedCommands wall before now s).1
  | OpRecoverClaimedCommand id before now => (RecoverClaimedCommand wall id before now s).1
  end.

Inductive step : Store → Store → Prop :=
| step_op wall op s : step s (run_op wall op s).

Definition steps : Store → Store → Prop := rtc step.
Definition reachable (s : Store) : Prop := ∃ bus, steps (NewStore bus) s.

(** Run a list of calls, all with the same clock: a concrete execution. *)
Definition run_ops (wall : nat → Time) (ops : list Op) (s : Store) : Store :=
  foldl (λ s op, run_op wall op s) s ops.

Lemma run_ops_steps wall ops s : steps s (run_ops wall ops s).
Proof.
  revert s. induction ops as [|op ops IH]; intros s; [apply rtc_refl|].
  eapply rtc_l; [apply step_op|apply IH].
Qed.

Lemma run_ops_reachable wall ops bus : reachable (run_ops wall ops (NewStore bus)).
Proof. exists bus. apply run_ops_steps. Qed.

Lemma run_op_Inv wall op s : Inv s → Inv (run_op wall op s).
Proof.
  intros HI. destruct op; simpl.
  - by apply CreateTask_Inv.
  - by apply UpdateTask_Inv.
  - by apply DeleteTask_Inv.
  - unfold ClaimReadyTask. case_match; [done|by apply claim_scan_Inv].
  - unfold ClaimTask. case_match; [done|by apply claimTaskLocked_Inv].
  - by apply CompleteTask_Inv.
  - by apply FailTask_Inv.
  - by apply CancelTask_Inv.
  - by apply RetryTask_Inv.
  - by apply RenewLease_Inv.
  - by apply ReleaseLease_Inv.
  - by apply recover_scan_Inv.
  - by apply recoverExpiredLease_Inv.
  - by apply CreateArtifact_Inv.
  - by apply CreateCommand_Inv.
  - by apply ClaimPendingCommand_Inv.
  - by apply ClaimCommand_Inv.
  - by apply HandleCommand_Inv.
  - by apply ReleaseCommand_Inv.
  - by apply recover_command_scan_Inv.
  - by apply recoverClaimedCommand_Inv.
Qed.

Lemma empty_order {A} (id : string) : id ∈ [] ↔ is_Some ((∅ : gmap string A) !! id).
Proof. rewrite lookup_empty. split; [set_solver|]. by intros []. Qed.

Lemma NewStore_Inv bus : Inv (NewStore bus).
Proof.
  split; split; simpl; try (intros *; rewrite lookup_empty; done);
    try (intros id; apply empty_order); try constructor; lia.
Qed.

Lemma steps_Inv s s' : steps s s' → Inv s → Inv s'.
Proof. intros Hs. induction Hs as [|s1 s2 s3 [wall op s'] _ IH]; auto using run_op_Inv. Qed.

Lemma reachable_inv s : reachable s → Inv s.
Proof. intros [bus Hs]. eapply steps_Inv; [done|apply NewStore_Inv]. Qed.

Lemma reachable_steps s s' : reachable s → steps s s' → reachable s'.
Proof. intros [bus Hs] H. exists bus. by etransitivity. Qed.
