(* ===== verification/StoreLife.v ===== *)
(** * The task lifecycle, as an abstract machine

    [TaskView] is what the clients of the store rely on for one task: its status,
    its attempts, the fencing token that currently owns it and its result.
    [life_step] is the specification of the lifecycle: the moves a task may make
    in one call.  [run_op_life] is the refinement: every operation of the store
    moves every task along [life_step]. *)

From S2P Require Import Prelude Errors Usage OrchTypes MemStore MemCommands StoreInv StoreDeps StoreOps.

Record TaskView := MkView {
  v_status : TaskStatus;
  v_attempt : Z;
  v_max : Z;
  v_token : option string;
  v_result : option TaskResult;
}.

Definition view_task (t : Task) (l : option Lease) : TaskView :=
  MkView (task_Status t) (task_Attempt t) (task_MaxAttempts t) (lease_Token <$> l) (task_Result t).
Arguments view_task : simpl never.

Definition view (s : Store) (id : string) : option TaskView :=
  (λ t, view_task t (st_leases s !! id)) <$> st_tasks s !! id.

(** [life_move new_task new_token id v v']: one call may take task [id] from [v] to
    [v'], where [new_task] and [new_token] are the identifiers and the fencing tokens the
    call may issue. *)
Inductive life_move (new_task new_token : string → Prop) (id : string) : option TaskView → option TaskView → Prop :=
| ls_stay v : life_move new_task new_token id v v
| ls_create max :
    new_task id →
    life_move new_task new_token id None (Some (MkView TaskPending 0 max None None))
| ls_delete v : life_move new_task new_token id (Some v) None
| ls_claim st a max tok r tok' :
    st = TaskPending ∨ st = TaskRunning → (0 < max → a < max) → new_token tok' →
    life_move new_task new_token id (Some (MkView st a max tok r))
      (Some (MkView TaskRunning (a + 1) max (Some tok') None))
| ls_complete a max tok r r' :
    life_move new_task new_token id (Some (MkView TaskRunning a max (Some tok) r))
      (Some (MkView TaskCompleted a max None r'))
| ls_fail a max tok r :
    life_move new_task new_token id (Some (MkView TaskRunning a max (Some tok) r))
      (Some (MkView TaskFailed a max None None))
| ls_requeue a a' max tok r :
    a' = a ∨ (a' = a - 1 ∧ 0 < a) →
    life_move new_task new_token id (Some (MkView TaskRunning a max (Some tok) r))
      (Some (MkView TaskPending a' max None None))
| ls_cancel st a max tok r :
    st = TaskPending ∨ st = TaskRunning →
    life_move new_task new_token id (Some (MkView st a max tok r)) (Some (MkView TaskCanceled a max None None))
| ls_retry st a max tok r :
    st = TaskFailed ∨ st = TaskCanceled →
    life_move new_task new_token id (Some (MkView st a max tok r)) (Some (MkView TaskPending 0 max None None))
| ls_exhaust st a max tok r :
    st ≠ TaskCompleted → st ≠ TaskFailed → 0 < max ≤ a →
    life_move new_task new_token id (Some (MkView st a max tok r)) (Some (MkView TaskFailed a max None r)).

(** The machine of the in-memory store: its counters determine the next identifiers. *)
Notation life_step s :=
  (life_move (λ id, id = next_id s) (λ tok, tok = "lease-" +:+ itoa (1 + st_nextLease s))).

(** A token the task did not have is a new one; a completed task stays as it is until it
    is deleted. *)
Lemma life_move_token N T id v v' tok :
  life_move N T id v (Some v') → v_token v' = Some tok →
  (∃ v0, v = Some v0 ∧ v_token v0 = Some tok) ∨ T tok.
Proof. intros H. inversion H; subst; simpl; naive_solver. Qed.
Lemma life_move_completed N T id v v' :
  life_move N T id (Some v) v' → v_status v = TaskCompleted → v' = Some v ∨ v' = None.
Proof. intros H. inversion H; subst; simpl; naive_solver. Qed.

Create HintDb life discriminated.
#[export] Hint Constructors life_move : life.

(** A call's effect: counters only grow and every task makes an allowed move. *)
Record effect (s s' : Store) : Prop := {
  ef_task : st_nextTask s ≤ st_nextTask s';
  ef_lease : st_nextLease s ≤ st_nextLease s';
  ef_life : ∀ id, life_step s id (view s id) (view s' id);
}.

Lemma same_state_fields s s' :
  same_state s s' →
  st_tasks s' = st_tasks s ∧ st_leases s' = st_leases s ∧ st_nextTask s' = st_nextTask s ∧
  st_nextLease s' = st_nextLease s ∧ st_taskOrder s' = st_taskOrder s.
Proof. intros H. unfold same_state in H. by rewrite H. Qed.

#[export] Instance view_proper : Proper (same_state ==> eq ==> eq) view.
Proof.
  intros s s' H id _ <-. unfold view.
  by destruct (same_state_fields _ _ H) as (-> & -> & _).
Qed.

#[export] Instance effect_proper : Proper (eq ==> same_state ==> iff) effect.
Proof.
  intros s _ <- s1 s2 H. pose proof (same_state_fields _ _ H) as (_ & _ & E1 & E2 & _).
  split; intros [H1 H2 H3]; split; rewrite ?E1, ?E2 in *; try done; intros id;
    [rewrite <- H|rewrite H]; done.
Qed.

Lemma effect_refl s : effect s s.
Proof. split; [lia..|]. constructor. Qed.

Lemma effect_publish e s s' : effect s s' → effect s (publish e s').
Proof. intros H. by rewrite <- publish_same. Qed.
Lemma effect_publish_updates ids s s' : effect s s' → effect s (publishTaskUpdates ids s').
Proof. intros H. by rewrite <- publishTaskUpdates_same. Qed.
#[export] Hint Resolve effect_refl effect_publish effect_publish_updates : life.

(** Only task [id] (and its lease) may differ. *)
Definition only_task (id : string) (s s' : Store) : Prop :=
  ∀ j, j ≠ id → st_tasks s' !! j = st_tasks s !! j ∧ st_leases s' !! j = st_leases s !! j.

Lemma only_task_view id s s' j : only_task id s s' → j ≠ id → view s' j = view s j.
Proof. intros H Hj. unfold view. by destruct (H j Hj) as [-> ->]. Qed.

Lemma effect_one id s s' :
  only_task id s s' → st_nextTask s' = st_nextTask s → st_nextLease s ≤ st_nextLease s' →
  life_step s id (view s id) (view s' id) → effect s s'.
Proof.
  intros Ho Hn Hl Hstep. split; [lia|done|]. intros j.
  destruct (decide (j = id)) as [->|Hne]; [done|].
  rewrite (only_task_view _ _ _ _ Ho Hne). constructor.
Qed.

(** The task at [id] is rewritten and its lease dropped. *)
Lemma effect_retire id t' s :
  life_step s id (view s id) (Some (view_task t' None)) →
  effect s (dropLease id (putTask id t' s)).
Proof.
  intros H. apply (effect_one id); [|done|done|].
  - intros j Hj. simpl. by rewrite lookup_insert_ne, lookup_delete_ne.
  - unfold view at 2. simpl. by rewrite lookup_insert_eq, lookup_delete_eq.
Qed.

Lemma view_some s id t : st_tasks s !! id = Some t →
  view s id = Some (view_task t (st_leases s !! id)).
Proof. intros H. unfold view. by rewrite H. Qed.

(** A leased task, as the invariant describes it. *)
Lemma leased_view s id l : Inv s → st_leases s !! id = Some l →
  ∃ t, st_tasks s !! id = Some t ∧ task_Status t = TaskRunning ∧
    view s id = Some (MkView TaskRunning (task_Attempt t) (task_MaxAttempts t)
                        (Some (lease_Token l)) (task_Result t)).
Proof.
  intros HI Hl. destruct (ti_leases _ (inv_task _ HI) _ _ Hl) as [_ _ _ (t & r & Ht & Hst & _)].
  exists t. split; [done|]. split; [done|].
  rewrite (view_some _ _ _ Ht), Hl. unfold view_task. by rewrite Hst.
Qed.

(** ** Operation by operation *)

(** Creating outcome artifacts leaves tasks, leases and their counters alone. *)
Lemma create_artifacts_fields t specs at_ s :
  let s' := createOutcomeArtifactsLocked t specs at_ s in
  st_tasks s' = st_tasks s ∧ st_leases s' = st_leases s ∧ st_nextTask s' = st_nextTask s ∧
  st_nextLease s' = st_nextLease s ∧ st_taskOrder s' = st_taskOrder s.
Proof.
  unfold createOutcomeArtifactsLocked. revert s.
  induction specs as [|spec specs IH]; intros s; [done|]. simpl.
  destruct (IH (create_outcome_artifact (task_ID t) (task_runID t) at_ s spec))
    as (-> & -> & -> & -> & ->).
  unfold create_outcome_artifact, publishArtifactCreated.
  by match goal with |- context [publish ?e ?s0] =>
    destruct (same_state_fields s0 _ (publish_same e s0)) as (-> & -> & -> & -> & ->) end.
Qed.

Lemma effect_fields s s1 s2 :
  st_tasks s2 = st_tasks s1 ∧ st_leases s2 = st_leases s1 ∧ st_nextTask s2 = st_nextTask s1 ∧
  st_nextLease s2 = st_nextLease s1 ∧ st_taskOrder s2 = st_taskOrder s1 →
  effect s s1 → effect s s2.
Proof.
  intros (E1 & E2 & E3 & E4 & _) [H1 H2 H3]. split; [lia..|].
  intros id. specialize (H3 id). unfold view in *. by rewrite E1, E2.
Qed.

Lemma CompleteTask_life wall id tok o now s : Inv s → effect s (CompleteTask wall id tok o now s).1.
Proof.
  intros HI. unfold CompleteTask.
  destruct (validateLeaseLocked _ _ _ _ _) as [[t l]|] eqn:Hv; [|apply effect_refl].
  apply validateLease_ok in Hv as (Ht & Hl & _ & _).
  destruct (leased_view _ _ _ HI Hl) as (t' & Ht' & Hst & Hview). simplify_eq.
  rewrite (Inv_lease_key _ _ _ HI Hl). apply effect_publish.
  match goal with |- context [dropLease id ?s0] => assert (effect s (dropLease id s0)) as He end.
  { apply effect_retire. rewrite Hview. constructor. }
  destruct o; [|done]. eapply effect_fields; [apply create_artifacts_fields|exact He].
Qed.

(** What [requeueTaskLocked] leaves behind, after a last change of [t2]. *)
Lemma requeue_effect w id t now rb s s1 t1 lr la t2 l :
  Inv s → st_tasks s !! id = Some t → st_leases s !! id = Some l →
  requeueTaskLocked w id t id now rb s = (s1, t1, lr, la) →
  view_task t2 None = view_task t1 None →
  effect s (putTask id t2 s1).
Proof.
  intros HI Ht Hl Hrq. unfold requeueTaskLocked in Hrq. injection Hrq as <- <- <- <-.
  destruct (leased_view _ _ _ HI Hl) as (t' & Ht' & Hst & Hview). simplify_eq. intros Hv.
  apply (effect_one id); [|done|done|].
  - intros j Hj. simpl. by rewrite !lookup_insert_ne, lookup_delete_ne.
  - rewrite Hview. unfold view. simpl. rewrite lookup_insert_eq, lookup_delete_eq. simpl.
    rewrite Hv. case_match eqn:E; apply ls_requeue; [right|left; done].
    apply andb_true_iff in E as [_ E]. rewrite Z.gtb_lt in E. simpl in E. by split.
Qed.

Lemma FailTask_life wall id tok e now s : Inv s → effect s (FailTask wall id tok e now s).1.
Proof.
  intros HI. unfold FailTask.
  destruct (validateLeaseLocked _ _ _ _ _) as [[t l]|] eqn:Hv; [|apply effect_refl].
  apply validateLease_ok in Hv as (Ht & Hl & _ & _).
  rewrite (Inv_lease_key _ _ _ HI Hl). case_match.
  - destruct (requeueTaskLocked _ _ _ _ _ _ _) as [[[s1 t1] lr] la] eqn:Hrq.
    apply effect_publish. by eapply requeue_effect.
  - apply effect_publish, effect_retire.
    destruct (leased_view _ _ _ HI Hl) as (t' & Ht' & Hst & Hview). simplify_eq.
    rewrite Hview. constructor.
Qed.

Lemma cancel_guard_none id tok now t s :
  cancel_guard id tok now t s = None →
  (task_Status t = TaskPending ∧ tok = "") ∨
  (task_Status t = TaskRunning ∧ ∃ l, st_leases s !! id = Some l ∧ lease_Token l = tok ∧
     now < lease_ExpiresAt l).
Proof.
  unfold cancel_guard. repeat case_match; try done; intros _.
  - left. split; [done|]. by apply String.eqb_eq, negb_false_iff.
  - right. split; [done|]. eexists. split; [done|].
    rewrite orb_false_iff, !negb_false_iff in *. unfold After in *.
    rewrite Z.ltb_lt, String.eqb_eq in *. naive_solver.
Qed.

Lemma CancelTask_life wall id tok reason now s : effect s (CancelTask wall id tok reason now s).1.
Proof.
  unfold CancelTask. destruct (st_tasks s !! id) as [t|] eqn:Ht; [|apply effect_refl].
  case_match eqn:Hg; [apply effect_refl|]. apply cancel_guard_none in Hg.
  apply effect_publish, effect_retire. rewrite (view_some _ _ _ Ht). apply ls_cancel. naive_solver.
Qed.

Lemma RetryTask_life wall id reason now s : effect s (RetryTask wall id reason now s).1.
Proof.
  unfold RetryTask. destruct (st_tasks s !! id) as [t|] eqn:Ht; [|apply effect_refl].
  case_match eqn:Hg; [apply effect_refl|].
  apply effect_publish, effect_retire. rewrite (view_some _ _ _ Ht). apply ls_retry.
  apply andb_false_iff in Hg. rewrite !negb_false_iff, !bool_decide_eq_true in Hg. naive_solver.
Qed.

Lemma RenewLease_life wall id tok ttl now s : effect s (RenewLease wall id tok ttl now s).1.
Proof.
  unfold RenewLease. case_match; [apply effect_refl|].
  destruct (st_leases s !! id) as [l|] eqn:Hl; [|apply effect_refl].
  repeat (case_match; [apply effect_refl|]). apply effect_publish.
  apply (effect_one id); [|done|done|].
  - intros j Hj. simpl. by rewrite lookup_insert_ne.
  - unfold view. simpl. rewrite Hl, lookup_insert_eq. constructor.
Qed.

Lemma ReleaseLease_life wall id tok s : Inv s → effect s (ReleaseLease wall id tok s).1.
Proof.
  intros HI. unfold ReleaseLease. destruct (st_leases s !! id) as [l|] eqn:Hl; [|apply effect_refl].
  case_match; [apply effect_refl|].
  destruct (leased_view _ _ _ HI Hl) as (t & Ht & Hst & _).
  rewrite Ht, Hst, bool_decide_eq_true_2 by done.
  destruct (requeueTaskLocked _ _ _ _ _ _ _) as [[[s1 t1] lr] la] eqn:Hrq.
  do 2 apply effect_publish. rewrite <- (requeue_stored _ _ _ _ _ _ _ _ _ _ Hrq).
  by eapply requeue_effect.
Qed.

Lemma recoverExpiredLease_life w id now s :
  Inv s → effect s (recoverExpiredLeaseLocked w id now s).1.
Proof.
  intros HI. unfold recoverExpiredLeaseLocked.
  destruct (st_leases s !! id) as [l|] eqn:Hl; [|apply effect_refl].
  case_match; [apply effect_refl|].
  destruct (leased_view _ _ _ HI Hl) as (t & Ht & Hst & Hview). rewrite Ht.
  case_match; [|case_match].
  - do 2 apply effect_publish. apply effect_retire. rewrite Hview. constructor.
  - destruct (requeueTaskLocked _ _ _ _ _ _ _) as [[[s1 t1] lr] la] eqn:Hrq.
    do 2 apply effect_publish. by eapply requeue_effect.
  - by rewrite Hst in *.
Qed.

(** ** Scans

    A scan visits distinct tasks, so each task makes at most one move. *)

Definition same_counters (s s' : Store) : Prop :=
  st_nextTask s' = st_nextTask s ∧ st_nextLease s' = st_nextLease s.

Lemma life_step_counters s s' id v v' :
  same_counters s s' → life_step s' id v v' → life_step s id v v'.
Proof.
  intros [Hn Hl] H. rewrite Hl in H. destruct H; eauto with life.
  apply ls_create. unfold next_id in *. by rewrite <- Hn.
Qed.

Lemma effect_seq id s s1 s2 :
  effect s s1 → only_task id s s1 → same_counters s s1 →
  effect s1 s2 → view s2 id = view s1 id → effect s s2.
Proof.
  intros [_ _ H1] Ho Hc [Hn Hl H2] Hid. destruct Hc as [E1 E2] eqn:Hc'.
  split; [lia..|]. intros j. destruct (decide (j = id)) as [->|Hne].
  - rewrite Hid. apply H1.
  - rewrite <- (only_task_view _ _ _ _ Ho Hne). apply (life_step_counters s s1); [done|apply H2].
Qed.

(** Nothing outside [ids] is touched. *)
Definition outside (ids : list string) (s s' : Store) : Prop :=
  ∀ j, j ∉ ids → st_tasks s' !! j = st_tasks s !! j ∧ st_leases s' !! j = st_leases s !! j.

Lemma outside_view ids s s' j : outside ids s s' → j ∉ ids → view s' j = view s j.
Proof. intros H Hj. unfold view. by destruct (H j Hj) as [-> ->]. Qed.

Lemma outside_cons id ids s s1 s2 :
  only_task id s s1 → outside ids s1 s2 → outside (id :: ids) s s2.
Proof.
  intros H1 H2 j [Hne Hnin]%not_elem_of_cons.
  destruct (H1 j Hne) as [<- <-]. by apply H2.
Qed.

Lemma same_counters_refl s : same_counters s s.
Proof. done. Qed.
Lemma only_task_refl id s : only_task id s s.
Proof. by split. Qed.
Lemma only_task_retire id t s : only_task id s (dropLease id (putTask id t s)).
Proof. intros j Hj. simpl. by rewrite lookup_insert_ne, lookup_delete_ne. Qed.

(** [publish] changes none of the fields these relations read. *)
Lemma publish_fields e s :
  st_tasks (publish e s) = st_tasks s ∧ st_leases (publish e s) = st_leases s ∧
  st_nextTask (publish e s) = st_nextTask s ∧ st_nextLease (publish e s) = st_nextLease s ∧
  st_taskOrder (publish e s) = st_taskOrder s.
Proof. apply same_state_fields, publish_same. Qed.

Lemma only_task_publish id e s s' : only_task id s s' → only_task id s (publish e s').
Proof. intros H j Hj. destruct (publish_fields e s') as (-> & -> & _). by apply H. Qed.
Lemma same_counters_publish e s s' : same_counters s s' → same_counters s (publish e s').
Proof. unfold same_counters. by destruct (publish_fields e s') as (_ & _ & -> & -> & _). Qed.
#[export] Hint Resolve same_counters_refl only_task_refl only_task_retire only_task_publish
  same_counters_publish : life.

Lemma recover_only w id now s :
  only_task id s (recoverExpiredLeaseLocked w id now s).1 ∧
  same_counters s (recoverExpiredLeaseLocked w id now s).1.
Proof.
  unfold recoverExpiredLeaseLocked, requeueTaskLocked.
  repeat case_match; simpl; simplify_eq;
    split; repeat first [apply only_task_publish | apply same_counters_publish]; try done;
    intros j Hj; simpl; by rewrite ?lookup_insert_ne, ?lookup_delete_ne.
Qed.

Lemma recover_scan_life w ids now s :
  NoDup ids → Inv s →
  effect s (recover_scan w ids now s).1 ∧ outside ids s (recover_scan w ids now s).1.
Proof.
  revert s. induction ids as [|id ids IH]; intros s Hnd HI; [by split; [apply effect_refl|]|].
  apply NoDup_cons in Hnd as [Hnin Hnd]. simpl.
  pose proof (recoverExpiredLease_life w id now s HI) as He.
  pose proof (recoverExpiredLease_Inv w id now s HI) as HI1.
  pose proof (recover_only w id now s) as [Ho Hc].
  destruct (recoverExpiredLeaseLocked w id now s) as [s1 r].
  destruct (IH s1 Hnd HI1) as [He2 Hout].
  destruct (recover_scan w ids now s1) as [s2 rs]; simpl in *.
  split; [|by eapply outside_cons].
  eapply effect_seq; [done..|]. by eapply outside_view.
Qed.

Lemma lease_ids_NoDup s : NoDup (merge_sort string_le (map_to_list (st_leases s)).*1).
Proof. rewrite merge_sort_Permutation. apply NoDup_fst_map_to_list. Qed.

(** ** Claims *)

Lemma exhausted_true t : exhaustedAttempts t = true ↔ 0 < task_MaxAttempts t ≤ task_Attempt t.
Proof. unfold exhaustedAttempts. rewrite andb_true_iff, Z.gtb_lt, Z.geb_le. lia. Qed.
Lemma exhausted_false t :
  exhaustedAttempts t = false ↔ (0 < task_MaxAttempts t → task_Attempt t < task_MaxAttempts t).
Proof. rewrite <- not_true_iff_false, exhausted_true. lia. Qed.

Lemma claim_exhausted_life id now t s :
  st_tasks s !! id = Some t → task_ID t = id → exhaustedAttempts t = true →
  effect s (claim_exhausted id now t s) ∧ only_task id s (claim_exhausted id now t s) ∧
  same_counters s (claim_exhausted id now t s).
Proof.
  intros Ht Hid Hex. unfold claim_exhausted.
  case_match eqn:Hst; [|by split_and!; eauto with life].
  simpl task_ID. rewrite Hid.
  split_and!; [|by apply only_task_publish, only_task_retire|by apply same_counters_publish].
  apply effect_publish, effect_retire. rewrite (view_some _ _ _ Ht).
  rewrite andb_true_iff, !negb_true_iff, !bool_decide_eq_false in Hst.
  apply exhausted_true in Hex. apply ls_exhaust; tauto || lia.
Qed.

Lemma claim_start_life id req now t s :
  st_tasks s !! id = Some t → task_ID t = id → exhaustedAttempts t = false →
  task_Status t = TaskPending ∨ task_Status t = TaskRunning →
  effect s (claim_start id req now t s).1 ∧ only_task id s (claim_start id req now t s).1.
Proof.
  intros Ht Hid Hex Hst. unfold claim_start. simpl.
  assert (Ho : ∀ t' l', only_task id s
    (s <| st_nextRun ::= Z.add 1 |> <| st_tasks ::= <[id := t']> |>
       <| st_nextLease ::= Z.add 1 |> <| st_leases ::= <[task_ID t := l']> |>)).
  { intros t' l' j Hj. simpl. rewrite Hid. by rewrite !lookup_insert_ne. }
  split; [|apply only_task_publish, Ho].
  apply effect_publish. apply (effect_one id); [apply Ho|done|simpl; lia|].
  rewrite (view_some _ _ _ Ht). unfold view. simpl. rewrite Hid, !lookup_insert_eq. simpl.
  apply ls_claim; [done|exact (proj1 (exhausted_false t) Hex)|done].
Qed.

(** One claim attempt: a failed one leaves the counters alone. *)
Lemma claimTaskLocked_life id req now s :
  Inv s → let '(s', r) := claimTaskLocked id req now s in
  effect s s' ∧ only_task id s s' ∧ (is_ok r = false → same_counters s s').
Proof.
  intros HI. unfold claimTaskLocked. destruct (st_tasks s !! id) as [t|] eqn:Ht;
    [|by split_and!; eauto with life].
  pose proof (Inv_task_key _ _ _ HI Ht) as Hid.
  assert (Hstay : effect s s ∧ only_task id s s ∧ same_counters s s)
    by (split_and!; eauto with life; done).
  cbv zeta.
  repeat match goal with |- context [if ?b then (s, Err _) else if _ then _ else _] =>
    destruct b; [naive_solver|] end.
  destruct (exhaustedAttempts t) eqn:Hex.
  { destruct (claim_exhausted_life id now t s) as (? & ? & ?); done. }
  assert (Hstart : task_Status t = TaskPending ∨ task_Status t = TaskRunning →
    let '(s', r) := claim_start id req now t s in
    effect s s' ∧ only_task id s s' ∧ (is_ok r = false → same_counters s s')).
  { intros Hst. destruct (claim_start_life id req now t s) as [? ?]; [done..|].
    destruct (claim_start id req now t s) as [s' [c|e]] eqn:E; [done|].
    unfold claim_start in E. simplify_eq. }
  destruct (task_Status t); [by apply Hstart; auto| |naive_solver..].
  match goal with |- context [if ?b then _ else _] => destruct b end;
    [naive_solver|by apply Hstart; auto].
Qed.

Lemma claim_scan_life ids req now s :
  NoDup ids → Inv s →
  effect s (claim_scan ids req now s).1 ∧ outside ids s (claim_scan ids req now s).1.
Proof.
  revert s. induction ids as [|id ids IH]; intros s Hnd HI; [by split; [apply effect_refl|]|].
  apply NoDup_cons in Hnd as [Hnin Hnd]. simpl.
  pose proof (claimTaskLocked_life id req now s HI) as He.
  pose proof (claimTaskLocked_Inv id req now s HI) as HI1.
  destruct (claimTaskLocked id req now s) as [s1 [c|e]]; destruct He as (He & Ho & Hc).
  - simpl. split; [done|]. intros j [Hj _]%not_elem_of_cons. by apply Ho.
  - specialize (Hc eq_refl). case_match.
    + destruct (IH s1 Hnd HI1) as [He2 Hout].
      split; [|by eapply outside_cons]. eapply effect_seq; [done..|]. by eapply outside_view.
    + split; [done|]. intros j [Hj _]%not_elem_of_cons. by apply Ho.
Qed.

(** ** Creating, updating and deleting *)

Lemma same_exec_view s s' :
  same_exec_map (st_tasks s) (st_tasks s') → st_leases s' = st_leases s →
  ∀ id, view s' id = view s id.
Proof.
  intros Hm Hl id. specialize (Hm id). unfold view. rewrite Hl.
  destruct (st_tasks s !! id), (st_tasks s' !! id); inversion Hm as [? ? E|]; subst; [|done].
  destruct E as (? & E2 & E3 & E4 & E5 & E6). simpl. unfold view_task. by rewrite E2, E3, E4, E6.
Qed.

Lemma CreateTask_life wall req s : Inv s → effect s (CreateTask wall req s).1.
Proof.
  intros HI. unfold CreateTask.
  destruct (validateTaskDependencies _ _ _) eqn:Hv; [apply effect_refl|].
  destruct (linkTaskDependencies _ _ _ _) as [s' peers] eqn:Hl.
  apply linkTaskDependencies_linked in Hl as (m1 & _ & Hlk & Hs'); [|done].
  simpl in Hs'. rewrite Hs'. apply effect_publish_updates, effect_publish.
  pose proof (linked_map_same_exec _ _ _ _ _ Hlk) as Hse. simpl in Hse.
  split; simpl; [lia..|]. intros id. destruct (decide (id = next_id s)) as [->|Hne].
  - unfold view. simpl. fold (next_id s). rewrite lookup_insert_eq, (next_id_fresh s HI). simpl.
    assert (st_leases s !! next_id s = None) as E.
    { destruct (st_leases s !! next_id s) eqn:E; [|done].
      destruct (leased_view _ _ _ HI E) as (? & ? & _). by rewrite next_id_fresh in *. }
    rewrite E. by apply ls_create.
  - match goal with |- life_move _ _ _ _ (view ?s2 id) =>
      assert (view s2 id = view s id) as -> end; [|constructor].
    pose (s2 := s <| st_tasks := st_tasks s' |>).
    rewrite <- (same_exec_view s s2 Hse eq_refl).
    unfold view. simpl. by rewrite lookup_insert_ne by (unfold next_id in Hne; congruence).
Qed.

(** The fields an update changes are none of the execution state. *)
Lemma UpdateTask_life wall req s : Inv s → effect s (UpdateTask wall req s).1.
Proof.
  intros HI. unfold UpdateTask. destruct (String.eqb_spec (utr_ID req) "") as [|Hne];
    [apply effect_refl|].
  destruct (st_tasks s !! utr_ID req) as [t|] eqn:Ht; [|apply effect_refl].
  destruct (validateTaskDependencies _ _ _); [apply effect_refl|].
  match goal with |- context [linkTaskDependencies _ (task_ID ?t0) _ _] => set (t1 := t0) end.
  assert (Hse : same_exec t t1). { unfold t1. by repeat case_match. }
  clearbody t1. pose proof (Inv_task_key _ _ _ HI Ht) as Hkey.
  destruct (linkTaskDependencies _ _ _ _) as [s' peers] eqn:Hl.
  apply linkTaskDependencies_linked in Hl as (m1 & _ & Hl2 & Hs');
    [|destruct Hse as [-> _]; congruence].
  pose proof (linked_map_same_exec _ _ _ _ _ Hl2) as Hse2. simpl in Hse2, Hs'.
  assert (is_Some (st_tasks s' !! utr_ID req)) as [t2 Ht2].
  { rewrite <- (same_exec_map_dom _ _ _ Hse2), lookup_insert_eq. eauto. }
  rewrite Ht2. simpl default. apply effect_publish_updates, effect_publish.
  split; [rewrite Hs'; simpl; lia..|]. intros id.
  match goal with |- life_move _ _ _ _ (view ?s2 id) =>
    rewrite (same_exec_view s s2); [constructor| |by rewrite Hs'] end.
  simpl. eapply same_exec_map_trans; [by eapply same_exec_map_insert|].
  eapply same_exec_map_trans; [exact Hse2|]. by eapply same_exec_map_insert.
Qed.

Lemma DeleteTask_life wall id s : effect s (DeleteTask wall id s).1.
Proof.
  unfold DeleteTask. destruct (st_tasks s !! id) as [t|] eqn:Ht; [|apply effect_refl].
  apply effect_publish_updates, effect_publish. split; simpl; [lia..|]. intros j.
  destruct (decide (j = id)) as [->|Hne].
  - unfold view. simpl. rewrite Ht, lookup_fmap, !lookup_delete_eq. constructor.
  - unfold view. simpl. rewrite lookup_fmap, !lookup_delete_ne by done.
    destruct (st_tasks s !! j) as [tj|]; [|constructor]. simpl. unfold view_task.
    destruct (unlink_same_exec id (wall 0%nat) tj) as (_ & -> & -> & -> & _ & ->). constructor.
Qed.

(** ** Operations on commands and artifacts leave every task alone *)

Definition same_tasks (s s' : Store) : Prop :=
  st_tasks s' = st_tasks s ∧ st_leases s' = st_leases s ∧ st_nextTask s' = st_nextTask s ∧
  st_nextLease s' = st_nextLease s ∧ st_taskOrder s' = st_taskOrder s.

Lemma same_tasks_publish e s s' : same_tasks s s' → same_tasks s (publish e s').
Proof. unfold same_tasks. by destruct (publish_fields e s') as (-> & -> & -> & -> & ->). Qed.
Lemma same_tasks_trans s1 s2 s3 : same_tasks s1 s2 → same_tasks s2 s3 → same_tasks s1 s3.
Proof. unfold same_tasks. naive_solver congruence. Qed.

Lemma claim_command_scan_tasks ids worker now s :
  same_tasks s (claim_command_scan ids worker now s).1.
Proof.
  revert s. induction ids as [|id ids IH]; intros s; simpl; [done|].
  destruct (st_commands s !! id) as [c|]; [|apply IH].
  case_match; [apply IH|]. case_match; [|by apply same_tasks_publish].
  eapply same_tasks_trans; [|apply IH]. done.
Qed.

Lemma recover_command_tasks id before now s :
  same_tasks s (recoverClaimedCommandLocked id before now s).1.
Proof.
  unfold recoverClaimedCommandLocked. repeat case_match; try done. by apply same_tasks_publish.
Qed.

Lemma recover_command_scan_tasks ids before now s :
  same_tasks s (recover_command_scan ids before now s).1.
Proof.
  revert s. induction ids as [|id ids IH]; intros s; simpl; [done|].
  pose proof (recover_command_tasks id before now s) as H1.
  destruct (recoverClaimedCommandLocked id before now s) as [s1 r]. specialize (IH s1).
  destruct (recover_command_scan ids before now s1). by eapply same_tasks_trans.
Qed.

(** The operations of commands.go and artifacts.go. *)
Definition side_op (op : Op) : bool :=
  match op with
  | OpCreateArtifact _ | OpCreateCommand _ | OpClaimPendingCommand _ | OpClaimCommand _ _
  | OpHandleCommand _ _ _ _ | OpReleaseCommand _ _ | OpRecoverClaimedCommands _ _
  | OpRecoverClaimedCommand _ _ _ => true
  | _ => false
  end.

Lemma side_op_tasks wall op s : side_op op = true → same_tasks s (run_op wall op s).
Proof.
  destruct op; try done; intros _; simpl.
  - unfold CreateArtifact. repeat case_match; try done. by apply same_tasks_publish.
  - unfold CreateCommand. repeat case_match; try done. by apply same_tasks_publish.
  - unfold ClaimPendingCommand. case_match; [done|apply claim_command_scan_tasks].
  - unfold ClaimCommand. repeat (case_match; try done). by apply same_tasks_publish.
  - unfold HandleCommand. repeat case_match; try done. by apply same_tasks_publish.
  - unfold ReleaseCommand. repeat case_match; try done. by apply same_tasks_publish.
  - apply recover_command_scan_tasks.
  - apply recover_command_tasks.
Qed.

(** ** The refinement, for helper use *)

Lemma run_op_effect wall op s : Inv s → effect s (run_op wall op s).
Proof.
  intros HI. destruct (side_op op) eqn:Hside.
  { eapply effect_fields; [by apply side_op_tasks|apply effect_refl]. }
  destruct op; try done; simpl.
  - by apply CreateTask_life.
  - by apply UpdateTask_life.
  - apply DeleteTask_life.
  - unfold ClaimReadyTask. case_match; [apply effect_refl|].
    apply claim_scan_life; [apply (ti_order_nodup _ (inv_task _ HI))|done].
  - unfold ClaimTask. case_match; [apply effect_refl|].
    pose proof (claimTaskLocked_life id req (normalizeNow (wall 0%nat) (claim_Now req)) s HI) as H0.
    destruct (claimTaskLocked _ _ _ _). apply H0.
  - by apply CompleteTask_life.
  - by apply FailTask_life.
  - apply CancelTask_life.
  - apply RetryTask_life.
  - apply RenewLease_life.
  - by apply ReleaseLease_life.
  - apply recover_scan_life; [apply lease_ids_NoDup|done].
  - by apply recoverExpiredLease_life.
Qed.
