(* ===== verification/StoreSafety.v ===== *)
(** * Safety of the in-memory store

    The theorems a worker fleet relies on: the invariant and the lifecycle
    refinement, fencing of stale lease tokens, mutual exclusion of leases,
    finality of completed tasks, dependencies, the specification of the claim
    scan and of lease recovery, and the round trips through the store. *)

From S2P Require Import Prelude Errors Usage OrchTypes MemStore MemCommands StoreInv StoreDeps StoreOps StoreLife.

(** ** A concrete execution the witnesses run *)

Definition clock (t : Time) : nat → Time := λ n, t + Z.of_nat n.

Definition req_task (kind : string) (blockedBy : list string) (max : Z) : CreateTaskRequest :=
  MkCreateTaskRequest kind "subject" "" "input" [] blockedBy max ∅.
Definition req_claim (worker : string) (ttl : Duration) (now : Time) : ClaimTaskRequest :=
  MkClaimTaskRequest worker ttl now [] [].

(** Two tasks, the second blocked by the first, the first claimed until 110. *)
Definition demo_ops : list Op :=
  [ OpCreateTask (req_task "build" [] 2);
    OpCreateTask (req_task "test" ["task-1"] 2);
    OpClaimReadyTask (req_claim "w1" 10 100) ].
Definition demo : Store := run_ops (clock 50) demo_ops (NewStore true).

Lemma demo_reachable : reachable demo.
Proof. apply run_ops_reachable. Qed.

(** ** Invariant and refinement *)

(** C1: every store reachable from [NewStore] by any sequence of calls is well
    formed: identifiers are unique and issued, the order lists are exactly the
    keys of their maps, a lease exists exactly for the running tasks and matches
    their current attempt, tokens are unique, attempts stay within their bound,
    the dependency graph is symmetric and closed, command claim fields match the
    command status, and artifacts belong to stored tasks. *)
Theorem store_invariant s : reachable s → Inv s.
Proof. apply reachable_inv. Qed.

Lemma store_invariant_witness : Inv demo.
Proof. apply store_invariant. exact demo_reachable. Defined.

(** C2: the store implements the abstract task lifecycle: from a reachable store,
    every call moves every task along [life_step], with the fencing token of a new
    claim taken from the lease counter. *)
Theorem store_refines_lifecycle s :
  reachable s → ∀ wall op id, life_step s id (view s id) (view (run_op wall op s) id).
Proof. intros Hr wall op. by apply run_op_effect, reachable_inv. Qed.

Lemma store_refines_lifecycle_witness :
  let op := OpCompleteTask "task-1" "lease-1" None 105 in
  view demo "task-1" = Some (MkView TaskRunning 1 2 (Some "lease-1") None) ∧
  view (run_op (clock 105) op demo) "task-1" = Some (MkView TaskCompleted 1 2 None None) ∧
  life_step demo "task-1" (view demo "task-1") (view (run_op (clock 105) op demo) "task-1").
Proof.
  split; [vm_compute; reflexivity|]. split; [vm_compute; reflexivity|].
  apply store_refines_lifecycle. exact demo_reachable.
Defined.

(** ** Fencing *)

(** [tok] was issued and no lease carries it any more. *)
Definition stale (s : Store) (tok : string) : Prop :=
  issued "lease-" (st_nextLease s) tok ∧ ∀ id l, st_leases s !! id = Some l → lease_Token l ≠ tok.

Lemma view_token s id v tok :
  view s id = Some v → v_token v = Some tok → ∃ l, st_leases s !! id = Some l ∧ lease_Token l = tok.
Proof.
  unfold view. destruct (st_tasks s !! id); [|done]. intros [= <-]. simpl.
  destruct (st_leases s !! id); naive_solver.
Qed.

Lemma stale_step s s' tok : Inv s → step s s' → stale s tok → stale s' tok.
Proof.
  intros HI Hstep [Hiss Hno]. destruct Hstep as [wall op s].
  pose proof (run_op_effect wall op s HI) as [_ Hl Hlife].
  pose proof (run_op_Inv wall op s HI) as HI'. split; [by eapply issued_mono|].
  intros id l Hl' <-. destruct (leased_view _ _ _ HI' Hl') as (t & _ & _ & Hview).
  specialize (Hlife id). rewrite Hview in Hlife.
  apply (life_move_token _ _ _ _ _ (lease_Token l)) in Hlife as [(v0 & Hv & Htok)|Heq]; [..|done].
  - destruct (view_token _ _ _ _ Hv Htok) as (l0 & Hl0 & ?). by eapply Hno.
  - rewrite Heq in Hiss. by apply issued_fresh in Hiss.
Qed.

Lemma stale_steps s s' tok : Inv s → steps s s' → stale s tok → stale s' tok.
Proof.
  intros HI Hs. induction Hs as [|s1 s2 s3 H12 _ IH]; [done|].
  intros Hst. apply IH; [|by eapply stale_step]. destruct H12. by apply run_op_Inv.
Qed.

(** The calls that present a lease token. *)
Definition token_op (tok : string) (op : Op) : Prop :=
  match op with
  | OpCompleteTask _ t _ _ | OpFailTask _ t _ _ | OpRenewLease _ t _ _ | OpReleaseLease _ t
  | OpCancelTask _ t _ _ => t = tok
  | _ => False
  end.

Lemma validateLease_stale s tok w id now :
  stale s tok → ∃ e, validateLeaseLocked w id tok now s = Err e.
Proof.
  intros [_ Hno]. destruct (validateLeaseLocked w id tok now s) as [[t l]|e] eqn:Hv; [|eauto].
  apply validateLease_ok in Hv as (_ & Hl & Htok & _). by apply Hno in Hl.
Qed.

Lemma issued_lease_nonempty n tok : issued "lease-" n tok → tok ≠ "".
Proof. by intros (k & _ & ->). Qed.

Lemma stale_token_op s tok wall op : stale s tok → token_op tok op → run_op wall op s = s.
Proof.
  intros Hst Hop. pose proof (issued_lease_nonempty _ _ (proj1 Hst)) as Hne.
  assert (Hmis : ∀ id l, st_leases s !! id = Some l → String.eqb (lease_Token l) tok = false).
  { intros id l Hl. apply String.eqb_neq. by apply Hst in Hl. }
  destruct op; simpl in *; try done; subst.
  - unfold CompleteTask. by destruct (validateLease_stale s tok (wall 0%nat) id now Hst) as [e ->].
  - unfold FailTask. by destruct (validateLease_stale s tok (wall 0%nat) id now Hst) as [e' ->].
  - unfold CancelTask. destruct (st_tasks s !! id) as [t|]; [|done].
    case_match eqn:Hg; [done|]. apply cancel_guard_none in Hg as [[_ ?]|(_ & l & Hl & Ht & _)];
      [done|]. by apply Hst in Hl.
  - unfold RenewLease. case_match; [done|]. destruct (st_leases s !! id) as [l|] eqn:Hl; [|done].
    by rewrite (Hmis id l Hl).
  - unfold ReleaseLease. destruct (st_leases s !! id) as [l|] eqn:Hl; [|done].
    by rewrite (Hmis id l Hl).
Qed.

(** C3: fencing: once a lease token has been issued and no lease carries it any
    more (the lease was completed, failed, released, recovered, canceled or
    replaced), then after any further calls every completion, failure, renewal,
    release or cancellation presenting that token leaves the store unchanged. *)
Theorem stale_tokens_are_fenced s s' tok wall op :
  reachable s → stale s tok → steps s s' → token_op tok op → run_op wall op s' = s'.
Proof.
  intros Hr Hst Hs Hop. eapply stale_token_op; [|done].
  eapply stale_steps; [|done..]. by apply reachable_inv.
Qed.

(** After recovery at 200 and a second claim, the first token is fenced. *)
Definition demo_reclaimed : Store :=
  run_ops (clock 200) [OpRecoverExpiredLeases 200; OpClaimReadyTask (req_claim "w2" 10 201)] demo.

Lemma stale_by_lookup s tok :
  bool_decide (map_Forall (λ _ l, lease_Token l ≠ tok) (st_leases s)) = true →
  issued "lease-" (st_nextLease s) tok → stale s tok.
Proof. intros H%bool_decide_eq_true ?. split; [done|]. intros id l Hl. by apply H in Hl. Qed.

Lemma stale_tokens_are_fenced_witness :
  stale demo_reclaimed "lease-1" ∧
  run_op (clock 202) (OpCompleteTask "task-1" "lease-1" None 202) demo_reclaimed = demo_reclaimed.
Proof.
  assert (Hst : stale demo_reclaimed "lease-1").
  { apply stale_by_lookup; [vm_compute; reflexivity|]. exists 1. split; [|reflexivity].
    vm_compute. split; discriminate. }
  split; [exact Hst|].
  apply (stale_tokens_are_fenced demo_reclaimed demo_reclaimed "lease-1"); [|exact Hst| |reflexivity].
  - eapply reachable_steps; [exact demo_reachable|apply run_ops_steps].
  - apply rtc_refl.
Defined.

(** ** Mutual exclusion *)

Lemma claim_active_lease id req now s l :
  st_leases s !! id = Some l → now < lease_ExpiresAt l → Inv s →
  claimTaskLocked id req now s = (s, Err ErrNoReadyTask) ∨
  claimTaskLocked id req now s = (s, Err ErrTaskBlocked).
Proof.
  intros Hl Hexp HI. destruct (leased_view _ _ _ HI Hl) as (t & Ht & _).
  unfold claimTaskLocked. rewrite Ht, Hl. unfold After.
  rewrite (proj2 (Z.ltb_lt _ _) Hexp). simpl. repeat case_match; auto.
Qed.

Lemma claim_scan_keeps ids req now s id l :
  st_leases s !! id = Some l → now < lease_ExpiresAt l → Inv s →
  st_tasks (claim_scan ids req now s).1 !! id = st_tasks s !! id ∧
  st_leases (claim_scan ids req now s).1 !! id = st_leases s !! id.
Proof.
  intros Hl Hexp. revert s Hl. induction ids as [|k ids IH]; intros s Hl HI; simpl; [done|].
  pose proof (claimTaskLocked_Inv k req now s HI) as HI1.
  destruct (decide (k = id)) as [->|Hne].
  - destruct (claim_active_lease id req now s l Hl Hexp HI) as [E|E]; rewrite E; simpl; by apply IH.
  - pose proof (claimTaskLocked_life k req now s HI) as Hk.
    destruct (claimTaskLocked k req now s) as [s1 [c|e]]; destruct Hk as (_ & Ho & _);
      destruct (Ho id) as [E1 E2]; try done; simpl.
    case_match; [|done]. rewrite <- E1, <- E2. apply IH; [congruence|done].
Qed.

(** C24: mutual exclusion: while a lease is unexpired at the claim time, claiming
    its task fails without changing the store, and a scan for ready tasks by any
    worker leaves the task and its lease untouched. *)
Theorem active_lease_excludes s id l wall req :
  reachable s → st_leases s !! id = Some l →
  normalizeNow (wall 0%nat) (claim_Now req) < lease_ExpiresAt l →
  (ClaimTask wall id req s).1 = s ∧ is_ok (ClaimTask wall id req s).2 = false ∧
  st_tasks (ClaimReadyTask wall req s).1 !! id = st_tasks s !! id ∧
  st_leases (ClaimReadyTask wall req s).1 !! id = Some l.
Proof.
  intros Hr%reachable_inv Hl Hexp. unfold ClaimTask, ClaimReadyTask.
  destruct (claim_LeaseTTL req <=? 0); [done|].
  destruct (claim_scan_keeps (st_taskOrder s) req _ s id l Hl Hexp Hr) as [E1 E2].
  rewrite E1, E2. destruct (claim_active_lease id req _ s l Hl Hexp Hr) as [->| ->]; done.
Qed.

Lemma active_lease_excludes_witness :
  let l := MkLease "lease-1" "task-1" "w1" "lease-1" 100 110 in
  (ClaimTask (clock 105) "task-1" (req_claim "w2" 10 105) demo).1 = demo ∧
  is_ok (ClaimTask (clock 105) "task-1" (req_claim "w2" 10 105) demo).2 = false ∧
  st_tasks (ClaimReadyTask (clock 105) (req_claim "w2" 10 105) demo).1 !! "task-1"
    = st_tasks demo !! "task-1" ∧
  st_leases (ClaimReadyTask (clock 105) (req_claim "w2" 10 105) demo).1 !! "task-1" = Some l.
Proof.
  apply active_lease_excludes; [exact demo_reachable|vm_compute; reflexivity|].
  vm_compute. reflexivity.
Defined.

(** ** Completed tasks are final *)

(** A deleted identifier is never used again. *)
Definition retired (s : Store) (id : string) : Prop :=
  issued "task-" (st_nextTask s) id ∧ view s id = None.

Lemma life_step_retired s s' id :
  st_nextTask s ≤ st_nextTask s' → life_step s id (view s id) (view s' id) →
  retired s id → retired s' id.
Proof.
  intros Hn Hl [Hiss Hv]. split; [by eapply issued_mono|]. rewrite Hv in Hl.
  inversion Hl as [| ? Hid | | | | | | | |]; subst; [done|]. by apply issued_fresh in Hiss.
Qed.

Lemma view_issued s id v : Inv s → view s id = Some v → issued "task-" (st_nextTask s) id.
Proof.
  intros HI. unfold view. destruct (st_tasks s !! id) eqn:E; [|done]. intros _.
  by destruct (ti_tasks _ (inv_task _ HI) _ _ E).
Qed.

Lemma completed_steps s s' id v :
  Inv s → steps s s' → v_status v = TaskCompleted →
  (view s id = Some v ∨ retired s id) → (view s' id = Some v ∨ retired s' id).
Proof.
  intros HI Hs Hc. induction Hs as [|x s2 s3 [wall op s1] _ IH]; [done|]. intros H.
  pose proof (run_op_effect wall op s1 HI) as [Hn _ Hlife]. specialize (Hlife id).
  apply IH; [by apply run_op_Inv|]. destruct H as [Hv|Hr]; [|right; by eapply life_step_retired].
  rewrite Hv in Hlife. pose proof (view_issued _ _ _ HI Hv) as Hiss.
  destruct (life_move_completed _ _ _ _ _ Hlife Hc) as [->|Hnone]; [by left|].
  right. split; [by eapply issued_mono|done].
Qed.

(** A completed task never changes status, attempt, result or owner again, and
    after it is deleted its identifier is never reused: no later sequence of calls
    can make it anything but itself or gone. *)
Theorem completed_is_final s s' id v :
  reachable s → view s id = Some v → v_status v = TaskCompleted → steps s s' →
  view s' id = Some v ∨ view s' id = None.
Proof.
  intros Hr%reachable_inv Hv Hc Hs.
  destruct (completed_steps s s' id v Hr Hs Hc (or_introl Hv)) as [?|[_ ?]]; auto.
Qed.

Definition demo_completed : Store :=
  run_op (clock 105) (OpCompleteTask "task-1" "lease-1" None 105) demo.

Lemma completed_is_final_witness :
  let s' := run_ops (clock 300) [OpRetryTask "task-1" "" 300; OpCancelTask "task-1" "" "" 300;
                                 OpClaimReadyTask (req_claim "w2" 10 301)] demo_completed in
  view s' "task-1" = Some (MkView TaskCompleted 1 2 None None) ∨ view s' "task-1" = None.
Proof.
  apply (completed_is_final demo_completed).
  - eapply reachable_steps; [exact demo_reachable|].
    apply (run_ops_steps (clock 105) [OpCompleteTask "task-1" "lease-1" None 105]).
  - vm_compute. reflexivity.
  - reflexivity.
  - apply run_ops_steps.
Defined.
