(* ===== verification/StoreClaims.v ===== *)
(** * Claiming, recovering and finishing tasks

    Functional specifications of the operations of the in-memory store: which
    task [ClaimReadyTask] picks, what dependencies guarantee, what lease recovery
    leaves behind, and the round trips claim/complete, claim/release and
    create/get. *)

From S2P Require Import Prelude Errors Usage OrchTypes MemStore MemCommands StoreInv StoreDeps StoreOps StoreLife StoreSafety.

(** ** Which tasks can be claimed *)

Definition lease_active (s : Store) (now : Time) (id : string) : bool :=
  match st_leases s !! id with Some l => After (lease_ExpiresAt l) now | None => false end.

(** The specification of a claimable task, for [claimTaskLocked]'s guards. *)
Definition claimable (req : ClaimTaskRequest) (now : Time) (s : Store) (id : string) : bool :=
  match st_tasks s !! id with
  | None => false
  | Some t =>
    negb (containsString (claim_ExcludeTaskIDs req) id) && matchesKinds t (claim_Kinds req) &&
    negb (isBlocked s t) && negb (lease_active s now id) && negb (exhaustedAttempts t) &&
    (bool_decide (task_Status t = TaskPending) || bool_decide (task_Status t = TaskRunning))
  end.

(** The claim a worker receives for task [t]. *)
Definition new_claim (req : ClaimTaskRequest) (now : Time) (s : Store) (id : string) (t : Task)
    (s' : Store) (c : ClaimedTask) : Prop :=
  st_tasks s' !! id = Some (claimed_Task c) ∧ st_leases s' !! id = Some (claimed_Lease c) ∧
  task_ID (claimed_Task c) = id ∧ task_Status (claimed_Task c) = TaskRunning ∧
  task_Attempt (claimed_Task c) = task_Attempt t + 1 ∧
  task_BlockedBy (claimed_Task c) = task_BlockedBy t ∧
  lease_WorkerID (claimed_Lease c) = claim_WorkerID req ∧
  lease_Token (claimed_Lease c) = "lease-" +:+ itoa (1 + st_nextLease s) ∧
  lease_ExpiresAt (claimed_Lease c) = now + claim_LeaseTTL req ∧
  claimed_Run c = task_Run (claimed_Task c) ∧ task_Kind (claimed_Task c) = task_Kind t ∧
  task_Metadata (claimed_Task c) = task_Metadata t.

Lemma claim_start_spec id req now t s :
  task_ID t = id →
  ∃ s' c, claim_start id req now t s = (s', Ok c) ∧ new_claim req now s id t s' c.
Proof.
  intros Hid. unfold claim_start. do 2 eexists. split; [reflexivity|].
  unfold new_claim, publishTaskClaimed. simpl task_Run. cbv iota.
  match goal with |- context [publish ?e ?s0] =>
    destruct (publish_fields e s0) as (-> & -> & _) end.
  simpl. rewrite Hid, !lookup_insert_eq. done.
Qed.

Lemma claim_spec id req now s :
  Inv s →
  if claimable req now s id
  then ∃ t s' c, st_tasks s !! id = Some t ∧ claimTaskLocked id req now s = (s', Ok c) ∧
                 new_claim req now s id t s' c
  else ∃ s' e, claimTaskLocked id req now s = (s', Err e) ∧
       (is_Some (st_tasks s !! id) → e = ErrNoReadyTask ∨ e = ErrTaskBlocked).
Proof.
  intros HI. unfold claimable, claimTaskLocked, lease_active.
  destruct (st_tasks s !! id) as [t|] eqn:Ht; [|do 2 eexists; split; [done|by intros []]].
  pose proof (Inv_task_key _ _ _ HI Ht) as Hid. cbv zeta.
  destruct (containsString _ _); simpl; [eauto|].
  destruct (matchesKinds _ _); simpl; [|eauto].
  destruct (isBlocked s t); simpl; [eauto|].
  destruct (match st_leases s !! id with Some l => After (lease_ExpiresAt l) now | None => false end)
    eqn:Ha; simpl.
  { destruct (st_leases s !! id) as [l|]; [|done]. rewrite Ha. simpl. eauto. }
  assert (match st_leases s !! id with
          | Some _ => negb match st_leases s !! id with
                           | Some l => negb (After (lease_ExpiresAt l) now) | None => false end
          | None => false end = false) as ->.
  { destruct (st_leases s !! id); [by rewrite Ha|done]. }
  destruct (exhaustedAttempts t); simpl; [eauto|].
  destruct (claim_start_spec id req now t s Hid) as (s' & c & Hc & Hn).
  destruct (task_Status t); simpl; eauto 8.
  destruct (st_leases s !! id) as [l|] eqn:Hl; [rewrite Ha|]; simpl; eauto 8.
Qed.

(** ** The scan *)

Lemma find_ext {A} (f g : A → bool) l : (∀ x, f x = g x) → List.find f l = List.find g l.
Proof. intros H. induction l as [|x l IH]; simpl; [done|]. by rewrite H, IH. Qed.

(** Failing a task whose attempts are used up does not change what is claimable. *)
Lemma isBlocked_status s s' t :
  (∀ b, match st_tasks s !! b, st_tasks s' !! b with
        | Some tb, Some tb' => task_Status tb = TaskCompleted ↔ task_Status tb' = TaskCompleted
        | None, None => True
        | _, _ => False
        end) →
  isBlocked s' t = isBlocked s t.
Proof.
  intros H. unfold isBlocked. induction (task_BlockedBy t) as [|b bs IH]; simpl; [done|].
  rewrite IH. f_equal. specialize (H b).
  destruct (st_tasks s !! b), (st_tasks s' !! b); try done. f_equal. by apply bool_decide_ext.
Qed.

Lemma claim_exhausted_claimable id now t s req now' j :
  st_tasks s !! id = Some t → task_ID t = id → exhaustedAttempts t = true →
  claimable req now' (claim_exhausted id now t s) j = claimable req now' s j.
Proof.
  intros Ht Hid Hex. unfold claim_exhausted. case_match eqn:Hst; [|done].
  rewrite andb_true_iff, !negb_true_iff, !bool_decide_eq_false in Hst.
  simpl task_ID. rewrite Hid. unfold publishTaskFailed.
  match goal with |- context [publish ?e ?s0] => set (s1 := publish e s0);
    destruct (publish_fields e s0) as (E1 & E2 & _); fold s1 in E1, E2 end.
  simpl in E1, E2. unfold claimable, lease_active. rewrite E1, E2, lookup_insert.
  assert (Hb : ∀ t', isBlocked s1 t' = isBlocked s t').
  { intros t'. apply isBlocked_status. intros b. rewrite E1, lookup_insert.
    case_decide; [subst; rewrite Ht; simpl; naive_solver|]. by destruct (st_tasks s !! b). }
  case_decide as Hj; [subst j|by rewrite lookup_delete_ne by done;
    destruct (st_tasks s !! j); [rewrite Hb|]].
  rewrite Ht. change (exhaustedAttempts (t <| task_Status := TaskFailed |>
      <| task_LastError := "task exhausted max attempts" |>
      <| task_CompletedAt := now |> <| task_UpdatedAt := now |>)) with (exhaustedAttempts t).
  rewrite Hex. simpl. by rewrite !andb_false_r.
Qed.

(** A failed claim attempt changes nothing a later claim attempt looks at. *)
Lemma failed_claim_claimable id req now s s' e :
  Inv s → claimTaskLocked id req now s = (s', Err e) →
  st_nextLease s' = st_nextLease s ∧
  (∀ j, claimable req now s' j = claimable req now s j) ∧
  (∀ j, claimable req now s j = true → st_tasks s' !! j = st_tasks s !! j).
Proof.
  intros HI Hc.
  assert (Hcl : claimable req now s id = false).
  { pose proof (claim_spec id req now s HI) as H. destruct (claimable req now s id); [|done].
    destruct H as (? & ? & ? & _ & H & _). congruence. }
  pose proof (claimTaskLocked_life id req now s HI) as Hl. rewrite Hc in Hl.
  destruct Hl as (_ & Ho & Hcnt). destruct (Hcnt eq_refl) as [_ Hn]. split; [done|]. split.
  - unfold claimTaskLocked in Hc. destruct (st_tasks s !! id) as [t|] eqn:Ht; [|by simplify_eq].
    pose proof (Inv_task_key _ _ _ HI Ht) as Hid. cbv zeta in Hc.
    repeat match type of Hc with (if ?b then (s, Err _) else if _ then _ else _) = _ =>
      destruct b; [by simplify_eq|] end.
    destruct (exhaustedAttempts t) eqn:Hex;
      [simplify_eq; intros j; by apply claim_exhausted_claimable|].
    destruct (task_Status t); try by simplify_eq.
    match type of Hc with (if ?b then _ else _) = _ => destruct b end; by simplify_eq.
  - intros j Hj. destruct (decide (j = id)) as [->|Hne]; [congruence|]. by apply Ho.
Qed.

Lemma claim_scan_spec ids req now s :
  Inv s → (∀ id, id ∈ ids → is_Some (st_tasks s !! id)) → NoDup ids →
  match List.find (claimable req now s) ids with
  | Some id => ∃ t s' c, st_tasks s !! id = Some t ∧ claim_scan ids req now s = (s', Ok c) ∧
                         new_claim req now s id t s' c
  | None => ∃ s', claim_scan ids req now s = (s', Err ErrNoReadyTask)
  end.
Proof.
  revert s. induction ids as [|id ids IH]; intros s HI Hids Hnd;
    cbn [claim_scan List.find]; [by eexists|].
  apply NoDup_cons in Hnd as [Hnin Hnd].
  pose proof (claim_spec id req now s HI) as Hsp. destruct (claimable req now s id).
  { destruct Hsp as (t & s' & c & Ht & -> & Hn). eauto 6. }
  destruct Hsp as (s1 & e & Hc & He). rewrite Hc.
  assert (Is e ErrNoReadyTask || Is e ErrTaskBlocked = true) as ->.
  { destruct He as [-> | ->]; [|reflexivity..]. apply Hids. set_solver. }
  destruct (failed_claim_claimable _ _ _ _ _ _ HI Hc) as (Hn & Hcl & Htk).
  assert (HI1 : Inv s1) by (pose proof (claimTaskLocked_Inv id req now s HI) as H; by rewrite Hc in H).
  pose proof (claimTaskLocked_life id req now s HI) as Hl. rewrite Hc in Hl.
  destruct Hl as (_ & Ho & _).
  specialize (IH s1 HI1). rewrite (find_ext _ _ _ Hcl) in IH.
  ospecialize (IH _ Hnd).
  { intros j Hj. destruct (Ho j) as [-> _]; set_solver. }
  destruct (List.find (claimable req now s) ids) as [j|] eqn:Hf; [|done].
  apply List.find_some in Hf as [_ Hf].
  destruct IH as (t & s' & c & Ht & Hs & Hnc). rewrite (Htk j Hf) in Ht.
  exists t, s', c. split; [done|]. split; [done|]. unfold new_claim in *. by rewrite Hn in Hnc.
Qed.

(** C25: [ClaimReadyTask] picks the first claimable task in creation order and
    returns a fresh lease for it; when there is none it fails with ErrNoReadyTask
    and nothing else.  Tasks it fails along the way because their attempts are
    used up never change the choice. *)
Theorem ClaimReadyTask_first wall req s :
  reachable s → 0 < claim_LeaseTTL req →
  let now := normalizeNow (wall 0%nat) (claim_Now req) in
  match List.find (claimable req now s) (st_taskOrder s) with
  | Some id => ∃ t s' c, st_tasks s !! id = Some t ∧ ClaimReadyTask wall req s = (s', Ok c) ∧
                         new_claim req now s id t s' c
  | None => (ClaimReadyTask wall req s).2 = Err ErrNoReadyTask
  end.
Proof.
  intros Hr%reachable_inv Httl now. unfold ClaimReadyTask.
  rewrite (proj2 (Z.leb_gt _ _) Httl). fold now.
  pose proof (claim_scan_spec (st_taskOrder s) req now s Hr
    (λ id, proj1 (ti_order _ (inv_task _ Hr) id)) (ti_order_nodup _ (inv_task _ Hr))) as H.
  destruct (List.find _ _); [done|]. by destruct H as [s' ->].
Qed.

Lemma ClaimReadyTask_first_witness :
  List.find (claimable (req_claim "w2" 10 120) 120 demo) (st_taskOrder demo) = Some "task-1" ∧
  ∃ t s' c, st_tasks demo !! "task-1" = Some t ∧
    ClaimReadyTask (clock 120) (req_claim "w2" 10 120) demo = (s', Ok c) ∧
    new_claim (req_claim "w2" 10 120) 120 demo "task-1" t s' c.
Proof.
  assert (E : List.find (claimable (req_claim "w2" 10 120) 120 demo) (st_taskOrder demo)
              = Some "task-1") by (vm_compute; reflexivity).
  split; [exact E|].
  pose proof (ClaimReadyTask_first (clock 120) (req_claim "w2" 10 120) demo demo_reachable) as H.
  cbv zeta in H.
  change (normalizeNow (clock 120 0%nat) (claim_Now (req_claim "w2" 10 120))) with 120 in H.
  rewrite E in H. apply H. reflexivity.
Defined.

(** ** Dependencies *)

Lemma claimable_unblocked req now s id t :
  Inv s → st_tasks s !! id = Some t → claimable req now s id = true →
  ∀ b, b ∈ task_BlockedBy t →
  ∃ tb, st_tasks s !! b = Some tb ∧ task_Status tb = TaskCompleted.
Proof.
  intros HI Ht Hcl b Hb. unfold claimable in Hcl. rewrite Ht in Hcl.
  rewrite !andb_true_iff in Hcl. destruct Hcl as (((((_ & _) & Hbl) & _) & _) & _).
  apply negb_true_iff in Hbl. unfold isBlocked in Hbl.
  destruct (di_blockedBy _ (inv_dep _ HI) _ _ _ Ht Hb) as [tb Htb]. exists tb. split; [done|].
  destruct (decide (task_Status tb = TaskCompleted)) as [|Hne]; [done|].
  rewrite <- not_true_iff_false in Hbl. destruct Hbl. apply existsb_exists.
  exists b. split; [by apply list_elem_of_In|]. by rewrite Htb, bool_decide_eq_false_2.
Qed.

(** Every successful claim is a claim of a claimable task. *)
Lemma claim_ok_claimable wall id req s s' c :
  Inv s →
  ClaimTask wall id req s = (s', Ok c) ∨ ClaimReadyTask wall req s = (s', Ok c) →
  ∃ k t, st_tasks s !! k = Some t ∧
    claimable req (normalizeNow (wall 0%nat) (claim_Now req)) s k = true ∧
    new_claim req (normalizeNow (wall 0%nat) (claim_Now req)) s k t s' c.
Proof.
  intros HI Hc. unfold ClaimTask, ClaimReadyTask in Hc. set (now := normalizeNow _ _) in *.
  destruct (claim_LeaseTTL req <=? 0); [naive_solver|]. destruct Hc as [Hc|Hc].
  - pose proof (claim_spec id req now s HI) as H.
    destruct (claimable req now s id) eqn:E; [|destruct H as (? & ? & H & _); congruence].
    destruct H as (t & s1 & c1 & Ht & H & Hn). rewrite H in Hc. simplify_eq. eauto.
  - pose proof (claim_scan_spec (st_taskOrder s) req now s HI
      (λ id, proj1 (ti_order _ (inv_task _ HI) id)) (ti_order_nodup _ (inv_task _ HI))) as H.
    destruct (List.find _ _) as [k|] eqn:E; [|destruct H as [? H]; congruence].
    apply List.find_some in E as [_ E]. destruct H as (t & s1 & c1 & Ht & H & Hn).
    rewrite H in Hc. simplify_eq. eauto.
Qed.

(** C26: a task starts running only when every task it is blocked by is stored and
    completed, whichever way it is claimed; and the claim stays within the
    attempt limit of the task. *)
Theorem claims_wait_for_dependencies wall id req s s' c :
  reachable s →
  ClaimTask wall id req s = (s', Ok c) ∨ ClaimReadyTask wall req s = (s', Ok c) →
  (∀ b, b ∈ task_BlockedBy (claimed_Task c) →
     ∃ tb, st_tasks s !! b = Some tb ∧ task_Status tb = TaskCompleted) ∧
  (0 < task_MaxAttempts (claimed_Task c) →
     task_Attempt (claimed_Task c) ≤ task_MaxAttempts (claimed_Task c)).
Proof.
  intros Hr Hc. pose proof (reachable_inv _ Hr) as HI.
  destruct (claim_ok_claimable _ _ _ _ _ _ HI Hc) as (k & t & Ht & Hcl & Hn).
  assert (HI' : Inv s').
  { destruct Hc as [Hc|Hc];
      [change s' with (s', @Ok ClaimedTask c).1|change s' with (s', @Ok ClaimedTask c).1];
      rewrite <- Hc; [apply (run_op_Inv wall (OpClaimTask id req))|
                      apply (run_op_Inv wall (OpClaimReadyTask req))]; done. }
  destruct Hn as (Htk & _ & _ & _ & _ & Hbb & _). split.
  - rewrite Hbb. by eapply claimable_unblocked.
  - by destruct (ti_tasks _ (inv_task _ HI') _ _ Htk).
Qed.

Lemma claims_wait_for_dependencies_witness :
  let req := req_claim "w2" 10 200 in
  ∃ s' c, ClaimReadyTask (clock 200) req demo_completed = (s', Ok c) ∧
    task_ID (claimed_Task c) = "task-2" ∧ task_BlockedBy (claimed_Task c) = ["task-1"] ∧
    (∀ b, b ∈ task_BlockedBy (claimed_Task c) →
       ∃ tb, st_tasks demo_completed !! b = Some tb ∧ task_Status tb = TaskCompleted).
Proof.
  intros req. eexists _, _. split; [vm_compute; reflexivity|].
  split; [reflexivity|]. split; [reflexivity|].
  eapply (claims_wait_for_dependencies (clock 200) "" req demo_completed).
  - eapply reachable_steps; [exact demo_reachable|].
    apply (run_ops_steps (clock 105) [OpCompleteTask "task-1" "lease-1" None 105]).
  - right. vm_compute. reflexivity.
Defined.

(** ** Recovery *)

(** What one recovery does to the task and the lease it is called for. *)
Lemma recover_one w id now s l :
  Inv s → st_leases s !! id = Some l →
  let s' := (recoverExpiredLeaseLocked w id now s).1 in
  if After (lease_ExpiresAt l) now then s' = s
  else st_leases s' !! id = None ∧
       ∃ t t', st_tasks s !! id = Some t ∧ st_tasks s' !! id = Some t' ∧
         task_Status t' = (if exhaustedAttempts t then TaskFailed else TaskPending) ∧
         task_Attempt t' = task_Attempt t ∧ task_LastError t' = "lease expired".
Proof.
  intros HI Hl. unfold recoverExpiredLeaseLocked. rewrite Hl.
  destruct (After (lease_ExpiresAt l) now); [done|].
  destruct (leased_view _ _ _ HI Hl) as (t & Ht & Hst & _).
  rewrite Ht, Hst. rewrite bool_decide_eq_true_2 by done. simpl andb.
  destruct (exhaustedAttempts t) eqn:Hex;
    unfold publishTaskFailed, publishTaskRequeued, publishLeaseReleased, requeueTaskLocked; simpl fst;
    repeat match goal with |- context [publish ?e ?s0] =>
      destruct (publish_fields e s0) as (-> & -> & _) end; simpl;
    rewrite ?lookup_insert_eq, lookup_delete_eq; (split; [done|]);
    (eexists _, _; do 2 (split; [done|])); by rewrite Hex.
Qed.

Lemma recover_scan_leases w ids now s :
  NoDup ids → Inv s →
  let s' := (recover_scan w ids now s).1 in
  ∀ id l, id ∈ ids → st_leases s !! id = Some l →
  if After (lease_ExpiresAt l) now
  then st_leases s' !! id = Some l ∧ st_tasks s' !! id = st_tasks s !! id
  else st_leases s' !! id = None ∧
       ∃ t t', st_tasks s !! id = Some t ∧ st_tasks s' !! id = Some t' ∧
         task_Status t' = (if exhaustedAttempts t then TaskFailed else TaskPending) ∧
         task_Attempt t' = task_Attempt t ∧ task_LastError t' = "lease expired".
Proof.
  revert s. induction ids as [|k ids IH]; intros s Hnd HI; simpl; [set_solver|].
  apply NoDup_cons in Hnd as [Hnin Hnd]. intros id l Hin Hl.
  pose proof (recoverExpiredLease_Inv w k now s HI) as HI1.
  pose proof (recover_only w k now s) as [Ho _].
  pose proof (recover_one w k now s) as Hone.
  destruct (recoverExpiredLeaseLocked w k now s) as [s1 r]; simpl in *.
  pose proof (recover_scan_life w ids now s1 Hnd HI1) as [_ Hout].
  specialize (IH s1 Hnd HI1). destruct (recover_scan w ids now s1) as [s2 rs]; simpl in *.
  apply elem_of_cons in Hin as [->|Hin].
  - specialize (Hone l HI Hl). destruct (Hout k Hnin) as [-> ->].
    destruct (After (lease_ExpiresAt l) now); [by subst s1|done].
  - destruct (Ho id) as [E1 E2]; [set_solver|]. specialize (IH id l Hin).
    rewrite E1, E2 in IH. by apply IH.
Qed.

Lemma recover_leases_spec wall now s :
  Inv s → now ≠ zero_time →
  let s' := (RecoverExpiredLeases wall now s).1 in
  (∀ id l, st_leases s' !! id = Some l ↔ st_leases s !! id = Some l ∧ now < lease_ExpiresAt l) ∧
  (∀ id l, st_leases s !! id = Some l → lease_ExpiresAt l ≤ now →
     ∃ t t', st_tasks s !! id = Some t ∧ st_tasks s' !! id = Some t' ∧
       task_Status t' = (if exhaustedAttempts t then TaskFailed else TaskPending) ∧
       task_Attempt t' = task_Attempt t ∧ task_LastError t' = "lease expired").
Proof.
  intros Hr Hnow. unfold RecoverExpiredLeases, normalizeNow, IsZero.
  unfold zero_time in Hnow.
  rewrite (proj2 (Z.eqb_neq _ _) Hnow). cbv zeta. set (ids := merge_sort _ _).
  assert (Hids : ∀ id, id ∈ ids ↔ is_Some (st_leases s !! id)).
  { intros id. unfold ids. rewrite merge_sort_Permutation, list_elem_of_fmap. split.
    - intros ([k l] & -> & Hk%elem_of_map_to_list). eauto.
    - intros [l Hl]. exists (id, l). by rewrite elem_of_map_to_list. }
  pose proof (lease_ids_NoDup s) as Hnd. fold ids in Hnd.
  pose proof (recover_scan_leases (wall 1%nat) ids now s Hnd Hr) as Hsc. simpl in Hsc.
  pose proof (recover_scan_life (wall 1%nat) ids now s Hnd Hr) as [_ Hout].
  unfold After in Hsc. split.
  - intros id l. destruct (st_leases s !! id) as [l0|] eqn:Hl0.
    + specialize (Hsc id l0 (proj2 (Hids id) ltac:(eauto)) Hl0).
      destruct (Z.ltb_spec now (lease_ExpiresAt l0)); destruct Hsc as [-> _]; naive_solver lia.
    + destruct (Hout id) as [_ ->]; [rewrite Hids, Hl0; by intros []|]. rewrite Hl0. naive_solver.
  - intros id l Hl Hexp. specialize (Hsc id l (proj2 (Hids id) ltac:(eauto)) Hl).
    destruct (Z.ltb_spec now (lease_ExpiresAt l)); [lia|]. apply Hsc.
Qed.

(** C27: after [RecoverExpiredLeases now], the leases are exactly the ones that had
    not expired at [now]; every task whose lease had expired is pending again, or
    failed if its attempts are used up, keeps its attempt count (a lost attempt is
    charged) and records why. *)
Theorem RecoverExpiredLeases_complete wall now s :
  reachable s → now ≠ zero_time →
  let s' := (RecoverExpiredLeases wall now s).1 in
  (∀ id l, st_leases s' !! id = Some l ↔ st_leases s !! id = Some l ∧ now < lease_ExpiresAt l) ∧
  (∀ id l, st_leases s !! id = Some l → lease_ExpiresAt l ≤ now →
     ∃ t t', st_tasks s !! id = Some t ∧ st_tasks s' !! id = Some t' ∧
       task_Status t' = (if exhaustedAttempts t then TaskFailed else TaskPending) ∧
       task_Attempt t' = task_Attempt t ∧ task_LastError t' = "lease expired").
Proof. intros Hr%reachable_inv. by apply recover_leases_spec. Qed.

Lemma RecoverExpiredLeases_complete_witness :
  st_leases demo !! "task-1" = Some (MkLease "lease-1" "task-1" "w1" "lease-1" 100 110) ∧
  let s' := (RecoverExpiredLeases (clock 115) 115 demo).1 in
  ∃ t t', st_tasks demo !! "task-1" = Some t ∧ st_tasks s' !! "task-1" = Some t' ∧
    task_Status t' = (if exhaustedAttempts t then TaskFailed else TaskPending) ∧
    task_Attempt t' = task_Attempt t ∧ task_LastError t' = "lease expired".
Proof.
  assert (E : st_leases demo !! "task-1" = Some (MkLease "lease-1" "task-1" "w1" "lease-1" 100 110))
    by (vm_compute; reflexivity).
  split; [exact E|].
  apply (proj2 (RecoverExpiredLeases_complete (clock 115) 115 demo demo_reachable ltac:(discriminate))
    "task-1" _ E). vm_compute. discriminate.
Defined.

(** ** Finishing a claimed task *)

(** A live lease: its token is presented before it expires. *)
Definition live_lease (s : Store) (id tok : string) (now : Time) : Prop :=
  ∃ l, st_leases s !! id = Some l ∧ lease_Token l = tok ∧ now < lease_ExpiresAt l.

Lemma validateLease_live s w id tok now :
  Inv s → now ≠ zero_time →
  (∃ t l, validateLeaseLocked w id tok now s = Ok (t, l)) ↔ live_lease s id tok now.
Proof.
  intros HI Hnow. split.
  - intros (t & l & (_ & Hl & Htok & Hexp)%validateLease_ok). exists l.
    unfold normalizeNow, IsZero, zero_time in *. by rewrite (proj2 (Z.eqb_neq _ _) Hnow) in Hexp.
  - intros (l & Hl & Htok & Hexp). destruct (leased_view _ _ _ HI Hl) as (t & Ht & _).
    exists t, l. unfold validateLeaseLocked. rewrite Ht, Hl, Htok, String.eqb_refl. simpl.
    unfold normalizeNow, IsZero, After, zero_time in *. rewrite (proj2 (Z.eqb_neq _ _) Hnow).
    by rewrite (proj2 (Z.ltb_lt _ _) Hexp).
Qed.

Lemma CompleteTask_spec wall id tok o now s :
  Inv s → now ≠ zero_time →
  (is_ok (CompleteTask wall id tok o now s).2 = true ↔ live_lease s id tok now) ∧
  ∀ s' t', CompleteTask wall id tok o now s = (s', Ok t') →
    GetTask id s' = Ok t' ∧ GetLease id s' = Err ErrLeaseNotFound ∧
    task_Status t' = TaskCompleted ∧ task_CompletedAt t' = now ∧ task_LastError t' = "" ∧
    (∃ t, st_tasks s !! id = Some t ∧ task_Attempt t' = task_Attempt t ∧ task_Run t' = task_Run t) ∧
    (∀ x r, o = Some x → outcome_Result x = Some r →
       ∃ r', task_Result t' = Some r' ∧ result_Output r' = result_Output r ∧
             result_CompletedAt r' = if IsZero (result_CompletedAt r) then now
                                     else result_CompletedAt r).
Proof.
  intros HI Hnow. pose proof (validateLease_live s (wall 0%nat) id tok now HI Hnow) as Hv.
  unfold CompleteTask. destruct (validateLeaseLocked _ _ _ _ _) as [[t l]|e] eqn:E.
  - split; [rewrite <- Hv; naive_solver|]. intros s' t' [-> ->]%pair_ok_inj.
    apply validateLease_ok in E as (Ht & Hl & _ & _).
    rewrite (Inv_lease_key _ _ _ HI Hl). unfold normalizeNow, IsZero, zero_time in *.
    rewrite !(proj2 (Z.eqb_neq now 0) Hnow).
    match goal with |- GetTask id (publishTaskCompleted ?t' ?s0) = _ ∧ _ => set (s1 := s0); set (t1 := t') end.
    assert (st_tasks s1 !! id = Some t1 ∧ st_leases s1 !! id = None) as [E1 E2].
    { subst s1. destruct o as [o|];
        [match goal with |- context [createOutcomeArtifactsLocked ?a ?b ?c ?s0] =>
           destruct (create_artifacts_fields a b c s0) as (-> & -> & _) end|];
        simpl; by rewrite lookup_insert_eq, lookup_delete_eq. }
    unfold GetTask, GetLease, publishTaskCompleted.
    match goal with |- context [publish ?e s1] => destruct (publish_fields e s1) as (-> & -> & _) end.
    rewrite E1, E2. do 5 (split; [done|]). split; [by exists t|].
    intros x r -> Hr. unfold t1. simpl. rewrite Hr. simpl. case_match; eexists; eauto.
  - split; [|done]. rewrite <- Hv. simpl. naive_solver.
Qed.

(** [CompleteTask] succeeds exactly when the caller presents the token of a
    live lease; it then stores the completed task with the reported result (whose
    completion time defaults to [now]), keeps its attempt, and releases the lease. *)
Theorem CompleteTask_correct wall id tok o now s :
  reachable s → now ≠ zero_time →
  (is_ok (CompleteTask wall id tok o now s).2 = true ↔ live_lease s id tok now) ∧
  ∀ s' t', CompleteTask wall id tok o now s = (s', Ok t') →
    GetTask id s' = Ok t' ∧ GetLease id s' = Err ErrLeaseNotFound ∧
    task_Status t' = TaskCompleted ∧ task_CompletedAt t' = now ∧ task_LastError t' = "" ∧
    (∃ t, st_tasks s !! id = Some t ∧ task_Attempt t' = task_Attempt t ∧ task_Run t' = task_Run t) ∧
    (∀ x r, o = Some x → outcome_Result x = Some r →
       ∃ r', task_Result t' = Some r' ∧ result_Output r' = result_Output r ∧
             result_CompletedAt r' = if IsZero (result_CompletedAt r) then now
                                     else result_CompletedAt r).
Proof. intros HI%reachable_inv. by apply CompleteTask_spec. Qed.

Lemma CompleteTask_correct_witness :
  is_ok (CompleteTask (clock 105) "task-1" "lease-1" None 105 demo).2 = true ∧
  live_lease demo "task-1" "lease-1" 105.
Proof.
  assert (E : is_ok (CompleteTask (clock 105) "task-1" "lease-1" None 105 demo).2 = true)
    by (vm_compute; reflexivity).
  split; [exact E|].
  apply (proj1 (CompleteTask_correct (clock 105) "task-1" "lease-1" None 105 demo
                  demo_reachable ltac:(discriminate))). exact E.
Defined.

Lemma FailTask_spec wall id tok e now s :
  Inv s → now ≠ zero_time →
  (is_ok (FailTask wall id tok (Some e) now s).2 = true ↔ live_lease s id tok now) ∧
  ∀ s' t', FailTask wall id tok (Some e) now s = (s', Ok t') →
    GetTask id s' = Ok t' ∧ GetLease id s' = Err ErrLeaseNotFound ∧ task_LastError t' = Error e ∧
    ∃ t, st_tasks s !! id = Some t ∧ task_Attempt t' = task_Attempt t ∧
      task_Status t' = (if isRetryable e && negb (exhaustedAttempts t)
                        then TaskPending else TaskFailed).
Proof.
  intros HI Hnow. pose proof (validateLease_live s (wall 0%nat) id tok now HI Hnow) as Hv.
  unfold FailTask. destruct (validateLeaseLocked _ _ _ _ _) as [[t l]|e'] eqn:E.
  - apply validateLease_ok in E as (Ht & Hl & _ & _). rewrite (Inv_lease_key _ _ _ HI Hl).
    split; [rewrite <- Hv; destruct (isRetryable e && negb (exhaustedAttempts t)); naive_solver|].
    unfold GetTask, GetLease, requeueTaskLocked, publishTaskRequeued, publishTaskFailed. intros s' t'.
    destruct (isRetryable e && negb (exhaustedAttempts t)) eqn:Hb; intros [-> ->]%pair_ok_inj;
      match goal with |- context [publish ?e ?s0] =>
        destruct (publish_fields e s0) as (-> & -> & _) end; simpl;
      rewrite ?insert_insert_eq, lookup_insert_eq, lookup_delete_eq; (do 3 (split; [done|]));
      exists t; (do 2 (split; [done|])); by rewrite Hb.
  - split; [|done]. rewrite <- Hv. simpl. naive_solver.
Qed.

(** C30: [FailTask] succeeds exactly on a live lease; the task goes back to
    pending when the error is retryable and attempts are left, and fails for good
    otherwise; either way the lease is gone, the attempt is charged and the error
    text is recorded. *)
Theorem FailTask_correct wall id tok e now s :
  reachable s → now ≠ zero_time →
  (is_ok (FailTask wall id tok (Some e) now s).2 = true ↔ live_lease s id tok now) ∧
  ∀ s' t', FailTask wall id tok (Some e) now s = (s', Ok t') →
    GetTask id s' = Ok t' ∧ GetLease id s' = Err ErrLeaseNotFound ∧ task_LastError t' = Error e ∧
    ∃ t, st_tasks s !! id = Some t ∧ task_Attempt t' = task_Attempt t ∧
      task_Status t' = (if isRetryable e && negb (exhaustedAttempts t)
                        then TaskPending else TaskFailed).
Proof. intros HI%reachable_inv. by apply FailTask_spec. Qed.

Lemma FailTask_correct_witness :
  let e := ERetryable (ENew "flaky") in
  is_ok (FailTask (clock 105) "task-1" "lease-1" (Some e) 105 demo).2 = true ∧
  live_lease demo "task-1" "lease-1" 105.
Proof.
  intros e.
  assert (E : is_ok (FailTask (clock 105) "task-1" "lease-1" (Some e) 105 demo).2 = true)
    by (vm_compute; reflexivity).
  split; [exact E|].
  apply (proj1 (FailTask_correct (clock 105) "task-1" "lease-1" e 105 demo
                  demo_reachable ltac:(discriminate))). exact E.
Defined.

(** A worker that claims a pending task and gives the lease back leaves the
    task as it was: pending, with no owner and the attempt not charged. *)
Theorem claim_release_roundtrip wall wall' id req s s' c a max tok r :
  reachable s → view s id = Some (MkView TaskPending a max tok r) →
  ClaimTask wall id req s = (s', Ok c) →
  ∃ s'', ReleaseLease wall' id (lease_Token (claimed_Lease c)) s' = (s'', Ok tt) ∧
    view s'' id = Some (MkView TaskPending a max None None).
Proof.
  intros HI%reachable_inv Hview Hc.
  pose proof (run_op_Inv wall (OpClaimTask id req) s HI) as HI'. simpl in HI'. rewrite Hc in HI'.
  assert (Hk : ∃ t, st_tasks s !! id = Some t ∧ new_claim req
    (normalizeNow (wall 0%nat) (claim_Now req)) s id t s' c).
  { unfold ClaimTask in Hc. case_match; [done|].
    pose proof (claim_spec id req (normalizeNow (wall 0%nat) (claim_Now req)) s HI) as H0.
    destruct (claimable _ _ _ _); [|destruct H0 as (? & ? & H0 & _); congruence].
    destruct H0 as (t & s1 & c1 & Ht & H0 & Hn). rewrite H0 in Hc. simplify_eq. eauto. }
  destruct Hk as (t & Ht & Htk & Hlk & _ & Hst & Hat & _).
  pose proof (run_op_effect wall (OpClaimTask id req) s HI) as [_ _ Hlife]. specialize (Hlife id).
  simpl in Hlife. rewrite Hc, Hview in Hlife. simpl in Hlife.
  assert (Hv' : ∃ tok' r', view s' id = Some (MkView TaskRunning (a + 1) max tok' r') ∧ 0 ≤ a).
  { unfold view in Hlife, Hview |- *. rewrite Ht in Hview. rewrite Htk in Hlife |- *.
    unfold view_task in *. simpl in *. rewrite Hst in *.
    destruct (Inv_attempts _ _ _ HI Ht). simplify_eq. rewrite Hat in *.
    inversion Hlife; subst; eauto. }
  destruct Hv' as (tok' & r' & Hv' & Ha).
  unfold ReleaseLease. rewrite Hlk, String.eqb_refl. simpl. rewrite Htk, Hst.
  rewrite bool_decide_eq_true_2 by done. eexists. split; [reflexivity|].
  unfold publishTaskRequeued, publishLeaseReleased, view, view_task.
  repeat match goal with |- context [publish ?e ?s0] =>
    destruct (publish_fields e s0) as (-> & -> & _) end. simpl.
  rewrite lookup_insert_eq, lookup_delete_eq. unfold view in Hv'. rewrite Htk in Hv'.
  unfold view_task in Hv'. simpl in Hv'. injection Hv' as _ E1 E2 _ _. simpl.
  rewrite E1, (proj2 (Z.gtb_lt _ _)) by lia. simpl. rewrite E2. do 2 f_equal. lia.
Qed.

Lemma claim_release_roundtrip_witness :
  ∃ s' c s'', ClaimTask (clock 120) "task-2" (req_claim "w2" 10 120) demo_completed = (s', Ok c) ∧
    ReleaseLease (clock 121) "task-2" (lease_Token (claimed_Lease c)) s' = (s'', Ok tt) ∧
    view s'' "task-2" = Some (MkView TaskPending 0 2 None None).
Proof.
  eexists _, _.
  assert (H := claim_release_roundtrip (clock 120) (clock 121) "task-2" (req_claim "w2" 10 120)
    demo_completed _ _ 0 2 None None
    (reachable_steps _ _ demo_reachable
       (run_ops_steps (clock 105) [OpCompleteTask "task-1" "lease-1" None 105] demo))
    ltac:(vm_compute; reflexivity) ltac:(vm_compute; reflexivity)).
  destruct H as (s'' & H1 & H2). exists s''. split; [vm_compute; reflexivity|]. exact (conj H1 H2).
Defined.

(** ** Creating and listing *)

Definition any_task : TaskFilter := MkTaskFilter [] [].

Lemma ListTasks_all s : Inv s → task_ID <$> ListTasks any_task s = st_taskOrder s.
Proof.
  intros HI. unfold ListTasks. match goal with |- context [omap ?g _] => set (f := g) end.
  assert (Hf : ∀ id t, st_tasks s !! id = Some t → f id = Some t).
  { intros id t Ht. unfold f. by rewrite Ht. }
  clearbody f. assert (Ho : ∀ id, id ∈ st_taskOrder s → is_Some (st_tasks s !! id)).
  { intros id. apply (ti_order _ (inv_task _ HI)). }
  induction (st_taskOrder s) as [|id l IH]; [done|]. simpl.
  destruct (Ho id) as [t Ht]; [set_solver|]. rewrite (Hf _ _ Ht). simpl.
  f_equal; [by eapply Inv_task_key|]. apply IH. intros. apply Ho. set_solver.
Qed.

Lemma CreateTask_ok wall req s s' t :
  CreateTask wall req s = (s', Ok t) →
  task_ID t = next_id s ∧ st_tasks s' !! next_id s = Some t ∧ st_leases s' = st_leases s ∧
  st_taskOrder s' = st_taskOrder s ++ [next_id s] ∧ task_Status t = TaskPending ∧
  task_Attempt t = 0 ∧ task_BlockedBy t = ctr_BlockedBy req ∧ task_Blocks t = ctr_Blocks req.
Proof.
  unfold CreateTask. destruct (validateTaskDependencies _ _ _); [done|].
  destruct (linkTaskDependencies _ _ _ _) as [s1 peers] eqn:Hl.
  apply linkTaskDependencies_linked in Hl as (m1 & _ & _ & Hs1); [|done].
  intros [-> ->]%pair_ok_inj.
  destruct (same_state_fields _ _ (publishTaskUpdates_same peers
    (publishTaskCreated (MkTask (next_id s) (ctr_Kind req) (ctr_Subject req) (ctr_Description req)
       (ctr_Input req) TaskPending 0 (ctr_MaxAttempts req) (ctr_Blocks req) (ctr_BlockedBy req)
       (ctr_Metadata req) None None "" (wall 0%nat) (wall 0%nat) zero_time zero_time)
       ((putTask (next_id s) (MkTask (next_id s) (ctr_Kind req) (ctr_Subject req) (ctr_Description req)
       (ctr_Input req) TaskPending 0 (ctr_MaxAttempts req) (ctr_Blocks req) (ctr_BlockedBy req)
       (ctr_Metadata req) None None "" (wall 0%nat) (wall 0%nat) zero_time zero_time) s1)
         <| st_taskOrder ::= λ l, l ++ [next_id s] |>)))) as (E1 & E2 & _ & _ & E3).
  unfold next_id in *. simpl in *. rewrite E1, E2, E3. unfold publishTaskCreated.
  match goal with |- context [publish ?e ?s0] =>
    destruct (publish_fields e s0) as (-> & -> & _ & _ & ->) end.
  simpl. rewrite lookup_insert_eq, Hs1. done.
Qed.

(** Creating a task and reading it back gives the task: its identifier was
    not in use, it is pending with no attempt and no lease, and the listing is the
    old listing followed by it. *)
Theorem create_get_roundtrip wall req s s' t :
  reachable s → CreateTask wall req s = (s', Ok t) →
  GetTask (task_ID t) s = Err ErrTaskNotFound ∧ GetTask (task_ID t) s' = Ok t ∧
  GetLease (task_ID t) s' = Err ErrLeaseNotFound ∧
  task_Status t = TaskPending ∧ task_Attempt t = 0 ∧
  task_ID <$> ListTasks any_task s' = (task_ID <$> ListTasks any_task s) ++ [task_ID t].
Proof.
  intros HI%reachable_inv Hc. pose proof (CreateTask_Inv wall req s HI) as HI'. rewrite Hc in HI'.
  destruct (CreateTask_ok _ _ _ _ _ Hc) as (Hid & Ht & Hl & Ho & Hst & Hat & _ & _).
  rewrite !ListTasks_all, Ho by done. unfold GetTask, GetLease.
  rewrite Hid, Ht, Hl, (next_id_fresh s HI).
  destruct (st_leases s !! next_id s) eqn:E; [|done].
  destruct (leased_view _ _ _ HI E) as (? & ? & _). by rewrite next_id_fresh in *.
Qed.

Lemma create_get_roundtrip_witness :
  let r := CreateTask (clock 60) (req_task "deploy" ["task-2"] 0) demo in
  ∃ t, r.2 = Ok t ∧ GetTask (task_ID t) r.1 = Ok t ∧
    task_ID <$> ListTasks any_task r.1 = ["task-1"; "task-2"; "task-3"].
Proof.
  eexists. split; [vm_compute; reflexivity|].
  destruct (create_get_roundtrip (clock 60) (req_task "deploy" ["task-2"] 0) demo _ _ demo_reachable
    ltac:(vm_compute; reflexivity)) as (_ & Hget & _ & _ & _ & Hlist).
  split; [exact Hget|]. etransitivity; [exact Hlist|]. vm_compute. reflexivity.
Defined.

(** Dependencies are validated: [CreateTask] is refused exactly when one of
    its dependencies is not stored, with ErrTaskDependencyNotFound and an
    unchanged store; otherwise both ends of every new edge are recorded. *)
Theorem CreateTask_dependencies wall req s :
  reachable s →
  match CreateTask wall req s with
  | (s', Ok t) =>
    (∀ x, x ∈ ctr_Blocks req ∨ x ∈ ctr_BlockedBy req → is_Some (st_tasks s !! x)) ∧
    (∀ x tx, x ∈ ctr_BlockedBy req → st_tasks s' !! x = Some tx → task_ID t ∈ task_Blocks tx) ∧
    (∀ x tx, x ∈ ctr_Blocks req → st_tasks s' !! x = Some tx → task_ID t ∈ task_BlockedBy tx)
  | (s', Err e) =>
    s' = s ∧ Is e ErrTaskDependencyNotFound = true ∧
    ∃ x, (x ∈ ctr_Blocks req ∨ x ∈ ctr_BlockedBy req) ∧ st_tasks s !! x = None
  end.
Proof.
  intros HI%reachable_inv. pose proof (CreateTask_Inv wall req s HI) as HI'.
  destruct (CreateTask wall req s) as [s' [t|e]] eqn:Hc.
  - destruct (CreateTask_ok _ _ _ _ _ Hc) as (Hid & Ht & _ & _ & _ & _ & Hbb & Hb).
    simpl in HI'. destruct (inv_dep _ HI') as [Hsym _ _]. rewrite Hid. split_and!.
    + apply validateTaskDependencies_none. unfold CreateTask in Hc.
      destruct (validateTaskDependencies _ _ _); [by simplify_eq|done].
    + intros x tx Hx Htx. rewrite <- Hbb in Hx. by eapply (Hsym x).
    + intros x tx Hx Htx. rewrite <- Hb in Hx. by eapply (Hsym (next_id s) x).
  - unfold CreateTask in Hc. destruct (validateTaskDependencies _ _ _) as [e'|] eqn:Hv;
      [|by destruct (linkTaskDependencies _ _ _ _)].
    simplify_eq. split; [done|]. by apply missing_dependency.
Qed.

Lemma CreateTask_dependencies_witness :
  (CreateTask (clock 60) (req_task "deploy" ["task-9"] 0) demo).1 = demo ∧
  ∃ x, (x ∈ ([] : list string) ∨ x ∈ ["task-9"]) ∧ st_tasks demo !! x = None.
Proof.
  pose proof (CreateTask_dependencies (clock 60) (req_task "deploy" ["task-9"] 0) demo
    demo_reachable) as H.
  destruct (CreateTask (clock 60) (req_task "deploy" ["task-9"] 0) demo) as [s' [t|e]] eqn:E.
  - vm_compute in E. discriminate.
  - destruct H as (H1 & _ & H2). exact (conj H1 H2).
Defined.

(** ** A canceled task may turn into a failed one

    [claimTaskLocked] tests for exhausted attempts before it looks at the status,
    and spares only completed and failed tasks. *)

Definition canceled_ops : list Op :=
  [ OpCreateTask (req_task "build" [] 1);
    OpClaimReadyTask (req_claim "w1" 10 100);
    OpCancelTask "task-1" "lease-1" "operator request" 105 ].

(** A scan for ready work rewrites a canceled task whose attempts are used up
    as failed: the cancellation and its reason are lost, and a failure event is
    published for a task nobody ran. *)
Theorem claim_scan_fails_canceled_task :
  let s := run_ops (clock 50) canceled_ops (NewStore true) in
  let s' := (ClaimReadyTask (clock 200) (req_claim "w2" 10 200) s).1 in
  reachable s ∧
  (task_Status <$> st_tasks s !! "task-1") = Some TaskCanceled ∧
  (task_LastError <$> st_tasks s !! "task-1") = Some "operator request" ∧
  (task_Status <$> st_tasks s' !! "task-1") = Some TaskFailed ∧
  (task_LastError <$> st_tasks s' !! "task-1") = Some "task exhausted max attempts" ∧
  length (st_published s') = S (length (st_published s)).
Proof.
  cbv zeta. split; [apply run_ops_reachable|].
  do 4 (split; [vm_compute; reflexivity|]). vm_compute. reflexivity.
Qed.

(** ** Deleting *)

Lemma DeleteTask_ok wall id s s' :
  DeleteTask wall id s = (s', Ok tt) →
  st_tasks s' = unlink_task id (wall 0%nat) <$> delete id (st_tasks s) ∧
  st_leases s' = delete id (st_leases s) ∧
  st_artifacts s' = st_artifacts (deleteTaskArtifactsLocked id s).
Proof.
  unfold DeleteTask. destruct (st_tasks s !! id); [|done]. intros [-> _]%pair_ok_inj.
  match goal with |- context [publishTaskUpdates ?p (publishTaskDeleted ?i ?w ?s0)] =>
    set (s1 := s0); set (s2 := publishTaskDeleted i w s1); set (s3 := publishTaskUpdates p s2) end.
  assert (H : same_state s1 s3).
  { transitivity s2; [apply publish_same|apply publishTaskUpdates_same]. }
  clearbody s3. unfold same_state in H. rewrite H. done.
Qed.

(** After [DeleteTask] nothing refers to the task: no task names it as a
    dependency in either direction, no lease and no artifact belongs to it, and
    every other task and artifact is still there. *)
Theorem DeleteTask_leaves_no_reference wall id s s' :
  reachable s → DeleteTask wall id s = (s', Ok tt) →
  GetTask id s' = Err ErrTaskNotFound ∧ GetLease id s' = Err ErrLeaseNotFound ∧
  (∀ k t, st_tasks s' !! k = Some t → id ∉ task_Blocks t ∧ id ∉ task_BlockedBy t) ∧
  (∀ k a, st_artifacts s' !! k = Some a ↔ st_artifacts s !! k = Some a ∧ art_TaskID a ≠ id) ∧
  (∀ k, k ≠ id → is_Some (st_tasks s' !! k) ↔ is_Some (st_tasks s !! k)).
Proof.
  intros HI%reachable_inv Hd. destruct (DeleteTask_ok _ _ _ _ Hd) as (E1 & E2 & E3).
  unfold GetTask, GetLease. rewrite E1, E2, E3, lookup_fmap, !lookup_delete_eq.
  do 2 (split; [done|]). split_and!.
  - intros k tk Hk. rewrite lookup_fmap, fmap_Some in Hk. destruct Hk as (tk0 & _ & ->).
    rewrite (proj1 (unlink_deps _ _ _ _)), (proj2 (unlink_deps _ _ _ _)). naive_solver.
  - intros k a. apply (deleteTaskArtifacts_lookup id s k a (inv_art _ HI)).
  - intros k Hk. by rewrite lookup_fmap, fmap_is_Some, lookup_delete_ne.
Qed.

Lemma DeleteTask_leaves_no_reference_witness :
  ∃ s', DeleteTask (clock 60) "task-1" demo = (s', Ok tt) ∧
    GetTask "task-1" s' = Err ErrTaskNotFound ∧ is_Some (st_tasks s' !! "task-2").
Proof.
  eexists. split; [vm_compute; reflexivity|].
  destruct (DeleteTask_leaves_no_reference (clock 60) "task-1" demo _ demo_reachable
    ltac:(vm_compute; reflexivity)) as (Hget & _ & _ & _ & Hk).
  split; [exact Hget|]. apply Hk; [discriminate|]. vm_compute. eexists. reflexivity.
Defined.
