(* ===== verification/StoreCommands.v ===== *)
(** * The command lifecycle

    Operator commands (cancel a task, abort a run, retry a task) live in the store
    until a worker claims and handles them.  [cmd_step] is the specification of a
    command's life; every operation of the store refines it, a handled command is
    final, and a claim excludes every other worker until it is released. *)

From S2P Require Import Prelude Errors Usage OrchTypes MemStore MemCommands StoreInv StoreDeps StoreOps StoreLife StoreSafety.

(** The claim state of a command. *)
Record CmdView := MkCmdView {
  cv_kind : CommandKind;
  cv_status : CommandStatus;
  cv_token : string;
  cv_claimedBy : string;
  cv_handledBy : string;
}.

Definition cmd_view (s : Store) (id : string) : option CmdView :=
  (λ c, MkCmdView (cmd_Kind c) (cmd_Status c) (cmd_ClaimToken c) (cmd_ClaimedBy c) (cmd_HandledBy c))
    <$> st_commands s !! id.

Inductive cmd_step (s : Store) (id : string) : option CmdView → option CmdView → Prop :=
| cs_stay v : cmd_step s id v v
| cs_create k :
    id = "command-" +:+ itoa (1 + st_nextCommand s) →
    cmd_step s id None (Some (MkCmdView k CommandPending "" "" ""))
| cs_claim k tok by0 h tok' worker :
    worker ≠ "" →
    cmd_step s id (Some (MkCmdView k CommandPending tok by0 h))
      (Some (MkCmdView k CommandClaimed tok' worker h))
| cs_handle k tok by0 h h' :
    cmd_step s id (Some (MkCmdView k CommandClaimed tok by0 h))
      (Some (MkCmdView k CommandHandled "" by0 h'))
| cs_release k tok by0 h :
    cmd_step s id (Some (MkCmdView k CommandClaimed tok by0 h))
      (Some (MkCmdView k CommandPending "" "" h)).

(** ** The fields a task operation does not touch *)

Definition same_cmds (s s' : Store) : Prop :=
  st_commands s' = st_commands s ∧ st_nextCommand s' = st_nextCommand s.

#[export] Instance same_cmds_preorder : PreOrder same_cmds.
Proof. split; [done|]. unfold same_cmds. intros ? ? ?. naive_solver congruence. Qed.

Lemma same_state_cmds s s' : same_state s s' → same_cmds s s'.
Proof. unfold same_state, same_cmds. by intros ->. Qed.
Lemma same_cmds_publish e s s' : same_cmds s s' → same_cmds s (publish e s').
Proof. intros H. etransitivity; [done|apply same_state_cmds, publish_same]. Qed.
Lemma same_cmds_updates ids s s' : same_cmds s s' → same_cmds s (publishTaskUpdates ids s').
Proof. intros H. etransitivity; [done|apply same_state_cmds, publishTaskUpdates_same]. Qed.

Create HintDb cmds discriminated.
#[export] Hint Resolve same_cmds_publish same_cmds_updates : cmds.
#[export] Hint Extern 1 (same_cmds ?s ?s) => reflexivity : cmds.
#[export] Hint Extern 2 (same_cmds _ _) => (split; reflexivity) : cmds.

Lemma create_artifacts_cmds t specs at_ s : same_cmds s (createOutcomeArtifactsLocked t specs at_ s).
Proof.
  unfold createOutcomeArtifactsLocked. revert s.
  induction specs as [|spec specs IH]; intros s; simpl; [reflexivity|].
  etransitivity; [|apply IH]. by apply same_cmds_publish.
Qed.

Lemma claimTaskLocked_cmds id req now s : same_cmds s (claimTaskLocked id req now s).1.
Proof.
  unfold claimTaskLocked, claim_exhausted, claim_start, publishTaskClaimed.
  repeat case_match; simpl; eauto with cmds; apply same_cmds_publish; by split.
Qed.

Lemma claim_scan_cmds ids req now s : same_cmds s (claim_scan ids req now s).1.
Proof.
  revert s. induction ids as [|id ids IH]; intros s; cbn [claim_scan]; [reflexivity|].
  pose proof (claimTaskLocked_cmds id req now s) as H1.
  destruct (claimTaskLocked id req now s) as [s1 [c|e]]; [done|].
  case_match; [|done]. by etransitivity; [|apply IH].
Qed.

Lemma recover_cmds w id now s : same_cmds s (recoverExpiredLeaseLocked w id now s).1.
Proof.
  unfold recoverExpiredLeaseLocked, requeueTaskLocked.
  repeat case_match; simplify_eq; simpl; repeat apply same_cmds_publish; by split.
Qed.

Lemma recover_scan_cmds w ids now s : same_cmds s (recover_scan w ids now s).1.
Proof.
  revert s. induction ids as [|id ids IH]; intros s; simpl; [reflexivity|].
  pose proof (recover_cmds w id now s) as H1.
  destruct (recoverExpiredLeaseLocked w id now s) as [s1 r]. specialize (IH s1).
  destruct (recover_scan w ids now s1). by etransitivity.
Qed.

(** The operations that are not command operations. *)
Definition command_op (op : Op) : bool :=
  match op with
  | OpCreateArtifact _ => false
  | _ => side_op op
  end.

Lemma task_op_cmds wall op s : command_op op = false → same_cmds s (run_op wall op s).
Proof.
  destruct op; try done; intros _; simpl.
  - unfold CreateTask, linkTaskDependencies. case_match; [done|].
    apply same_cmds_updates, same_cmds_publish. by split.
  - unfold UpdateTask, linkTaskDependencies. case_match; [done|].
    destruct (st_tasks s !! utr_ID req); [|done]. destruct (validateTaskDependencies _ _ _); [done|].
    apply same_cmds_updates, same_cmds_publish. by split.
  - unfold DeleteTask. case_match; [|done]. apply same_cmds_updates, same_cmds_publish. by split.
  - unfold ClaimReadyTask. case_match; [done|apply claim_scan_cmds].
  - unfold ClaimTask. case_match; [done|apply claimTaskLocked_cmds].
  - unfold CompleteTask. case_match; [|done]. case_match. apply same_cmds_publish.
    case_match; [etransitivity; [|apply create_artifacts_cmds]|]; by split.
  - unfold FailTask, requeueTaskLocked. repeat case_match; simplify_eq; try done;
      apply same_cmds_publish; by split.
  - unfold CancelTask. repeat case_match; try done. apply same_cmds_publish; by split.
  - unfold RetryTask. repeat case_match; try done. apply same_cmds_publish; by split.
  - unfold RenewLease. repeat case_match; try done; apply same_cmds_publish; by split.
  - unfold ReleaseLease, requeueTaskLocked. repeat case_match; simplify_eq; try done;
      repeat apply same_cmds_publish; by split.
  - apply recover_scan_cmds.
  - apply recover_cmds.
  - unfold CreateArtifact. repeat case_match; try done. apply same_cmds_publish; by split.
Qed.

(** ** Command operations *)

Record cmd_effect (s s' : Store) : Prop := {
  ce_next : st_nextCommand s ≤ st_nextCommand s';
  ce_step : ∀ id, cmd_step s id (cmd_view s id) (cmd_view s' id);
}.

Lemma cmd_effect_same s s' : same_cmds s s' → cmd_effect s s'.
Proof. intros [E1 E2]. split; [lia|]. intros id. unfold cmd_view. rewrite E1. constructor. Qed.

Lemma cmd_effect_publish e s s' : cmd_effect s s' → cmd_effect s (publish e s').
Proof.
  intros [H1 H2]. destruct (same_state_cmds _ _ (publish_same e s')) as [E1 E2].
  split; [lia|]. intros id. unfold cmd_view. rewrite E1. apply H2.
Qed.

Lemma cmd_view_put s id c j :
  cmd_view (putCommand id c s) j =
    if decide (j = id)
    then Some (MkCmdView (cmd_Kind c) (cmd_Status c) (cmd_ClaimToken c) (cmd_ClaimedBy c) (cmd_HandledBy c))
    else cmd_view s j.
Proof.
  unfold cmd_view. simpl. case_decide; [subst; by rewrite lookup_insert_eq|by rewrite lookup_insert_ne].
Qed.

Lemma cmd_view_some s id c :
  st_commands s !! id = Some c →
  cmd_view s id = Some (MkCmdView (cmd_Kind c) (cmd_Status c) (cmd_ClaimToken c)
                          (cmd_ClaimedBy c) (cmd_HandledBy c)).
Proof. intros H. unfold cmd_view. by rewrite H. Qed.

Lemma cmd_effect_put s id c c' :
  st_commands s !! id = Some c →
  cmd_step s id (cmd_view s id) (cmd_view (putCommand id c' s) id) →
  cmd_effect s (putCommand id c' s).
Proof.
  intros Hc Hs. split; [simpl; lia|]. intros j. destruct (decide (j = id)) as [->|Hne]; [done|].
  rewrite cmd_view_put, decide_False by done. constructor.
Qed.

(** Refreshing a target does not show in the view. *)
Lemma cmd_view_refresh s id c j :
  st_commands s !! id = Some c →
  cmd_view (putCommand id (refreshCommandTargetLocked s c) s) j = cmd_view s j.
Proof.
  intros Hc. rewrite cmd_view_put. case_decide; [subst|done].
  rewrite (cmd_view_some _ _ _ Hc), refresh_core. done.
Qed.

Lemma cmd_effect_refresh s id c s' :
  st_commands s !! id = Some c →
  cmd_effect (putCommand id (refreshCommandTargetLocked s c) s) s' → cmd_effect s s'.
Proof.
  intros Hc [H1 H2]. split; [done|]. intros j. specialize (H2 j).
  rewrite (cmd_view_refresh _ _ _ _ Hc) in H2. by inversion H2; subst; constructor.
Qed.

Lemma cmd_effect_claim s id c worker now :
  worker ≠ "" → st_commands s !! id = Some c → cmd_Status c = CommandPending →
  let c1 := refreshCommandTargetLocked s c in
  cmd_effect s (putCommand id (claim_command worker now c1) (putCommand id c1 s)).
Proof.
  intros Hw Hc Hst c1. eapply cmd_effect_refresh; [done|]. fold c1.
  eapply cmd_effect_put; [simpl; by rewrite lookup_insert_eq|].
  unfold c1. rewrite (cmd_view_refresh _ _ _ _ Hc), (cmd_view_some _ _ _ Hc), cmd_view_put, Hst.
  rewrite decide_True by done. simpl. rewrite refresh_core. simpl. by constructor.
Qed.

Lemma claim_command_scan_effect ids worker now s :
  worker ≠ "" → cmd_effect s (claim_command_scan ids worker now s).1.
Proof.
  intros Hw. revert s. induction ids as [|id ids IH]; intros s; simpl; [by apply cmd_effect_same|].
  destruct (st_commands s !! id) as [c|] eqn:Hc; [|apply IH].
  destruct (decide (cmd_Status c = CommandPending)) as [Hst|Hst].
  - rewrite bool_decide_eq_true_2 by done. simpl. case_match.
    + eapply cmd_effect_refresh; [done|apply IH].
    + by apply cmd_effect_publish, cmd_effect_claim.
  - rewrite bool_decide_eq_false_2 by done. apply IH.
Qed.

Lemma claim_matches_true c tok :
  claim_matches c tok = true → cmd_Status c = CommandClaimed ∧ cmd_ClaimToken c = tok.
Proof. unfold claim_matches. by rewrite andb_true_iff, bool_decide_eq_true, String.eqb_eq. Qed.

Lemma cmd_effect_release s id c :
  st_commands s !! id = Some c → cmd_Status c = CommandClaimed →
  cmd_effect s (putCommand id (release_command c) s).
Proof.
  intros Hc Hst. eapply cmd_effect_put; [done|].
  rewrite cmd_view_put, decide_True, (cmd_view_some _ _ _ Hc), Hst by done. constructor.
Qed.

(** Several recoveries of one command amount to one release or to none. *)
Definition released_or_same (v v' : option CmdView) : Prop :=
  v' = v ∨ ∃ k tok by0 h, v = Some (MkCmdView k CommandClaimed tok by0 h) ∧
                         v' = Some (MkCmdView k CommandPending "" "" h).

Lemma recover_command_view id before now s :
  st_nextCommand (recoverClaimedCommandLocked id before now s).1 = st_nextCommand s ∧
  ∀ j, released_or_same (cmd_view s j) (cmd_view (recoverClaimedCommandLocked id before now s).1 j).
Proof.
  unfold recoverClaimedCommandLocked.
  destruct (st_commands s !! id) as [c|] eqn:Hc; [|by split; [|left]].
  case_match eqn:Hst; [by split; [|left]|].
  rewrite negb_false_iff in Hst. unfold stale_claim in Hst.
  apply andb_true_iff in Hst as [Hst%bool_decide_eq_true _].
  unfold publishCommandReleased. simpl fst.
  match goal with |- context [publish ?e ?s0] =>
    destruct (same_state_cmds _ _ (publish_same e s0)) as [E1 E2] end.
  rewrite E2. split; [done|]. intros j. unfold cmd_view at 2. rewrite E1.
  fold (cmd_view (putCommand id (release_command c) s) j). rewrite cmd_view_put.
  case_decide; [subst|by left]. right. rewrite (cmd_view_some _ _ _ Hc), Hst. simpl. eauto 8.
Qed.

Lemma recover_command_scan_view ids before now s :
  st_nextCommand (recover_command_scan ids before now s).1 = st_nextCommand s ∧
  ∀ j, released_or_same (cmd_view s j) (cmd_view (recover_command_scan ids before now s).1 j).
Proof.
  revert s. induction ids as [|id ids IH]; intros s; simpl; [by split; [|left]|].
  destruct (recover_command_view id before now s) as [E1 H1].
  destruct (recoverClaimedCommandLocked id before now s) as [s1 r]. destruct (IH s1) as [E2 H2].
  destruct (recover_command_scan ids before now s1) as [s2 rs]. simpl in *.
  split; [congruence|]. intros j. destruct (H1 j) as [<-|(k & tok & b & h & Hv & Hv1)]; [apply H2|].
  right. destruct (H2 j) as [->|(k' & tok' & b' & h' & Hv' & _)]; [eauto 8|congruence].
Qed.

Lemma released_or_same_effect s s' :
  st_nextCommand s' = st_nextCommand s →
  (∀ j, released_or_same (cmd_view s j) (cmd_view s' j)) → cmd_effect s s'.
Proof.
  intros E H. split; [lia|]. intros j. destruct (H j) as [->|(k & tok & b & h & -> & ->)]; constructor.
Qed.

Lemma CreateCommand_effect wall req s : Inv s → cmd_effect s (CreateCommand wall req s).1.
Proof.
  intros HI. unfold CreateCommand. case_match; [by apply cmd_effect_same|].
  destruct (st_tasks s !! ccr_TaskID req); [|by apply cmd_effect_same].
  destruct (validateCommandTargetLocked _ _) as [[runID w]|]; [|by apply cmd_effect_same].
  apply cmd_effect_publish. split; [simpl; lia|]. intros j. unfold cmd_view. simpl.
  rewrite lookup_insert. case_decide as Hj; [|constructor]. simpl. subst j.
  destruct (st_commands s !! _) as [c|] eqn:Hc; [|by apply cs_create].
  destruct (ci_commands _ (inv_cmd _ HI) _ _ Hc) as (_ & Hiss & _). by apply issued_fresh in Hiss.
Qed.

Lemma run_op_cmd_effect wall op s : Inv s → cmd_effect s (run_op wall op s).
Proof.
  intros HI. destruct (command_op op) eqn:Hop; [|by apply cmd_effect_same, task_op_cmds].
  destruct op; try done; simpl.
  - by apply CreateCommand_effect.
  - unfold ClaimPendingCommand. destruct (String.eqb_spec (ccmd_WorkerID req) "");
      [by apply cmd_effect_same|by apply claim_command_scan_effect].
  - unfold ClaimCommand. destruct (String.eqb_spec (ccmd_WorkerID req) "");
      [by apply cmd_effect_same|].
    destruct (st_commands s !! id) as [c|] eqn:Hc; [|by apply cmd_effect_same].
    case_match eqn:Hst; [by apply cmd_effect_same|].
    apply negb_false_iff, bool_decide_eq_true in Hst. case_match.
    + eapply cmd_effect_refresh; [done|by apply cmd_effect_same].
    + by apply cmd_effect_publish, cmd_effect_claim.
  - unfold HandleCommand. destruct (st_commands s !! id) as [c|] eqn:Hc; [|by apply cmd_effect_same].
    case_match eqn:Hm; [by apply cmd_effect_same|].
    apply negb_false_iff, claim_matches_true in Hm as [Hst _].
    apply cmd_effect_publish. eapply cmd_effect_put; [done|].
    rewrite cmd_view_put, decide_True, (cmd_view_some _ _ _ Hc), Hst by done. constructor.
  - unfold ReleaseCommand. destruct (st_commands s !! id) as [c|] eqn:Hc; [|by apply cmd_effect_same].
    case_match eqn:Hm; [by apply cmd_effect_same|].
    apply negb_false_iff, claim_matches_true in Hm as [Hst _].
    by apply cmd_effect_publish, cmd_effect_release.
  - apply released_or_same_effect; apply recover_command_scan_view.
  - apply released_or_same_effect; apply recover_command_view.
Qed.

(** ** Theorems *)

(** A store with a running task, an abort command for it and a retry-less cancel
    command, the first claimed by the worker that runs the task. *)
Definition cmd_demo : Store :=
  run_ops (clock 101)
    [ OpCreateCommand (MkCreateCommandRequest CommandAbortRun "task-1" "" "stop" ∅);
      OpCreateCommand (MkCreateCommandRequest CommandCancelTask "task-2" "" "obsolete" ∅);
      OpClaimPendingCommand (MkClaimCommandRequest "w1" 102) ] demo.

Lemma cmd_demo_reachable : reachable cmd_demo.
Proof. eapply reachable_steps; [exact demo_reachable|apply run_ops_steps]. Qed.

(** The store implements the command lifecycle: every call leaves every
    command where it was or moves it along [cmd_step]: created pending, pending to
    claimed by a named worker, claimed to handled, claimed back to pending. *)
Theorem commands_refine_lifecycle s :
  reachable s → ∀ wall op id, cmd_step s id (cmd_view s id) (cmd_view (run_op wall op s) id).
Proof. intros HI%reachable_inv wall op. by apply run_op_cmd_effect. Qed.

Lemma commands_refine_lifecycle_witness :
  let op := OpReleaseCommand "command-1"
              (default "" (cv_token <$> cmd_view cmd_demo "command-1")) in
  (cv_status <$> cmd_view cmd_demo "command-1") = Some CommandClaimed ∧
  (cv_status <$> cmd_view (run_op (clock 103) op cmd_demo) "command-1") = Some CommandPending ∧
  cmd_step cmd_demo "command-1" (cmd_view cmd_demo "command-1")
    (cmd_view (run_op (clock 103) op cmd_demo) "command-1").
Proof.
  intros op. split; [vm_compute; reflexivity|]. split; [vm_compute; reflexivity|].
  apply commands_refine_lifecycle. exact cmd_demo_reachable.
Defined.

Lemma handled_steps s s' id v :
  Inv s → steps s s' → cmd_view s id = Some v → cv_status v = CommandHandled →
  cmd_view s' id = Some v.
Proof.
  intros HI Hs Hv Hst. induction Hs as [|x s2 s3 [wall op s1] _ IH]; [done|].
  apply IH; [by apply run_op_Inv|]. pose proof (ce_step _ _ (run_op_cmd_effect wall op s1 HI) id) as H.
  rewrite Hv in H. inversion H; subst; simpl in *; done.
Qed.

(** A handled command is final: no later sequence of calls claims, releases,
    re-handles or drops it. *)
Theorem handled_command_is_final s s' id v :
  reachable s → steps s s' → cmd_view s id = Some v → cv_status v = CommandHandled →
  cmd_view s' id = Some v.
Proof. intros HI%reachable_inv. by apply handled_steps. Qed.

Definition cmd_handled : Store :=
  run_ops (clock 103) [OpHandleCommand "command-1"
    (default "" (cv_token <$> cmd_view cmd_demo "command-1")) "w1" 103] cmd_demo.

Lemma handled_command_is_final_witness :
  let s' := run_ops (clock 300) [OpRecoverClaimedCommands 300 300;
              OpClaimCommand "command-1" (MkClaimCommandRequest "w2" 301)] cmd_handled in
  (cv_status <$> cmd_view cmd_handled "command-1") = Some CommandHandled ∧
  cmd_view s' "command-1" = cmd_view cmd_handled "command-1".
Proof.
  intros s'.
  assert (E : cmd_view cmd_handled "command-1" =
    Some (MkCmdView CommandAbortRun CommandHandled "" "w1" "w1")) by (vm_compute; reflexivity).
  rewrite E. split; [reflexivity|].
  apply (handled_command_is_final cmd_handled s'); [|apply run_ops_steps|exact E|reflexivity].
  eapply reachable_steps; [exact cmd_demo_reachable|].
  unfold cmd_handled. apply run_ops_steps.
Defined.

(** A command some worker holds is skipped by the claim scan. *)
Lemma claim_command_scan_skips ids worker now s id c :
  st_commands s !! id = Some c → cmd_Status c ≠ CommandPending →
  st_commands (claim_command_scan ids worker now s).1 !! id = Some c ∧
  ∀ c', (claim_command_scan ids worker now s).2 = Ok c' → Inv s → cmd_ID c' ≠ id.
Proof.
  revert s. induction ids as [|k ids IH]; intros s Hc Hst; simpl; [done|].
  destruct (st_commands s !! k) as [ck|] eqn:Hk; [|by apply IH].
  destruct (decide (cmd_Status ck = CommandPending)) as [Hp|Hp].
  - rewrite bool_decide_eq_true_2 by done. simpl.
    assert (Hne : k ≠ id) by congruence. case_match.
    + destruct (IH (putCommand k (refreshCommandTargetLocked s ck) s)) as [H1 H2];
        [by simpl; rewrite lookup_insert_ne|done|].
      split; [done|]. intros c' Hok HI. apply H2; [done|]. by apply claim_refresh_Inv.
    + unfold publishCommandClaimed. simpl fst.
      match goal with |- context [publish ?e ?s0] =>
        destruct (same_state_cmds _ _ (publish_same e s0)) as [-> _] end.
      simpl. rewrite !lookup_insert_ne by done. split; [done|]. intros c' [= <-] HI.
      destruct (ci_commands _ (inv_cmd _ HI) _ _ Hk) as (Hid & _). simpl.
      rewrite refresh_core. simpl. congruence.
  - rewrite bool_decide_eq_false_2 by done. by apply IH.
Qed.

(** A claimed command belongs to its claim: with any other token it can be
    neither handled nor released, no worker can claim it, and the scan for pending
    commands neither returns it nor changes it. *)
Theorem command_claim_excludes s id c wall tok by_ now req :
  reachable s → st_commands s !! id = Some c → cmd_Status c = CommandClaimed →
  cmd_ClaimToken c ≠ tok → ccmd_WorkerID req ≠ "" →
  HandleCommand wall id tok by_ now s = (s, Err ErrCommandClaimMismatch) ∧
  ReleaseCommand wall id tok s = (s, Err ErrCommandClaimMismatch) ∧
  ClaimCommand wall id req s = (s, Err ErrNoPendingCommand) ∧
  st_commands (ClaimPendingCommand wall req s).1 !! id = Some c ∧
  (∀ c', (ClaimPendingCommand wall req s).2 = Ok c' → cmd_ID c' ≠ id).
Proof.
  intros HI%reachable_inv Hc Hst Htok Hw.
  assert (Hm : claim_matches c tok = false).
  { destruct (claim_matches c tok) eqn:E; [|done]. apply claim_matches_true in E. tauto. }
  unfold HandleCommand, ReleaseCommand, ClaimCommand, ClaimPendingCommand.
  rewrite (proj2 (String.eqb_neq _ _) Hw), Hc, Hm, Hst. simpl.
  destruct (claim_command_scan_skips (st_commandOrder s) (ccmd_WorkerID req)
    (normalizeNow (wall 0%nat) (ccmd_Now req)) s id c Hc) as [H1 H2]; [by rewrite Hst|].
  do 3 (split; [done|]). split; [done|]. intros c' Hok. by apply H2.
Qed.

Lemma command_claim_excludes_witness :
  ReleaseCommand (clock 104) "command-1" "forged" cmd_demo
    = (cmd_demo, Err ErrCommandClaimMismatch).
Proof.
  destruct (st_commands cmd_demo !! "command-1") as [c|] eqn:E; [|vm_compute in E; discriminate].
  apply (command_claim_excludes cmd_demo "command-1" c (clock 104) "forged" "w2" 104
    (MkClaimCommandRequest "w2" 104)); [exact cmd_demo_reachable|exact E| | |discriminate];
    vm_compute in E; injection E as <-; [reflexivity|discriminate].
Defined.

(** ** Delivery *)

(** A pending command that [worker] may take, judged by its refreshed target. *)
Definition deliverable (s : Store) (worker : string) (id : string) : bool :=
  match st_commands s !! id with
  | None => false
  | Some c => bool_decide (cmd_Status c = CommandPending) &&
              negb (targets_other worker (refreshCommandTargetLocked s c))
  end.

Lemma refresh_tasks s s' c :
  st_tasks s' = st_tasks s → refreshCommandTargetLocked s' c = refreshCommandTargetLocked s c.
Proof. intros E. unfold refreshCommandTargetLocked. by rewrite E. Qed.

Lemma claim_command_scan_spec ids worker now s :
  NoDup ids →
  match List.find (deliverable s worker) ids with
  | Some id => ∃ s' c0, st_commands s !! id = Some c0 ∧
      claim_command_scan ids worker now s
        = (s', Ok (claim_command worker now (refreshCommandTargetLocked s c0)))
  | None => ∃ s', claim_command_scan ids worker now s = (s', Err ErrNoPendingCommand)
  end.
Proof.
  revert s. induction ids as [|id ids IH]; intros s Hnd; simpl; [by eexists|].
  apply NoDup_cons in Hnd as [Hnin Hnd]. unfold deliverable at 1.
  destruct (st_commands s !! id) as [c|] eqn:Hc; [|by apply IH].
  destruct (decide (cmd_Status c = CommandPending)) as [Hp|Hp].
  2: { rewrite bool_decide_eq_false_2 by done. by apply IH. }
  rewrite bool_decide_eq_true_2 by done. simpl.
  destruct (targets_other worker (refreshCommandTargetLocked s c)); simpl; [|eauto].
  set (s1 := putCommand id _ s). specialize (IH s1 Hnd).
  assert (Hd : ∀ j, j ∈ ids → st_commands s1 !! j = st_commands s !! j).
  { intros j Hj. simpl. rewrite lookup_insert_ne; [done|]. set_solver. }
  assert (List.find (deliverable s1 worker) ids = List.find (deliverable s worker) ids) as E.
  { clear IH Hnd Hnin. induction ids as [|j ids IHi]; simpl; [done|].
    rewrite IHi by set_solver. unfold deliverable. by rewrite Hd by set_solver. }
  rewrite E in IH. destruct (List.find (deliverable s worker) ids) as [j|] eqn:Hf; [|done].
  apply List.find_some in Hf as [Hj _]. apply list_elem_of_In in Hj.
  destruct IH as (s' & c0 & Hc0 & Hs). exists s', c0. by rewrite Hd in Hc0.
Qed.

(** [ClaimPendingCommand] delivers the oldest pending command that the worker
    may take: a command addressed to the run of another worker is never delivered,
    and when every pending command is addressed elsewhere the error is
    ErrNoPendingCommand. *)
Theorem ClaimPendingCommand_first wall req s :
  reachable s → ccmd_WorkerID req ≠ "" →
  let worker := ccmd_WorkerID req in
  match List.find (deliverable s worker) (st_commandOrder s) with
  | Some id => ∃ c, (ClaimPendingCommand wall req s).2 = Ok c ∧ cmd_ID c = id ∧
      cmd_Status c = CommandClaimed ∧ cmd_ClaimedBy c = worker ∧
      (cmd_TargetWorkerID c = "" ∨ cmd_TargetWorkerID c = worker)
  | None => (ClaimPendingCommand wall req s).2 = Err ErrNoPendingCommand
  end.
Proof.
  intros HI%reachable_inv Hw. cbv zeta. unfold ClaimPendingCommand.
  rewrite (proj2 (String.eqb_neq _ _) Hw).
  pose proof (claim_command_scan_spec (st_commandOrder s) (ccmd_WorkerID req)
    (normalizeNow (wall 0%nat) (ccmd_Now req)) s (ci_order_nodup _ (inv_cmd _ HI))) as H.
  destruct (List.find _ _) as [id|] eqn:Hf; [|by destruct H as [s' ->]].
  destruct H as (s' & c0 & Hc0 & ->). apply List.find_some in Hf as [_ Hf].
  unfold deliverable in Hf. rewrite Hc0 in Hf. apply andb_true_iff in Hf as [_ Hf].
  destruct (ci_commands _ (inv_cmd _ HI) _ _ Hc0) as (Hid & _).
  eexists. split; [done|]. simpl. split; [by rewrite refresh_core|]. do 2 (split; [done|]).
  unfold targets_other in Hf. rewrite negb_true_iff, andb_false_iff, !negb_false_iff in Hf.
  by rewrite !String.eqb_eq in Hf.
Qed.

Lemma ClaimPendingCommand_first_witness :
  List.find (deliverable cmd_demo "w2") (st_commandOrder cmd_demo) = Some "command-2" ∧
  ∃ c, (ClaimPendingCommand (clock 104) (MkClaimCommandRequest "w2" 104) cmd_demo).2 = Ok c ∧
       cmd_ID c = "command-2" ∧ cmd_ClaimedBy c = "w2".
Proof.
  assert (E : List.find (deliverable cmd_demo "w2") (st_commandOrder cmd_demo) = Some "command-2")
    by (vm_compute; reflexivity).
  split; [exact E|].
  pose proof (ClaimPendingCommand_first (clock 104) (MkClaimCommandRequest "w2" 104) cmd_demo
    cmd_demo_reachable ltac:(discriminate)) as H.
  cbv zeta in H. cbn [ccmd_WorkerID] in H. rewrite E in H.
  destruct H as (c & H1 & H2 & _ & H3 & _). exists c. exact (conj H1 (conj H2 H3)).
Defined.

(** Claim tokens fence commands across claims at different instants: the
    token of a claim made at [t1] is refused once the command has been released
    and claimed again at [t2], provided the two instants differ in [UnixNano]. *)
Theorem command_tokens_fenced s id c c0 w1 w2 t1 t2 wall by_ now :
  UnixNano t1 ≠ UnixNano t2 →
  st_commands s !! id = Some (claim_command w2 t2 c) → cmd_ID c0 = cmd_ID c →
  HandleCommand wall id (cmd_ClaimToken (claim_command w1 t1 c0)) by_ now s
    = (s, Err ErrCommandClaimMismatch).
Proof.
  intros Ht Hc Hid. unfold HandleCommand. rewrite Hc. unfold claim_matches. simpl.
  destruct (String.eqb_spec (cmd_ID c +:+ "-claim-" +:+ itoa (UnixNano t2))
              (cmd_ID c0 +:+ "-claim-" +:+ itoa (UnixNano t1))) as [E|]; [|done].
  rewrite Hid in E. apply (inj (String.append _)) in E. by simplify_eq.
Qed.

Lemma command_tokens_fenced_witness :
  let c := MkCommand "command-1" CommandAbortRun "task-1" "run-1" "w1" "" ∅ CommandPending
             "" "" "" 100 0 0 in
  let s := putCommand "command-1" (claim_command "w2" 103 c) demo in
  HandleCommand (clock 104) "command-1" (cmd_ClaimToken (claim_command "w1" 102 c)) "w1" 104 s
    = (s, Err ErrCommandClaimMismatch).
Proof.
  intros c s. apply (command_tokens_fenced s "command-1" c c "w1" "w2" 102 103).
  - vm_compute. discriminate.
  - vm_compute. reflexivity.
  - reflexivity.
Defined.
