(* ===== verification/Scheduler.v ===== *)
(** * Scheduler and recovery manager

    src/ext/orchestrator/scheduler.go and recovery_manager.go, written against the
    store interfaces ([OrchStore], the TaskStore, LeaseStore, CommandStore and
    recovery interfaces of store.go, commands.go and recovery.go) so that the
    theorems about the scheduler hold for every store that keeps the interface's
    laws ([OrchStoreLaws]); the in-memory store is the instance.

    A scheduler runs one polling goroutine and one goroutine per claimed task.
    [Sched] is their shared state: the occupied slots, the goroutines with the
    cancel cause of their run context, the [active] map, and the errors handed to
    [OnError].  The code is written in the monad [M] of atomic actions over store and
    scheduler state: an action is one call of the store, one section under [activeMu],
    one operation on the slot channel, one reading of the clock or of a context, or one
    call of a callback.  [exec] runs a program without interference; [sched_step]
    interleaves the actions of the polling goroutine, of the renewals and of the ending
    runs with each other and with other workers ([ss_env]).

    The runner is a parameter: a step [ss_end] supplies what [RunTask] returned.
    [CancelRun] of the optional RunController is the parameter [controller]. *)

From S2P Require Import Prelude Errors Usage OrchTypes MemStore MemCommands StoreInv StoreDeps StoreOps StoreLife StoreSafety StoreClaims.

(** ** The store interfaces *)

Record CommandOps (S : Type) := MkCommandOps {
  co_ClaimPendingCommand : (nat → Time) → ClaimCommandRequest → S → S * res Command;
  co_HandleCommand : (nat → Time) → string → string → string → Time → S → S * res Command;
  co_ReleaseCommand : (nat → Time) → string → string → S → S * res unit;
  (** [None]: the store does not implement CommandRecoveryStore. *)
  co_RecoverClaimedCommands :
    option ((nat → Time) → Time → Time → S → S * res (list CommandRecovery));
}.
Arguments co_ClaimPendingCommand {S}. Arguments co_HandleCommand {S}.
Arguments co_ReleaseCommand {S}. Arguments co_RecoverClaimedCommands {S}.

Class OrchStore (S : Type) := {
  os_GetTask : string → S → res Task;
  os_GetLease : string → S → res Lease;
  os_ClaimReadyTask : (nat → Time) → ClaimTaskRequest → S → S * res ClaimedTask;
  os_CompleteTask : (nat → Time) → string → string → option TaskOutcome → Time → S → S * res Task;
  os_FailTask : (nat → Time) → string → string → option error → Time → S → S * res Task;
  os_CancelTask : (nat → Time) → string → string → string → Time → S → S * res Task;
  os_RetryTask : (nat → Time) → string → string → Time → S → S * res Task;
  os_RenewLease : (nat → Time) → string → string → Duration → Time → S → S * res Lease;
  os_ReleaseLease : (nat → Time) → string → string → S → S * res unit;
  (** [None]: the store does not implement LeaseRecoveryStore. *)
  os_RecoverExpiredLeases :
    option ((nat → Time) → Time → S → S * res (list LeaseRecovery));
  (** [inferCommandStore]: [None] when the task store is no CommandStore. *)
  os_commands : option (CommandOps S);
}.

(** What the memory store promises through the interfaces. *)
#[export] Instance MemStore_OrchStore : OrchStore Store := {|
  os_GetTask := GetTask;
  os_GetLease := GetLease;
  os_ClaimReadyTask := ClaimReadyTask;
  os_CompleteTask := CompleteTask;
  os_FailTask := FailTask;
  os_CancelTask := CancelTask;
  os_RetryTask := RetryTask;
  os_RenewLease := RenewLease;
  os_ReleaseLease := ReleaseLease;
  os_RecoverExpiredLeases := Some (λ wall now s,
    let '(s, r) := RecoverExpiredLeases wall now s in (s, Ok r));
  os_commands := Some (MkCommandOps Store ClaimPendingCommand HandleCommand ReleaseCommand
    (Some (λ wall before now s,
       let '(s, r) := RecoverClaimedCommands wall before now s in (s, Ok r))));
|}.

Definition isLeaseLoss (e : error) : bool :=
  Is e ErrLeaseNotFound || Is e ErrLeaseExpired || Is e ErrLeaseMismatch.

(** The laws: [store_ok] is the store's own invariant, and [owns s id tok] says
    that [tok] is the token of the lease of [id].
    A claim yields a token that owns its task and respects the exclusion list; a
    token that does not own the task changes nothing, whatever it is used for. *)
Class OrchStoreLaws (S : Type) `{OrchStore S} := {
  store_ok : S → Prop;
  owns : S → string → string → Prop;
  claim_owns : ∀ wall req s s' c,
    store_ok s → os_ClaimReadyTask wall req s = (s', Ok c) →
    store_ok s' ∧ owns s' (task_ID (claimed_Task c)) (lease_Token (claimed_Lease c));
  claim_excludes : ∀ wall req s s' c,
    store_ok s → os_ClaimReadyTask wall req s = (s', Ok c) →
    task_ID (claimed_Task c) ∉ claim_ExcludeTaskIDs req;
  complete_fenced : ∀ wall id tok o now s,
    ¬ owns s id tok →
    ∃ e, os_CompleteTask wall id tok o now s = (s, Err e) ∧
         (isLeaseLoss e = true ∨ Is e ErrTaskNotFound = true);
  fail_fenced : ∀ wall id tok re now s,
    ¬ owns s id tok →
    ∃ e, os_FailTask wall id tok re now s = (s, Err e) ∧
         (isLeaseLoss e = true ∨ Is e ErrTaskNotFound = true);
  release_fenced : ∀ wall id tok s,
    ¬ owns s id tok →
    ∃ e, os_ReleaseLease wall id tok s = (s, Err e) ∧
         (isLeaseLoss e = true ∨ Is e ErrTaskNotFound = true);
  renew_fenced : ∀ wall id tok ttl now s,
    ¬ owns s id tok → 0 < ttl →
    ∃ e, os_RenewLease wall id tok ttl now s = (s, Err e) ∧
         (isLeaseLoss e = true ∨ Is e ErrTaskNotFound = true);
}.

(** ** Configuration *)

Record SchedulerConfig := MkSchedulerConfig {
  cfg_WorkerID : string;
  cfg_PollInterval : Duration;
  cfg_LeaseTTL : Duration;
  cfg_LeaseRenewInterval : Duration;
  cfg_RecoveryInterval : Duration;
  cfg_CommandClaimTimeout : Duration;
  cfg_MaxConcurrentRuns : Z;
}.
#[export] Instance SchedulerConfig_eta : RecordEta SchedulerConfig := λ c,
  MkSchedulerConfig (cfg_WorkerID c) (cfg_PollInterval c) (cfg_LeaseTTL c)
    (cfg_LeaseRenewInterval c) (cfg_RecoveryInterval c) (cfg_CommandClaimTimeout c)
    (cfg_MaxConcurrentRuns c).

Definition Millisecond : Duration := 1000000.
Definition Second : Duration := 1000000000.

(** [now] is the reading of [time.Now()] the default worker ID is built from. *)
Definition DefaultSchedulerConfig (now : Time) : SchedulerConfig :=
  let leaseTTL := 30 * Second in
  MkSchedulerConfig ("worker-" +:+ itoa (UnixNano now)) (100 * Millisecond) leaseTTL
    (Z.quot leaseTTL 2) (Z.quot leaseTTL 2) leaseTTL 1.

(** One of the checks of [NewScheduler]: an empty or non-positive field is set. *)
Definition default_when (empty : SchedulerConfig → bool)
    (set : SchedulerConfig → SchedulerConfig) (cfg : SchedulerConfig) : SchedulerConfig :=
  if empty cfg then set cfg else cfg.

(** The options write fields of the default configuration; the rest of
    [NewScheduler] replaces what they left empty or non-positive. *)
Definition normalizeConfig (now : Time) (cfg : SchedulerConfig) : SchedulerConfig :=
  let d := DefaultSchedulerConfig now in
  let cfg := default_when (λ c, String.eqb (cfg_WorkerID c) "")
               (λ c, c <| cfg_WorkerID := cfg_WorkerID d |>) cfg in
  let cfg := default_when (λ c, cfg_PollInterval c <=? 0)
               (λ c, c <| cfg_PollInterval := cfg_PollInterval d |>) cfg in
  let cfg := default_when (λ c, cfg_LeaseTTL c <=? 0)
               (λ c, c <| cfg_LeaseTTL := cfg_LeaseTTL d |>) cfg in
  let cfg := default_when (λ c, cfg_LeaseRenewInterval c <=? 0)
               (λ c, c <| cfg_LeaseRenewInterval := Z.quot (cfg_LeaseTTL c) 2 |>) cfg in
  let cfg := default_when (λ c, cfg_RecoveryInterval c <=? 0)
               (λ c, c <| cfg_RecoveryInterval := Z.quot (cfg_LeaseTTL c) 2 |>) cfg in
  let cfg := default_when (λ c, cfg_CommandClaimTimeout c <=? 0)
               (λ c, c <| cfg_CommandClaimTimeout := cfg_LeaseTTL c |>) cfg in
  default_when (λ c, cfg_MaxConcurrentRuns c <=? 0) (λ c, c <| cfg_MaxConcurrentRuns := 1 |>) cfg.

(** ** Scheduler state *)

(** Where a goroutine of [runClaim] stands: before [registerActiveClaim]; in
    [RunTask], with its renew loop; after [RunTask], in the updates and the deferred
    calls; after its [releaseSlot]. *)
Inductive ClaimPhase := PStarting | PRunning | PEnding | PReleased.
#[export] Instance ClaimPhase_eq_dec : EqDecision ClaimPhase.
Proof. solve_decision. Defined.

Record ClaimRun := MkClaimRun {
  g_claim : ClaimedTask;
  g_phase : ClaimPhase;
  g_cause : option error;       (* the cause [runCtx] was canceled with *)
  g_renewErr : option error;    (* the value in [renewErrCh] *)
}.
#[export] Instance ClaimRun_eta : RecordEta ClaimRun := λ g,
  MkClaimRun (g_claim g) (g_phase g) (g_cause g) (g_renewErr g).

Record Sched := MkSched {
  sd_slots : Z;                          (* len(s.slots) *)
  sd_runs : gmap positive ClaimRun;      (* live goroutines *)
  sd_started : positive;                 (* names the next goroutine *)
  sd_active : gmap string positive;      (* s.active *)
  sd_ctxErr : option error;              (* ctx.Err() of Run's context *)
  sd_errors : list error;                (* calls of OnError *)
  sd_remote : list (string * error);     (* remote cancellations, by run ID *)
}.
#[export] Instance Sched_eta : RecordEta Sched := λ s,
  MkSched (sd_slots s) (sd_runs s) (sd_started s) (sd_active s) (sd_ctxErr s) (sd_errors s) (sd_remote s).

(** The world: the shared store, the scheduler, and the clock with the number of
    readings taken so far. *)
Record World (S : Type) := MkWorld {
  w_store : S;
  w_sched : Sched;
  w_tick : nat;
}.
Arguments MkWorld {S}. Arguments w_store {S}. Arguments w_sched {S}. Arguments w_tick {S}.
#[export] Instance World_eta S : RecordEta (World S) := λ w,
  MkWorld (w_store w) (w_sched w) (w_tick w).

(** A program: a tree of atomic actions. *)
Inductive M (S A : Type) : Type :=
| MDone (a : A)
| MAct (B : Type) (act : World S → World S * B) (next : B → M S A).
Arguments MDone {S A}. Arguments MAct {S A B}.

Definition atomic {S A} (act : World S → World S * A) : M S A := MAct act MDone.
Fixpoint m_bind {S A B} (k : A → M S B) (m : M S A) : M S B :=
  match m with
  | MDone a => k a
  | MAct act next => MAct act (λ b, m_bind k (next b))
  end.
#[export] Instance M_ret S : MRet (M S) := λ A, MDone.
#[export] Instance M_bind S : MBind (M S) := λ A B, m_bind.

(** A run without interference. *)
Fixpoint exec {S A} (m : M S A) (w : World S) : World S * A :=
  match m with
  | MDone a => (w, a)
  | MAct act next => let '(w, b) := act w in exec (next b) w
  end.
Coercion exec : M >-> Funclass.

Lemma exec_bind {S A B} (m : M S A) (k : A → M S B) w :
  exec (m ≫= k) w = let '(w, a) := exec m w in exec (k a) w.
Proof.
  revert w. induction m as [a|C act next IH]; intros w; [done|].
  cbn. destruct (act w) as [w1 b]. apply IH.
Qed.
Lemma exec_m_bind {S A B} (m : M S A) (k : A → M S B) w :
  exec (m_bind k m) w = let '(w, a) := exec m w in exec (k a) w.
Proof. apply exec_bind. Qed.

Section scheduler.
Context {S : Type} `{OrchStore S}.
(** The clock readings, the configuration and the optional RunController. *)
Context (clock : nat → Time) (cfg : SchedulerConfig).
Context (controller : option (Task → RunRef → error → option error)).

Definition getSched : M S Sched := atomic (λ w, (w, w_sched w)).
Definition modSched (f : Sched → Sched) : M S unit := atomic (λ w, (w <| w_sched ::= f |>, tt)).
Definition getStore {A} (f : S → A) : M S A := atomic (λ w, (w, f (w_store w))).

(** [s.cfg.Now()]. *)
Definition Now : M S Time := atomic (λ w, (w <| w_tick ::= Nat.add 1 |>, clock (w_tick w))).

(** One call of a store method; it takes at most four clock readings. *)
Definition call {A} (f : (nat → Time) → S → S * A) : M S A := atomic (λ w,
  let '(s, a) := f (λ i, clock (w_tick w + i)%nat) (w_store w) in
  (w <| w_store := s |> <| w_tick ::= Nat.add 4 |>, a)).

Definition OnError (e : error) : M S unit := modSched (λ sd, sd <| sd_errors ::= λ l, l ++ [e] |>).

(** ** Slots *)

Definition tryAcquireSlot : M S bool := atomic (λ w,
  if sd_slots (w_sched w) <? cfg_MaxConcurrentRuns cfg
  then (w <| w_sched ::= λ sd, sd <| sd_slots ::= Z.add 1 |> |>, true)
  else (w, false)).

Definition free_slot (sd : Sched) : Sched :=
  if 0 <? sd_slots sd then sd <| sd_slots ::= λ n, n - 1 |> else sd.
Definition releaseSlot : M S unit := modSched free_slot.

(** ** The active map *)

(** The claim registered for a task, with its goroutine. *)
Definition activeRun (taskID : string) (sd : Sched) : option (positive * ClaimRun) :=
  match sd_active sd !! taskID with
  | None => None
  | Some g => pair g <$> sd_runs sd !! g
  end.

Definition activeTaskIDs (sd : Sched) : list string := (map_to_list (sd_active sd)).*1.

Definition localActiveRun (task : Task) (sd : Sched) : option positive :=
  match task_Run task with
  | None => None
  | Some run =>
    match activeRun (task_ID task) sd with
    | None => None
    | Some (g, r) =>
      match claimed_Run (g_claim r) with
      | None => None
      | Some crun => if String.eqb (run_ID crun) (run_ID run) then Some g else None
      end
    end
  end.

Definition hasConflictingLocalRun (claim : ClaimedTask) (sd : Sched) : bool :=
  match claimed_Run claim with
  | None => false
  | Some run =>
    match activeRun (task_ID (claimed_Task claim)) sd with
    | None => false
    | Some (_, r) =>
      match claimed_Run (g_claim r) with
      | None => false
      | Some crun => negb (String.eqb (run_ID crun) "") && negb (String.eqb (run_ID crun) (run_ID run))
      end
    end
  end.

(** [active.cancel(cause)]: the first cause given to a context stays. *)
Definition set_cause (cause : error) (r : ClaimRun) : ClaimRun :=
  match g_cause r with Some _ => r | None => r <| g_cause := Some cause |> end.
Definition cancelRun (g : positive) (cause : error) : M S unit :=
  modSched (λ sd, sd <| sd_runs ::= alter (set_cause cause) g |>).

Definition registerActiveClaim (g : positive) (r : ClaimRun) (sd : Sched) : Sched :=
  sd <| sd_active ::= <[task_ID (claimed_Task (g_claim r)) := g]> |>
     <| sd_runs ::= <[g := r <| g_phase := PRunning |>]> |>.

Definition unregisterActiveClaim (r : ClaimRun) (sd : Sched) : Sched :=
  sd <| sd_active ::= delete (task_ID (claimed_Task (g_claim r))) |>.

(** ** Dispatch *)

(** [go s.runClaim(ctx, claim)]: the run context is a child of the scheduler's,
    so it is canceled from the start when that one is. *)
Definition spawn_run (claim : ClaimedTask) (sd : Sched) : Sched :=
  sd <| sd_runs ::= <[sd_started sd := MkClaimRun claim PStarting (sd_ctxErr sd) None]> |>
     <| sd_started ::= Pos.succ |>.
Definition spawn (claim : ClaimedTask) : M S unit := modSched (spawn_run claim).

Definition dispatch_request (now : Time) (sd : Sched) : ClaimTaskRequest :=
  MkClaimTaskRequest (cfg_WorkerID cfg) (cfg_LeaseTTL cfg) now [] (activeTaskIDs sd).

(** [None] when the fuel runs out, otherwise what [dispatch] returns. *)
Fixpoint dispatch (fuel : nat) : M S (option (option error)) :=
  match fuel with
  | O => mret None
  | Datatypes.S fuel =>
    ok ← tryAcquireSlot;
    if negb ok then mret (Some None)
    else
      now ← Now;
      sd ← getSched;
      r ← call (λ wall, os_ClaimReadyTask wall (dispatch_request now sd));
      match r with
      | Err e =>
        releaseSlot ;;
        if Is e ErrNoReadyTask then mret (Some None) else mret (Some (Some e))
      | Ok claim =>
        sd ← getSched;
        if hasConflictingLocalRun claim sd then
          r ← call (λ wall, os_ReleaseLease wall (task_ID (claimed_Task claim))
                              (lease_Token (claimed_Lease claim)));
          match r with
          | Err e => if isLeaseLoss e then releaseSlot ;; dispatch fuel
                     else releaseSlot ;; mret (Some (Some e))
          | Ok _ => releaseSlot ;; dispatch fuel
          end
        else spawn claim ;; dispatch fuel
      end
  end.

(** ** One claimed run *)

(** A tick of [renewLoop]: a failed renewal is put into the channel (if it is
    empty) and cancels the run. *)
Definition renew_tick (g : positive) : M S unit :=
  sd ← getSched;
  match sd_runs sd !! g with
  | None => mret tt
  | Some r =>
    now ← Now;
    res ← call (λ wall, os_RenewLease wall (task_ID (claimed_Task (g_claim r)))
                  (lease_Token (claimed_Lease (g_claim r))) (cfg_LeaseTTL cfg) now);
    match res with
    | Ok _ => mret tt
    | Err e =>
      modSched (λ sd, sd <| sd_runs ::= alter (λ r,
        r <| g_renewErr ::= λ o, match o with Some e0 => Some e0 | None => Some e end |>) g |>) ;;
      cancelRun g e
    end
  end.

(** The error [runClaim] acts on: a renewal error stands in for a missing run
    error, and a plain cancellation is replaced by its cause. *)
Definition effective_error (r : ClaimRun) (runErr : option error) : option error :=
  let runErr := match runErr, g_renewErr r with
                | None, Some e => Some e
                | _, _ => runErr
                end in
  match runErr with
  | None => None
  | Some e =>
    if Is e ContextCanceled then
      match g_cause r with
      | Some cause => if Is cause ContextCanceled then Some e else Some cause
      | None => Some e
      end
    else Some e
  end.

Definition stamp_outcome (now : Time) (outcome : option TaskOutcome) : option TaskOutcome :=
  (λ o, o <| outcome_Result ::= fmap (λ res,
     if IsZero (result_CompletedAt res) then res <| result_CompletedAt := now |> else res) |>)
  <$> outcome.

(** The tail of [runClaim], after [RunTask] returned and the renew loop ended. *)
Definition finish_claim (r : ClaimRun) (outcome : option TaskOutcome) (runErr : option error)
    : M S unit :=
  let id := task_ID (claimed_Task (g_claim r)) in
  let tok := lease_Token (claimed_Lease (g_claim r)) in
  now ← Now;
  sd ← getSched;
  match effective_error r runErr with
  | Some e =>
    if bool_decide (g_renewErr r = None) && Is e ContextCanceled
       && bool_decide (sd_ctxErr sd ≠ None)
    then
      res ← call (λ wall, os_ReleaseLease wall id tok);
      match res with
      | Err e' => if isLeaseLoss e' then mret tt else OnError e'
      | Ok _ => mret tt
      end
    else
      res ← call (λ wall, os_FailTask wall id tok (Some e) now);
      match res with
      | Err e' => if isLeaseLoss e'
                  then if Is e ContextCanceled then mret tt else OnError e
                  else OnError e'
      | Ok _ => mret tt
      end
  | None =>
    res ← call (λ wall, os_CompleteTask wall id tok (stamp_outcome now outcome) now);
    match res with
    | Err e' => if isLeaseLoss e' then mret tt else OnError e'
    | Ok _ => mret tt
    end
  end.

(** The goroutine's end: the deferred unregister, slot release and exit. *)
Definition release_of (g : positive) (sd : Sched) : Sched :=
  (free_slot sd) <| sd_runs ::= alter (λ r, r <| g_phase := PReleased |>) g |>.
Definition exit_of (g : positive) (sd : Sched) : Sched := sd <| sd_runs ::= delete g |>.
Definition end_run (g : positive) (r : ClaimRun) : M S unit :=
  modSched (unregisterActiveClaim r) ;;
  modSched (release_of g) ;;
  modSched (exit_of g).

(** ** Commands *)

Definition cancelRemoteRun (task : Task) (run : option RunRef) (cause : error)
    : M S (option error) :=
  match run with
  | None => mret (Some ErrRunNotFound)
  | Some run =>
    match controller with
    | None => mret (Some ErrRunControlUnavailable)
    | Some cancel =>
      modSched (λ sd, sd <| sd_remote ::= λ l, l ++ [(run_ID run, cause)] |>) ;;
      mret (cancel task run cause)
    end
  end.

(** [CancelTask] whose "not cancelable" error is ignored. *)
Definition cancel_ignoring (id tok reason : string) (now : Time) : M S (option error) :=
  res ← call (λ wall, os_CancelTask wall id tok reason now);
  mret (match res with
        | Ok _ => None
        | Err e => if Is e ErrTaskNotCancelable then None else Some e
        end).

Definition applyCancelTask (command : Command) (now : Time) : M S (option error) :=
  got ← getStore (os_GetTask (cmd_TaskID command));
  match got with
  | Err e => mret (if Is e ErrTaskNotFound then None else Some e)
  | Ok task =>
    match task_Status task with
    | TaskPending => cancel_ignoring (task_ID task) "" (cmd_Reason command) now
    | TaskRunning =>
      lease ← getStore (os_GetLease (task_ID task));
      match lease with
      | Err e => mret (Some e)
      | Ok lease =>
        let cause := ETaskCancelCause (cmd_Reason command) in
        sd ← getSched;
        match localActiveRun task sd with
        | Some g =>
          err ← cancel_ignoring (task_ID task) (lease_Token lease) (cmd_Reason command) now;
          match err with
          | Some e => mret (Some e)
          | None => cancelRun g cause ;; mret None
          end
        | None =>
          err ← cancelRemoteRun task (task_Run task) cause;
          match err with
          | Some e => mret (Some e)
          | None => cancel_ignoring (task_ID task) (lease_Token lease) (cmd_Reason command) now
          end
        end
      end
    | _ => mret None
    end
  end.

Definition applyAbortRun (command : Command) : M S (option error) :=
  got ← getStore (os_GetTask (cmd_TaskID command));
  match got with
  | Err e => mret (if Is e ErrTaskNotFound then None else Some e)
  | Ok task =>
    match task_Status task, task_Run task with
    | TaskRunning, Some run =>
      if negb (String.eqb (cmd_RunID command) "") && negb (String.eqb (run_ID run) (cmd_RunID command))
      then mret None
      else
        let cause := ERunAbortCause (cmd_Reason command) in
        sd ← getSched;
        match localActiveRun task sd with
        | Some g => cancelRun g cause ;; mret None
        | None =>
          lease ← getStore (os_GetLease (task_ID task));
          match lease with
          | Err e => mret (Some e)
          | Ok lease =>
            err ← cancelRemoteRun task (task_Run task) cause;
            match err with
            | Some e => mret (Some e)
            | None =>
              now ← Now;
              res ← call (λ wall, os_FailTask wall (task_ID task) (lease_Token lease) (Some cause) now);
              mret (match res with
                    | Ok _ => None
                    | Err e => if isLeaseLoss e then None else Some e
                    end)
            end
          end
        end
    | _, _ => mret None
    end
  end.

Definition applyRetryTask (command : Command) (now : Time) : M S (option error) :=
  got ← getStore (os_GetTask (cmd_TaskID command));
  match got with
  | Err e => mret (if Is e ErrTaskNotFound then None else Some e)
  | Ok task =>
    match task_Status task with
    | TaskFailed | TaskCanceled =>
      res ← call (λ wall, os_RetryTask wall (task_ID task) (cmd_Reason command) now);
      mret (match res with
            | Ok _ => None
            | Err e => if Is e ErrTaskNotRetryable then None else Some e
            end)
    | _ => mret None
    end
  end.

Definition handleCommand (ops : CommandOps S) (command : Command) : M S (option error) :=
  now ← Now;
  err ← match cmd_Kind command with
        | CommandCancelTask => applyCancelTask command now
        | CommandAbortRun => applyAbortRun command
        | CommandRetryTask => applyRetryTask command now
        | CommandKindOther _ => mret (Some ErrInvalidCommand)
        end;
  match err with
  | Some e => mret (Some e)
  | None =>
    res ← call (λ wall, co_HandleCommand ops wall (cmd_ID command) (cmd_ClaimToken command)
                          (cfg_WorkerID cfg) now);
    mret (match res with Ok _ => None | Err e => Some e end)
  end.

(** The loop of [processCommands]; [None] when the fuel runs out. *)
Fixpoint process_loop (fuel : nat) (ops : CommandOps S) : M S (option (option error)) :=
  match fuel with
  | O => mret None
  | Datatypes.S fuel =>
    now ← Now;
    r ← call (λ wall, co_ClaimPendingCommand ops wall (MkClaimCommandRequest (cfg_WorkerID cfg) now));
    match r with
    | Err e => mret (Some (if Is e ErrNoPendingCommand then None else Some e))
    | Ok command =>
      err ← handleCommand ops command;
      match err with
      | None => process_loop fuel ops
      | Some e =>
        rel ← call (λ wall, co_ReleaseCommand ops wall (cmd_ID command) (cmd_ClaimToken command));
        match rel with
        | Err e' => if Is e' ErrCommandClaimMismatch then OnError e ;; mret (Some None)
                    else OnError e' ;; mret (Some (Some e'))
        | Ok _ => OnError e ;; mret (Some None)
        end
      end
    end
  end.

Definition processCommands (fuel : nat) : M S (option (option error)) :=
  match os_commands with
  | None => mret (Some None)
  | Some ops => process_loop fuel ops
  end.

(** ** Recovery (recovery_manager.go) *)

Record RecoverySweep := MkRecoverySweep {
  sw_RecoveredAt : Time;
  sw_LeaseRecoveries : list LeaseRecovery;
  sw_CommandRecoveries : list CommandRecovery;
  sw_LocalRunCancels : Z;
  sw_RemoteRunCancels : Z;
}.

(** One recovered lease: cancel the local run, else the remote one.  The result
    is the pair of increments of the two counters. *)
Definition sweep_lease (rec : LeaseRecovery) : M S (Z * Z) :=
  match task_Run (lrec_Task rec) with
  | None => mret (0, 0)
  | Some run =>
    sd ← getSched;
    match localActiveRun (lrec_Task rec) sd with
    | Some g => cancelRun g ErrLeaseExpired ;; mret (1, 0)
    | None =>
      match controller with
      | None => mret (0, 0)
      | Some cancel =>
        modSched (λ sd, sd <| sd_remote ::= λ l, l ++ [(run_ID run, ErrLeaseExpired)] |>) ;;
        match cancel (lrec_Task rec) run ErrLeaseExpired with
        | None => mret (0, 1)
        | Some e => if Is e ErrRunControlUnavailable || Is e ErrRunNotFound
                    then mret (0, 0)
                    else OnError e ;; mret (0, 0)
        end
      end
    end
  end.

Fixpoint sweep_leases (recs : list LeaseRecovery) : M S (Z * Z) :=
  match recs with
  | [] => mret (0, 0)
  | rec :: recs =>
    c1 ← sweep_lease rec;
    c2 ← sweep_leases recs;
    mret (c1.1 + c2.1, c1.2 + c2.2)
  end.

Definition Sweep (now : Time) : M S (res RecoverySweep) :=
  fallback ← (if IsZero now then Now else mret now);
  let now := fallback in
  leases ← match os_RecoverExpiredLeases with
           | Some recover => call (λ wall, recover wall now)
           | None => mret (Ok [])
           end;
  match leases with
  | Err e => mret (Err e)
  | Ok recs =>
    counts ← sweep_leases recs;
    cmds ← match os_commands with
           | Some ops =>
             match co_RecoverClaimedCommands ops with
             | Some recover =>
               if 0 <? cfg_CommandClaimTimeout cfg
               then call (λ wall, recover wall (TimeAdd now (- cfg_CommandClaimTimeout cfg)) now)
               else mret (Ok [])
             | None => mret (Ok [])
             end
           | None => mret (Ok [])
           end;
    match cmds with
    | Err e => mret (Err e)
    | Ok cmds => mret (Ok (MkRecoverySweep now recs cmds counts.1 counts.2))
    end
  end.

Definition recover (now : Time) : M S (option error) :=
  r ← Sweep now;
  mret (match r with Ok _ => None | Err e => Some e end).

Definition recoveryEnabled : bool :=
  if cfg_RecoveryInterval cfg <=? 0 then false
  else match os_RecoverExpiredLeases (S := S) with
       | Some _ => true
       | None =>
         (0 <? cfg_CommandClaimTimeout cfg) &&
         match os_commands (S := S) with
         | Some ops => match co_RecoverClaimedCommands ops with Some _ => true | None => false end
         | None => false
         end
       end.

(** Is an error of the loop the scheduler's own shutdown? *)
Definition shouldStopScheduler (ctxErr : option error) (e : option error) : bool :=
  match ctxErr, e with
  | Some _, Some e => Is e ContextCanceled || Is e ContextDeadlineExceeded
  | _, _ => false
  end.

(** ** The polling loop

    One iteration of [Run], up to the select: it returns, or it goes on with the
    time of the next recovery. *)
Inductive LoopResult :=
| LoopReturn (e : option error)
| LoopNext (nextRecovery : Time)
| LoopOutOfFuel.

Definition loop_error (e : error) : M S LoopResult :=
  sd ← getSched;
  mret (if shouldStopScheduler (sd_ctxErr sd) (Some e) then LoopReturn None
        else LoopReturn (Some e)).

Definition recover_if_due (nextRecovery : Time) : M S (Time * option error) :=
  if recoveryEnabled then
    now ← Now;
    if IsZero nextRecovery || negb (Before now nextRecovery) then
      err ← recover now;
      mret (match err with
            | Some e => (nextRecovery, Some e)
            | None => (TimeAdd now (cfg_RecoveryInterval cfg), None)
            end)
    else mret (nextRecovery, None)
  else mret (nextRecovery, None).

Definition run_iteration (fuel : nat) (nextRecovery : Time) : M S LoopResult :=
  rec ← recover_if_due nextRecovery;
  match rec.2 with
  | Some e => loop_error e
  | None =>
    cmds ← processCommands fuel;
    match cmds with
    | None => mret LoopOutOfFuel
    | Some (Some e) => loop_error e
    | Some None =>
      disp ← dispatch fuel;
      match disp with
      | None => mret LoopOutOfFuel
      | Some (Some e) => loop_error e
      | Some None => mret (LoopNext rec.1)
      end
    end
  end.

(** ** Steps

    [env] is what other workers and operators may do to the store meanwhile. *)
Context (env : S → S → Prop).

Definition run_ended (g : positive) (r : ClaimRun) (outcome : option TaskOutcome)
    (runErr : option error) : M S unit :=
  finish_claim r outcome runErr ;; end_run g r.

(** The scheduler's context ends: every run context derived from it ends too. *)
Definition cancel_context (e : error) (sd : Sched) : Sched :=
  sd <| sd_ctxErr := Some e |> <| sd_runs ::= fmap (set_cause e) |>.

(** [RunTask] of a goroutine has returned. *)
Definition begin_end (g : positive) (sd : Sched) : Sched :=
  sd <| sd_runs ::= alter (λ r, r <| g_phase := PEnding |>) g |>.

(** What is left to do of the goroutines' current work: an iteration of the polling
    loop, a renewal, the end of a run. *)
Record Config := MkConfig {
  cf_world : World S;
  cf_poll : option (M S LoopResult);
  cf_renew : gmap positive (M S unit);
  cf_end : gmap positive (M S unit);
}.
Definition idle (w : World S) : Config := MkConfig w None ∅ ∅.

Inductive sched_step : Config → Config → Prop :=
| ss_poll fuel nextRecovery w rn en :
    sched_step (MkConfig w None rn en) (MkConfig w (Some (run_iteration fuel nextRecovery)) rn en)
| ss_poll_act w B (act : World S → World S * B) next rn en :
    sched_step (MkConfig w (Some (MAct act next)) rn en) (MkConfig (act w).1 (Some (next (act w).2)) rn en)
| ss_poll_done w res rn en :
    sched_step (MkConfig w (Some (MDone res)) rn en) (MkConfig w None rn en)
| ss_register g r w po rn en :
    sd_runs (w_sched w) !! g = Some r → g_phase r = PStarting →
    sched_step (MkConfig w po rn en) (MkConfig (w <| w_sched ::= registerActiveClaim g r |>) po rn en)
| ss_renew g r w po rn en :
    sd_runs (w_sched w) !! g = Some r → g_phase r = PRunning → g_renewErr r = None → rn !! g = None →
    sched_step (MkConfig w po rn en) (MkConfig w po (<[g := renew_tick g]> rn) en)
| ss_renew_act g w B (act : World S → World S * B) next po rn en :
    rn !! g = Some (MAct act next) →
    sched_step (MkConfig w po rn en) (MkConfig (act w).1 po (<[g := next (act w).2]> rn) en)
| ss_renew_done g w po rn en :
    rn !! g = Some (MDone tt) →
    sched_step (MkConfig w po rn en) (MkConfig w po (delete g rn) en)
| ss_end g r outcome runErr w po rn en :
    sd_runs (w_sched w) !! g = Some r → g_phase r = PRunning → rn !! g = None →
    sched_step (MkConfig w po rn en)
      (MkConfig (w <| w_sched ::= begin_end g |>) po rn (<[g := run_ended g r outcome runErr]> en))
| ss_end_act g w B (act : World S → World S * B) next po rn en :
    en !! g = Some (MAct act next) →
    sched_step (MkConfig w po rn en) (MkConfig (act w).1 po rn (<[g := next (act w).2]> en))
| ss_end_done g w po rn en :
    en !! g = Some (MDone tt) →
    sched_step (MkConfig w po rn en) (MkConfig w po rn (delete g en))
| ss_cancel e w po rn en :
    sched_step (MkConfig w po rn en) (MkConfig (w <| w_sched ::= cancel_context e |>) po rn en)
| ss_env s' w po rn en :
    env (w_store w) s' → sched_step (MkConfig w po rn en) (MkConfig (w <| w_store := s' |>) po rn en).

(** An iteration of the loop without interference is a sequence of steps. *)
Lemma poll_exec_steps (m : M S LoopResult) w rn en :
  rtc sched_step (MkConfig w (Some m) rn en) (MkConfig (exec m w).1 None rn en).
Proof.
  revert w. induction m as [a|B act next IH]; intros w.
  - eapply rtc_l; [apply ss_poll_done|apply rtc_refl].
  - eapply rtc_l; [apply ss_poll_act|]. cbn. destruct (act w) as [w1 b]. apply IH.
Qed.
Lemma run_iteration_steps fuel nextRecovery w rn en :
  rtc sched_step (MkConfig w None rn en) (MkConfig (run_iteration fuel nextRecovery w).1 None rn en).
Proof. eapply rtc_l; [apply (ss_poll fuel nextRecovery)|]. apply poll_exec_steps. Qed.
End scheduler.

(** [NewScheduler]: no slot taken, no goroutine. *)
Definition new_sched : Sched := MkSched 0 ∅ 1 ∅ None [] [].
Definition NewWorld {S} (s : S) : World S := MkWorld s new_sched 0.
Arguments Config : clear implicits. Arguments MkConfig {S}. Arguments cf_world {S}. Arguments cf_poll {S}. Arguments cf_renew {S}.
Arguments cf_end {S}. Arguments idle {S}.
