(* ===== verification/SchedulerSafety.v ===== *)
(** * Safety of the scheduler

    Proved against the store interface: the concurrency limit holds in every
    interleaving, a run that lost its lease cannot touch the store, and the
    dispatch loop ends.  For the in-memory store: its laws, the end of the command
    loop, and what a cancel command and a recovery sweep achieve. *)

From S2P Require Import Prelude Errors Usage OrchTypes MemStore MemCommands StoreInv StoreDeps StoreOps StoreLife StoreSafety StoreClaims StoreCommands Scheduler.

(** Reduce a program run without interference. *)
Ltac run_m := unfold OnError, mbind, M_bind, mret, M_ret, getSched, modSched, getStore, Now, call, atomic in *; cbn [m_bind exec] in *.

(** ** Programs by their actions *)

Section programs.
Context {S : Type}.

(** Every action of a program satisfies [P]. *)
Fixpoint all_acts {A} (P : ∀ B, (World S → World S * B) → Prop) (m : M S A) : Prop :=
  match m with
  | MDone _ => True
  | @MAct _ _ B act next => P B act ∧ ∀ b, all_acts P (next b)
  end.

Lemma all_acts_bind {A B} P (m : M S A) (k : A → M S B) :
  all_acts P m → (∀ a, all_acts P (k a)) → all_acts P (m ≫= k).
Proof.
  intros Hm Hk. induction m as [a|C act next IH]; [apply Hk|]. destruct Hm as [Ha Hn].
  split; [done|]. intros b. apply IH, Hn.
Qed.

(** A preorder kept by every action is kept by a run without interference. *)
Lemma all_acts_exec {A} (R : relation (World S)) `{!PreOrder R} (m : M S A) w :
  all_acts (λ _ act, ∀ w, R w (act w).1) m → R w (exec m w).1.
Proof.
  revert w. induction m as [a|C act next IH]; intros w Hm; [reflexivity|]. destruct Hm as [Ha Hn].
  cbn. specialize (Ha w). destruct (act w) as [w1 b]. etransitivity; [exact Ha|apply IH, Hn].
Qed.
End programs.

(** ** The slot invariant *)

Definition holds_slot (r : ClaimRun) : Prop := g_phase r ≠ PReleased.
#[export] Instance holds_slot_dec r : Decision (holds_slot r).
Proof. unfold holds_slot. apply _. Defined.

(** The goroutines that occupy a slot. *)
Definition holding (sd : Sched) : gmap positive ClaimRun := filter (λ kr, holds_slot kr.2) (sd_runs sd).

(** [extra] is 1 while the polling goroutine holds a slot it has not handed over. *)
Record SlotInv (max extra : Z) (sd : Sched) : Prop := {
  si_size : sd_slots sd = Z.of_nat (size (holding sd)) + extra;
  si_max : sd_slots sd ≤ max;
  si_names : ∀ g, is_Some (sd_runs sd !! g) → (g < sd_started sd)%positive;
  si_active : ∀ id g, sd_active sd !! id = Some g →
    ∃ r, sd_runs sd !! g = Some r ∧ task_ID (claimed_Task (g_claim r)) = id ∧ holds_slot r;
}.

(** What a goroutine is doing for which task. *)
Definition role (r : ClaimRun) : ClaimedTask * ClaimPhase := (g_claim r, g_phase r).

(** Changes that keep the goroutines and their roles. *)
Definition same_runs (sd sd' : Sched) : Prop :=
  sd_slots sd' = sd_slots sd ∧ sd_active sd' = sd_active sd ∧ sd_started sd' = sd_started sd ∧
  ∀ g, role <$> sd_runs sd' !! g = role <$> sd_runs sd !! g.

#[export] Instance same_runs_preorder : PreOrder same_runs.
Proof.
  split; [done|]. intros a b c (E1 & E2 & E3 & E4) (F1 & F2 & F3 & F4).
  split_and!; [congruence..|]. intros g. by rewrite F4.
Qed.

Lemma same_runs_run sd sd' g r :
  same_runs sd sd' → sd_runs sd !! g = Some r → ∃ r', sd_runs sd' !! g = Some r' ∧ role r' = role r.
Proof.
  intros (_ & _ & _ & Hr) Hg. specialize (Hr g). rewrite Hg in Hr.
  destruct (sd_runs sd' !! g) as [r'|]; [|done]. exists r'. split; [done|]. by apply (inj Some).
Qed.
Lemma same_runs_sym sd sd' : same_runs sd sd' → same_runs sd' sd.
Proof. intros (? & ? & ? & ?). split_and!; intros; by symmetry. Qed.

Lemma role_holds r r' : role r' = role r → holds_slot r → holds_slot r'.
Proof. intros [=]. unfold holds_slot. congruence. Qed.

Lemma holding_lookup sd g r : holding sd !! g = Some r ↔ sd_runs sd !! g = Some r ∧ holds_slot r.
Proof. unfold holding. by rewrite map_lookup_filter_Some. Qed.

Lemma same_runs_holding sd sd' : same_runs sd sd' → size (holding sd') = size (holding sd).
Proof.
  intros Hs. rewrite <-!size_dom. f_equal. apply set_eq. intros g. rewrite !elem_of_dom.
  assert (∀ sd sd', same_runs sd sd' → is_Some (holding sd !! g) → is_Some (holding sd' !! g)) as Hone.
  { clear. intros sd sd' Hs [r [Hr Hh]%holding_lookup]. destruct (same_runs_run _ _ _ _ Hs Hr) as (r' & Hr' & Hro).
    exists r'. apply holding_lookup. split; [done|]. by eapply role_holds. }
  split; apply Hone; [by apply same_runs_sym|done].
Qed.

Lemma SlotInv_same max x sd sd' : same_runs sd sd' → SlotInv max x sd → SlotInv max x sd'.
Proof.
  intros Hs [H1 H2 H3 H4]. pose proof (same_runs_holding _ _ Hs) as Hh.
  pose proof Hs as (E1 & E2 & E3 & E4). split.
  - by rewrite E1, Hh.
  - lia.
  - intros g [r' Hr']. rewrite E3. apply H3.
    destruct (same_runs_run _ _ _ _ (same_runs_sym _ _ Hs) Hr') as (r & Hr & _). eauto.
  - intros id g. rewrite E2. intros (r & Hr & Hid & Hho)%H4.
    destruct (same_runs_run _ _ _ _ Hs Hr) as (r' & Hr' & Hro). exists r'. split_and!; [done| |by eapply role_holds].
    injection Hro. congruence.
Qed.

Lemma same_runs_alter (f : ClaimRun → ClaimRun) g sd :
  (∀ r, role (f r) = role r) → same_runs sd (sd <| sd_runs ::= alter f g |>).
Proof.
  intros Hf. split_and!; [done..|]. intros j. simpl. destruct (decide (j = g)) as [->|Hne].
  - rewrite lookup_alter_eq. destruct (sd_runs sd !! g); simpl; by rewrite ?Hf.
  - by rewrite lookup_alter_ne.
Qed.

Lemma set_cause_role e r : role (set_cause e r) = role r.
Proof. unfold set_cause. by destruct (g_cause r). Qed.

(** ** Slots come and go *)

Lemma SlotInv_acquire max sd :
  SlotInv max 0 sd → sd_slots sd < max → SlotInv max 1 (sd <| sd_slots ::= Z.add 1 |>).
Proof. intros [H1 H2 H3 H4] Hlt. split; cbn; [change (holding _) with (holding sd); lia|lia|done|done]. Qed.
Lemma SlotInv_free max sd : SlotInv max 1 sd → SlotInv max 0 (free_slot sd).
Proof.
  intros [H1 H2 H3 H4]. unfold free_slot. rewrite (proj2 (Z.ltb_lt 0 _)) by lia.
  split; cbn; [change (holding _) with (holding sd); lia|lia|done|done].
Qed.

(** The slot goes from the polling goroutine to the run it starts. *)
Lemma SlotInv_spawn max sd claim : SlotInv max 1 sd → SlotInv max 0 (spawn_run claim sd).
Proof.
  intros [H1 H2 H3 H4].
  assert (Hf : sd_runs sd !! sd_started sd = None).
  { destruct (sd_runs sd !! sd_started sd) eqn:E; [|done]. specialize (H3 (sd_started sd)). rewrite E in H3.
    pose proof (H3 ltac:(eauto)). lia. }
  split.
  - unfold holding in *. cbn. rewrite map_filter_insert_True by done.
    rewrite map_size_insert_None; [|by rewrite map_lookup_filter, Hf]. lia.
  - cbn. lia.
  - intros g. cbn. destruct (decide (g = sd_started sd)) as [->|Hne]; [lia|].
    rewrite lookup_insert_ne by done. intros Hg%H3. lia.
  - intros id g (r & Hr & Hid & Hh)%H4. exists r. split; [|done]. cbn.
    rewrite lookup_insert_ne; [done|]. congruence.
Qed.

(** A goroutine moves on without giving up its slot. *)
Lemma SlotInv_phase max x sd g r ph :
  SlotInv max x sd → sd_runs sd !! g = Some r → holds_slot r → ph ≠ PReleased →
  SlotInv max x (sd <| sd_runs ::= <[g := r <| g_phase := ph |>]> |>).
Proof.
  intros [H1 H2 H3 H4] Hg Hh Hp. split; cbn.
  - unfold holding in *. cbn. rewrite map_filter_insert_True by done.
    rewrite map_size_insert_Some by (eexists; apply map_lookup_filter_Some; done). done.
  - done.
  - intros j. destruct (decide (j = g)) as [->|]; [rewrite lookup_insert_eq; eauto|by rewrite lookup_insert_ne; auto].
  - intros id j (r' & Hr' & Hid & Hho)%H4. destruct (decide (j = g)) as [->|].
    + rewrite lookup_insert_eq. simplify_eq. eauto.
    + rewrite lookup_insert_ne by done. eauto.
Qed.

Lemma SlotInv_register max x sd g r :
  SlotInv max x sd → sd_runs sd !! g = Some r → g_phase r = PStarting →
  SlotInv max x (registerActiveClaim g r sd).
Proof.
  intros HI Hg Hp. assert (holds_slot r) as Hh by (unfold holds_slot; congruence).
  destruct (SlotInv_phase _ _ _ g r PRunning HI Hg Hh) as [H1 H2 H3 H4]; [done|].
  split; [done..|]. cbn in *. intros id j. rewrite lookup_insert_Some.
  intros [[<- <-]|[_ Ha]]; [|by apply H4]. eexists. rewrite lookup_insert_eq. by split_and!.
Qed.

Lemma alter_insert_run (f : ClaimRun → ClaimRun) (g : positive) r (m : gmap positive ClaimRun) :
  m !! g = Some r → alter f g m = <[g := f r]> m.
Proof.
  intros Hg. apply map_eq. intros j. destruct (decide (j = g)) as [->|].
  - by rewrite lookup_alter_eq, lookup_insert_eq, Hg.
  - by rewrite lookup_alter_ne, lookup_insert_ne.
Qed.

Definition unreferenced (g : positive) (sd : Sched) : Prop := ∀ id, sd_active sd !! id ≠ Some g.

Lemma SlotInv_unregister max x sd r : SlotInv max x sd → SlotInv max x (unregisterActiveClaim r sd).
Proof. intros [H1 H2 H3 H4]. split; [done..|]. cbn. intros id g [_ Ha]%lookup_delete_Some. by apply H4. Qed.
Lemma unregister_unreferenced max x sd g r r' :
  SlotInv max x sd → sd_runs sd !! g = Some r' → g_claim r' = g_claim r →
  unreferenced g (unregisterActiveClaim r sd).
Proof.
  intros HI Hg Hc id. cbn. intros [Hne Ha]%lookup_delete_Some. destruct (si_active _ _ _ HI _ _ Ha) as (r1 & Hr1 & Hid & _).
  simplify_eq. by rewrite Hc in Hne.
Qed.

Lemma SlotInv_release max x sd g r :
  SlotInv max x sd → 0 ≤ x → sd_runs sd !! g = Some r → holds_slot r → unreferenced g sd →
  SlotInv max x (release_of g sd).
Proof.
  intros [H1 H2 H3 H4] Hx Hg Hh Hu.
  assert (Hd : holding sd !! g = Some r) by by apply holding_lookup.
  assert (size (holding sd) ≠ 0%nat) as Hs by (intros E%map_size_empty_inv; by rewrite E in Hd).
  unfold release_of, free_slot. rewrite (proj2 (Z.ltb_lt 0 _)) by lia. split; cbn; [|lia|..].
  - unfold holding in *. cbn. rewrite (alter_insert_run _ _ r) by done.
    rewrite map_filter_insert_False by (cbn; unfold holds_slot; cbn; naive_solver).
    rewrite map_filter_delete, map_size_delete, Hd. cbn. lia.
  - intros j. rewrite (alter_insert_run _ _ r) by done. destruct (decide (j = g)) as [->|]; [rewrite lookup_insert_eq; eauto|by rewrite lookup_insert_ne; auto].
  - intros id j Ha. destruct (decide (j = g)) as [->|]; [by destruct (Hu id)|].
    rewrite lookup_alter_ne by done. by apply H4.
Qed.
Lemma SlotInv_exit max x sd g r :
  SlotInv max x sd → sd_runs sd !! g = Some r → g_phase r = PReleased → SlotInv max x (exit_of g sd).
Proof.
  intros [H1 H2 H3 H4] Hg Hp. split; cbn.
  - unfold holding in *. cbn. rewrite map_filter_delete, delete_id; [done|].
    rewrite map_lookup_filter, Hg. cbn. by rewrite option_guard_False by (unfold holds_slot; naive_solver).
  - done.
  - intros j [r' [_ Hr']%lookup_delete_Some]. eauto.
  - intros id j (r' & Hr' & Hid & Hh)%H4. exists r'. split; [|done]. rewrite lookup_delete_ne; [done|].
    intros <-. simplify_eq. by apply Hh.
Qed.

(** ** Programs and slots *)

Section invariant.
Context {S : Type} `{OrchStore S}.
Context (clock : nat → Time) (cfg : SchedulerConfig).
Context (controller : option (Task → RunRef → error → option error)).
Context (env : S → S → Prop).

(** An action, a program that leaves the goroutines alone. *)
Definition quiet_act B (act : World S → World S * B) : Prop :=
  ∀ w, same_runs (w_sched w) (w_sched (act w).1).
Definition quiet {A} (m : M S A) : Prop := all_acts quiet_act m.

Lemma quiet_ret {A} (a : A) : quiet (mret a).
Proof. done. Qed.
Lemma quiet_bind {A B} (m : M S A) (k : A → M S B) :
  quiet m → (∀ a, quiet (k a)) → quiet (m ≫= k).
Proof. apply all_acts_bind. Qed.
Lemma quiet_atomic {A} (act : World S → World S * A) : quiet_act A act → quiet (atomic act).
Proof. by split. Qed.
Lemma quiet_now : quiet (Now clock).
Proof. apply quiet_atomic. intros w. reflexivity. Qed.
Lemma quiet_call {A} (f : (nat → Time) → S → S * A) : quiet (call clock f).
Proof. apply quiet_atomic. intros w. destruct (f _ _). reflexivity. Qed.
Lemma quiet_get : quiet getSched.
Proof. apply quiet_atomic. intros w. reflexivity. Qed.
Lemma quiet_store {A} (f : S → A) : quiet (getStore f).
Proof. apply quiet_atomic. intros w. reflexivity. Qed.
Lemma quiet_error e : quiet (OnError e).
Proof. by apply quiet_atomic. Qed.
Lemma quiet_cancel g e : quiet (cancelRun g e).
Proof. apply quiet_atomic. intros w. apply same_runs_alter, set_cause_role. Qed.
Lemma quiet_remote_log x : quiet (modSched (λ sd, sd <| sd_remote ::= λ l, l ++ [x] |>)).
Proof. by apply quiet_atomic. Qed.

Create HintDb quiet.
Hint Resolve quiet_ret quiet_now quiet_call quiet_get quiet_store quiet_error quiet_cancel
  quiet_remote_log : quiet.

Ltac quiet := repeat first
  [ done | apply quiet_bind; [|intros ?] | case_match | solve [eauto with quiet] ].

Lemma quiet_remote task run e : quiet (cancelRemoteRun controller task run e).
Proof. unfold cancelRemoteRun. quiet. Qed.
Hint Resolve quiet_remote : quiet.

Lemma quiet_cancel_ignoring id tok reason now : quiet (cancel_ignoring clock id tok reason now).
Proof. unfold cancel_ignoring. quiet. Qed.
Hint Resolve quiet_cancel_ignoring : quiet.

Lemma quiet_handle ops c : quiet (handleCommand clock cfg controller ops c).
Proof. unfold handleCommand, applyCancelTask, applyAbortRun, applyRetryTask. quiet. Qed.
Hint Resolve quiet_handle : quiet.

Lemma quiet_process fuel : quiet (processCommands clock cfg controller fuel).
Proof.
  unfold processCommands. destruct os_commands as [ops|]; [|quiet].
  induction fuel as [|fuel IH]; cbn [process_loop]; quiet.
Qed.

Lemma quiet_sweep_lease rec : quiet (sweep_lease controller rec).
Proof. unfold sweep_lease. quiet. Qed.
Hint Resolve quiet_sweep_lease : quiet.
Lemma quiet_sweep_leases recs : quiet (sweep_leases controller recs).
Proof. induction recs; cbn [sweep_leases]; quiet. Qed.
Hint Resolve quiet_sweep_leases : quiet.

Lemma quiet_recover t : quiet (recover_if_due clock cfg controller t).
Proof. unfold recover_if_due, recover, Sweep. quiet. Qed.

Lemma quiet_finish r o e : quiet (finish_claim clock r o e).
Proof. unfold finish_claim. quiet. Qed.

Lemma quiet_renew g : quiet (renew_tick clock cfg g).
Proof. unfold renew_tick. quiet. apply quiet_atomic. intros w. by apply same_runs_alter. Qed.

(** A program of the polling goroutine that starts with a slot in hand or not ([h]) and
    ends with a result and a hand in [Q]. *)
Inductive slot_prog {A} (Q : A → bool → Prop) : bool → M S A → Prop :=
| sp_done h a : Q a h → slot_prog Q h (MDone a)
| sp_quiet h B (act : World S → World S * B) next :
    quiet_act B act → (∀ b, slot_prog Q h (next b)) → slot_prog Q h (MAct act next)
| sp_acquire next :
    slot_prog Q true (next true) → slot_prog Q false (next false) →
    slot_prog Q false (m_bind next (tryAcquireSlot cfg))
| sp_release next : slot_prog Q false (next tt) → slot_prog Q true (m_bind next releaseSlot)
| sp_spawn claim next : slot_prog Q false (next tt) → slot_prog Q true (m_bind next (spawn claim)).

Lemma slot_prog_quiet {A B} (Q : B → bool → Prop) h (m : M S A) (k : A → M S B) :
  quiet m → (∀ a, slot_prog Q h (k a)) → slot_prog Q h (m ≫= k).
Proof.
  intros Hm Hk. induction m as [a|C act next IH]; [apply Hk|]. destruct Hm as [Ha Hn].
  apply sp_quiet; [done|]. intros b. apply IH, Hn.
Qed.
Lemma slot_prog_bind {A B} (Q : A → bool → Prop) (Q' : B → bool → Prop) h (m : M S A) (k : A → M S B) :
  slot_prog Q h m → (∀ a h', Q a h' → slot_prog Q' h' (k a)) → slot_prog Q' h (m ≫= k).
Proof.
  intros Hm Hk. induction Hm as [h a Ha|h C act next Ha Hn IH|next H1 IH1 H2 IH2|next Hn IH|claim next Hn IH].
  - by apply Hk.
  - by apply sp_quiet.
  - by apply (sp_acquire _ (λ b, m_bind k (next b))).
  - by apply (sp_release _ (λ b, m_bind k (next b))).
  - by apply (sp_spawn _ claim (λ b, m_bind k (next b))).
Qed.

Definition empty_handed {A} (_ : A) (h : bool) : Prop := h = false.

Lemma slot_dispatch fuel : slot_prog empty_handed false (dispatch clock cfg fuel).
Proof.
  induction fuel as [|fuel IH]; [by apply sp_done|]. cbn [dispatch].
  apply (sp_acquire _ (λ ok : bool, if negb ok then _ else _)); [|by apply sp_done].
  apply slot_prog_quiet; [apply quiet_now|]. intros now.
  apply slot_prog_quiet; [apply quiet_get|]. intros sd.
  apply slot_prog_quiet; [apply quiet_call|]. intros [claim|e].
  - apply slot_prog_quiet; [apply quiet_get|]. intros sd'. destruct (hasConflictingLocalRun claim sd').
    + apply slot_prog_quiet; [apply quiet_call|].
      intros [u|e]; [|destruct (isLeaseLoss e)]; apply (sp_release _ (λ _, _)); try done. by apply sp_done.
    + by apply (sp_spawn _ claim (λ _, _)).
  - apply (sp_release _ (λ _, _)). destruct (Is e ErrNoReadyTask); by apply sp_done.
Qed.
Lemma slot_iteration fuel t : slot_prog empty_handed false (run_iteration clock cfg controller fuel t).
Proof.
  assert (∀ e, slot_prog empty_handed false (loop_error (S := S) e)) as Herr.
  { intros e. apply slot_prog_quiet; [apply quiet_get|]. intros sd. by apply sp_done. }
  unfold run_iteration. apply slot_prog_quiet; [apply quiet_recover|]. intros [t' [e|]]; [apply Herr|]. cbn [snd].
  apply slot_prog_quiet; [apply quiet_process|]. intros [[e|]|]; [apply Herr| |by apply sp_done].
  eapply slot_prog_bind; [apply slot_dispatch|]. intros [[e|]|] h ->; [apply Herr|by apply sp_done..].
Qed.

(** The end of a run: updates, the deferred calls one by one, nothing. *)
Inductive EndStage := SUpdating | SUnregistered | SReleased | SGone.
Inductive end_prog (g : positive) (r : ClaimRun) : EndStage → M S unit → Prop :=
| ep_quiet B (act : World S → World S * B) next :
    quiet_act B act → (∀ b, end_prog g r SUpdating (next b)) → end_prog g r SUpdating (MAct act next)
| ep_unregister next :
    end_prog g r SUnregistered (next tt) →
    end_prog g r SUpdating (m_bind next (modSched (unregisterActiveClaim r)))
| ep_release next :
    end_prog g r SReleased (next tt) → end_prog g r SUnregistered (m_bind next (modSched (release_of g)))
| ep_exit next : end_prog g r SGone (next tt) → end_prog g r SReleased (m_bind next (modSched (exit_of g)))
| ep_gone : end_prog g r SGone (MDone tt).

Lemma end_prog_ended g r o e : end_prog g r SUpdating (run_ended clock g r o e).
Proof.
  unfold run_ended. pose proof (quiet_finish r o e) as Hq.
  induction (finish_claim clock r o e) as [u|C act next IH].
  - cbn. apply (ep_unregister _ _ (λ _, _)), (ep_release _ _ (λ _, _)), (ep_exit _ _ MDone), ep_gone.
  - destruct Hq as [Ha Hn]. apply ep_quiet; [done|]. intros b. apply IH, Hn.
Qed.

(** What a stage says of the goroutine. *)
Definition at_stage (g : positive) (r : ClaimRun) (st : EndStage) (sd : Sched) : Prop :=
  match st with
  | SUpdating => ∃ r', sd_runs sd !! g = Some r' ∧ g_claim r' = g_claim r ∧ g_phase r' = PEnding
  | SUnregistered =>
    (∃ r', sd_runs sd !! g = Some r' ∧ g_claim r' = g_claim r ∧ g_phase r' = PEnding) ∧ unreferenced g sd
  | SReleased => ∃ r', sd_runs sd !! g = Some r' ∧ g_phase r' = PReleased
  | SGone => sd_runs sd !! g = None ∧ (g < sd_started sd)%positive
  end.

(** A change that touches this goroutine neither in the map of runs nor in [active]. *)
Definition spares (g : positive) (sd sd' : Sched) : Prop :=
  role <$> sd_runs sd' !! g = role <$> sd_runs sd !! g ∧ (sd_started sd ≤ sd_started sd')%positive ∧
  (unreferenced g sd → unreferenced g sd').

Lemma spares_same g sd sd' : same_runs sd sd' → spares g sd sd'.
Proof. intros (_ & E2 & E3 & E4). split_and!; [done|by rewrite E3|]. intros Hu id. rewrite E2. apply Hu. Qed.
Lemma at_stage_spares g r st sd sd' : spares g sd sd' → at_stage g r st sd → at_stage g r st sd'.
Proof.
  intros (Hr & Hs & Hu).
  assert (∀ r', sd_runs sd !! g = Some r' →
    ∃ r1, sd_runs sd' !! g = Some r1 ∧ g_claim r1 = g_claim r' ∧ g_phase r1 = g_phase r') as Hlook.
  { intros r' E. rewrite E in Hr. destruct (sd_runs sd' !! g) as [r1|]; [|done]. exists r1.
    apply (inj Some) in Hr. injection Hr as <- <-. done. }
  destruct st; cbn.
  - intros (r' & (r1 & ? & ? & ?)%Hlook & ? & ?). exists r1. split_and!; congruence.
  - intros ((r' & (r1 & ? & ? & ?)%Hlook & ? & ?) & Hn). split; [|by apply Hu]. exists r1. split_and!; congruence.
  - intros (r' & (r1 & ? & ? & ?)%Hlook & ?). exists r1. split_and!; congruence.
  - intros [E Hlt]. rewrite E in Hr. split; [by destruct (sd_runs sd' !! g)|lia].
Qed.

(** The invariant of a configuration. *)
Record ConfigInv (c : Config S) : Prop := {
  ci_slots : ∃ h : bool,
    match cf_poll c with None => h = false | Some m => slot_prog empty_handed h m end ∧
    SlotInv (cfg_MaxConcurrentRuns cfg) (if h then 1 else 0) (w_sched (cf_world c));
  ci_renew : ∀ g m, cf_renew c !! g = Some m → quiet m;
  ci_end : ∀ g m, cf_end c !! g = Some m →
    ∃ r st, end_prog g r st m ∧ at_stage g r st (w_sched (cf_world c));
}.

Let max := cfg_MaxConcurrentRuns cfg.
Definition in_hand (h : bool) : Z := if h then 1 else 0.

(** A goroutine of the invariant has a name that was given out. *)
Lemma at_stage_named x g r st sd : SlotInv max x sd → at_stage g r st sd → (g < sd_started sd)%positive.
Proof.
  intros HI. destruct st; cbn; [intros (r' & Hr & _)|intros ((r' & Hr & _) & _)|intros (r' & Hr & _)|by intros [_ ?]];
    apply (si_names _ _ _ HI); eauto.
Qed.

(** A change at another goroutine. *)
Lemma spares_insert g g' r sd :
  g ≠ g' → spares g sd (sd <| sd_runs ::= <[g' := r]> |>).
Proof. intros Hne. split_and!; [|done..]. cbn. by rewrite lookup_insert_ne. Qed.
Lemma spares_alter g g' f sd :
  g ≠ g' → spares g sd (sd <| sd_runs ::= alter f g' |>).
Proof. intros Hne. split_and!; [|done..]. cbn. by rewrite lookup_alter_ne. Qed.

(** The next action of the polling goroutine. *)
Lemma poll_next {A} (Q : A → bool → Prop) h (m : M S A) w :
  slot_prog Q h m → SlotInv max (in_hand h) (w_sched w) →
  match m with
  | MDone a => Q a h
  | MAct act next => ∃ h', slot_prog Q h' (next (act w).2) ∧ SlotInv max (in_hand h') (w_sched (act w).1) ∧
      ∀ g r st, at_stage g r st (w_sched w) → at_stage g r st (w_sched (act w).1)
  end.
Proof.
  intros Hp HI. destruct Hp as [h a Ha|h C act next Ha Hn|next H1 H2|next Hn|claim next Hn].
  - done.
  - exists h. split; [done|]. split; [by eapply SlotInv_same; [apply Ha|]|]. intros g r st. by apply at_stage_spares, spares_same.
  - cbn. destruct (Z.ltb_spec (sd_slots (w_sched w)) (cfg_MaxConcurrentRuns cfg)) as [Hlt|]; cbn.
    + exists true. split; [done|]. split; [by apply SlotInv_acquire|]. intros g r st. by apply at_stage_spares.
    + by exists false.
  - exists false. split; [done|]. split; [by apply SlotInv_free|]. intros g r st. cbn. apply at_stage_spares.
    unfold free_slot. by case_match.
  - exists false. split; [done|]. split; [by apply (SlotInv_spawn max)|]. intros g r st Hst. cbn.
    pose proof (at_stage_named _ _ _ _ _ HI Hst) as Hlt. revert Hst. apply at_stage_spares.
    split_and!; cbn; [rewrite lookup_insert_ne by lia; done|lia|done].
Qed.

(** The next action of an ending run. *)
Lemma end_next x g r st (m : M S unit) w :
  0 ≤ x → end_prog g r st m → SlotInv max x (w_sched w) → at_stage g r st (w_sched w) →
  match m with
  | MDone _ => True
  | MAct act next => ∃ st', end_prog g r st' (next (act w).2) ∧ SlotInv max x (w_sched (act w).1) ∧
      at_stage g r st' (w_sched (act w).1) ∧ ∀ g', g' ≠ g → spares g' (w_sched w) (w_sched (act w).1)
  end.
Proof.
  intros Hx Hp HI Hst. destruct Hp as [C act next Ha Hn|next Hn|next Hn|next Hn|]; [| | | |done]; cbn in Hst.
  - exists SUpdating. pose proof (spares_same g _ _ (Ha w)) as Hs.
    split; [done|]. split; [by eapply SlotInv_same; [apply Ha|]|]. split.
    + by eapply (at_stage_spares g r SUpdating).
    + intros g' _. by apply spares_same.
  - exists SUnregistered. destruct Hst as (r' & Hr & Hc & Hph).
    split; [done|]. split; [by apply SlotInv_unregister|]. split.
    + split; [by exists r'|]. by eapply unregister_unreferenced.
    + intros g' _. split_and!; [done..|]. intros Hu id. cbn. intros [_ Ha]%lookup_delete_Some. by apply (Hu id).
  - exists SReleased. destruct Hst as ((r' & Hr & Hc & Hph) & Hu).
    split; [done|]. split; [|split].
    + eapply SlotInv_release; [done..| |done]. unfold holds_slot. congruence.
    + exists (r' <| g_phase := PReleased |>). cbn. split; [|done]. rewrite lookup_alter_eq.
      unfold free_slot. case_match; cbn; by rewrite Hr.
    + intros g' Hne. unfold release_of. cbn. apply (spares_alter g' g (λ r, r <| g_phase := PReleased |>) (free_slot (w_sched w))) in Hne.
      unfold free_slot in *. by case_match.
  - exists SGone. destruct Hst as (r' & Hr & Hph). split; [done|]. split; [by eapply SlotInv_exit|split].
    + split; cbn; [by rewrite lookup_delete_eq|]. apply (si_names _ _ _ HI). eauto.
    + intros g' Hne. split_and!; [|done..]. cbn. by rewrite lookup_delete_ne.
Qed.

(** The other goroutines' share of the invariant survives what spares them. *)
Definition ends_ok (en : gmap positive (M S unit)) (sd : Sched) : Prop :=
  ∀ g m, en !! g = Some m → ∃ r st, end_prog g r st m ∧ at_stage g r st sd.
Lemma ends_ok_impl en sd sd' :
  (∀ g r st, is_Some (en !! g) → at_stage g r st sd → at_stage g r st sd') → ends_ok en sd → ends_ok en sd'.
Proof. intros Hi He g m Hm. destruct (He g m Hm) as (r & st & Hp & Hs). exists r, st. split; [done|]. by apply Hi; [eauto|]. Qed.
Lemma ends_ok_insert en sd sd' g m r st :
  ends_ok en sd → end_prog g r st m → at_stage g r st sd' → (∀ g', g' ≠ g → spares g' sd sd') →
  ends_ok (<[g := m]> en) sd'.
Proof.
  intros He Hp Hst Hs g' m'. rewrite lookup_insert_Some. intros [[<- <-]|[Hne Hm']]; [by exists r, st|].
  destruct (He g' m' Hm') as (r' & st' & Hp' & Hst'). exists r', st'. split; [done|].
  by eapply at_stage_spares; [apply Hs|].
Qed.

(** A goroutine in [PStarting] or [PRunning] is not ending. *)
Lemma not_ending g r r' st sd :
  sd_runs sd !! g = Some r → g_phase r ≠ PEnding → g_phase r ≠ PReleased → ¬ at_stage g r' st sd.
Proof.
  intros Hg H1 H2. destruct st; cbn; [intros (? & ? & _ & ?)|intros ((? & ? & _ & ?) & _)|intros (? & ? & ?)|intros [? _]];
    congruence.
Qed.

Lemma sched_step_inv c c' :
  sched_step clock cfg controller env c c' → ConfigInv c → ConfigInv c'.
Proof.
  intros Hs [(h & Hpo & HI) Hrn Hen]. change (ends_ok (cf_end c) (w_sched (cf_world c))) in Hen.
  change (SlotInv max (in_hand h) (w_sched (cf_world c))) in HI.
  assert (0 ≤ in_hand h) as Hx by by destruct h.
  destruct Hs as [fuel t w rn en|w B act next rn en|w res rn en|g r w po rn en Hg Hph|g r w po rn en Hg Hph He Hr
    |g w B act next po rn en Hg|g w po rn en Hg|g r o e w po rn en Hg Hph Hr|g w B act next po rn en Hg
    |g w po rn en Hg|e w po rn en|s' w po rn en He]; cbn in *.
  - subst h. split; [|done..]. exists false. split; [apply slot_iteration|done].
  - destruct (poll_next _ _ _ w Hpo HI) as (h' & Hp' & HI' & Hst). split; [by exists h'|done|].
    apply (ends_ok_impl _ (w_sched w)); [|done]. intros g r st _. apply Hst.
  - apply (poll_next _ _ _ w) in Hpo as ->; [|done]. split; [by exists false|done..].
  - split; [|done|].
    + exists h. split; [done|]. by apply SlotInv_register.
    + apply (ends_ok_impl _ (w_sched w)); [|done]. intros g' r' st _ Hst.
      destruct (decide (g' = g)) as [->|Hne]; [by eapply not_ending in Hst; rewrite ?Hph|].
      revert Hst. apply at_stage_spares. split_and!; cbn; [by rewrite lookup_insert_ne|done|].
      intros Hu id. cbn. rewrite lookup_insert_Some. intros [[_ <-]|[_ Ha]]; [done|by apply (Hu id)].
  - split; [by exists h| |done]. intros g' m. cbn. rewrite lookup_insert_Some.
    intros [[<- <-]|[_ Hm]]; [apply quiet_renew|by eapply Hrn].
  - destruct (Hrn _ _ Hg) as [Ha Hn]. split.
    + exists h. split; [done|]. by eapply SlotInv_same; [apply Ha|].
    + intros g' m. cbn. rewrite lookup_insert_Some. intros [[<- <-]|[_ Hm]]; [apply Hn|by eapply Hrn].
    + apply (ends_ok_impl _ (w_sched w)); [|done]. intros g' r' st _. by apply at_stage_spares, spares_same.
  - split; [by exists h| |done]. intros g' m. cbn. intros [_ Hm]%lookup_delete_Some. by eapply Hrn.
  - unfold begin_end. assert (holds_slot r) as Hh by (unfold holds_slot; congruence).
    split; [|done|]; cbn.
    + exists h. split; [done|]. pose proof (SlotInv_phase _ _ _ g r PEnding HI Hg Hh) as HI'.
      unfold update_field in *. cbn in *. rewrite (alter_insert_run _ _ r) by done. by apply HI'.
    + apply (ends_ok_insert _ (w_sched w) _ _ _ r SUpdating); [done|apply end_prog_ended| |].
      * exists (r <| g_phase := PEnding |>). cbn. by rewrite lookup_alter_eq, Hg.
      * intros g' Hne. by apply spares_alter.
  - destruct (Hen _ _ Hg) as (r & st & Hp & Hst).
    destruct (end_next (in_hand h) g r st _ w Hx Hp HI Hst) as (st' & Hp' & HI' & Hst' & Hsp).
    split; [by exists h|done|]. by eapply ends_ok_insert.
  - split; [by exists h|done|]. intros g' m. cbn. intros [_ Hm]%lookup_delete_Some. by eapply Hen.
  - assert (same_runs (w_sched w) (cancel_context e (w_sched w))) as Hs.
    { split_and!; [done..|]. intros g. simpl. rewrite lookup_fmap. destruct (sd_runs (w_sched w) !! g); [|done].
      cbn. by rewrite set_cause_role. }
    split; [|done|].
    + exists h. split; [done|]. by eapply SlotInv_same; [apply Hs|].
    + apply (ends_ok_impl _ (w_sched w)); [|done]. intros g' r' st _. by apply at_stage_spares, spares_same.
  - split; [by exists h|done..].
Qed.
End invariant.

Lemma steps_ConfigInv {S : Type} `{OrchStore S} clock cfg controller env (s : S) c :
  0 < cfg_MaxConcurrentRuns cfg →
  rtc (sched_step clock cfg controller env) (idle (NewWorld s)) c → ConfigInv cfg c.
Proof.
  intros Hmax Hs.
  assert (HI0 : ConfigInv cfg (idle (NewWorld s))).
  { split; [|intros g m; cbn; by intros ?%lookup_empty_Some..]. exists false. split; [done|].
    split; cbn; [done|lia|by intros g [? ?%lookup_empty_Some]|by intros id g ?%lookup_empty_Some]. }
  revert HI0 Hs. generalize (idle (NewWorld s)). intros c0 HI0 Hs.
  induction Hs as [|c1 c2 c3 H12 _ IH]; [done|]. apply IH. by eapply sched_step_inv.
Qed.

(** C31: the concurrency limit: in every interleaving of the single actions of the
    polling loop, renewals, ending runs, cancellation and other workers, the occupied
    slots never exceed MaxConcurrentRuns and are the run goroutines that have not yet
    given theirs back, plus at most one that the polling goroutine has acquired and not
    yet handed over; between two iterations of the polling loop there is none of those.
    Every entry of the active map belongs to a live goroutine of that task that still
    holds its slot. *)
Theorem scheduler_slots_bounded {S : Type} `{OrchStore S} clock cfg controller env (s : S) c :
  0 < cfg_MaxConcurrentRuns cfg →
  rtc (sched_step clock cfg controller env) (idle (NewWorld s)) c →
  let sd := w_sched (cf_world c) in
  Z.of_nat (size (holding sd)) ≤ sd_slots sd ≤ Z.of_nat (size (holding sd)) + 1 ∧
  sd_slots sd ≤ cfg_MaxConcurrentRuns cfg ∧
  (cf_poll c = None → sd_slots sd = Z.of_nat (size (holding sd))) ∧
  ∀ id g, sd_active sd !! id = Some g →
    ∃ r, sd_runs sd !! g = Some r ∧ task_ID (claimed_Task (g_claim r)) = id ∧ holds_slot r.
Proof.
  intros Hmax Hs sd. destruct (steps_ConfigInv _ _ _ _ _ _ Hmax Hs) as [(h & Hpo & [H1 H2 H3 H4]) _ _].
  split_and!; [destruct h; subst sd; lia..|done| |done].
  intros Hn. rewrite Hn in Hpo. subst h. unfold sd. lia.
Qed.

(** A scheduler over the demonstration store, after one iteration of its loop, and in
    the middle of it: a slot is taken and no goroutine is started yet. *)
Definition demo_cfg : SchedulerConfig :=
  normalizeConfig 1000 ((DefaultSchedulerConfig 1000) <| cfg_WorkerID := "w9" |>
                          <| cfg_MaxConcurrentRuns := 2 |>).
Definition demo_world : World Store := NewWorld demo_completed.
Definition demo_dispatched : World Store := (run_iteration (clock 500) demo_cfg None 10 0 demo_world).1.

Fixpoint poll_acts (n : nat) (c : Config Store) : Config Store :=
  match n, cf_poll c with
  | Datatypes.S n, Some (MAct act next) =>
    let '(w, b) := act (cf_world c) in poll_acts n (MkConfig w (Some (next b)) (cf_renew c) (cf_end c))
  | _, _ => c
  end.
Lemma poll_acts_steps clk cfg controller env n c :
  rtc (sched_step clk cfg controller env) c (poll_acts n c).
Proof.
  revert c. induction n as [|n IH]; intros [w [[res|B act next]|] rn en]; try apply rtc_refl.
  eapply rtc_l; [apply ss_poll_act|]. cbn. destruct (act w) as [w1 b]. apply IH.
Qed.
Definition demo_acquired : Config Store :=
  poll_acts 6 (MkConfig demo_world (Some (run_iteration (clock 500) demo_cfg None 10 0)) ∅ ∅).

Lemma scheduler_slots_bounded_witness :
  (sd_slots (w_sched demo_dispatched) = 1 ∧ size (holding (w_sched demo_dispatched)) = 1%nat) ∧
  sd_slots (w_sched (cf_world demo_acquired)) = 1 ∧ size (holding (w_sched (cf_world demo_acquired))) = 0%nat ∧
  sd_slots (w_sched (cf_world demo_acquired)) ≤ cfg_MaxConcurrentRuns demo_cfg.
Proof.
  split; [split; vm_compute; reflexivity|]. split; [vm_compute; reflexivity|]. split; [vm_compute; reflexivity|].
  apply (scheduler_slots_bounded (clock 500) demo_cfg None steps demo_completed demo_acquired);
    [reflexivity|].
  eapply rtc_l; [apply (ss_poll _ _ _ _ 10 0)|]. apply poll_acts_steps.
Defined.

(** ** Losing the lease *)

Section lost_lease.
Context {S : Type} `{OrchStoreLaws S}.
Context (clock : nat → Time) (cfg : SchedulerConfig).

(** C32: a run that lost its lease is inert: whatever its runner returned, the
    end of the run leaves the store exactly as it was. *)
Theorem lost_lease_run_is_inert g r outcome runErr (w : World S) :
  ¬ owns (w_store w) (task_ID (claimed_Task (g_claim r))) (lease_Token (claimed_Lease (g_claim r))) →
  w_store (run_ended clock g r outcome runErr w).1 = w_store w.
Proof.
  intros Hno. unfold run_ended, end_run, releaseSlot, finish_claim. run_m. simpl.
  destruct (effective_error r runErr) as [e|].
  - destruct (_ && _ && _); simpl.
    + match goal with |- context [os_ReleaseLease ?wl _ _ _] =>
        destruct (release_fenced wl _ _ _ Hno) as (e' & -> & _) end.
      simpl. repeat case_match; simplify_eq/=; reflexivity.
    + match goal with |- context [os_FailTask ?wl _ _ ?x ?now _] =>
        destruct (fail_fenced wl _ _ x now _ Hno) as (e' & -> & _) end.
      simpl. repeat case_match; simplify_eq/=; reflexivity.
  - simpl. match goal with |- context [os_CompleteTask ?wl _ _ ?o ?now _] =>
      destruct (complete_fenced wl _ _ o now _ Hno) as (e' & -> & _) end.
    simpl. repeat case_match; simplify_eq/=; reflexivity.
Qed.
End lost_lease.

(** ** The laws hold for the in-memory store *)

Definition mem_owns (s : Store) (id tok : string) : Prop :=
  ∃ l, st_leases s !! id = Some l ∧ lease_Token l = tok.

Lemma validateLease_fenced w id tok now s :
  ¬ mem_owns s id tok →
  ∃ e, validateLeaseLocked w id tok now s = Err e ∧
       (isLeaseLoss e = true ∨ Is e ErrTaskNotFound = true).
Proof.
  intros Hno. unfold validateLeaseLocked. destruct (st_tasks s !! id); [|eauto].
  destruct (st_leases s !! id) as [l|] eqn:Hl; [|eauto].
  destruct (String.eqb_spec (lease_Token l) tok) as [Htok|]; [|simpl; eauto].
  destruct Hno. by exists l.
Qed.

#[export] Program Instance MemStore_Laws : OrchStoreLaws Store := {|
  store_ok := Inv;
  owns := mem_owns;
|}.
Next Obligation.
  intros wall req s s' c HI Hc.
  pose proof (claim_ok_claimable wall "" req s s' c HI (or_intror Hc)) as (k & t & _ & _ & Hn).
  destruct Hn as (_ & Hl & Hid & _). split; [|rewrite Hid; by exists (claimed_Lease c)].
  pose proof (run_op_Inv wall (OpClaimReadyTask req) s HI) as HI'. simpl in HI', Hc.
  by rewrite Hc in HI'.
Qed.
Next Obligation.
  intros wall req s s' c HI Hc.
  pose proof (claim_ok_claimable wall "" req s s' c HI (or_intror Hc)) as (k & t & Ht & Hcl & Hn).
  destruct Hn as (_ & _ & Hid & _). rewrite Hid. unfold claimable in Hcl. rewrite Ht in Hcl.
  rewrite !andb_true_iff in Hcl. destruct Hcl as (((((Hex & _) & _) & _) & _) & _).
  unfold containsString in Hex. by rewrite negb_true_iff, bool_decide_eq_false in Hex.
Qed.
Next Obligation.
  intros wall id tok o now s Hno. simpl. unfold CompleteTask.
  destruct (validateLease_fenced (wall 0%nat) id tok now s Hno) as (e & -> & ?). eauto.
Qed.
Next Obligation.
  intros wall id tok re now s Hno. simpl. unfold FailTask.
  destruct (validateLease_fenced (wall 0%nat) id tok now s Hno) as (e & -> & ?). eauto.
Qed.
Next Obligation.
  intros wall id tok s Hno. simpl. unfold ReleaseLease.
  destruct (st_leases s !! id) as [l|] eqn:Hl; [|eauto].
  destruct (String.eqb_spec (lease_Token l) tok) as [Htok|]; [|simpl; eauto].
  destruct Hno. by exists l.
Qed.
Next Obligation.
  intros wall id tok ttl now s Hno Httl. simpl. unfold RenewLease.
  rewrite (proj2 (Z.leb_gt _ _) Httl).
  destruct (st_leases s !! id) as [l|] eqn:Hl; [|eauto].
  destruct (String.eqb_spec (lease_Token l) tok) as [Htok|]; [|simpl; eauto].
  destruct Hno. by exists l.
Qed.

(** The first worker's run of the demonstration finishes after its lease was
    recovered and given to another worker. *)
Definition late_run : ClaimRun :=
  MkClaimRun
    (MkClaimedTask
       (MkTask "task-1" "build" "subject" "" "input" TaskRunning 1 2 ["task-2"] [] ∅ None None "" 50 50 0 0)
       (MkLease "lease-1" "task-1" "w1" "lease-1" 100 110) None) PRunning None None.

Lemma lost_lease_run_is_inert_witness :
  w_store (run_ended (clock 202) 1 late_run None None (NewWorld demo_reclaimed)).1 = demo_reclaimed.
Proof.
  apply (lost_lease_run_is_inert (S := Store) (clock 202) 1 late_run None None (NewWorld demo_reclaimed)).
  intros (l & Hl & Htok). vm_compute in Hl. injection Hl as <-. discriminate.
Defined.

(** ** The dispatch loop ends *)

Section dispatch.
Context {S : Type} `{OrchStoreLaws S}.
Context (clock : nat → Time) (cfg : SchedulerConfig).

(** The claim request excludes what is registered, so a claim never conflicts. *)
Lemma claim_no_conflict wall now s s' c sd :
  store_ok s → os_ClaimReadyTask wall (dispatch_request cfg now sd) s = (s', Ok c) →
  hasConflictingLocalRun c sd = false.
Proof.
  intros Hok Hc. pose proof (claim_excludes _ _ _ _ _ Hok Hc) as Hex. simpl in Hex.
  unfold hasConflictingLocalRun, activeRun. destruct (claimed_Run c); [|done].
  destruct (sd_active sd !! task_ID (claimed_Task c)) as [g|] eqn:E; [|done].
  destruct Hex. unfold activeTaskIDs. apply list_elem_of_fmap. exists (task_ID (claimed_Task c), g).
  split; [done|]. by apply elem_of_map_to_list.
Qed.

Lemma dispatch_ends fuel w :
  store_ok (w_store w) → sd_slots (w_sched w) ≤ cfg_MaxConcurrentRuns cfg →
  cfg_MaxConcurrentRuns cfg - sd_slots (w_sched w) < Z.of_nat fuel →
  is_Some (dispatch clock cfg fuel w).2.
Proof.
  revert w. induction fuel as [|fuel IH]; intros w Hok Hle Hf; [lia|].
  cbn [dispatch]. unfold tryAcquireSlot, releaseSlot, spawn. run_m.
  destruct (Z.ltb_spec (sd_slots (w_sched w)) (cfg_MaxConcurrentRuns cfg)) as [Hlt|]; [|simpl; eauto].
  simpl. match goal with |- context [os_ClaimReadyTask ?wl ?rq ?s0] =>
    destruct (os_ClaimReadyTask wl rq s0) as [s1 [c|e]] eqn:Hc end; simpl.
  - match type of Hc with context [dispatch_request cfg ?now ?sd] =>
      rewrite (claim_no_conflict _ now _ _ _ sd Hok Hc) end.
    apply IH; simpl; [by eapply claim_owns|lia..].
  - case_match; eauto.
Qed.

(** The dispatch loop ends: from every state the scheduler can reach, run without
    interference, one more iteration than there are free slots is enough, because the
    exclusion list makes the conflict branch (the only one that gives its slot back and
    goes on) unreachable. *)
Theorem dispatch_terminates controller env (s : S) c fuel :
  0 < cfg_MaxConcurrentRuns cfg →
  rtc (sched_step clock cfg controller env) (idle (NewWorld s)) c → store_ok (w_store (cf_world c)) →
  cfg_MaxConcurrentRuns cfg - sd_slots (w_sched (cf_world c)) < Z.of_nat fuel →
  is_Some (dispatch clock cfg fuel (cf_world c)).2.
Proof.
  intros Hmax Hs Hok Hf. apply dispatch_ends; [done| |done].
  destruct (steps_ConfigInv _ _ _ _ _ _ Hmax Hs) as [(h & _ & HI) _ _]. by destruct HI.
Qed.
End dispatch.

Lemma dispatch_terminates_witness :
  is_Some (dispatch (clock 500) demo_cfg 3 demo_world).2.
Proof.
  apply (dispatch_terminates (S := Store) (clock 500) demo_cfg None steps demo_completed (idle demo_world)).
  - reflexivity.
  - apply rtc_refl.
  - apply reachable_inv. eapply reachable_steps; [exact demo_reachable|].
    apply (run_ops_steps (clock 105) [OpCompleteTask "task-1" "lease-1" None 105]).
  - vm_compute. reflexivity.
Defined.

(** ** The command loop ends *)

Definition pending_count (s : Store) : nat :=
  size (filter (λ kv : string * CommandStatus, kv.2 = CommandPending) (cmd_Status <$> st_commands s)).

Lemma pending_count_statuses s s' :
  cmd_Status <$> st_commands s' = cmd_Status <$> st_commands s → pending_count s' = pending_count s.
Proof. unfold pending_count. by intros ->. Qed.

Lemma pending_count_put s id c c' :
  st_commands s !! id = Some c → cmd_Status c' ≠ CommandPending →
  pending_count (putCommand id c' s) =
    if decide (cmd_Status c = CommandPending) then pred (pending_count s) else pending_count s.
Proof.
  intros Hc Hst. unfold pending_count. simpl. rewrite fmap_insert.
  rewrite map_filter_insert_False by done. rewrite map_filter_delete, map_size_delete.
  rewrite map_lookup_filter, lookup_fmap, Hc. simpl.
  case_decide as Hd; simpl.
  - rewrite option_guard_True by done. done.
  - rewrite option_guard_False by done. done.
Qed.

(** Claiming takes one command out of the pending ones. *)
Lemma claim_pending_count ids worker now s s' c :
  claim_command_scan ids worker now s = (s', Ok c) →
  Datatypes.S (pending_count s') = pending_count s.
Proof.
  revert s. induction ids as [|id ids IH]; intros s; cbn [claim_command_scan]; [done|].
  destruct (st_commands s !! id) as [c0|] eqn:Hc; [|apply IH].
  destruct (decide (cmd_Status c0 = CommandPending)) as [Hp|Hp].
  2: { rewrite bool_decide_eq_false_2 by done. apply IH. }
  rewrite bool_decide_eq_true_2 by done. simpl negb. cbv iota zeta.
  set (s1 := putCommand id (refreshCommandTargetLocked s c0) s).
  assert (Hs1 : pending_count s1 = pending_count s).
  { apply pending_count_statuses. unfold s1. simpl. rewrite fmap_insert, refresh_core. simpl.
    apply insert_id. by rewrite lookup_fmap, Hc. }
  destruct (targets_other worker (refreshCommandTargetLocked s c0)); [by intros ->%IH|].
  intros [-> _]%pair_ok_inj. unfold publishCommandClaimed.
  match goal with |- context [publish ?e ?s0] =>
    destruct (same_state_cmds _ _ (publish_same e s0)) as [E _] end.
  rewrite (pending_count_statuses _ _ (f_equal (fmap cmd_Status) E)).
  rewrite (pending_count_put s1 id (refreshCommandTargetLocked s c0)); [|unfold s1; simpl; by rewrite lookup_insert_eq|done].
  rewrite decide_True by (by rewrite refresh_core). rewrite Hs1.
  assert (pending_count s ≠ 0%nat); [|lia]. unfold pending_count.
  intros E0%map_size_empty_inv. apply map_eq_iff with (i := id) in E0.
  rewrite map_lookup_filter, lookup_fmap, Hc, lookup_empty in E0. simpl in E0.
  by rewrite option_guard_True in E0.
Qed.

(** A program that adds no pending command. *)
Definition calm {A} (m : M Store A) : Prop :=
  all_acts (λ _ act, ∀ w, (pending_count (w_store (act w).1) ≤ pending_count (w_store w))%nat) m.

Lemma calm_exec {A} (m : M Store A) w :
  calm m → (pending_count (w_store (m w).1) ≤ pending_count (w_store w))%nat.
Proof.
  set (R w w' := (pending_count (w_store w') ≤ pending_count (w_store w))%nat).
  assert (PreOrder R) by (unfold R; split; [by intros ?|intros a b c ? ?; lia]).
  exact (all_acts_exec R m w).
Qed.
Lemma calm_ret {A} (a : A) : calm (mret a).
Proof. done. Qed.
Lemma calm_bind {A B} (m : M Store A) (k : A → M Store B) :
  calm m → (∀ a, calm (k a)) → calm (m ≫= k).
Proof. apply all_acts_bind. Qed.
Lemma calm_mod f : calm (modSched f).
Proof. by split. Qed.
Lemma calm_now c : calm (Now c).
Proof. by split. Qed.
Lemma calm_get : calm getSched.
Proof. by split. Qed.
Lemma calm_store {A} (f : Store → A) : calm (getStore f).
Proof. by split. Qed.
Lemma calm_call {A} c (f : (nat → Time) → Store → Store * A) :
  (∀ wall s, (pending_count (f wall s).1 ≤ pending_count s)%nat) → calm (call c f).
Proof.
  intros Hf. split; [|done]. intros w. specialize (Hf (λ i, c (w_tick w + i)%nat) (w_store w)).
  by destruct (f _ _).
Qed.

Lemma same_cmds_pending s s' : same_cmds s s' → pending_count s' = pending_count s.
Proof. intros [E _]. apply pending_count_statuses. by rewrite E. Qed.

(** The task operations a command triggers. *)
Lemma task_op_pending wall op s :
  command_op op = false → (pending_count (run_op wall op s) ≤ pending_count s)%nat.
Proof. intros H. by rewrite (same_cmds_pending _ _ (task_op_cmds wall op s H)). Qed.

Lemma HandleCommand_pending wall id tok by_ now s :
  (pending_count (HandleCommand wall id tok by_ now s).1 ≤ pending_count s)%nat.
Proof.
  unfold HandleCommand. destruct (st_commands s !! id) as [c|] eqn:Hc; [|simpl; lia].
  case_match; [simpl; lia|]. unfold publishCommandHandled. simpl fst.
  match goal with |- context [publish ?e ?s0] =>
    rewrite (same_cmds_pending _ _ (same_state_cmds _ _ (publish_same e s0))) end.
  rewrite (pending_count_put _ _ c) by done. case_decide; lia.
Qed.

Section command_loop.
Context (clk : nat → Time) (cfg : SchedulerConfig).
Context (controller : option (Task → RunRef → error → option error)).

Ltac calm := repeat first
  [ apply calm_ret | apply calm_now | apply calm_get | apply calm_store | apply calm_mod
  | apply calm_bind; [|intros ?] | case_match | assumption ].

Lemma calm_remote task run e : calm (cancelRemoteRun (S := Store) controller task run e).
Proof. unfold cancelRemoteRun. calm. Qed.

Lemma calm_handle ops c :
  os_commands = Some ops → calm (handleCommand clk cfg controller ops c).
Proof.
  intros [= <-]. unfold handleCommand, applyCancelTask, applyAbortRun, applyRetryTask, cancelRun.
  calm; try apply calm_remote; apply calm_call; intros wall s; simpl;
    first [ apply HandleCommand_pending
          | by apply (task_op_pending wall (OpCancelTask _ _ _ _))
          | by apply (task_op_pending wall (OpFailTask _ _ _ _))
          | by apply (task_op_pending wall (OpRetryTask _ _ _)) ].
Qed.

Lemma process_loop_ends ops fuel w :
  os_commands = Some ops →
  (pending_count (w_store w) < fuel)%nat →
  is_Some (process_loop clk cfg controller fuel ops w).2.
Proof.
  intros Hops. revert w. induction fuel as [|fuel IH]; intros w Hf; [lia|].
  cbn [process_loop]. rewrite !exec_bind. unfold Now, atomic at 1. cbn [exec].
  rewrite exec_bind. unfold call at 1, atomic. cbn [exec].
  assert (co_ClaimPendingCommand ops = ClaimPendingCommand) as -> by (by injection Hops as <-).
  match goal with |- context [ClaimPendingCommand ?wl ?rq ?s0] =>
    destruct (ClaimPendingCommand wl rq s0) as [s1 [c|e]] eqn:Hc end; [|cbn; eauto].
  assert (Hlt : Datatypes.S (pending_count s1) = pending_count (w_store w)).
  { unfold ClaimPendingCommand in Hc. case_match; [done|]. by eapply claim_pending_count. }
  cbn [exec]. rewrite exec_bind.
  match goal with |- context [exec (handleCommand clk cfg controller ops c) ?w1] =>
    pose proof (calm_exec _ w1 (calm_handle ops c Hops)) as Hcalm;
    destruct (exec (handleCommand clk cfg controller ops c) w1) as [w2 [e|]] end; simpl in Hcalm.
  - run_m. destruct (co_ReleaseCommand _ _ _ _ _) as [s3 [u|e']]; simpl; [eauto|].
    case_match; simpl; eauto.
  - apply IH. lia.
Qed.

(** The command loop of the scheduler ends on the in-memory store: one
    iteration more than there are pending commands is enough, since every
    iteration either stops or turns a pending command into a handled one. *)
Theorem processCommands_terminates fuel (w : World Store) :
  (pending_count (w_store w) < fuel)%nat →
  is_Some (processCommands clk cfg controller fuel w).2.
Proof. unfold processCommands. simpl. intros Hf. by apply process_loop_ends. Qed.
End command_loop.

(** Two cancel commands, and a scheduler that takes both. *)
Definition two_commands : Store :=
  run_ops (clock 101)
    [ OpCreateCommand (MkCreateCommandRequest CommandCancelTask "task-2" "" "obsolete" ∅);
      OpCreateCommand (MkCreateCommandRequest CommandCancelTask "task-2" "" "again" ∅) ] demo.

Lemma processCommands_terminates_witness :
  pending_count two_commands = 2%nat ∧
  is_Some (processCommands (clock 400) demo_cfg None 3 (NewWorld two_commands)).2.
Proof.
  split; [vm_compute; reflexivity|].
  apply (processCommands_terminates (clock 400) demo_cfg None 3 (NewWorld two_commands)).
  vm_compute. do 3 constructor.
Defined.

(** ** What a cancel command achieves *)

Lemma claimed_command_handled wall id c by_ now s :
  st_commands s !! id = Some c → cmd_Status c = CommandClaimed →
  ∃ s' c', HandleCommand wall id (cmd_ClaimToken c) by_ now s = (s', Ok c') ∧
    (cmd_Status <$> st_commands s' !! id) = Some CommandHandled ∧ st_tasks s' = st_tasks s.
Proof.
  intros Hc Hst. unfold HandleCommand, claim_matches. rewrite Hc, Hst, String.eqb_refl. simpl.
  do 2 eexists. split; [reflexivity|]. unfold publishCommandHandled.
  match goal with |- context [publish ?e ?s0] =>
    pose proof (publish_same e s0) as Hp end.
  destruct (same_state_cmds _ _ Hp) as [-> _].
  destruct (same_state_fields _ _ Hp) as [-> _]. simpl. by rewrite lookup_insert_eq.
Qed.

(** Handling a cancel command for a pending task cancels the task with the
    command's reason and marks the command handled, whoever handles it. *)
Theorem cancel_command_cancels clk cfg controller s sd tick id c t :
  reachable s → st_commands s !! id = Some c → cmd_Status c = CommandClaimed →
  cmd_Kind c = CommandCancelTask →
  st_tasks s !! cmd_TaskID c = Some t → task_Status t = TaskPending →
  let '(w', err) := handleCommand clk cfg controller
     (MkCommandOps Store ClaimPendingCommand HandleCommand ReleaseCommand None) c (MkWorld s sd tick) in
  err = None ∧ (cmd_Status <$> st_commands (w_store w') !! id) = Some CommandHandled ∧
  ∃ t', st_tasks (w_store w') !! cmd_TaskID c = Some t' ∧ task_Status t' = TaskCanceled ∧
        task_LastError t' = cancelReason (cmd_Reason c).
Proof.
  intros HI%reachable_inv Hc Hst Hk Ht Hts.
  pose proof (Inv_task_key _ _ _ HI Ht) as Htid.
  destruct (ci_commands _ (inv_cmd _ HI) _ _ Hc) as (Hcid & _).
  unfold handleCommand, applyCancelTask, cancel_ignoring. run_m. rewrite Hk. simpl.
  unfold GetTask. rewrite Ht, Hts, Htid. simpl. unfold CancelTask, cancel_guard. rewrite Ht, Hts. simpl.
  match goal with |- context [publishTaskCanceled ?t1 ?s0] => set (s1 := publishTaskCanceled t1 s0) end.
  assert (Hc1 : st_commands s1 !! id = Some c).
  { unfold s1, publishTaskCanceled.
    match goal with |- context [publish ?e ?s0] =>
      destruct (same_state_cmds _ _ (publish_same e s0)) as [-> _] end. done. }
  match goal with |- context [HandleCommand ?wl _ _ _ ?now s1] =>
    destruct (claimed_command_handled wl id c (cfg_WorkerID cfg) now s1 Hc1 Hst) as (s2 & c2 & E & E1 & E2)
  end.
  rewrite Hcid, E. simpl. split; [done|]. split; [done|]. rewrite E2. unfold s1, publishTaskCanceled.
  match goal with |- context [publish ?e ?s0] => destruct (publish_fields e s0) as [-> _] end.
  simpl. rewrite lookup_insert_eq. by eexists.
Qed.

Lemma cancel_command_cancels_witness :
  let c := default (MkCommand "" CommandAbortRun "" "" "" "" ∅ CommandPending "" "" "" 0 0 0)
             (st_commands (run_op (clock 102) (OpClaimPendingCommand (MkClaimCommandRequest "w1" 102))
                             two_commands) !! "command-1") in
  let s := run_op (clock 102) (OpClaimPendingCommand (MkClaimCommandRequest "w1" 102)) two_commands in
  let w' := (handleCommand (clock 103) demo_cfg None
     (MkCommandOps Store ClaimPendingCommand HandleCommand ReleaseCommand None) c
     (MkWorld s new_sched 0)).1 in
  ∃ t', st_tasks (w_store w') !! "task-2" = Some t' ∧ task_Status t' = TaskCanceled ∧
        task_LastError t' = "obsolete".
Proof.
  intros c s.
  destruct (st_tasks s !! "task-2") as [t|] eqn:Ht; [|vm_compute in Ht; discriminate].
  pose proof (cancel_command_cancels (clock 103) demo_cfg None s new_sched 0 "command-1" c t) as H.
  destruct (handleCommand _ _ _ _ _ _) as [w' err]. simpl.
  destruct H as (_ & _ & H).
  - eapply reachable_steps; [|apply (run_ops_steps (clock 102)
      [OpClaimPendingCommand (MkClaimCommandRequest "w1" 102)] two_commands)].
    eapply reachable_steps; [exact demo_reachable|apply run_ops_steps].
  - vm_compute. reflexivity.
  - vm_compute. reflexivity.
  - vm_compute. reflexivity.
  - exact Ht.
  - vm_compute in Ht. injection Ht as <-. reflexivity.
  - exact H.
Defined.

(** ** Recovery sweeps *)

Lemma sweep_leases_store {S} `{OrchStore S} controller recs (w : World S) :
  w_store (sweep_leases controller recs w).1 = w_store w.
Proof.
  set (R (w w' : World S) := w_store w' = w_store w).
  assert (PreOrder R) by (unfold R; split; [by intros ?|intros a b c; congruence]).
  apply (all_acts_exec R). clear w. induction recs as [|rec recs IH]; [done|]. cbn [sweep_leases].
  apply all_acts_bind; [|intros c1; by apply all_acts_bind].
  unfold sweep_lease, cancelRun. case_match; [|done].
  by repeat first [apply all_acts_bind; [by split|intros ?] | case_match].
Qed.

(** A recovery pass leaves no stale claim among the commands it visits. *)
Lemma recover_command_stale id before now s j c :
  st_commands (recoverClaimedCommandLocked id before now s).1 !! j = Some c →
  stale_claim c before = false ∨ (st_commands s !! j = Some c ∧ j ≠ id).
Proof.
  unfold recoverClaimedCommandLocked. intros H. destruct (decide (j = id)) as [->|Hne].
  - left. destruct (st_commands s !! id) as [c0|] eqn:Hc; [|simpl in *; congruence].
    destruct (stale_claim c0 before) eqn:Hst; simpl in *; [|congruence].
    revert H. unfold publishCommandReleased.
    match goal with |- context [publish ?e ?s0] =>
      destruct (same_state_cmds _ _ (publish_same e s0)) as [-> _] end.
    simpl. rewrite lookup_insert_eq. by intros [= <-].
  - destruct (st_commands s !! id) as [c0|] eqn:Hc; [|by right].
    destruct (stale_claim c0 before) eqn:Hst; simpl in *; [|by right].
    revert H. unfold publishCommandReleased.
    match goal with |- context [publish ?e ?s0] =>
      destruct (same_state_cmds _ _ (publish_same e s0)) as [-> _] end.
    simpl. rewrite lookup_insert_ne by done. by right.
Qed.

Lemma recover_command_scan_stale ids before now s j c :
  st_commands (recover_command_scan ids before now s).1 !! j = Some c →
  stale_claim c before = false ∨ (st_commands s !! j = Some c ∧ j ∉ ids).
Proof.
  revert s. induction ids as [|id ids IH]; intros s; simpl; [set_solver|].
  pose proof (recover_command_stale id before now s j c) as H1.
  destruct (recoverClaimedCommandLocked id before now s) as [s1 r]. specialize (IH s1).
  destruct (recover_command_scan ids before now s1) as [s2 rs]. simpl in *.
  intros [?|[Hc Hnin]]%IH; [by left|]. destruct (H1 Hc) as [?|[? ?]]; [by left|]. set_solver.
Qed.

(** A recovery sweep at [now] over the in-memory store succeeds and leaves no
    lease that has expired and no command claim older than the claim timeout. *)
Theorem Sweep_clears_expired clk cfg controller now (w : World Store) :
  reachable (w_store w) → now ≠ zero_time → 0 < cfg_CommandClaimTimeout cfg →
  now - cfg_CommandClaimTimeout cfg ≠ 0 →
  let '(w', r) := Sweep clk cfg controller now w in
  is_ok r = true ∧
  (∀ id l, st_leases (w_store w') !! id = Some l → now < lease_ExpiresAt l) ∧
  (∀ id c, st_commands (w_store w') !! id = Some c →
     stale_claim c (now - cfg_CommandClaimTimeout cfg) = false).
Proof.
  intros HI%reachable_inv Hnow Hto Hto0. unfold Sweep.
  assert (Hz : IsZero now = false) by (by apply Z.eqb_neq). rewrite Hz. run_m. simpl.
  match goal with |- context [RecoverExpiredLeases ?wl now ?s0] =>
    pose proof (recover_leases_spec wl now s0 HI Hnow) as [Hl _];
    pose proof (run_op_Inv wl (OpRecoverExpiredLeases now) s0 HI) as HI1; simpl in HI1;
    destruct (RecoverExpiredLeases wl now s0) as [s1 recs] end.
  simpl in *. rewrite exec_m_bind. match goal with |- context [exec (sweep_leases controller recs) ?w1] =>
    pose proof (sweep_leases_store controller recs w1) as Hs;
    destruct (exec (sweep_leases controller recs) w1) as [w2 counts] end.
  simpl in Hs. rewrite (proj2 (Z.ltb_lt _ _) Hto). simpl. rewrite Hs. unfold TimeAdd.
  change (now + - cfg_CommandClaimTimeout cfg) with (now - cfg_CommandClaimTimeout cfg).
  match goal with |- context [RecoverClaimedCommands ?wl ?b now s1] =>
    pose proof (side_op_tasks wl (OpRecoverClaimedCommands b now) s1 eq_refl) as Ht;
    unfold RecoverClaimedCommands in *; simpl in Ht end.
  unfold RecoverClaimedCommands in *. cbv zeta in *. unfold normalizeNow in *. rewrite Hz in *.
  assert (Hz0 : IsZero (now - cfg_CommandClaimTimeout cfg) = false) by (by apply Z.eqb_neq).
  rewrite Hz0 in *.
  pose proof (λ j c, recover_command_scan_stale (st_commandOrder s1)
    (now - cfg_CommandClaimTimeout cfg) now s1 j c) as Hst.
  destruct (recover_command_scan _ _ _ s1) as [s3 crecs]. simpl in *.
  split; [done|]. destruct Ht as (_ & -> & _). split; [intros id l [_ ?]%Hl; done|].
  intros id c [?|[Hc Hnin]]%Hst; [done|]. destruct Hnin. apply (ci_order _ (inv_cmd _ HI1)). eauto.
Qed.

Lemma Sweep_clears_expired_witness :
  let w' := (Sweep (clock (10 ^ 12)) demo_cfg None (10 ^ 12) (NewWorld cmd_demo)).1 in
  size (st_leases cmd_demo) = 1%nat ∧
  (∀ id l, st_leases (w_store w') !! id = Some l → 10 ^ 12 < lease_ExpiresAt l).
Proof.
  split; [vm_compute; reflexivity|].
  pose proof (Sweep_clears_expired (clock (10 ^ 12)) demo_cfg None (10 ^ 12) (NewWorld cmd_demo)
    cmd_demo_reachable ltac:(discriminate) ltac:(reflexivity) ltac:(discriminate)) as H.
  destruct (Sweep _ _ _ _ _) as [w' r]. destruct H as (_ & H & _). exact H.
Defined.

(** ** Configuration *)

(** A field that is not positive is replaced. *)
Definition or_default (x d : Z) : Z := if x <=? 0 then d else x.

Lemma or_default_pos x d : 0 < d → 0 < or_default x d.
Proof. unfold or_default. destruct (Z.leb_spec x 0); lia. Qed.

Lemma normalizeConfig_fields now w p l r v t m :
  let ttl := or_default l (30 * Second) in
  normalizeConfig now (MkSchedulerConfig w p l r v t m) =
  MkSchedulerConfig (if String.eqb w "" then "worker-" +:+ itoa (UnixNano now) else w)
    (or_default p (100 * Millisecond)) ttl (or_default r (Z.quot ttl 2))
    (or_default v (Z.quot ttl 2)) (or_default t ttl) (or_default m 1).
Proof.
  cbv zeta. unfold normalizeConfig, or_default.
  assert (Hstep : ∀ b u c, default_when b u c = if b c then u c else c) by done.
  assert (H1 : default_when (λ c, String.eqb (cfg_WorkerID c) "")
    (λ c, c <| cfg_WorkerID := cfg_WorkerID (DefaultSchedulerConfig now) |>)
    (MkSchedulerConfig w p l r v t m) = MkSchedulerConfig
      (if String.eqb w "" then "worker-" +:+ itoa (UnixNano now) else w) p l r v t m).
  { rewrite Hstep. cbn. by destruct (String.eqb w ""). }
  cbv zeta. rewrite H1. clear H1. set (w' := if String.eqb w "" then _ else w). clearbody w'.
  unfold default_when at 6; cbn [cfg_PollInterval].
  destruct (p <=? 0); (unfold default_when at 5; simpl; destruct (l <=? 0));
    (unfold default_when at 4; simpl; destruct (r <=? 0)); (unfold default_when at 3; simpl; destruct (v <=? 0));
    (unfold default_when at 2; simpl; destruct (t <=? 0)); (unfold default_when; simpl; destruct (m <=? 0)); reflexivity.
Qed.

(** [NewScheduler] always ends up with a worker name, at least one slot and
    positive poll interval, lease time and claim timeout; with a lease time of at
    least two nanoseconds the renewal and recovery intervals are positive too. *)
Theorem normalizeConfig_positive now cfg :
  let c := normalizeConfig now cfg in
  cfg_WorkerID c ≠ "" ∧ 1 ≤ cfg_MaxConcurrentRuns c ∧ 0 < cfg_PollInterval c ∧
  0 < cfg_LeaseTTL c ∧ 0 < cfg_CommandClaimTimeout c ∧
  (cfg_LeaseTTL cfg ≠ 1 → 0 < cfg_LeaseRenewInterval c ∧ 0 < cfg_RecoveryInterval c).
Proof.
  destruct cfg as [w p l r v t m]. rewrite normalizeConfig_fields.
  cbn [cfg_WorkerID cfg_MaxConcurrentRuns cfg_PollInterval cfg_LeaseTTL cfg_CommandClaimTimeout
       cfg_LeaseRenewInterval cfg_RecoveryInterval].
  assert (Hl : 0 < or_default l (30 * Second)) by (apply or_default_pos; reflexivity).
  assert (Hq : l ≠ 1 → 0 < Z.quot (or_default l (30 * Second)) 2).
  { intros Hl1. apply Z.quot_str_pos. unfold or_default, Second in *.
    destruct (Z.leb_spec l 0); lia. }
  split; [by destruct (String.eqb_spec w "")|]. split; [|split; [|split; [|split]]].
  - pose proof (or_default_pos m 1). lia.
  - apply or_default_pos. reflexivity.
  - done.
  - by apply or_default_pos.
  - intros Hl1%Hq. split; by apply or_default_pos.
Qed.

(** Shortening the lease alone disables renewal: [NewScheduler] derives the
    renewal interval from the lease time only when the interval is not positive,
    but the default configuration already sets it to 15 seconds, so with
    [WithLeaseTTL] below 15 seconds and no other option every lease expires before
    its first renewal. *)
Theorem short_lease_expires_before_renewal now ttl :
  0 < ttl < 15 * Second →
  let c := normalizeConfig now ((DefaultSchedulerConfig now) <| cfg_LeaseTTL := ttl |>) in
  cfg_LeaseTTL c = ttl ∧ cfg_LeaseTTL c < cfg_LeaseRenewInterval c.
Proof.
  intros Httl. unfold DefaultSchedulerConfig. cbn [update_field].
  cbv zeta. simpl update_field. rewrite normalizeConfig_fields. simpl. unfold or_default.
  rewrite (proj2 (Z.leb_gt ttl 0)) by lia. split; [done|]. change (ttl < 15 * Second). lia.
Qed.

Lemma short_lease_expires_before_renewal_witness :
  let c := normalizeConfig 1000 ((DefaultSchedulerConfig 1000) <| cfg_LeaseTTL := 5 * Second |>) in
  cfg_LeaseTTL c = 5 * Second ∧ cfg_LeaseTTL c < cfg_LeaseRenewInterval c.
Proof. apply (short_lease_expires_before_renewal 1000 (5 * Second)). split; reflexivity. Defined.
