(* ===== verification/Messages.v ===== *)
(** * Conversation messages

    src/core/message.go and deferred.go, and [injectDeferredResults] of
    run_engine.go.  A message is a request (parts sent to the model) or a response
    (parts received).  The [Timestamp] fields are left out: they are written with
    the current time and no modelled code reads them.  Opaque payloads (image,
    audio and document locations, provider blocks) are kept as strings. *)

From S2P Require Import Prelude Errors Usage.

Record ImagePart := MkImagePart {
  img_URL : string;
  img_MIMEType : string;
  img_Detail : string;
}.

Inductive RequestPart :=
| SystemPromptPart (content : string)
| UserPromptPart (content : string)
| ToolReturnPart (toolName content toolCallID : string) (images : list ImagePart)
| RetryPromptPart (content toolName toolCallID : string)
| ImageRequestPart (img : ImagePart)
| AudioPart (url mimeType : string)
| DocumentPart (url mimeType title : string).

Record ToolCallPart := MkToolCallPart {
  tc_ToolName : string;
  tc_ArgsJSON : string;
  tc_ToolCallID : string;
  tc_Metadata : gmap string string;
}.

Inductive ResponsePart :=
| TextPart (content : string)
| CallPart (call : ToolCallPart)
| ThinkingPart (content signature : string)
| ProviderMetadataPart (provider kind payload : string).

Inductive FinishReason :=
| FinishReasonStop | FinishReasonLength | FinishReasonContentFilter
| FinishReasonToolCall | FinishReasonError | FinishReasonOther (s : string).

#[export] Instance ImagePart_eq_dec : EqDecision ImagePart.
Proof. solve_decision. Defined.
#[export] Instance RequestPart_eq_dec : EqDecision RequestPart.
Proof. solve_decision. Defined.
#[export] Instance ToolCallPart_eq_dec : EqDecision ToolCallPart.
Proof. solve_decision. Defined.
#[export] Instance FinishReason_eq_dec : EqDecision FinishReason.
Proof. solve_decision. Defined.

Record ModelResponse := MkModelResponse {
  resp_Parts : list ResponsePart;
  resp_Usage : Usage;
  resp_ModelName : string;
  resp_FinishReason : FinishReason;
}.
#[export] Instance ModelResponse_eta : RecordEta ModelResponse := λ r,
  MkModelResponse (resp_Parts r) (resp_Usage r) (resp_ModelName r) (resp_FinishReason r).

Inductive ModelMessage :=
| ModelRequest (parts : list RequestPart)
| Response (resp : ModelResponse).

(** [resp.ToolCalls()]. *)
Definition ToolCalls (r : ModelResponse) : list ToolCallPart :=
  omap (λ p, match p with CallPart c => Some c | _ => None end) (resp_Parts r).

(** [resp.TextContent()]. *)
Definition TextContent (r : ModelResponse) : string :=
  foldr (λ p acc, match p with TextPart c => c +:+ acc | _ => acc end) "" (resp_Parts r).

Definition lastModelResponse (messages : list ModelMessage) : option ModelResponse :=
  head (omap (λ m, match m with Response r => Some r | ModelRequest _ => None end) (rev messages)).

Definition buildRetryParts (msg toolName toolCallID : string) : RequestPart :=
  RetryPromptPart msg toolName toolCallID.

Record DeferredToolRequest := MkDeferredToolRequest {
  dreq_ToolName : string;
  dreq_ToolCallID : string;
  dreq_ArgsJSON : string;
}.
Record DeferredToolResult := MkDeferredToolResult {
  dres_ToolName : string;
  dres_ToolCallID : string;
  dres_Content : string;
  dres_IsError : bool;
}.

(** ** Result retries

    [json_object_ok] is whether [json.Unmarshal] accepts a text as a JSON object;
    encoding/json is outside the repository's sources. *)
Section retries.
Context (json_object_ok : string → bool).

(** Whether [ArgsAsMap] succeeds. *)
Definition ArgsAsMap_ok (c : ToolCallPart) : bool :=
  String.eqb (tc_ArgsJSON c) "" || String.eqb (tc_ArgsJSON c) "{}" || json_object_ok (tc_ArgsJSON c).

(** Did the model run into its token limit in the middle of a tool call? *)
Definition incomplete_tool_call (messages : list ModelMessage) : bool :=
  match lastModelResponse messages with
  | None => false
  | Some r =>
    bool_decide (resp_FinishReason r = FinishReasonLength) &&
    match last (ToolCalls r) with
    | None => false
    | Some c => negb (ArgsAsMap_ok c)
    end
  end.

(** The new counter, and an error when it exceeds the maximum. *)
Definition incrementRetries (retries maxRetries : Z) (messages : list ModelMessage)
    : Z * option error :=
  let retries := retries + 1 in
  if retries >? maxRetries then
    if incomplete_tool_call messages then
      (retries, Some (EIncompleteToolCall
        "model hit token limit while generating tool call arguments, consider increasing max_tokens"))
    else
      (retries, Some (EUnexpectedModelBehavior
        ("exceeded maximum retries (" +:+ itoa maxRetries +:+ ") for result validation")))
  else (retries, None).
End retries.

(** ** Deferred results *)

Definition deferred_part (dr : DeferredToolResult) : RequestPart :=
  if dres_IsError dr
  then RetryPromptPart (dres_Content dr) (dres_ToolName dr) (dres_ToolCallID dr)
  else ToolReturnPart (dres_ToolName dr) (dres_Content dr) (dres_ToolCallID dr) [].

(** [injectDeferredResults], on the messages of the run state: the results join
    the last message when it is a request, and form a new request otherwise. *)
Definition injectDeferredResults (messages : list ModelMessage)
    (deferredResults : list DeferredToolResult) : list ModelMessage :=
  let parts := deferred_part <$> deferredResults in
  match last messages with
  | Some (ModelRequest ps) => removelast messages ++ [ModelRequest (ps ++ parts)]
  | _ => messages ++ [ModelRequest parts]
  end.

(** ** What a part answers *)

(** The tool call a part answers, if it answers one. *)
Definition answers (p : RequestPart) : option string :=
  match p with
  | ToolReturnPart _ _ id _ | RetryPromptPart _ _ id => Some id
  | _ => None
  end.
(** The calls a message makes, and the calls it answers. *)
Definition call_ids (m : ModelMessage) : list string :=
  match m with Response r => tc_ToolCallID <$> ToolCalls r | ModelRequest _ => [] end.
Definition answer_ids (m : ModelMessage) : list string :=
  match m with ModelRequest ps => omap answers ps | Response _ => [] end.

Lemma incrementRetries_bound j r max ms r' :
  incrementRetries j r max ms = (r', None) → r' = r + 1 ∧ r' ≤ max.
Proof.
  unfold incrementRetries. destruct (Z.gtb_spec (r + 1) max); [by case_match|].
  intros [= <-]. lia.
Qed.

Lemma incrementRetries_error j r max ms :
  is_Some (incrementRetries j r max ms).2 ↔ max ≤ r.
Proof.
  unfold incrementRetries. destruct (Z.gtb_spec (r + 1) max).
  - case_match; simpl; split; eauto; lia.
  - simpl. split; [by intros []|lia].
Qed.
