(* ===== verification/Truncate.v ===== *)
(** * Truncation of tool output

    src/core/truncate.go.  Strings are byte strings, positions are byte offsets. *)

From S2P Require Import Prelude.

Definition bytesPerToken : Z := 4.

Definition strlen (s : string) : Z := Z.of_nat (String.length s).
(** Go's [s[a:b]]; the offsets the code uses are in range. *)
Definition slice (s : string) (a b : Z) : string :=
  String.substring (Z.to_nat a) (Z.to_nat b - Z.to_nat a) s.

Definition newline : Ascii.ascii := Ascii.ascii_of_nat 10.

(** Offset of the first newline, and of the last one. *)
Fixpoint index_newline (s : string) : option nat :=
  match s with
  | EmptyString => None
  | String a s => if Ascii.eqb a newline then Some O else S <$> index_newline s
  end.
Fixpoint last_index_newline (s : string) : option nat :=
  match s with
  | EmptyString => None
  | String a s =>
    match last_index_newline s with
    | Some i => Some (S i)
    | None => if Ascii.eqb a newline then Some O else None
    end
  end.

Definition truncateToLineEnd (s : string) (pos : Z) : Z :=
  if pos >=? strlen s then strlen s
  else match last_index_newline (slice s 0 pos) with
       | None => pos
       | Some idx => Z.of_nat idx + 1
       end.

Definition truncateToLineStart (s : string) (pos : Z) : Z :=
  if pos <=? 0 then 0
  else if pos >=? strlen s then strlen s
  else match index_newline (slice s pos (strlen s)) with
       | None => pos
       | Some idx => pos + Z.of_nat idx + 1
       end.

(** [utf8.RuneStart(s[i])]: not a continuation byte. *)
Definition rune_start (s : string) (i : Z) : bool :=
  match String.get (Z.to_nat i) s with
  | None => true
  | Some a => negb (bool_decide (128 ≤ Ascii.nat_of_ascii a < 192)%nat)
  end.

(** The two loops that move the cut points off continuation bytes; the fuel is the
    largest number of iterations. *)
Fixpoint back_to_rune (fuel : nat) (s : string) (i : Z) : Z :=
  match fuel with
  | O => i
  | S fuel => if (i >? 0) && negb (rune_start s i) then back_to_rune fuel s (i - 1) else i
  end.
Fixpoint forward_to_rune (fuel : nat) (s : string) (i : Z) : Z :=
  match fuel with
  | O => i
  | S fuel => if (i <? strlen s) && negb (rune_start s i) then forward_to_rune fuel s (i + 1) else i
  end.

Definition nl2 : string := String newline (String newline EmptyString).
Definition truncation_marker (droppedTokens : Z) : string :=
  nl2 +:+ "... [truncated " +:+ itoa droppedTokens +:+ " tokens] ..." +:+ nl2.

(** The cut points: the head is [0, headEnd), the tail [tailStart, len). *)
Definition cut_points (content : string) (maxBytes : Z) : Z * Z :=
  let headBytes := Z.quot (maxBytes * 60) 100 in
  let tailBytes := maxBytes - headBytes in
  let headEnd := truncateToLineEnd content headBytes in
  let tailStart := truncateToLineStart content (strlen content - tailBytes) in
  let '(headEnd, tailStart) :=
    if tailStart <=? headEnd then (headBytes, strlen content - tailBytes) else (headEnd, tailStart) in
  (back_to_rune (Z.to_nat headEnd) content headEnd,
   forward_to_rune (Z.to_nat (strlen content - tailStart)) content tailStart).

Definition TruncateToolOutput (content : string) (maxTokens : Z) : string :=
  if maxTokens <=? 0 then content
  else
    let maxBytes := maxTokens * bytesPerToken in
    if strlen content <=? maxBytes then content
    else
      let '(headEnd, tailStart) := cut_points content maxBytes in
      if tailStart <=? headEnd then content
      else
        let droppedTokens := Z.quot (tailStart - headEnd) bytesPerToken in
        slice content 0 headEnd +:+ truncation_marker droppedTokens +:+
        slice content tailStart (strlen content).

(** ** Bounds of the cut points *)

Lemma length_substring n m s :
  (n + m ≤ String.length s)%nat → String.length (String.substring n m s) = m.
Proof.
  revert n m. induction s as [|a s IH]; intros [|n] [|m]; simpl; intros Hl; try lia.
  - f_equal. apply IH. lia.
  - apply IH. lia.
  - apply IH. lia.
Qed.

Lemma strlen_slice s a b : 0 ≤ a ≤ b → b ≤ strlen s → strlen (slice s a b) = b - a.
Proof. intros Ha Hb. unfold strlen, slice in *. rewrite length_substring; lia. Qed.

Lemma index_newline_bound s i : index_newline s = Some i → (i < String.length s)%nat.
Proof.
  revert i. induction s as [|a s IH]; simpl; [done|]. intros i. case_match; [intros [= <-]; lia|].
  destruct (index_newline s) as [j|]; [|done]. intros [= <-]. specialize (IH j eq_refl). lia.
Qed.

Lemma last_index_newline_bound s i : last_index_newline s = Some i → (i < String.length s)%nat.
Proof.
  revert i. induction s as [|a s IH]; simpl; [done|]. intros i.
  destruct (last_index_newline s) as [j|].
  - intros [= <-]. specialize (IH j eq_refl). lia.
  - case_match; [intros [= <-]; lia|done].
Qed.

Lemma truncateToLineEnd_bounds s pos :
  0 ≤ pos ≤ strlen s → 0 ≤ truncateToLineEnd s pos ≤ pos.
Proof.
  intros Hp. unfold truncateToLineEnd. destruct (Z.geb_spec pos (strlen s)); [lia|].
  destruct (last_index_newline (slice s 0 pos)) as [i|] eqn:E; [|lia].
  apply last_index_newline_bound in E. pose proof (strlen_slice s 0 pos). unfold strlen in *. lia.
Qed.

Lemma truncateToLineStart_bounds s pos :
  0 < pos ≤ strlen s → pos ≤ truncateToLineStart s pos ≤ strlen s.
Proof.
  intros Hp. unfold truncateToLineStart. destruct (Z.leb_spec pos 0); [lia|].
  destruct (Z.geb_spec pos (strlen s)); [lia|].
  destruct (index_newline (slice s pos (strlen s))) as [i|] eqn:E; [|lia].
  apply index_newline_bound in E. pose proof (strlen_slice s pos (strlen s)). unfold strlen in *. lia.
Qed.

Lemma back_to_rune_spec fuel s i :
  0 ≤ i ≤ Z.of_nat fuel →
  let j := back_to_rune fuel s i in 0 ≤ j ≤ i ∧ (j = 0 ∨ rune_start s j = true).
Proof.
  revert i. induction fuel as [|fuel IH]; intros i Hi; simpl; [lia|].
  destruct (Z.gtb_spec i 0); simpl; [|lia].
  destruct (rune_start s i) eqn:Hr; simpl; [split; [lia|by right]|].
  destruct (IH (i - 1)) as [? ?]; [lia|]. split; [lia|done].
Qed.

Lemma forward_to_rune_spec fuel s i :
  i ≤ strlen s ≤ i + Z.of_nat fuel →
  let j := forward_to_rune fuel s i in i ≤ j ≤ strlen s ∧ (j = strlen s ∨ rune_start s j = true).
Proof.
  revert i. induction fuel as [|fuel IH]; intros i Hi; simpl; [lia|].
  destruct (Z.ltb_spec i (strlen s)); simpl; [|lia].
  destruct (rune_start s i) eqn:Hr; simpl; [split; [lia|by right]|].
  destruct (IH (i + 1)) as [? ?]; [lia|]. split; [lia|done].
Qed.

(** The cut points of a text that is over the budget. *)
Lemma cut_points_spec s maxBytes :
  0 < maxBytes < strlen s →
  let '(h, t) := cut_points s maxBytes in
  0 ≤ h ∧ h < t ∧ t ≤ strlen s ∧ h + (strlen s - t) ≤ maxBytes ∧
  (h = 0 ∨ rune_start s h = true) ∧ (t = strlen s ∨ rune_start s t = true).
Proof.
  intros Hmax. unfold cut_points.
  set (hb := Z.quot (maxBytes * 60) 100).
  assert (0 ≤ hb ≤ maxBytes) as Hhb.
  { unfold hb. rewrite Z.quot_div_nonneg by lia. split; [apply Z.div_pos; lia|].
    apply Z.div_le_upper_bound; lia. }
  set (raw := if _ <=? _ then _ else _).
  assert (Hraw : 0 ≤ raw.1 ≤ hb ∧ strlen s - (maxBytes - hb) ≤ raw.2 ≤ strlen s ∧ raw.1 < raw.2).
  { unfold raw. pose proof (truncateToLineEnd_bounds s hb).
    pose proof (truncateToLineStart_bounds s (strlen s - (maxBytes - hb))).
    case_match eqn:E; simpl; [lia|]. apply Z.leb_gt in E. lia. }
  destruct raw as [h0 t0]. simpl in Hraw.
  pose proof (back_to_rune_spec (Z.to_nat h0) s h0) as Hb.
  pose proof (forward_to_rune_spec (Z.to_nat (strlen s - t0)) s t0) as Hf.
  destruct Hb as [Hb1 Hb2]; [lia|]. destruct Hf as [Hf1 Hf2]; [lia|].
  split_and!; try done; lia.
Qed.

(** Truncation: a text within the budget of [maxTokens] is returned as it is;
    any longer text becomes a head of it, a marker and a tail of it, where head and
    tail together fit the budget, do not overlap, and no cut splits a UTF-8
    sequence. *)
Theorem TruncateToolOutput_spec content maxTokens :
  0 < maxTokens →
  if strlen content <=? maxTokens * bytesPerToken
  then TruncateToolOutput content maxTokens = content
  else ∃ h t, 0 ≤ h ∧ h < t ∧ t ≤ strlen content ∧
    TruncateToolOutput content maxTokens =
      slice content 0 h +:+ truncation_marker (Z.quot (t - h) bytesPerToken) +:+
      slice content t (strlen content) ∧
    strlen (slice content 0 h) + strlen (slice content t (strlen content))
      ≤ maxTokens * bytesPerToken ∧
    (h = 0 ∨ rune_start content h = true) ∧ (t = strlen content ∨ rune_start content t = true).
Proof.
  intros Hpos. unfold TruncateToolOutput. rewrite (proj2 (Z.leb_gt maxTokens 0)) by lia.
  destruct (Z.leb_spec (strlen content) (maxTokens * bytesPerToken)) as [|Hlt]; [done|].
  pose proof (cut_points_spec content (maxTokens * bytesPerToken)) as H.
  destruct (cut_points content (maxTokens * bytesPerToken)) as [h t].
  destruct H as (H1 & H2 & H3 & H4 & H5 & H6); [unfold bytesPerToken in *; lia|].
  rewrite (proj2 (Z.leb_gt t h)) by lia. exists h, t.
  split_and!; try done. rewrite !strlen_slice by lia. lia.
Qed.

Lemma TruncateToolOutput_spec_witness :
  TruncateToolOutput "0123456789abcdef" 1
    = slice "0123456789abcdef" 0 2 +:+ truncation_marker 3 +:+ slice "0123456789abcdef" 14 16 ∧
  ∃ h t, 0 ≤ h ∧ h < t ∧ t ≤ strlen "0123456789abcdef" ∧
    strlen (slice "0123456789abcdef" 0 h) + strlen (slice "0123456789abcdef" t 16) ≤ 4.
Proof.
  split; [vm_compute; reflexivity|].
  destruct (TruncateToolOutput_spec "0123456789abcdef" 1 ltac:(reflexivity))
    as (h & t & H1 & H2 & H3 & _ & H4 & _).
  exists h, t. exact (conj H1 (conj H2 (conj H3 H4))).
Defined.
