(* ===== verification/AgentTypes.v ===== *)
(** * Data of the agent

    The types of src/core that the agent loop works on: tool definitions and model
    parameters (tool.go, model.go, toolchoice.go, output.go), the run state
    (run_state.go), the run context handed to callbacks (tool.go), hooks (hooks.go),
    runtime events (runtime_events.go), tools and the agent itself (agent.go).

    User callbacks (models, tool handlers, validators, guardrails, hooks, ...) are
    functions on an abstract world [W] that holds everything they may read or
    change, the context's cancellation state included.  [T] is the output type.
    Timestamps, durations and the trace (only recorded with tracing enabled) are
    left out: the loop writes them and reads none. *)

From S2P Require Import Prelude Errors Usage Messages.

(** ** Tools, settings, output *)

Record ToolDefinition := MkToolDefinition {
  td_Name : string;
  td_Description : string;
  td_ParametersSchema : string;
  td_Kind : string;
  td_Strict : option bool;
  td_Sequential : bool;
  td_ConcurrencySafe : bool;
  td_OuterTypedDictKey : string;
  td_DeferLoading : bool;
  td_Namespace : string;
}.

Record ToolChoice := MkToolChoice { choice_Mode : string; choice_ToolName : string }.
Definition ToolChoiceAuto : ToolChoice := MkToolChoice "auto" "".

(** The settings of a request; the loop only looks at the tool choice and copies
    the other fields, kept here as one opaque value. *)
Record ModelSettings := MkModelSettings {
  ms_ToolChoice : option ToolChoice;
  ms_Other : string;
}.
#[export] Instance ModelSettings_eta : RecordEta ModelSettings := λ s,
  MkModelSettings (ms_ToolChoice s) (ms_Other s).
Definition zero_settings : ModelSettings := MkModelSettings None "".

Inductive OutputMode :=
| OutputModeText | OutputModeTool | OutputModeNative | OutputModeOther (s : string).
#[export] Instance OutputMode_eq_dec : EqDecision OutputMode.
Proof. solve_decision. Defined.

Record OutputObjectDefinition := MkOutputObjectDefinition {
  oo_Name : string;
  oo_Description : string;
  oo_JSONSchema : string;
  oo_Strict : option bool;
}.

Record OutputSchema := MkOutputSchema {
  os_Mode : OutputMode;
  os_OutputTools : list ToolDefinition;
  os_OutputObject : option OutputObjectDefinition;
  os_AllowsText : bool;
  os_OuterTypedDictKey : string;
}.

Record ModelRequestParameters := MkModelRequestParameters {
  mp_FunctionTools : list ToolDefinition;
  mp_OutputMode : OutputMode;
  mp_OutputTools : list ToolDefinition;
  mp_OutputObject : option OutputObjectDefinition;
  mp_AllowTextOutput : bool;
}.

Inductive EndStrategy := EndStrategyEarly | EndStrategyExhaustive.

(** ** The state of a run *)

Record RunState := MkRunState {
  messages : list ModelMessage;
  usage : RunUsage;
  lastInputTokens : Z;
  retries : Z;
  toolRetries : gmap string Z;
  activeApprovals : Z;
  runStep : Z;
  runID : string;
  parentRunID : string;
  limits : UsageLimits;
}.
#[export] Instance RunState_eta : RecordEta RunState := λ s,
  MkRunState (messages s) (usage s) (lastInputTokens s) (retries s) (toolRetries s)
    (activeApprovals s) (runStep s) (runID s) (parentRunID s) (limits s).

(** The context a callback receives: what [buildRunContext] copies from the run
    state, and the tool fields set by the caller. *)
Record RunContext := MkRunContext {
  rc_Usage : RunUsage;
  rc_Prompt : string;
  rc_Retry : Z;
  rc_MaxRetries : Z;
  rc_ToolName : string;
  rc_ToolCallID : string;
  rc_Messages : list ModelMessage;
  rc_RunStep : Z;
  rc_RunID : string;
  rc_ParentRunID : string;
}.
#[export] Instance RunContext_eta : RecordEta RunContext := λ r,
  MkRunContext (rc_Usage r) (rc_Prompt r) (rc_Retry r) (rc_MaxRetries r) (rc_ToolName r)
    (rc_ToolCallID r) (rc_Messages r) (rc_RunStep r) (rc_RunID r) (rc_ParentRunID r).

Definition buildRunContext (s : RunState) (prompt : string) : RunContext :=
  MkRunContext (usage s) prompt 0 0 "" "" (messages s) (runStep s) (runID s) (parentRunID s).

Record ContextCompactionStats := MkContextCompactionStats {
  Strategy : string;
  MessagesBefore : Z;
  MessagesAfter : Z;
}.

(** A call of one of the fields of a [Hook]; the error of a run is given by its text. *)
Inductive HookCall :=
| OnModelRequest (rc : RunContext) (msgs : list ModelMessage)
| OnModelResponse (rc : RunContext) (resp : ModelResponse)
| OnToolStart (rc : RunContext) (toolCallID toolName argsJSON : string)
| OnToolEnd (rc : RunContext) (toolCallID toolName result : string) (err : option error)
| OnTurnStart (rc : RunContext) (turnNumber : Z)
| OnTurnEnd (rc : RunContext) (turnNumber : Z) (resp : ModelResponse)
| OnGuardrailEvaluated (rc : RunContext) (name : string) (passed : bool) (err : option error)
| OnOutputValidation (rc : RunContext) (passed : bool) (err : option error)
| OnOutputRepair (rc : RunContext) (succeeded : bool) (err : option error)
| OnRunConditionChecked (rc : RunContext) (stopped : bool) (reason : string)
| OnContextCompaction (rc : RunContext) (stats : ContextCompactionStats)
| OnRunStart (rc : RunContext) (prompt : string)
| OnRunEnd (rc : RunContext) (msgs : list ModelMessage) (err : option string).

(** The runtime events published on the event bus; the run and parent run
    identifiers are those of the run state. *)
Inductive RunEvent :=
| ToolCalledEvent (toolCallID toolName argsJSON : string)
| ToolCompletedEvent (toolCallID toolName result : string)
| ToolFailedEvent (toolCallID toolName err : string)
| ApprovalRequestedEvent (toolCallID toolName argsJSON : string)
| ApprovalResolvedEvent (toolCallID toolName : string) (approved : bool)
| RunWaitingEvent (reason : string)
| RunResumedEvent
| RetryScheduledEvent (turn : Z) (toolName toolCallID reason : string) (retry maxRetries : Z)
| TurnStartedEvent (turn : Z)
| TurnCompletedEvent (turn : Z) (hasToolCalls hasText : bool) (err : string)
| ModelRequestStartedEvent (turn messageCount : Z)
| ModelResponseCompletedEvent (turn : Z) (reason : FinishReason) (inputTokens outputTokens : Z)
    (hasToolCalls hasText : bool)
| DeferredRequestedEvent (toolCallID toolName argsJSON : string)
| DeferredResolvedEvent (toolCallID toolName content : string) (isError : bool)
| RunStartedEvent (prompt : string)
| ErrorRaisedEvent (turn : Z) (err : string)
| RunCompletedEvent (success deferred : bool) (err : string).

(** ** Callbacks *)

(** The value a tool handler returns: nil, a string, a [ToolResultWithImages] or
    any other value, which [json.Marshal] renders. *)
Inductive ToolValue :=
| VNil
| VString (s : string)
| VImages (text : string) (images : list ImagePart)
| VOther (tag : positive).

(** How a handler call ends. *)
Inductive HandlerOutcome :=
| HOk (v : ToolValue)
| HErr (e : error)
| HPanic (msg : string).

Inductive MessageAction := MessageAllow | MessageDrop | MessageModify.
#[export] Instance MessageAction_eq_dec : EqDecision MessageAction.
Proof. solve_decision. Defined.
Record InterceptResult := MkInterceptResult {
  ir_Action : MessageAction;
  ir_Messages : list ModelMessage;
}.

Section types.
Context {W T : Type}.

(** The handler receives the time limit of its context (0: none). *)
Definition ToolHandler := RunContext → Duration → string → W → W * HandlerOutcome.
Definition ToolResultValidatorFunc := RunContext → string → string → W → W * option error.
Definition ToolPrepareFunc := RunContext → ToolDefinition → W → W * option ToolDefinition.
Definition AgentToolsPrepareFunc := RunContext → list ToolDefinition → W → W * list ToolDefinition.
(** The approval function sees the tool call identifier through its context. *)
Definition ToolApprovalFunc := string → string → string → W → W * res bool.
Definition RequestFunc := list ModelMessage → option ModelSettings → ModelRequestParameters →
  W → W * res ModelResponse.
(** A middleware receives the compaction callback through its context. *)
Definition RequestMiddlewareFunc := (ContextCompactionStats → W → W) →
  list ModelMessage → option ModelSettings → ModelRequestParameters → RequestFunc →
  W → W * res ModelResponse.
(** A history processor may report compactions through its context. *)
Definition HistoryProcessor := list ModelMessage →
  W → W * (list ContextCompactionStats * res (list ModelMessage)).
Definition MessageInterceptor := list ModelMessage → W → W * InterceptResult.
Definition ResponseInterceptor := ModelResponse → W → W * InterceptResult.
Definition TurnGuardrailFunc := RunContext → list ModelMessage → W → W * option error.
Definition RunCondition := RunContext → ModelResponse → W → W * (bool * string).
Definition OutputValidatorFunc := RunContext → T → W → W * (T * option error).
Definition RepairFunc := string → error → W → W * res T.

Record Tool := MkTool {
  tool_Definition : ToolDefinition;
  tool_Handler : ToolHandler;
  tool_MaxRetries : option Z;
  tool_RequiresApproval : bool;
  tool_PrepareFunc : option ToolPrepareFunc;
  tool_ResultValidator : option ToolResultValidatorFunc;
  tool_Timeout : Duration;
}.

Record Model := MkModel {
  Request : RequestFunc;
  ModelName : string;
}.

Record AutoContextConfig := MkAutoContextConfig {
  MaxTokens : Z;
  KeepLastN : Z;
  SummaryModel : option Model;
}.

(** The agent, less the prompts that only build the first request. *)
Record Agent := MkAgent {
  model : Model;
  historyProcessors : list HistoryProcessor;
  tools : list Tool;
  toolsets : list (list Tool);
  outputSchema : OutputSchema;
  outputValidators : list OutputValidatorFunc;
  maxRetries : Z;
  endStrategy : EndStrategy;
  toolApprovalFunc : option ToolApprovalFunc;
  maxConcurrency : Z;
  knowledgeBase_Store : option (string → W → W * option error);
  kbAutoStore : bool;
  toolsPrepareFunc : option AgentToolsPrepareFunc;
  hooks : list (HookCall → W → W);
  turnGuardrails : list (string * TurnGuardrailFunc);
  repairFunc : option RepairFunc;
  globalToolResultValidators : list ToolResultValidatorFunc;
  defaultToolTimeout : Duration;
  runConditions : list RunCondition;
  eventBus : bool;
  usageQuota : option UsageQuota;
  messageInterceptors : list MessageInterceptor;
  responseInterceptors : list ResponseInterceptor;
  costTracker_Record : option (string → RunUsage → W → W);
  autoContext : option AutoContextConfig;
  middleware : list RequestMiddlewareFunc;
  toolChoice : option ToolChoice;
  toolChoiceAutoReset : bool;
  truncationConfig : option Z;
}.

(** What the run engine works on: the run state, the world of the callbacks, the
    events published so far, the settings of the next request, and the order in
    which the goroutines of the coming concurrent batches are scheduled (one entry
    per batch, see AgentTools). *)
Record St := MkSt {
  rs : RunState;
  world : W;
  events : list RunEvent;
  settings : option ModelSettings;
  schedules : list (list (nat * bool));
}.
End types.
Arguments ToolHandler : clear implicits.
Arguments ToolResultValidatorFunc : clear implicits.
Arguments ToolPrepareFunc : clear implicits.
Arguments AgentToolsPrepareFunc : clear implicits.
Arguments ToolApprovalFunc : clear implicits.
Arguments RequestFunc : clear implicits.
Arguments RequestMiddlewareFunc : clear implicits.
Arguments HistoryProcessor : clear implicits.
Arguments MessageInterceptor : clear implicits.
Arguments ResponseInterceptor : clear implicits.
Arguments TurnGuardrailFunc : clear implicits.
Arguments RunCondition : clear implicits.
Arguments OutputValidatorFunc : clear implicits.
Arguments RepairFunc : clear implicits.
Arguments Tool : clear implicits.
Arguments Model : clear implicits.
Arguments AutoContextConfig : clear implicits.
Arguments Agent : clear implicits.
Arguments St : clear implicits.
#[export] Instance St_eta {W} : RecordEta (St W) := λ s,
  MkSt (rs s) (world s) (events s) (settings s) (schedules s).
