(* ===== verification/AutoContext.v ===== *)
(** * Automatic context compression

    src/core/autocontext.go and src/core/instruction_pin.go: the token estimate, the
    instruction pin, and the compression of a long history into its first message, a
    summary and the most recent messages, with the tool results that lost their call
    turned into plain text.  Content of a tool return is a string here, as in every
    part the agent builds. *)

From S2P Require Import Prelude Errors Usage Messages Truncate AgentTypes.

Definition nl : string := String newline EmptyString.

(** ** Strings *)

(** [strings.Fields]: the maximal runs of non-space runes.  [cur] is the current
    word, reversed.  Every step consumes a byte, so the length is enough fuel. *)
Definition flush_word (cur : string) : list string :=
  if String.eqb cur "" then [] else [string_rev cur].
Fixpoint fields_from (fuel : nat) (cur s : string) : list string :=
  match fuel, s with
  | S fuel, String a s' =>
    match strip_any (space_runes ++ wide_space_runes) s with
    | Some r => flush_word cur ++ fields_from fuel "" r
    | None => fields_from fuel (String a cur) s'
    end
  | _, _ => flush_word cur
  end.
Definition Fields (s : string) : list string := fields_from (String.length s) "" s.

(** [truncateUTF8Bytes]. *)
Definition truncateUTF8Bytes (s : string) (maxBytes : Z) : string :=
  if strlen s <=? maxBytes then s else slice s 0 (back_to_rune (Z.to_nat maxBytes) s maxBytes).

Definition truncateStr (s : string) (maxBytes : Z) : string :=
  if strlen s <=? maxBytes then s
  else slice s 0 (back_to_rune (Z.to_nat maxBytes) s maxBytes) +:+ "...".

(** ** Token estimate

    [int(float64(words) * 1.3)]: the double nearest to 1.3 lies above it by less
    than 2^-53, so for any count of words a program can hold the product truncates
    to the same integer as the exact one. *)
Definition estimateStringTokens (s : string) : Z := Z.of_nat (length (Fields s)) * 13 / 10.

Definition request_part_tokens (p : RequestPart) : Z :=
  match p with
  | SystemPromptPart c | UserPromptPart c => estimateStringTokens c
  | ToolReturnPart _ c _ _ => estimateStringTokens c
  | RetryPromptPart c _ _ => estimateStringTokens c
  | _ => 0
  end.
Definition response_part_tokens (p : ResponsePart) : Z :=
  match p with
  | TextPart c => estimateStringTokens c
  | CallPart c => estimateStringTokens (tc_ArgsJSON c)
  | ThinkingPart c _ => estimateStringTokens c
  | ProviderMetadataPart _ _ _ => 0
  end.
Definition message_tokens (m : ModelMessage) : Z :=
  match m with
  | ModelRequest ps => foldr Z.add 0 (request_part_tokens <$> ps)
  | Response r => foldr Z.add 0 (response_part_tokens <$> resp_Parts r)
  end.
Definition estimateTokens (msgs : list ModelMessage) : Z := foldr Z.add 0 (message_tokens <$> msgs).

Definition currentContextTokenCount (msgs : list ModelMessage) (lastInput : Z) : Z :=
  let estimated := estimateTokens msgs in
  if lastInput >? estimated then lastInput else estimated.

(** ** The instruction pin *)

Definition instructionPinMaxSystemPrompts : nat := 3.
Definition instructionPinMaxFieldBytes : Z := 320.

Definition compactInstructionText (s : string) (maxBytes : Z) : string :=
  if maxBytes <=? 0 then ""
  else
    let text := String.concat " " (Fields (TrimSpace s)) in
    if String.eqb text "" || (strlen text <=? maxBytes) then text
    else truncateUTF8Bytes text maxBytes +:+ "...".

(** The first three distinct non-empty system prompts, in order. *)
Fixpoint collect_prompts (out : list string) (ps : list RequestPart) : list string :=
  match ps with
  | [] => out
  | SystemPromptPart c :: ps =>
    let text := compactInstructionText c instructionPinMaxFieldBytes in
    if String.eqb text "" then collect_prompts out ps
    else if bool_decide (text ∈ out) then collect_prompts out ps
    else
      let out := out ++ [text] in
      if bool_decide (instructionPinMaxSystemPrompts ≤ length out)%nat then out
      else collect_prompts out ps
  | _ :: ps => collect_prompts out ps
  end.
Definition collectSystemPrompts (ps : list RequestPart) : list string := collect_prompts [] ps.

Definition nonblank (s : string) : bool := negb (String.eqb (TrimSpace s) "").

Definition firstUserPrompt (ps : list RequestPart) : string :=
  default "" (head (omap (λ p, match p with
    | UserPromptPart c => if nonblank c then Some c else None | _ => None end) ps)).

Definition latest_in_request (ps : list RequestPart) : option string :=
  head (omap (λ p, match p with
    | UserPromptPart c => if nonblank c then Some (TrimSpace c) else None | _ => None end) (rev ps)).
Definition latestUserPrompt (msgs : list ModelMessage) : string :=
  default "" (head (omap (λ m, match m with
    | ModelRequest ps => latest_in_request ps | Response _ => None end) (rev msgs))).

Fixpoint directive_lines (i : Z) (ds : list string) : string :=
  match ds with
  | [] => ""
  | d :: ds => "- S" +:+ itoa i +:+ ": " +:+ d +:+ nl +:+ directive_lines (i + 1) ds
  end.

Definition BuildInstructionPin (msgs : list ModelMessage) : string :=
  match msgs with
  | ModelRequest first :: _ =>
    let systemPrompts := collectSystemPrompts first in
    let originalUser := compactInstructionText (firstUserPrompt first) instructionPinMaxFieldBytes in
    let latestUser := compactInstructionText (latestUserPrompt msgs) instructionPinMaxFieldBytes in
    if bool_decide (systemPrompts = []) && String.eqb originalUser "" && String.eqb latestUser ""
    then ""
    else TrimSpace
      ("[Instruction Pin]" +:+ nl +:+
       (if bool_decide (systemPrompts = []) then ""
        else "System directives:" +:+ nl +:+ directive_lines 1 systemPrompts) +:+
       (if String.eqb originalUser "" then "" else "Original task: " +:+ originalUser +:+ nl) +:+
       (if negb (String.eqb latestUser "") && negb (String.eqb latestUser originalUser)
        then "Latest user instruction: " +:+ latestUser +:+ nl else "") +:+
       "Honor these instructions as authoritative." +:+ nl)
  | _ => ""
  end.

(** ** Orphaned tool results *)

(** One part of a request: kept ([None]), or replaced by the parts listed. *)
Definition strip_part (callIDs : list string) (p : RequestPart) : option (list RequestPart) :=
  match p with
  | ToolReturnPart toolName content id _ =>
    if bool_decide (id ∈ callIDs) then None
    else Some (if String.eqb content "" then []
               else [UserPromptPart ("[Previous " +:+ toolName +:+ " result] " +:+ truncateStr content 500)])
  | RetryPromptPart content _ id =>
    if String.eqb id "" || bool_decide (id ∈ callIDs) then None
    else Some (if String.eqb content "" then []
               else [UserPromptPart ("[Previous tool error] " +:+ truncateStr content 500)])
  | _ => None
  end.

Definition strip_request (callIDs : list string) (ps : list RequestPart) : list RequestPart :=
  let filtered := ps ≫= (λ p, default [p] (strip_part callIDs p)) in
  if existsb (λ p, bool_decide (is_Some (strip_part callIDs p))) ps then
    if bool_decide (filtered = [])
    then [UserPromptPart "[Previous tool results removed during context recovery]"]
    else filtered
  else ps.

Definition stripOrphanedToolResults (msgs : list ModelMessage) : list ModelMessage :=
  let callIDs := msgs ≫= call_ids in
  (λ m, match m with
        | ModelRequest ps => ModelRequest (strip_request callIDs ps)
        | Response _ => m
        end) <$> msgs.

(** ** Compression *)

Definition summary_instructions : string :=
  String.concat nl
    ["Summarize this conversation concisely, preserving:";
     "- What files were created, edited, or read (include EXACT file paths)";
     "- What commands were run and their results (especially test results with pass/fail COUNTS and specific error messages)";
     "- Key decisions made and current approach being used";
     "- Any constraints or requirements discovered (include exact values: sizes, thresholds, formats)";
     "- What approaches were tried and whether they succeeded or failed (include WHY they failed)";
     "- BEST RESULT SO FAR: what was the best test pass count or closest-to-correct output, and what exact code/config produced it";
     "- Current state: what's done, what's remaining, and what the NEXT STEP should be";
     "- CRITICAL: preserve any discovered format requirements (JSON schema, CSV headers, encoding, trailing newlines)"]
  +:+ nl +:+ nl.

Definition summary_lines (m : ModelMessage) : string :=
  match m with
  | ModelRequest ps =>
    String.concat "" ((λ p, match p with
      | UserPromptPart c => "User: " +:+ truncateStr c 500 +:+ nl
      | ToolReturnPart name c _ _ => "[Tool result: " +:+ name +:+ "] " +:+ truncateStr c 800 +:+ nl
      | _ => "" end) <$> ps)
  | Response r =>
    (let text := TextContent r in
     if String.eqb text "" then "" else "Assistant: " +:+ truncateStr text 500 +:+ nl) +:+
    String.concat "" ((λ c, "[Tool call: " +:+ tc_ToolName c +:+ "] " +:+
                            truncateStr (tc_ArgsJSON c) 500 +:+ nl) <$> ToolCalls r)
  end.

(** Where the recent messages start: [KeepLastN] from the end, one earlier when
    that message is a response. *)
Definition recent_start (msgs : list ModelMessage) (keepN : Z) : Z :=
  let startRecent := Z.of_nat (length msgs) - keepN in
  if startRecent >? 1 then
    match msgs !! Z.to_nat startRecent with
    | Some (Response _) => startRecent - 1
    | _ => startRecent
    end
  else startRecent.

Definition summary_message (msgs : list ModelMessage) (summary : string) : ModelMessage :=
  let pin := BuildInstructionPin msgs in
  let text := if String.eqb pin "" then "[Conversation Summary] " +:+ summary
              else "[Conversation Summary]" +:+ nl +:+ pin +:+ nl +:+ nl +:+ summary in
  Response (MkModelResponse [TextPart text] zero_usage "" (FinishReasonOther "")).

Section compress.
Context {W : Type}.

(** The messages, and the error of the summary model.  [WithAutoContext] makes
    [KeepLastN] positive, and the run has a first message when it is called. *)
Definition autoCompressMessages (msgs : list ModelMessage) (config : AutoContextConfig W)
    (fallbackModel : Model W) (tokenCount : Z) (w : W) : W * (list ModelMessage * option error) :=
  if tokenCount <=? MaxTokens config then (w, (msgs, None))
  else if KeepLastN config >=? Z.of_nat (length msgs) then (w, (msgs, None))
  else
    let startRecent := recent_start msgs (KeepLastN config) in
    let firstMsg := firstn 1 msgs in
    let oldMessages := skipn 1 (firstn (Z.to_nat startRecent) msgs) in
    let recentMessages := skipn (Z.to_nat startRecent) msgs in
    if bool_decide (oldMessages = []) then (w, (msgs, None))
    else
      let summaryModel := default fallbackModel (SummaryModel config) in
      let req := [ModelRequest [UserPromptPart
                   (summary_instructions +:+ String.concat "" (summary_lines <$> oldMessages))]] in
      match Request summaryModel req None
              (MkModelRequestParameters [] (OutputModeOther "") [] None true) w with
      | (w, Err e) => (w, (msgs, Some e))
      | (w, Ok resp) =>
        if String.eqb (TextContent resp) "" then (w, (msgs, None))
        else (w, (stripOrphanedToolResults
                    (firstMsg ++ [summary_message msgs (TextContent resp)] ++ recentMessages), None))
      end.
End compress.
