(* ===== verification/AgentTools.v ===== *)
(** * Execution of tool calls

    [executeSingleTool] and [executeFunctionTools] of src/core/agent.go.

    Concurrency-safe calls run in goroutines that share the run state under its
    mutex.  A tool call is therefore a program of atomic actions ([prog]): a section
    under the mutex, one callback, one published event.  A batch runs its programs
    as a pool of threads; a schedule (a list of thread numbers) says which thread
    takes the next action, and the theorems hold for every schedule.  When the
    schedule is used up, what is left of the batch runs to completion in order,
    which stands for [wg.Wait]: every complete interleaving of the goroutines is the
    run of some schedule. *)

From S2P Require Import Prelude Errors Usage Messages Truncate AgentTypes.

(** ** Programs of atomic actions *)

Section prog.
Context {W : Type}.

Inductive prog (A : Type) : Type :=
| Ret (a : A)
| Act {X : Type} (f : St W → St W * X) (k : X → prog A).
Arguments Ret {A} _.
Arguments Act {A X} _ _.

Fixpoint bind {A B} (m : prog A) (k : A → prog B) : prog B :=
  match m with
  | Ret a => k a
  | Act f c => Act f (λ x, bind (c x) k)
  end.

Definition act {X} (f : St W → St W * X) : prog X := Act f Ret.
Definition update (f : St W → St W) : prog unit := act (λ s, (f s, tt)).

(** A program run with no other thread in between. *)
Fixpoint run {A} (m : prog A) (s : St W) : St W * A :=
  match m with
  | Ret a => (s, a)
  | Act f k => let '(s, x) := f s in run (k x) s
  end.

Lemma run_bind {A B} (m : prog A) (k : A → prog B) s :
  run (bind m k) s = (let '(s', a) := run m s in run (k a) s').
Proof. revert s. induction m as [a|X f c IH]; intros s; simpl; [done|]. destruct (f s). apply IH. Qed.

(** Weakest preconditions of a program run on its own. *)
Definition wp {A} (m : prog A) (Q : A → St W → Prop) (s : St W) : Prop := Q (run m s).2 (run m s).1.

Lemma wp_ret {A} (x : A) (Q : A → St W → Prop) s : Q x s → wp (Ret x) Q s.
Proof. done. Qed.
Lemma wp_bind {A B} (m : prog A) (k : A → prog B) Q s :
  wp m (λ x, wp (k x) Q) s → wp (bind m k) Q s.
Proof. unfold wp. rewrite run_bind. by destruct (run m s). Qed.
Lemma wp_act {X} (f : St W → St W * X) (Q : X → St W → Prop) s : Q (f s).2 (f s).1 → wp (act f) Q s.
Proof. unfold wp, act. simpl. by destruct (f s). Qed.
Lemma wp_mono {A} (m : prog A) (P Q : A → St W → Prop) s :
  wp m P s → (∀ x s', P x s' → Q x s') → wp m Q s.
Proof. unfold wp. auto. Qed.
Lemma wp_run {A} (m : prog A) Q s s' x : wp m Q s → run m s = (s', x) → Q x s'.
Proof. unfold wp. intros H E. by rewrite E in H. Qed.
Lemma wp_intro {A} (m : prog A) (Q : A → St W → Prop) s :
  (∀ s' x, run m s = (s', x) → Q x s') → wp m Q s.
Proof. unfold wp. intros H. apply H. by destruct (run m s). Qed.
End prog.
Arguments prog : clear implicits.
Arguments Ret {W A} _.
Arguments Act {W A X} _ _.
Arguments wp : simpl never.

Declare Scope prog_scope.
Delimit Scope prog_scope with prog.
Notation "x <- m ;; k" := (bind m (λ x, k))
  (at level 100, m at level 90, k at level 200, right associativity) : prog_scope.
Notation "m ;;; k" := (bind m (λ _, k))
  (at level 100, k at level 200, right associativity) : prog_scope.

(** How a tool call ends: a part for the model, or one of the two internal parts
    [deferredToolPart] and [fatalToolPart]. *)
Inductive ToolOutcome :=
| OPart (p : RequestPart)
| ODeferred (d : DeferredToolRequest)
| OFatal (e : error).

Section tools.
Context {W T : Type}.
(** [json.Marshal] of a handler's result, and [ctx.Err()] in a world. *)
Context (json_marshal : ToolValue → res string).
Context (ctx_Err : W → option error).
Context (a : Agent W T).
Local Open Scope prog_scope.

(** ** Effects *)

(** A callback: it reads and changes the world. *)
Definition callback {X} (f : W → W * X) : prog W X :=
  act (λ s, let '(w, x) := f (world s) in (s <| world := w |>, x)).

(** [Publish], when an event bus is configured. *)
Definition publish (e : RunEvent) : prog W unit :=
  update (λ s, if eventBus a then s <| events ::= λ l, l ++ [e] |> else s).

Definition fire_hooks (h : HookCall) (w : W) : W := foldl (λ w hook, hook h w) w (hooks a).
Definition fireHook (h : HookCall) : prog W unit := callback (λ w, (fire_hooks h w, tt)).

(** A section under [state.mu]. *)
Definition locked {X} (f : RunState → RunState * X) : prog W X :=
  act (λ s, let '(r, x) := f (rs s) in (s <| rs := r |>, x)).

Definition beginApprovalWait (r : RunState) : RunState * bool :=
  let r := r <| activeApprovals ::= Z.add 1 |> in (r, activeApprovals r =? 1).
Definition endApprovalWait (r : RunState) : RunState * bool :=
  if activeApprovals r =? 0 then (r, false)
  else let r := r <| activeApprovals ::= λ n, n - 1 |> in (r, activeApprovals r =? 0).

(** ** One tool call *)

Definition serializeToolResult (v : ToolValue) : res string :=
  match v with
  | VNil => Ok ""
  | VString s => Ok s
  | _ => json_marshal v
  end.

(** [safeCallHandler]: a panic becomes an error. *)
Definition safeCallHandler (h : ToolHandler W) (rc : RunContext) (timeout : Duration) (args : string)
    : W → W * (ToolValue + error) :=
  λ w, let '(w, o) := h rc timeout args w in
  (w, match o with
      | HOk v => inl v
      | HErr e => inr e
      | HPanic m => inr (ENew ("tool handler panicked: " +:+ m))
      end).

Definition tool_retries (r : RunState) (name : string) : Z := default 0 (toolRetries r !! name).

(** The retry counter of a tool is read and incremented. *)
Definition bump_tool_retries (name : string) : prog W Z :=
  locked (λ r, (r <| toolRetries ::= λ m, <[name := tool_retries r name + 1]> m |>, tool_retries r name)).

Definition exceeded_msg (name : string) (maxR : Z) (msg : string) : string :=
  "tool " +:+ go_quote name +:+ " exceeded maximum retries (" +:+ itoa maxR +:+ "): " +:+ msg.

Definition tool_return (c : ToolCallPart) (content : string) : ToolOutcome :=
  OPart (ToolReturnPart (tc_ToolName c) content (tc_ToolCallID c) []).
Definition tool_retry (c : ToolCallPart) (content : string) : ToolOutcome :=
  OPart (RetryPromptPart content (tc_ToolName c) (tc_ToolCallID c)).

(** The approval step: [None] when the call may proceed. *)
Definition approve (c : ToolCallPart) (tool : Tool W) : prog W (option ToolOutcome) :=
  let name := tc_ToolName c in let id := tc_ToolCallID c in
  if tool_RequiresApproval tool then
    publish (ApprovalRequestedEvent id name (tc_ArgsJSON c));;;
    match toolApprovalFunc a with
    | None =>
      publish (ApprovalResolvedEvent id name false);;;
      publish (ToolFailedEvent id name "no approval function configured");;;
      Ret (Some (tool_retry c ("tool " +:+ go_quote name +:+
        " requires approval but no approval function is configured")))
    | Some f =>
      first <- locked beginApprovalWait;;
      (if first then publish (RunWaitingEvent "approval") else Ret tt);;;
      answer <- callback (f id name (tc_ArgsJSON c));;
      last_one <- locked endApprovalWait;;
      (if last_one then publish RunResumedEvent else Ret tt);;;
      publish (ApprovalResolvedEvent id name (match answer with Ok b => b | Err _ => false end));;;
      match answer with
      | Err e =>
        publish (ToolFailedEvent id name ("approval error: " +:+ Error e));;;
        Ret (Some (tool_return c ("error checking tool approval: " +:+ Error e)))
      | Ok false =>
        publish (ToolFailedEvent id name "denied by user");;;
        Ret (Some (tool_retry c ("tool call " +:+ go_quote name +:+ " was denied by the user")))
      | Ok true => Ret None
      end
    end
  else Ret None.

(** Hooks and events after the handler returned. *)
Definition report_end (c : ToolCallPart) (rc : RunContext) (r : ToolValue + error) : prog W unit :=
  let name := tc_ToolName c in let id := tc_ToolCallID c in
  let resultStr := match r with
    | inl v => match serializeToolResult v with
               | Ok s => s
               | Err e => "(serialization error: " +:+ Error e +:+ ")"
               end
    | inr _ => ""
    end in
  fireHook (OnToolEnd rc id name resultStr (match r with inl _ => None | inr e => Some e end));;;
  match r with
  | inl _ => publish (ToolCompletedEvent id name resultStr)
  | inr e =>
    match errors_as as_deferred e with
    | Some _ => Ret tt
    | None => publish (ToolFailedEvent id name (Error e))
    end
  end.

(** The handler failed. *)
Definition handler_failed (c : ToolCallPart) (maxR : Z) (e : error) : prog W ToolOutcome :=
  match errors_as as_fatal e with
  | Some fatal => Ret (OFatal fatal)
  | None =>
    match errors_as as_deferred e with
    | Some _ => Ret (ODeferred (MkDeferredToolRequest (tc_ToolName c) (tc_ToolCallID c) (tc_ArgsJSON c)))
    | None =>
      match errors_as as_model_retry e with
      | Some msg =>
        retryCount <- bump_tool_retries (tc_ToolName c);;
        Ret (tool_retry c (if retryCount >=? maxR then exceeded_msg (tc_ToolName c) maxR msg else msg))
      | None => Ret (tool_return c ("error: " +:+ Error e))
      end
    end
  end.

(** Validators are run until one fails. *)
Fixpoint run_validators (c : ToolCallPart) (rc : RunContext) (maxR : Z) (content : string)
    (vs : list (ToolResultValidatorFunc W)) : prog W (option ToolOutcome) :=
  match vs with
  | [] => Ret None
  | v :: vs =>
    r <- callback (v rc (tc_ToolName c) content);;
    match r with
    | None => run_validators c rc maxR content vs
    | Some e =>
      retryCount <- bump_tool_retries (tc_ToolName c);;
      let msg := "tool result validation failed: " +:+ Error e in
      Ret (Some (tool_retry c
        (if retryCount >=? maxR then exceeded_msg (tc_ToolName c) maxR msg else msg)))
    end
  end.

(** The handler returned a value. *)
Definition handler_returned (c : ToolCallPart) (tool : Tool W) (rc : RunContext) (maxR : Z)
    (v : ToolValue) : prog W ToolOutcome :=
  match match v with
        | VImages text images => Ok (text, images)
        | _ => match serializeToolResult v with Ok s => Ok (s, []) | Err e => Err e end
        end with
  | Err e => Ret (tool_return c ("error serializing result: " +:+ Error e))
  | Ok (content, images) =>
    bad <- run_validators c rc maxR content (option_list (tool_ResultValidator tool));;
    match bad with
    | Some o => Ret o
    | None =>
      bad <- run_validators c rc maxR content (globalToolResultValidators a);;
      match bad with
      | Some o => Ret o
      | None =>
        locked (λ r, (r <| toolRetries ::= delete (tc_ToolName c) |>, tt));;;
        let content := match truncationConfig a with
                       | Some maxTokens => TruncateToolOutput content maxTokens
                       | None => content
                       end in
        Ret (OPart (ToolReturnPart (tc_ToolName c) content (tc_ToolCallID c) images))
      end
    end
  end.

Definition tool_max_retries (tool : Tool W) : Z := default (maxRetries a) (tool_MaxRetries tool).
Definition tool_timeout (tool : Tool W) : Duration :=
  let timeout := tool_Timeout tool in
  let timeout := if (timeout =? 0) && (defaultToolTimeout a >? 0) then defaultToolTimeout a else timeout in
  if timeout >? 0 then timeout else 0.

(** The call is counted, and the context of the callbacks is built. *)
Definition start_call (c : ToolCallPart) (maxR : Z) (prompt : string) : prog W RunContext :=
  locked (λ r,
    let r := r <| usage ::= IncrToolCall |> in
    (r, (buildRunContext r prompt) <| rc_Retry := tool_retries r (tc_ToolName c) |>
          <| rc_MaxRetries := maxR |> <| rc_ToolName := tc_ToolName c |>
          <| rc_ToolCallID := tc_ToolCallID c |>)).

Definition executeSingleTool (c : ToolCallPart) (tool : Tool W) (prompt : string) : prog W ToolOutcome :=
  let maxR := tool_max_retries tool in
  rc <- start_call c maxR prompt;;
  publish (ToolCalledEvent (tc_ToolCallID c) (tc_ToolName c) (tc_ArgsJSON c));;;
  refused <- approve c tool;;
  match refused with
  | Some o => Ret o
  | None =>
    fireHook (OnToolStart rc (tc_ToolCallID c) (tc_ToolName c) (tc_ArgsJSON c));;;
    r <- callback (safeCallHandler (tool_Handler tool) rc (tool_timeout tool) (tc_ArgsJSON c));;
    report_end c rc r;;;
    match r with
    | inr e => handler_failed c maxR e
    | inl v => handler_returned c tool rc maxR v
    end
  end.

(** ** Batches *)

Definition concurrency_safe (tool : Tool W) : bool :=
  td_ConcurrencySafe (tool_Definition tool) && negb (td_Sequential (tool_Definition tool)).

Definition Call : Type := ToolCallPart * Tool W.
Record toolBatch := MkToolBatch { batch_safe : bool; batch_calls : list Call }.

(** One iteration of the loop that groups the calls; the batches so far, the last
    one first. *)
Definition add_call (batches : list toolBatch) (ic : Call) : list toolBatch :=
  let safe := concurrency_safe ic.2 in
  match batches with
  | b :: rest =>
    if safe && batch_safe b then MkToolBatch true (batch_calls b ++ [ic]) :: rest
    else MkToolBatch safe [ic] :: batches
  | [] => [MkToolBatch safe [ic]]
  end.
Definition tool_batches (calls : list Call) : list toolBatch := rev (foldl add_call [] calls).

(** The goroutines of a batch: waiting for the semaphore, running, or done. *)
Inductive thread :=
| TWait (ic : Call)
| TRun (m : prog W ToolOutcome)
| TDone (o : ToolOutcome).

Definition is_running (t : thread) : bool := match t with TRun _ => true | _ => false end.
Definition running (ts : list thread) : Z := Z.of_nat (length (filter (λ t, is_running t = true) ts)).

(** The context ended while the goroutine waited for a slot. *)
Definition cancelled_waiting (c : ToolCallPart) (e : error) (s : St W) : St W * ToolOutcome :=
  let ev := [ToolCalledEvent (tc_ToolCallID c) (tc_ToolName c) (tc_ArgsJSON c);
             ToolFailedEvent (tc_ToolCallID c) (tc_ToolName c) "context cancelled waiting for semaphore"] in
  (if eventBus a then s <| events ::= λ l, l ++ ev |> else s,
   tool_return c ("error: " +:+ Error e)).

(** One action of a thread while [slots_used] slots are taken.  A waiting goroutine
    takes a free slot or sees the end of the context; when both are possible [stop]
    says which way [select] goes.  Without a semaphore it starts at once. *)
Definition thread_step (prompt : string) (stop : bool) (slots_used : Z) (t : thread) (s : St W)
    : St W * thread :=
  match t with
  | TDone _ => (s, t)
  | TRun (Ret o) => (s, TDone o)
  | TRun (Act f k) => let '(s, x) := f s in (s, TRun (k x))
  | TWait ic =>
    if maxConcurrency a >? 0 then
      let free := slots_used <? maxConcurrency a in
      match ctx_Err (world s) with
      | Some e =>
        if stop || negb free
        then let '(s, o) := cancelled_waiting ic.1 e s in (s, TDone o)
        else (s, TRun (executeSingleTool ic.1 ic.2 prompt))
      | None => if free then (s, TRun (executeSingleTool ic.1 ic.2 prompt)) else (s, t)
      end
    else (s, TRun (executeSingleTool ic.1 ic.2 prompt))
  end.

Definition pool_step (prompt : string) (i : nat) (stop : bool) (ts : list thread) (s : St W)
    : St W * list thread :=
  match ts !! i with
  | None => (s, ts)
  | Some t => let '(s, t) := thread_step prompt stop (running ts) t s in (s, <[i := t]> ts)
  end.

Fixpoint run_schedule (prompt : string) (sched : list (nat * bool)) (ts : list thread) (s : St W)
    : St W * list thread :=
  match sched with
  | [] => (s, ts)
  | (i, stop) :: sched => let '(s, ts) := pool_step prompt i stop ts s in run_schedule prompt sched ts s
  end.

(** What the schedule left running is finished in order, then the waiting
    goroutines take their turn one after the other. *)
Definition finish_running (t : thread) (s : St W) : St W * thread :=
  match t with
  | TRun m => let '(s, o) := run m s in (s, TDone o)
  | _ => (s, t)
  end.
Definition finish_thread (prompt : string) (t : thread) (s : St W) : St W * ToolOutcome :=
  match t with
  | TDone o => (s, o)
  | TRun m => run m s
  | TWait ic => run (executeSingleTool ic.1 ic.2 prompt) s
  end.

Fixpoint map_state {A B} (f : A → St W → St W * B) (l : list A) (s : St W) : St W * list B :=
  match l with
  | [] => (s, [])
  | x :: l => let '(s, y) := f x s in let '(s, ys) := map_state f l s in (s, y :: ys)
  end.

(** The outcomes of a concurrent batch, in the order of its calls. *)
Definition run_concurrent (prompt : string) (calls : list Call) (s : St W) : St W * list ToolOutcome :=
  let sched := default [] (head (schedules s)) in
  let s := s <| schedules ::= tail |> in
  let '(s, ts) := run_schedule prompt sched (TWait <$> calls) s in
  let '(s, ts) := map_state finish_running ts s in
  map_state (finish_thread prompt) ts s.

(** [publishPendingFailures]: the calls that will not run any more. *)
Definition publishPendingFailures (pending : list Call) (msg : string) (s : St W) : St W :=
  if eventBus a then
    s <| events ::= λ l, l ++ (pending ≫= λ ic : Call,
      [ToolCalledEvent (tc_ToolCallID ic.1) (tc_ToolName ic.1) (tc_ArgsJSON ic.1);
       ToolFailedEvent (tc_ToolCallID ic.1) (tc_ToolName ic.1) msg]) |>
  else s.

Definition first_fatal (os : list ToolOutcome) : option error :=
  head (omap (λ o, match o with OFatal e => Some e | _ => None end) os).

(** The calls of an exclusive batch, one by one. *)
Fixpoint run_exclusive (prompt : string) (calls : list Call) (later : list Call) (s : St W)
    : St W * res (list ToolOutcome) :=
  match calls with
  | [] => (s, Ok [])
  | ic :: calls =>
    match ctx_Err (world s) with
    | Some e => (publishPendingFailures (ic :: calls ++ later) (Error e) s, Err e)
    | None =>
      let '(s, o) := run (executeSingleTool ic.1 ic.2 prompt) s in
      match o with
      | OFatal e => (s, Err e)
      | _ =>
        let '(s, r) := run_exclusive prompt calls later s in
        (s, match r with Ok os => Ok (o :: os) | Err e => Err e end)
      end
    end
  end.

Fixpoint run_batches (prompt : string) (batches : list toolBatch) (s : St W)
    : St W * res (list ToolOutcome) :=
  match batches with
  | [] => (s, Ok [])
  | b :: batches =>
    match ctx_Err (world s) with
    | Some e => (publishPendingFailures (mjoin (batch_calls <$> (b :: batches))) (Error e) s, Err e)
    | None =>
      let '(s, r) :=
        if batch_safe b then
          let '(s, os) := run_concurrent prompt (batch_calls b) s in
          (s, match first_fatal os with Some e => Err e | None => Ok os end)
        else run_exclusive prompt (batch_calls b) (mjoin (batch_calls <$> batches)) s in
      match r with
      | Err e => (s, Err e)
      | Ok os =>
        let '(s, r) := run_batches prompt batches s in
        (s, match r with Ok os' => Ok (os ++ os') | Err e => Err e end)
      end
    end
  end.

(** The outcomes in the order of the calls, or the error that stopped them. *)
Definition executeFunctionTools (prompt : string) (calls : list Call) (s : St W)
    : St W * res (list ToolOutcome) :=
  run_batches prompt (tool_batches calls) s.

(** ** Rules of the effects *)

Lemma wp_callback {X} (f : W → W * X) (Q : X → St W → Prop) s :
  Q (f (world s)).2 (s <| world := (f (world s)).1 |>) → wp (callback f) Q s.
Proof. intros H. apply wp_act. by destruct (f (world s)). Qed.
Lemma wp_locked {X} (f : RunState → RunState * X) (Q : X → St W → Prop) s :
  Q (f (rs s)).2 (s <| rs := (f (rs s)).1 |>) → wp (locked f) Q s.
Proof. intros H. apply wp_act. by destruct (f (rs s)). Qed.
Lemma wp_publish e (Q : unit → St W → Prop) s :
  (∀ s', rs s' = rs s → world s' = world s → Q tt s') → wp (publish e) Q s.
Proof. intros H. apply wp_act. apply H; simpl; by destruct (eventBus a). Qed.
End tools.
Arguments Call : clear implicits.
