(* ===== verification/AgentLoop.v ===== *)
(** * The agent loop

    [processResponse] and [runLoop] of src/core/agent.go, the turn engine of
    src/core/run_engine.go, and the helpers they use from output.go, interceptor.go
    and agent_middleware.go.  The loop is a program of atomic actions (AgentTools)
    over the run state and the world of the callbacks. *)

From S2P Require Import Prelude Errors Usage Messages Truncate AgentTypes AutoContext AgentTools.

Notation "x <-? m ;; k" :=
  (bind m (λ r, match r with Ok x => k | Err e => Ret (Err e) end))
  (at level 100, m at level 90, k at level 200, right associativity) : prog_scope.

(** ** Results *)

Record finalResult (T : Type) := MkFinalResult {
  fr_output : T;
  fr_toolName : string;
  fr_toolCallID : string;
}.
Arguments MkFinalResult {T} _ _ _.
Arguments fr_output {T} _.

(** What [processResponse] returns besides an error. *)
Record Processed (T : Type) := MkProcessed {
  final : option (finalResult T);
  nextParts : list RequestPart;
  deferredReqs : list DeferredToolRequest;
}.
Arguments MkProcessed {T} _ _ _.
Arguments final {T} _.
Arguments nextParts {T} _.
Arguments deferredReqs {T} _.

Record RunResult (T : Type) := MkRunResult {
  Output : T;
  res_Messages : list ModelMessage;
  res_Usage : RunUsage;
  res_RunID : string;
}.
Arguments MkRunResult {T} _ _ _ _.
Arguments Output {T} _.
Arguments res_Messages {T} _.
Arguments res_Usage {T} _.

(** The error of a run: [ErrDeferred], or any other. *)
Inductive RunError :=
| RunFailed (e : error)
| ErrDeferred (requests : list DeferredToolRequest) (msgs : list ModelMessage) (u : RunUsage).

(** The three ways [Step] returns. *)
Inductive StepResult (T : Type) :=
| SErr (resp : option ModelResponse) (e : RunError)
| SDone (resp : ModelResponse) (r : RunResult T)
| SNext (resp : ModelResponse).
Arguments SErr {T} _ _.
Arguments SDone {T} _ _.
Arguments SNext {T} _.

Section loop.
Context {W T : Type}.
(** encoding/json ([json_marshal] of a handler's result, [json_object_ok]: is the
    text a JSON object, [unmarshal_wrapper]: the members of a JSON object,
    [unmarshal_T]: a value of the output type), Go's type assertion of a string to
    the output type, the printed name of the output type, and [ctx.Err()]. *)
Context (json_marshal : ToolValue → res string).
Context (json_object_ok : string → bool).
Context (unmarshal_wrapper : string → res (gmap string string)).
Context (unmarshal_T : string → res T).
Context (string_as_T : string → option T).
Context (type_name_T : string).
Context (ctx_Err : W → option error).
Context (a : Agent W T).
Local Open Scope prog_scope.

Local Abbreviation publish := (publish a).
Local Abbreviation fireHook := (fireHook a).

(** ** Output *)

Definition deserializeOutput (argsJSON outerKey : string) : res T :=
  match
    (if String.eqb outerKey "" then Ok argsJSON
     else match unmarshal_wrapper argsJSON with
          | Err e => Err (EWrap "failed to unmarshal output wrapper: " e "")
          | Ok wrapper =>
            match wrapper !! outerKey with
            | None => Err (ENew ("output wrapper missing key " +:+ go_quote outerKey))
            | Some inner => Ok inner
            end
          end)
  with
  | Err e => Err e
  | Ok data =>
    match unmarshal_T data with
    | Err e => Err (EWrap "failed to unmarshal output: " e "")
    | Ok v => Ok v
    end
  end.
Definition parse_output (text : string) : res T :=
  deserializeOutput text (os_OuterTypedDictKey (outputSchema a)).

Fixpoint validateOutput (rc : RunContext) (output : T) (vs : list (OutputValidatorFunc W T))
    : prog W (T * option error) :=
  match vs with
  | [] => Ret (output, None)
  | v :: vs =>
    r <- callback (v rc output);;
    match r.2 with
    | Some e => Ret (r.1, Some e)
    | None => validateOutput rc r.1 vs
    end
  end.

Definition get : prog W RunState := act (λ s, (s, rs s)).

(** The context of the repair hook has no history. *)
Definition repair_context (r : RunState) (prompt name id : string) : RunContext :=
  MkRunContext (usage r) prompt 0 0 name id [] (runStep r) (runID r) "".

Definition is_err {A} (r : res A) : option error := match r with Ok _ => None | Err e => Some e end.

Definition try_repair (f : RepairFunc W T) (raw prompt name id : string) (e : error) : prog W (res T) :=
  repaired <- callback (f raw e);;
  r <- get;;
  fireHook (OnOutputRepair (repair_context r prompt name id) (is_ok repaired) (is_err repaired));;;
  Ret repaired.

(** Validators, then the validation hook. *)
Definition validate (rc : RunContext) (output : T) : prog W (T * option error) :=
  r <- validateOutput rc output (outputValidators a);;
  fireHook (OnOutputValidation rc (negb (bool_decide (is_Some r.2))) r.2);;;
  Ret r.

(** ** Retries *)

Definition increment_retries : prog W (option error) :=
  locked (λ r,
    let '(n, e) := incrementRetries json_object_ok (retries r) (maxRetries a) (messages r) in
    (r <| retries := n |>, e)).

Definition recordRetryScheduled (reason name id : string) : prog W unit :=
  r <- get;;
  publish (RetryScheduledEvent (runStep r) name id reason (retries r) (maxRetries a)).

(** One more result retry: the part that asks for it, or the error. *)
Definition schedule_retry (reason name id : string) : prog W (res RequestPart) :=
  e <- increment_retries;;
  match e with
  | Some e => Ret (Err e)
  | None => recordRetryScheduled reason name id;;; Ret (Ok (buildRetryParts reason name id))
  end.

(** ** A response without tool calls *)

Definition parse_text (text prompt : string) : prog W (res T) :=
  match parse_output text with
  | Ok output => Ret (Ok output)
  | Err err =>
    if bool_decide (os_Mode (outputSchema a) = OutputModeText) then
      Ret (match string_as_T text with
           | Some output => Ok output
           | None => Err (ENew ("output mode is text but type " +:+ type_name_T +:+
                                " is not compatible with string"))
           end)
    else match repairFunc a with
    | None => Ret (Err (EWrap "failed to parse text output: " err ""))
    | Some f =>
      repaired <- try_repair f text prompt "" "" err;;
      Ret (match repaired with
           | Ok output => Ok output
           | Err _ => Err (EWrap "failed to parse text output: " err "")
           end)
    end
  end.

Definition text_output (text prompt : string) : prog W (res (Processed T)) :=
  output <-? parse_text text prompt;;
  r <- get;;
  v <- validate (buildRunContext r prompt) output;;
  match v with
  | (output, None) => Ret (Ok (MkProcessed (Some (MkFinalResult output "" "")) [] []))
  | (_, Some e) =>
    match errors_as as_model_retry e with
    | Some msg => part <-? schedule_retry msg "" "";; Ret (Ok (MkProcessed None [part] []))
    | None => Ret (Err e)
    end
  end.

Definition empty_response (resp : ModelResponse) : prog W (res (Processed T)) :=
  if bool_decide (resp_FinishReason resp = FinishReasonLength) then
    Ret (Err (EUnexpectedModelBehavior
      "model response ended due to token limit without producing a result"))
  else if bool_decide (resp_FinishReason resp = FinishReasonContentFilter) then
    Ret (Err (EContentFilter "content filter triggered"))
  else
    part <-? schedule_retry "empty response, please provide a result" "" "";;
    Ret (Ok (MkProcessed None [part] [])).

(** ** A response with tool calls *)

(** The tools by name; a later tool shadows an earlier one. *)
Definition allTools : list (Tool W) := tools a ++ mjoin (toolsets a).
Definition toolMap (name : string) : option (Tool W) :=
  last (filter (λ t, td_Name (tool_Definition t) = name) allTools).
Definition is_output_tool (name : string) : bool :=
  bool_decide (name ∈ td_Name <$> os_OutputTools (outputSchema a)).

Definition availableToolNames : string :=
  let names := (td_Name <$> (tool_Definition <$> allTools)) ++
               (td_Name <$> os_OutputTools (outputSchema a)) in
  match names with [] => "(none)" | _ => String.concat ", " names end.

Definition outputCalls (calls : list ToolCallPart) : list ToolCallPart :=
  filter (λ c, is_output_tool (tc_ToolName c) = true) calls.
Definition functionCalls (calls : list ToolCallPart) : list (Call W) :=
  omap (λ c, if is_output_tool (tc_ToolName c) then None
             else (λ t, (c, t)) <$> toolMap (tc_ToolName c)) calls.
Definition unknownCalls (calls : list ToolCallPart) : list ToolCallPart :=
  filter (λ c, is_output_tool (tc_ToolName c) = false ∧ toolMap (tc_ToolName c) = None) calls.

Fixpoint unknown_parts (calls : list ToolCallPart) : prog W (list RequestPart) :=
  match calls with
  | [] => Ret []
  | c :: calls =>
    let reason := "unknown tool " +:+ go_quote (tc_ToolName c) +:+ ", available tools: " +:+
                  availableToolNames in
    recordRetryScheduled reason (tc_ToolName c) (tc_ToolCallID c);;;
    ps <- unknown_parts calls;;
    Ret (buildRetryParts reason (tc_ToolName c) (tc_ToolCallID c) :: ps)
  end.

(** Unknown tools cost one retry for the whole response. *)
Definition handle_unknown (calls : list ToolCallPart) : prog W (res (list RequestPart)) :=
  match calls with
  | [] => Ret (Ok [])
  | _ =>
    e <- increment_retries;;
    match e with
    | Some e => Ret (Err e)
    | None => ps <- unknown_parts calls;; Ret (Ok ps)
    end
  end.

(** Parse the arguments of an output call, with one attempt at repair. *)
Definition parse_call (c : ToolCallPart) (prompt : string) : prog W (res T) :=
  match parse_output (tc_ArgsJSON c) with
  | Ok output => Ret (Ok output)
  | Err err =>
    match repairFunc a with
    | None => Ret (Err err)
    | Some f =>
      repaired <- try_repair f (tc_ArgsJSON c) prompt (tc_ToolName c) (tc_ToolCallID c) err;;
      Ret (match repaired with Ok output => Ok output | Err _ => Err err end)
    end
  end.

(** One output call: an accepted output, or a part that asks for another one. *)
Definition output_call (c : ToolCallPart) (prompt : string) : prog W (res (T + RequestPart)) :=
  let name := tc_ToolName c in let id := tc_ToolCallID c in
  parsed <- parse_call c prompt;;
  match parsed with
  | Err err =>
    part <-? schedule_retry ("failed to parse output: " +:+ Error err) name id;; Ret (Ok (inr part))
  | Ok output =>
    r <- get;;
    v <- validate ((buildRunContext r prompt) <| rc_ToolName := name |> <| rc_ToolCallID := id |>) output;;
    match v with
    | (output, None) => Ret (Ok (inl output))
    | (_, Some e) =>
      match errors_as as_model_retry e with
      | Some msg => part <-? schedule_retry msg name id;; Ret (Ok (inr part))
      | None => Ret (Err e)
      end
    end
  end.

Definition accepted_part (c : ToolCallPart) (content : string) : RequestPart :=
  ToolReturnPart (tc_ToolName c) content (tc_ToolCallID c) [].

(** The loop over the output calls.  The flag tells that the early strategy returned
    from the middle of it. *)
Fixpoint output_loop (calls : list ToolCallPart) (prompt : string) (result : option (finalResult T))
    (parts : list RequestPart) : prog W (res (bool * (option (finalResult T) * list RequestPart))) :=
  match calls with
  | [] => Ret (Ok (false, (result, parts)))
  | c :: calls =>
    o <-? output_call c prompt;;
    match o with
    | inr part => output_loop calls prompt result (parts ++ [part])
    | inl output =>
      match result with
      | None =>
        let result := Some (MkFinalResult output (tc_ToolName c) (tc_ToolCallID c)) in
        let parts := parts ++ [accepted_part c "output accepted"] in
        match endStrategy a with
        | EndStrategyEarly => Ret (Ok (true, (result, parts)))
        | EndStrategyExhaustive => output_loop calls prompt result parts
        end
      | Some _ =>
        output_loop calls prompt result
          (parts ++ [accepted_part c "output already accepted; duplicate ignored"])
      end
    end
  end.

Definition outcome_part (o : ToolOutcome) : option RequestPart :=
  match o with OPart p => Some p | _ => None end.
Definition outcome_deferred (o : ToolOutcome) : option DeferredToolRequest :=
  match o with ODeferred d => Some d | _ => None end.

Definition tool_limit_error (limit used pending : Z) : error :=
  EUsageLimitExceeded ("tool call limit of " +:+ itoa limit +:+ " exceeded (used " +:+ itoa used +:+
                       ", pending " +:+ itoa pending +:+ ")").

(** The function calls: the limit is checked for all of them before the first runs,
    and the retry counter is reset after they ran. *)
Definition function_calls (calls : list (Call W)) (prompt : string) : prog W (res (list ToolOutcome)) :=
  match calls with
  | [] => Ret (Ok [])
  | _ =>
    r <- get;;
    let pending := Z.of_nat (length calls) in
    let used := Usage.ToolCalls (usage r) in
    match ToolCallsLimit (limits r) with
    | Some limit =>
      if used + pending >? limit then Ret (Err (tool_limit_error limit used pending))
      else
        os <-? act (executeFunctionTools json_marshal ctx_Err a prompt calls);;
        locked (λ r, (r <| retries := 0 |>, tt));;; Ret (Ok os)
    | None =>
      os <-? act (executeFunctionTools json_marshal ctx_Err a prompt calls);;
      locked (λ r, (r <| retries := 0 |>, tt));;; Ret (Ok os)
    end
  end.

Definition process_calls (calls : list ToolCallPart) (prompt : string) : prog W (res (Processed T)) :=
  parts <-? handle_unknown (unknownCalls calls);;
  out <-? output_loop (outputCalls calls) prompt None parts;;
  let '(early, (result, parts)) := out in
  if (early : bool) then Ret (Ok (MkProcessed result parts []))
  else
    os <-? function_calls (functionCalls calls) prompt;;
    Ret (Ok (MkProcessed result (parts ++ omap outcome_part os) (omap outcome_deferred os))).

Definition processResponse (resp : ModelResponse) (prompt : string) : prog W (res (Processed T)) :=
  let toolCalls := ToolCalls resp in
  let text := TextContent resp in
  match toolCalls with
  | [] =>
    if negb (String.eqb text "") && os_AllowsText (outputSchema a) then text_output text prompt
    else empty_response resp
  | _ => process_calls toolCalls prompt
  end.

(** ** Preparation of a turn *)

Fixpoint prepare_each (rc : RunContext) (ts : list (Tool W)) : prog W (list (Tool W)) :=
  match ts with
  | [] => Ret []
  | t :: ts =>
    match tool_PrepareFunc t with
    | None => rest <- prepare_each rc ts;; Ret (t :: rest)
    | Some f =>
      def <- callback (f rc (tool_Definition t));;
      rest <- prepare_each rc ts;;
      Ret (match def with
           | None => rest
           | Some d => MkTool d (tool_Handler t) (tool_MaxRetries t) (tool_RequiresApproval t)
                         (tool_PrepareFunc t) (tool_ResultValidator t) (tool_Timeout t) :: rest
           end)
    end
  end.

Definition retain (defs : list ToolDefinition) (ts : list (Tool W)) : list (Tool W) :=
  omap (λ t,
    d ← last (filter (λ d, td_Name d = td_Name (tool_Definition t)) defs);
    Some (MkTool d (tool_Handler t) (tool_MaxRetries t) (tool_RequiresApproval t)
            (tool_PrepareFunc t) (tool_ResultValidator t) (tool_Timeout t))) ts.

Definition hasToolPrepareFuncs (ts : list (Tool W)) : bool :=
  existsb (λ t, bool_decide (is_Some (tool_PrepareFunc t))) ts.

Definition prepareTools (ts : list (Tool W)) (prompt : string) : prog W (list (Tool W)) :=
  match toolsPrepareFunc a, hasToolPrepareFuncs ts with
  | None, false => Ret ts
  | agentPrepare, _ =>
    r <- get;;
    let rc := buildRunContext r prompt in
    prepared <- prepare_each rc ts;;
    match agentPrepare with
    | None => Ret prepared
    | Some f => defs <- callback (f rc (tool_Definition <$> prepared));; Ret (retain defs prepared)
    end
  end.

Definition buildModelRequestParams (ts : list (Tool W)) (output : OutputSchema) : ModelRequestParameters :=
  MkModelRequestParameters (tool_Definition <$> ts) (os_Mode output) (os_OutputTools output)
    (os_OutputObject output) (os_AllowsText output).

(** The tool choice of the agent fills an unset one.  Existing settings are changed
    in place; missing ones are made for this request. *)
Definition inject_tool_choice : prog W (option ModelSettings) :=
  act (λ s,
    match toolChoice a with
    | None => (s, settings s)
    | Some tc =>
      match settings s with
      | None => (s, Some (zero_settings <| ms_ToolChoice := Some tc |>))
      | Some ms =>
        match ms_ToolChoice ms with
        | Some _ => (s, Some ms)
        | None =>
          let ms := ms <| ms_ToolChoice := Some tc |> in
          (s <| settings := Some ms |>, Some ms)
        end
      end
    end).

(** [autoContext]: the history of the run is replaced when it got shorter. *)
Definition compress_history (turnRC : RunContext) : prog W unit :=
  match autoContext a with
  | None => Ret tt
  | Some config =>
    r <- get;;
    let beforeCount := Z.of_nat (length (messages r)) in
    let beforeTokens := currentContextTokenCount (messages r) (lastInputTokens r) in
    c <- callback (autoCompressMessages (messages r) config (model a) beforeTokens);;
    match c with
    | (compressed, None) =>
      if Z.of_nat (length compressed) <? beforeCount then
        locked (λ r, (r <| messages := compressed |>, tt));;;
        fireHook (OnContextCompaction turnRC
          (MkContextCompactionStats "auto_summary" beforeCount (Z.of_nat (length compressed))))
      else Ret tt
    | (_, Some _) => Ret tt
    end
  end.

Fixpoint fire_compactions (turnRC : RunContext) (cs : list ContextCompactionStats) : prog W unit :=
  match cs with
  | [] => Ret tt
  | c :: cs => fireHook (OnContextCompaction turnRC c);;; fire_compactions turnRC cs
  end.

Fixpoint run_history_processors (turnRC : RunContext) (procs : list (HistoryProcessor W))
    (msgs : list ModelMessage) : prog W (res (list ModelMessage)) :=
  match procs with
  | [] => Ret (Ok msgs)
  | proc :: procs =>
    r <- callback (proc msgs);;
    match r with
    | (_, Err e) => Ret (Err (EWrap "history processor failed: " e ""))
    | (compactions, Ok processed) =>
      let before := Z.of_nat (length msgs) in let after := Z.of_nat (length processed) in
      let compactions :=
        if bool_decide (compactions = []) && (after <? before)
        then [MkContextCompactionStats "history_processor" before after] else compactions in
      fire_compactions turnRC compactions;;;
      run_history_processors turnRC procs processed
    end
  end.

(** [None]: dropped. *)
Fixpoint runMessageInterceptors (ints : list (MessageInterceptor W)) (msgs : list ModelMessage)
    : prog W (option (list ModelMessage)) :=
  match ints with
  | [] => Ret (Some msgs)
  | i :: ints =>
    r <- callback (i msgs);;
    match ir_Action r with
    | MessageDrop => Ret None
    | MessageModify => runMessageInterceptors ints (ir_Messages r)
    | MessageAllow => runMessageInterceptors ints msgs
    end
  end.

Definition intercepted_parts (resp : ModelResponse) (r : InterceptResult) : ModelResponse :=
  match ir_Action r, ir_Messages r with
  | MessageModify, Response m :: _ => resp <| resp_Parts := resp_Parts m |>
  | _, _ => resp
  end.
(** Whether the response was dropped, and the response, which an interceptor may
    have changed in place. *)
Fixpoint runResponseInterceptors (ints : list (ResponseInterceptor W)) (resp : ModelResponse)
    : prog W (bool * ModelResponse) :=
  match ints with
  | [] => Ret (false, resp)
  | i :: ints =>
    r <- callback (i resp);;
    if bool_decide (ir_Action r = MessageDrop) then Ret (true, resp)
    else runResponseInterceptors ints (intercepted_parts resp r)
  end.

Fixpoint run_guardrails (rc : RunContext) (msgs : list ModelMessage)
    (gs : list (string * TurnGuardrailFunc W)) : prog W (option error) :=
  match gs with
  | [] => Ret None
  | (name, g) :: gs =>
    e <- callback (g rc msgs);;
    fireHook (OnGuardrailEvaluated rc name (negb (bool_decide (is_Some e))) e);;;
    match e with
    | Some e => Ret (Some (EGuardrail name (Error e)))
    | None => run_guardrails rc msgs gs
    end
  end.

(** The first middleware is the outermost one. *)
Definition buildMiddlewareChain (onCompaction : ContextCompactionStats → W → W) : RequestFunc W :=
  foldr (λ mw (next : RequestFunc W), λ msgs ms params, mw onCompaction msgs ms params next)
    (Request (model a)) (middleware a).

(** ** A turn *)

Definition emitTurnCompleted (resp : option ModelResponse) (e : option RunError) : prog W unit :=
  r <- get;;
  publish (TurnCompletedEvent (runStep r)
    (match resp with Some m => negb (bool_decide (ToolCalls m = [])) | None => false end)
    (match resp with Some m => negb (String.eqb (TextContent m) "") | None => false end)
    (match e with
     | Some (RunFailed e) => Error e
     | _ => "" end)).

(** The turn ends with an error. *)
Definition turn_failed (resp : option ModelResponse) (e : error) : prog W (StepResult T) :=
  emitTurnCompleted resp (Some (RunFailed e));;; Ret (SErr resp (RunFailed e)).

Definition buildRunResult (output : T) : prog W (RunResult T) :=
  r <- get;; Ret (MkRunResult output (messages r) (usage r) (runID r)).

(** The checks at the head of the loop. *)
Definition check_limits (s : St W) : option error :=
  let u := usage (rs s) in
  match ctx_Err (world s) with
  | Some e => Some e
  | None =>
    match CheckBeforeRequest (limits (rs s)) u with
    | Some e => Some e
    | None =>
      match CheckToolCalls (limits (rs s)) u with
      | Some e => Some e
      | None => checkQuota (usageQuota a) u
      end
    end
  end.

(** The messages and settings of the request. *)
Definition prepare_request (prompt : string) (turnRC : RunContext)
    : prog W (res (list ModelMessage * option ModelSettings * ModelRequestParameters)) :=
  prepared <- prepareTools allTools prompt;;
  let params := buildModelRequestParams prepared (outputSchema a) in
  ms <- inject_tool_choice;;
  compress_history turnRC;;;
  r <- get;;
  msgs <-? run_history_processors turnRC (historyProcessors a) (messages r);;
  msgs <- runMessageInterceptors (messageInterceptors a) msgs;;
  match msgs with
  | None => Ret (Err (ENew "message interceptor dropped the request"))
  | Some msgs =>
    r <- get;;
    g <- run_guardrails ((buildRunContext r prompt) <| rc_Messages := msgs |>) msgs (turnGuardrails a);;
    Ret (match g with Some e => Err e | None => Ok (msgs, ms, params) end)
  end.

(** The request itself and the accounting of its usage. *)
Definition model_request (turnRC modelRC : RunContext) (msgs : list ModelMessage)
    (ms : option ModelSettings) (params : ModelRequestParameters) : prog W (res ModelResponse) :=
  fireHook (OnModelRequest modelRC msgs);;;
  publish (ModelRequestStartedEvent (rc_RunStep modelRC) (Z.of_nat (length msgs)));;;
  resp <- callback (buildMiddlewareChain (λ c, fire_hooks a (OnContextCompaction turnRC c)) msgs ms params);;
  match resp with
  | Err e => Ret (Err (EWrap "model request failed: " e ""))
  | Ok resp =>
    locked (λ r,
      let r := r <| usage ::= λ u, IncrRequest u (resp_Usage resp) |> in
      (if InputTokens (resp_Usage resp) >? 0
       then r <| lastInputTokens := InputTokens (resp_Usage resp) |> else r, tt));;;
    match costTracker_Record a with
    | None => Ret tt
    | Some record =>
      callback (λ w, (record (ModelName (model a))
        (MkRunUsage (Usage_Incr zero_usage (resp_Usage resp)) 0 0) w, tt))
    end;;;
    Ret (Ok resp)
  end.

(** The settings of later requests. *)
Definition keep_settings (ms : option ModelSettings) (resp : ModelResponse) : prog W unit :=
  update (λ s, s <| settings :=
    match ms with
    | Some m =>
      if toolChoiceAutoReset a && negb (bool_decide (ToolCalls resp = [])) &&
         bool_decide (is_Some (ms_ToolChoice m))
      then Some (m <| ms_ToolChoice := Some ToolChoiceAuto |>) else ms
    | None => None
    end |>).

(** The response joins the history. *)
Definition append_response (modelRC : RunContext) (resp : ModelResponse) : prog W unit :=
  locked (λ r, (r <| messages ::= λ l, l ++ [Response resp] |>, tt));;;
  fireHook (OnModelResponse modelRC resp);;;
  r <- get;;
  publish (ModelResponseCompletedEvent (runStep r) (resp_FinishReason resp)
    (InputTokens (resp_Usage resp)) (OutputTokens (resp_Usage resp))
    (negb (bool_decide (ToolCalls resp = []))) (negb (String.eqb (TextContent resp) ""))).

(** A run condition stopped the run: the text is the output when it parses. *)
Definition condition_output (resp : ModelResponse) : option T :=
  let text := TextContent resp in
  if negb (String.eqb text "") && os_AllowsText (outputSchema a) then
    match parse_output text with
    | Ok output => Some output
    | Err _ => if bool_decide (os_Mode (outputSchema a) = OutputModeText) then string_as_T text else None
    end
  else None.

(** The first condition that stops the run, with its reason. *)
Fixpoint check_conditions (rc : RunContext) (resp : ModelResponse) (cs : list (RunCondition W))
    : prog W (option string) :=
  match cs with
  | [] => Ret None
  | c :: cs =>
    r <- callback (c rc resp);;
    if (r.1 : bool) then fireHook (OnRunConditionChecked rc true r.2);;; Ret (Some r.2)
    else check_conditions rc resp cs
  end.

(** The outcome of [processResponse] ends the turn. *)
Definition finish_turn (turnRC : RunContext) (resp : ModelResponse) (r : res (Processed T))
    : prog W (StepResult T) :=
  st <- get;;
  let fireTurnEnd := fireHook (OnTurnEnd turnRC (runStep st) resp) in
  match r with
  | Err e => fireTurnEnd;;; turn_failed (Some resp) e
  | Ok p =>
    (match nextParts p with
     | [] => Ret tt
     | ps => locked (λ r, (r <| messages ::= λ l, l ++ [ModelRequest ps] |>, tt))
     end);;;
    match deferredReqs p with
    | _ :: _ =>
      fireTurnEnd;;; emitTurnCompleted (Some resp) None;;;
      update (λ s, if eventBus a
        then s <| events ::= λ l, l ++ ((λ d, DeferredRequestedEvent (dreq_ToolCallID d) (dreq_ToolName d)
                                             (dreq_ArgsJSON d)) <$> deferredReqs p)
                                    ++ [RunWaitingEvent "deferred"] |>
        else s);;;
      st <- get;;
      Ret (SErr (Some resp) (ErrDeferred (deferredReqs p) (messages st) (usage st)))
    | [] =>
      fireTurnEnd;;;
      match final p with
      | Some result =>
        stored <- match kbAutoStore a, knowledgeBase_Store a with
          | true, Some store =>
            if String.eqb (TextContent resp) "" then Ret None else callback (store (TextContent resp))
          | _, _ => Ret None
          end;;
        match stored with
        | Some e => turn_failed (Some resp) (EWrap "knowledge base store failed: " e "")
        | None =>
          emitTurnCompleted (Some resp) None;;;
          out <- buildRunResult (fr_output result);;
          Ret (SDone resp out)
        end
      | None => emitTurnCompleted (Some resp) None;;; Ret (SNext resp)
      end
    end
  end.

(** After the response joined the history: token limits, run conditions, and its
    processing. *)
Definition handle_response (prompt : string) (turnRC : RunContext) (resp : ModelResponse)
    : prog W (StepResult T) :=
  r <- get;;
  match (if HasTokenLimits (limits r) then CheckTokens (limits r) (usage r) else None) with
  | Some e => turn_failed (Some resp) e
  | None =>
    stop <- check_conditions (buildRunContext r prompt) resp (runConditions a);;
    match stop with
    | Some reason =>
      match condition_output resp with
      | Some output =>
        emitTurnCompleted (Some resp) None;;;
        out <- buildRunResult output;;
        Ret (SDone resp out)
      | None => turn_failed (Some resp) (ERunCondition reason)
      end
    | None =>
      p <- processResponse resp prompt;;
      finish_turn turnRC resp p
    end
  end.

(** One iteration of the loop of [Step]; [None] is its [continue]. *)
Definition turn (prompt : string) : prog W (option (StepResult T)) :=
  failed <- act (λ s, (s, check_limits s));;
  match failed with
  | Some e => Ret (Some (SErr None (RunFailed e)))
  | None =>
    locked (λ r, (r <| runStep ::= Z.add 1 |>, tt));;;
    r <- get;;
    let turnRC := buildRunContext r prompt in
    fireHook (OnTurnStart turnRC (runStep r));;;
    publish (TurnStartedEvent (runStep r));;;
    req <- prepare_request prompt turnRC;;
    match req with
    | Err e => out <- turn_failed None e;; Ret (Some out)
    | Ok (msgs, ms, params) =>
      r <- get;;
      let modelRC := (buildRunContext r prompt) <| rc_Messages := msgs |> in
      resp <- model_request turnRC modelRC msgs ms params;;
      match resp with
      | Err e => out <- turn_failed None e;; Ret (Some out)
      | Ok resp =>
        intercepted <- runResponseInterceptors (responseInterceptors a) resp;;
        match intercepted with
        | (true, resp) => emitTurnCompleted (Some resp) None;;; Ret None
        | (false, resp) =>
          keep_settings ms resp;;;
          append_response modelRC resp;;;
          out <- handle_response prompt turnRC resp;;
          Ret (Some out)
        end
      end
    end
  end.

(** [Step] loops until a turn is not dropped; [runLoop] until a step ends the run.
    [None]: out of fuel. *)
Fixpoint Step (fuel : nat) (prompt : string) : prog W (option (StepResult T)) :=
  match fuel with
  | O => Ret None
  | S fuel =>
    o <- turn prompt;;
    match o with
    | None => Step fuel prompt
    | Some r => Ret (Some r)
    end
  end.

Fixpoint runLoop (fuel : nat) (prompt : string) : prog W (option (RunResult T + RunError)) :=
  match fuel with
  | O => Ret None
  | S fuel' =>
    o <- Step fuel prompt;;
    match o with
    | None => Ret None
    | Some (SErr _ e) => Ret (Some (inr e))
    | Some (SDone _ r) => Ret (Some (inl r))
    | Some (SNext _) => runLoop fuel' prompt
    end
  end.
End loop.
