(* ===== verification/AgentToolsSafety.v ===== *)
(** * Tool execution: order, accounting and fatal errors

    The outcomes of a list of tool calls under every schedule of the concurrent
    batches.  [tool_prog] bounds what a program of atomic actions may do to the run
    state and what it may return; the pool of a batch inherits the bound. *)

From S2P Require Import Prelude Errors Usage Messages Truncate AgentTypes AgentTools.

(** What executing tools does to the run state: at most [d] more counted calls, and
    only counters of tools and approvals change besides. *)
Record tool_step (d : nat) (r r' : RunState) : Prop := MkToolStep {
  ts_messages : messages r' = messages r;
  ts_retries : retries r' = retries r;
  ts_limits : limits r' = limits r;
  ts_runStep : runStep r' = runStep r;
  ts_tokens : ru_Usage (usage r') = ru_Usage (usage r);
  ts_requests : Requests (usage r') = Requests (usage r);
  ts_calls : Usage.ToolCalls (usage r) ≤ Usage.ToolCalls (usage r') ≤ Usage.ToolCalls (usage r) + Z.of_nat d;
}.

Lemma tool_step_refl d r : tool_step d r r.
Proof. split; try done; lia. Qed.

Lemma tool_step_trans d1 d2 d r1 r2 r3 :
  tool_step d1 r1 r2 → tool_step d2 r2 r3 → (d1 + d2 ≤ d)%nat → tool_step d r1 r3.
Proof. intros [] [] ?. split; congruence || lia. Qed.

Create HintDb tool_prog.
#[export] Hint Resolve tool_step_refl : tool_prog.

Section programs.
Context {W : Type}.

(** [tool_prog Q n m]: every action of [m] is a [tool_step], all of them together
    count at most [n] calls, and what [m] returns satisfies [Q]. *)
Inductive tool_prog {A} (Q : A → Prop) : nat → prog W A → Prop :=
| tp_ret n a : Q a → tool_prog Q n (Ret a)
| tp_act n d X (f : St W → St W * X) k :
    (∀ s, tool_step d (rs s) (rs (f s).1)) → (∀ s, tool_prog Q n (k (f s).2)) →
    tool_prog Q (d + n) (Act f k).

Lemma tool_prog_bind {A B} (P : A → Prop) (Q : B → Prop) n m (p : prog W A) k :
  tool_prog P n p → (∀ x, P x → tool_prog Q m (k x)) → tool_prog Q (n + m) (bind p k).
Proof.
  intros Hp Hk. induction Hp as [n x Hx|n d X f c Hf Hc IH]; simpl.
  - specialize (Hk x Hx). clear Hx. remember (k x) as q eqn:E. clear E.
    revert n. induction Hk as [m a|m d X f c Hf Hc IH]; intros n; [by constructor|].
    replace (n + (d + m))%nat with (d + (n + m))%nat by lia. by constructor.
  - rewrite <- Nat.add_assoc. by constructor.
Qed.

Lemma tool_prog_bind0 {A B} (P : A → Prop) (Q : B → Prop) m (p : prog W A) k :
  tool_prog P 0 p → (∀ x, P x → tool_prog Q m (k x)) → tool_prog Q m (bind p k).
Proof. apply tool_prog_bind. Qed.

Lemma tool_prog_run {A} (Q : A → Prop) n (p : prog W A) s s' x :
  tool_prog Q n p → run p s = (s', x) → tool_step n (rs s) (rs s') ∧ Q x.
Proof.
  intros Hp. revert s. induction Hp as [n a Ha|n d X f c Hf Hc IH]; intros s; simpl.
  - intros [= <- <-]. auto with tool_prog.
  - destruct (f s) as [s1 y] eqn:E. intros Hr.
    pose proof (Hf s) as H1. specialize (IH s). rewrite E in H1, IH. simpl in *.
    destruct (IH _ Hr) as [H2 ?]. split; [|done]. eapply tool_step_trans; eauto.
Qed.

(** Inversion on an action. *)
Lemma tool_prog_act_inv {A X} (Q : A → Prop) n (f : St W → St W * X) k :
  tool_prog Q n (Act f k) →
  ∃ d m, n = (d + m)%nat ∧ ∀ s, tool_step d (rs s) (rs (f s).1) ∧ tool_prog Q m (k (f s).2).
Proof.
  intros H.
  refine (match H in tool_prog _ n p return
    match p with
    | Act f k => ∃ d m, n = (d + m)%nat ∧
        ∀ s, tool_step d (rs s) (rs (f s).1) ∧ tool_prog Q m (k (f s).2)
    | Ret _ => True
    end with tp_ret _ _ _ _ => I | tp_act _ m d X f k Hf Hk => _ end).
  exists d, m. auto.
Qed.

(** A postcondition that holds under an assumption. *)
Lemma tool_prog_impl {A} (F : Prop) (P Q : A → Prop) n (p : prog W A) :
  tool_prog P n p → (F → ∃ m, tool_prog Q m p) → tool_prog (λ x, F → Q x) n p.
Proof.
  intros Hp HF. induction Hp as [n x Hx|n d X f k Hf Hk IH].
  - constructor. intros [m Hm]%HF. by inversion Hm.
  - constructor; [done|]. intros s. apply IH. intros [m Hm]%HF.
    apply tool_prog_act_inv in Hm as (d' & m' & _ & Hm). exists m'. apply Hm.
Qed.

Lemma tp_act0 {A X} (Q : A → Prop) n (f : St W → St W * X) k :
  (∀ s, tool_step 0 (rs s) (rs (f s).1)) → (∀ s, tool_prog Q n (k (f s).2)) → tool_prog Q n (Act f k).
Proof. apply (tp_act Q n 0). Qed.

Lemma tool_prog_locked {X} (f : RunState → RunState * X) d :
  (∀ r, tool_step d r (f r).1) → tool_prog (λ _, True) d (locked (W := W) f).
Proof.
  intros Hf. rewrite <- (Nat.add_0_r d). apply tp_act.
  - intros s. specialize (Hf (rs s)). destruct (f (rs s)). done.
  - intros s. by constructor.
Qed.

Lemma tool_prog_callback {X} (f : W → W * X) (P : X → Prop) :
  (∀ w, P (f w).2) → tool_prog P 0 (callback f).
Proof.
  intros HP. apply tp_act0.
  - intros s. destruct (f (world s)). apply tool_step_refl.
  - intros s. constructor. specialize (HP (world s)). by destruct (f (world s)).
Qed.
End programs.

Section safety.
Context {W T : Type}.
Context (json_marshal : ToolValue → res string).
Context (ctx_Err : W → option error).
Context (a : Agent W T).

Lemma tool_prog_publish e : tool_prog (λ _, True) 0 (publish a e).
Proof. apply tp_act0; intros s; simpl; [case_match; apply tool_step_refl|by constructor]. Qed.

Lemma tool_prog_fireHook h : tool_prog (λ _, True) 0 (fireHook a h).
Proof. by apply tool_prog_callback. Qed.

Lemma tool_prog_bump name : tool_prog (λ _, True) 0 (bump_tool_retries (W := W) name).
Proof. apply tool_prog_locked. intros r. split; try done; simpl; lia. Qed.

(** A call is answered by a part with its identifier, deferred under it, or fatal. *)
Definition outcome_of (c : ToolCallPart) (o : ToolOutcome) : Prop :=
  match o with
  | OPart p => answers p = Some (tc_ToolCallID c)
  | ODeferred d => d = MkDeferredToolRequest (tc_ToolName c) (tc_ToolCallID c) (tc_ArgsJSON c)
  | OFatal _ => True
  end.
End safety.
#[export] Hint Resolve tool_prog_publish tool_prog_fireHook tool_prog_bump : tool_prog.

(** Walks through a program: the first action of a bind is discharged by the
    database, then the rest. *)
Ltac tool_prog_steps :=
  repeat match goal with
  | |- tool_prog _ _ (bind (if ?b then _ else _) _) => destruct b
  | |- tool_prog ?Q ?n (bind (Ret ?x) ?k) => change (tool_prog Q n (k x)); cbv beta
  | |- tool_prog _ _ (bind _ _) => eapply tool_prog_bind0; [solve [eauto with tool_prog]|intros ? ?]
  | |- tool_prog _ _ (Ret _) => constructor
  | |- tool_prog _ _ (match ?x with _ => _ end) => destruct x
  | |- tool_prog _ _ (let _ := _ in _) => cbv zeta
  end.

Section single.
Context {W T : Type}.
Context (json_marshal : ToolValue → res string).
Context (ctx_Err : W → option error).
Context (a : Agent W T).

Lemma tool_prog_any {X} (f : W → W * X) : tool_prog (λ _, True) 0 (callback f).
Proof. by apply tool_prog_callback. Qed.
Hint Resolve tool_prog_any : tool_prog.

Lemma tool_prog_begin : tool_prog (λ _, True) 0 (locked (W := W) beginApprovalWait).
Proof. apply tool_prog_locked. intros r. split; try done; simpl; lia. Qed.
Lemma tool_prog_end : tool_prog (λ _, True) 0 (locked (W := W) endApprovalWait).
Proof.
  apply tool_prog_locked. intros r. unfold endApprovalWait.
  destruct (activeApprovals r =? 0); split; try done; simpl; lia.
Qed.
Hint Resolve tool_prog_begin tool_prog_end : tool_prog.

Definition outcome_opt (c : ToolCallPart) (o : option ToolOutcome) : Prop :=
  match o with Some o => outcome_of c o | None => True end.

Lemma tool_prog_approve c tool : tool_prog (outcome_opt c) 0 (approve a c tool).
Proof. unfold approve. destruct (tool_RequiresApproval tool); tool_prog_steps; done. Qed.

Lemma tool_prog_report c rc r : tool_prog (λ _, True) 0 (report_end json_marshal a c rc r).
Proof. unfold report_end. tool_prog_steps; eauto with tool_prog. Qed.

Lemma tool_prog_failed c maxR e : tool_prog (outcome_of c) 0 (handler_failed (W := W) c maxR e).
Proof. unfold handler_failed. tool_prog_steps; done. Qed.

Lemma tool_prog_validators c rc maxR content vs :
  tool_prog (outcome_opt c) 0 (run_validators (W := W) c rc maxR content vs).
Proof. induction vs as [|v vs IH]; cbn [run_validators]; tool_prog_steps; done. Qed.
Hint Resolve tool_prog_validators tool_prog_approve tool_prog_report : tool_prog.

Lemma tool_prog_returned c tool rc maxR v :
  tool_prog (outcome_of c) 0 (handler_returned json_marshal a c tool rc maxR v).
Proof.
  unfold handler_returned. set (r := match v with VImages _ _ => _ | _ => _ end).
  destruct r as [[content images]|e]; [|by constructor].
  tool_prog_steps; try done.
  eapply tool_prog_bind0; [apply tool_prog_locked; intros r; split; try done; simpl; lia|].
  intros _ _. by constructor.
Qed.
Hint Resolve tool_prog_returned tool_prog_failed : tool_prog.

Lemma tool_prog_start c maxR prompt : tool_prog (λ _, True) 1 (start_call (W := W) c maxR prompt).
Proof. apply tool_prog_locked. intros r. split; try done; simpl; lia. Qed.

(** One call: counted once, and its outcome is the call's. *)
Lemma executeSingleTool_prog c tool prompt :
  tool_prog (outcome_of c) 1 (executeSingleTool json_marshal a c tool prompt).
Proof.
  unfold executeSingleTool. apply (tool_prog_bind (λ _, True) _ 1 0); [apply tool_prog_start|].
  intros rc _. tool_prog_steps; eauto with tool_prog.
Qed.

(** A handler that always fails fatally, on a tool without approval. *)
Definition always_fatal (tool : Tool W) : Prop :=
  tool_RequiresApproval tool = false ∧
  ∀ rc d args w, ∃ e, (tool_Handler tool rc d args w).2 = HErr e ∧ is_Some (errors_as as_fatal e).

Lemma executeSingleTool_fatal c tool prompt :
  always_fatal tool →
  tool_prog (λ o, ∃ e, o = OFatal e) 1 (executeSingleTool json_marshal a c tool prompt).
Proof.
  intros [Hap Hh]. unfold executeSingleTool.
  apply (tool_prog_bind (λ _, True) _ 1 0); [apply tool_prog_start|]. intros rc _.
  eapply tool_prog_bind0; [eauto with tool_prog|intros _ _]. unfold approve. rewrite Hap.
  change (bind (Ret None) ?k) with (k None). cbv beta iota.
  eapply tool_prog_bind0; [eauto with tool_prog|intros _ _].
  eapply (tool_prog_bind0 (λ r, ∃ e, r = inr e ∧ is_Some (errors_as as_fatal e))).
  { apply tool_prog_callback. intros w. unfold safeCallHandler.
    destruct (Hh rc (tool_timeout a tool) (tc_ArgsJSON c) w) as (e & He & Hf).
    destruct (tool_Handler _ _ _ _ _) as [w' o]. simpl in *. subst. eauto. }
  intros r (e & -> & [fe Hfe]). eapply tool_prog_bind0; [eauto with tool_prog|intros _ _]. unfold handler_failed. rewrite Hfe. constructor. eauto.
Qed.
End single.

(** ** Batches *)

(** Grouping keeps the calls and their order; a batch of several calls is made of
    concurrency-safe calls only. *)
Definition batch_ok {W} (b : toolBatch (W := W)) : Prop :=
  batch_calls b ≠ [] ∧
  if batch_safe b then Forall (λ ic : Call W, concurrency_safe ic.2 = true) (batch_calls b)
  else ∃ ic, batch_calls b = [ic] ∧ concurrency_safe ic.2 = false.

Lemma add_call_spec {W} (bs : list (toolBatch (W := W))) ic :
  Forall batch_ok bs →
  Forall batch_ok (add_call bs ic) ∧
  mjoin (batch_calls <$> rev (add_call bs ic)) = mjoin (batch_calls <$> rev bs) ++ [ic].
Proof.
  intros Hbs. unfold add_call.
  assert (Hnew : batch_ok (MkToolBatch (concurrency_safe ic.2) [ic])).
  { split; [done|]. simpl. destruct (concurrency_safe ic.2) eqn:E; [by repeat constructor|eauto]. }
  destruct bs as [|b bs]; [split; [by apply Forall_singleton|done]|].
  destruct (concurrency_safe ic.2 && batch_safe b) eqn:E; simpl.
  - apply andb_true_iff in E as [Es Eb]. apply Forall_cons in Hbs as [[Hne Hb] Hbs].
    rewrite Eb in Hb. split.
    + constructor; [|done]. split; [by destruct (batch_calls b)|]. simpl.
      apply Forall_app; auto.
    + rewrite !fmap_app, !join_app. simpl. by rewrite !app_nil_r, app_assoc.
  - split; [by constructor|]. rewrite !fmap_app, !join_app. simpl. by rewrite !app_nil_r.
Qed.

Lemma tool_batches_spec {W} (calls : list (Call W)) :
  Forall batch_ok (tool_batches calls) ∧ mjoin (batch_calls <$> tool_batches calls) = calls.
Proof.
  unfold tool_batches.
  assert (∀ bs, Forall batch_ok bs →
    Forall batch_ok (foldl add_call bs calls) ∧
    mjoin (batch_calls <$> rev (foldl add_call bs calls)) = mjoin (batch_calls <$> rev bs) ++ calls) as H.
  { induction calls as [|ic calls IH]; intros bs Hbs; simpl; [by rewrite app_nil_r|].
    destruct (add_call_spec bs ic Hbs) as [H1 H2]. destruct (IH _ H1) as [H3 H4].
    split; [done|]. rewrite H4, H2. by rewrite <- app_assoc. }
  destruct (H [] (Forall_nil_2 _)) as [H1 H2]. split; [by apply Forall_rev|done].
Qed.

Section pool.
Context {W T : Type}.
Context (json_marshal : ToolValue → res string).
Context (ctx_Err : W → option error).
Context (a : Agent W T).
Context (prompt : string).
(** A property of the outcome of each call, established by running it, and by the
    cancellation of a waiting goroutine when there is a semaphore. *)
Context (P : Call W → ToolOutcome → Prop).
Hypothesis P_run : ∀ ic, tool_prog (P ic) 1 (executeSingleTool json_marshal a ic.1 ic.2 prompt).
Hypothesis P_cancelled : ∀ ic e, maxConcurrency a > 0 → P ic (tool_return ic.1 ("error: " +:+ Error e)).

Definition thread_ok (ic : Call W) (n : nat) (t : thread) : Prop :=
  match t with
  | TWait jc => jc = ic ∧ n = 1%nat
  | TRun m => tool_prog (P ic) n m
  | TDone o => P ic o
  end.

(** The threads of the calls, which may still count [n] calls together. *)
Inductive pool_ok : nat → list (Call W) → list thread → Prop :=
| pool_nil : pool_ok 0 [] []
| pool_cons n m ic t calls ts :
    thread_ok ic n t → pool_ok m calls ts → pool_ok (n + m) (ic :: calls) (t :: ts).

Lemma thread_step_ok ic n t stop used s s' t' :
  thread_ok ic n t → thread_step json_marshal ctx_Err a prompt stop used t s = (s', t') →
  ∃ d m, (d + m ≤ n)%nat ∧ tool_step d (rs s) (rs s') ∧ thread_ok ic m t'.
Proof.
  assert (Hid : ∀ n t, thread_ok ic n t → ∃ d m, (d + m ≤ n)%nat ∧ tool_step d (rs s) (rs s) ∧ thread_ok ic m t).
  { intros k u Hu. exists 0%nat, k. auto with tool_prog. }
  destruct t as [jc|m|o]; simpl.
  - intros [-> ->]. pose proof (Hid 1%nat (TRun _) (P_run ic)) as Hrun.
    pose proof (Hid 1%nat (TWait ic) (conj eq_refl eq_refl)) as Hwait.
    destruct (Z.gtb_spec (maxConcurrency a) 0) as [Hmax|]; [|by intros [= <- <-]].
    destruct (ctx_Err (world s)); case_match; intros [= <- <-]; try done.
    exists 0%nat, 0%nat. split_and!; [lia| |apply P_cancelled; lia].
    case_match; apply tool_step_refl.
  - intros Hm. destruct m as [o|X f k].
    + intros [= <- <-]. apply (Hid n). by inversion Hm.
    + apply tool_prog_act_inv in Hm as (d & m & -> & Hfk). destruct (Hfk s).
      destruct (f s) as [s1 x]. intros [= <- <-]. exists d, m. auto.
  - intros Ho [= <- <-]. by apply Hid.
Qed.

Lemma pool_step_at n calls ts i stop used s s' t t' :
  pool_ok n calls ts → ts !! i = Some t →
  thread_step json_marshal ctx_Err a prompt stop used t s = (s', t') →
  ∃ d m, (d + m ≤ n)%nat ∧ tool_step d (rs s) (rs s') ∧ pool_ok m calls (<[i := t']> ts).
Proof.
  intros Hp. revert i. induction Hp as [|n m ic u calls ts Hu Hp IH]; intros i Ht Hs; [done|].
  destruct i as [|i]; simpl in *.
  - injection Ht as ->. destruct (thread_step_ok _ _ _ _ _ _ _ _ Hu Hs) as (d & k & ? & ? & ?).
    exists d, (k + m)%nat. split_and!; [lia|done|by constructor].
  - destruct (IH i Ht Hs) as (d & k & ? & ? & ?).
    exists d, (n + k)%nat. split_and!; [lia|done|by constructor].
Qed.

Lemma run_schedule_ok sched n calls ts s s' ts' :
  pool_ok n calls ts → run_schedule json_marshal ctx_Err a prompt sched ts s = (s', ts') →
  ∃ d m, (d + m ≤ n)%nat ∧ tool_step d (rs s) (rs s') ∧ pool_ok m calls ts'.
Proof.
  revert n ts s. induction sched as [|[i stop] sched IH]; simpl; intros n ts s Hp.
  { intros [= <- <-]. exists 0%nat, n. auto with tool_prog. }
  unfold pool_step. destruct (ts !! i) as [t|] eqn:Ht; [|by apply IH].
  destruct (thread_step _ _ _ _ _ _ _ _) as [s1 t'] eqn:Hs. intros Hr.
  destruct (pool_step_at _ _ _ _ _ _ _ _ _ _ Hp Ht Hs) as (d & m & ? & ? & Hp').
  destruct (IH _ _ _ Hp' Hr) as (d' & m' & ? & ? & ?).
  exists (d + d')%nat, m'. split_and!; [lia|by eapply tool_step_trans|done].
Qed.

Lemma finish_running_ok n calls ts s s' ts' :
  pool_ok n calls ts → map_state finish_running ts s = (s', ts') →
  ∃ d m, (d + m ≤ n)%nat ∧ tool_step d (rs s) (rs s') ∧ pool_ok m calls ts'.
Proof.
  intros Hp. revert s s' ts'. induction Hp as [|n m ic u calls ts Hu Hp IH]; simpl; intros s s' ts'.
  { intros [= <- <-]. exists 0%nat, 0%nat. split_and!; auto with tool_prog. constructor. }
  destruct (finish_running u s) as [s1 u'] eqn:E1.
  destruct (map_state finish_running ts s1) as [s2 ts2] eqn:E2. intros [= <- <-].
  destruct (IH _ _ _ E2) as (d & k & ? & ? & ?).
  assert (∃ d k, (d + k ≤ n)%nat ∧ tool_step d (rs s) (rs s1) ∧ thread_ok ic k u') as (d' & k' & ? & ? & ?).
  { destruct u as [jc|p|o]; simpl in E1; try (simplify_eq; exists 0%nat, n; by auto with tool_prog).
    destruct (run p s) as [s3 o] eqn:E3. simplify_eq.
    destruct (tool_prog_run _ _ _ _ _ _ Hu E3). exists n, 0%nat. split_and!; [lia|done..]. }
  exists (d' + d)%nat, (k' + k)%nat. split_and!; [lia|by eapply tool_step_trans|by constructor].
Qed.

Lemma finish_threads_ok n calls ts s s' os :
  pool_ok n calls ts → map_state (finish_thread json_marshal a prompt) ts s = (s', os) →
  tool_step n (rs s) (rs s') ∧ Forall2 P calls os.
Proof.
  intros Hp. revert s s' os. induction Hp as [|n m ic u calls ts Hu Hp IH]; simpl; intros s s' os.
  { intros [= <- <-]. auto with tool_prog. }
  destruct (finish_thread _ _ _ u s) as [s1 o] eqn:E1.
  destruct (map_state _ ts s1) as [s2 os2] eqn:E2. intros [= <- <-].
  destruct (IH _ _ _ E2) as [? ?].
  assert (tool_step n (rs s) (rs s1) ∧ P ic o) as [? ?].
  { destruct u as [jc|p|o']; simpl in E1, Hu.
    - destruct Hu as [-> ->]. by eapply tool_prog_run.
    - by eapply tool_prog_run.
    - simplify_eq. auto with tool_prog. }
  split; [by eapply tool_step_trans|by constructor].
Qed.

Lemma pool_ok_start calls : pool_ok (length calls) calls (TWait <$> calls).
Proof. induction calls; simpl; [constructor|]. by apply (pool_cons 1). Qed.

Lemma run_concurrent_ok calls s s' os :
  run_concurrent json_marshal ctx_Err a prompt calls s = (s', os) →
  tool_step (length calls) (rs s) (rs s') ∧ Forall2 P calls os.
Proof.
  unfold run_concurrent. destruct (run_schedule _ _ _ _ _ _ _) as [s1 ts1] eqn:E1.
  destruct (map_state finish_running ts1 s1) as [s2 ts2] eqn:E2. intros E3.
  destruct (run_schedule_ok _ _ _ _ _ _ _ (pool_ok_start calls) E1) as (d & n & ? & ? & Hp).
  destruct (finish_running_ok _ _ _ _ _ _ Hp E2) as (d' & n' & ? & ? & Hp').
  destruct (finish_threads_ok _ _ _ _ _ _ Hp' E3) as [? ?].
  split; [|done]. eapply tool_step_trans; [|done|]; [by eapply tool_step_trans|]. lia.
Qed.

Definition not_fatal (o : ToolOutcome) : Prop := match o with OFatal _ => False | _ => True end.

Lemma first_fatal_none os : first_fatal os = None → Forall not_fatal os.
Proof.
  unfold first_fatal. induction os as [|[p|d|e] os IH]; simpl; intros H; try constructor; try done; auto.
Qed.

Lemma publishPendingFailures_rs pending msg s : rs (publishPendingFailures a pending msg s) = rs s.
Proof. unfold publishPendingFailures. by case_match. Qed.

(** What [executeFunctionTools] guarantees for the calls it was given. *)
Definition tools_post (calls : list (Call W)) (s s' : St W) (r : res (list ToolOutcome)) : Prop :=
  tool_step (length calls) (rs s) (rs s') ∧
  match r with Ok os => Forall2 P calls os ∧ Forall not_fatal os | Err _ => True end.

Lemma run_exclusive_ok calls later s s' r :
  run_exclusive json_marshal ctx_Err a prompt calls later s = (s', r) → tools_post calls s s' r.
Proof.
  revert s s' r. induction calls as [|ic calls IH]; cbn [run_exclusive]; intros s s' r.
  { intros [= <- <-]. split; auto with tool_prog. }
  destruct (ctx_Err (world s)) as [e|].
  { intros [= <- <-]. split; [|done]. rewrite publishPendingFailures_rs. apply tool_step_refl. }
  destruct (run (executeSingleTool json_marshal a ic.1 ic.2 prompt) s) as [s1 o] eqn:E1.
  destruct (tool_prog_run _ _ _ _ _ _ (P_run ic) E1) as [H1 Ho].
  assert (Hrec : ∀ s' r', run_exclusive json_marshal ctx_Err a prompt calls later s1 = (s', r') →
    not_fatal o → tools_post (ic :: calls) s s' (match r' with Ok os => Ok (o :: os) | Err e => Err e end)).
  { intros s2 r2 E2 Hnf. destruct (IH _ _ _ E2) as [H2 H3]. split; [by eapply tool_step_trans|].
    destruct r2; [|done]. destruct H3. by repeat constructor. }
  destruct o as [p|d|e]; try (destruct (run_exclusive _ _ _ _ _ _ s1) as [s2 r2] eqn:E2;
    intros [= <- <-]; by apply Hrec).
  intros [= <- <-]. split; [|done]. eapply tool_step_trans; [done|apply (tool_step_refl 0)|simpl; lia].
Qed.

Lemma run_batches_ok bs s s' r :
  run_batches json_marshal ctx_Err a prompt bs s = (s', r) →
  tools_post (mjoin (batch_calls <$> bs)) s s' r.
Proof.
  revert s s' r. induction bs as [|b bs IH]; intros s s' r; cbn [run_batches].
  { intros [= <- <-]. split; auto with tool_prog. }
  destruct (ctx_Err (world s)) as [e|].
  { intros [= <- <-]. split; [|done]. rewrite publishPendingFailures_rs. apply tool_step_refl. }
  set (first := if batch_safe b then _ else _).
  assert (Hb : tools_post (batch_calls b) s first.1 first.2).
  { unfold first. destruct (batch_safe b).
    - destruct (run_concurrent _ _ _ _ _ s) as [s1 os] eqn:E1.
      destruct (run_concurrent_ok _ _ _ _ E1). split; [done|]. simpl.
      destruct (first_fatal os) eqn:Ef; [done|]. auto using first_fatal_none.
    - destruct (run_exclusive _ _ _ _ _ _ s) as [s1 r1] eqn:E1. by eapply run_exclusive_ok. }
  destruct first as [s1 r1]. destruct Hb as [H1 Hr1]. simpl in *.
  destruct r1 as [os|e].
  - destruct (run_batches _ _ _ _ bs s1) as [s2 r2] eqn:E2. intros [= <- <-].
    destruct (IH _ _ _ E2) as [H2 Hr2]. split.
    + rewrite length_app. by eapply tool_step_trans.
    + destruct r2 as [os2|]; [|done]. destruct Hr1, Hr2. split; [by apply Forall2_app|by apply Forall_app].
  - intros [= <- <-]. split; [|done]. eapply tool_step_trans; [done|apply (tool_step_refl 0)|].
    rewrite length_app. lia.
Qed.

Lemma executeFunctionTools_post calls s s' r :
  executeFunctionTools json_marshal ctx_Err a prompt calls s = (s', r) → tools_post calls s s' r.
Proof.
  intros H. apply run_batches_ok in H. by rewrite (proj2 (tool_batches_spec calls)) in H.
Qed.
End pool.

(** ** Claims *)

Section claims.
Context {W T : Type}.
Context (json_marshal : ToolValue → res string).
Context (ctx_Err : W → option error).
Context (a : Agent W T).

(** C13: the outcomes of a list of tool calls, whatever the order in which the
    goroutines of the concurrent batches are scheduled: there is one outcome per
    call, in the order of the calls; each is a part with the identifier of its call
    or a deferral of exactly that call; the conversation, the retry counter and the
    token counts are untouched, and at most one tool call per call is counted. *)
Theorem executeFunctionTools_in_order prompt (calls : list (Call W)) s s' os :
  executeFunctionTools json_marshal ctx_Err a prompt calls s = (s', Ok os) →
  Forall2 (λ (ic : Call W) o, outcome_of ic.1 o ∧ not_fatal o) calls os ∧
  tool_step (length calls) (rs s) (rs s').
Proof.
  intros H. apply (executeFunctionTools_post _ _ _ _ (λ ic, outcome_of ic.1)) in H as [Hs [H1 H2]].
  - split; [|done]. clear Hs. induction H1; inversion H2; subst; constructor; auto.
  - intros ic. apply executeSingleTool_prog.
  - done.
Qed.

Lemma adjacent_add_call (bs : list (toolBatch (W := W))) ic :
  (∀ pre b b' post, bs = pre ++ b :: b' :: post → batch_safe b && batch_safe b' = false) →
  ∀ pre b b' post, add_call bs ic = pre ++ b :: b' :: post → batch_safe b && batch_safe b' = false.
Proof.
  intros H pre b b' post. unfold add_call. destruct bs as [|b0 bs]; [by destruct pre as [|? [|? ?]]|].
  destruct (concurrency_safe ic.2 && batch_safe b0) eqn:E; intros Heq.
  - apply andb_true_iff in E as [_ E]. destruct pre as [|b1 pre]; simplify_eq/=.
    + by rewrite <- (H [] b0 b' post eq_refl), E.
    + by apply (H (b0 :: pre) b b' post).
  - destruct pre as [|b1 pre]; simplify_eq/=; [done|]. by eapply H.
Qed.

(** How tool calls are grouped: the batches, one after the other, are the calls
    in their order; a batch that may run concurrently holds concurrency-safe calls
    only, any other call is alone in its batch and so is a barrier; and no two
    adjacent batches could have been run together. *)
Theorem tool_batches_correct (calls : list (Call W)) :
  mjoin (batch_calls <$> tool_batches calls) = calls ∧
  Forall batch_ok (tool_batches calls) ∧
  ∀ pre b b' post, tool_batches calls = pre ++ b :: b' :: post → batch_safe b && batch_safe b' = false.
Proof.
  destruct (tool_batches_spec calls) as [H1 H2]. split_and!; [done..|].
  intros pre b b' post Heq. unfold tool_batches in Heq.
  apply (f_equal (@rev _)) in Heq. rewrite rev_involutive, rev_app_distr in Heq. simpl in Heq.
  rewrite <- !app_assoc in Heq. simpl in Heq. rewrite andb_comm. revert Heq. generalize (rev post), (rev pre).
  assert (∀ bs : list (toolBatch (W := W)),
    (∀ pre b b' post, bs = pre ++ b :: b' :: post → batch_safe b && batch_safe b' = false) →
    ∀ pre b b' post, foldl add_call bs calls = pre ++ b :: b' :: post →
    batch_safe b && batch_safe b' = false) as H.
  { clear. induction calls as [|ic calls IH]; intros bs Hbs; simpl; [done|].
    apply IH. by apply adjacent_add_call. }
  intros l l' Heq. eapply H, Heq. by intros [|? ?].
Qed.

(** The approval function does not approve a call. *)
Definition never_approves (c : ToolCallPart) : Prop :=
  match toolApprovalFunc a with
  | None => True
  | Some f => ∀ w, (f (tc_ToolCallID c) (tc_ToolName c) (tc_ArgsJSON c) w).2 ≠ Ok true
  end.
Definition approval_world (c : ToolCallPart) (w : W) : W :=
  match toolApprovalFunc a with
  | None => w
  | Some f => (f (tc_ToolCallID c) (tc_ToolName c) (tc_ArgsJSON c) w).1
  end.

Lemma approve_refuses c tool s :
  tool_RequiresApproval tool = true → never_approves c →
  wp (approve a c tool) (λ r s', ∃ p, r = Some (OPart p) ∧ answers p = Some (tc_ToolCallID c) ∧
    world s' = approval_world c (world s)) s.
Proof.
  intros Hap Hno. unfold approve, approval_world. rewrite Hap. unfold never_approves in Hno.
  apply wp_bind, wp_publish. intros s1 _ Hw1. destruct (toolApprovalFunc a) as [f|].
  - apply wp_bind, wp_locked. set (s2 := _ <| rs := _ |>).
    assert (Hmaybe : ∀ (b : bool) e Q s, (∀ s', world s' = world s → Q tt s') →
      wp (if b then publish a e else Ret tt) Q s).
    { intros b e Q s0 H. destruct b; [apply wp_publish|apply wp_ret]; auto. }
    apply wp_bind, Hmaybe. intros s3 Hw3. apply wp_bind, wp_callback.
    specialize (Hno (world s3)). destruct (f _ _ _ (world s3)) as [w4 answer] eqn:Hf. cbn [fst snd].
    apply wp_bind, wp_locked. set (s5 := _ <| rs := _ |>). apply wp_bind, Hmaybe. intros s6 Hw6.
    apply wp_bind, wp_publish. intros s7 _ Hw7.
    assert (world s7 = (f (tc_ToolCallID c) (tc_ToolName c) (tc_ArgsJSON c) (world s)).1) as Hw.
    { rewrite Hw7, Hw6. subst s2 s5. simpl in *. rewrite <- Hw1, <- Hw3, Hf. done. }
    destruct answer as [[]|e]; [done|..]; apply wp_bind, wp_publish; intros s8 _ Hw8;
      apply wp_ret; eexists; split_and!; [done|done|congruence|done|done|congruence].
  - apply wp_bind, wp_publish. intros s2 _ Hw2. apply wp_bind, wp_publish. intros s3 _ Hw3.
    apply wp_ret. eexists. split_and!; [done|done|congruence].
Qed.

(** C34: a tool that requires approval does not run without it: when no approval
    function is configured, or it refuses or fails, the call is answered under its
    identifier and the world is changed by the approval function alone; no handler,
    hook or validator has run. *)
Theorem approval_is_required c tool prompt s s' o :
  tool_RequiresApproval tool = true → never_approves c →
  run (executeSingleTool json_marshal a c tool prompt) s = (s', o) →
  world s' = approval_world c (world s) ∧ ∃ p, o = OPart p ∧ answers p = Some (tc_ToolCallID c).
Proof.
  intros Hap Hno Hrun.
  refine (wp_run _ (λ o s', world s' = approval_world c (world s) ∧
    ∃ p, o = OPart p ∧ answers p = Some (tc_ToolCallID c)) _ _ _ _ Hrun). clear Hrun s' o.
  apply wp_bind, wp_locked. set (s1 := _ <| rs := _ |>). set (rc := snd _).
  apply wp_bind, wp_publish. intros s2 _ Hw2. apply wp_bind.
  eapply wp_mono; [by apply approve_refuses|]. intros r s3 (p & -> & Hp & Hw).
  apply wp_ret. split; [|by exists p]. rewrite Hw, Hw2. done.
Qed.
End claims.

(** ** Witnesses *)

Module Demo.
(** Definitions of tools, a model that is never asked, and an agent with the given
    tools; the world is a counter that every handler increments. *)
Definition def (name : string) (safe : bool) : ToolDefinition :=
  MkToolDefinition name "" "{}" "function" None false safe "" false "".
Definition echo (name : string) (safe approval : bool) : Tool nat :=
  MkTool (def name safe) (λ _ _ args w, (S w, HOk (VString args))) None approval None None 0.
Definition schema : OutputSchema :=
  MkOutputSchema OutputModeTool [def "final_result" false] None false "".
Definition silent : Model nat := MkModel (λ _ _ _ w, (w, Err (ENew "no model"))) "silent".
Definition agent (ts : list (Tool nat)) (strategy : EndStrategy) (conds : list (RunCondition nat))
    (m : Model nat) (sch : OutputSchema) : Agent nat string :=
  MkAgent m [] ts [] sch [] 1 strategy None 2 None false None [] [] None [] 0 conds true
    None [] [] None None [] None false None.
Definition call (name id : string) : ToolCallPart := MkToolCallPart name "{}" id ∅.
Definition state (msgs : list ModelMessage) (scheds : list (list (nat * bool))) : St nat :=
  MkSt (MkRunState msgs zero_run_usage 0 0 ∅ 0 0 "run" "" DefaultUsageLimits) 0%nat [] None scheds.
Definition marshal (v : ToolValue) : res string := Err (ENew "unsupported").
Definition no_cancel (w : nat) : option error := None.
End Demo.

(** Two concurrent calls, the second one scheduled first, and an exclusive one. *)
Definition demo_calls : list (Call nat) :=
  [(Demo.call "a" "1", Demo.echo "a" true false); (Demo.call "b" "2", Demo.echo "b" true false);
   (Demo.call "x" "3", Demo.echo "x" false false)].
Definition demo_agent : Agent nat string :=
  Demo.agent (snd <$> demo_calls) EndStrategyExhaustive [] Demo.silent Demo.schema.
Definition demo_run : St nat * res (list ToolOutcome) :=
  executeFunctionTools Demo.marshal Demo.no_cancel demo_agent "go" demo_calls
    (Demo.state [] [[(1, false); (1, false); (0, false); (1, false)]]%nat).

Lemma executeFunctionTools_in_order_witness :
  ∃ os, demo_run.2 = Ok os ∧ length os = 3%nat ∧
  Forall2 (λ (ic : Call nat) o, outcome_of ic.1 o ∧ not_fatal o) demo_calls os.
Proof.
  pose proof (executeFunctionTools_in_order Demo.marshal Demo.no_cancel demo_agent "go" demo_calls
    (Demo.state [] [[(1, false); (1, false); (0, false); (1, false)]]%nat) demo_run.1
    [OPart (ToolReturnPart "a" "{}" "1" []); OPart (ToolReturnPart "b" "{}" "2" []);
     OPart (ToolReturnPart "x" "{}" "3" [])]) as H.
  eexists. split; [vm_compute; reflexivity|]. split; [reflexivity|]. apply H. vm_compute. reflexivity.
Defined.

Lemma approval_is_required_witness :
  world (run (executeSingleTool Demo.marshal demo_agent (Demo.call "a" "1") (Demo.echo "a" true true) "go")
    (Demo.state [] [])).1 = 0%nat.
Proof.
  refine (proj1 (approval_is_required Demo.marshal demo_agent (Demo.call "a" "1")
    (Demo.echo "a" true true) "go" (Demo.state [] []) _ _ eq_refl I (surjective_pairing _))).
Defined.
