(* ===== verification/AgentLoopSpec.v ===== *)
(** * Rules for the agent loop

    Which parts of a turn leave the run state alone, and what the others do to it:
    retries, the answers to the calls of a response, the function calls. *)

From S2P Require Import Prelude Errors Usage Messages Truncate AgentTypes AutoContext AgentTools AgentToolsSafety AgentLoop.

(** ** Quiet programs *)

(** A program that does not change the run state. *)
Definition quiet {W A} (m : prog W A) : Prop := ∀ s, rs (run m s).1 = rs s.

Create HintDb quiet.

Section quiet.
Context {W T : Type}.
Context (a : Agent W T).

Lemma prog_quiet_ret {A} (x : A) : quiet (Ret (W := W) x).
Proof. done. Qed.
Lemma prog_quiet_bind {A B} (m : prog W A) (k : A → prog W B) :
  quiet m → (∀ x, quiet (k x)) → quiet (bind m k).
Proof.
  intros Hm Hk s. rewrite run_bind. pose proof (Hm s). destruct (run m s) as [s1 x].
  rewrite (Hk x s1). done.
Qed.
Lemma quiet_callback {X} (f : W → W * X) : quiet (callback f).
Proof. intros s. simpl. by destruct (f (world s)). Qed.
Lemma quiet_publish e : quiet (publish a e).
Proof. intros s. simpl. by destruct (eventBus a). Qed.
Lemma quiet_fireHook h : quiet (fireHook a h).
Proof. apply quiet_callback. Qed.
Lemma prog_quiet_get : quiet (get (W := W)).
Proof. done. Qed.

Lemma wp_quiet {A} (m : prog W A) (Q : A → St W → Prop) s :
  quiet m → (∀ x s', rs s' = rs s → Q x s') → wp m Q s.
Proof. intros Hm HQ. apply wp_intro. intros s' x E. apply HQ. rewrite <- (Hm s), E. done. Qed.

Lemma wp_quiet_and {A} (m : prog W A) (Q : A → St W → Prop) s :
  quiet m → wp m Q s → wp m (λ x s', rs s' = rs s ∧ Q x s') s.
Proof. intros Hm HQ. split; [apply Hm|done]. Qed.

Lemma wp_get (Q : RunState → St W → Prop) s : Q (rs s) s → wp get Q s.
Proof. done. Qed.
End quiet.
#[export] Hint Resolve prog_quiet_ret quiet_callback quiet_publish quiet_fireHook prog_quiet_get : quiet.

(** Follows the structure of a program. *)
Ltac solve_quiet :=
  repeat match goal with
  | |- quiet (bind _ _) => apply prog_quiet_bind; [|intros ?]
  | |- quiet (match ?x with _ => _ end) => destruct x
  | |- quiet (let _ := _ in _) => cbv zeta
  | |- _ => progress eauto with quiet
  end.

Section loop.
Context {W T : Type}.
Context (json_marshal : ToolValue → res string).
Context (json_object_ok : string → bool).
Context (unmarshal_wrapper : string → res (gmap string string)).
Context (unmarshal_T : string → res T).
Context (string_as_T : string → option T).
Context (type_name_T : string).
Context (ctx_Err : W → option error).
Context (a : Agent W T).

Lemma quiet_try_repair f raw prompt name id e : quiet (try_repair a f raw prompt name id e).
Proof. unfold try_repair. solve_quiet. Qed.
Hint Resolve quiet_try_repair : quiet.

Lemma quiet_validateOutput rc output vs : quiet (validateOutput (W := W) (T := T) rc output vs).
Proof. revert output. induction vs; intros; cbn [validateOutput]; solve_quiet. Qed.
Hint Resolve quiet_validateOutput : quiet.

Lemma quiet_validate rc output : quiet (validate a rc output).
Proof. unfold validate. solve_quiet. Qed.
Hint Resolve quiet_validate : quiet.

Lemma quiet_parse_text text prompt :
  quiet (parse_text unmarshal_wrapper unmarshal_T string_as_T type_name_T a text prompt).
Proof. unfold parse_text. solve_quiet. Qed.
Lemma quiet_parse_call c prompt : quiet (parse_call unmarshal_wrapper unmarshal_T a c prompt).
Proof. unfold parse_call. solve_quiet. Qed.
Lemma quiet_recordRetry reason name id : quiet (recordRetryScheduled a reason name id).
Proof. unfold recordRetryScheduled. solve_quiet. Qed.
Hint Resolve quiet_parse_text quiet_parse_call quiet_recordRetry : quiet.

Lemma quiet_unknown_parts calls : quiet (unknown_parts a calls).
Proof. induction calls; cbn [unknown_parts]; solve_quiet. Qed.

Lemma quiet_prepare_each rc ts : quiet (prepare_each (W := W) rc ts).
Proof. induction ts; cbn [prepare_each]; solve_quiet. Qed.
Hint Resolve quiet_prepare_each : quiet.
Lemma quiet_prepareTools ts prompt : quiet (prepareTools a ts prompt).
Proof. unfold prepareTools. solve_quiet. Qed.
Lemma quiet_inject : quiet (inject_tool_choice a).
Proof. intros s. simpl. repeat case_match; simplify_eq/=; done. Qed.
Lemma quiet_compactions rc cs : quiet (fire_compactions a rc cs).
Proof. induction cs; cbn [fire_compactions]; solve_quiet. Qed.
Hint Resolve quiet_prepareTools quiet_inject quiet_compactions : quiet.
Lemma quiet_processors rc procs msgs : quiet (run_history_processors a rc procs msgs).
Proof. revert msgs. induction procs; intros; cbn [run_history_processors]; solve_quiet. Qed.
Lemma quiet_message_interceptors ints msgs : quiet (runMessageInterceptors (W := W) ints msgs).
Proof. revert msgs. induction ints; intros; cbn [runMessageInterceptors]; solve_quiet. Qed.
Lemma quiet_response_interceptors ints resp : quiet (runResponseInterceptors (W := W) ints resp).
Proof. revert resp. induction ints; intros; cbn [runResponseInterceptors]; solve_quiet. Qed.
Lemma quiet_guardrails rc msgs gs : quiet (run_guardrails a rc msgs gs).
Proof. induction gs as [|[]]; cbn [run_guardrails]; solve_quiet. Qed.
Lemma quiet_emit resp e : quiet (emitTurnCompleted a resp e).
Proof. unfold emitTurnCompleted. solve_quiet. Qed.
Lemma quiet_conditions rc resp cs : quiet (check_conditions a rc resp cs).
Proof. induction cs; cbn [check_conditions]; solve_quiet. Qed.
Lemma quiet_keep_settings ms resp : quiet (keep_settings a ms resp).
Proof. done. Qed.
Hint Resolve quiet_processors quiet_message_interceptors quiet_response_interceptors
  quiet_guardrails quiet_emit quiet_conditions quiet_keep_settings : quiet.
Lemma quiet_turn_failed resp e : quiet (turn_failed a resp e).
Proof. unfold turn_failed. solve_quiet. Qed.
End loop.
#[export] Hint Resolve quiet_try_repair quiet_validate quiet_parse_text quiet_parse_call
  quiet_recordRetry quiet_unknown_parts quiet_prepareTools quiet_inject quiet_processors
  quiet_message_interceptors quiet_response_interceptors quiet_guardrails quiet_emit
  quiet_conditions quiet_keep_settings quiet_turn_failed : quiet.

(** ** Frames *)

(** Only the retry counter changed, and it did not shrink. *)
Definition retried (r r' : RunState) : Prop := ∃ n, r' = r <| retries := n |> ∧ retries r ≤ n.

Lemma retried_refl r : retried r r.
Proof. exists (retries r). split; [by destruct r|lia]. Qed.
Lemma retried_eq r r' : r' = r → retried r r'.
Proof. intros ->. apply retried_refl. Qed.
Lemma retried_trans r1 r2 r3 : retried r1 r2 → retried r2 r3 → retried r1 r3.
Proof. intros (n & -> & ?) (m & -> & ?). exists m. simpl in *. split; [done|lia]. Qed.
Lemma retried_le r r' : retried r r' → retries r ≤ retries r'.
Proof. by intros (n & -> & ?). Qed.
Lemma retried_incr r : retried r (r <| retries := retries r + 1 |>).
Proof. eexists. split; [done|lia]. Qed.

(** What processing a response does to the run state, the retry counter aside: the
    history and the limits stay, and the tool calls respect their limit. *)
Record proc_frame (r r' : RunState) : Prop := MkProcFrame {
  pf_messages : messages r' = messages r;
  pf_limits : limits r' = limits r;
  pf_requests : Requests (usage r') = Requests (usage r);
  pf_tokens : ru_Usage (usage r') = ru_Usage (usage r);
  pf_calls : ∀ n, ToolCallsLimit (limits r) = Some n →
    Usage.ToolCalls (usage r) ≤ n → Usage.ToolCalls (usage r') ≤ n;
}.

Lemma proc_frame_refl r : proc_frame r r.
Proof. by split. Qed.
Lemma proc_frame_trans r1 r2 r3 : proc_frame r1 r2 → proc_frame r2 r3 → proc_frame r1 r3.
Proof.
  intros [H1 H2 H3 H4 H5] [G1 G2 G3 G4 G5]. split; try congruence.
  intros n Hn ?. apply G5; [by rewrite H2|by apply H5].
Qed.
Lemma retried_frame r r' : retried r r' → proc_frame r r'.
Proof. by intros (n & -> & _). Qed.

Create HintDb frame.
#[export] Hint Resolve retried_refl retried_eq retried_trans retried_incr proc_frame_refl
  proc_frame_trans retried_frame : frame.

(** The calls of a response, sorted by what handles them. *)
Lemma calls_partition {W T} (a : Agent W T) calls :
  (tc_ToolCallID <$> unknownCalls a calls) ++ (tc_ToolCallID <$> outputCalls a calls) ++
  ((λ ic : Call W, tc_ToolCallID ic.1) <$> functionCalls a calls) ≡ₚ (tc_ToolCallID <$> calls).
Proof.
  induction calls as [|c calls IH]; [done|]. unfold unknownCalls, outputCalls, functionCalls in *.
  rewrite !filter_cons. cbn [omap list_omap]. destruct (is_output_tool a (tc_ToolName c)) eqn:Eo.
  - rewrite decide_False by naive_solver. rewrite decide_True by done. simpl. rewrite <- IH.
    by rewrite <- Permutation_middle.
  - destruct (toolMap a (tc_ToolName c)) as [t|] eqn:Et.
    + rewrite decide_False by naive_solver. rewrite decide_False by done. simpl. rewrite <- IH.
      by rewrite <- !Permutation_middle.
    + rewrite decide_True by done. rewrite decide_False by done. simpl. by rewrite <- IH.
Qed.

(** The parts and deferrals of the outcomes answer exactly the calls. *)
Lemma outcomes_answer {W} (calls : list (Call W)) os :
  Forall2 (λ (ic : Call W) o, outcome_of ic.1 o) calls os → Forall not_fatal os →
  omap answers (omap outcome_part os) ++ (dreq_ToolCallID <$> omap outcome_deferred os) ≡ₚ
  ((λ ic : Call W, tc_ToolCallID ic.1) <$> calls).
Proof.
  intros H. induction H as [|ic o calls os Ho _ IH]; [done|]. intros Hnf.
  apply Forall_cons in Hnf as [Hnf Hnfs]. specialize (IH Hnfs).
  destruct o as [p|d|e]; simpl in *; [rewrite Ho| |done].
  - simpl. by rewrite IH.
  - subst d. simpl. rewrite <- Permutation_middle. by rewrite IH.
Qed.

Section response.
Context {W T : Type}.
Context (json_marshal : ToolValue → res string).
Context (json_object_ok : string → bool).
Context (unmarshal_wrapper : string → res (gmap string string)).
Context (unmarshal_T : string → res T).
Context (string_as_T : string → option T).
Context (type_name_T : string).
Context (ctx_Err : W → option error).
Context (a : Agent W T).

Lemma wp_increment_retries s :
  wp (increment_retries json_object_ok a) (λ e s',
    rs s' = (rs s) <| retries := retries (rs s) + 1 |> ∧
    (e = None → retries (rs s) + 1 ≤ maxRetries a)) s.
Proof.
  apply wp_locked.
  destruct (incrementRetries _ _ _ _) as [n e] eqn:E. cbn [fst snd].
  assert (n = retries (rs s) + 1) as ->.
  { unfold incrementRetries in E. repeat case_match; simplify_eq; done. }
  split; [done|]. intros ->. by apply incrementRetries_bound in E as [].
Qed.

Lemma wp_schedule_retry reason name id s :
  wp (schedule_retry json_object_ok a reason name id) (λ r s',
    rs s' = (rs s) <| retries := retries (rs s) + 1 |> ∧
    match r with
    | Ok p => answers p = Some id ∧ retries (rs s) + 1 ≤ maxRetries a
    | Err _ => True
    end) s.
Proof.
  apply wp_bind. eapply wp_mono; [apply wp_increment_retries|]. intros [e|] s1 [H1 H2]; [done|].
  apply wp_bind, wp_quiet; [auto with quiet|]. intros _ s2 Hs2. apply wp_ret.
  split_and!; [congruence|done|auto].
Qed.

Lemma unknown_parts_answers calls s :
  wp (unknown_parts a calls) (λ ps s', omap answers ps = tc_ToolCallID <$> calls) s.
Proof.
  revert s. induction calls as [|c calls IH]; intros s; cbn [unknown_parts]; [done|].
  apply wp_bind, wp_quiet; [auto with quiet|]. intros _ s1 _.
  apply wp_bind. eapply wp_mono; [apply IH|]. intros ps s2 Hps. apply wp_ret. simpl. f_equal. exact Hps.
Qed.

(** A retry counter that went up stays within the limit. *)
Definition within (r r' : RunState) : Prop := retries r' = retries r ∨ retries r' ≤ maxRetries a.

Lemma wp_handle_unknown calls s :
  wp (handle_unknown json_object_ok a calls) (λ r s', retried (rs s) (rs s') ∧
    match r with
    | Ok ps => omap answers ps = tc_ToolCallID <$> calls ∧ within (rs s) (rs s') ∧
               (calls ≠ [] → retries (rs s) < retries (rs s'))
    | Err _ => True
    end) s.
Proof.
  unfold handle_unknown. destruct calls as [|c calls].
  { apply wp_ret. split_and!; [apply retried_refl|done|by left|done]. }
  apply wp_bind. eapply wp_mono; [apply wp_increment_retries|]. intros [e|] s1 [H1 H2].
  { apply wp_ret. rewrite H1. auto with frame. }
  apply wp_bind. eapply wp_mono;
    [apply wp_quiet_and; [auto with quiet|apply unknown_parts_answers]|].
  intros ps s2 [Hs2 Hps]. apply wp_ret. rewrite Hs2, H1. split_and!; auto with frame.
  - right. by apply H2.
  - simpl. lia.
Qed.

(** An output call: accepted, or answered with a retry. *)
Lemma wp_output_call c prompt s :
  wp (output_call json_object_ok unmarshal_wrapper unmarshal_T a c prompt) (λ r s',
    retried (rs s) (rs s') ∧
    match r with
    | Ok (inl _) => rs s' = rs s
    | Ok (inr p) => answers p = Some (tc_ToolCallID c) ∧
                    retries (rs s) < retries (rs s') ≤ maxRetries a
    | Err _ => True
    end) s.
Proof.
  assert (Hretry : ∀ reason s1, rs s1 = rs s →
    wp (bind (schedule_retry json_object_ok a reason (tc_ToolName c) (tc_ToolCallID c))
         (λ r, match r with Ok p => Ret (Ok (inr p)) | Err e => Ret (Err e) end))
       (λ (r : res (T + RequestPart)) s',
          retried (rs s) (rs s') ∧
          match r with
          | Ok (inl _) => rs s' = rs s
          | Ok (inr p) => answers p = Some (tc_ToolCallID c) ∧
                          retries (rs s) < retries (rs s') ≤ maxRetries a
          | Err _ => True
          end) s1).
  { intros reason s1 Hs1. apply wp_bind. eapply wp_mono; [apply wp_schedule_retry|].
    intros r s2 [H1 H2]. rewrite Hs1 in H1, H2. destruct r as [p|e]; apply wp_ret; rewrite H1;
      (split; [apply retried_incr|]); [|done]. destruct H2. simpl. split; [done|lia]. }
  unfold output_call. apply wp_bind, wp_quiet; [auto with quiet|]. intros [output|err] s1 Hs1;
    [|by apply Hretry].
  apply wp_bind, wp_get, wp_bind, wp_quiet; [auto with quiet|]. intros [output' [e|]] s2 Hs2.
  - destruct (errors_as as_model_retry e); [apply Hretry; congruence|]. apply wp_ret.
    rewrite Hs2, Hs1. auto with frame.
  - apply wp_ret. rewrite Hs2, Hs1. auto with frame.
Qed.

(** What the loop over the output calls establishes. *)
Record output_post (calls : list ToolCallPart) (result : option (finalResult T))
    (parts : list RequestPart) (s s' : St W) (early : bool) (result' : option (finalResult T))
    (parts' : list RequestPart) : Prop := MkOutputPost {
  op_within : within (rs s) (rs s');
  op_answers : ∃ new, parts' = parts ++ new ∧ (early = false → omap answers new = tc_ToolCallID <$> calls);
  op_early : early = true → endStrategy a = EndStrategyEarly ∧ is_Some result';
  op_progress : result' = None → calls ≠ [] → retries (rs s) < retries (rs s');
  op_keep : result' = None → result = None;
  op_none : calls = [] → result' = result;
}.

Lemma output_post_step c calls result parts s s1 s' early result0 result' p parts' :
  output_post calls result0 (parts ++ [p]) s1 s' early result' parts' →
  answers p = Some (tc_ToolCallID c) →
  within (rs s) (rs s1) → retries (rs s1) ≤ retries (rs s') →
  (result' = None → retries (rs s) < retries (rs s1) ∧ result = None) →
  output_post (c :: calls) result parts s s' early result' parts'.
Proof.
  intros [Hw (new & -> & Ha) He Hp Hk Hn] Hans Hw1 Hle Hres. split.
  - unfold within in *. destruct Hw as [->|]; [|by right]. done.
  - exists (p :: new). split; [by rewrite <- app_assoc|]. intros Hf. simpl. rewrite Hans.
    f_equal. by apply Ha.
  - done.
  - intros Hnone _. destruct (Hres Hnone). lia.
  - intros Hnone. by apply Hres.
  - done.
Qed.

Lemma wp_output_loop calls prompt result parts s :
  wp (output_loop json_object_ok unmarshal_wrapper unmarshal_T a calls prompt result parts) (λ r s',
    retried (rs s) (rs s') ∧
    match r with
    | Ok (early, (result', parts')) => output_post calls result parts s s' early result' parts'
    | Err _ => True
    end) s.
Proof.
  revert result parts s. induction calls as [|c calls IH]; intros result parts s; cbn [output_loop].
  { apply wp_ret. split; [auto with frame|]. split; try done; [by left|].
    exists []. by rewrite app_nil_r. }
  apply wp_bind. eapply wp_mono; [apply wp_output_call|]. intros [o|e] s1 [H1 H2]; [|by apply wp_ret].
  assert (Hgo : ∀ result0 p,
    answers p = Some (tc_ToolCallID c) → within (rs s) (rs s1) →
    (∀ result' : option (finalResult T), (result' = None → result0 = None) →
       result' = None → retries (rs s) < retries (rs s1) ∧ result = None) →
    wp (output_loop json_object_ok unmarshal_wrapper unmarshal_T a calls prompt result0 (parts ++ [p]))
      (λ r s', retried (rs s) (rs s') ∧
        match r with
        | Ok (early, (result', parts')) => output_post (c :: calls) result parts s s' early result' parts'
        | Err _ => True
        end) s1).
  { intros result0 p Hp Hw Hres. eapply wp_mono; [apply IH|]. intros r s2 [G1 G2].
    split; [by eapply retried_trans|]. destruct r as [[early [result' parts']]|e]; [|done].
    eapply output_post_step; [done..|by apply retried_le|]. intros Hn. eapply Hres; [|done].
    apply (op_keep _ _ _ _ _ _ _ _ G2). }
  destruct o as [output|p].
  - assert (within (rs s) (rs s1)) as Hw by (rewrite H2; by left).
    destruct result as [fr|]; [apply Hgo; [done..|by intros result' Hk ?%Hk]|].
    destruct (endStrategy a) eqn:Estr; [|apply Hgo; [done..|by intros result' Hk ?%Hk]].
    apply wp_ret. split; [done|]. split; try done. by eexists.
  - destruct H2 as [Hp Hr]. apply Hgo; [done|right; lia|]. intros result' Hk Hn. split; [lia|auto].
Qed.

(** The function calls, for any property of their outcomes. *)
Lemma wp_function_calls (P : Call W → ToolOutcome → Prop) calls prompt s :
  (∀ ic, tool_prog (P ic) 1 (executeSingleTool json_marshal a ic.1 ic.2 prompt)) →
  (∀ ic e, maxConcurrency a > 0 → P ic (tool_return ic.1 ("error: " +:+ Error e))) →
  wp (function_calls json_marshal ctx_Err a calls prompt) (λ r s', proc_frame (rs s) (rs s') ∧
    (calls = [] → rs s' = rs s) ∧
    match r with Ok os => Forall2 P calls os ∧ Forall not_fatal os | Err _ => True end) s.
Proof.
  intros HP HC. unfold function_calls. destruct calls as [|ic0 calls0]; [by apply wp_ret|].
  set (calls := ic0 :: calls0).
  assert (Hex : (∀ n, ToolCallsLimit (limits (rs s)) = Some n →
      Usage.ToolCalls (usage (rs s)) + Z.of_nat (length calls) ≤ n) →
    wp (bind (act (executeFunctionTools json_marshal ctx_Err a prompt calls)) (λ r,
      match r with
      | Ok os => bind (locked (λ r, (r <| retries := 0 |>, tt))) (λ _, Ret (Ok os))
      | Err e => Ret (Err e)
      end)) (λ r s', proc_frame (rs s) (rs s') ∧ (calls = [] → rs s' = rs s) ∧
        match r with Ok os => Forall2 P calls os ∧ Forall not_fatal os | Err _ => True end) s).
  { intros Hlim. apply wp_bind, wp_act.
    destruct (executeFunctionTools _ _ _ _ _ s) as [s1 r] eqn:E.
    apply (executeFunctionTools_post _ _ _ _ P HP HC) in E as [[H1 H2 H3 H4 H5 H6 H7] Hr].
    assert (proc_frame (rs s) (rs s1)) as Hf.
    { split; try done. intros n Hn _. specialize (Hlim n Hn). lia. }
    cbn [fst snd]. destruct r as [os|e]; [|by apply wp_ret].
    apply wp_bind, wp_locked, wp_ret. split; [|done].
    eapply proc_frame_trans; [exact Hf|]. by split. }
  apply wp_bind, wp_get. destruct (ToolCallsLimit (limits (rs s))) as [n|] eqn:El; [|by apply Hex].
  destruct (Z.gtb_spec (Usage.ToolCalls (usage (rs s)) + Z.of_nat (length calls)) n) as [|Hle].
  - apply wp_ret. by auto with frame.
  - apply Hex. intros m [= ->]. lia.
Qed.

(** [processResponse] answers the calls of the response [calls] completely: by a
    part or a deferral each, no call twice. *)
Definition answers_all (calls : list ToolCallPart) (p : Processed T) : Prop :=
  omap answers (nextParts p) ++ (dreq_ToolCallID <$> deferredReqs p) ≡ₚ (tc_ToolCallID <$> calls).

(** What [processResponse] establishes. *)
Record processed (resp : ModelResponse) (s s' : St W) (p : Processed T) : Prop := MkProcessedPost {
  pr_answers : Messages.ToolCalls resp ≠ [] →
    endStrategy a = EndStrategyExhaustive ∨ final p = None ∨ deferredReqs p ≠ [] →
    answers_all (Messages.ToolCalls resp) p;
  pr_no_calls : Messages.ToolCalls resp = [] → deferredReqs p = [] ∧ (final p = None → nextParts p ≠ []) ∧
    (is_Some (final p) → nextParts p = []);
  pr_progress : functionCalls a (Messages.ToolCalls resp) = [] → final p = None →
    retries (rs s) < retries (rs s') ≤ maxRetries a;
  pr_final : Messages.ToolCalls resp ≠ [] → outputCalls a (Messages.ToolCalls resp) = [] → final p = None;
}.

Local Abbreviation processResponse :=
  (processResponse json_marshal json_object_ok unmarshal_wrapper unmarshal_T string_as_T
     type_name_T ctx_Err a).
Local Abbreviation process_calls :=
  (process_calls json_marshal json_object_ok unmarshal_wrapper unmarshal_T ctx_Err a).

Lemma wp_retry_response msg resp s s1 :
  Messages.ToolCalls resp = [] → rs s1 = rs s →
  wp (bind (schedule_retry json_object_ok a msg "" "") (λ r,
        match r with Ok part => Ret (Ok (MkProcessed None [part] [])) | Err e => Ret (Err e) end))
     (λ (r : res (Processed T)) s', retried (rs s) (rs s') ∧
        match r with Ok p => processed resp s s' p | Err _ => True end) s1.
Proof.
  intros Hno Hs1. apply wp_bind. eapply wp_mono; [apply wp_schedule_retry|].
  intros r s2 [H1 H2]. rewrite Hs1 in H1, H2. destruct r as [p|e]; apply wp_ret;
    (split; [rewrite H1; apply retried_incr|]); [|done].
  destruct H2 as [_ H2]. split; [done|intros _; split_and!; [done|done|by intros []]| |done].
  intros _ _. rewrite H1. simpl. lia.
Qed.

Lemma wp_text_output text prompt resp s :
  Messages.ToolCalls resp = [] →
  wp (text_output json_object_ok unmarshal_wrapper unmarshal_T string_as_T type_name_T a text prompt)
    (λ r s', retried (rs s) (rs s') ∧ match r with Ok p => processed resp s s' p | Err _ => True end) s.
Proof.
  intros Hno. unfold text_output. apply wp_bind, wp_quiet; [auto with quiet|].
  intros [output|e] s1 Hs1; [|apply wp_ret; auto with frame].
  apply wp_bind, wp_get, wp_bind, wp_quiet; [auto with quiet|]. intros [output' [e|]] s2 Hs2.
  - destruct (errors_as as_model_retry e); [apply wp_retry_response; congruence|].
    apply wp_ret. rewrite Hs2, Hs1. auto with frame.
  - apply wp_ret. split; [rewrite Hs2, Hs1; auto with frame|]. by split.
Qed.

Lemma wp_empty_response resp s :
  Messages.ToolCalls resp = [] →
  wp (empty_response json_object_ok a resp)
    (λ r s', retried (rs s) (rs s') ∧ match r with Ok p => processed resp s s' p | Err _ => True end) s.
Proof.
  intros Hno. unfold empty_response. do 2 (case_bool_decide; [apply wp_ret; auto with frame|]).
  by apply wp_retry_response.
Qed.

Lemma process_progress calls (s s1 s2 : St W) result parts parts' :
  calls ≠ [] → functionCalls a calls = [] →
  retried (rs s) (rs s1) → within (rs s) (rs s1) →
  (unknownCalls a calls ≠ [] → retries (rs s) < retries (rs s1)) →
  retried (rs s1) (rs s2) →
  output_post (outputCalls a calls) None parts s1 s2 false result parts' →
  result = None → retries (rs s) < retries (rs s2) ≤ maxRetries a.
Proof.
  intros Hne Hf Hr1 Hw1 Hu Hr2 Ho ->. pose proof (calls_partition a calls) as Hp. rewrite Hf in Hp.
  apply retried_le in Hr1, Hr2. destruct Ho as [Hw2 _ _ Hpr _ _]. unfold within in *.
  assert (retries (rs s) < retries (rs s2)) as Hlt; [|lia].
  destruct (unknownCalls a calls) eqn:Eu; [|specialize (Hu ltac:(done)); lia].
  destruct (outputCalls a calls) eqn:Eo; [|specialize (Hpr eq_refl ltac:(done)); lia].
  apply Permutation_nil_l, symmetry, fmap_nil_inv in Hp. done.
Qed.

Lemma process_answers calls ps new os :
  omap answers ps = tc_ToolCallID <$> unknownCalls a calls →
  omap answers new = tc_ToolCallID <$> outputCalls a calls →
  Forall2 (λ (ic : Call W) o, outcome_of ic.1 o) (functionCalls a calls) os → Forall not_fatal os →
  omap answers ((ps ++ new) ++ omap outcome_part os) ++ (dreq_ToolCallID <$> omap outcome_deferred os)
  ≡ₚ (tc_ToolCallID <$> calls).
Proof.
  intros Hps Hnew Ho Hnf. rewrite <- (calls_partition a calls), !omap_app, Hps, Hnew, <- !app_assoc.
  by rewrite (outcomes_answer _ _ Ho Hnf).
Qed.

Lemma wp_process_calls resp prompt s :
  Messages.ToolCalls resp ≠ [] →
  wp (process_calls (Messages.ToolCalls resp) prompt) (λ r s', proc_frame (rs s) (rs s') ∧
    match r with Ok p => processed resp s s' p | Err _ => True end) s.
Proof.
  intros Hne. unfold AgentLoop.process_calls. apply wp_bind. eapply wp_mono; [apply wp_handle_unknown|].
  intros [ps|e] s1 [Hr1 H1]; [|apply wp_ret; auto with frame]. destruct H1 as (Hps & Hw1 & Hu).
  apply wp_bind. eapply wp_mono; [apply wp_output_loop|].
  intros [[early [result parts]]|e] s2 [Hr2 H2]; [|apply wp_ret; eauto with frame].
  assert (proc_frame (rs s) (rs s2)) as Hf2 by eauto with frame.
  destruct early.
  { apply wp_ret. split; [done|]. destruct (op_early _ _ _ _ _ _ _ _ H2 eq_refl) as [He [fr ->]].
    split; try done; [by intros _ [He'|[?|?]]; [congruence|..]|].
    intros _ Hno. by apply (op_none _ _ _ _ _ _ _ _ H2). }
  apply wp_bind. eapply wp_mono.
  { apply (wp_function_calls (λ ic, outcome_of ic.1)); [|done]. intros. apply executeSingleTool_prog. }
  intros [os|e] s3 (Hf3 & Hs3 & Hos); apply wp_ret; (split; [by eauto with frame|]); [|done].
  destruct Hos as [Ho Hnf]. split; [|done| |].
  - intros _ _. destruct (op_answers _ _ _ _ _ _ _ _ H2) as (new & -> & Hnew). by apply process_answers; auto.
  - intros Hnof Hnone. rewrite (Hs3 Hnof). by eapply process_progress.
  - intros _. apply (op_none _ _ _ _ _ _ _ _ H2).
Qed.

Lemma wp_processResponse resp prompt s :
  wp (processResponse resp prompt) (λ r s', proc_frame (rs s) (rs s') ∧
    match r with Ok p => processed resp s s' p | Err _ => True end) s.
Proof.
  unfold AgentLoop.processResponse. destruct (Messages.ToolCalls resp) as [|c calls] eqn:Hc.
  - case_match; (eapply wp_mono; [by (apply wp_text_output || apply wp_empty_response)|]);
      intros r s' [? ?]; auto with frame.
  - rewrite <- Hc. apply wp_process_calls. by rewrite Hc.
Qed.
End response.
