(* ===== verification/AgentTurn.v ===== *)
(** * One turn of the agent loop

    Rules for [finish_turn], [handle_response] and [turn]: what a turn adds to the
    history and to the counters, for each way it can end. *)

From S2P Require Import Prelude Errors Usage Messages Truncate AgentTypes AutoContext AgentTools AgentToolsSafety AgentLoop AgentLoopSpec.

(** The history after the parts of a turn were recorded. *)
Definition record_parts (ps : list RequestPart) (msgs : list ModelMessage) : list ModelMessage :=
  match ps with [] => msgs | _ => msgs ++ [ModelRequest ps] end.

(** The limits and counters a turn keeps after its request was counted. *)
Record loop_frame (r r' : RunState) : Prop := MkLoopFrame {
  lf_limits : limits r' = limits r;
  lf_requests : Requests (usage r') = Requests (usage r);
  lf_calls : ∀ n, ToolCallsLimit (limits r) = Some n →
    Usage.ToolCalls (usage r) ≤ n → Usage.ToolCalls (usage r') ≤ n;
}.

Lemma loop_frame_refl r : loop_frame r r.
Proof. by split. Qed.
Lemma loop_frame_eq r r' : r' = r → loop_frame r r'.
Proof. intros ->. apply loop_frame_refl. Qed.
Lemma loop_frame_trans r1 r2 r3 : loop_frame r1 r2 → loop_frame r2 r3 → loop_frame r1 r3.
Proof.
  intros [H1 H2 H3] [G1 G2 G3]. split; try congruence.
  intros n Hn ?. apply G3; [by rewrite H1|by apply H3].
Qed.
Lemma proc_loop_frame r r' : proc_frame r r' → loop_frame r r'.
Proof. by intros []. Qed.
Lemma loop_frame_messages r ms : loop_frame r (r <| messages := ms |>).
Proof. by split. Qed.
#[export] Hint Resolve loop_frame_refl loop_frame_eq loop_frame_trans proc_loop_frame
  loop_frame_messages : frame.

Section turn.
Context {W T : Type}.
Context (json_marshal : ToolValue → res string).
Context (json_object_ok : string → bool).
Context (unmarshal_wrapper : string → res (gmap string string)).
Context (unmarshal_T : string → res T).
Context (string_as_T : string → option T).
Context (type_name_T : string).
Context (ctx_Err : W → option error).
Context (a : Agent W T).

Local Abbreviation handle_response :=
  (handle_response json_marshal json_object_ok unmarshal_wrapper unmarshal_T string_as_T
     type_name_T ctx_Err a).
Local Abbreviation turn :=
  (turn json_marshal json_object_ok unmarshal_wrapper unmarshal_T string_as_T type_name_T ctx_Err a).

Lemma wp_turn_failed resp e (Q : StepResult T → St W → Prop) s :
  (∀ s', rs s' = rs s → Q (SErr resp (RunFailed e)) s') → wp (turn_failed a resp e) Q s.
Proof. intros HQ. apply wp_bind, wp_quiet; [auto with quiet|]. intros _ s' Hs. by apply wp_ret, HQ. Qed.

(** A processed response ends the turn. *)
Lemma wp_finish_turn turnRC resp p s :
  wp (finish_turn a turnRC resp (Ok p)) (λ out s',
    rs s' = (rs s) <| messages := record_parts (nextParts p) (messages (rs s)) |> ∧
    match out with
    | SErr _ (RunFailed _) => True
    | SErr _ (ErrDeferred reqs msgs u) =>
      reqs = deferredReqs p ∧ reqs ≠ [] ∧ msgs = messages (rs s')
    | SDone _ r => deferredReqs p = [] ∧ is_Some (final p) ∧ res_Messages r = messages (rs s') ∧
        res_Usage r = usage (rs s')
    | SNext _ => deferredReqs p = [] ∧ final p = None
    end) s.
Proof.
  unfold finish_turn. apply wp_bind, wp_get, wp_bind.
  apply (wp_mono _ (λ _ s', rs s' = (rs s) <| messages := record_parts (nextParts p) (messages (rs s)) |>)).
  { unfold record_parts. destruct (nextParts p); [apply wp_ret; by destruct (rs s)|by apply wp_locked]. }
  intros _ s1 Hs1. destruct (deferredReqs p) as [|d ds] eqn:Hd.
  - apply wp_bind, wp_quiet; [auto with quiet|]. intros _ s2 Hs2.
    destruct (final p) as [fr|] eqn:Hfin.
    + apply wp_bind, wp_quiet; [by destruct (kbAutoStore a), (knowledgeBase_Store a); try case_match; auto with quiet|].
      intros [e|] s3 Hs3.
      * apply wp_turn_failed. intros s4 Hs4. split; [congruence|done].
      * apply wp_bind, wp_quiet; [auto with quiet|]. intros _ s4 Hs4.
        apply wp_bind, wp_bind, wp_get, wp_ret, wp_ret. split_and!; try done; congruence.
    + apply wp_bind, wp_quiet; [auto with quiet|]. intros _ s3 Hs3. apply wp_ret. split; [congruence|done].
  - apply wp_bind, wp_quiet; [auto with quiet|]. intros _ s2 Hs2.
    apply wp_bind, wp_quiet; [auto with quiet|]. intros _ s3 Hs3.
    apply wp_bind, wp_act. cbn [fst snd]. set (s4 := if eventBus a then _ else _).
    assert (rs s4 = rs s3) as Hs4 by (unfold s4; by destruct (eventBus a)).
    apply wp_bind, wp_get, wp_ret. split_and!; try done; congruence.
Qed.

(** How a turn ends once its response is in the history of [s]. *)
Definition handled (resp : ModelResponse) (s s' : St W) (out : StepResult T) : Prop :=
  match out with
  | SErr _ (RunFailed _) => True
  | SErr _ (ErrDeferred reqs msgs u) => ∃ p, processed a resp s s' p ∧ deferredReqs p = reqs ∧ reqs ≠ [] ∧
      msgs = record_parts (nextParts p) (messages (rs s))
  | SDone _ r => res_Usage r = usage (rs s') ∧
      ((runConditions a ≠ [] ∧ res_Messages r = messages (rs s)) ∨
       ∃ p, processed a resp s s' p ∧ deferredReqs p = [] ∧ is_Some (final p) ∧
         res_Messages r = record_parts (nextParts p) (messages (rs s)))
  | SNext _ => ∃ p, processed a resp s s' p ∧ deferredReqs p = [] ∧ final p = None ∧
      messages (rs s') = record_parts (nextParts p) (messages (rs s))
  end.

Lemma processed_retries resp (s s1 s' : St W) (p : Processed T) :
  processed a resp s s1 p → retries (rs s') = retries (rs s1) → processed a resp s s' p.
Proof. intros [] Hr. split; try done. by rewrite Hr. Qed.

Lemma wp_handle_response prompt turnRC resp s :
  wp (handle_response prompt turnRC resp) (λ out s',
    loop_frame (rs s) (rs s') ∧ handled resp s s' out) s.
Proof.
  unfold AgentLoop.handle_response. apply wp_bind, wp_get.
  destruct (if HasTokenLimits _ then _ else _) as [e|].
  { apply wp_turn_failed. intros s' Hs. split; [auto with frame|done]. }
  apply wp_bind.
  apply (wp_mono _ (λ r s', rs s' = rs s ∧ (is_Some r → runConditions a ≠ []))).
  { apply wp_quiet_and; [auto with quiet|]. destruct (runConditions a) eqn:Ec; [|by apply wp_intro].
    apply wp_ret. by intros []. }
  intros [reason|] s1 [Hs1 Hc].
  - destruct (condition_output _ _ _ a resp).
    + apply wp_bind, wp_quiet; [auto with quiet|]. intros _ s2 Hs2.
      apply wp_bind, wp_bind, wp_get, wp_ret, wp_ret. split; [apply loop_frame_eq; congruence|].
      split; [done|]. left. split; [auto|]. simpl. congruence.
    + apply wp_turn_failed. intros s2 Hs2. split; [apply loop_frame_eq; congruence|done].
  - apply wp_bind. eapply wp_mono; [apply wp_processResponse|]. intros r s2 [Hf Hp]. rewrite Hs1 in Hf.
    destruct r as [p|e].
    + eapply wp_mono; [apply wp_finish_turn|]. intros out s3 [Hs3 Hout].
      assert (processed a resp s s3 p) as Hpr.
      { apply (processed_retries _ _ s2); [|by rewrite Hs3].
        destruct Hp as [H1 H2 H3]. split; try done. by rewrite <- Hs1. }
      assert (messages (rs s3) = record_parts (nextParts p) (messages (rs s))) as Hm.
      { rewrite Hs3. simpl. by rewrite (pf_messages _ _ Hf). }
      split; [rewrite Hs3; eauto with frame|]. destruct out as [? [|]|? ?|?]; simpl; [done|..].
      * destruct Hout as (-> & ? & ->). eauto.
      * destruct Hout as (? & ? & Hr & Hu). split; [done|]. right. exists p. split_and!; try done. congruence.
      * destruct Hout. exists p. done.
    + apply wp_bind, wp_get, wp_bind, wp_quiet; [auto with quiet|]. intros _ s3 Hs3.
      apply wp_turn_failed. intros s4 Hs4. split; [rewrite Hs4, Hs3; eauto with frame|done].
Qed.

(** Before the request only the turn number and, with auto-context, the history
    change. *)
Record prepared (r r' : RunState) : Prop := MkPrepared {
  pp_limits : limits r' = limits r;
  pp_usage : usage r' = usage r;
  pp_retries : retries r' = retries r;
  pp_messages : autoContext a = None → messages r' = messages r;
}.
Lemma prepared_trans r1 r2 r3 : prepared r1 r2 → prepared r2 r3 → prepared r1 r3.
Proof. intros [H1 H2 H3 H4] [G1 G2 G3 G4]. split; [congruence..|]. intros Ha. by rewrite G4, H4. Qed.
Lemma prepared_eq r r' : r' = r → prepared r r'.
Proof. by intros ->. Qed.
Hint Resolve prepared_eq : frame.

Lemma wp_compress rc s :
  wp (compress_history a rc) (λ _ s', prepared (rs s) (rs s')) s.
Proof.
  unfold compress_history. destruct (autoContext a) eqn:Ea; [|apply wp_ret; auto with frame].
  apply wp_bind, wp_get, wp_bind, wp_quiet; [auto with quiet|]. intros [compressed [e|]] s1 Hs1;
    [apply wp_ret; auto with frame|]. case_match; [|apply wp_ret; auto with frame].
  apply wp_bind, wp_locked, wp_quiet; [auto with quiet|]. intros _ s2 Hs2. rewrite Hs2. simpl.
  rewrite Hs1. split; try done. by rewrite Ea.
Qed.

Lemma wp_prepare_request prompt rc s :
  wp (prepare_request a prompt rc) (λ _ s', prepared (rs s) (rs s')) s.
Proof.
  unfold prepare_request. apply wp_bind, wp_quiet; [auto with quiet|]. intros ts s1 Hs1.
  apply wp_bind, wp_quiet; [auto with quiet|]. intros ms s2 Hs2.
  apply wp_bind. eapply wp_mono; [apply wp_compress|]. intros ? s3 Hs3. rewrite Hs2, Hs1 in Hs3.
  apply wp_bind, wp_get, wp_bind, wp_quiet; [auto with quiet|].
  intros [msgs|e] s4 Hs4; [|apply wp_ret; by rewrite Hs4].
  apply wp_bind, wp_quiet; [auto with quiet|]. intros [msgs'|] s5 Hs5; [|apply wp_ret; by rewrite Hs5, Hs4].
  apply wp_bind, wp_get, wp_bind, wp_quiet; [auto with quiet|]. intros g s6 Hs6.
  apply wp_ret. by rewrite Hs6, Hs5, Hs4.
Qed.

(** The state once the request of a turn was counted. *)
Record requested (s : St W) (r : RunState) : Prop := MkRequested {
  rq_check : check_limits ctx_Err a s = None;
  rq_limits : limits r = limits (rs s);
  rq_requests : Requests (usage r) = 1 + Requests (usage (rs s));
  rq_calls : Usage.ToolCalls (usage r) = Usage.ToolCalls (usage (rs s));
  rq_retries : retries r = retries (rs s);
  rq_messages : autoContext a = None → messages r = messages (rs s);
}.

Lemma wp_model_request turnRC modelRC msgs ms params s :
  wp (model_request a turnRC modelRC msgs ms params) (λ r s',
    match r with
    | Err _ => rs s' = rs s
    | Ok resp => limits (rs s') = limits (rs s) ∧
        usage (rs s') = IncrRequest (usage (rs s)) (resp_Usage resp) ∧
        retries (rs s') = retries (rs s) ∧ messages (rs s') = messages (rs s)
    end) s.
Proof.
  unfold model_request. apply wp_bind, wp_quiet; [auto with quiet|]. intros _ s1 Hs1.
  apply wp_bind, wp_quiet; [auto with quiet|]. intros _ s2 Hs2.
  apply wp_bind, wp_quiet; [auto with quiet|]. intros [resp|e] s3 Hs3; [|apply wp_ret; congruence].
  apply wp_bind, wp_locked. set (s4 := s3 <| rs := _ |>).
  assert (limits (rs s4) = limits (rs s) ∧
    usage (rs s4) = IncrRequest (usage (rs s)) (resp_Usage resp) ∧
    retries (rs s4) = retries (rs s) ∧ messages (rs s4) = messages (rs s)) as Hs4.
  { unfold s4. simpl. rewrite Hs3, Hs2, Hs1. case_match; simpl; auto. }
  apply wp_bind, wp_quiet; [case_match; auto with quiet|]. intros _ s5 Hs5. apply wp_ret. by rewrite Hs5.
Qed.

(** A turn fails before its request is counted, is dropped after it, or hands a
    response that joined the history to [handle_response]. *)
Lemma wp_turn prompt (Q : option (StepResult T) → St W → Prop) s :
  (∀ e s', prepared (rs s) (rs s') → Q (Some (SErr None (RunFailed e))) s') →
  (∀ s', responseInterceptors a ≠ [] → requested s (rs s') → Q None s') →
  (∀ turnRC resp r s1, requested s r → rs s1 = r <| messages ::= λ l, l ++ [Response resp] |> →
     wp (handle_response prompt turnRC resp) (λ out, Q (Some out)) s1) →
  wp (turn prompt) Q s.
Proof.
  intros Hfail Hdrop Hgo. unfold AgentLoop.turn. apply wp_bind, wp_act. cbn [fst snd].
  destruct (check_limits ctx_Err a s) as [e|] eqn:Hchk; [apply wp_ret, Hfail; auto with frame|].
  apply wp_bind, wp_locked. set (s1 := s <| rs := _ |>).
  assert (prepared (rs s) (rs s1)) as Hs1 by done.
  apply wp_bind, wp_get, wp_bind, wp_quiet; [auto with quiet|]. intros _ s2 Hs2.
  apply wp_bind, wp_quiet; [auto with quiet|]. intros _ s3 Hs3.
  apply wp_bind. eapply wp_mono; [apply wp_prepare_request|]. intros req s4 Hs4.
  rewrite Hs3, Hs2 in Hs4. assert (prepared (rs s) (rs s4)) as Hp by (by eapply prepared_trans).
  assert (Hfailed : ∀ e s', rs s' = rs s4 →
    wp (bind (turn_failed a None e) (λ out, Ret (Some out))) Q s').
  { intros e s' Hs'. apply wp_bind, wp_turn_failed. intros s'' Hs''.
    apply wp_ret, Hfail. by rewrite Hs'', Hs'. }
  destruct req as [[[msgs ms] params]|e]; [|by apply Hfailed].
  apply wp_bind, wp_get, wp_bind. eapply wp_mono; [apply wp_model_request|].
  intros [resp|e] s5 Hs5; [|by apply Hfailed].
  assert (requested s (rs s5)) as Hrq.
  { destruct Hp as [G1 G2 G3 G4], Hs5 as (E1 & E2 & E3 & E4).
    split; rewrite ?E1, ?E2, ?E3, ?E4; simpl; try congruence; rewrite ?G2; done. }
  apply wp_bind. apply (wp_mono _ (λ x s', rs s' = rs s5 ∧ (x.1 = true → responseInterceptors a ≠ []))).
  { apply wp_quiet_and; [auto with quiet|]. by destruct (responseInterceptors a); [apply wp_ret|apply wp_intro]. }
  intros [[] resp'] s6 [Hs6 Hne].
  - apply wp_bind, wp_quiet; [auto with quiet|]. intros _ s7 Hs7. apply wp_ret, Hdrop; [auto|]. by rewrite Hs7, Hs6.
  - apply wp_bind, wp_quiet; [auto with quiet|]. intros _ s7 Hs7.
    apply wp_bind, wp_bind, wp_locked. set (s8 := s7 <| rs := _ |>).
    apply wp_bind, wp_quiet; [auto with quiet|]. intros _ s9 Hs9.
    apply wp_bind, wp_get, wp_quiet; [auto with quiet|]. intros _ s10 Hs10.
    apply wp_bind. eapply (Hgo _ _ (rs s5)); [done|]. rewrite Hs10, Hs9. unfold s8. simpl. by rewrite Hs7, Hs6.
Qed.
End turn.
