(* ===== verification/AgentSafety.v ===== *)
(** * Properties of an agent run

    Termination, limits, the pairing of tool calls with their answers in the
    history, and fatal errors, for whole runs of the loop and any callbacks. *)

From S2P Require Import Prelude Errors Usage Messages Truncate AgentTypes AutoContext AgentTools AgentToolsSafety AgentLoop AgentLoopSpec AgentTurn.

(** ** Paired histories *)

(** Every tool call of a response is answered exactly once, by the request that
    follows the response. *)
Fixpoint paired (msgs : list ModelMessage) : Prop :=
  match msgs with
  | [] => True
  | ModelRequest _ :: rest => paired rest
  | Response r :: rest =>
    (Messages.ToolCalls r = [] ∨
     match rest with
     | ModelRequest ps :: _ => omap answers ps ≡ₚ (tc_ToolCallID <$> Messages.ToolCalls r)
     | _ => False
     end) ∧ paired rest
  end.

Lemma paired_app l m : paired l → paired m → paired (l ++ m).
Proof.
  intros Hl Hm. induction l as [|[ps|r] l IH]; simpl in *; auto.
  destruct Hl as [Hr Hl]. split; [|auto]. destruct Hr as [|Hr]; [by left|]. right.
  by destruct l as [|[]].
Qed.

Lemma paired_response l r ps :
  paired l → Messages.ToolCalls r = [] ∨ omap answers ps ≡ₚ (tc_ToolCallID <$> Messages.ToolCalls r) →
  paired ((l ++ [Response r]) ++ [ModelRequest ps]).
Proof. intros Hl Hr. rewrite <- app_assoc. apply paired_app; [done|]. simpl. auto. Qed.

Lemma paired_record l r ps :
  paired l → Messages.ToolCalls r = [] ∨ omap answers ps ≡ₚ (tc_ToolCallID <$> Messages.ToolCalls r) →
  paired (record_parts ps (l ++ [Response r])).
Proof.
  intros Hl Hr. unfold record_parts. destruct ps as [|p ps]; [|by apply paired_response].
  apply paired_app; [done|]. simpl. split; [|done]. left. destruct Hr as [|Hr]; [done|].
  by apply Permutation_nil_l, symmetry, fmap_nil_inv in Hr.
Qed.

Lemma answers_deferred (drs : list DeferredToolResult) : omap answers (deferred_part <$> drs) = dres_ToolCallID <$> drs.
Proof.
  induction drs as [|dr drs IH]; [done|]. simpl. unfold deferred_part at 1.
  destruct (dres_IsError dr); simpl; f_equal; exact IH.
Qed.

(** Results for the open calls complete a history. *)
Lemma paired_inject l r ps drs :
  paired l → Messages.ToolCalls r = [] ∨
    omap answers ps ++ (dres_ToolCallID <$> drs) ≡ₚ (tc_ToolCallID <$> Messages.ToolCalls r) →
  paired (injectDeferredResults (record_parts ps (l ++ [Response r])) drs).
Proof.
  intros Hl Hr. unfold injectDeferredResults, record_parts.
  assert (Hr' : Messages.ToolCalls r = [] ∨
    omap answers (ps ++ (deferred_part <$> drs)) ≡ₚ (tc_ToolCallID <$> Messages.ToolCalls r)).
  { by rewrite omap_app, answers_deferred. }
  destruct ps as [|p ps].
  - rewrite last_snoc. by apply paired_response.
  - rewrite last_snoc, removelast_last. by apply paired_response.
Qed.

Section runs.
Context {W T : Type}.
Context (json_marshal : ToolValue → res string).
Context (json_object_ok : string → bool).
Context (unmarshal_wrapper : string → res (gmap string string)).
Context (unmarshal_T : string → res T).
Context (string_as_T : string → option T).
Context (type_name_T : string).
Context (ctx_Err : W → option error).
Context (a : Agent W T).

Local Abbreviation processResponse :=
  (processResponse json_marshal json_object_ok unmarshal_wrapper unmarshal_T string_as_T
     type_name_T ctx_Err a).
Local Abbreviation turn :=
  (turn json_marshal json_object_ok unmarshal_wrapper unmarshal_T string_as_T type_name_T ctx_Err a).
Local Abbreviation Step :=
  (Step json_marshal json_object_ok unmarshal_wrapper unmarshal_T string_as_T type_name_T ctx_Err a).
Local Abbreviation runLoop :=
  (runLoop json_marshal json_object_ok unmarshal_wrapper unmarshal_T string_as_T type_name_T ctx_Err a).

(** ** Induction over a run *)

(** An invariant of the turns that continue, with postconditions for the two ways
    a run ends. *)
Section induction.
Context (prompt : string) (I : St W → Prop) (D : RunResult T → St W → Prop) (E : RunError → St W → Prop).

Definition turn_post (o : option (StepResult T)) (s : St W) : Prop :=
  match o with
  | None | Some (SNext _) => I s
  | Some (SErr _ e) => E e s
  | Some (SDone _ r) => D r s
  end.
Hypothesis turn_ok : ∀ s, I s → wp (turn prompt) turn_post s.

Lemma wp_Step fuel s : I s → wp (Step fuel prompt) turn_post s.
Proof.
  revert s. induction fuel as [|fuel IH]; intros s HI; cbn [AgentLoop.Step]; [by apply wp_ret|].
  apply wp_bind. eapply wp_mono; [by apply turn_ok|]. intros [out|] s1 H1; [by apply wp_ret|by apply IH].
Qed.

Lemma wp_runLoop fuel s :
  I s → wp (runLoop fuel prompt) (λ o s', match o with
    | None => I s' | Some (inl r) => D r s' | Some (inr e) => E e s' end) s.
Proof.
  revert s. induction fuel as [|fuel IH]; intros s HI; cbn [AgentLoop.runLoop]; [by apply wp_ret|].
  apply wp_bind. eapply wp_mono; [by apply wp_Step|].
  intros [[? e|? r|?]|] s1 H1; try by apply wp_ret. by apply IH.
Qed.
End induction.

(** A measure that every continuing turn decreases bounds the fuel of a run. *)
Section measure.
Context (prompt : string) (I : St W → Prop) (μ : St W → Z).
Hypothesis turn_decreases : ∀ s, I s → wp (turn prompt) (λ o s', I s' ∧
  match o with None | Some (SNext _) => 0 ≤ μ s' < μ s | _ => True end) s.

Lemma wp_Step_decreases fuel s :
  I s → Z.max 0 (μ s) < Z.of_nat fuel → wp (Step fuel prompt) (λ o s', I s' ∧
    match o with None => False | Some (SNext _) => 0 ≤ μ s' < μ s | _ => True end) s.
Proof.
  revert s. induction fuel as [|fuel IH]; intros s HI Hf; [lia|]. cbn [AgentLoop.Step].
  apply wp_bind. eapply wp_mono; [by apply turn_decreases|]. intros [out|] s1 [H1 H2].
  - apply wp_ret. by destruct out.
  - eapply wp_mono; [apply IH; [done|lia]|]. intros o s2 [? H3]. split; [done|].
    destruct o as [[]|]; try done. lia.
Qed.

Lemma wp_runLoop_ends fuel s :
  I s → Z.max 0 (μ s) < Z.of_nat fuel →
  wp (runLoop fuel prompt) (λ o s', I s' ∧ is_Some o) s.
Proof.
  revert s. induction fuel as [|fuel IH]; intros s HI Hf; [lia|]. cbn [AgentLoop.runLoop].
  apply wp_bind. eapply wp_mono; [apply wp_Step_decreases; [done|lia]|].
  intros [[]|] s1 [H1 H2]; try (by apply wp_ret); [done..|]. apply IH; [done|lia].
Qed.
End measure.

(** A passed check leaves room for a request. *)
Lemma check_limits_room s n :
  check_limits ctx_Err a s = None → RequestLimit (limits (rs s)) = Some n →
  Requests (usage (rs s)) < n.
Proof.
  unfold check_limits. destruct (ctx_Err (world s)); [done|].
  destruct (CheckBeforeRequest _ _) eqn:Hc; [done|]. intros _ Hn. by eapply CheckBeforeRequest_pass.
Qed.

(** ** Claims *)

(** A run with a request limit [n] ends within one more iteration than there are
    requests left, and never makes more than [n] requests. *)
Lemma runLoop_ends prompt n fuel s :
  RequestLimit (limits (rs s)) = Some n →
  Z.max 0 (n - Requests (usage (rs s))) < Z.of_nat fuel →
  ∃ s' out, run (runLoop fuel prompt) s = (s', Some out) ∧
    Requests (usage (rs s')) ≤ Z.max n (Requests (usage (rs s))).
Proof.
  intros Hlim Hfuel. set (b := Z.max n (Requests (usage (rs s)))).
  pose (I := λ s' : St W, RequestLimit (limits (rs s')) = Some n ∧ Requests (usage (rs s')) ≤ b).
  assert (H : wp (runLoop fuel prompt) (λ o s', I s' ∧ is_Some o) s).
  { apply (wp_runLoop_ends prompt I (λ s, n - Requests (usage (rs s)))); [|split; [done|lia]|done].
    intros s0 [Hl Hb]. apply wp_turn.
    - intros e s' [G1 G2 _ _]. unfold I. by rewrite G1, G2.
    - intros s' _ [H1 H2 H3 _ _ _]. pose proof (check_limits_room _ _ H1 Hl). unfold I.
      rewrite H2, H3. split_and!; [done|lia..].
    - intros rc resp r s1 [H1 H2 H3 _ _ _] Hs1. pose proof (check_limits_room _ _ H1 Hl).
      eapply wp_mono; [apply wp_handle_response|]. intros out s' [[G1 G2 _] _]. unfold I.
      rewrite G1, G2, Hs1. simpl. rewrite H2, H3. split_and!; [done|lia|]. destruct out; done || lia. }
  destruct (run (runLoop fuel prompt) s) as [s' o] eqn:Er.
  destruct (wp_run _ _ _ _ _ H Er) as [[_ ?] [out ->]]. eauto.
Qed.

(** C33: the tool-call limit is never exceeded: a run that starts within it stays
    within it, whatever calls the model makes, in every state the run passes. *)
Theorem tool_call_limit_respected prompt n fuel s s' o :
  ToolCallsLimit (limits (rs s)) = Some n → Usage.ToolCalls (usage (rs s)) ≤ n →
  run (runLoop fuel prompt) s = (s', o) → Usage.ToolCalls (usage (rs s')) ≤ n.
Proof.
  intros Hlim Hle Hrun.
  pose (I := λ s' : St W, ToolCallsLimit (limits (rs s')) = Some n ∧ Usage.ToolCalls (usage (rs s')) ≤ n).
  assert (H : wp (runLoop fuel prompt) (λ _ s', I s') s); [|by eapply (wp_run _ _ _ _ _ H)].
  eapply wp_mono; [apply (wp_runLoop prompt I (λ _, I) (λ _, I)); [|done]|];
    [|by intros [[]|] s1].
  intros s0 [Hl Hb]. apply wp_turn.
  - intros e s1 [G1 G2 _ _]. unfold turn_post, I. by rewrite G1, G2.
  - intros s1 _ [_ H2 _ H4 _ _]. unfold turn_post, I. by rewrite H2, H4.
  - intros rc resp r s1 [_ H2 _ H4 _ _] Hs1. eapply wp_mono; [apply wp_handle_response|].
    intros out s2 [[G1 _ G3] _].
    assert (I s2); [|by destruct out]. rewrite Hs1 in G1, G3. simpl in G1, G3.
    unfold I. rewrite G1, H2. split; [done|]. apply G3; [by rewrite H2|by rewrite H4].
Qed.

(** Agents whose turns process every call of a response: the exhaustive strategy,
    or no output tools. *)
Definition processes_all : Prop :=
  endStrategy a = EndStrategyExhaustive ∨ os_OutputTools (outputSchema a) = [].

Lemma no_output_calls calls : os_OutputTools (outputSchema a) = [] → outputCalls a calls = [].
Proof.
  intros Ho. unfold outputCalls, is_output_tool. rewrite Ho. induction calls as [|c calls IH]; [done|].
  by rewrite filter_cons_False.
Qed.

Lemma processed_answers resp (s s' : St W) (p : Processed T) :
  processes_all ∨ final p = None ∨ deferredReqs p ≠ [] → processed a resp s s' p →
  Messages.ToolCalls resp = [] ∨ answers_all (Messages.ToolCalls resp) p.
Proof.
  intros Hall Hp. destruct (Messages.ToolCalls resp) as [|c cs] eqn:Hc; [by left|]. right. rewrite <- Hc.
  assert (Messages.ToolCalls resp ≠ []) as Hne by (by rewrite Hc).
  apply (pr_answers _ _ _ _ _ Hp); [done|]. destruct Hall as [[|Ho]|?]; [by left| |by right]. right. left.
  apply (pr_final _ _ _ _ _ Hp); [done|]. by apply no_output_calls.
Qed.

Lemma answers_all_done resp (p : Processed T) :
  deferredReqs p = [] → Messages.ToolCalls resp = [] ∨ answers_all (Messages.ToolCalls resp) p →
  Messages.ToolCalls resp = [] ∨
  omap answers (nextParts p) ≡ₚ (tc_ToolCallID <$> Messages.ToolCalls resp).
Proof. unfold answers_all. intros ->. by rewrite app_nil_r. Qed.

(** A history that ends with the turn that finished a run: everything before its
    response is paired. *)
Definition paired_but_last (msgs : list ModelMessage) : Prop :=
  ∃ pre resp ps, msgs = record_parts ps (pre ++ [Response resp]) ∧ paired pre.

(** What a run returns: each call is answered, except that the calls of the response
    that ended the run may not be when the agent is not [processes_all] or a run
    condition stopped it; when the run is deferred, one result per deferred request
    completes the history it returned. *)
Definition paired_outcome (o : RunResult T + RunError) : Prop :=
  match o with
  | inl r => paired_but_last (res_Messages r) ∧
      (processes_all → runConditions a = [] → paired (res_Messages r))
  | inr (ErrDeferred reqs msgs _) => ∀ drs,
      (dres_ToolCallID <$> drs) ≡ₚ (dreq_ToolCallID <$> reqs) → paired (injectDeferredResults msgs drs)
  | inr (RunFailed _) => True
  end.

Lemma runLoop_paired prompt fuel s s' o :
  autoContext a = None →
  paired (messages (rs s)) → run (runLoop fuel prompt) s = (s', Some o) → paired_outcome o.
Proof.
  intros Hauto Hpaired Hrun.
  pose (I := λ s : St W, paired (messages (rs s))).
  pose (D := λ (r : RunResult T) (s : St W), paired_outcome (inl r)).
  pose (E := λ (e : RunError) (s : St W), paired_outcome (inr e)).
  assert (∀ s0, I s0 → wp (turn prompt) (turn_post I D E) s0) as H.
  2: { pose proof (wp_run _ _ _ _ _ (wp_runLoop prompt I D E H fuel s Hpaired) Hrun) as Ho. by destruct o. }
  clear Hrun Hpaired. intros s0 HI. apply wp_turn; [done|..].
  - intros s1 _ Hrq. unfold turn_post, I. by rewrite (rq_messages _ _ _ _ Hrq).
  - intros rc resp r s1 Hrq Hs1. eapply wp_mono; [apply wp_handle_response|]. intros out s2 [_ Hh].
    assert (messages (rs s1) = messages (rs s0) ++ [Response resp]) as Hm.
    { rewrite Hs1. simpl. by rewrite (rq_messages _ _ _ _ Hrq). }
    unfold handled in Hh. rewrite Hm in Hh. destruct out as [? [|reqs msgs u]|? res|?]; simpl; [done|..].
    + destruct Hh as (p & Hp & <- & Hne & ->). intros drs Hdrs. apply paired_inject; [done|].
      apply processed_answers in Hp as [|Hp]; [by left|right|by right; right]. by rewrite Hdrs.
    + destruct Hh as [_ [[Hc Hr]|(p & Hp & Hd & _ & Hr)]]; unfold D, paired_outcome; rewrite Hr.
      * split; [by exists (messages (rs s0)), resp, []|done].
      * split; [by exists (messages (rs s0)), resp, (nextParts p)|]. intros Hall _.
        apply paired_record; [done|]. eapply answers_all_done, processed_answers; [done|by left|done].
    + destruct Hh as (p & Hp & Hd & Hf & Hr). unfold I. rewrite Hr.
      apply paired_record; [done|]. eapply answers_all_done, processed_answers; [done|by right; left|done].
Qed.

(** A result carries the usage of the run. *)
Lemma runLoop_usage prompt fuel s s' r :
  run (runLoop fuel prompt) s = (s', Some (inl r)) → res_Usage r = usage (rs s').
Proof.
  intros Hrun. pose (D := λ (r : RunResult T) (s : St W), res_Usage r = usage (rs s)).
  eassert (H : _); [|apply (wp_run _ _ _ _ _ (wp_runLoop prompt (λ _, True) D (λ _ _, True) H fuel s I) Hrun)].
  intros s0 _. apply wp_turn; [done..|]. intros rc resp r0 s1 _ _.
  eapply wp_mono; [apply wp_handle_response|]. intros [? []|? res|?] s2 [_ Hh]; try done. by destruct Hh.
Qed.

Lemma no_function_calls calls : allTools a = [] → functionCalls a calls = [].
Proof.
  intros Ha. unfold functionCalls, toolMap. rewrite Ha. induction calls as [|c calls IH]; [done|].
  simpl. destruct (is_output_tool a (tc_ToolName c)); exact IH.
Qed.

(** Without function tools and response interceptors no limit is needed: every
    turn that does not end the run uses up one result retry, so the loop returns
    within one more iteration than there are retries left. *)
Theorem runLoop_terminates_by_retries prompt fuel s :
  allTools a = [] → responseInterceptors a = [] →
  Z.max 0 (maxRetries a - retries (rs s)) < Z.of_nat fuel →
  ∃ s' out, run (runLoop fuel prompt) s = (s', Some out).
Proof.
  intros Hnt Hni Hfuel.
  assert (H : wp (runLoop fuel prompt) (λ o s', True ∧ is_Some o) s).
  { apply (wp_runLoop_ends prompt (λ _, True) (λ s, maxRetries a - retries (rs s))); [|done..].
    intros s0 _. apply wp_turn; [done|by rewrite Hni|].
    intros rc resp r s1 Hrq Hs1. eapply wp_mono; [apply wp_handle_response|]. intros out s2 [_ Hh].
    split; [done|]. destruct out as [| |]; try done. destruct Hh as (p & Hp & _ & Hfin & _).
    pose proof (pr_progress _ _ _ _ _ Hp (no_function_calls _ Hnt) Hfin) as Hpr.
    rewrite Hs1 in Hpr. simpl in Hpr. rewrite (rq_retries _ _ _ _ Hrq) in Hpr. lia. }
  destruct (run (runLoop fuel prompt) s) as [s' o] eqn:Er.
  destruct (wp_run _ _ _ _ _ H Er) as [_ [out ->]]. eauto.
Qed.

(** A fatal call makes the processing of its response fail. *)
Lemma wp_process_fatal resp prompt c tool s :
  processes_all → (c, tool) ∈ functionCalls a (Messages.ToolCalls resp) → always_fatal tool →
  maxConcurrency a ≤ 0 →
  wp (processResponse resp prompt) (λ r s', proc_frame (rs s) (rs s') ∧ ∃ e, r = Err e) s.
Proof.
  intros Hall Hin Hfatal Hmax. unfold AgentLoop.processResponse.
  destruct (Messages.ToolCalls resp) as [|c0 cs0]; [by apply elem_of_nil in Hin|].
  set (calls := c0 :: cs0) in *. apply wp_bind. eapply wp_mono; [apply wp_handle_unknown|].
  intros [ps|e] s1 [Hr1 _]; [|apply wp_ret; eauto with frame].
  apply wp_bind. eapply wp_mono; [apply wp_output_loop|].
  intros [[early [result parts]]|e] s2 [Hr2 H2]; [|apply wp_ret; eauto with frame].
  destruct early.
  { destruct (op_early _ _ _ _ _ _ _ _ _ H2 eq_refl) as [He [fr ->]]. destruct Hall as [|Ho]; [congruence|].
    by specialize (op_none _ _ _ _ _ _ _ _ _ H2 (no_output_calls calls Ho)). }
  apply wp_bind. eapply wp_mono.
  { apply (wp_function_calls _ _ _ (λ ic o, always_fatal ic.2 → ∃ e, o = OFatal e)).
    - intros ic. eapply tool_prog_impl; [apply executeSingleTool_prog|].
      intros Hf. eexists. by apply executeSingleTool_fatal.
    - lia. }
  intros [os|e] s3 (Hf3 & _ & Hos); apply wp_ret;
    [|split; [eauto 6 with frame|by exists e]].
  destruct Hos as [Ho Hnf]. exfalso. apply list_elem_of_lookup in Hin as [i Hi].
  destruct (Forall2_lookup_l _ _ _ _ _ Ho Hi) as (o & Hio & Hfo). destruct (Hfo Hfatal) as [e ->].
  by apply (Forall_lookup_1 _ _ _ _ Hnf Hio).
Qed.

(** A fatal tool error ends the run: when a function call of the response goes
    to a tool whose handler fails fatally, the turn ends the run with an error and
    nothing is added to the history, neither the failure nor the results of the
    other calls of the response. *)
Theorem fatal_tool_ends_run prompt turnRC resp c tool s s' out :
  processes_all → (c, tool) ∈ functionCalls a (Messages.ToolCalls resp) → always_fatal tool →
  maxConcurrency a ≤ 0 →
  run (bind (processResponse resp prompt) (finish_turn a turnRC resp)) s = (s', out) →
  (∃ e, out = SErr (Some resp) (RunFailed e)) ∧ messages (rs s') = messages (rs s).
Proof.
  intros Hall Hin Hfatal Hmax Hrun. refine (wp_run _ (λ out s',
    (∃ e, out = SErr (Some resp) (RunFailed e)) ∧ messages (rs s') = messages (rs s)) _ _ _ _ Hrun).
  clear Hrun. apply wp_bind. eapply wp_mono; [by eapply wp_process_fatal|].
  intros r s1 [Hf [e ->]]. apply wp_bind, wp_get, wp_bind, wp_quiet; [auto with quiet|]. intros _ s2 Hs2.
  apply wp_turn_failed. intros s3 Hs3. split; [by exists e|]. rewrite Hs3, Hs2. by destruct Hf.
Qed.

Lemma wp_output_call_accepts c prompt output (Q : res (T + RequestPart) → St W → Prop) s :
  parse_output unmarshal_wrapper unmarshal_T a (tc_ArgsJSON c) = Ok output → outputValidators a = [] →
  (∀ s', rs s' = rs s → Q (Ok (inl output)) s') →
  wp (output_call json_object_ok unmarshal_wrapper unmarshal_T a c prompt) Q s.
Proof.
  intros Hp Hv HQ. unfold output_call, parse_call, validate. rewrite Hp, Hv.
  apply wp_bind, wp_ret, wp_bind, wp_get, wp_bind, wp_bind, wp_ret, wp_bind, wp_quiet; [auto with quiet|].
  intros _ s1 Hs1. by apply wp_ret, wp_ret, HQ.
Qed.

(** With the early strategy, the default, an accepted output call ends the
    response at once: whatever other tool calls follow it, only the output call is
    answered and nothing is deferred, so the other calls stay open in the history. *)
Theorem early_output_leaves_calls_open resp prompt c calls output s s' r :
  endStrategy a = EndStrategyEarly → outputValidators a = [] →
  Messages.ToolCalls resp = c :: calls → is_output_tool a (tc_ToolName c) = true →
  unknownCalls a calls = [] →
  parse_output unmarshal_wrapper unmarshal_T a (tc_ArgsJSON c) = Ok output →
  run (processResponse resp prompt) s = (s', r) →
  ∃ p, r = Ok p ∧ omap answers (nextParts p) = [tc_ToolCallID c] ∧ deferredReqs p = [].
Proof.
  intros He Hv Hcalls Ho Hu Hp Hrun.
  refine (wp_run _ (λ r _, ∃ p, r = Ok p ∧ omap answers (nextParts p) = [tc_ToolCallID c] ∧
    deferredReqs p = []) _ _ _ _ Hrun). clear Hrun. unfold AgentLoop.processResponse.
  rewrite Hcalls. unfold process_calls.
  assert (unknownCalls a (c :: calls) = []) as ->.
  { unfold unknownCalls in *. rewrite filter_cons_False; [done|]. intros [? _]. congruence. }
  assert (outputCalls a (c :: calls) = c :: outputCalls a calls) as ->.
  { unfold outputCalls. by rewrite filter_cons_True. }
  apply wp_bind, wp_ret, wp_bind. cbn [output_loop]. apply wp_bind.
  apply (wp_output_call_accepts _ _ _ _ _ Hp Hv). intros s1 _. rewrite He. apply wp_ret, wp_ret.
  eexists. split_and!; done.
Qed.

(** A run condition that stops the run on a response with usable text returns
    that text as the result without processing the tool calls of the response: the
    history ends with the response, and its calls stay open. *)
Theorem condition_leaves_calls_open prompt turnRC resp cond conds output s s' out :
  runConditions a = cond :: conds → (∀ rc w, (cond rc resp w).2.1 = true) →
  HasTokenLimits (limits (rs s)) = false →
  condition_output unmarshal_wrapper unmarshal_T string_as_T a resp = Some output →
  run (handle_response json_marshal json_object_ok unmarshal_wrapper unmarshal_T string_as_T
    type_name_T ctx_Err a prompt turnRC resp) s = (s', out) →
  ∃ r, out = SDone resp r ∧ Output r = output ∧ res_Messages r = messages (rs s).
Proof.
  intros Hc Hstop Hl Hout Hrun.
  refine (wp_run _ (λ out _, ∃ r, out = SDone resp r ∧ Output r = output ∧
    res_Messages r = messages (rs s)) _ _ _ _ Hrun). clear Hrun.
  unfold handle_response. apply wp_bind, wp_get. rewrite Hl, Hc, Hout. apply wp_bind. cbn [check_conditions].
  apply wp_bind, wp_callback. rewrite Hstop.
  apply wp_bind, wp_quiet; [auto with quiet|]. intros _ s1 Hs1. apply wp_ret.
  apply wp_bind, wp_quiet; [auto with quiet|]. intros _ s2 Hs2.
  apply wp_bind, wp_bind, wp_get, wp_ret, wp_ret. eexists. split_and!; [done..|]. simpl. by rewrite Hs2, Hs1.
Qed.
End runs.

(** ** Witnesses *)

Module Scripts.
(** A model that plays a script (the world counts the requests), tools that leave
    the world alone, and a state with a user prompt. *)
Definition scripted (script : list ModelResponse) : Model nat :=
  MkModel (λ _ _ _ w, match script !! w with
    | Some r => (S w, Ok r) | None => (w, Err (ENew "script over")) end) "scripted".
Definition tool (name : string) (o : HandlerOutcome) : Tool nat :=
  MkTool (Demo.def name true) (λ _ _ _ w, (w, o)) None false None None 0.
Definition text_schema : OutputSchema := MkOutputSchema OutputModeText [] None true "".
Definition response (parts : list ResponsePart) : ModelResponse :=
  MkModelResponse parts zero_usage "scripted" FinishReasonStop.
Definition start : St nat := Demo.state [ModelRequest [UserPromptPart "go"]] [].
Definition no_json (s : string) : res (gmap string string) := Err (ENew "no object").
Definition parse (s : string) : res string := Ok s.
Definition agent (ts : list (Tool nat)) (strategy : EndStrategy) (conds : list (RunCondition nat))
    (concurrency : Z) (m : Model nat) (sch : OutputSchema) : Agent nat string :=
  MkAgent m [] ts [] sch [] 1 strategy None concurrency None false None [] [] None [] 0 conds true
    None [] [] None None [] None false None.
Definition loop (a : Agent nat string) (fuel : nat) :=
  runLoop Demo.marshal (λ _, true) no_json parse Some "string" Demo.no_cancel a fuel "go".

(** A response with two calls, one of them deferred, and then a text. *)
Definition two_calls : ModelResponse :=
  response [CallPart (Demo.call "a" "1"); CallPart (Demo.call "b" "2")].
Definition defer_agent : Agent nat string :=
  agent [tool "a" (HOk (VString "ok")); tool "b" (HErr (ECallDeferred "later"))]
    EndStrategyEarly [] 0 (scripted [two_calls; response [TextPart "done"]]) text_schema.
(** The same with two tools that return. *)
Definition plain_agent : Agent nat string :=
  agent [tool "a" (HOk (VString "ok")); tool "b" (HOk (VString "ok"))]
    EndStrategyEarly [] 0 (scripted [two_calls; response [TextPart "done"]]) text_schema.
Definition no_tools_agent : Agent nat string :=
  agent [] EndStrategyEarly [] 0 (scripted [response []; response [TextPart "done"]]) text_schema.
Definition fatal_agent : Agent nat string :=
  agent [tool "a" (HErr (EFatalTool (ENew "broken"))); tool "b" (HOk (VString "ok"))]
    EndStrategyEarly [] 0 (scripted [two_calls]) text_schema.
Definition output_agent : Agent nat string :=
  agent [tool "a" (HOk (VString "ok"))] EndStrategyEarly [] 0 (scripted []) Demo.schema.
Definition stop_agent : Agent nat string :=
  agent [tool "a" (HOk (VString "ok"))] EndStrategyExhaustive [λ _ _ w, (w, (true, "enough"))] 0
    (scripted []) text_schema.
Definition rc : RunContext := buildRunContext (rs start) "go".
End Scripts.

Lemma tool_call_limit_respected_witness :
  let s := Scripts.start <| rs ::= λ r, r <| limits := MkUsageLimits None None None None (Some 1) |> |> in
  Usage.ToolCalls (usage (rs (run (Scripts.loop Scripts.plain_agent 5) s).1)) ≤ 1.
Proof.
  intros s. refine (tool_call_limit_respected Demo.marshal (λ _, true) Scripts.no_json Scripts.parse Some
    "string" Demo.no_cancel Scripts.plain_agent "go" 1 5 s _ _ eq_refl _ (surjective_pairing _)).
  vm_compute. discriminate.
Defined.

Lemma runLoop_terminates_by_retries_witness :
  ∃ s' out, run (Scripts.loop Scripts.no_tools_agent 2) Scripts.start = (s', Some out).
Proof.
  refine (runLoop_terminates_by_retries Demo.marshal (λ _, true) Scripts.no_json Scripts.parse Some
    "string" Demo.no_cancel Scripts.no_tools_agent "go" 2 Scripts.start eq_refl eq_refl _).
  vm_compute. reflexivity.
Defined.

Lemma fatal_tool_ends_run_witness :
  ∃ e, (run (bind (processResponse Demo.marshal (λ _, true) Scripts.no_json Scripts.parse Some "string"
      Demo.no_cancel Scripts.fatal_agent Scripts.two_calls "go")
    (finish_turn Scripts.fatal_agent Scripts.rc Scripts.two_calls)) Scripts.start).2
  = SErr (Some Scripts.two_calls) (RunFailed e).
Proof.
  refine (proj1 (fatal_tool_ends_run Demo.marshal (λ _, true) Scripts.no_json Scripts.parse Some "string"
    Demo.no_cancel Scripts.fatal_agent "go" Scripts.rc Scripts.two_calls (Demo.call "a" "1")
    (Scripts.tool "a" (HErr (EFatalTool (ENew "broken")))) Scripts.start _ _
    (or_intror eq_refl) _ _ _ (surjective_pairing _))).
  - left.
  - split; [reflexivity|]. intros. eexists. split; [reflexivity|]. vm_compute. eexists. reflexivity.
  - discriminate.
Defined.

Lemma early_output_leaves_calls_open_witness :
  ∃ p, (run (processResponse Demo.marshal (λ _, true) Scripts.no_json Scripts.parse Some "string"
      Demo.no_cancel Scripts.output_agent
      (Scripts.response [CallPart (Demo.call "final_result" "1"); CallPart (Demo.call "a" "2")]) "go")
    Scripts.start).2 = Ok p ∧ omap answers (nextParts p) = ["1"] ∧ deferredReqs p = [].
Proof.
  refine (early_output_leaves_calls_open Demo.marshal (λ _, true) Scripts.no_json Scripts.parse Some
    "string" Demo.no_cancel Scripts.output_agent
    (Scripts.response [CallPart (Demo.call "final_result" "1"); CallPart (Demo.call "a" "2")])
    "go" (Demo.call "final_result" "1")
    [Demo.call "a" "2"] "{}" Scripts.start _ _ eq_refl eq_refl eq_refl _ _ eq_refl (surjective_pairing _));
    vm_compute; reflexivity.
Defined.

Lemma condition_leaves_calls_open_witness :
  let resp := Scripts.response [TextPart "hi"; CallPart (Demo.call "a" "1")] in
  ∃ r, (run (handle_response Demo.marshal (λ _, true) Scripts.no_json Scripts.parse Some "string"
      Demo.no_cancel Scripts.stop_agent "go" Scripts.rc resp) Scripts.start).2 = SDone resp r ∧
    Output r = "hi" ∧ res_Messages r = messages (rs Scripts.start).
Proof.
  intros resp.
  refine (condition_leaves_calls_open Demo.marshal (λ _, true) Scripts.no_json Scripts.parse Some "string"
    Demo.no_cancel Scripts.stop_agent "go" Scripts.rc resp (λ _ _ w, (w, (true, "enough"))) [] "hi"
    Scripts.start _ _ eq_refl _ _ _ (surjective_pairing _)); reflexivity || vm_compute; reflexivity.
Defined.
