(* ===== verification/AutoContextSafety.v ===== *)
(** * Compressed histories

    What automatic compression guarantees to a provider: roles alternate, and no
    tool result is left without its call. *)

From S2P Require Import Prelude Errors Usage Messages Truncate AgentTypes AutoContext.

Definition is_request (m : ModelMessage) : bool :=
  match m with ModelRequest _ => true | Response _ => false end.

(** Requests and responses take turns, a request first when [b]. *)
Fixpoint alternating (b : bool) (msgs : list ModelMessage) : Prop :=
  match msgs with
  | [] => True
  | m :: msgs => is_request m = b ∧ alternating (negb b) msgs
  end.

Lemma alternating_drop b msgs i m :
  alternating b msgs → msgs !! i = Some m → alternating (is_request m) (drop i msgs).
Proof.
  revert b i. induction msgs as [|m0 msgs IH]; intros b i; [done|]. intros [H1 H2].
  destruct i as [|i]; simpl; [|by eapply IH]. intros [= ->]. by rewrite H1.
Qed.

Lemma alternating_lookup b msgs i m m' :
  alternating b msgs → msgs !! i = Some m → msgs !! S i = Some m' → is_request m' = negb (is_request m).
Proof.
  intros Ha Hm Hm'. pose proof (alternating_drop _ _ _ _ Ha Hm) as Hd.
  rewrite (drop_S _ _ _ Hm) in Hd. destruct Hd as [_ Hd].
  destruct (drop (S i) msgs) as [|m1 l] eqn:E.
  - apply (f_equal length) in E. rewrite length_drop in E. simpl in E.
    apply lookup_lt_Some in Hm'. lia.
  - destruct Hd as [Hd _]. rewrite <- Hd. f_equal.
    pose proof (lookup_drop msgs (S i) 0) as Hl. rewrite E, Nat.add_0_r, Hm' in Hl. by injection Hl.
Qed.

Lemma alternating_strip b msgs : alternating b msgs → alternating b (stripOrphanedToolResults msgs).
Proof.
  unfold stripOrphanedToolResults. generalize (msgs ≫= call_ids). intros ids. revert b.
  induction msgs as [|m msgs IH]; intros b; [done|]. intros [H1 H2]. split; [by destruct m|by apply IH].
Qed.

Lemma call_ids_strip msgs : stripOrphanedToolResults msgs ≫= call_ids = msgs ≫= call_ids.
Proof.
  unfold stripOrphanedToolResults. generalize (msgs ≫= call_ids) at 1. intros ids.
  induction msgs as [|m msgs IH]; [done|]. rewrite fmap_cons, !bind_cons, IH. by destruct m.
Qed.

(** No answer to a call that is not there; a retry prompt without a call is a result
    retry and answers none. *)
Definition no_orphans (msgs : list ModelMessage) : Prop :=
  ∀ m id, m ∈ msgs → id ∈ answer_ids m → id = "" ∨ id ∈ msgs ≫= call_ids.

Lemma strip_part_answers ids p q id :
  q ∈ default [p] (strip_part ids p) → answers q = Some id → id = "" ∨ id ∈ ids.
Proof.
  destruct p; simpl; repeat case_match; simpl; rewrite ?list_elem_of_singleton, ?elem_of_nil;
    intros Hq Ha; subst; simplify_eq/=; try done.
  - right. by apply bool_decide_eq_true in H.
  - apply orb_true_iff in H as [H|H]; [left; by apply String.eqb_eq|right; by apply bool_decide_eq_true in H].
Qed.

Lemma strip_request_answers ids ps q id :
  q ∈ strip_request ids ps → answers q = Some id → id = "" ∨ id ∈ ids.
Proof.
  unfold strip_request. set (filtered := ps ≫= _).
  assert (Hf : q ∈ filtered → answers q = Some id → id = "" ∨ id ∈ ids).
  { unfold filtered. intros (p & Hq & _)%list_elem_of_bind. by eapply strip_part_answers. }
  destruct (existsb _ ps) eqn:E.
  - case_bool_decide; [|done]. rewrite list_elem_of_singleton. by intros ->.
  - intros Hq. apply Hf. unfold filtered. apply list_elem_of_bind. exists q. split; [|done].
    destruct (strip_part ids q) eqn:Es; [|by apply list_elem_of_singleton].
    assert (existsb (λ p, bool_decide (is_Some (strip_part ids p))) ps = true) as Ht; [|congruence].
    apply existsb_exists. exists q. split; [by apply list_elem_of_In|]. rewrite Es. by apply bool_decide_eq_true.
Qed.

Lemma strip_no_orphans msgs : no_orphans (stripOrphanedToolResults msgs).
Proof.
  intros m id Hm Hid. rewrite call_ids_strip. unfold stripOrphanedToolResults in Hm.
  apply list_elem_of_fmap in Hm as (m0 & -> & _). destruct m0 as [ps|r]; simpl in Hid.
  - apply list_elem_of_omap in Hid as (q & Hq & Ha). by eapply strip_request_answers.
  - by apply elem_of_nil in Hid.
Qed.

(** Where the recent messages start, in an alternating history with something to
    summarise. *)
Lemma recent_start_request msgs keepN :
  alternating true msgs → 0 < keepN < Z.of_nat (length msgs) → 1 < recent_start msgs keepN →
  alternating true (drop (Z.to_nat (recent_start msgs keepN)) msgs) ∧
  Z.of_nat (length msgs) - keepN - 1 ≤ recent_start msgs keepN ≤ Z.of_nat (length msgs) - keepN.
Proof.
  intros Ha Hk. unfold recent_start. set (n := Z.of_nat (length msgs) - keepN).
  destruct (Z.gtb_spec n 1) as [Hn|]; [|lia].
  destruct (lookup_lt_is_Some_2 msgs (Z.to_nat n)) as [m Hm]; [lia|]. rewrite Hm.
  destruct m as [ps|r]; intros H1; (split; [|lia]).
  - by apply (alternating_drop _ _ _ _ Ha Hm).
  - destruct (lookup_lt_is_Some_2 msgs (Z.to_nat (n - 1))) as [m' Hm']; [lia|].
    replace (Z.to_nat n) with (S (Z.to_nat (n - 1))) in Hm by lia.
    pose proof (alternating_lookup _ _ _ _ _ Ha Hm' Hm) as Hr.
    pose proof (alternating_drop _ _ _ _ Ha Hm') as Hd. by destruct m'.
Qed.

(** C36: automatic compression: from an alternating history it returns the history
    itself, or a compressed one with at most three messages more than the number to
    keep, in which requests and responses still alternate and no tool result is left
    whose call was dropped. *)
Theorem autoCompress_wellformed {W} msgs (config : AutoContextConfig W) fallback tokenCount w w' out e :
  alternating true msgs → 0 < KeepLastN config →
  autoCompressMessages msgs config fallback tokenCount w = (w', (out, e)) →
  out = msgs ∨
  e = None ∧ alternating true out ∧ no_orphans out ∧ Z.of_nat (length out) ≤ KeepLastN config + 3.
Proof.
  intros Ha Hk. unfold autoCompressMessages.
  destruct (_ <=? _); [by intros [= <- <- <-]; left|].
  destruct (Z.geb_spec (KeepLastN config) (Z.of_nat (length msgs))); [by intros [= <- <- <-]; left|].
  case_bool_decide as Hold; [by intros [= <- <- <-]; left|].
  destruct (Request _ _ _ _ w) as [w1 [resp|e1]]; [|by intros [= <- <- <-]; left].
  destruct (String.eqb _ _); [by intros [= <- <- <-]; left|]. intros [= <- <- <-]. right.
  destruct (decide (1 < recent_start msgs (KeepLastN config))) as [Hs|Hs].
  2: { exfalso. apply Hold. apply skipn_all2. rewrite length_take. lia. }
  destruct (recent_start_request msgs (KeepLastN config)) as [Hd Hb]; [done|lia|done|].
  destruct msgs as [|m msgs]; [simpl in *; lia|]. destruct Ha as [Hm Ha].
  split_and!; [done|by apply alternating_strip|apply strip_no_orphans|].
  unfold stripOrphanedToolResults. rewrite length_fmap, !length_app, length_cons, length_drop. simpl in *. lia.
Qed.

(** Five messages, keeping one: the last tool result loses its call. *)
Definition demo_history : list ModelMessage :=
  [ModelRequest [UserPromptPart "fix the bug"];
   Response (MkModelResponse [CallPart (MkToolCallPart "read" "{}" "1" ∅)] zero_usage "" FinishReasonToolCall);
   ModelRequest [ToolReturnPart "read" "contents" "1" []];
   Response (MkModelResponse [CallPart (MkToolCallPart "test" "{}" "2" ∅)] zero_usage "" FinishReasonToolCall);
   ModelRequest [ToolReturnPart "test" "ok" "2" []]].
Definition demo_summary : AutoContextConfig unit :=
  MkAutoContextConfig 0 1 (Some (MkModel (λ _ _ _ w,
    (w, Ok (MkModelResponse [TextPart "summary"] zero_usage "" FinishReasonStop))) "summary")).

Lemma autoCompress_wellformed_witness :
  ∃ out, (autoCompressMessages demo_history demo_summary
            (MkModel (λ _ _ _ w, (w, Err (ENew "unused"))) "unused") 10 tt).2 = (out, None) ∧
  length out = 3%nat ∧ alternating true out ∧ no_orphans out.
Proof.
  eexists. split; [vm_compute; reflexivity|]. split; [reflexivity|].
  edestruct (autoCompress_wellformed demo_history demo_summary
    (MkModel (λ _ _ _ w, (w, Err (ENew "unused"))) "unused") 10 tt) as [H|(_ & H1 & H2 & _)];
    [repeat split|reflexivity|vm_compute; reflexivity|discriminate H|].
  split; [exact H1|exact H2].
Defined.
