(* ===== verification/Json.v ===== *)
(** * JSON values and their Go encoding

    What src/core/serialize.go and snapshot.go use of encoding/json.  A byte slice
    that holds JSON text is represented by the value it denotes: white space, the
    escaping of characters and the order in which a Go map is written are not
    observable through [json.Unmarshal].  A number is an integer literal, or the shortest
    text that denotes a [float64], which is read back as that float.

    [json.Marshal] replaces every byte that is not part of a valid UTF-8 sequence by
    U+FFFD, leaves out an empty field tagged [omitempty], and fails on a raw message
    that is not JSON and on a time outside the years 0 to 9999.  [json.Unmarshal]
    matches field names without regard to (ASCII) case, ignores unknown fields,
    leaves missing and null ones zero and refuses values of another type.  An object
    with two fields of one name is read as its last one. *)

From S2P Require Import Prelude Errors.

Inductive json : Type :=
| JNull
| JBool (b : bool)
| JNum (n : Z)
| JFloat (f : float64)
| JString (s : string)
| JArray (l : list json)
| JObject (fields : list (string * json)).

(** ** UTF-8

    [utf8.DecodeRune]: the length of the valid sequence at the head, if any. *)
Definition byte_in (lo hi : nat) (a : Ascii.ascii) : bool :=
  ((lo <=? Ascii.nat_of_ascii a) && (Ascii.nat_of_ascii a <=? hi))%nat.

Definition rune_len (l : list Ascii.ascii) : option nat :=
  let cont := forallb (byte_in 128 191) in
  match l with
  | [] => None
  | a :: t =>
    if byte_in 0 127 a then Some 1%nat else
    match t with
    | [] => None
    | b :: t =>
      if byte_in 194 223 a && cont [b] then Some 2%nat else
      match t with
      | [] => None
      | c :: t =>
        if byte_in 224 239 a && cont [b; c]
           && (negb (byte_in 224 224 a) || byte_in 160 191 b)
           && (negb (byte_in 237 237 a) || byte_in 128 159 b) then Some 3%nat else
        match t with
        | [] => None
        | d :: _ =>
          if byte_in 240 244 a && cont [b; c; d]
             && (negb (byte_in 240 240 a) || byte_in 144 191 b)
             && (negb (byte_in 244 244 a) || byte_in 128 143 b) then Some 4%nat else None
        end
      end
    end
  end.

Definition replacement_char : list Ascii.ascii := Ascii.ascii_of_nat <$> [239; 191; 189]%nat.

(** Every byte outside a valid sequence becomes U+FFFD.  Each round consumes at
    least one byte, so the length is fuel enough. *)
Fixpoint coerce_bytes (fuel : nat) (l : list Ascii.ascii) : list Ascii.ascii :=
  match fuel, l with
  | O, _ | _, [] => []
  | S fuel, a :: t =>
    match rune_len l with
    | Some n => take n l ++ coerce_bytes fuel (drop n l)
    | None => replacement_char ++ coerce_bytes fuel t
    end
  end.
Definition coerce_utf8 (s : string) : string :=
  String.string_of_list_ascii (coerce_bytes (String.length s) (String.list_ascii_of_string s)).

(** [utf8.ValidString]. *)
Fixpoint valid_bytes (fuel : nat) (l : list Ascii.ascii) : bool :=
  match fuel, l with
  | _, [] => true
  | O, _ => false
  | S fuel, _ =>
    match rune_len l with
    | Some n => valid_bytes fuel (drop n l)
    | None => false
    end
  end.
Definition ValidString (s : string) : bool :=
  valid_bytes (String.length s) (String.list_ascii_of_string s).

Lemma coerce_valid_bytes fuel l : valid_bytes fuel l = true → coerce_bytes fuel l = l.
Proof.
  revert l. induction fuel as [|fuel IH]; intros [|a t]; cbn -[rune_len]; try done.
  destruct (rune_len (a :: t)) as [n|]; [|done].
  intros H%IH. rewrite H. apply take_drop.
Qed.

Lemma coerce_valid s : ValidString s = true → coerce_utf8 s = s.
Proof.
  intros H. unfold coerce_utf8. rewrite coerce_valid_bytes by done.
  apply String.string_of_list_ascii_of_string.
Qed.

(** What is written is valid. *)
Lemma rune_len_app l n r : rune_len l = Some n → rune_len (take n l ++ r) = Some n ∧ (0 < n)%nat.
Proof.
  destruct l as [|a l]; [done|]. cbn [rune_len]. destruct (byte_in 0 127 a) eqn:Ha.
  { intros [= <-]. cbn -[byte_in]. rewrite Ha. split; [done|lia]. }
  destruct l as [|b l]; [done|]. destruct (byte_in 194 223 a && forallb (byte_in 128 191) [b]) eqn:H2.
  { intros [= <-]. cbn -[byte_in forallb]. rewrite Ha, H2. split; [done|lia]. }
  destruct l as [|c l]; [done|]. destruct (byte_in 224 239 a && _ && _ && _) eqn:H3.
  { intros [= <-]. cbn -[byte_in forallb]. rewrite Ha, H2, H3. split; [done|lia]. }
  destruct l as [|d l]; [done|]. destruct (byte_in 240 244 a && _ && _ && _) eqn:H4; [|done].
  intros [= <-]. cbn -[byte_in forallb]. rewrite Ha, H2, H3, H4. split; [done|lia].
Qed.
Lemma valid_rune n p r fuel : rune_len (p ++ r) = Some n → length p = n →
  valid_bytes (S fuel) (p ++ r) = valid_bytes fuel r.
Proof.
  intros Hr Hp. cbn [valid_bytes]. rewrite Hr, drop_app_length' by done. destruct (p ++ r) eqn:E; [done|done].
Qed.
Lemma valid_more fuel fuel' l : (fuel ≤ fuel')%nat → valid_bytes fuel l = true → valid_bytes fuel' l = true.
Proof.
  revert fuel' l. induction fuel as [|fuel IH]; intros fuel' [|a l] Hf; try done; try (by destruct fuel').
  destruct fuel' as [|fuel']; [lia|]. cbn -[rune_len]. destruct (rune_len _); [|done]. apply IH. lia.
Qed.
Lemma coerce_bytes_valid fuel l :
  valid_bytes (length (coerce_bytes fuel l)) (coerce_bytes fuel l) = true.
Proof.
  revert l. induction fuel as [|fuel IH]; intros [|a t]; try done. cbn [coerce_bytes].
  destruct (rune_len (a :: t)) as [n|] eqn:Hr.
  - set (rest := coerce_bytes fuel (drop n (a :: t))). destruct (rune_len_app _ _ rest Hr) as [Hr' Hn].
    destruct (length (take n (a :: t) ++ rest)) as [|m] eqn:Hm.
    { by apply nil_length_inv in Hm as ->. }
    rewrite length_app in Hm. assert (length (take n (a :: t)) = n) as Hl.
    { rewrite length_take. enough (n ≤ length (a :: t))%nat by lia. revert Hr. unfold rune_len.
      repeat case_match; intros [= <-]; cbn; lia. }
    rewrite (valid_rune n) by done. eapply valid_more; [|apply IH]. fold rest. lia.
  - rewrite length_app. cbn [length replacement_char fmap list_fmap plus]. rewrite (valid_rune 3) by done.
    eapply valid_more; [|apply IH]. lia.
Qed.
Lemma coerce_utf8_valid s : ValidString (coerce_utf8 s) = true.
Proof.
  unfold ValidString, coerce_utf8. rewrite String.list_ascii_of_string_of_list_ascii.
  assert (∀ l, String.length (String.string_of_list_ascii l) = length l) as -> by (induction l; cbn; congruence).
  apply coerce_bytes_valid.
Qed.

(** ** The results of fallible conversions *)

#[export] Instance res_ret : MRet res := λ A, Ok.
#[export] Instance res_bind : MBind res := λ A B k m,
  match m with Ok a => k a | Err e => Err e end.

#[export] Instance res_fmap : FMap res := λ A B f m,
  match m with Ok a => Ok (f a) | Err e => Err e end.

(** [if err != nil { return fmt.Errorf("...: %w", err) }]. *)
Definition wrap_error {A} (prefix : string) (r : res A) : res A :=
  match r with Ok a => Ok a | Err e => Err (EWrap prefix e "") end.

Lemma res_bind_ok {A B} (m : res A) (k : A → res B) b :
  m ≫= k = Ok b ↔ ∃ a, m = Ok a ∧ k a = Ok b.
Proof. destruct m; unfold mbind, res_bind; naive_solver. Qed.

(** ** Types with a JSON form

    [json_empty] is what [omitempty] leaves out, [json_ok] says which values
    survive: the law of the class is the round trip for those. *)
Class Json (A : Type) := {
  json_zero : A;
  json_empty : A → bool;
  json_ok : A → bool;
  marshal : A → res json;
  unmarshal : json → res A;
}.
Class JsonLaws (A : Type) `{Json A} := {
  json_empty_zero x : json_empty x = true → x = json_zero;
  json_roundtrip x : json_ok x = true → ∃ j, marshal x = Ok j ∧ unmarshal j = Ok x;
}.

Definition type_error : error := ENew "json: cannot unmarshal value into Go value".

#[export] Instance string_json : Json string := {|
  json_zero := "";
  json_empty := λ s, String.eqb s "";
  json_ok := ValidString;
  marshal := λ s, Ok (JString (coerce_utf8 s));
  unmarshal := λ j, match j with JString s => Ok (coerce_utf8 s) | JNull => Ok "" | _ => Err type_error end;
|}.
#[export] Instance string_json_laws : JsonLaws string.
Proof.
  split; intros s H; [exact (proj1 (String.eqb_eq _ _) H)|].
  eexists. split; [done|]. cbn. by rewrite (coerce_valid s), coerce_valid.
Qed.

(** Go's 64-bit [int]. *)
Definition int64_ok (z : Z) : bool := (- 2 ^ 63 <=? z) && (z <? 2 ^ 63).
#[export] Instance int_json : Json Z := {|
  json_zero := 0;
  json_empty := λ z, z =? 0;
  json_ok := int64_ok;
  marshal := λ z, Ok (JNum z);
  unmarshal := λ j, match j with
                    | JNum z => if int64_ok z then Ok z else Err type_error
                    | JNull => Ok 0
                    | _ => Err type_error
                    end;
|}.
#[export] Instance int_json_laws : JsonLaws Z.
Proof.
  split; intros z H; [exact (proj1 (Z.eqb_eq _ _) H)|].
  eexists. split; [done|]. cbn. cbn in H. by rewrite H.
Qed.

(** A slice; a nil slice and an empty one are identified. *)
#[export] Instance list_json `{Json A} : Json (list A) := {|
  json_zero := [];
  json_empty := λ l, match l with [] => true | _ => false end;
  json_ok := forallb json_ok;
  marshal := λ l, JArray <$> mapM marshal l;
  unmarshal := λ j, match j with
                    | JArray l => mapM unmarshal l
                    | JNull => Ok []
                    | _ => Err type_error
                    end;
|}.

(** A conversion of every element inverts element by element. *)
Lemma mapM_roundtrip {A B} (f : A → res B) (g : B → res A) l :
  Forall (λ x, ∃ y, f x = Ok y ∧ g y = Ok x) l →
  ∃ ys, mapM f l = Ok ys ∧ mapM g ys = Ok l.
Proof.
  induction 1 as [|x l (y & Hf & Hg) _ (ys & IHf & IHg)]; [by exists []|].
  exists (y :: ys). cbn. rewrite Hf, Hg. cbn. by rewrite IHf, IHg.
Qed.

Lemma mapM_error {A B} (f : A → res B) l :
  is_ok (mapM f l) = forallb (λ x, is_ok (f x)) l.
Proof.
  induction l as [|x l IH]; [done|]. cbn.
  destruct (f x); [|done]. cbn. rewrite <-IH. by destruct (mapM f l).
Qed.

#[export] Instance list_json_laws `{JsonLaws A} : JsonLaws (list A).
Proof.
  split; [by intros [|]|]. intros l Hl.
  destruct (mapM_roundtrip marshal unmarshal l) as (ys & Hm & Hu).
  { apply Forall_forall. intros x Hx. apply json_roundtrip.
    apply (proj1 (forallb_forall _ _) Hl). by apply list_elem_of_In. }
  exists (JArray ys). cbn. by rewrite Hm.
Qed.

(** Setting a field of a map. *)
Fixpoint insert_field {A} (k : string) (v : A) (l : list (string * A)) : list (string * A) :=
  match l with
  | [] => [(k, v)]
  | (k', v') :: l' =>
    match String.compare k k' with
    | Lt => (k, v) :: l
    | Eq => (k, v) :: l'
    | Gt => (k', v') :: insert_field k v l'
    end
  end.
Definition map_of {A} (fields : list (string * A)) : list (string * A) :=
  foldl (λ m e, insert_field e.1 e.2 m) [] fields.

Lemma insert_field_perm {A} k (v : A) l : k ∉ l.*1 → insert_field k v l ≡ₚ (k, v) :: l.
Proof.
  induction l as [|[k' v'] l IH]; [done|]. cbn. intros [Hk Hl]%not_elem_of_cons.
  destruct (String.compare k k') eqn:E; [by apply String.compare_eq_iff in E|done|].
  rewrite IH by done. apply perm_swap.
Qed.
Lemma map_of_perm {A} (l : list (string * A)) : NoDup l.*1 → map_of l ≡ₚ l.
Proof.
  unfold map_of. induction l as [|[k v] l IH] using rev_ind; [done|]. rewrite fmap_app, foldl_app. cbn.
  intros (Hl & Hd & _)%NoDup_app. rewrite insert_field_perm.
  - rewrite IH by done. by rewrite (Permutation_app_comm l).
  - rewrite IH by done. intros Hk. by apply (Hd k), list_elem_of_singleton.
Qed.

(** A Go map with string keys; a nil map and an empty one are identified.  The fields are
    written in the order of their keys. *)
#[export] Instance map_json `{Json A} : Json (gmap string A) := {|
  json_zero := ∅;
  json_empty := λ m, Nat.eqb (size m) 0;
  json_ok := λ m, forallb (λ '(k, v), ValidString k && json_ok v) (map_to_list m);
  marshal := λ m, JObject <$> mapM (λ '(k, v), j ← marshal v; Ok (coerce_utf8 k, j)) (map_of (map_to_list m));
  unmarshal := λ j, match j with
    | JObject l =>
      es ← mapM (λ '(k, j), v ← unmarshal j; Ok (coerce_utf8 k, v)) l;
      Ok (list_to_map (reverse es))
    | JNull => Ok ∅
    | _ => Err type_error
    end;
|}.
#[export] Instance map_json_laws `{JsonLaws A} : JsonLaws (gmap string A).
Proof.
  split.
  { intros m Hm%Nat.eqb_eq. by apply map_size_empty_inv. }
  intros m Hm. pose proof (proj1 (forallb_forall _ _) Hm) as Hall.
  destruct (mapM_roundtrip (λ '(k, v), j ← marshal v; Ok (coerce_utf8 k, j))
    (λ '(k, j), v ← unmarshal (A:=A) j; Ok (coerce_utf8 k, v)) (map_of (map_to_list m)))
    as (ys & Hf & Hg).
  { apply Forall_forall. intros [k v] Hkv. rewrite map_of_perm in Hkv by apply NoDup_fst_map_to_list.
    apply list_elem_of_In, Hall in Hkv.
    apply andb_prop in Hkv as [Hk Hv].
    destruct (json_roundtrip v Hv) as (j & Hj & Hu).
    exists (k, j). rewrite Hj, Hu. cbn. by rewrite (coerce_valid k Hk). }
  exists (JObject ys). cbn. rewrite Hf, Hg. split; [done|]. cbn. f_equal.
  rewrite <-(list_to_map_to_list m) at 2. apply list_to_map_proper.
  - rewrite reverse_Permutation, map_of_perm by apply NoDup_fst_map_to_list. apply NoDup_fst_map_to_list.
  - by rewrite reverse_Permutation, map_of_perm by apply NoDup_fst_map_to_list.
Qed.

(** [json.RawMessage]: nil, the text of a value, or other bytes, which
    [json.Marshal] refuses.  A nil one is written as null. *)
Inductive RawMessage :=
| RawNil
| RawJSON (j : json)
| RawInvalid (text : string).
#[export] Instance raw_json : Json RawMessage := {|
  json_zero := RawNil;
  json_empty := λ r, match r with RawNil => true | _ => false end;
  json_ok := λ r, match r with RawJSON _ => true | _ => false end;
  marshal := λ r, match r with
                  | RawNil => Ok JNull
                  | RawJSON j => Ok j
                  | RawInvalid _ => Err (ENew "json: error calling MarshalJSON for type json.RawMessage")
                  end;
  unmarshal := λ j, Ok (RawJSON j);
|}.
#[export] Instance raw_json_laws : JsonLaws RawMessage.
Proof. split; intros []; cbn; eauto; done. Qed.

(** [json.Unmarshal(raw, &v)]: no bytes and other bytes are refused. *)
Definition unmarshal_raw `{Json A} (r : RawMessage) : res A :=
  match r with
  | RawJSON j => unmarshal j
  | RawNil => Err (ENew "unexpected end of JSON input")
  | RawInvalid _ => Err (ENew "invalid character in JSON input")
  end.

(** A [time.Time] is written as its RFC 3339 text.  The text is a parameter: the
    format is only relied on to be parsed back to the instant it was made from. *)
Class TimeFormat := {
  format_time : Time → res string;
  parse_time : string → res Time;
}.
Class TimeFormatLaws `{TimeFormat} :=
  parse_format t s : format_time t = Ok s → ValidString s = true ∧ parse_time s = Ok t.

Record Timestamp := At { instant : Time }.
#[export] Instance time_json `{TimeFormat} : Json Timestamp := {|
  json_zero := At zero_time;
  json_empty := λ _, false;
  json_ok := λ t, is_ok (format_time (instant t));
  marshal := λ t, JString <$> format_time (instant t);
  unmarshal := λ j, match j with
                    | JString s => At <$> parse_time s
                    | JNull => Ok (At zero_time)
                    | _ => Err type_error
                    end;
|}.
#[export] Instance time_json_laws `{TimeFormatLaws} : JsonLaws Timestamp.
Proof.
  split; [done|]. intros [t] Ht. cbn in *.
  destruct (format_time t) as [s|] eqn:Hs; [|done].
  apply parse_format in Hs as [_ Hs]. exists (JString s). split; [done|].
  by rewrite Hs.
Qed.

(** ** Values of type [any]

    [json.Unmarshal] reads every number as a [float64], the one nearest to an integer
    literal with ties to even, every array as a [[]any] and every object as a
    [map[string]any]: integers, structs and nil pointers do not come back as they were. *)

Definition float_of_int (n : Z) : Z :=
  let a := Z.abs n in
  let d := Z.log2 a - 52 in
  if d <=? 0 then n
  else
    let q := Z.shiftr a d in
    let rest := a - Z.shiftl q d in
    let half := Z.shiftl 1 (d - 1) in
    let q := if (half <? rest) || ((rest =? half) && Z.odd q) then q + 1 else q in
    Z.sgn n * Z.shiftl q d.

Fixpoint marshal_any (v : any) : res json :=
  match v with
  | ANil | ATypedNil => Ok JNull
  | ABool b => Ok (JBool b)
  | AInt n => Ok (JNum n)
  | AFloat f => Ok (JFloat f)
  | AString s => Ok (JString (coerce_utf8 s))
  | ASlice l => JArray <$> mapM marshal_any l
  | AMap l | AStruct l => JObject <$> mapM (λ e, j ← marshal_any e.2; Ok (coerce_utf8 e.1, j)) l
  | AOpaque _ => Err (ENew "json: unsupported type")
  end.
Fixpoint unmarshal_any (j : json) : any :=
  match j with
  | JNull => ANil
  | JBool b => ABool b
  | JNum n => AFloat (FInt (float_of_int n))
  | JFloat f => AFloat f
  | JString s => AString (coerce_utf8 s)
  | JArray l => ASlice (unmarshal_any <$> l)
  | JObject l => AMap (map_of ((λ e, (coerce_utf8 e.1, unmarshal_any e.2)) <$> l))
  end.

(** The keys of a map, in order and once each. *)
Fixpoint key_ordered {A} (l : list (string * A)) : bool :=
  match l with [] => true | e :: l => forallb (λ e', String.ltb e.1 e'.1) l && key_ordered l end.
(** The values [json.Unmarshal] makes, which survive. *)
Fixpoint any_ok (v : any) : bool :=
  match v with
  | ANil | ABool _ | AFloat _ => true
  | AString s => ValidString s
  | ASlice l => forallb any_ok l
  | AMap l => key_ordered l && forallb (λ e, ValidString e.1 && any_ok e.2) l
  | _ => false
  end.

#[export] Instance any_json : Json any := {|
  json_zero := ANil; json_empty := any_is_nil; json_ok := any_ok;
  marshal := marshal_any; unmarshal := λ j, Ok (unmarshal_any j);
|}.

(** Integers up to [2^53] are exact. *)
Lemma float_of_int_exact n : Z.abs n < 2 ^ 53 → float_of_int n = n.
Proof.
  intros Hn. unfold float_of_int. destruct (Z.leb_spec (Z.log2 (Z.abs n) - 52) 0) as [_|H]; [done|].
  destruct (decide (n = 0)) as [->|]; [done|]. apply Z.log2_lt_pow2 in Hn; lia.
Qed.

Lemma ltb_compare a b : String.ltb a b = true ↔ String.compare a b = Lt.
Proof. unfold String.ltb. by destruct (String.compare a b). Qed.
Lemma ltb_le a b : String.ltb a b = true ↔ String.le a b ∧ a ≠ b.
Proof.
  unfold String.le, String.leb. rewrite ltb_compare. destruct (String.compare a b) eqn:E.
  - apply String.compare_eq_iff in E as ->. naive_solver.
  - split; [|done]. intros _. split; [done|]. intros ->.
    pose proof (String.compare_antisym b b) as H. rewrite E in H. done.
  - split; [done|]. by intros [[] _].
Qed.
Lemma ltb_trans a b c : String.ltb a b = true → String.ltb b c = true → String.ltb a c = true.
Proof.
  rewrite !ltb_le. intros [H1 N1] [H2 N2]. split; [by etrans|]. intros <-. apply N1. by apply (anti_symm String.le).
Qed.

Lemma insert_field_keys {A} k (v : A) l (P : string * A → bool) :
  P (k, v) = true → forallb P l = true → forallb P (insert_field k v l) = true.
Proof.
  intros Hk. induction l as [|[k' v'] l IH]; cbn; [by rewrite Hk|]. intros [H1 H2]%andb_prop.
  destruct (String.compare k k'); cbn; rewrite ?Hk, ?H1, ?H2; auto.
Qed.
Lemma insert_field_ordered {A} k (v : A) l : key_ordered l = true → key_ordered (insert_field k v l) = true.
Proof.
  induction l as [|[k' v'] l IH]; [done|]. cbn. intros [H1 H2]%andb_prop.
  destruct (String.compare k k') eqn:E; cbn.
  - apply String.compare_eq_iff in E as ->. by rewrite H1, H2.
  - apply ltb_compare in E. rewrite E, H1, H2. cbn. rewrite !andb_true_r.
    apply forallb_forall. intros e He. eapply ltb_trans; [exact E|]. by apply (proj1 (forallb_forall _ _) H1).
  - rewrite IH, insert_field_keys by done || (cbn; apply ltb_compare; by rewrite String.compare_antisym, E). done.
Qed.
Lemma map_of_ok {A} (P : string * A → bool) l :
  forallb P l = true → key_ordered (map_of l) = true ∧ forallb P (map_of l) = true.
Proof.
  unfold map_of. assert (key_ordered (@nil (string * A)) = true ∧ forallb P [] = true) as H by done. revert H.
  generalize (@nil (string * A)). induction l as [|[k v] l IH]; intros acc [H1 H2] H; [done|].
  cbn in H. apply andb_prop in H as [Hk Hl]. cbn. apply IH; [|done].
  split; [by apply insert_field_ordered|by apply insert_field_keys].
Qed.
Lemma insert_field_last {A} k (v : A) l :
  forallb (λ e, String.ltb e.1 k) l = true → insert_field k v l = l ++ [(k, v)].
Proof.
  induction l as [|[k' v'] l IH]; [done|]. cbn. intros [H1 H2]%andb_prop. apply ltb_compare in H1.
  rewrite String.compare_antisym, H1. cbn. by rewrite IH.
Qed.
Lemma ordered_app {A} (l l' : list (string * A)) e :
  key_ordered (l ++ e :: l') = true → forallb (λ e', String.ltb e'.1 e.1) l = true.
Proof.
  induction l as [|e0 l IH]; [done|]. cbn. intros [H1 H2]%andb_prop. rewrite IH by done.
  rewrite forallb_app in H1. apply andb_prop in H1 as [_ H1]. cbn in H1. by apply andb_prop in H1 as [-> _].
Qed.
Lemma map_of_ordered {A} (l : list (string * A)) : key_ordered l = true → map_of l = l.
Proof.
  unfold map_of. change (key_ordered ([] ++ l) = true → foldl (λ m e, insert_field e.1 e.2 m) [] l = [] ++ l).
  generalize (@nil (string * A)). induction l as [|[k v] l IH]; intros acc H; [by rewrite app_nil_r|]. cbn.
  rewrite insert_field_last by (by apply (ordered_app acc l (k, v))).
  rewrite IH; [by rewrite <-app_assoc|]. by rewrite <-app_assoc.
Qed.

(** Induction that reaches the values inside slices, maps and objects. *)
Section induction.
Context (P : any → Prop).
Context (Hbase : ∀ v, match v with ASlice _ | AMap _ | AStruct _ => False | _ => True end → P v).
Context (Hslice : ∀ l, Forall P l → P (ASlice l)).
Context (Hmap : ∀ l, Forall (P ∘ snd) l → P (AMap l)) (Hstruct : ∀ l, Forall (P ∘ snd) l → P (AStruct l)).
Fixpoint any_ind' (v : any) : P v :=
  match v return P v with
  | ASlice l => Hslice l ((fix go l := match l return Forall P l with
      | [] => Forall_nil_2 _ | v :: l => Forall_cons_2 _ _ _ (any_ind' v) (go l) end) l)
  | AMap l => Hmap l ((fix go l := match l return Forall (P ∘ snd) l with
      | [] => Forall_nil_2 _ | e :: l => Forall_cons_2 _ _ _ (any_ind' e.2) (go l) end) l)
  | AStruct l => Hstruct l ((fix go l := match l return Forall (P ∘ snd) l with
      | [] => Forall_nil_2 _ | e :: l => Forall_cons_2 _ _ _ (any_ind' e.2) (go l) end) l)
  | v => Hbase v I
  end.
Context (Q : json → Prop).
Context (Jbase : ∀ j, match j with JArray _ | JObject _ => False | _ => True end → Q j).
Context (Jarray : ∀ l, Forall Q l → Q (JArray l)) (Jobject : ∀ l, Forall (Q ∘ snd) l → Q (JObject l)).
Fixpoint json_ind' (j : json) : Q j :=
  match j return Q j with
  | JArray l => Jarray l ((fix go l := match l return Forall Q l with
      | [] => Forall_nil_2 _ | j :: l => Forall_cons_2 _ _ _ (json_ind' j) (go l) end) l)
  | JObject l => Jobject l ((fix go l := match l return Forall (Q ∘ snd) l with
      | [] => Forall_nil_2 _ | e :: l => Forall_cons_2 _ _ _ (json_ind' e.2) (go l) end) l)
  | j => Jbase j I
  end.
End induction.

Lemma any_roundtrip v : any_ok v = true → ∃ j, marshal_any v = Ok j ∧ unmarshal_any j = v.
Proof.
  induction v as [v Hv|l IH|l IH|l IH] using any_ind'.
  - destruct v; try done; try (intros; eexists; done). intros Hs. eexists. split; [done|]. cbn.
    by rewrite (coerce_valid s), coerce_valid.
  - cbn. intros Hl. assert (∃ ys, mapM marshal_any l = Ok ys ∧ unmarshal_any <$> ys = l) as (ys & -> & Hy).
    { induction IH as [|v l Hv _ IH]; [by exists []|]. cbn in Hl. apply andb_prop in Hl as [H1 H2].
      destruct (Hv H1) as (j & Hj & <-), (IH H2) as (ys & Hys & <-). exists (j :: ys). cbn. rewrite Hj. cbn. by rewrite Hys. }
    eexists. split; [done|]. cbn. by rewrite Hy.
  - cbn. intros [Ho Hl]%andb_prop. assert (∃ ys, mapM (λ e, j ← marshal_any e.2; Ok (coerce_utf8 e.1, j)) l = Ok ys ∧
      (λ e, (coerce_utf8 e.1, unmarshal_any e.2)) <$> ys = l) as (ys & -> & Hy).
    { clear Ho. induction IH as [|[k v] l Hv _ IH]; [by exists []|]. cbn -[ValidString] in Hl, Hv.
      apply andb_prop in Hl as [[Hk H1]%andb_prop H2].
      destruct (Hv H1) as (j & Hj & <-), (IH H2) as (ys & Hys & <-). exists ((k, j) :: ys). cbn -[coerce_utf8]. rewrite Hj.
      cbn -[coerce_utf8]. rewrite Hys, (coerce_valid k) by done. done. }
    eexists. split; [done|]. cbn. rewrite Hy. by rewrite map_of_ordered.
  - done.
Qed.
#[export] Instance any_json_laws : JsonLaws any.
Proof.
  split; [by intros []|]. intros v (j & Hj & Hv)%any_roundtrip. exists j. split; [done|]. cbn. by rewrite Hv.
Qed.

(** What was read survives from then on. *)
Lemma unmarshal_any_ok j : any_ok (unmarshal_any j) = true.
Proof.
  induction j as [j Hj|l IH|l IH] using json_ind'.
  - destruct j; try done. apply coerce_utf8_valid.
  - cbn. induction IH as [|j l Hj _ IH]; [done|]. cbn. by rewrite Hj, IH.
  - cbn. assert (forallb (λ e, ValidString e.1 && any_ok e.2)
      ((λ e, (coerce_utf8 e.1, unmarshal_any e.2)) <$> l) = true) as H.
    { induction IH as [|e l Hj _ IH]; [done|]. cbn -[ValidString coerce_utf8] in Hj |- *. by rewrite coerce_utf8_valid, Hj, IH. }
    by destruct (map_of_ok _ _ H) as [-> ->].
Qed.
(** A map is written as an object, which is read as a map. *)
Lemma marshal_map_object (m : gmap string any) : marshal m ≠ Ok JNull.
Proof. cbn. by destruct (mapM _ (map_of (map_to_list m))). Qed.
Lemma map_unmarshals (m : gmap string any) j : marshal m = Ok j → ∃ m' : gmap string any, unmarshal j = Ok m'.
Proof.
  intros Hj. cbn in Hj. destruct (mapM _ (map_of _)) as [l|] in Hj; [|done]. cbn in Hj. injection Hj as <-. cbn.
  match goal with |- context [mapM ?f l] => assert (is_ok (mapM f l) = true) as H end.
  { rewrite mapM_error. apply forallb_forall. by intros [k v] _. }
  destruct (mapM _ l); [|done]. by eexists.
Qed.
Lemma any_map_ok j (m : gmap string any) : unmarshal j = Ok m → json_ok m = true.
Proof.
  destruct j as [| | | | | |l]; cbn; try done; [by intros [= <-]|].
  intros (es & Hes & [= <-])%res_bind_ok. apply forallb_forall. intros [k v] Hkv%list_elem_of_In%elem_of_map_to_list.
  apply elem_of_list_to_map_2 in Hkv. rewrite elem_of_reverse in Hkv. clear -Hes Hkv. revert es Hes Hkv.
  induction l as [|[k0 j] l IH]; intros es; cbn; [intros [= <-]; by intros ?%not_elem_of_nil|].
  intros (es' & Hes & [= <-])%res_bind_ok [[= -> ->]|H]%elem_of_cons; [by rewrite coerce_utf8_valid, unmarshal_any_ok|].
  by eapply IH.
Qed.

(** ** Structs *)

Definition lower_ascii (a : Ascii.ascii) : Ascii.ascii :=
  if byte_in 65 90 a then Ascii.ascii_of_nat (Ascii.nat_of_ascii a + 32) else a.
Definition fold_key (s : string) : string :=
  String.string_of_list_ascii (lower_ascii <$> String.list_ascii_of_string s).
Definition same_key (k k' : string) : bool := String.eqb (fold_key k) (fold_key k').

(** The field a key selects. *)
Definition get_key (k : string) (obj : list (string * json)) : option json :=
  foldl (λ acc e, if same_key k e.1 then Some e.2 else acc) None obj.

(** Writing a field, with and without [omitempty], and reading it. *)
Definition put `{Json A} (k : string) (x : A) : res (list (string * json)) :=
  j ← marshal x; Ok [(k, j)].
Definition put_omitempty `{Json A} (k : string) (x : A) : res (list (string * json)) :=
  if json_empty x then Ok [] else put k x.
Definition field `{Json A} (obj : list (string * json)) (k : string) : res A :=
  match get_key k obj with None => Ok json_zero | Some j => unmarshal j end.

Definition object (fs : list (res (list (string * json)))) : res json :=
  (λ ls, JObject (mjoin ls)) <$> mapM id fs.

(** The fields of a struct value: null leaves all of them zero. *)
Definition fields (j : json) : res (list (string * json)) :=
  match j with JObject l => Ok l | JNull => Ok [] | _ => Err type_error end.

(** Every field of [l] is named [k]. *)
Definition only_key (k : string) (l : list (string * json)) : Prop := ∀ e, e ∈ l → e.1 = k.

Lemma get_key_app k l l' :
  get_key k (l ++ l') = match get_key k l' with Some j => Some j | None => get_key k l end.
Proof.
  unfold get_key. rewrite foldl_app.
  generalize (foldl (λ acc e, if same_key k e.1 then Some e.2 else acc) None l).
  induction l' as [|e l' IH] using rev_ind; [done|]. intros o.
  rewrite !foldl_app. cbn. by destruct (same_key k e.1).
Qed.

Lemma get_key_other k k' l : only_key k' l → same_key k k' = false → get_key k l = None.
Proof.
  intros Hl Hk. induction l as [|e l IH] using rev_ind; [done|].
  unfold only_key in Hl. unfold get_key in *. rewrite foldl_app, IH by set_solver. cbn.
  by rewrite (Hl e), Hk by set_solver.
Qed.

Lemma same_key_refl k : same_key k k = true.
Proof. apply String.eqb_refl. Qed.

Lemma put_read `{JsonLaws A} k (x : A) :
  json_ok x = true → ∃ l, put k x = Ok l ∧ only_key k l ∧ field l k = Ok x.
Proof.
  intros (j & Hj & Hu)%json_roundtrip. exists [(k, j)]. unfold put. rewrite Hj.
  split_and!; [done| |].
  - unfold only_key. set_solver.
  - unfold field, get_key. cbn. by rewrite same_key_refl.
Qed.

Lemma put_omitempty_read `{JsonLaws A} k (x : A) :
  json_empty x || json_ok x = true →
  ∃ l, put_omitempty k x = Ok l ∧ only_key k l ∧ field l k = Ok x.
Proof.
  unfold put_omitempty. destruct (json_empty x) eqn:Hx; [|apply put_read].
  intros _. apply json_empty_zero in Hx as ->. exists []. unfold only_key. set_solver.
Qed.

(** In an object made of fields with different names, each field reads as what was
    written. *)
Lemma field_here `{Json A} k (x : A) l l' :
  field l k = Ok x → get_key k l' = None → field (l ++ l') k = Ok x.
Proof. intros Hx Hl. unfold field in *. by rewrite get_key_app, Hl. Qed.
Lemma field_skip `{Json A} k k' l l' :
  only_key k' l → same_key k k' = false → field (A:=A) (l ++ l') k = field l' k.
Proof.
  intros Hl Hk. unfold field. rewrite get_key_app.
  rewrite (get_key_other k k' l) by done. by destruct (get_key k l').
Qed.
Lemma get_key_skip k k' l l' :
  only_key k' l → same_key k k' = false → get_key k l' = None → get_key k (l ++ l') = None.
Proof. intros Hl Hk Hl'. by rewrite get_key_app, Hl', (get_key_other k k' l). Qed.

(** Reads one field after the other: skips the fields before it, and checks that
    none after it has its name. *)
Ltac read_field :=
  first [ eapply field_here; [eassumption|];
          repeat (eapply get_key_skip; [eassumption|reflexivity|]); reflexivity
        | etransitivity; [eapply field_skip; [eassumption|reflexivity]|]; read_field ].
Ltac read_fields :=
  repeat match goal with
  | |- context [@field ?A ?J ?l ?k] =>
    let H := fresh in
    eassert (H : @field A J l k = Ok _) by read_field; rewrite H; clear H;
    cbn [mbind res_bind]
  end.
