(* ===== verification/Serialize.v ===== *)
(** * Serialisation of conversations and snapshots

    src/core/serialize.go and snapshot.go.  This file keeps the timestamps of
    messages, which the agent model leaves out: a request part or message of
    src/core/message.go is modelled with all its fields, and [erase_message] forgets
    what the agent model does not see.  The content of a tool return is a Go [any],
    the payload of a provider block a raw JSON message. *)

From S2P Require Import Prelude Errors Usage Messages AgentTypes Json.

(** ** Structs and their JSON form *)

Record systemPromptJSON := MkSystemPromptJSON { sp_Content : string; sp_Timestamp : Timestamp }.
Record userPromptJSON := MkUserPromptJSON { up_Content : string; up_Timestamp : Timestamp }.
Record retryPromptJSON := MkRetryPromptJSON {
  rp_Content : string; rp_ToolName : string; rp_ToolCallID : string; rp_Timestamp : Timestamp;
}.
Record imagePartJSON := MkImagePartJSON {
  ip_URL : string; ip_MIMEType : string; ip_Detail : string; ip_Timestamp : Timestamp;
}.
(** [ImagePart] as [json.Marshal] writes it inside the images of a tool return: the
    struct has no tags, so the field names are Go's. *)
Record imageField := MkImageField {
  if_URL : string; if_MIMEType : string; if_Detail : string; if_Timestamp : Timestamp;
}.
Record audioPartJSON := MkAudioPartJSON {
  ap_URL : string; ap_MIMEType : string; ap_Timestamp : Timestamp;
}.
Record documentPartJSON := MkDocumentPartJSON {
  dp_URL : string; dp_MIMEType : string; dp_Title : string; dp_Timestamp : Timestamp;
}.
Record toolReturnJSON := MkToolReturnJSON {
  tr_ToolName : string; tr_Content : RawMessage; tr_ToolCallID : string;
  tr_Timestamp : Timestamp; tr_Images : list imageField;
}.
Record textPartJSON := MkTextPartJSON { tp_Content : string }.
Record thinkingPartJSON := MkThinkingPartJSON { th_Content : string; th_Signature : string }.
Record providerMetadataPartJSON := MkProviderMetadataPartJSON {
  pm_Provider : string; pm_Kind : string; pm_Payload : RawMessage;
}.
Record partEnvelope := MkPartEnvelope { pe_Type : string; pe_Data : RawMessage }.
Record messageEnvelope := MkMessageEnvelope { me_Kind : string; me_Data : RawMessage }.
Record requestJSON := MkRequestJSON { rq_Parts : list partEnvelope; rq_Timestamp : Timestamp }.
Record responseJSON := MkResponseJSON {
  rj_Parts : list partEnvelope; rj_Usage : Usage; rj_ModelName : string;
  rj_FinishReason : string; rj_Timestamp : Timestamp;
}.

(** ** Messages with all their fields

    The interfaces [ModelRequestPart], [ModelResponsePart] and [ModelMessage] may also
    hold nil or a pointer; those are the unknown ones, named by their Go type. *)
Inductive FullRequestPart :=
| FSystemPrompt (p : systemPromptJSON)
| FUserPrompt (p : userPromptJSON)
| FToolReturn (toolName : string) (content : any) (toolCallID : string) (timestamp : Timestamp)
    (images : list imageField)
| FRetryPrompt (p : retryPromptJSON)
| FImage (p : imagePartJSON)
| FAudio (p : audioPartJSON)
| FDocument (p : documentPartJSON)
| FUnknownRequestPart (type : string).

Inductive FullResponsePart :=
| FText (p : textPartJSON)
| FToolCall (p : ToolCallPart)
| FThinking (p : thinkingPartJSON)
| FProviderMetadata (p : providerMetadataPartJSON)
| FUnknownResponsePart (type : string).

Record FullResponse := MkFullResponse {
  fr_Parts : list FullResponsePart; fr_Usage : Usage; fr_ModelName : string;
  fr_FinishReason : string; fr_Timestamp : Timestamp;
}.
Inductive FullMessage :=
| FRequest (parts : list FullRequestPart) (timestamp : Timestamp)
| FResponse (m : FullResponse)
| FUnknownMessage (type : string).

(** A field written without [omitempty] must survive; one with it may be empty. *)
Definition opt_ok `{Json A} (x : A) : bool := json_empty x || json_ok x.

(** The law of a struct: collect what was written for each field, then read the
    fields back. *)
Ltac write_fields :=
  repeat match goal with
  | H : _ && _ = true |- _ =>
    let H1 := fresh in let H2 := fresh in apply andb_prop in H as [H1 H2]
  end;
  repeat match goal with
  | |- context [put ?k ?x] =>
    let E := fresh in destruct (put_read k x) as (? & E & ? & ?); [assumption|]; rewrite E; clear E
  | |- context [put_omitempty ?k ?x] =>
    let E := fresh in
    destruct (put_omitempty_read k x) as (? & E & ? & ?); [assumption|]; rewrite E; clear E
  end.
Ltac solve_struct ok m u :=
  split; [done|]; let x := fresh "x" in let Hok := fresh "Hok" in intros x Hok;
  change (ok x = true) in Hok; change (∃ j, m x = Ok j ∧ u j = Ok x);
  unfold ok, m, u in *; write_fields; eexists; split; [reflexivity|];
  cbn [fields mjoin list_join mbind res_bind]; read_fields; destruct x; reflexivity.

Section codecs.
Context {TF : TimeFormat} {TL : TimeFormatLaws}.

Definition ok_systemPrompt (p : systemPromptJSON) : bool :=
  json_ok (sp_Content p) && json_ok (sp_Timestamp p).
Definition marshal_systemPrompt (p : systemPromptJSON) : res json :=
  object [put "content" (sp_Content p); put "timestamp" (sp_Timestamp p)].
Definition unmarshal_systemPrompt (j : json) : res systemPromptJSON :=
  o ← fields j; x1 ← field o "content"; x2 ← field o "timestamp";
  Ok (MkSystemPromptJSON x1 x2).
#[export] Instance systemPrompt_json : Json systemPromptJSON := {|
  json_zero := MkSystemPromptJSON json_zero json_zero; json_empty := λ _, false;
  json_ok := ok_systemPrompt; marshal := marshal_systemPrompt; unmarshal := unmarshal_systemPrompt;
|}.
#[export] Instance systemPrompt_json_laws : JsonLaws systemPromptJSON.
Proof. solve_struct ok_systemPrompt marshal_systemPrompt unmarshal_systemPrompt. Qed.

Definition ok_userPrompt (p : userPromptJSON) : bool :=
  json_ok (up_Content p) && json_ok (up_Timestamp p).
Definition marshal_userPrompt (p : userPromptJSON) : res json :=
  object [put "content" (up_Content p); put "timestamp" (up_Timestamp p)].
Definition unmarshal_userPrompt (j : json) : res userPromptJSON :=
  o ← fields j; x1 ← field o "content"; x2 ← field o "timestamp";
  Ok (MkUserPromptJSON x1 x2).
#[export] Instance userPrompt_json : Json userPromptJSON := {|
  json_zero := MkUserPromptJSON json_zero json_zero; json_empty := λ _, false;
  json_ok := ok_userPrompt; marshal := marshal_userPrompt; unmarshal := unmarshal_userPrompt;
|}.
#[export] Instance userPrompt_json_laws : JsonLaws userPromptJSON.
Proof. solve_struct ok_userPrompt marshal_userPrompt unmarshal_userPrompt. Qed.

Definition ok_retryPrompt (p : retryPromptJSON) : bool :=
  json_ok (rp_Content p) && opt_ok (rp_ToolName p) && opt_ok (rp_ToolCallID p) &&
  json_ok (rp_Timestamp p).
Definition marshal_retryPrompt (p : retryPromptJSON) : res json :=
  object [put "content" (rp_Content p); put_omitempty "tool_name" (rp_ToolName p);
          put_omitempty "tool_call_id" (rp_ToolCallID p); put "timestamp" (rp_Timestamp p)].
Definition unmarshal_retryPrompt (j : json) : res retryPromptJSON :=
  o ← fields j; x1 ← field o "content"; x2 ← field o "tool_name"; x3 ← field o "tool_call_id";
  x4 ← field o "timestamp";
  Ok (MkRetryPromptJSON x1 x2 x3 x4).
#[export] Instance retryPrompt_json : Json retryPromptJSON := {|
  json_zero := MkRetryPromptJSON json_zero json_zero json_zero json_zero; json_empty := λ _, false;
  json_ok := ok_retryPrompt; marshal := marshal_retryPrompt; unmarshal := unmarshal_retryPrompt;
|}.
#[export] Instance retryPrompt_json_laws : JsonLaws retryPromptJSON.
Proof. solve_struct ok_retryPrompt marshal_retryPrompt unmarshal_retryPrompt. Qed.

Definition ok_imagePart (p : imagePartJSON) : bool :=
  json_ok (ip_URL p) && json_ok (ip_MIMEType p) && opt_ok (ip_Detail p) &&
  json_ok (ip_Timestamp p).
Definition marshal_imagePart (p : imagePartJSON) : res json :=
  object [put "url" (ip_URL p); put "mime_type" (ip_MIMEType p);
          put_omitempty "detail" (ip_Detail p); put "timestamp" (ip_Timestamp p)].
Definition unmarshal_imagePart (j : json) : res imagePartJSON :=
  o ← fields j; x1 ← field o "url"; x2 ← field o "mime_type"; x3 ← field o "detail";
  x4 ← field o "timestamp";
  Ok (MkImagePartJSON x1 x2 x3 x4).
#[export] Instance imagePart_json : Json imagePartJSON := {|
  json_zero := MkImagePartJSON json_zero json_zero json_zero json_zero; json_empty := λ _, false;
  json_ok := ok_imagePart; marshal := marshal_imagePart; unmarshal := unmarshal_imagePart;
|}.
#[export] Instance imagePart_json_laws : JsonLaws imagePartJSON.
Proof. solve_struct ok_imagePart marshal_imagePart unmarshal_imagePart. Qed.

Definition ok_audioPart (p : audioPartJSON) : bool :=
  json_ok (ap_URL p) && json_ok (ap_MIMEType p) && json_ok (ap_Timestamp p).
Definition marshal_audioPart (p : audioPartJSON) : res json :=
  object [put "url" (ap_URL p); put "mime_type" (ap_MIMEType p);
          put "timestamp" (ap_Timestamp p)].
Definition unmarshal_audioPart (j : json) : res audioPartJSON :=
  o ← fields j; x1 ← field o "url"; x2 ← field o "mime_type"; x3 ← field o "timestamp";
  Ok (MkAudioPartJSON x1 x2 x3).
#[export] Instance audioPart_json : Json audioPartJSON := {|
  json_zero := MkAudioPartJSON json_zero json_zero json_zero; json_empty := λ _, false;
  json_ok := ok_audioPart; marshal := marshal_audioPart; unmarshal := unmarshal_audioPart;
|}.
#[export] Instance audioPart_json_laws : JsonLaws audioPartJSON.
Proof. solve_struct ok_audioPart marshal_audioPart unmarshal_audioPart. Qed.

Definition ok_documentPart (p : documentPartJSON) : bool :=
  json_ok (dp_URL p) && json_ok (dp_MIMEType p) && opt_ok (dp_Title p) &&
  json_ok (dp_Timestamp p).
Definition marshal_documentPart (p : documentPartJSON) : res json :=
  object [put "url" (dp_URL p); put "mime_type" (dp_MIMEType p);
          put_omitempty "title" (dp_Title p); put "timestamp" (dp_Timestamp p)].
Definition unmarshal_documentPart (j : json) : res documentPartJSON :=
  o ← fields j; x1 ← field o "url"; x2 ← field o "mime_type"; x3 ← field o "title";
  x4 ← field o "timestamp";
  Ok (MkDocumentPartJSON x1 x2 x3 x4).
#[export] Instance documentPart_json : Json documentPartJSON := {|
  json_zero := MkDocumentPartJSON json_zero json_zero json_zero json_zero; json_empty := λ _, false;
  json_ok := ok_documentPart; marshal := marshal_documentPart; unmarshal := unmarshal_documentPart;
|}.
#[export] Instance documentPart_json_laws : JsonLaws documentPartJSON.
Proof. solve_struct ok_documentPart marshal_documentPart unmarshal_documentPart. Qed.

Definition ok_imageField (p : imageField) : bool :=
  json_ok (if_URL p) && json_ok (if_MIMEType p) && json_ok (if_Detail p) &&
  json_ok (if_Timestamp p).
Definition marshal_imageField (p : imageField) : res json :=
  object [put "URL" (if_URL p); put "MIMEType" (if_MIMEType p); put "Detail" (if_Detail p);
          put "Timestamp" (if_Timestamp p)].
Definition unmarshal_imageField (j : json) : res imageField :=
  o ← fields j; x1 ← field o "URL"; x2 ← field o "MIMEType"; x3 ← field o "Detail";
  x4 ← field o "Timestamp";
  Ok (MkImageField x1 x2 x3 x4).
#[export] Instance imageField_json : Json imageField := {|
  json_zero := MkImageField json_zero json_zero json_zero json_zero; json_empty := λ _, false;
  json_ok := ok_imageField; marshal := marshal_imageField; unmarshal := unmarshal_imageField;
|}.
#[export] Instance imageField_json_laws : JsonLaws imageField.
Proof. solve_struct ok_imageField marshal_imageField unmarshal_imageField. Qed.

Definition ok_toolReturn (p : toolReturnJSON) : bool :=
  json_ok (tr_ToolName p) && json_ok (tr_Content p) && json_ok (tr_ToolCallID p) &&
  json_ok (tr_Timestamp p) && opt_ok (tr_Images p).
Definition marshal_toolReturn (p : toolReturnJSON) : res json :=
  object [put "tool_name" (tr_ToolName p); put "content" (tr_Content p);
          put "tool_call_id" (tr_ToolCallID p); put "timestamp" (tr_Timestamp p);
          put_omitempty "images" (tr_Images p)].
Definition unmarshal_toolReturn (j : json) : res toolReturnJSON :=
  o ← fields j; x1 ← field o "tool_name"; x2 ← field o "content"; x3 ← field o "tool_call_id";
  x4 ← field o "timestamp"; x5 ← field o "images";
  Ok (MkToolReturnJSON x1 x2 x3 x4 x5).
#[export] Instance toolReturn_json : Json toolReturnJSON := {|
  json_zero := MkToolReturnJSON json_zero json_zero json_zero json_zero json_zero; json_empty := λ _, false;
  json_ok := ok_toolReturn; marshal := marshal_toolReturn; unmarshal := unmarshal_toolReturn;
|}.
#[export] Instance toolReturn_json_laws : JsonLaws toolReturnJSON.
Proof. solve_struct ok_toolReturn marshal_toolReturn unmarshal_toolReturn. Qed.

Definition ok_textPart (p : textPartJSON) : bool :=
  json_ok (tp_Content p).
Definition marshal_textPart (p : textPartJSON) : res json :=
  object [put "content" (tp_Content p)].
Definition unmarshal_textPart (j : json) : res textPartJSON :=
  o ← fields j; x1 ← field o "content";
  Ok (MkTextPartJSON x1).
#[export] Instance textPart_json : Json textPartJSON := {|
  json_zero := MkTextPartJSON json_zero; json_empty := λ _, false;
  json_ok := ok_textPart; marshal := marshal_textPart; unmarshal := unmarshal_textPart;
|}.
#[export] Instance textPart_json_laws : JsonLaws textPartJSON.
Proof. solve_struct ok_textPart marshal_textPart unmarshal_textPart. Qed.

Definition ok_toolCallPart (p : ToolCallPart) : bool :=
  json_ok (tc_ToolName p) && json_ok (tc_ArgsJSON p) && json_ok (tc_ToolCallID p) &&
  opt_ok (tc_Metadata p).
Definition marshal_toolCallPart (p : ToolCallPart) : res json :=
  object [put "tool_name" (tc_ToolName p); put "args_json" (tc_ArgsJSON p);
          put "tool_call_id" (tc_ToolCallID p); put_omitempty "metadata" (tc_Metadata p)].
Definition unmarshal_toolCallPart (j : json) : res ToolCallPart :=
  o ← fields j; x1 ← field o "tool_name"; x2 ← field o "args_json"; x3 ← field o "tool_call_id";
  x4 ← field o "metadata";
  Ok (MkToolCallPart x1 x2 x3 x4).
#[export] Instance toolCallPart_json : Json ToolCallPart := {|
  json_zero := MkToolCallPart json_zero json_zero json_zero json_zero; json_empty := λ _, false;
  json_ok := ok_toolCallPart; marshal := marshal_toolCallPart; unmarshal := unmarshal_toolCallPart;
|}.
#[export] Instance toolCallPart_json_laws : JsonLaws ToolCallPart.
Proof. solve_struct ok_toolCallPart marshal_toolCallPart unmarshal_toolCallPart. Qed.

Definition ok_thinkingPart (p : thinkingPartJSON) : bool :=
  json_ok (th_Content p) && opt_ok (th_Signature p).
Definition marshal_thinkingPart (p : thinkingPartJSON) : res json :=
  object [put "content" (th_Content p); put_omitempty "signature" (th_Signature p)].
Definition unmarshal_thinkingPart (j : json) : res thinkingPartJSON :=
  o ← fields j; x1 ← field o "content"; x2 ← field o "signature";
  Ok (MkThinkingPartJSON x1 x2).
#[export] Instance thinkingPart_json : Json thinkingPartJSON := {|
  json_zero := MkThinkingPartJSON json_zero json_zero; json_empty := λ _, false;
  json_ok := ok_thinkingPart; marshal := marshal_thinkingPart; unmarshal := unmarshal_thinkingPart;
|}.
#[export] Instance thinkingPart_json_laws : JsonLaws thinkingPartJSON.
Proof. solve_struct ok_thinkingPart marshal_thinkingPart unmarshal_thinkingPart. Qed.

Definition ok_providerMetadataPart (p : providerMetadataPartJSON) : bool :=
  json_ok (pm_Provider p) && json_ok (pm_Kind p) && opt_ok (pm_Payload p).
Definition marshal_providerMetadataPart (p : providerMetadataPartJSON) : res json :=
  object [put "provider" (pm_Provider p); put "kind" (pm_Kind p);
          put_omitempty "payload" (pm_Payload p)].
Definition unmarshal_providerMetadataPart (j : json) : res providerMetadataPartJSON :=
  o ← fields j; x1 ← field o "provider"; x2 ← field o "kind"; x3 ← field o "payload";
  Ok (MkProviderMetadataPartJSON x1 x2 x3).
#[export] Instance providerMetadataPart_json : Json providerMetadataPartJSON := {|
  json_zero := MkProviderMetadataPartJSON json_zero json_zero json_zero; json_empty := λ _, false;
  json_ok := ok_providerMetadataPart; marshal := marshal_providerMetadataPart; unmarshal := unmarshal_providerMetadataPart;
|}.
#[export] Instance providerMetadataPart_json_laws : JsonLaws providerMetadataPartJSON.
Proof. solve_struct ok_providerMetadataPart marshal_providerMetadataPart unmarshal_providerMetadataPart. Qed.

Definition ok_partEnvelope (p : partEnvelope) : bool :=
  json_ok (pe_Type p) && json_ok (pe_Data p).
Definition marshal_partEnvelope (p : partEnvelope) : res json :=
  object [put "type" (pe_Type p); put "data" (pe_Data p)].
Definition unmarshal_partEnvelope (j : json) : res partEnvelope :=
  o ← fields j; x1 ← field o "type"; x2 ← field o "data";
  Ok (MkPartEnvelope x1 x2).
#[export] Instance partEnvelope_json : Json partEnvelope := {|
  json_zero := MkPartEnvelope json_zero json_zero; json_empty := λ _, false;
  json_ok := ok_partEnvelope; marshal := marshal_partEnvelope; unmarshal := unmarshal_partEnvelope;
|}.
#[export] Instance partEnvelope_json_laws : JsonLaws partEnvelope.
Proof. solve_struct ok_partEnvelope marshal_partEnvelope unmarshal_partEnvelope. Qed.

Definition ok_messageEnvelope (p : messageEnvelope) : bool :=
  json_ok (me_Kind p) && json_ok (me_Data p).
Definition marshal_messageEnvelope (p : messageEnvelope) : res json :=
  object [put "kind" (me_Kind p); put "data" (me_Data p)].
Definition unmarshal_messageEnvelope (j : json) : res messageEnvelope :=
  o ← fields j; x1 ← field o "kind"; x2 ← field o "data";
  Ok (MkMessageEnvelope x1 x2).
#[export] Instance messageEnvelope_json : Json messageEnvelope := {|
  json_zero := MkMessageEnvelope json_zero json_zero; json_empty := λ _, false;
  json_ok := ok_messageEnvelope; marshal := marshal_messageEnvelope; unmarshal := unmarshal_messageEnvelope;
|}.
#[export] Instance messageEnvelope_json_laws : JsonLaws messageEnvelope.
Proof. solve_struct ok_messageEnvelope marshal_messageEnvelope unmarshal_messageEnvelope. Qed.

Definition ok_usage (p : Usage) : bool :=
  opt_ok (InputTokens p) && opt_ok (OutputTokens p) && opt_ok (CacheWriteTokens p) &&
  opt_ok (CacheReadTokens p) && opt_ok (Details p).
Definition marshal_usage (p : Usage) : res json :=
  object [put_omitempty "input_tokens" (InputTokens p);
          put_omitempty "output_tokens" (OutputTokens p);
          put_omitempty "cache_write_tokens" (CacheWriteTokens p);
          put_omitempty "cache_read_tokens" (CacheReadTokens p);
          put_omitempty "details" (Details p)].
Definition unmarshal_usage (j : json) : res Usage :=
  o ← fields j; x1 ← field o "input_tokens"; x2 ← field o "output_tokens";
  x3 ← field o "cache_write_tokens"; x4 ← field o "cache_read_tokens";
  x5 ← field o "details";
  Ok (MkUsage x1 x2 x3 x4 x5).
#[export] Instance usage_json : Json Usage := {|
  json_zero := MkUsage json_zero json_zero json_zero json_zero json_zero; json_empty := λ _, false;
  json_ok := ok_usage; marshal := marshal_usage; unmarshal := unmarshal_usage;
|}.
#[export] Instance usage_json_laws : JsonLaws Usage.
Proof. solve_struct ok_usage marshal_usage unmarshal_usage. Qed.

Definition ok_request (p : requestJSON) : bool :=
  json_ok (rq_Parts p) && json_ok (rq_Timestamp p).
Definition marshal_request (p : requestJSON) : res json :=
  object [put "parts" (rq_Parts p); put "timestamp" (rq_Timestamp p)].
Definition unmarshal_request (j : json) : res requestJSON :=
  o ← fields j; x1 ← field o "parts"; x2 ← field o "timestamp";
  Ok (MkRequestJSON x1 x2).
#[export] Instance request_json : Json requestJSON := {|
  json_zero := MkRequestJSON json_zero json_zero; json_empty := λ _, false;
  json_ok := ok_request; marshal := marshal_request; unmarshal := unmarshal_request;
|}.
#[export] Instance request_json_laws : JsonLaws requestJSON.
Proof. solve_struct ok_request marshal_request unmarshal_request. Qed.

Definition ok_response (p : responseJSON) : bool :=
  json_ok (rj_Parts p) && json_ok (rj_Usage p) && json_ok (rj_ModelName p) &&
  json_ok (rj_FinishReason p) && json_ok (rj_Timestamp p).
Definition marshal_response (p : responseJSON) : res json :=
  object [put "parts" (rj_Parts p); put "usage" (rj_Usage p);
          put "model_name" (rj_ModelName p); put "finish_reason" (rj_FinishReason p);
          put "timestamp" (rj_Timestamp p)].
Definition unmarshal_response (j : json) : res responseJSON :=
  o ← fields j; x1 ← field o "parts"; x2 ← field o "usage"; x3 ← field o "model_name";
  x4 ← field o "finish_reason"; x5 ← field o "timestamp";
  Ok (MkResponseJSON x1 x2 x3 x4 x5).
#[export] Instance response_json : Json responseJSON := {|
  json_zero := MkResponseJSON json_zero json_zero json_zero json_zero json_zero; json_empty := λ _, false;
  json_ok := ok_response; marshal := marshal_response; unmarshal := unmarshal_response;
|}.
#[export] Instance response_json_laws : JsonLaws responseJSON.
Proof. solve_struct ok_response marshal_response unmarshal_response. Qed.

(** ** Encoding *)

(** Each conversion from a part to its JSON struct copies the fields; a part of any
    other dynamic type is refused. *)
Definition envelope `{Json A} (type : string) (p : A) : res partEnvelope :=
  data ← marshal p; Ok (MkPartEnvelope type (RawJSON data)).

Definition encodeRequestPart (part : FullRequestPart) : res partEnvelope :=
  match part with
  | FSystemPrompt p => envelope "system-prompt" p
  | FUserPrompt p => envelope "user-prompt" p
  | FToolReturn toolName content toolCallID timestamp images =>
    contentData ← wrap_error "marshaling tool return content: " (marshal content);
    envelope "tool-return"
      (MkToolReturnJSON toolName (RawJSON contentData) toolCallID timestamp images)
  | FRetryPrompt p => envelope "retry-prompt" p
  | FImage p => envelope "image" p
  | FAudio p => envelope "audio" p
  | FDocument p => envelope "document" p
  | FUnknownRequestPart t => Err (ENew ("unknown request part type: " +:+ t))
  end.

Definition encodeResponsePart (part : FullResponsePart) : res partEnvelope :=
  match part with
  | FText p => envelope "text" p
  | FToolCall p => envelope "tool-call" p
  | FThinking p => envelope "thinking" p
  | FProviderMetadata p => envelope "provider-metadata" p
  | FUnknownResponsePart t => Err (ENew ("unknown response part type: " +:+ t))
  end.

Definition encodeRequestParts (parts : list FullRequestPart) : res (list partEnvelope) :=
  mapM encodeRequestPart parts.
Definition encodeResponseParts (parts : list FullResponsePart) : res (list partEnvelope) :=
  mapM encodeResponsePart parts.

Definition encodeMessage (msg : FullMessage) : res messageEnvelope :=
  match msg with
  | FRequest parts timestamp =>
    parts ← encodeRequestParts parts;
    data ← wrap_error "marshaling request: " (marshal (MkRequestJSON parts timestamp));
    Ok (MkMessageEnvelope "request" (RawJSON data))
  | FResponse m =>
    parts ← encodeResponseParts (fr_Parts m);
    data ← wrap_error "marshaling response: " (marshal
      (MkResponseJSON parts (fr_Usage m) (fr_ModelName m) (fr_FinishReason m) (fr_Timestamp m)));
    Ok (MkMessageEnvelope "response" (RawJSON data))
  | FUnknownMessage t => Err (ENew ("unknown message type: " +:+ t))
  end.

Definition EncodeMessages (messages : list FullMessage) : res (list messageEnvelope) :=
  mapM (λ msg, wrap_error "encoding message: " (encodeMessage msg)) messages.
Definition MarshalMessages (messages : list FullMessage) : res json :=
  envelopes ← EncodeMessages messages; marshal envelopes.

(** ** Decoding *)

Definition from_data `{Json A} {B} (what : string) (data : RawMessage) (k : A → B) : res B :=
  k <$> wrap_error ("unmarshaling " +:+ what +:+ ": ") (unmarshal_raw data).

Definition decodeRequestPart (env : partEnvelope) : res FullRequestPart :=
  let data := pe_Data env in
  if String.eqb (pe_Type env) "system-prompt" then from_data "system-prompt" data FSystemPrompt
  else if String.eqb (pe_Type env) "user-prompt" then from_data "user-prompt" data FUserPrompt
  else if String.eqb (pe_Type env) "tool-return" then
    p ← from_data (A:=toolReturnJSON) "tool-return" data id;
    content ← from_data "tool-return content" (tr_Content p) id;
    Ok (FToolReturn (tr_ToolName p) content (tr_ToolCallID p) (tr_Timestamp p) (tr_Images p))
  else if String.eqb (pe_Type env) "retry-prompt" then from_data "retry-prompt" data FRetryPrompt
  else if String.eqb (pe_Type env) "image" then from_data "image" data FImage
  else if String.eqb (pe_Type env) "audio" then from_data "audio" data FAudio
  else if String.eqb (pe_Type env) "document" then from_data "document" data FDocument
  else Err (ENew ("unknown request part type: " +:+ go_quote (pe_Type env))).

Definition decodeResponsePart (env : partEnvelope) : res FullResponsePart :=
  let data := pe_Data env in
  if String.eqb (pe_Type env) "text" then from_data "text" data FText
  else if String.eqb (pe_Type env) "tool-call" then from_data "tool-call" data FToolCall
  else if String.eqb (pe_Type env) "thinking" then from_data "thinking" data FThinking
  else if String.eqb (pe_Type env) "provider-metadata" then
    from_data "provider-metadata" data FProviderMetadata
  else Err (ENew ("unknown response part type: " +:+ go_quote (pe_Type env))).

Definition decodeRequestParts (envs : list partEnvelope) : res (list FullRequestPart) :=
  mapM decodeRequestPart envs.
Definition decodeResponseParts (envs : list partEnvelope) : res (list FullResponsePart) :=
  mapM decodeResponsePart envs.

Definition decodeMessage (env : messageEnvelope) : res FullMessage :=
  if String.eqb (me_Kind env) "request" then
    rj ← from_data (A:=requestJSON) "request" (me_Data env) id;
    parts ← decodeRequestParts (rq_Parts rj);
    Ok (FRequest parts (rq_Timestamp rj))
  else if String.eqb (me_Kind env) "response" then
    rj ← from_data (A:=responseJSON) "response" (me_Data env) id;
    parts ← decodeResponseParts (rj_Parts rj);
    Ok (FResponse (MkFullResponse parts (rj_Usage rj) (rj_ModelName rj) (rj_FinishReason rj)
      (rj_Timestamp rj)))
  else Err (ENew ("unknown message kind: " +:+ go_quote (me_Kind env))).

Definition DecodeMessages (envelopes : list messageEnvelope) : res (list FullMessage) :=
  mapM decodeMessage envelopes.
Definition UnmarshalMessages (data : json) : res (list FullMessage) :=
  envelopes ← wrap_error "unmarshaling message envelopes: " (unmarshal data);
  DecodeMessages envelopes.

Definition EncodeModelResponse (resp : option FullResponse) : res messageEnvelope :=
  match resp with
  | None => Err (ENew "nil model response")
  | Some resp => encodeMessage (FResponse resp)
  end.
Definition message_type (msg : FullMessage) : string :=
  match msg with
  | FRequest _ _ => "core.ModelRequest" | FResponse _ => "core.ModelResponse" | FUnknownMessage t => t
  end.
Definition DecodeModelResponse (env : option messageEnvelope) : res FullResponse :=
  match env with
  | None => Err (ENew "nil serialized response")
  | Some env =>
    msg ← decodeMessage env;
    match msg with
    | FResponse resp => Ok resp
    | _ => Err (ENew ("expected response envelope, got " +:+ message_type msg))
    end
  end.

(** ** What survives

    A message with valid UTF-8 texts, times the format can express, integers of 64
    bits, and JSON where JSON is expected. *)
Definition ok_request_part (p : FullRequestPart) : bool :=
  match p with
  | FSystemPrompt p => json_ok p
  | FUserPrompt p => json_ok p
  | FToolReturn toolName content toolCallID timestamp images =>
    json_ok toolName && json_ok content && json_ok toolCallID && json_ok timestamp && opt_ok images
  | FRetryPrompt p => json_ok p
  | FImage p => json_ok p
  | FAudio p => json_ok p
  | FDocument p => json_ok p
  | FUnknownRequestPart _ => false
  end.
Definition ok_response_part (p : FullResponsePart) : bool :=
  match p with
  | FText p => json_ok p
  | FToolCall p => json_ok p
  | FThinking p => json_ok p
  | FProviderMetadata p => json_ok p
  | FUnknownResponsePart _ => false
  end.
Definition ok_message (m : FullMessage) : bool :=
  match m with
  | FRequest parts timestamp => forallb ok_request_part parts && json_ok timestamp
  | FResponse m =>
    forallb ok_response_part (fr_Parts m) && json_ok (fr_Usage m) && json_ok (fr_ModelName m)
      && json_ok (fr_FinishReason m) && json_ok (fr_Timestamp m)
  | FUnknownMessage _ => false
  end.

(** ** Round trips *)

(** A struct in an envelope is read back from it. *)
Lemma from_data_roundtrip `{JsonLaws A} {B} type what (p : A) (k : A → B) :
  json_ok p = true →
  ∃ data, envelope type p = Ok (MkPartEnvelope type (RawJSON data)) ∧
    from_data what (RawJSON data) k = Ok (k p).
Proof.
  intros (j & Hj & Hu)%json_roundtrip. exists j. unfold envelope, from_data. rewrite Hj.
  cbn. by rewrite Hu.
Qed.

Local Ltac part_roundtrip type p C :=
  let Hp := fresh in intros Hp;
  destruct (from_data_roundtrip type type p C Hp) as (data & He & Hd);
  exists (MkPartEnvelope type (RawJSON data)); split; [exact He|exact Hd].

Lemma encodeRequestPart_roundtrip p : ok_request_part p = true →
  ∃ env, encodeRequestPart p = Ok env ∧ decodeRequestPart env = Ok p.
Proof.
  destruct p as [p|p|name content id ts images|p|p|p|p|t]; [..|done].
  1: part_roundtrip "system-prompt" p FSystemPrompt.
  1: part_roundtrip "user-prompt" p FUserPrompt.
  2: part_roundtrip "retry-prompt" p FRetryPrompt.
  2: part_roundtrip "image" p FImage.
  2: part_roundtrip "audio" p FAudio.
  2: part_roundtrip "document" p FDocument.
  unfold ok_request_part. rewrite !andb_true_iff. intros [[[[Hn Hc] Hi] Ht] Him].
  destruct (json_roundtrip content Hc) as (j & Hj & Hu).
  edestruct (from_data_roundtrip (B:=toolReturnJSON) "tool-return" "tool-return"
    (MkToolReturnJSON name (RawJSON j) id ts images) Datatypes.id) as (data & He & Hd).
  { change (ok_toolReturn (MkToolReturnJSON name (RawJSON j) id ts images) = true).
    unfold ok_toolReturn. cbn [tr_ToolName tr_Content tr_ToolCallID tr_Timestamp tr_Images].
    by rewrite Hn, Hi, Ht, Him. }
  eexists. split; [cbn [encodeRequestPart]; rewrite Hj; exact He|].
  change (decodeRequestPart _) with
    (p ← from_data (A:=toolReturnJSON) "tool-return" (RawJSON data) Datatypes.id;
     content ← from_data "tool-return content" (tr_Content p) Datatypes.id;
     Ok (FToolReturn (tr_ToolName p) content (tr_ToolCallID p) (tr_Timestamp p) (tr_Images p))).
  rewrite Hd. cbn [mbind res_bind Datatypes.id tr_Content]. unfold from_data, unmarshal_raw.
  by rewrite Hu.
Qed.

Lemma encodeResponsePart_roundtrip p : ok_response_part p = true →
  ∃ env, encodeResponsePart p = Ok env ∧ decodeResponsePart env = Ok p.
Proof.
  destruct p as [p|p|p|p|t]; [..|done].
  - part_roundtrip "text" p FText.
  - part_roundtrip "tool-call" p FToolCall.
  - part_roundtrip "thinking" p FThinking.
  - part_roundtrip "provider-metadata" p FProviderMetadata.
Qed.

(** The envelopes the encoder makes are JSON themselves. *)
Lemma envelope_ok `{Json A} type (p : A) env :
  envelope type p = Ok env → ValidString type = true → json_ok env = true.
Proof.
  unfold envelope. destruct (marshal p); [|done]. intros [= <-] Ht.
  change (ok_partEnvelope (MkPartEnvelope type (RawJSON a)) = true).
  unfold ok_partEnvelope. cbn [pe_Type pe_Data]. change (ValidString type && true = true).
  by rewrite Ht.
Qed.

Lemma encodeRequestPart_ok p env : encodeRequestPart p = Ok env → json_ok env = true.
Proof.
  destruct p; cbn [encodeRequestPart]; try (intros He; exact (envelope_ok _ _ _ He eq_refl)); [|done].
  destruct (marshal content); [|done]. intros He. exact (envelope_ok _ _ _ He eq_refl).
Qed.
Lemma encodeResponsePart_ok p env : encodeResponsePart p = Ok env → json_ok env = true.
Proof.
  destruct p; cbn [encodeResponsePart]; try (intros He; exact (envelope_ok _ _ _ He eq_refl)); done.
Qed.

(** What holds of every result of the elementwise encoding. *)
Lemma mapM_all {A B} (f : A → res B) (P : B → bool) l ys :
  (∀ x y, f x = Ok y → P y = true) → mapM f l = Ok ys → forallb P ys = true.
Proof.
  intros HP. revert ys. induction l as [|x l IH]; intros ys; cbn; [by intros [= <-]|].
  destruct (f x) as [y|] eqn:Hx; cbn; [|done]. destruct (mapM f l) as [k|]; cbn; [|done].
  intros [= <-]. cbn. by rewrite (HP x y), IH.
Qed.

(** The parts of a message, encoded one by one, are decoded again. *)
Lemma parts_roundtrip {A} (f : A → res partEnvelope) (g : partEnvelope → res A) (ok : A → bool) l :
  (∀ p, ok p = true → ∃ env, f p = Ok env ∧ g env = Ok p) →
  (∀ p env, f p = Ok env → json_ok env = true) →
  forallb ok l = true →
  ∃ envs, mapM f l = Ok envs ∧ mapM g envs = Ok l ∧ json_ok envs = true.
Proof.
  intros Hfg Hok Hl. destruct (mapM_roundtrip f g l) as (envs & Hf & Hg).
  { apply Forall_forall. intros x Hx%list_elem_of_In. apply Hfg.
    by apply (proj1 (forallb_forall _ _) Hl). }
  exists envs. split_and!; [done..|]. exact (mapM_all f json_ok l envs Hok Hf).
Qed.

Lemma encodeMessage_roundtrip m : ok_message m = true →
  ∃ env, encodeMessage m = Ok env ∧ decodeMessage env = Ok m ∧ json_ok env = true.
Proof.
  destruct m as [parts ts|[parts us mn fr ts]|t]; [..|done]; unfold ok_message;
    cbn [fr_Parts fr_Usage fr_ModelName fr_FinishReason fr_Timestamp]; rewrite !andb_true_iff.
  - intros [Hp Ht].
    destruct (parts_roundtrip encodeRequestPart decodeRequestPart ok_request_part parts)
      as (envs & He & Hd & Hok); eauto using encodeRequestPart_roundtrip, encodeRequestPart_ok.
    destruct (json_roundtrip (MkRequestJSON envs ts)) as (j & Hj & Hu).
    { change (json_ok envs && json_ok ts = true). by rewrite Hok, Ht. }
    exists (MkMessageEnvelope "request" (RawJSON j)). split_and!; [| |done].
    + cbn [encodeMessage]. unfold encodeRequestParts. rewrite He. cbn [mbind res_bind].
      by rewrite Hj.
    + change (decodeMessage _) with (rj ← from_data (A:=requestJSON) "request" (RawJSON j) id;
        parts ← decodeRequestParts (rq_Parts rj); Ok (FRequest parts (rq_Timestamp rj))).
      unfold from_data, unmarshal_raw. rewrite Hu. cbn [wrap_error fmap res_fmap mbind res_bind id rq_Parts].
      unfold decodeRequestParts. by rewrite Hd.
  - intros [[[[Hp Hus] Hmn] Hfr] Ht].
    destruct (parts_roundtrip encodeResponsePart decodeResponsePart ok_response_part parts)
      as (envs & He & Hd & Hok); eauto using encodeResponsePart_roundtrip, encodeResponsePart_ok.
    destruct (json_roundtrip (MkResponseJSON envs us mn fr ts)) as (j & Hj & Hu).
    { change (json_ok envs && json_ok us && json_ok mn && json_ok fr && json_ok ts = true).
      by rewrite Hok, Hus, Hmn, Hfr, Ht. }
    exists (MkMessageEnvelope "response" (RawJSON j)). split_and!; [| |done].
    + cbn [encodeMessage]. unfold encodeResponseParts.
      cbn [fr_Parts fr_Usage fr_ModelName fr_FinishReason fr_Timestamp]. rewrite He.
      cbn [mbind res_bind]. by rewrite Hj.
    + change (decodeMessage _) with (rj ← from_data (A:=responseJSON) "response" (RawJSON j) id;
        parts ← decodeResponseParts (rj_Parts rj);
        Ok (FResponse (MkFullResponse parts (rj_Usage rj) (rj_ModelName rj) (rj_FinishReason rj)
          (rj_Timestamp rj)))).
      unfold from_data, unmarshal_raw. rewrite Hu. cbn [wrap_error fmap res_fmap mbind res_bind id rj_Parts].
      unfold decodeResponseParts. by rewrite Hd.
Qed.

Lemma EncodeMessages_roundtrip ms : forallb ok_message ms = true →
  ∃ envs, EncodeMessages ms = Ok envs ∧ DecodeMessages envs = Ok ms ∧ json_ok envs = true.
Proof.
  induction ms as [|m ms IH]; [by exists []|]. cbn [forallb].
  intros [(env & He & Hd & Hok)%encodeMessage_roundtrip (envs & Hes & Hds & Hoks)%IH]%andb_prop.
  exists (env :: envs). unfold EncodeMessages, DecodeMessages in *. cbn [mapM].
  rewrite He, Hd. cbn [wrap_error mbind res_bind]. rewrite Hes, Hds.
  split_and!; [done..|]. change (json_ok env && json_ok envs = true). by rewrite Hok, Hoks.
Qed.

End codecs.
