(* ===== verification/Snapshot.v ===== *)
(** * Run snapshots

    src/core/snapshot.go and the snapshot methods of run_state.go: a snapshot of a run
    is taken, serialised, read back, branched and applied to a fresh run.  A snapshot
    is polymorphic in its messages: the serialised ones carry all fields
    ([FullMessage]), those of the agent model do not ([ModelMessage]). *)

From S2P Require Import Prelude Errors Usage Messages AgentTypes Json Serialize.

(** [RunStateSnapshot], [SerializedRunSnapshot] and [snapshotJSON] have the same fields
    and differ in the type of the messages. *)
Record SnapshotOf (M : Type) := MkSnapshot {
  snap_Messages : M;
  snap_Usage : RunUsage;
  snap_LastInputTokens : Z;
  snap_Retries : Z;
  snap_ToolRetries : gmap string Z;
  snap_RunID : string;
  snap_ParentRunID : string;
  snap_RunStep : Z;
  snap_RunStartTime : Timestamp;
  snap_Prompt : string;
  snap_ToolState : AnyMap;
  snap_Timestamp : Timestamp;
  snap_SourceTraceRunID : string;
  snap_SourceSnapshotID : string;
}.
Arguments snap_Messages {M} _.
Arguments snap_Usage {M} _.
Arguments snap_LastInputTokens {M} _.
Arguments snap_Retries {M} _.
Arguments snap_ToolRetries {M} _.
Arguments snap_RunID {M} _.
Arguments snap_ParentRunID {M} _.
Arguments snap_RunStep {M} _.
Arguments snap_RunStartTime {M} _.
Arguments snap_Prompt {M} _.
Arguments snap_ToolState {M} _.
Arguments snap_Timestamp {M} _.
Arguments snap_SourceTraceRunID {M} _.
Arguments snap_SourceSnapshotID {M} _.
Arguments MkSnapshot {M}.

Definition RunStateSnapshot : Type := SnapshotOf (list ModelMessage).
Definition FullSnapshot : Type := SnapshotOf (list FullMessage).
Definition SerializedRunSnapshot : Type := SnapshotOf (list messageEnvelope).
Definition snapshotJSON : Type := SnapshotOf RawMessage.

(** The same snapshot with other messages: the struct literals of [EncodeRunSnapshot],
    [DecodeRunSnapshot], [MarshalSnapshot] and [UnmarshalSnapshot] copy every other
    field. *)
Definition with_messages {M N} (s : SnapshotOf M) (ms : N) : SnapshotOf N :=
  MkSnapshot ms (snap_Usage s) (snap_LastInputTokens s) (snap_Retries s) (snap_ToolRetries s)
    (snap_RunID s) (snap_ParentRunID s) (snap_RunStep s) (snap_RunStartTime s) (snap_Prompt s)
    (snap_ToolState s) (snap_Timestamp s) (snap_SourceTraceRunID s) (snap_SourceSnapshotID s).

Lemma with_messages_twice {M N O} (s : SnapshotOf M) (n : N) (o : O) :
  with_messages (with_messages s n) o = with_messages s o.
Proof. done. Qed.
Lemma with_own_messages {M} (s : SnapshotOf M) : with_messages s (snap_Messages s) = s.
Proof. by destruct s. Qed.

Section snapshots.
Context {TF : TimeFormat} {TL : TimeFormatLaws}.

(** ** JSON form

    [RunUsage] embeds [Usage], whose fields are written among its own. *)
Definition ok_runUsage (p : RunUsage) : bool :=
  json_ok (ru_Usage p) && json_ok (Requests p) && json_ok (Usage.ToolCalls p).
Definition marshal_runUsage (p : RunUsage) : res json :=
  let u := ru_Usage p in
  object [put_omitempty "input_tokens" (InputTokens u); put_omitempty "output_tokens" (OutputTokens u);
          put_omitempty "cache_write_tokens" (CacheWriteTokens u);
          put_omitempty "cache_read_tokens" (CacheReadTokens u); put_omitempty "details" (Details u);
          put "requests" (Requests p); put "tool_calls" (Usage.ToolCalls p)].
Definition unmarshal_runUsage (j : json) : res RunUsage :=
  o ← fields j; x1 ← field o "input_tokens"; x2 ← field o "output_tokens";
  x3 ← field o "cache_write_tokens"; x4 ← field o "cache_read_tokens"; x5 ← field o "details";
  x6 ← field o "requests"; x7 ← field o "tool_calls";
  Ok (MkRunUsage (MkUsage x1 x2 x3 x4 x5) x6 x7).
#[export] Instance runUsage_json : Json RunUsage := {|
  json_zero := zero_run_usage; json_empty := λ _, false;
  json_ok := ok_runUsage; marshal := marshal_runUsage; unmarshal := unmarshal_runUsage;
|}.
#[export] Instance runUsage_json_laws : JsonLaws RunUsage.
Proof.
  split; [done|]. intros p Hok. change (ok_runUsage p = true) in Hok.
  change (∃ j, marshal_runUsage p = Ok j ∧ unmarshal_runUsage j = Ok p).
  unfold ok_runUsage in Hok. change (json_ok (ru_Usage p)) with (ok_usage (ru_Usage p)) in Hok.
  unfold ok_usage, marshal_runUsage, unmarshal_runUsage in *. cbv zeta. write_fields.
  eexists. split; [reflexivity|]. cbn [fields mjoin list_join mbind res_bind]. read_fields.
  by destruct p as [[] ? ?].
Qed.

Definition ok_snapshot (p : snapshotJSON) : bool :=
  json_ok (snap_Messages p) && json_ok (snap_Usage p) && json_ok (snap_LastInputTokens p) &&
  json_ok (snap_Retries p) && opt_ok (snap_ToolRetries p) && json_ok (snap_RunID p) &&
  opt_ok (snap_ParentRunID p) && json_ok (snap_RunStep p) &&
  json_ok (snap_RunStartTime p) && json_ok (snap_Prompt p) && opt_ok (snap_ToolState p) &&
  json_ok (snap_Timestamp p) && opt_ok (snap_SourceTraceRunID p) &&
  opt_ok (snap_SourceSnapshotID p).
Definition marshal_snapshot (p : snapshotJSON) : res json :=
  object [put "messages" (snap_Messages p); put "usage" (snap_Usage p);
          put "last_input_tokens" (snap_LastInputTokens p); put "retries" (snap_Retries p);
          put_omitempty "tool_retries" (snap_ToolRetries p); put "run_id" (snap_RunID p);
          put_omitempty "parent_run_id" (snap_ParentRunID p);
          put "run_step" (snap_RunStep p); put "run_start_time" (snap_RunStartTime p);
          put "prompt" (snap_Prompt p); put_omitempty "tool_state" (snap_ToolState p);
          put "timestamp" (snap_Timestamp p);
          put_omitempty "source_trace_run_id" (snap_SourceTraceRunID p);
          put_omitempty "source_snapshot_id" (snap_SourceSnapshotID p)].
Definition unmarshal_snapshot (j : json) : res snapshotJSON :=
  o ← fields j; x1 ← field o "messages"; x2 ← field o "usage"; x3 ← field o "last_input_tokens";
  x4 ← field o "retries"; x5 ← field o "tool_retries"; x6 ← field o "run_id";
  x7 ← field o "parent_run_id"; x8 ← field o "run_step"; x9 ← field o "run_start_time";
  x10 ← field o "prompt"; x11 ← field o "tool_state"; x12 ← field o "timestamp";
  x13 ← field o "source_trace_run_id"; x14 ← field o "source_snapshot_id";
  Ok (MkSnapshot x1 x2 x3 x4 x5 x6 x7 x8 x9 x10 x11 x12 x13 x14).
#[export] Instance snapshot_json : Json snapshotJSON := {|
  json_zero := MkSnapshot json_zero json_zero json_zero json_zero json_zero json_zero json_zero json_zero json_zero json_zero json_zero json_zero json_zero json_zero; json_empty := λ _, false;
  json_ok := ok_snapshot; marshal := marshal_snapshot; unmarshal := unmarshal_snapshot;
|}.
#[export] Instance snapshot_json_laws : JsonLaws snapshotJSON.
Proof. solve_struct ok_snapshot marshal_snapshot unmarshal_snapshot. Qed.

(** ** Encoding and decoding *)

Definition EncodeRunSnapshot (snap : option FullSnapshot) : res SerializedRunSnapshot :=
  match snap with
  | None => Err (ENew "nil run snapshot")
  | Some snap =>
    msgs ← EncodeMessages (snap_Messages snap);
    Ok (with_messages snap msgs)
  end.

Definition MarshalSnapshot (snap : option FullSnapshot) : res json :=
  encoded ← EncodeRunSnapshot snap;
  msgData ← marshal (snap_Messages encoded);
  marshal (with_messages encoded (RawJSON msgData) : snapshotJSON).

(** A nil serialised snapshot decodes to a nil snapshot. *)
Definition DecodeRunSnapshot (snap : option SerializedRunSnapshot) : res (option FullSnapshot) :=
  match snap with
  | None => Ok None
  | Some snap =>
    msgs ← DecodeMessages (snap_Messages snap);
    Ok (Some (with_messages snap msgs))
  end.

Definition UnmarshalSnapshot (data : json) : res (option FullSnapshot) :=
  sj ← (unmarshal data : res snapshotJSON);
  messages ← unmarshal_raw (snap_Messages sj);
  DecodeRunSnapshot (Some (with_messages sj messages)).

(** [Branch]: the messages are replaced by the modifier's result. *)
Definition Branch {M} (s : SnapshotOf (list M)) (modifier : list M → list M) (now : Timestamp)
    : SnapshotOf (list M) :=
  MkSnapshot (modifier (snap_Messages s)) (snap_Usage s) (snap_LastInputTokens s) (snap_Retries s)
    (snap_ToolRetries s) (snap_RunID s) (snap_ParentRunID s) (snap_RunStep s) (snap_RunStartTime s)
    (snap_Prompt s) (snap_ToolState s) now (snap_SourceTraceRunID s) (snap_SourceSnapshotID s).

(** [SnapshotCheckpointID]; [now] is read when the snapshot has no time. *)
Definition SnapshotCheckpointID {M} (snap : option (SnapshotOf M)) (now : Time) : string :=
  match snap with
  | None => ""
  | Some snap =>
    let when := if IsZero (instant (snap_Timestamp snap)) then now else instant (snap_Timestamp snap) in
    let runID := if String.eqb (snap_RunID snap) "" then "run" else snap_RunID snap in
    "checkpoint:" +:+ runID +:+ ":step-" +:+ itoa (snap_RunStep snap) +:+ ":" +:+ itoa (UnixNano when)
  end.

(** What survives serialisation. *)
Definition ok_snapshot_full (s : FullSnapshot) : bool :=
  forallb ok_message (snap_Messages s) && ok_snapshot (with_messages s (RawJSON JNull)).

Lemma MarshalSnapshot_roundtrip s : ok_snapshot_full s = true →
  ∃ data, MarshalSnapshot (Some s) = Ok data ∧ UnmarshalSnapshot data = Ok (Some s).
Proof.
  unfold ok_snapshot_full. intros [Hms Hs]%andb_prop.
  destruct (EncodeMessages_roundtrip _ Hms) as (envs & He & Hd & Hok).
  destruct (json_roundtrip envs Hok) as (jm & Hjm & Hum).
  destruct (json_roundtrip (with_messages s (RawJSON jm) : snapshotJSON)) as (j & Hj & Hu); [exact Hs|].
  exists j. unfold MarshalSnapshot, UnmarshalSnapshot, EncodeRunSnapshot.
  rewrite He. cbn [mbind res_bind]. cbn [with_messages snap_Messages].
  rewrite Hjm. cbn [mbind res_bind]. split; [exact Hj|].
  rewrite Hu. cbn [mbind res_bind snap_Messages with_messages unmarshal_raw].
  rewrite Hum. cbn [mbind res_bind DecodeRunSnapshot snap_Messages with_messages].
  rewrite Hd. cbn [mbind res_bind]. by destruct s.
Qed.
End snapshots.

(** ** Taking and applying a snapshot

    The fields of a Go [RunState] that the agent model does not use. *)
Record RunOrigin := MkRunOrigin {
  startTime : Timestamp;
  sourceTraceRunID : string;
  sourceSnapshotID : string;
}.
#[export] Instance RunOrigin_eta : RecordEta RunOrigin := λ o,
  MkRunOrigin (startTime o) (sourceTraceRunID o) (sourceSnapshotID o).
Definition FullRunState : Type := RunState * RunOrigin.

(** [newRunState]; the identifier and the clock are inputs. *)
Definition newRunState (lim : UsageLimits) (newRunID : string) (now : Timestamp) : FullRunState :=
  (MkRunState [] zero_run_usage 0 0 ∅ 0 0 newRunID "" lim, MkRunOrigin now "" "").

Definition applySnapshot (s : FullRunState) (snap : option RunStateSnapshot) : FullRunState :=
  match snap with
  | None => s
  | Some snap =>
    let '(r, o) := s in
    (MkRunState (snap_Messages snap) (snap_Usage snap) (snap_LastInputTokens snap)
       (snap_Retries snap) (snap_ToolRetries snap) (activeApprovals r) (snap_RunStep snap)
       (if String.eqb (snap_RunID snap) "" then runID r else snap_RunID snap)
       (if String.eqb (snap_ParentRunID snap) "" then parentRunID r else snap_ParentRunID snap)
       (limits r),
     MkRunOrigin
       (if IsZero (instant (snap_RunStartTime snap)) then startTime o else snap_RunStartTime snap)
       (snap_SourceTraceRunID snap) (snap_SourceSnapshotID snap))
  end.

Definition snapshot (s : FullRunState) (prompt : string) (toolState : AnyMap) (now : Timestamp)
    : RunStateSnapshot :=
  let '(r, o) := s in
  MkSnapshot (messages r) (usage r) (lastInputTokens r) (retries r) (toolRetries r) (runID r)
    (parentRunID r) (runStep r) (startTime o) prompt toolState now
    (sourceTraceRunID o) (sourceSnapshotID o).

(** What the agent model keeps of a message; the text of a content that is no string
    and of a provider payload are parameters. *)
Section erasure.
Context (content_text : any → string) (payload_text : RawMessage → string).

Definition erase_image (i : imageField) : ImagePart :=
  MkImagePart (if_URL i) (if_MIMEType i) (if_Detail i).
Definition erase_request_part (p : FullRequestPart) : option RequestPart :=
  match p with
  | FSystemPrompt p => Some (SystemPromptPart (sp_Content p))
  | FUserPrompt p => Some (UserPromptPart (up_Content p))
  | FToolReturn name content id _ images =>
    Some (ToolReturnPart name (match content with AString s => s | v => content_text v end) id
      (erase_image <$> images))
  | FRetryPrompt p => Some (RetryPromptPart (rp_Content p) (rp_ToolName p) (rp_ToolCallID p))
  | FImage p => Some (ImageRequestPart (MkImagePart (ip_URL p) (ip_MIMEType p) (ip_Detail p)))
  | FAudio p => Some (AudioPart (ap_URL p) (ap_MIMEType p))
  | FDocument p => Some (DocumentPart (dp_URL p) (dp_MIMEType p) (dp_Title p))
  | FUnknownRequestPart _ => None
  end.
Definition erase_response_part (p : FullResponsePart) : option ResponsePart :=
  match p with
  | FText p => Some (TextPart (tp_Content p))
  | FToolCall p => Some (CallPart p)
  | FThinking p => Some (ThinkingPart (th_Content p) (th_Signature p))
  | FProviderMetadata p =>
    Some (ProviderMetadataPart (pm_Provider p) (pm_Kind p) (payload_text (pm_Payload p)))
  | FUnknownResponsePart _ => None
  end.
Definition finish_reason (s : string) : FinishReason :=
  if String.eqb s "stop" then FinishReasonStop
  else if String.eqb s "length" then FinishReasonLength
  else if String.eqb s "content_filter" then FinishReasonContentFilter
  else if String.eqb s "tool_call" then FinishReasonToolCall
  else if String.eqb s "error" then FinishReasonError
  else FinishReasonOther s.
Definition erase_message (m : FullMessage) : option ModelMessage :=
  match m with
  | FRequest ps _ => Some (ModelRequest (omap erase_request_part ps))
  | FResponse m => Some (Response (MkModelResponse (omap erase_response_part (fr_Parts m))
      (fr_Usage m) (fr_ModelName m) (finish_reason (fr_FinishReason m))))
  | FUnknownMessage _ => None
  end.
Definition erase_snapshot (s : FullSnapshot) : RunStateSnapshot :=
  with_messages s (omap erase_message (snap_Messages s)).
End erasure.

Section theorems.
Context {TF : TimeFormat} {TL : TimeFormatLaws}.

(** A conversation whose texts are valid UTF-8, whose times the format can express
    and whose integers fit 64 bits is serialised without error and read back
    unchanged, with every part, field and timestamp. *)
Theorem messages_roundtrip (ms : list FullMessage) :
  forallb ok_message ms = true →
  ∃ data, MarshalMessages ms = Ok data ∧ UnmarshalMessages data = Ok ms.
Proof.
  intros (envs & He & Hd & Hok)%EncodeMessages_roundtrip.
  destruct (json_roundtrip envs Hok) as (j & Hj & Hu). exists j.
  unfold MarshalMessages, UnmarshalMessages. rewrite He, Hu. by split.
Qed.

(** C14: a run resumed from a serialised snapshot continues in the state the snapshot
    was taken in: applying the decoded snapshot to a fresh run restores messages,
    usage, retry counters, step, identifiers, start time and provenance; only the
    limits are the new run's and no approval is pending. *)
Theorem snapshot_resume_roundtrip ct pt (st : FullRunState) prompt toolState now
    (fs : FullSnapshot) lim rid now' :
  runID st.1 ≠ "" → IsZero (instant (startTime st.2)) = false →
  ok_snapshot_full fs = true →
  erase_snapshot ct pt fs = snapshot st prompt toolState now →
  ∃ data fs', MarshalSnapshot (Some fs) = Ok data ∧ UnmarshalSnapshot data = Ok (Some fs') ∧
    applySnapshot (newRunState lim rid now') (Some (erase_snapshot ct pt fs')) =
      ((st.1) <| activeApprovals := 0 |> <| limits := lim |>, st.2).
Proof.
  intros Hid Ht Hok He. destruct (MarshalSnapshot_roundtrip fs Hok) as (data & Hm & Hu).
  exists data, fs. split_and!; [done..|]. rewrite He. destruct st as [r o].
  cbn in Hid, Ht |- *. rewrite Ht. apply String.eqb_neq in Hid. rewrite Hid.
  destruct r, o; cbn. repeat f_equal.
  by destruct (String.eqb_spec parentRunID "").
Qed.
End theorems.

(** ** A concrete instance

    A time format that writes the first instants as tally marks. *)
Fixpoint tally (n : nat) : string := match n with O => "" | S n => "|" +:+ tally n end.
Definition tally_time : TimeFormat := {|
  format_time := λ t, if (0 <=? t) && (t <=? 9) then Ok (tally (Z.to_nat t))
                      else Err (ENew "Time.MarshalJSON: year outside of range");
  parse_time := λ s, Ok (Z.of_nat (String.length s));
|}.
Lemma tally_time_laws : @TimeFormatLaws tally_time.
Proof.
  intros t s. cbn. destruct (Z.leb_spec 0 t), (Z.leb_spec t 9); cbn; try done.
  intros [= <-].
  assert (t = 0 ∨ t = 1 ∨ t = 2 ∨ t = 3 ∨ t = 4 ∨ t = 5 ∨ t = 6 ∨ t = 7 ∨ t = 8 ∨ t = 9) as Ht by lia.
  by destruct_or! Ht; subst.
Qed.

Definition example_messages : list FullMessage :=
  [ FRequest [FSystemPrompt (MkSystemPromptJSON "be brief" (At 1)); FUserPrompt (MkUserPromptJSON "hi" (At 2))] (At 2);
    FResponse (MkFullResponse
      [FThinking (MkThinkingPartJSON "hm" ""); FToolCall (MkToolCallPart "ls" "{}" "c1" {["k" := "v"]});
       FProviderMetadata (MkProviderMetadataPartJSON "anthropic" "ref" (RawJSON (JArray [JNum 1; JNull])))]
      (MkUsage 10 5 0 0 {["cached" := 3]}) "m" "tool_call" (At 3));
    FRequest [FToolReturn "ls" (AString "a.txt") "c1" (At 4) [MkImageField "u" "image/png" "" (At 4)];
              FRetryPrompt (MkRetryPromptJSON "again" "" "" (At 5))] (At 5) ].

Lemma messages_roundtrip_witness :
  ∃ data, @MarshalMessages tally_time example_messages = Ok data ∧
    @UnmarshalMessages tally_time data = Ok example_messages.
Proof. apply (@messages_roundtrip tally_time tally_time_laws). vm_compute. reflexivity. Defined.

Definition example_full : FullSnapshot :=
  MkSnapshot example_messages (MkRunUsage (MkUsage 10 5 0 0 ∅) 1 1) 10 0 {["ls" := 1]} "run-1" ""
    1 (At 1) "hi" {["cwd" := AString "/tmp"]} (At 6) "" "".
Definition plain (v : any) : string := "".
Definition no_payload (r : RawMessage) : string := "".
Definition example_state : FullRunState :=
  (MkRunState (omap (erase_message plain no_payload) example_messages) (MkRunUsage (MkUsage 10 5 0 0 ∅) 1 1)
     10 0 {["ls" := 1]} 2 1 "run-1" "" DefaultUsageLimits, MkRunOrigin (At 1) "" "").

Lemma snapshot_resume_roundtrip_witness :
  ∃ data fs', @MarshalSnapshot tally_time (Some example_full) = Ok data ∧
    @UnmarshalSnapshot tally_time data = Ok (Some fs') ∧
    applySnapshot (newRunState DefaultUsageLimits "run-2" (At 7))
      (Some (erase_snapshot plain no_payload fs')) =
      ((example_state.1) <| activeApprovals := 0 |> <| limits := DefaultUsageLimits |>, example_state.2).
Proof.
  apply (@snapshot_resume_roundtrip tally_time tally_time_laws plain no_payload
    example_state "hi" {["cwd" := AString "/tmp"]} (At 6) example_full).
  - discriminate.
  - reflexivity.
  - vm_compute. reflexivity.
  - reflexivity.
Defined.
