(* ===== verification/RunSetup.v ===== *)
(** * Setting up and ending a run

    [initializeRunExecution], [applyInputGuardrails] and [bootstrapRunMessages] of
    src/core/run_engine.go, and [buildInitialRequestWithDynamic], [beginRun],
    [endRun] and [Run] of agent.go: a run takes its limits and settings from the
    options or the agent, restores a snapshot, checks the prompt, builds the first
    request, runs the loop and reports its end. *)

From S2P Require Import Prelude Errors Usage Messages AgentTypes AgentTools AgentLoop Json Serialize Snapshot.

(** The fields of the agent that only the setup of a run reads.  A stateful tool is
    its name and its [RestoreState]. *)
Record AgentSetup (W : Type) := MkAgentSetup {
  systemPrompts : list string;
  dynamicSystemPrompts : list (RunContext → W → W * res string);
  knowledgeBase_Retrieve : option (string → W → W * res string);
  inputGuardrails : list (string * (string → W → W * (string * option error)));
  agent_modelSettings : option ModelSettings;
  agent_usageLimits : UsageLimits;
  statefulTools : list (string * (any → W → W));
}.
Arguments MkAgentSetup {W}.
Arguments systemPrompts {W}.
Arguments dynamicSystemPrompts {W}.
Arguments knowledgeBase_Retrieve {W}.
Arguments inputGuardrails {W}.
Arguments agent_modelSettings {W}.
Arguments agent_usageLimits {W}.
Arguments statefulTools {W}.

(** [runConfig]; an empty list stands for a nil or empty slice. *)
Record runConfig := MkRunConfig {
  cfg_modelSettings : option ModelSettings;
  cfg_usageLimits : option UsageLimits;
  cfg_messages : list ModelMessage;
  cfg_snapshot : option RunStateSnapshot;
  cfg_initialRequestParts : list RequestPart;
  cfg_deferredResults : list DeferredToolResult;
  cfg_toolState : AnyMap;
}.

(** The error of a run as text, and whether it is a deferral. *)
Definition RunError_Error (e : RunError) : string :=
  match e with
  | RunFailed e => Error e
  | ErrDeferred reqs _ _ =>
    "agent run deferred: " +:+ itoa (Z.of_nat (length reqs)) +:+ " tool call(s) require external resolution"
  end.
Definition isDeferredRunError (e : option RunError) : bool :=
  match e with Some (ErrDeferred _ _ _) => true | _ => false end.

Section setup.
Context {W T : Type}.
Context (json_marshal : ToolValue → res string).
Context (json_object_ok : string → bool).
Context (unmarshal_wrapper : string → res (gmap string string)).
Context (unmarshal_T : string → res T).
Context (string_as_T : string → option T).
Context (type_name_T : string).
Context (ctx_Err : W → option error).
Context (a : Agent W T) (su : AgentSetup W).
Local Open Scope prog_scope.

Abbreviation runLoop := (runLoop json_marshal json_object_ok unmarshal_wrapper unmarshal_T string_as_T
  type_name_T ctx_Err a).

(** ** Initialisation *)

(** The limits: the run's own, else the agent's. *)
Definition run_limits (cfg : runConfig) : UsageLimits :=
  default (agent_usageLimits su) (cfg_usageLimits cfg).
Definition run_settings (cfg : runConfig) : option ModelSettings :=
  match cfg_modelSettings cfg with Some s => Some s | None => agent_modelSettings su end.

(** The run state: fresh, with the caller's run as parent, overridden by the snapshot
    and then by the messages of the options. *)
Definition initial_state (cfg : runConfig) (parent newRunID : string) (now : Timestamp) : FullRunState :=
  let '(r, o) := newRunState (run_limits cfg) newRunID now in
  let '(r, o) := applySnapshot (r <| parentRunID := parent |>, o) (cfg_snapshot cfg) in
  let r := r <| limits := run_limits cfg |> in
  (match cfg_messages cfg with [] => r | ms => r <| messages := ms |> end, o).

(** The tool state to restore, and its restoration in the order of the tools. *)
Definition tool_state (cfg : runConfig) : AnyMap :=
  if bool_decide (cfg_toolState cfg = ∅)
  then match cfg_snapshot cfg with Some s => snap_ToolState s | None => ∅ end
  else cfg_toolState cfg.
Definition restoreToolState (state : AnyMap) (w : W) : W :=
  foldl (λ w t, match state !! t.1 with Some v => t.2 v w | None => w end) w (statefulTools su).

Definition initializeRunExecution (cfg : runConfig) (parent newRunID : string) (now : Timestamp)
    : prog W unit :=
  update (λ s, s <| rs := (initial_state cfg parent newRunID now).1 |>
                 <| world := restoreToolState (tool_state cfg) (world s) |>
                 <| settings := run_settings cfg |>).

(** ** The prompt and the first request *)

(** Each guardrail may rewrite the prompt; the hook sees the rewritten one. *)
Fixpoint applyInputGuardrails (emitHooks : bool)
    (gs : list (string * (string → W → W * (string * option error)))) (prompt : string) : prog W (res string) :=
  match gs with
  | [] => Ret (Ok prompt)
  | (name, g) :: gs =>
    r <- callback (g prompt);;
    st <- get;;
    (if emitHooks then
       fireHook a (OnGuardrailEvaluated (buildRunContext st r.1) name
         (match r.2 with None => true | Some _ => false end) r.2)
     else Ret tt);;;
    match r.2 with
    | Some e => Ret (Err (EGuardrail name (Error e)))
    | None => applyInputGuardrails emitHooks gs r.1
    end
  end.

(** The contents of the dynamic prompts that are not empty; the cache of the agent
    only shares equal strings. *)
Fixpoint dynamic_prompts (fs : list (RunContext → W → W * res string)) (prompt : string)
    : prog W (res (list string)) :=
  match fs with
  | [] => Ret (Ok [])
  | f :: fs =>
    st <- get;;
    r <- callback (f (buildRunContext st prompt));;
    match r with
    | Err e => Ret (Err (EWrap "dynamic system prompt failed: " e ""))
    | Ok content =>
      cs <-? dynamic_prompts fs prompt;;
      Ret (Ok (if String.eqb content "" then cs else content :: cs))
    end
  end.

Definition kb_parts (prompt : string) : prog W (res (list RequestPart)) :=
  match knowledgeBase_Retrieve su with
  | None => Ret (Ok [])
  | Some retrieve =>
    r <- callback (retrieve prompt);;
    Ret (match r with
         | Err e => Err (EWrap "knowledge base retrieve failed: " e "")
         | Ok "" => Ok []
         | Ok content => Ok [SystemPromptPart ("[Knowledge Context] " +:+ content)]
         end)
  end.

Definition buildInitialRequestWithDynamic (prompt : string) (initialRequestParts : list RequestPart)
    : prog W (res (list RequestPart)) :=
  dyn <-? dynamic_prompts (dynamicSystemPrompts su) prompt;;
  kb <-? kb_parts prompt;;
  Ret (Ok ((SystemPromptPart <$> systemPrompts su) ++ (SystemPromptPart <$> dyn) ++ kb
    ++ [UserPromptPart prompt] ++ initialRequestParts)).

Definition bootstrapRunMessages (prompt : string) (deferredResults : list DeferredToolResult)
    (initialRequestParts : list RequestPart) : prog W (res unit) :=
  st <- get;;
  if negb (bool_decide (deferredResults = [])) && negb (bool_decide (messages st = [])) then
    locked (λ r, (r <| messages ::= λ ms, injectDeferredResults ms deferredResults |>, tt));;;
    Ret (Ok tt)
  else
    req <- buildInitialRequestWithDynamic prompt initialRequestParts;;
    match req with
    | Err e => Ret (Err (EWrap "failed to build initial request: " e ""))
    | Ok parts =>
      locked (λ r, (r <| messages ::= λ ms, ms ++ [ModelRequest parts] |>, tt));;;
      Ret (Ok tt)
    end.

(** ** Begin, end, and the whole run *)

Definition beginRun (prompt : string) : prog W unit :=
  st <- get;;
  publish a (RunStartedEvent prompt);;;
  fireHook a (OnRunStart (buildRunContext st prompt) prompt).

Definition endRun (prompt : string) (runErr : option RunError) : prog W unit :=
  st <- get;;
  match runErr with
  | Some e => publish a (ErrorRaisedEvent (runStep st) (RunError_Error e))
  | None => Ret tt
  end;;;
  publish a (RunCompletedEvent (match runErr with None => true | Some _ => false end)
    (isDeferredRunError runErr) (match runErr with None => "" | Some e => RunError_Error e end));;;
  fireHook a (OnRunEnd (buildRunContext st prompt) (messages st) (RunError_Error <$> runErr)).

(** Resolution events, after the start of the run. *)
Definition publish_resolved (deferredResults : list DeferredToolResult) : prog W unit :=
  update (λ s, if eventBus a && negb (bool_decide (deferredResults = []))
    then s <| events ::= λ l, l ++ RunResumedEvent ::
      ((λ d, DeferredResolvedEvent (dres_ToolCallID d) (dres_ToolName d) (dres_Content d) (dres_IsError d))
        <$> deferredResults) |>
    else s).

(** Everything before the first turn: the prompt the run works on, or the error. *)
Definition setup_run (cfg : runConfig) (parent newRunID : string) (now : Timestamp) (prompt : string)
    : prog W (res string) :=
  initializeRunExecution cfg parent newRunID now;;;
  prompt <-? applyInputGuardrails true (inputGuardrails su) prompt;;
  _ <-? bootstrapRunMessages prompt (cfg_deferredResults cfg) (cfg_initialRequestParts cfg);;
  beginRun prompt;;;
  publish_resolved (cfg_deferredResults cfg);;;
  Ret (Ok prompt).

Definition outcome_error (out : RunResult T + RunError) : option RunError :=
  match out with inl _ => None | inr e => Some e end.

(** [Run] without a steer queue; [None]: out of fuel. *)
Definition Run (fuel : nat) (cfg : runConfig) (parent newRunID : string) (now : Timestamp)
    (prompt : string) : prog W (option (RunResult T + RunError)) :=
  p <- setup_run cfg parent newRunID now prompt;;
  match p with
  | Err e => Ret (Some (inr (RunFailed e)))
  | Ok prompt =>
    out <- runLoop fuel prompt;;
    match out with
    | None => Ret None
    | Some out => endRun prompt (outcome_error out);;; Ret (Some out)
    end
  end.
End setup.
