(* ===== verification/AgentEvents.v ===== *)
(** * The events of a run

    Subscribers of the event bus see a run as [RunStarted], then turns, each of them
    [TurnStarted], the events of its tools, approvals and retries, and
    [TurnCompleted] with the same number, and [RunCompleted] at the end.  The proof
    is a frame argument: [acts R m] says that every action of [m] is in the preorder
    [R], and [inner_step] is the preorder of the actions inside a turn. *)

From S2P Require Import Prelude Errors Usage Messages Truncate AgentTypes AutoContext AgentTools AgentToolsSafety AgentLoop AgentLoopSpec AgentTurn AgentSafety Json Serialize Snapshot RunSetup.

(** ** Programs whose actions are in a relation *)

Section acts.
Context {W : Type} (R : St W → St W → Prop) `{!PreOrder R}.

Inductive acts {A} : prog W A → Prop :=
| acts_ret x : acts (Ret x)
| acts_act {X} (f : St W → St W * X) k : (∀ s, R s (f s).1) → (∀ x, acts (k x)) → acts (Act f k).

Lemma acts_bind {A B} (m : prog W A) (k : A → prog W B) :
  acts m → (∀ x, acts (k x)) → acts (bind m k).
Proof. intros Hm Hk. induction Hm; simpl; [apply Hk|by constructor]. Qed.

Lemma acts_atomic {X} (f : St W → St W * X) : (∀ s, R s (f s).1) → acts (act f).
Proof. intros Hf. constructor; [done|]. intros x. constructor. Qed.

Lemma acts_run {A} (m : prog W A) s : acts m → R s (run m s).1.
Proof.
  intros Hm. revert s. induction Hm as [x|X f k Hf Hk IH]; intros s; simpl; [reflexivity|].
  specialize (Hf s). destruct (f s) as [s1 x]. etrans; [exact Hf|apply IH].
Qed.

Lemma acts_act_inv {A X} (f : St W → St W * X) (k : X → prog W A) :
  acts (Act f k) → (∀ s, R s (f s).1) ∧ ∀ x, acts (k x).
Proof.
  intros H. refine (match H in acts p return
    match p with Act f k => (∀ s, R s (f s).1) ∧ ∀ x, acts (k x) | Ret _ => True end
    with acts_ret _ => I | acts_act _ _ Hf Hk => conj Hf Hk end).
Qed.
End acts.

Create HintDb acts.

(** ** What happens inside a turn *)

Definition inner_event (e : RunEvent) : Prop :=
  match e with
  | TurnStartedEvent _ | TurnCompletedEvent _ _ _ _ | RunStartedEvent _ | RunCompletedEvent _ _ _ => False
  | _ => True
  end.

(** The turn number stays, and only inner events are published. *)
Definition inner_step {W} (s s' : St W) : Prop :=
  runStep (rs s') = runStep (rs s) ∧ ∃ l, events s' = events s ++ l ∧ Forall inner_event l.

#[export] Instance inner_step_preorder {W} : PreOrder (inner_step (W := W)).
Proof.
  split.
  - intros s. split; [done|]. exists []. by rewrite app_nil_r.
  - intros s1 s2 s3 [H1 (l1 & E1 & F1)] [H2 (l2 & E2 & F2)]. split; [congruence|].
    exists (l1 ++ l2). rewrite E2, E1, app_assoc. split; [done|]. by apply Forall_app.
Qed.

Lemma inner_same {W} (s s' : St W) :
  runStep (rs s') = runStep (rs s) → events s' = events s → inner_step s s'.
Proof. intros H1 H2. split; [done|]. exists []. by rewrite app_nil_r. Qed.

Abbreviation inner := (acts inner_step).

(** Follows the structure of a program. *)
Ltac solve_acts :=
  repeat match goal with
  | |- acts _ (bind _ _) => apply acts_bind; [|intros ?]
  | |- acts _ (match ?x with _ => _ end) => destruct x
  | |- acts _ (let _ := _ in _) => cbv zeta
  | |- acts _ (Ret _) => constructor
  | |- _ => progress eauto with acts
  end.

Section inner.
Context {W T : Type}.
Context (json_marshal : ToolValue → res string).
Context (json_object_ok : string → bool).
Context (unmarshal_wrapper : string → res (gmap string string)).
Context (unmarshal_T : string → res T).
Context (string_as_T : string → option T).
Context (type_name_T : string).
Context (ctx_Err : W → option error).
Context (a : Agent W T).

Lemma inner_callback {X} (f : W → W * X) : inner (callback f).
Proof. apply acts_atomic. intros s. destruct (f (world s)). by apply inner_same. Qed.
Lemma inner_fireHook h : inner (fireHook a h).
Proof. apply inner_callback. Qed.
Lemma inner_publish e : inner_event e → inner (publish a e).
Proof.
  intros He. apply acts_atomic. intros s. simpl. destruct (eventBus a); [|by apply inner_same].
  split; [done|]. exists [e]. by repeat constructor.
Qed.
Lemma inner_locked {X} (f : RunState → RunState * X) :
  (∀ r, runStep (f r).1 = runStep r) → inner (locked (W := W) f).
Proof. intros Hf. apply acts_atomic. intros s. specialize (Hf (rs s)). destruct (f (rs s)). by apply inner_same. Qed.
Lemma inner_get : inner (get (W := W)).
Proof. apply acts_atomic. intros s. by apply inner_same. Qed.
Hint Resolve inner_callback inner_fireHook inner_get : acts.
Hint Extern 1 (acts _ (publish _ _)) => apply inner_publish; exact I : acts.
Hint Extern 1 (acts _ (locked _)) => apply inner_locked; intros ?; reflexivity : acts.

(** Tools. *)
Lemma inner_bump name : inner (bump_tool_retries (W := W) name).
Proof. unfold bump_tool_retries. solve_acts. Qed.
Hint Resolve inner_bump : acts.
Lemma inner_wait : inner (locked (W := W) beginApprovalWait).
Proof. by apply inner_locked. Qed.
Lemma inner_wake : inner (locked (W := W) endApprovalWait).
Proof. apply inner_locked. intros r. unfold endApprovalWait. by destruct (_ =? 0). Qed.
Hint Resolve inner_wait inner_wake : acts.
Lemma inner_approve c tool : inner (approve a c tool).
Proof. unfold approve. solve_acts. Qed.
Lemma inner_report_end c rc r : inner (report_end json_marshal a c rc r).
Proof. unfold report_end. solve_acts. Qed.
Lemma inner_handler_failed c maxR e : inner (handler_failed (W := W) c maxR e).
Proof. unfold handler_failed. solve_acts. Qed.
Lemma inner_run_validators c rc maxR content vs : inner (run_validators (W := W) c rc maxR content vs).
Proof. induction vs; cbn [run_validators]; solve_acts. Qed.
Hint Resolve inner_approve inner_report_end inner_handler_failed inner_run_validators : acts.
Lemma inner_handler_returned c tool rc maxR v : inner (handler_returned json_marshal a c tool rc maxR v).
Proof. unfold handler_returned. solve_acts. Qed.
Hint Resolve inner_handler_returned : acts.
Lemma inner_start_call c maxR prompt : inner (start_call (W := W) c maxR prompt).
Proof. by apply inner_locked. Qed.
Hint Resolve inner_start_call : acts.
Lemma inner_executeSingleTool c tool prompt : inner (executeSingleTool json_marshal a c tool prompt).
Proof. unfold executeSingleTool. solve_acts. Qed.
Hint Resolve inner_executeSingleTool : acts.

(** A pool whose threads are inner. *)
Definition inner_thread (t : thread (W := W)) : Prop :=
  match t with TRun m => inner m | _ => True end.

Lemma inner_cancelled c e s : inner_step s (cancelled_waiting a c e s).1.
Proof.
  unfold cancelled_waiting. simpl. destruct (eventBus a); [|reflexivity].
  split; [done|]. eexists. split; [done|]. by repeat constructor.
Qed.

Lemma inner_thread_step prompt stop n t s : inner_thread t →
  inner_step s (thread_step json_marshal ctx_Err a prompt stop n t s).1 ∧
  inner_thread (thread_step json_marshal ctx_Err a prompt stop n t s).2.
Proof.
  intros Ht. destruct t as [ic|[o|X f k]|o]; cbn [thread_step].
  - pose proof (inner_executeSingleTool ic.1 ic.2 prompt) as Hi.
    destruct (maxConcurrency a >? 0); [|by split].
    destruct (ctx_Err (world s)) as [e|]; [|by destruct (n <? maxConcurrency a); split].
    destruct (stop || _); [|by split]. pose proof (inner_cancelled ic.1 e s) as Hc.
    by destruct (cancelled_waiting a ic.1 e s).
  - by split.
  - apply acts_act_inv in Ht as [Hf Hk]. specialize (Hf s). destruct (f s) as [s1 x]. split; [exact Hf|apply Hk].
  - by split.
Qed.

Lemma inner_schedule prompt sched ts s : Forall inner_thread ts →
  inner_step s (run_schedule json_marshal ctx_Err a prompt sched ts s).1 ∧
  Forall inner_thread (run_schedule json_marshal ctx_Err a prompt sched ts s).2.
Proof.
  revert ts s. induction sched as [|[i stop] sched IH]; intros ts s Hts; cbn [run_schedule]; [by split|].
  unfold pool_step. destruct (ts !! i) as [t|] eqn:Hi; [|by apply IH].
  destruct (inner_thread_step prompt stop (running ts) t s) as [H1 H2]; [by eapply Forall_lookup_1|].
  destruct (thread_step _ _ _ _ _ _ t s) as [s1 t1].
  destruct (IH (<[i := t1]> ts) s1) as [H3 H4]; [by apply Forall_insert|]. split; [|done].
  by etrans.
Qed.

Lemma inner_map_state {A B} (f : A → St W → St W * B) (P : A → Prop) (Q : B → Prop) l s :
  (∀ x s, P x → inner_step s (f x s).1 ∧ Q (f x s).2) → Forall P l →
  inner_step s (map_state f l s).1 ∧ Forall Q (map_state f l s).2.
Proof.
  intros Hf Hl. revert s. induction Hl as [|x l Hx _ IH]; intros s; cbn [map_state]; [by split|].
  destruct (Hf x s Hx) as [H1 H2]. destruct (f x s) as [s1 y]. destruct (IH s1) as [H3 H4].
  destruct (map_state f l s1) as [s2 ys]. split; [by etrans|by constructor].
Qed.

Lemma inner_run_concurrent prompt calls s :
  inner_step s (run_concurrent json_marshal ctx_Err a prompt calls s).1.
Proof.
  unfold run_concurrent. set (sched := default [] _). set (s0 := s <| schedules ::= tail |>).
  assert (inner_step s s0) as H0 by (by apply inner_same).
  destruct (inner_schedule prompt sched (TWait <$> calls) s0) as [H1 H2].
  { by apply Forall_fmap, Forall_true. }
  destruct (run_schedule _ _ _ _ _ _ s0) as [s1 ts].
  destruct (inner_map_state finish_running inner_thread inner_thread ts s1) as [H3 H4]; [|done|].
  { intros t s2 Ht. destruct t as [| m |]; simpl; [by split| |by split].
    pose proof (acts_run inner_step m s2 Ht). by destruct (run m s2). }
  destruct (map_state _ ts s1) as [s2 ts2].
  destruct (inner_map_state (finish_thread json_marshal a prompt) inner_thread (λ _, True) ts2 s2)
    as [H5 _]; [|done|].
  { intros t s3 Ht. split; [|done]. destruct t as [ic|m|o]; cbn [finish_thread]; [..|reflexivity].
    - apply (acts_run inner_step), inner_executeSingleTool.
    - by apply (acts_run inner_step). }
  etrans; [exact H0|]. etrans; [exact H1|]. by etrans; [exact H3|].
Qed.

Lemma inner_pending calls msg s : inner_step s (publishPendingFailures a calls msg s).
Proof.
  unfold publishPendingFailures. destruct (eventBus a); [|reflexivity]. split; [done|].
  eexists. split; [done|]. apply Forall_forall. intros e (ic & He & _)%list_elem_of_bind.
  set_unfold. by destruct He as [->|[->|[]]].
Qed.

Lemma inner_run_exclusive prompt calls later s :
  inner_step s (run_exclusive json_marshal ctx_Err a prompt calls later s).1.
Proof.
  revert s. induction calls as [|ic calls IH]; intros s; cbn [run_exclusive]; [reflexivity|].
  destruct (ctx_Err (world s)); [apply inner_pending|].
  pose proof (acts_run inner_step _ s (inner_executeSingleTool ic.1 ic.2 prompt)) as H1.
  destruct (run _ s) as [s1 o]. specialize (IH s1). destruct o; [| |done];
    destruct (run_exclusive _ _ _ _ _ _ s1); by etrans.
Qed.

Lemma inner_run_batches prompt bs s :
  inner_step s (run_batches json_marshal ctx_Err a prompt bs s).1.
Proof.
  revert s. induction bs as [|b bs IH]; intros s; cbn [run_batches]; [reflexivity|].
  destruct (ctx_Err (world s)); [apply inner_pending|].
  set (p := if batch_safe b then _ else _).
  assert (inner_step s p.1) as H1.
  { subst p. destruct (batch_safe b); [|apply inner_run_exclusive].
    pose proof (inner_run_concurrent prompt (batch_calls b) s) as H.
    by destruct (run_concurrent _ _ _ _ _ s). }
  destruct p as [s1 [os|e]]; [|done]. specialize (IH s1).
  destruct (run_batches _ _ _ _ bs s1); by etrans.
Qed.

(** The response and its calls. *)
Lemma inner_try_repair f raw prompt name id e : inner (try_repair a f raw prompt name id e).
Proof. unfold try_repair. solve_acts. Qed.
Hint Resolve inner_try_repair : acts.
Lemma inner_validateOutput rc output vs : inner (validateOutput (W := W) (T := T) rc output vs).
Proof. revert output. induction vs; intros; cbn [validateOutput]; solve_acts. Qed.
Hint Resolve inner_validateOutput : acts.
Lemma inner_validate rc output : inner (validate a rc output).
Proof. unfold validate. solve_acts. Qed.
Lemma inner_increment : inner (increment_retries json_object_ok a).
Proof. unfold increment_retries. apply inner_locked. intros r. by destruct (incrementRetries _ _ _ _). Qed.
Lemma inner_record reason name id : inner (recordRetryScheduled a reason name id).
Proof. unfold recordRetryScheduled. solve_acts. Qed.
Hint Resolve inner_validate inner_increment inner_record : acts.
Lemma inner_schedule_retry reason name id : inner (schedule_retry json_object_ok a reason name id).
Proof. unfold schedule_retry. solve_acts. Qed.
Lemma inner_parse_text text prompt :
  inner (parse_text unmarshal_wrapper unmarshal_T string_as_T type_name_T a text prompt).
Proof. unfold parse_text. solve_acts. Qed.
Lemma inner_parse_call c prompt : inner (parse_call unmarshal_wrapper unmarshal_T a c prompt).
Proof. unfold parse_call. solve_acts. Qed.
Hint Resolve inner_schedule_retry inner_parse_text inner_parse_call : acts.
Lemma inner_text_output text prompt : inner (text_output json_object_ok unmarshal_wrapper unmarshal_T
  string_as_T type_name_T a text prompt).
Proof. unfold text_output. solve_acts. Qed.
Lemma inner_empty_response resp : inner (empty_response json_object_ok a resp : prog W (res (Processed T))).
Proof. unfold empty_response. solve_acts. Qed.
Lemma inner_unknown_parts calls : inner (unknown_parts a calls).
Proof. induction calls; cbn [unknown_parts]; solve_acts. Qed.
Hint Resolve inner_text_output inner_empty_response inner_unknown_parts : acts.
Lemma inner_handle_unknown calls : inner (handle_unknown json_object_ok a calls).
Proof. unfold handle_unknown. solve_acts. Qed.
Lemma inner_output_call c prompt : inner (output_call json_object_ok unmarshal_wrapper unmarshal_T a c prompt).
Proof. unfold output_call. solve_acts. Qed.
Hint Resolve inner_handle_unknown inner_output_call : acts.
Lemma inner_output_loop calls prompt result parts :
  inner (output_loop json_object_ok unmarshal_wrapper unmarshal_T a calls prompt result parts).
Proof. revert result parts. induction calls; intros; cbn [output_loop]; solve_acts. Qed.
Hint Resolve inner_output_loop : acts.
Lemma inner_function_calls calls prompt : inner (function_calls json_marshal ctx_Err a calls prompt).
Proof.
  unfold function_calls. solve_acts; try (apply acts_atomic; intros s; apply inner_run_batches).
Qed.
Hint Resolve inner_function_calls : acts.
Lemma inner_process_calls calls prompt : inner (process_calls json_marshal json_object_ok
  unmarshal_wrapper unmarshal_T ctx_Err a calls prompt).
Proof. unfold process_calls. solve_acts. Qed.
Hint Resolve inner_process_calls : acts.
Lemma inner_processResponse resp prompt : inner (processResponse json_marshal json_object_ok
  unmarshal_wrapper unmarshal_T string_as_T type_name_T ctx_Err a resp prompt).
Proof. unfold processResponse. solve_acts. Qed.
Hint Resolve inner_processResponse : acts.

(** The parts of a turn. *)
Lemma inner_prepare_each rc ts : inner (prepare_each (W := W) rc ts).
Proof. induction ts; cbn [prepare_each]; solve_acts. Qed.
Hint Resolve inner_prepare_each : acts.
Lemma inner_prepareTools ts prompt : inner (prepareTools a ts prompt).
Proof. unfold prepareTools. solve_acts. Qed.
Lemma inner_inject : inner (inject_tool_choice a).
Proof. apply acts_atomic. intros s. simpl. repeat case_match; simplify_eq/=; by apply inner_same. Qed.
Lemma inner_compactions rc cs : inner (fire_compactions a rc cs).
Proof. induction cs; cbn [fire_compactions]; solve_acts. Qed.
Hint Resolve inner_prepareTools inner_inject inner_compactions : acts.
Lemma inner_compress rc : inner (compress_history a rc).
Proof. unfold compress_history. solve_acts. Qed.
Lemma inner_processors rc procs msgs : inner (run_history_processors a rc procs msgs).
Proof. revert msgs. induction procs; intros; cbn [run_history_processors]; solve_acts. Qed.
Lemma inner_message_interceptors ints msgs : inner (runMessageInterceptors (W := W) ints msgs).
Proof. revert msgs. induction ints; intros; cbn [runMessageInterceptors]; solve_acts. Qed.
Lemma inner_response_interceptors ints resp : inner (runResponseInterceptors (W := W) ints resp).
Proof. revert resp. induction ints; intros; cbn [runResponseInterceptors]; solve_acts. Qed.
Lemma inner_guardrails rc msgs gs : inner (run_guardrails a rc msgs gs).
Proof. induction gs as [|[]]; cbn [run_guardrails]; solve_acts. Qed.
Lemma inner_conditions rc resp cs : inner (check_conditions a rc resp cs).
Proof. induction cs; cbn [check_conditions]; solve_acts. Qed.
Lemma inner_keep_settings ms resp : inner (keep_settings a ms resp).
Proof. apply acts_atomic. intros s. by apply inner_same. Qed.
Lemma inner_append_response rc resp : inner (append_response a rc resp).
Proof. unfold append_response. solve_acts. Qed.
Hint Resolve inner_compress inner_processors inner_message_interceptors inner_response_interceptors
  inner_guardrails inner_conditions inner_keep_settings inner_append_response : acts.
Lemma inner_prepare_request prompt rc : inner (prepare_request a prompt rc).
Proof. unfold prepare_request. solve_acts. Qed.
Lemma inner_model_request rc rc' msgs ms params : inner (model_request a rc rc' msgs ms params).
Proof.
  unfold model_request. solve_acts. apply inner_locked. intros r. simpl.
  by destruct (InputTokens (resp_Usage a0) >? 0).
Qed.
Hint Resolve inner_prepare_request inner_model_request : acts.

(** ** A turn opens and closes *)

Context (Hbus : eventBus a = true).

Definition turn_open (s s' : St W) : Prop :=
  runStep (rs s') = runStep (rs s) + 1 ∧
  ∃ l, events s' = events s ++ TurnStartedEvent (runStep (rs s')) :: l ∧ Forall inner_event l.
Definition turn_closed (s s' : St W) : Prop :=
  runStep (rs s') = runStep (rs s) + 1 ∧
  ∃ l b1 b2 err l', events s' = events s ++ TurnStartedEvent (runStep (rs s')) :: l
      ++ TurnCompletedEvent (runStep (rs s')) b1 b2 err :: l' ∧
    Forall inner_event l ∧ Forall inner_event l'.

Lemma wp_inner {A} (m : prog W A) (Q : A → St W → Prop) s :
  inner m → (∀ x s', inner_step s s' → Q x s') → wp m Q s.
Proof. intros Hm HQ. apply wp_intro. intros s' x E. apply HQ. pose proof (acts_run inner_step m s Hm). by rewrite E in H. Qed.

Lemma turn_open_step s s1 s2 : turn_open s s1 → inner_step s1 s2 → turn_open s s2.
Proof.
  intros [H1 (l & E & F)] [H2 (l' & E' & F')]. split; [congruence|]. exists (l ++ l').
  rewrite E', E, H2, <-app_assoc. split; [done|]. by apply Forall_app.
Qed.
Lemma turn_closed_step s s1 s2 : turn_closed s s1 → inner_step s1 s2 → turn_closed s s2.
Proof.
  intros [H1 (l & b1 & b2 & err & l1 & E & F & F1)] [H2 (l' & E' & F')]. split; [congruence|].
  exists l, b1, b2, err, (l1 ++ l'). rewrite E', E, H2, <-app_assoc. simpl. rewrite <-app_assoc.
  split_and!; [done..|]. by apply Forall_app.
Qed.

Lemma wp_close {A} resp e (k : prog W A) (Q : A → St W → Prop) s s1 :
  turn_open s s1 → (∀ s2, turn_closed s s2 → wp k Q s2) →
  wp (bind (emitTurnCompleted a resp e) (λ _, k)) Q s1.
Proof.
  intros [H1 (l & E & F)] HQ. apply wp_bind. unfold emitTurnCompleted. apply wp_bind, wp_act. cbn.
  apply wp_act. rewrite Hbus. apply HQ. split; [done|]. do 4 eexists. exists []. cbn.
  rewrite E, <-app_assoc. by split_and!.
Qed.

Lemma wp_failed s s1 resp e : turn_open s s1 →
  wp (turn_failed a resp e : prog W (StepResult T)) (λ _, turn_closed s) s1.
Proof. intros Ho. eapply wp_close; [done|]. intros s2 H2. by apply wp_ret. Qed.

(** One inner program after the other, inside an open turn. *)
Ltac inner_steps :=
  repeat match goal with
  | Ho : turn_open ?s ?s1 |- wp (bind (emitTurnCompleted _ _ _) _) _ ?s1 => fail 1
  | Ho : turn_open ?s ?s1 |- wp (bind _ _) _ ?s1 =>
    let x := fresh "x" in let s2 := fresh "s" in let H := fresh in
    apply wp_bind; apply wp_inner; [solve [solve_acts]|]; intros x s2 H;
    apply (turn_open_step _ _ _ Ho) in H; clear Ho; rename H into Ho
  end.

Lemma wp_finish_turn_events turnRC resp p s s1 : turn_open s s1 →
  wp (finish_turn a turnRC resp p : prog W (StepResult T)) (λ _, turn_closed s) s1.
Proof.
  intros Ho. unfold finish_turn. inner_steps. destruct p as [p|e].
  2: { inner_steps. by apply wp_failed. }
  inner_steps. destruct (deferredReqs p) as [|d ds].
  - inner_steps. destruct (final p) as [fr|].
    + inner_steps. destruct x2 as [e|]; [by apply wp_failed|].
      eapply wp_close; [done|]. intros s5 H5. apply wp_bind, wp_inner; [unfold buildRunResult; solve_acts|].
      intros r s6 H6. apply wp_ret. by eapply turn_closed_step.
    + eapply wp_close; [done|]. intros s5 H5. by apply wp_ret.
  - inner_steps. eapply wp_close; [done|]. intros s5 H5. rewrite Hbus.
    apply wp_bind, wp_act, wp_bind, wp_act, wp_ret. eapply turn_closed_step; [exact H5|].
    split; [done|]. eexists. split; [done|]. apply Forall_app; split; [|by repeat constructor].
    apply Forall_fmap, Forall_true. done.
Qed.

Abbreviation turn := (turn json_marshal json_object_ok unmarshal_wrapper unmarshal_T string_as_T
  type_name_T ctx_Err a).
Abbreviation Step := (Step json_marshal json_object_ok unmarshal_wrapper unmarshal_T string_as_T
  type_name_T ctx_Err a).
Abbreviation runLoop := (runLoop json_marshal json_object_ok unmarshal_wrapper unmarshal_T string_as_T
  type_name_T ctx_Err a).
Abbreviation Run := (Run json_marshal json_object_ok unmarshal_wrapper unmarshal_T string_as_T
  type_name_T ctx_Err a).

Lemma wp_handle_response_events prompt turnRC resp s s1 : turn_open s s1 →
  wp (handle_response json_marshal json_object_ok unmarshal_wrapper unmarshal_T string_as_T
    type_name_T ctx_Err a prompt turnRC resp) (λ _, turn_closed s) s1.
Proof.
  intros Ho. unfold handle_response. inner_steps.
  destruct (if HasTokenLimits _ then _ else _) as [e|]; [by apply wp_failed|].
  inner_steps. destruct x0 as [reason|].
  - destruct (condition_output _ _ _ _ _) as [output|]; [|by apply wp_failed].
    eapply wp_close; [done|]. intros s5 H5. apply wp_bind, wp_inner; [unfold buildRunResult; solve_acts|].
    intros r s6 H6. apply wp_ret. by eapply turn_closed_step.
  - inner_steps. by apply wp_finish_turn_events.
Qed.

(** A turn leaves the events alone when a limit stops it, and is opened and closed
    once otherwise. *)
Definition turn_events (s s' : St W) : Prop := s' = s ∨ turn_closed s s'.

Lemma wp_turn_events prompt s : wp (turn prompt) (λ _, turn_events s) s.
Proof.
  unfold AgentLoop.turn. apply wp_bind, wp_act. cbn [fst snd].
  destruct (check_limits ctx_Err a s) as [e|]; [apply wp_ret; by left|].
  apply wp_bind, wp_locked, wp_bind, wp_act. cbn [fst snd]. cbv zeta.
  apply wp_bind, wp_callback, wp_bind, wp_act. rewrite Hbus. cbn [fst snd].
  match goal with |- wp _ _ ?s1 => assert (turn_open s s1) as Ho end.
  { split; [apply Z.add_comm|]. by exists []. }
  eapply wp_mono; [|intros o s' H'; right; exact H']. revert Ho.
  match goal with |- turn_open s ?s1 → _ => generalize s1 end. intros s1 Ho.
  inner_steps. destruct x as [[[msgs ms] params]|e].
  2: { apply wp_bind. eapply wp_mono; [by apply wp_failed|]. intros out s9 H9. by apply wp_ret. }
  inner_steps. destruct x0 as [resp|e].
  2: { apply wp_bind. eapply wp_mono; [by apply wp_failed|]. intros out s9 H9. by apply wp_ret. }
  inner_steps. destruct x0 as [[|] resp'].
  - eapply wp_close; [done|]. intros s9 H9. by apply wp_ret.
  - inner_steps. apply wp_bind. eapply wp_mono; [by apply wp_handle_response_events|].
    intros out s9 H9. by apply wp_ret.
Qed.

(** ** The log of the turns of a run

    [turn_log n l n']: [l] is a sequence of turns numbered from [n + 1] to [n']. *)
Inductive turn_log : Z → list RunEvent → Z → Prop :=
| no_turns n : turn_log n [] n
| more_turns n l b1 b2 err l' rest n' :
    Forall inner_event l → Forall inner_event l' → turn_log (n + 1) rest n' →
    turn_log n (TurnStartedEvent (n + 1) :: l ++ TurnCompletedEvent (n + 1) b1 b2 err :: l' ++ rest) n'.

Lemma turn_log_app n1 l n2 l' n3 : turn_log n1 l n2 → turn_log n2 l' n3 → turn_log n1 (l ++ l') n3.
Proof.
  induction 1; intros Hl'; [done|]. cbn. rewrite <-app_assoc. cbn. rewrite <-app_assoc.
  constructor; auto.
Qed.

(** The events published from [s] to [s'] are a log of the turns in between. *)
Definition logged (s s' : St W) : Prop :=
  ∃ l, events s' = events s ++ l ∧ turn_log (runStep (rs s)) l (runStep (rs s')).

Lemma logged_refl s : logged s s.
Proof. exists []. rewrite app_nil_r. split; [done|constructor]. Qed.
Lemma logged_trans s1 s2 s3 : logged s1 s2 → logged s2 s3 → logged s1 s3.
Proof.
  intros (l & E & L) (l' & E' & L'). exists (l ++ l'). rewrite E', E, app_assoc.
  split; [done|]. by eapply turn_log_app.
Qed.
Lemma logged_turn s s' : turn_events s s' → logged s s'.
Proof.
  intros [->|[H1 (l & b1 & b2 & err & l' & E & F & F')]]; [apply logged_refl|].
  rewrite H1 in E. eexists. split; [exact E|]. rewrite H1, <-(app_nil_r l').
  constructor; [done..|constructor].
Qed.

Lemma wp_Step_logged fuel prompt s : wp (Step fuel prompt) (λ _, logged s) s.
Proof.
  revert s. induction fuel as [|fuel IH]; intros s; cbn [AgentLoop.Step].
  { apply wp_ret, logged_refl. }
  apply wp_bind. eapply wp_mono; [apply wp_turn_events|]. intros [out|] s1 H1%logged_turn.
  - by apply wp_ret.
  - eapply wp_mono; [apply IH|]. intros ? s2 H2. by eapply logged_trans.
Qed.

Lemma wp_runLoop_logged fuel prompt s : wp (runLoop fuel prompt) (λ _, logged s) s.
Proof.
  revert s. induction fuel as [|fuel IH]; intros s; cbn [AgentLoop.runLoop].
  { apply wp_ret, logged_refl. }
  apply wp_bind. eapply wp_mono; [apply wp_Step_logged|].
  intros [[]|] s1 H1; try (by apply wp_ret).
  eapply wp_mono; [apply IH|]. intros ? s2 H2. by eapply logged_trans.
Qed.

(** ** The whole run *)

Context (su : AgentSetup W).

(** The setup publishes nothing before the start of the run. *)
Definition silent (s s' : St W) : Prop := events s' = events s.
#[local] Instance silent_preorder : PreOrder silent.
Proof. split; unfold silent; [by intros s|intros s1 s2 s3; congruence]. Qed.

Lemma silent_callback {X} (f : W → W * X) : acts silent (callback f).
Proof. apply acts_atomic. intros s. unfold silent. by destruct (f (world s)). Qed.
Lemma silent_locked {X} (f : RunState → RunState * X) : acts silent (locked (W := W) f).
Proof. apply acts_atomic. intros s. unfold silent. by destruct (f (rs s)). Qed.
Lemma silent_get : acts silent (get (W := W)).
Proof. by apply acts_atomic. Qed.
Lemma silent_fireHook h : acts silent (fireHook a h).
Proof. apply silent_callback. Qed.
Hint Resolve silent_callback silent_locked silent_get silent_fireHook : acts.
Lemma silent_initialize cfg parent rid now : acts silent (initializeRunExecution su cfg parent rid now).
Proof. by apply acts_atomic. Qed.
Lemma silent_guardrails b gs prompt : acts silent (applyInputGuardrails a b gs prompt).
Proof. revert prompt. induction gs as [|[]]; intros; destruct b; cbn [applyInputGuardrails]; solve_acts. Qed.
Lemma silent_dynamic fs prompt : acts silent (dynamic_prompts fs prompt).
Proof. induction fs; cbn [dynamic_prompts]; solve_acts. Qed.
Hint Resolve silent_initialize silent_guardrails silent_dynamic : acts.
Lemma silent_bootstrap prompt drs ps : acts silent (bootstrapRunMessages su prompt drs ps).
Proof. unfold bootstrapRunMessages, buildInitialRequestWithDynamic, kb_parts. solve_acts. Qed.
Hint Resolve silent_bootstrap : acts.

Lemma wp_silent {A} (m : prog W A) (Q : A → St W → Prop) s :
  acts silent m → (∀ x s', silent s s' → Q x s') → wp m Q s.
Proof. intros Hm HQ. apply wp_intro. intros s' x E. apply HQ. pose proof (acts_run silent m s Hm). by rewrite E in H. Qed.

(** What the setup has published: nothing when it failed; the start of the run and the
    resolution of deferred calls when it succeeded. *)
Lemma wp_setup_run cfg parent rid now prompt s :
  wp (setup_run a su cfg parent rid now prompt) (λ r s', match r with
    | Err _ => events s' = events s
    | Ok p => ∃ pre, events s' = events s ++ RunStartedEvent p :: pre ∧ Forall inner_event pre
    end) s.
Proof.
  unfold setup_run. apply wp_bind, wp_silent; [auto with acts|]. intros _ s1 H1.
  apply wp_bind, wp_silent; [auto with acts|]. intros [p|e] s2 H2.
  2: { apply wp_ret. by rewrite H2, H1. }
  apply wp_bind, wp_silent; [auto with acts|]. intros [u|e] s3 H3.
  2: { apply wp_ret. by rewrite H3, H2, H1. }
  apply wp_bind. unfold beginRun. apply wp_bind, wp_act. cbn [fst snd].
  apply wp_bind, wp_act. rewrite Hbus. cbn [fst snd]. apply wp_callback.
  apply wp_bind, wp_act. rewrite Hbus. cbn [fst snd]. apply wp_ret. cbn [andb].
  assert (events s3 = events s) as E by (by rewrite H3, H2, H1).
  destruct (bool_decide (cfg_deferredResults cfg = [])); cbn; rewrite E.
  - by exists [].
  - eexists. rewrite <-app_assoc. split; [done|]. constructor; [done|]. by apply Forall_fmap, Forall_true.
Qed.

(** C35: subscribers see a well-bracketed run: a run whose setup fails publishes
    nothing; any other publishes exactly one RunStarted first, then turns with
    consecutive numbers, each opened and closed exactly once and none inside another,
    then ErrorRaised if it failed, and exactly one RunCompleted last, whose flags tell
    success and deferral truly. *)
Theorem run_events_bracketed fuel cfg parent rid now prompt s s' out :
  events s = [] → run (Run su fuel cfg parent rid now prompt) s = (s', Some out) →
  (events s' = [] ∧ ∃ e, out = inr (RunFailed e)) ∨
  ∃ p pre n l n' raised,
    events s' = RunStartedEvent p :: pre ++ l ++ raised ++
      [RunCompletedEvent (match out with inl _ => true | inr _ => false end)
         (isDeferredRunError (outcome_error out))
         (match out with inl _ => "" | inr e => RunError_Error e end)] ∧
    Forall inner_event pre ∧ turn_log n l n' ∧
    match out with
    | inl _ => raised = []
    | inr e => raised = [ErrorRaisedEvent n' (RunError_Error e)]
    end.
Proof.
  intros Hs Hrun. refine (wp_run _ (λ o s', ∀ out, o = Some out → _) _ _ _ _ Hrun _ eq_refl). clear Hrun s' out.
  unfold RunSetup.Run. apply wp_bind. eapply wp_mono; [apply wp_setup_run|].
  intros [p|e] s1 H1; [|apply wp_ret; intros out [= <-]; rewrite H1; left; eauto].
  destruct H1 as (pre & E1 & Fpre). rewrite Hs in E1.
  apply wp_bind. eapply wp_mono; [apply wp_runLoop_logged|].
  intros [out|] s2 (l & E2 & L2); [|by apply wp_ret].
  apply wp_bind. unfold endRun. apply wp_bind, wp_act. cbn [fst snd]. cbv zeta.
  apply wp_bind. destruct out as [r|e]; cbn [outcome_error].
  - apply wp_ret, wp_bind, wp_act. rewrite Hbus. cbn [fst snd]. apply wp_callback, wp_ret.
    intros out [= <-]. right. exists p, pre, (runStep (rs s1)), l, (runStep (rs s2)), []. cbn.
    rewrite E2, E1, <-!app_assoc. by split_and!.
  - apply wp_act. rewrite Hbus. cbn [fst snd]. apply wp_bind, wp_act. rewrite Hbus. cbn [fst snd].
    apply wp_callback, wp_ret.
    intros out [= <-]. right. exists p, pre, (runStep (rs s1)), l, (runStep (rs s2)),
      [ErrorRaisedEvent (runStep (rs s2)) (RunError_Error e)]. cbn.
    rewrite E2, E1, <-!app_assoc. by split_and!.
Qed.
End inner.

(** ** Witness: a run with two tool calls and a final text *)

Module Logs.
Definition setup : AgentSetup nat := MkAgentSetup [] [] None [] None DefaultUsageLimits [].
Definition config : runConfig := MkRunConfig None None [] None [] [] ∅.
Definition result : St nat * option (RunResult string + RunError) :=
  run (Run Demo.marshal (λ _, true) Scripts.no_json Scripts.parse Some "string" Demo.no_cancel
    Scripts.plain_agent setup 5 config "" "run-1" (At 1) "go") Scripts.start.
End Logs.

Lemma run_events_bracketed_witness :
  ∃ p pre n l n', events Logs.result.1 = RunStartedEvent p :: pre ++ l ++ [RunCompletedEvent true false ""] ∧
    Forall inner_event pre ∧ turn_log n l n'.
Proof.
  assert (Hr : ∃ out, Logs.result.2 = Some (inl out)) by (vm_compute; eexists; reflexivity).
  destruct Hr as [out Hr].
  destruct (run_events_bracketed Demo.marshal (λ _, true) Scripts.no_json Scripts.parse Some "string"
    Demo.no_cancel Scripts.plain_agent eq_refl Logs.setup 5 Logs.config "" "run-1" (At 1) "go"
    Scripts.start Logs.result.1 (inl out) eq_refl) as [[_ [e He]]|(p & pre & n & l & n' & raised & E & F & L & Hx)].
  - rewrite <- Hr. unfold Logs.result. apply surjective_pairing.
  - discriminate He.
  - subst raised. exists p, pre, n, l, n'. split; [exact E|]. split; [exact F|exact L].
Defined.
