(* ===== verification/RunSafety.v ===== *)
(** * Properties of whole runs

    [Run] from its options to its result: what the first request holds, that a run
    with a request limit ends, and that its history stays paired, also when a
    deferred run is resumed with the missing results. *)

From S2P Require Import Prelude Errors Usage Messages Truncate AgentTypes AutoContext AgentTools AgentToolsSafety AgentLoop AgentLoopSpec AgentTurn AgentSafety Json Serialize Snapshot RunSetup.

Section runs.
Context {W T : Type}.
Context (json_marshal : ToolValue → res string).
Context (json_object_ok : string → bool).
Context (unmarshal_wrapper : string → res (gmap string string)).
Context (unmarshal_T : string → res T).
Context (string_as_T : string → option T).
Context (type_name_T : string).
Context (ctx_Err : W → option error).
Context (a : Agent W T) (su : AgentSetup W).

Local Abbreviation Run := (Run json_marshal json_object_ok unmarshal_wrapper unmarshal_T string_as_T
  type_name_T ctx_Err a su).

Lemma quiet_input_guardrails b gs prompt : quiet (applyInputGuardrails a b gs prompt).
Proof. revert prompt. induction gs as [|[]]; intros; destruct b; cbn [applyInputGuardrails]; solve_quiet. Qed.
Lemma quiet_dynamic fs prompt : quiet (dynamic_prompts (W := W) fs prompt).
Proof. induction fs; cbn [dynamic_prompts]; solve_quiet. Qed.
Lemma quiet_kb prompt : quiet (kb_parts su prompt).
Proof. unfold kb_parts. solve_quiet. Qed.
Hint Resolve quiet_input_guardrails quiet_dynamic quiet_kb : quiet.
Lemma quiet_begin prompt : quiet (beginRun a prompt).
Proof. unfold beginRun. solve_quiet. Qed.
Lemma quiet_resolved drs : quiet (publish_resolved a drs).
Proof. intros s. cbn. by destruct (_ && _). Qed.
Lemma quiet_end prompt e : quiet (endRun a prompt e).
Proof. unfold endRun. solve_quiet. Qed.
Hint Resolve quiet_begin quiet_resolved quiet_end : quiet.

(** The history after the setup: the deferred results join the last request, or a
    request with the prompts is appended. *)
Definition first_messages (before : list ModelMessage) (cfg : runConfig) (p : string)
    (after : list ModelMessage) : Prop :=
  if negb (bool_decide (cfg_deferredResults cfg = [])) && negb (bool_decide (before = []))
  then after = injectDeferredResults before (cfg_deferredResults cfg)
  else ∃ dyn kb, after = before ++ [ModelRequest ((SystemPromptPart <$> systemPrompts su)
      ++ (SystemPromptPart <$> dyn) ++ (SystemPromptPart <$> kb)
      ++ [UserPromptPart p] ++ cfg_initialRequestParts cfg)] ∧
    (dynamicSystemPrompts su = [] → dyn = []) ∧ (knowledgeBase_Retrieve su = None → kb = []).

Lemma wp_dynamic fs prompt s :
  wp (dynamic_prompts fs prompt) (λ r (s' : St W), rs s' = rs s ∧ (fs = [] → r = Ok [])) s.
Proof.
  destruct fs; [by apply wp_ret|]. apply wp_quiet_and; [auto with quiet|]. by apply wp_intro.
Qed.

Lemma wp_kb prompt s :
  wp (kb_parts su prompt) (λ r s', rs s' = rs s ∧
    ∀ ps, r = Ok ps → ∃ kb, ps = SystemPromptPart <$> kb ∧ (knowledgeBase_Retrieve su = None → kb = [])) s.
Proof.
  apply wp_quiet_and; [auto with quiet|]. unfold kb_parts.
  destruct (knowledgeBase_Retrieve su) as [f|].
  - apply wp_bind, wp_callback, wp_ret. destruct (f prompt (world s)) as [w [c|e]]; cbn; [|done].
    destruct c as [|ch c]; intros ps [= <-]; [by exists []|]. by exists ["[Knowledge Context] " +:+ String ch c].
  - apply wp_ret. intros ps [= <-]. by exists [].
Qed.

(** What a successful setup leaves: the configured state with its first request. *)
Lemma wp_setup cfg parent rid now prompt s :
  wp (setup_run a su cfg parent rid now prompt) (λ r s', ∀ p, r = Ok p →
    let r0 := (initial_state su cfg parent rid now).1 in
    first_messages (messages r0) cfg p (messages (rs s')) ∧
    rs s' = r0 <| messages := messages (rs s') |>) s.
Proof.
  unfold setup_run. apply wp_bind, wp_act. cbn [fst snd]. set (s1 := s <| rs := _ |> <| world := _ |> <| settings := _ |>).
  set (r0 := (initial_state su cfg parent rid now).1). assert (rs s1 = r0) as E1 by done. clearbody s1.
  apply wp_bind, wp_quiet; [auto with quiet|]. intros [p|e] s2 E2; [|by apply wp_ret].
  apply wp_bind.
  assert (∀ s3 q, q = Ok p →
    first_messages (messages r0) cfg p (messages (rs s3)) ∧ rs s3 = r0 <| messages := messages (rs s3) |> →
    wp (bind (beginRun a p) (λ _, bind (publish_resolved a (cfg_deferredResults cfg)) (λ _, Ret (Ok p))))
      (λ r s', ∀ p, r = Ok p → first_messages (messages r0) cfg p (messages (rs s')) ∧
        rs s' = r0 <| messages := messages (rs s') |>) s3) as Hrest.
  { intros s3 q _ H3. apply wp_bind, wp_quiet; [auto with quiet|]. intros ? s4 E4.
    apply wp_bind, wp_quiet; [auto with quiet|]. intros ? s5 E5. apply wp_ret.
    intros ? [= <-]. by rewrite E5, E4. }
  unfold bootstrapRunMessages. apply wp_bind, wp_get. rewrite E2, E1.
  destruct (negb (bool_decide (cfg_deferredResults cfg = [])) && negb (bool_decide (messages r0 = []))) eqn:Hc.
  - apply wp_bind, wp_locked, wp_ret. apply (Hrest _ (Ok p)); [done|]. cbn [rs fst]. rewrite E2, E1.
    unfold first_messages. rewrite Hc. by destruct r0.
  - unfold buildInitialRequestWithDynamic. apply wp_bind, wp_bind.
    eapply wp_mono; [apply wp_dynamic|]. intros [dyn|e] s3 [E3 Hd]; [|by apply wp_ret, wp_ret].
    apply wp_bind. eapply wp_mono; [apply wp_kb|]. intros [kb|e] s4 [E4 Hkb]; [|by apply wp_ret, wp_ret].
    destruct (Hkb kb eq_refl) as (kbs & -> & Hk). apply wp_ret, wp_bind, wp_locked, wp_ret.
    apply (Hrest _ (Ok p)); [done|]. cbn [rs fst]. rewrite E4, E3, E2, E1. unfold first_messages. rewrite Hc.
    split; [|by destruct r0]. exists dyn, kbs. split_and!; [done| |done].
    intros Hn. specialize (Hd Hn). congruence.
Qed.

(** A run that starts afresh works from exactly its options: the limits and the
    settings of the options, else of the agent, clean counters, the caller's run as
    parent, and a first request made of the static system prompts, the dynamic ones,
    the knowledge, the prompt as the guardrails rewrote it, and the extra parts, in
    that order. *)
Theorem fresh_run_first_request cfg parent rid now prompt s s' p :
  cfg_snapshot cfg = None → cfg_messages cfg = [] →
  run (setup_run a su cfg parent rid now prompt) s = (s', Ok p) →
  ∃ dyn kb, rs s' = MkRunState
    [ModelRequest ((SystemPromptPart <$> systemPrompts su) ++ (SystemPromptPart <$> dyn)
       ++ (SystemPromptPart <$> kb) ++ [UserPromptPart p] ++ cfg_initialRequestParts cfg)]
    zero_run_usage 0 0 ∅ 0 0 rid parent (default (agent_usageLimits su) (cfg_usageLimits cfg)) ∧
  (dynamicSystemPrompts su = [] → dyn = []) ∧ (knowledgeBase_Retrieve su = None → kb = []).
Proof.
  intros Hsn Hms Hrun.
  destruct (wp_run _ _ _ _ _ (wp_setup cfg parent rid now prompt s) Hrun p eq_refl) as [Hm Hr].
  unfold initial_state, run_limits in Hm, Hr. rewrite Hsn, Hms in Hm, Hr. cbn in Hm, Hr.
  unfold first_messages in Hm. rewrite andb_false_r in Hm.
  destruct Hm as (dyn & kb & Hm & Hd & Hk). exists dyn, kb. split; [|done]. by rewrite Hr, Hm.
Qed.

(** The loop of a run, once set up. *)
Lemma run_Run fuel cfg parent rid now prompt s s' out :
  run (Run fuel cfg parent rid now prompt) s = (s', Some out) →
  (∃ e, out = inr (RunFailed e)) ∨
  ∃ s1 p s2, run (setup_run a su cfg parent rid now prompt) s = (s1, Ok p) ∧
    run (runLoop json_marshal json_object_ok unmarshal_wrapper unmarshal_T string_as_T type_name_T
      ctx_Err a fuel p) s1 = (s2, Some out) ∧ rs s' = rs s2.
Proof.
  unfold RunSetup.Run. rewrite run_bind.
  destruct (run (setup_run _ _ _ _ _ _ _) s) as [s1 [p|e]]; [|intros [= _ <-]; left; eauto].
  rewrite run_bind. destruct (run (runLoop _ _ _ _ _ _ _ _ _ _) s1) as [s2 [o|]] eqn:E2; [|done].
  rewrite run_bind. pose proof (quiet_end p (outcome_error o) s2) as Hq.
  destruct (run (endRun a p (outcome_error o)) s2) as [s3 u]. intros [= <- <-]. right.
  exists s1, p, s2. auto.
Qed.

(** Whatever becomes of the setup, it makes no request and keeps the limits. *)
Definition uncounted (r0 : RunState) (_ : res string) (s' : St W) : Prop :=
  usage (rs s') = usage r0 ∧ limits (rs s') = limits r0.
Lemma wp_setup_usage cfg parent rid now prompt s :
  wp (setup_run a su cfg parent rid now prompt) (uncounted (initial_state su cfg parent rid now).1) s.
Proof.
  set (r0 := (initial_state su cfg parent rid now).1). unfold setup_run. apply wp_bind, wp_act. cbn [fst snd].
  set (s1 := s <| rs := _ |> <| world := _ |> <| settings := _ |>).
  assert (rs s1 = r0) as E1 by done. clearbody s1.
  apply wp_bind, wp_quiet; [auto with quiet|]. intros [p|e] s2 E2; [|apply wp_ret; unfold uncounted; by rewrite E2, E1].
  apply wp_bind. apply (wp_mono _ (λ _ s', usage (rs s') = usage r0 ∧ limits (rs s') = limits r0)).
  - unfold bootstrapRunMessages. apply wp_bind, wp_get. case_match.
    + apply wp_bind, wp_locked, wp_ret. cbn. by rewrite E2, E1.
    + apply wp_bind, wp_quiet; [unfold buildInitialRequestWithDynamic; solve_quiet|].
      intros [parts|e] s3 E3; [apply wp_bind, wp_locked|]; apply wp_ret; cbn; by rewrite E3, E2, E1.
  - intros [u|e] s3 H3; [|by apply wp_ret]. apply wp_bind, wp_quiet; [auto with quiet|]. intros ? s4 E4.
    apply wp_bind, wp_quiet; [auto with quiet|]. intros ? s5 E5. apply wp_ret. unfold uncounted. by rewrite E5, E4.
Qed.

(** The requests counted before a run: those of the snapshot it resumes. *)
Definition prior_requests (cfg : runConfig) : Z :=
  match cfg_snapshot cfg with None => 0 | Some snap => Requests (snap_Usage snap) end.
Lemma initial_requests cfg parent rid now :
  Requests (usage (initial_state su cfg parent rid now).1) = prior_requests cfg ∧
  limits (initial_state su cfg parent rid now).1 = run_limits su cfg.
Proof. unfold initial_state, prior_requests. by destruct (cfg_snapshot cfg), (cfg_messages cfg). Qed.

Lemma Run_ends cfg parent rid now prompt n fuel s :
  RequestLimit (run_limits su cfg) = Some n →
  Z.max 0 (n - prior_requests cfg) < Z.of_nat fuel →
  ∃ s' out, run (Run fuel cfg parent rid now prompt) s = (s', Some out) ∧
    Requests (usage (rs s')) ≤ Z.max n (prior_requests cfg).
Proof.
  intros Hlim Hfuel. unfold RunSetup.Run. rewrite run_bind.
  destruct (initial_requests cfg parent rid now) as [Hq0 Hl0].
  destruct (run (setup_run _ _ _ _ _ _ _) s) as [s1 [p|e]] eqn:E1;
    destruct (wp_run _ (uncounted (initial_state su cfg parent rid now).1) _ _ _ (wp_setup_usage cfg parent rid now prompt s) E1) as [Hu Hl];
    rewrite <-Hu in Hq0; rewrite <-Hl in Hl0.
  2: { eexists _, _. split; [done|]. lia. }
  destruct (runLoop_ends json_marshal json_object_ok unmarshal_wrapper unmarshal_T string_as_T type_name_T
    ctx_Err a p n fuel s1) as (s2 & out & E2 & Hb); [by rewrite Hl0|by rewrite Hq0|].
  rewrite run_bind, E2, run_bind. pose proof (quiet_end p (outcome_error out) s2) as Hq'.
  destruct (run (endRun a p (outcome_error out)) s2) as [s3 u]. cbn in Hq'.
  exists s3, out. split; [done|]. rewrite Hq'. by rewrite Hq0 in Hb.
Qed.

(** C10: every run with a request limit [n] ends, whatever the model, the tools and
    the callbacks do: [Run] returns a result or an error with fuel for one more
    iteration than there are requests left, and, whether it succeeds, fails or is
    deferred, the requests it has counted are at most [n]; a run that resumes a
    snapshot which has more makes none. *)
Theorem Run_terminates cfg parent rid now prompt n fuel s :
  RequestLimit (run_limits su cfg) = Some n →
  Z.max 0 (n - prior_requests cfg) < Z.of_nat fuel →
  ∃ s' out, run (Run fuel cfg parent rid now prompt) s = (s', Some out) ∧
    Requests (usage (rs s')) ≤ Z.max n (prior_requests cfg).
Proof. apply Run_ends. Qed.

(** The history a run continues: the given messages, else those of the snapshot,
    completed by the results of deferred calls. *)
Definition given_history (cfg : runConfig) : list ModelMessage :=
  match cfg_messages cfg with
  | [] => match cfg_snapshot cfg with Some snap => snap_Messages snap | None => [] end
  | ms => ms
  end.
Definition resumed_history (cfg : runConfig) : list ModelMessage :=
  if negb (bool_decide (cfg_deferredResults cfg = [])) && negb (bool_decide (given_history cfg = []))
  then injectDeferredResults (given_history cfg) (cfg_deferredResults cfg) else given_history cfg.

Lemma Run_paired cfg parent rid now prompt fuel s s' out :
  autoContext a = None → paired (resumed_history cfg) →
  run (Run fuel cfg parent rid now prompt) s = (s', Some out) → paired_outcome a out.
Proof.
  intros Ha Hp [(e & ->)|(s1 & p & s2 & E1 & E2 & _)]%run_Run; [done|].
  refine (runLoop_paired json_marshal json_object_ok unmarshal_wrapper unmarshal_T string_as_T
    type_name_T ctx_Err a p fuel s1 s2 out Ha _ E2).
  destruct (wp_run _ _ _ _ _ (wp_setup cfg parent rid now prompt s) E1 p eq_refl) as [Hm _].
  assert (messages (initial_state su cfg parent rid now).1 = given_history cfg) as E.
  { unfold initial_state, given_history. by destruct (cfg_snapshot cfg), (cfg_messages cfg). }
  rewrite E in Hm. unfold first_messages in Hm. unfold resumed_history in Hp.
  destruct (negb _ && negb _); [by rewrite Hm|].
  destruct Hm as (dyn & kb & -> & _). by apply paired_app.
Qed.

(** C9: a run returns a history that a model accepts.  For every agent without
    auto-context, and every history that is paired to start with (a fresh run, or one
    that resumes a deferred run or a snapshot with a result for each open call): each
    tool call of the returned history is answered exactly once by the message after it,
    except that calls of the very last response may be open when a run condition
    stopped the run or the early strategy took an output tool's result; with the
    exhaustive strategy or no output tools, and without run conditions, none is.  If
    the run is deferred, results for its open requests complete the history it
    returns, whatever the strategy. *)
Theorem Run_history_paired cfg parent rid now prompt fuel s s' out :
  autoContext a = None → paired (resumed_history cfg) →
  run (Run fuel cfg parent rid now prompt) s = (s', Some out) →
  match out with
  | inl r => paired_but_last (res_Messages r) ∧
      (processes_all a → runConditions a = [] → paired (res_Messages r))
  | inr (ErrDeferred reqs msgs _) => ∀ drs,
      (dres_ToolCallID <$> drs) ≡ₚ (dreq_ToolCallID <$> reqs) → paired (injectDeferredResults msgs drs)
  | inr (RunFailed _) => True
  end.
Proof. apply Run_paired. Qed.
End runs.

(** ** Witnesses *)

Module Setups.
(** An agent with a system prompt, a guardrail that rewrites the prompt, a dynamic
    prompt and a knowledge base. *)
Definition setup : AgentSetup nat :=
  MkAgentSetup ["be brief"] [λ _ w, (w, Ok "today"); λ _ w, (w, Ok "")] (Some (λ _ w, (w, Ok "fact")))
    [("trim", λ p w, (w, (p +:+ "!", None)))] None DefaultUsageLimits [].
Definition config : runConfig := MkRunConfig None None [] None [] [] ∅.
Definition begun : St nat * res string :=
  run (setup_run Scripts.plain_agent setup config "parent" "run-1" (At 1) "go") Scripts.start.
Definition go (a : Agent nat string) (fuel : nat) (cfg : runConfig) :=
  Run Demo.marshal (λ _, true) Scripts.no_json Scripts.parse Some "string" Demo.no_cancel a setup fuel
    cfg "" "run-1" (At 1) "go".
(** The history a deferred run returned, and a configuration that resumes it. *)
Definition deferred_history : list ModelMessage :=
  match (run (go Scripts.defer_agent 5 config) Scripts.start).2 with
  | Some (inr (ErrDeferred _ msgs _)) => msgs
  | _ => []
  end.
Definition resume : runConfig :=
  MkRunConfig None None deferred_history None [] [MkDeferredToolResult "b" "2" "late" false] ∅.
End Setups.

Lemma fresh_run_first_request_witness :
  ∃ dyn kb, rs Setups.begun.1 = MkRunState
    [ModelRequest ([SystemPromptPart "be brief"] ++ (SystemPromptPart <$> dyn)
       ++ (SystemPromptPart <$> kb) ++ [UserPromptPart "go!"] ++ [])]
    zero_run_usage 0 0 ∅ 0 0 "run-1" "parent" DefaultUsageLimits.
Proof.
  destruct (fresh_run_first_request Scripts.plain_agent Setups.setup Setups.config "parent" "run-1" (At 1)
    "go" Scripts.start Setups.begun.1 "go!" eq_refl eq_refl) as (dyn & kb & H & _).
  - vm_compute. reflexivity.
  - exists dyn, kb. exact H.
Defined.

Lemma Run_terminates_witness :
  ∃ s' out, run (Setups.go Scripts.plain_agent 51 Setups.config) Scripts.start = (s', Some out) ∧
    Requests (usage (rs s')) ≤ 50.
Proof.
  refine (Run_terminates Demo.marshal (λ _, true) Scripts.no_json Scripts.parse Some "string" Demo.no_cancel
    Scripts.plain_agent Setups.setup Setups.config "" "run-1" (At 1) "go" 50 51 Scripts.start
    eq_refl _). vm_compute. reflexivity.
Defined.

(** A deferred run, resumed with the missing result. *)
Lemma Run_history_paired_witness :
  match (run (Setups.go Scripts.plain_agent 5 Setups.resume) Scripts.start).2 with
  | Some (inl r) => paired (res_Messages r)
  | _ => True
  end ∧ is_Some (run (Setups.go Scripts.plain_agent 5 Setups.resume) Scripts.start).2.
Proof.
  pose (r := run (Setups.go Scripts.plain_agent 5 Setups.resume) Scripts.start).
  assert (Hr : ∃ out, r.2 = Some (inl out)) by (vm_compute; eexists; reflexivity).
  destruct Hr as [out Hr]. change (run _ _).2 with r.2. rewrite Hr. split; [|eexists; reflexivity].
  assert (Hp : paired (resumed_history Setups.resume)) by (vm_compute; split; [right; reflexivity|exact I]).
  assert (Hrun : run (Setups.go Scripts.plain_agent 5 Setups.resume) Scripts.start = (r.1, Some (inl out)))
    by (rewrite <- Hr; exact (surjective_pairing r)).
  destruct (Run_history_paired Demo.marshal (λ _, true) Scripts.no_json Scripts.parse Some "string"
    Demo.no_cancel Scripts.plain_agent Setups.setup Setups.resume "" "run-1" (At 1) "go" 5 Scripts.start r.1
    (inl out) eq_refl Hp Hrun) as [_ H].
  exact (H (or_intror eq_refl) eq_refl).
Defined.
