(* ===== verification/Steer.v ===== *)
(** * Steering instructions

    src/core/steer.go: a queue of user instructions that a streaming run picks up at
    its next request.  Each method holds the queue's mutex around its change of the
    queue; hooks run outside of it.  The hooks act on the world of the callbacks, and
    every report the queue makes, to a hook or to none, is kept in a list of notices. *)

From S2P Require Import Prelude Errors.

Definition ErrSteerQueueClosed := ESentinel "core: steer queue is closed".
Definition ErrSteerQueueFull := ESentinel "core: steer queue is full".
Definition ErrSteerMessageEmpty := ESentinel "core: steer message is empty".
Definition ErrSteeringNeedsStreaming := ESentinel "core: steering requires RunStream".

Definition SteerQueueMaxPending : nat := 64.

Record SteerMessage := MkSteerMessage {
  sm_ID : string;
  sm_Text : string;
  sm_QueuedAt : Time;
}.
#[export] Instance SteerMessage_eq_dec : EqDecision SteerMessage.
Proof. solve_decision. Defined.

Record SteerQueue := MkSteerQueue { sq_pending : list SteerMessage; sq_closed : bool }.
Definition NewSteerQueue : SteerQueue := MkSteerQueue [] false.

(** The end of an instruction: it entered a request, or it was turned away. *)
Inductive SteerNotice :=
| SteerConsumed (m : SteerMessage)
| SteerRejected (m : SteerMessage) (reason : error).
Definition notice_of (n : SteerNotice) : SteerMessage :=
  match n with SteerConsumed m | SteerRejected m _ => m end.

(** [Enqueue]: the text is trimmed and the time filled in; a nil queue is closed. *)
Definition Enqueue (q : option SteerQueue) (message : SteerMessage) (now : Time)
    : option SteerQueue * res SteerMessage :=
  match q with
  | None => (q, Err ErrSteerQueueClosed)
  | Some sq =>
    let message := MkSteerMessage (sm_ID message) (TrimSpace (sm_Text message)) (sm_QueuedAt message) in
    if String.eqb (sm_Text message) "" then (q, Err ErrSteerMessageEmpty) else
    let message := MkSteerMessage (sm_ID message) (sm_Text message)
      (if IsZero (sm_QueuedAt message) then now else sm_QueuedAt message) in
    if sq_closed sq then (q, Err ErrSteerQueueClosed)
    else if (SteerQueueMaxPending <=? length (sq_pending sq))%nat then (q, Err ErrSteerQueueFull)
    else (Some (MkSteerQueue (sq_pending sq ++ [message]) false), Ok message)
  end.

(** [take]: everything that waits; a terminal turn closes an empty queue. *)
Definition take_steers (q : option SteerQueue) (terminal : bool) : option SteerQueue * list SteerMessage :=
  match q with
  | None => (q, [])
  | Some sq =>
    if sq_closed sq then (q, [])
    else match sq_pending sq with
    | [] => (Some (MkSteerQueue [] terminal), [])
    | messages => (Some (MkSteerQueue [] false), messages)
    end
  end.

Section hooks.
Context {W : Type}.

Record SteerQueueHooks := MkSteerQueueHooks {
  OnPrepared : option (list SteerMessage → W → W * option error);
  OnConsumed : option (SteerMessage → W → W * option error);
  OnRejected : option (SteerMessage → error → W → W);
}.
Context (h : SteerQueueHooks).

(** The world and the notices so far. *)
Definition reports : Type := W * list SteerNotice.

Fixpoint reject (messages : list SteerMessage) (reason : error) (r : reports) : reports :=
  match messages with
  | [] => r
  | m :: messages =>
    reject messages reason
      (match OnRejected h with Some f => f m reason r.1 | None => r.1 end, r.2 ++ [SteerRejected m reason])
  end.

(** The first failure rejects its message and the rest. *)
Fixpoint consumed (messages : list SteerMessage) (r : reports) : reports * option error :=
  match messages with
  | [] => (r, None)
  | m :: rest =>
    match OnConsumed h with
    | None => consumed rest (r.1, r.2 ++ [SteerConsumed m])
    | Some f =>
      match f m r.1 with
      | (w, Some e) => (reject messages e (w, r.2), Some e)
      | (w, None) => consumed rest (w, r.2 ++ [SteerConsumed m])
      end
    end
  end.

Definition prepared (messages : list SteerMessage) (r : reports) : reports * option error :=
  match messages, OnPrepared h with
  | [], _ | _, None => (r, None)
  | _, Some f =>
    match f messages r.1 with
    | (w, Some e) => (reject messages e (w, r.2), Some e)
    | (w, None) => ((w, r.2), None)
    end
  end.

(** [close]: what still waits is rejected, once. *)
Definition close_steers (q : option SteerQueue) (reason : option error) (r : reports)
    : option SteerQueue * reports :=
  match q with
  | None => (q, r)
  | Some sq =>
    if sq_closed sq then (q, r)
    else (Some (MkSteerQueue [] true), reject (sq_pending sq) (default ErrSteerQueueClosed reason) r)
  end.

(** ** What is reported *)

Lemma reject_notices ms e r : (reject ms e r).2 = r.2 ++ ((λ m, SteerRejected m e) <$> ms).
Proof.
  revert r. induction ms as [|m ms IH]; intros r; cbn; [by rewrite app_nil_r|].
  rewrite IH. cbn. by rewrite <-app_assoc.
Qed.

(** Every message handed to [consumed] is reported exactly once, in order. *)
Lemma consumed_notices ms r : ∃ ns, (consumed ms r).1.2 = r.2 ++ ns ∧ notice_of <$> ns = ms.
Proof.
  revert r. induction ms as [|m ms IH]; intros r; cbn [consumed]; [exists []; by rewrite app_nil_r|].
  destruct (OnConsumed h) as [f|].
  - destruct (f m r.1) as [w [e|]].
    + exists ((λ m, SteerRejected m e) <$> (m :: ms)). cbn [fst]. rewrite reject_notices.
      split; [done|]. rewrite <-list_fmap_compose. apply list_fmap_id.
    + destruct (IH (w, r.2 ++ [SteerConsumed m])) as (ns & E & Hns). exists (SteerConsumed m :: ns).
      cbn in *. rewrite E, <-app_assoc. by rewrite Hns.
  - destruct (IH (r.1, r.2 ++ [SteerConsumed m])) as (ns & E & Hns). exists (SteerConsumed m :: ns).
    cbn in *. rewrite E, <-app_assoc. by rewrite Hns.
Qed.

(** Prepared messages are reported only when the preparation fails. *)
Lemma prepared_notices ms r :
  match (prepared ms r).2 with
  | None => (prepared ms r).1.2 = r.2
  | Some e => (prepared ms r).1.2 = r.2 ++ ((λ m, SteerRejected m e) <$> ms)
  end.
Proof.
  unfold prepared. destruct ms as [|m ms]; [done|]. destruct (OnPrepared h) as [f|]; [|done].
  destruct (f (m :: ms) r.1) as [w [e|]]; [|done]. cbn [fst snd]. by rewrite reject_notices.
Qed.
End hooks.
Arguments SteerQueueHooks : clear implicits.
