(* ===== verification/Stream.v ===== *)
(** * Streaming runs

    src/core/stream.go: a run whose model responses arrive as streams of events.  The
    engine repeats the text of the synchronous turn engine, split where the stream is
    handed to the caller: [startTurn] up to the request, [completeTurn] after the last
    event.  Between turns it feeds steering instructions into the next request.

    An open stream is represented by what it will deliver: its events, an error
    instead of the end, the response and usage it has assembled.  A published delta is
    kept with the number of events published before it; [bus_events] is the sequence
    the event bus sees.  The messages of every request the model accepted are kept
    too. *)

From S2P Require Import Prelude Errors Usage Messages AgentTypes AutoContext AgentTools AgentLoop Json Serialize Snapshot RunSetup Steer.

(** ** Stream events *)

Inductive ResponsePartDelta :=
| TextPartDelta (content : string)
| ToolCallPartDelta (argsJSON : string)
| ThinkingPartDelta (content : string).
Inductive StreamEvent :=
| PartStartEvent (index : Z) (part : ResponsePart)
| PartDeltaEvent (index : Z) (delta : ResponsePartDelta)
| PartEndEvent (index : Z).
Record ModelDeltaEvent := MkModelDeltaEvent {
  md_TurnNumber : Z; md_PartIndex : Z; md_DeltaKind : string; md_ContentDelta : string;
}.

(** What a streaming run has published besides the events of every run, each with the
    number of those published before it, and the requests it has made. *)
Record StreamLog := MkStreamLog {
  sl_deltas : list (nat * ModelDeltaEvent);
  sl_requests : list (list ModelMessage);
}.
#[export] Instance StreamLog_eta : RecordEta StreamLog := λ l, MkStreamLog (sl_deltas l) (sl_requests l).

Record StreamedResponse := MkStreamedResponse {
  sr_events : list StreamEvent;
  sr_failure : option error;
  sr_response : option ModelResponse;
  sr_usage : Usage;
}.

(** The delta a stream event carries: kind, part index and content. *)
Definition stream_delta (event : StreamEvent) : option (string * Z * string) :=
  match event with
  | PartDeltaEvent i (TextPartDelta c) => Some ("text", i, c)
  | PartDeltaEvent i (ThinkingPartDelta c) => Some ("thinking", i, c)
  | PartDeltaEvent i (ToolCallPartDelta c) => Some ("tool-call", i, c)
  | PartStartEvent i (TextPart c) => Some ("text", i, c)
  | PartStartEvent i (CallPart c) => Some ("tool-call", i, tc_ArgsJSON c)
  | _ => None
  end.

Section types.
Context {W T : Type}.

Definition StreamFunc := list ModelMessage → option ModelSettings → ModelRequestParameters →
  W → W * res StreamedResponse.
Definition StreamMiddleware := (ContextCompactionStats → W → W) →
  list ModelMessage → option ModelSettings → ModelRequestParameters → StreamFunc →
  W → W * res StreamedResponse.

(** [agentStream]: [ss_turn] holds the run contexts of the active turn. *)
Record Stream := MkStream {
  ss : St W;
  ss_current : option StreamedResponse;
  ss_turn : option (RunContext * RunContext);
  ss_final : option ModelResponse;
  ss_pending : list SteerMessage;
  ss_queue : option SteerQueue;
  ss_done : bool;
  ss_result : option (RunResult T);
  ss_err : option RunError;
  ss_ended : bool;
  ss_log : StreamLog;
  ss_notices : list SteerNotice;
}.
End types.
Arguments StreamFunc : clear implicits.
Arguments StreamMiddleware : clear implicits.
Arguments Stream : clear implicits.
#[export] Instance Stream_eta {W T} : RecordEta (Stream W T) := λ s,
  MkStream (ss s) (ss_current s) (ss_turn s) (ss_final s) (ss_pending s) (ss_queue s) (ss_done s)
    (ss_result s) (ss_err s) (ss_ended s) (ss_log s) (ss_notices s).

(** The events and the deltas in the order they were published. *)
Fixpoint merge_deltas (k : nat) (evs : list RunEvent) (ds : list (nat * ModelDeltaEvent))
    : list (RunEvent + ModelDeltaEvent) :=
  (inr <$> (filter (λ d, d.1 = k) ds).*2) ++
  match evs with [] => [] | e :: evs => inl e :: merge_deltas (S k) evs ds end.
Definition bus_events {W T} (s : Stream W T) : list (RunEvent + ModelDeltaEvent) :=
  merge_deltas 0 (events (ss s)) (sl_deltas (ss_log s)).
Definition without_deltas (l : list (RunEvent + ModelDeltaEvent)) : list RunEvent :=
  omap (λ x, match x with inl e => Some e | inr _ => None end) l.

(** Programs on a stream. *)
Definition SM (W T A : Type) : Type := Stream W T → Stream W T * A.
#[export] Instance SM_ret W T : MRet (SM W T) := λ A x s, (s, x).
#[export] Instance SM_bind W T : MBind (SM W T) := λ A B k m s, let '(s, x) := m s in k x s.

(** How one pass of the loop of [Next] ends. *)
Inductive Advanced :=
| AEvent (e : StreamEvent)
| AAgain
| AEnd (err : option RunError).

Section stream.
Context {W T : Type}.
Context (json_marshal : ToolValue → res string).
Context (json_object_ok : string → bool).
Context (unmarshal_wrapper : string → res (gmap string string)).
Context (unmarshal_T : string → res T).
Context (string_as_T : string → option T).
Context (type_name_T : string).
Context (ctx_Err : W → option error).
Context (a : Agent W T) (su : AgentSetup W).
Context (requestStream : StreamFunc W) (streamMiddleware : list (StreamMiddleware W)).
Context (hk : SteerQueueHooks W).

Abbreviation M := (SM W T).

Definition buildStreamMiddlewareChain (onCompaction : ContextCompactionStats → W → W) : StreamFunc W :=
  foldr (λ mw (next : StreamFunc W), λ msgs ms params, mw onCompaction msgs ms params next)
    requestStream streamMiddleware.

(** ** Effects *)

(** A program of the agent, on the agent's part of the stream. *)
Definition lift {A} (m : prog W A) : M A := λ s,
  let '(st, x) := run m (ss s) in (s <| ss := st |>, x).
Definition modify (f : Stream W T → Stream W T) : M unit := λ s, (f s, tt).
Definition read {A} (f : Stream W T → A) : M A := λ s, (s, f s).

(** Hooks of the steer queue: they act on the world and leave a notice. *)
Definition steering {A} (f : reports (W := W) → reports (W := W) * A) : M A := λ s,
  let '((w, ns), x) := f (world (ss s), ss_notices s) in
  (s <| ss := (ss s) <| world := w |> |> <| ss_notices := ns |>, x).

(** The reason of a rejection: the error the run ended with. *)
Definition run_reason (e : RunError) : error :=
  match e with RunFailed e => e | ErrDeferred _ _ _ => ENew (RunError_Error e) end.

Definition close_queue (reason : option error) : M unit := λ s,
  let '(q, (w, ns)) := close_steers hk (ss_queue s) reason (world (ss s), ss_notices s) in
  (s <| ss := (ss s) <| world := w |> |> <| ss_notices := ns |> <| ss_queue := q |>, tt).

(** Pending instructions exist only with a queue, so its nil check is not repeated. *)
Definition rejectPendingSteers (reason : option error) : M unit :=
  pending ← read ss_pending;
  match pending with
  | [] => mret tt
  | messages =>
    modify (λ s, s <| ss_pending := [] |>);;
    steering (λ r, (reject hk messages (default ErrSteerQueueClosed reason) r, tt))
  end.

Definition acknowledgePendingSteers : M (option error) :=
  pending ← read ss_pending;
  match pending with
  | [] => mret None
  | messages =>
    modify (λ s, s <| ss_pending := [] |>);;
    steering (consumed hk messages)
  end.

(** Waiting instructions become a request of user prompts. *)
Definition queueSteersForNextRequest (terminal : bool) : M (res bool) :=
  steers ← (λ s, let '(q, ms) := take_steers (ss_queue s) terminal in (s <| ss_queue := q |>, ms));
  match steers with
  | [] => mret (Ok false)
  | _ =>
    failed ← steering (prepared hk steers);
    match failed with
    | Some e => mret (Err (EWrap "prepare steer consumption: " e ""))
    | None =>
      modify (λ s, s
        <| ss ::= λ st, st <| rs ::= λ r, r <| messages ::= λ l,
             l ++ [ModelRequest ((λ m, UserPromptPart (sm_Text m)) <$> steers)] |> |> |>
        <| ss_pending ::= λ l, l ++ steers |>);;
      mret (Ok true)
    end
  end.

(** ** Turns *)

(** [emitStreamTurnCompleted]; the text of a deferral is its error's. *)
Definition emitStreamTurnCompleted (resp : option ModelResponse) (turnErr : option RunError) : M unit :=
  lift (match turnErr with
        | Some (ErrDeferred _ _ _ as e) => emitTurnCompleted a resp (Some (RunFailed (ENew (RunError_Error e))))
        | _ => emitTurnCompleted a resp turnErr
        end).

Definition completeActiveTurn (resp : ModelResponse) (turnErr : option error) : M unit :=
  emitStreamTurnCompleted (Some resp) (RunFailed <$> turnErr);;
  modify (λ s, s <| ss_turn := None |>).

Definition recordStreamDelta (event : StreamEvent) : M unit :=
  match stream_delta event with
  | Some (kind, i, content) =>
    if eventBus a && negb (String.eqb content "") then
      modify (λ s, s <| ss_log ::= λ l, l <| sl_deltas ::= λ ds, ds ++
        [(length (events (ss s)), MkModelDeltaEvent (runStep (rs (ss s))) i kind content)] |> |>)
    else mret tt
  | None => mret tt
  end.

(** [startTurn]: limits, hooks, the request as the synchronous engine prepares it, the
    stream, and the acknowledgement of the instructions that went into it. *)
Definition startTurn (prompt : string) : M (option error) :=
  failed ← lift (act (λ s, (s, check_limits ctx_Err a s)));
  match failed with
  | Some e => mret (Some e)
  | None =>
    lift (locked (λ r, (r <| runStep ::= Z.add 1 |>, tt)));;
    r ← lift get;
    let turnRC := buildRunContext r prompt in
    lift (fireHook a (OnTurnStart turnRC (runStep r)));;
    lift (publish a (TurnStartedEvent (runStep r)));;
    req ← lift (prepare_request a prompt turnRC);
    match req with
    | Err e => emitStreamTurnCompleted None (Some (RunFailed e));; mret (Some e)
    | Ok (msgs, ms, params) =>
      r ← lift get;
      let modelRC := (buildRunContext r prompt) <| rc_Messages := msgs |> in
      lift (fireHook a (OnModelRequest modelRC msgs));;
      lift (publish a (ModelRequestStartedEvent (rc_RunStep modelRC) (Z.of_nat (length msgs))));;
      stream ← lift (callback (buildStreamMiddlewareChain
        (λ c, fire_hooks a (OnContextCompaction turnRC c)) msgs ms params));
      match stream with
      | Err e =>
        rejectPendingSteers (Some e);;
        let e := EWrap "model stream request failed: " e "" in
        emitStreamTurnCompleted None (Some (RunFailed e));; mret (Some e)
      | Ok stream =>
        modify (λ s, s <| ss_log ::= λ l, l <| sl_requests ::= λ rq, rq ++ [msgs] |> |>);;
        refused ← acknowledgePendingSteers;
        match refused with
        | Some e =>
          let e := EWrap "acknowledge steer consumption: " e "" in
          emitStreamTurnCompleted None (Some (RunFailed e));; mret (Some e)
        | None =>
          modify (λ s, s <| ss ::= λ st, st <| settings := ms |> |> <| ss_current := Some stream |>
                         <| ss_turn := Some (turnRC, modelRC) |>);;
          mret None
        end
      end
    end
  end.

(** [finish]: an active turn is closed, instructions are rejected, the queue closes,
    and the end of the run is reported once. *)
Definition finish (prompt : string) (result : option (RunResult T)) (runErr : option RunError) : M unit :=
  modify (λ s, s <| ss_current := None |>);;
  active ← read ss_turn;
  match active with
  | Some _ =>
    final ← read ss_final;
    emitStreamTurnCompleted final runErr;;
    modify (λ s, s <| ss_turn := None |>)
  | None => mret tt
  end;;
  rejectPendingSteers (run_reason <$> runErr);;
  close_queue (run_reason <$> runErr);;
  modify (λ s, s <| ss_done := true |> <| ss_result := result |> <| ss_err := runErr |>);;
  ended ← read ss_ended;
  if (ended : bool) then mret tt
  else modify (λ s, s <| ss_ended := true |>);; lift (endRun a prompt runErr).

(** The usage of the response: what it reports, else what the stream counted. *)
Definition usage_is_zero (u : Usage) : bool :=
  (InputTokens u =? 0) && (OutputTokens u =? 0) && (CacheWriteTokens u =? 0) && (CacheReadTokens u =? 0)
    && bool_decide (Details u = ∅).

(** The request is counted and the response taken over. *)
Definition account_response (stream : StreamedResponse) (resp : ModelResponse) : M ModelResponse :=
  let resp := if usage_is_zero (resp_Usage resp) then resp <| resp_Usage := sr_usage stream |> else resp in
  modify (λ s, s <| ss_final := Some resp |> <| ss_current := None |>);;
  lift (locked (λ r,
    let r := r <| usage ::= λ u, IncrRequest u (resp_Usage resp) |> in
    (if InputTokens (resp_Usage resp) >? 0
     then r <| lastInputTokens := InputTokens (resp_Usage resp) |> else r, tt)));;
  lift (match costTracker_Record a with
        | None => Ret tt
        | Some record =>
          callback (λ w, (record (ModelName (model a))
            (MkRunUsage (Usage_Incr zero_usage (resp_Usage resp)) 0 0) w, tt))
        end);;
  mret resp.

(** What follows [processResponse]. *)
Definition finish_stream_turn (prompt : string) (turnRC : RunContext) (resp : ModelResponse)
    (r : res (Processed T)) : M (option RunError) :=
  st ← lift get;
  let fireTurnEnd := lift (fireHook a (OnTurnEnd turnRC (runStep st) resp)) in
  match r with
  | Err e => fireTurnEnd;; completeActiveTurn resp (Some e);; mret (Some (RunFailed e))
  | Ok p =>
    lift (match nextParts p with
          | [] => Ret tt
          | ps => locked (λ r, (r <| messages ::= λ l, l ++ [ModelRequest ps] |>, tt))
          end);;
    match deferredReqs p with
    | _ :: _ =>
      close_queue (Some (ENew "run is waiting for deferred input"));;
      fireTurnEnd;; completeActiveTurn resp None;;
      lift (update (λ s, if eventBus a
        then s <| events ::= λ l, l ++ ((λ d, DeferredRequestedEvent (dreq_ToolCallID d) (dreq_ToolName d)
                                             (dreq_ArgsJSON d)) <$> deferredReqs p)
                                    ++ [RunWaitingEvent "deferred"] |>
        else s));;
      st ← lift get;
      mret (Some (ErrDeferred (deferredReqs p) (messages st) (usage st)))
    | [] =>
      queued ← queueSteersForNextRequest (match final p with Some _ => true | None => false end);
      match queued with
      | Err e => fireTurnEnd;; completeActiveTurn resp (Some e);; mret (Some (RunFailed e))
      | Ok true => fireTurnEnd;; completeActiveTurn resp None;; mret None
      | Ok false =>
        fireTurnEnd;;
        match final p with
        | Some result =>
          stored ← lift (match kbAutoStore a, knowledgeBase_Store a with
            | true, Some store =>
              if String.eqb (TextContent resp) "" then Ret None else callback (store (TextContent resp))
            | _, _ => Ret None
            end);
          match stored with
          | Some e =>
            let e := EWrap "knowledge base store failed: " e "" in
            completeActiveTurn resp (Some e);; mret (Some (RunFailed e))
          | None =>
            completeActiveTurn resp None;;
            out ← lift (buildRunResult (fr_output result));
            finish prompt (Some out) None;; mret None
          end
        | None => completeActiveTurn resp None;; mret None
        end
      end
    end
  end.

(** Token limits and run conditions, then the calls of the response. *)
Definition handle_stream_response (prompt : string) (turnRC : RunContext) (resp : ModelResponse)
    : M (option RunError) :=
  r ← lift get;
  match (if HasTokenLimits (limits r) then CheckTokens (limits r) (usage r) else None) with
  | Some e => completeActiveTurn resp (Some e);; mret (Some (RunFailed e))
  | None =>
    stop ← lift (check_conditions a (buildRunContext r prompt) resp (runConditions a));
    match stop with
    | Some reason =>
      match condition_output unmarshal_wrapper unmarshal_T string_as_T a resp with
      | Some output =>
        completeActiveTurn resp None;;
        out ← lift (buildRunResult output);
        finish prompt (Some out) None;; mret None
      | None =>
        completeActiveTurn resp (Some (ERunCondition reason));; mret (Some (RunFailed (ERunCondition reason)))
      end
    | None =>
      p ← lift (processResponse json_marshal json_object_ok unmarshal_wrapper unmarshal_T string_as_T
        type_name_T ctx_Err a resp prompt);
      finish_stream_turn prompt turnRC resp p
    end
  end.

(** [completeTurn], after the last event of the current stream; the contexts are those
    of the active turn. *)
Definition completeTurn (prompt : string) (stream : StreamedResponse) (turnRC modelRC : RunContext)
    : M (option RunError) :=
  match sr_response stream with
  | None =>
    modify (λ s, s <| ss_current := None |>);;
    mret (Some (RunFailed (ENew "stream completed without a response")))
  | Some resp =>
    resp ← account_response stream resp;
    intercepted ← lift (runResponseInterceptors (responseInterceptors a) resp);
    let resp := intercepted.2 in
    modify (λ s, s <| ss_final := Some resp |>);;
    if (intercepted.1 : bool) then
      queued ← queueSteersForNextRequest false;
      match queued with
      | Err e => completeActiveTurn resp (Some e);; mret (Some (RunFailed e))
      | Ok _ => completeActiveTurn resp None;; mret None
      end
    else
      ms ← read (λ s, settings (ss s));
      lift (keep_settings a ms resp);;
      lift (append_response a modelRC resp);;
      handle_stream_response prompt turnRC resp
  end.

(** ** The loop *)

(** A turn has failed: the run ends with its error. *)
Definition fail_run (prompt : string) (e : RunError) : M Advanced :=
  finish prompt None (Some e);; mret (AEnd (Some e)).

(** One pass of the loop of [Next]. *)
Definition advance (prompt : string) : M Advanced :=
  done ← read ss_done;
  if (done : bool) then e ← read ss_err; mret (AEnd e) else
  current ← read ss_current;
  started ← match current with Some _ => mret None | None => startTurn prompt end;
  match started with
  | Some e => fail_run prompt (RunFailed e)
  | None =>
    current ← read ss_current;
    active ← read ss_turn;
    match current, active with
    | Some stream, Some (turnRC, modelRC) =>
      match sr_events stream with
      | event :: rest =>
        modify (λ s, s <| ss_current := Some (MkStreamedResponse rest (sr_failure stream)
                                               (sr_response stream) (sr_usage stream)) |>);;
        recordStreamDelta event;;
        mret (AEvent event)
      | [] =>
        match sr_failure stream with
        | Some e => fail_run prompt (RunFailed (EWrap "model stream failed: " e ""))
        | None =>
          failed ← completeTurn prompt stream turnRC modelRC;
          match failed with
          | Some e => fail_run prompt e
          | None =>
            done ← read ss_done;
            mret (if (done : bool) then AEnd None else AAgain)
          end
        end
      end
    | _, _ => mret AAgain
    end
  end.

(** [None]: out of fuel. *)
Fixpoint Next (prompt : string) (fuel : nat) : M (option Advanced) :=
  match fuel with
  | O => mret None
  | S fuel =>
    r ← advance prompt;
    match r with
    | AAgain => Next prompt fuel
    | _ => mret (Some r)
    end
  end.

Fixpoint Result (prompt : string) (fuel : nat) : M (option (RunResult T + RunError)) :=
  match fuel with
  | O => mret None
  | S fuel' =>
    r ← Next prompt fuel;
    match r with
    | None => mret None
    | Some (AEnd (Some e)) => mret (Some (inr e))
    | Some (AEnd None) =>
      e ← read ss_err;
      result ← read ss_result;
      mret (Some (match e, result with
                  | Some e, _ => inr e
                  | None, Some r => inl r
                  | None, None => inr (RunFailed (ENew "stream completed without a result"))
                  end))
    | Some _ => Result prompt fuel'
    end
  end.

Definition errStreamClosed : error := ESentinel "stream closed before completion".

(** [Close]. *)
Definition Close (prompt : string) : M unit :=
  done ← read ss_done;
  modify (λ s, s <| ss_current := None |>);;
  if (done : bool) then mret tt else finish prompt None (Some (RunFailed errStreamClosed)).

Definition newAgentStream (st : St W) (queue : option SteerQueue) : Stream W T :=
  MkStream st None None None [] queue false None None false (MkStreamLog [] []) [].

(** [RunStream]: the setup of [Run], then the first turn; the result is the prompt the
    stream works on. *)
Definition RunStream (cfg : runConfig) (queue : option SteerQueue) (parent newRunID : string)
    (now : Timestamp) (prompt : string) (st : St W) : Stream W T * res string :=
  let '(st, p) := run (setup_run a su cfg parent newRunID now prompt) st in
  let s := newAgentStream st queue in
  match p with
  | Err e => let '(s, _) := close_queue (Some e) s in (s, Err e)
  | Ok prompt =>
    (failed ← startTurn prompt;
     match failed with
     | Some e => finish prompt None (Some (RunFailed e));; mret (Err e)
     | None => mret (Ok prompt)
     end) s
  end.

(** [RunStream] and then [Result], as a caller that only wants the outcome uses it. *)
Definition stream_outcome (fuel : nat) (cfg : runConfig) (queue : option SteerQueue)
    (parent newRunID : string) (now : Timestamp) (prompt : string) (st : St W)
    : Stream W T * option (RunResult T + RunError) :=
  let '(s, p) := RunStream cfg queue parent newRunID now prompt st in
  match p with
  | Err e => (s, Some (inr (RunFailed e)))
  | Ok prompt => Result prompt fuel s
  end.

(** ** Text of a stream

    [StreamText]: the chunks a consumer sees, one by one or accumulated, up to the end
    of the stream. *)
Definition text_chunk (event : StreamEvent) : option string :=
  match event with
  | PartDeltaEvent _ (TextPartDelta c) => Some c
  | PartStartEvent _ (TextPart c) => Some c
  | _ => None
  end.
Fixpoint StreamText (delta : bool) (cumulative : string) (events : list StreamEvent) : list string :=
  match events with
  | [] => []
  | e :: events =>
    match e with
    | PartDeltaEvent _ (TextPartDelta c) =>
      if delta then c :: StreamText delta cumulative events
      else (cumulative +:+ c) :: StreamText delta (cumulative +:+ c) events
    | PartStartEvent _ (TextPart c) =>
      if delta then
        if String.eqb c "" then StreamText delta cumulative events
        else c :: StreamText delta cumulative events
      else
        let cumulative := cumulative +:+ c in
        if String.eqb cumulative "" then StreamText delta cumulative events
        else cumulative :: StreamText delta cumulative events
    | _ => StreamText delta cumulative events
    end
  end.
End stream.
