(* ===== verification/StreamSafety.v ===== *)
(** * Streaming runs agree with synchronous ones

    With a model that streams the responses it would otherwise return, and without
    steering, a streaming run passes through the same run states and ends in the same
    result as [Run].  With steering, every accepted instruction is reported exactly
    once. *)

From S2P Require Import Prelude Errors Usage Messages AgentTypes AutoContext AgentTools AgentToolsSafety AgentLoop AgentLoopSpec AgentTurn AgentSafety Json Serialize Snapshot RunSetup RunSafety Steer Stream.

Section equivalence.
Context {W T : Type}.
Context (json_marshal : ToolValue → res string).
Context (json_object_ok : string → bool).
Context (unmarshal_wrapper : string → res (gmap string string)).
Context (unmarshal_T : string → res T).
Context (string_as_T : string → option T).
Context (type_name_T : string).
Context (ctx_Err : W → option error).
Context (a : Agent W T) (su : AgentSetup W).
Context (requestStream : StreamFunc W) (streamMiddleware : list (StreamMiddleware W)).
Context (hk : SteerQueueHooks W).

Local Abbreviation finish_stream_turn := (finish_stream_turn a hk).
Local Abbreviation handle_stream_response := (handle_stream_response json_marshal json_object_ok
  unmarshal_wrapper unmarshal_T string_as_T type_name_T ctx_Err a hk).
Local Abbreviation completeTurn := (completeTurn json_marshal json_object_ok
  unmarshal_wrapper unmarshal_T string_as_T type_name_T ctx_Err a hk).
Local Abbreviation startTurn := (startTurn ctx_Err a requestStream streamMiddleware hk).
Local Abbreviation advance := (advance json_marshal json_object_ok unmarshal_wrapper unmarshal_T
  string_as_T type_name_T ctx_Err a requestStream streamMiddleware hk).
Local Abbreviation Next := (Next json_marshal json_object_ok unmarshal_wrapper unmarshal_T
  string_as_T type_name_T ctx_Err a requestStream streamMiddleware hk).
Local Abbreviation Result := (Result json_marshal json_object_ok unmarshal_wrapper unmarshal_T
  string_as_T type_name_T ctx_Err a requestStream streamMiddleware hk).
Local Abbreviation turn := (turn json_marshal json_object_ok unmarshal_wrapper unmarshal_T string_as_T
  type_name_T ctx_Err a).
Local Abbreviation Step := (Step json_marshal json_object_ok unmarshal_wrapper unmarshal_T string_as_T
  type_name_T ctx_Err a).
Local Abbreviation runLoop := (runLoop json_marshal json_object_ok unmarshal_wrapper unmarshal_T string_as_T
  type_name_T ctx_Err a).
Local Abbreviation handle_response := (handle_response json_marshal json_object_ok unmarshal_wrapper unmarshal_T
  string_as_T type_name_T ctx_Err a).

(** A stream without a queue, and one that has ended. *)
Definition running_stream (st : St W) cur trn fin ds ns : Stream W T :=
  MkStream st cur trn fin [] None false None None false ds ns.
Definition ended_stream (st : St W) fin res err ds ns : Stream W T :=
  MkStream st None None fin [] None true res err true ds ns.

Lemma lift_run {A} (m : prog W A) st cur trn fin ds ns :
  lift m (running_stream st cur trn fin ds ns) =
  (running_stream (run m st).1 cur trn fin ds ns, (run m st).2).
Proof. unfold lift. cbn [ss running_stream]. by destruct (run m st). Qed.

Lemma same_state (st : St W) : MkSt (rs st) (world st) (events st) (settings st) (schedules st) = st.
Proof. by destruct st. Qed.

Lemma close_queue_none r st cur trn fin ds ns :
  close_queue hk r (running_stream st cur trn fin ds ns) = (running_stream st cur trn fin ds ns, tt).
Proof. unfold close_queue. cbn. by rewrite same_state. Qed.

(** The end of a run without an active turn. *)
Lemma finish_running prompt res err st cur fin ds ns :
  finish a hk prompt res err (running_stream st cur None fin ds ns) =
  (ended_stream (run (endRun a prompt err) st).1 fin res err ds ns, tt).
Proof.
  transitivity ((close_queue hk (run_reason <$> err) ≫= λ _,
    modify (λ s, s <| ss_done := true |> <| ss_result := res |> <| ss_err := err |>);;
    ended ← read ss_ended;
    if (ended : bool) then mret tt
    else modify (λ s, s <| ss_ended := true |>);; lift (endRun a prompt err))
    (running_stream st None None fin ds ns)); [done|].
  unfold mbind, SM_bind. rewrite close_queue_none.
  transitivity (lift (endRun a prompt err) (ended_stream st fin res err ds ns)); [done|].
  unfold lift. cbn [ss ended_stream]. by destruct (run (endRun a prompt err) st) as [? []].
Qed.

(** How the rest of a turn ends in the two engines. *)
Definition ends_as (prompt : string) fin ds ns (sync : St W * StepResult T)
    (strm : Stream W T * option RunError) : Prop :=
  match sync.2 with
  | SErr _ e => strm = (running_stream sync.1 None None fin ds ns, Some e)
  | SDone _ r => strm = (ended_stream (run (endRun a prompt None) sync.1).1 fin (Some r) None ds ns, None)
  | SNext _ => strm = (running_stream sync.1 None None fin ds ns, None)
  end.

Lemma completeActiveTurn_running resp e st trn fin ds ns :
  completeActiveTurn a resp e (running_stream st None trn fin ds ns) =
  (running_stream (run (emitTurnCompleted a (Some resp) (RunFailed <$> e)) st).1 None None fin ds ns, tt).
Proof.
  unfold completeActiveTurn, emitStreamTurnCompleted, mbind, SM_bind.
  destruct e; cbn [fmap option_fmap option_map]; by rewrite lift_run.
Qed.

Lemma bind_stream {A B} (m : SM W T A) (k : A → SM W T B) s : (m ≫= k) s = k (m s).2 (m s).1.
Proof. unfold mbind, SM_bind. by destruct (m s). Qed.
Lemma bind_sync {A B} (m : prog W A) (k : A → prog W B) s : run (bind m k) s = run (k (run m s).2) (run m s).1.
Proof. rewrite run_bind. by destruct (run m s). Qed.

(** A program of the agent, the same on both sides. *)
Ltac agree_step :=
  rewrite bind_sync, bind_stream, lift_run; cbn [fst snd];
  lazymatch goal with
  | |- context [(run ?m ?st).1] => destruct (run m st) as [? ?]; cbn [fst snd]
  end.

Lemma queueSteers_none t st cur trn fin ds ns :
  queueSteersForNextRequest hk t (running_stream st cur trn fin ds ns) =
  (running_stream st cur trn fin ds ns, Ok false).
Proof. done. Qed.

Lemma turn_failed_agrees prompt resp e st trn fin ds ns :
  ends_as prompt fin ds ns (run (turn_failed a (Some resp) e) st)
    ((completeActiveTurn a resp (Some e);; mret (Some (RunFailed e)))
      (running_stream st None trn fin ds ns)).
Proof.
  unfold turn_failed. rewrite bind_sync, bind_stream, completeActiveTurn_running.
  cbn [fmap option_fmap option_map fst snd]. by destruct (run (emitTurnCompleted _ _ _) _).
Qed.

(** A final result, in both engines. *)
Lemma finished_agrees prompt resp output st trn fin ds ns :
  ends_as prompt fin ds ns
    (run (bind (emitTurnCompleted a (Some resp) None)
      (λ _, bind (buildRunResult output) (λ out, Ret (SDone resp out)))) st)
    ((completeActiveTurn a resp None;;
      out ← lift (buildRunResult output);
      finish a hk prompt (Some out) None;; mret None) (running_stream st None trn fin ds ns)).
Proof.
  rewrite bind_sync, bind_stream, completeActiveTurn_running.
  cbn [fmap option_fmap option_map fst snd]. destruct (run (emitTurnCompleted _ _ _) _) as [s1 u]. cbn [fst snd].
  agree_step. rewrite bind_stream, finish_running. done.
Qed.

Lemma continued_agrees prompt resp st trn fin ds ns :
  ends_as prompt fin ds ns
    (run (bind (emitTurnCompleted a (Some resp) None) (λ _, Ret (SNext resp))) st)
    ((completeActiveTurn a resp None;; mret None) (running_stream st None trn fin ds ns)).
Proof.
  rewrite bind_sync, bind_stream, completeActiveTurn_running.
  cbn [fmap option_fmap option_map fst snd]. by destruct (run (emitTurnCompleted _ _ _) _).
Qed.

Lemma finish_stream_turn_agrees prompt turnRC resp p st trn fin ds ns :
  ends_as prompt fin ds ns (run (finish_turn a turnRC resp p) st)
    (finish_stream_turn prompt turnRC resp p (running_stream st None trn fin ds ns)).
Proof.
  unfold finish_turn, Stream.finish_stream_turn. agree_step. destruct p as [p|e].
  2: { agree_step. apply turn_failed_agrees. }
  agree_step. destruct (deferredReqs p) as [|d dr].
  - rewrite bind_stream, queueSteers_none. cbn [fst snd]. agree_step. destruct (final p) as [fr|].
    + agree_step. destruct o as [e|]; [apply turn_failed_agrees|apply finished_agrees].
    + apply continued_agrees.
  - rewrite bind_stream, close_queue_none. cbn [fst snd]. agree_step.
    rewrite bind_sync, bind_stream, completeActiveTurn_running. cbn [fmap option_fmap option_map fst snd].
    destruct (run (emitTurnCompleted _ _ _) _) as [s2 u2]. cbn [fst snd]. agree_step. agree_step. done.
Qed.

Lemma handle_stream_response_agrees prompt turnRC resp st trn fin ds ns :
  ends_as prompt fin ds ns (run (handle_response prompt turnRC resp) st)
    (handle_stream_response prompt turnRC resp (running_stream st None trn fin ds ns)).
Proof.
  unfold AgentLoop.handle_response, Stream.handle_stream_response. agree_step.
  destruct (if HasTokenLimits _ then _ else _) as [e|]; [apply turn_failed_agrees|].
  agree_step. destruct o as [reason|].
  - destruct (condition_output _ _ _ _ _) as [output|]; [apply finished_agrees|apply turn_failed_agrees].
  - agree_step. apply finish_stream_turn_agrees.
Qed.
(** ** Turns

    The model streams what it would return, and no response is dropped. *)
Definition streams (resp : ModelResponse) (sr : StreamedResponse) : Prop :=
  sr_failure sr = None ∧ sr_response sr = Some resp ∧ sr_usage sr = resp_Usage resp.
Definition streaming_model : Prop := ∀ onC msgs ms params w,
  match buildMiddlewareChain a onC msgs ms params w with
  | (w', Ok resp) => ∃ sr, streams resp sr ∧
      buildStreamMiddlewareChain requestStream streamMiddleware onC msgs ms params w = (w', Ok sr)
  | (w', Err e) => buildStreamMiddlewareChain requestStream streamMiddleware onC msgs ms params w = (w', Err e)
  end.
Context (Hmodel : streaming_model) (Hint : responseInterceptors a = []).

(** The two ways a model failure is reported. *)
Definition model_failed (e : error) : error := EWrap "model request failed: " e "".
Definition stream_failed (e : error) : error := EWrap "model stream request failed: " e "".
(** The report of a turn that fails with [e], and of the run it ends. *)
Definition failed_turn (e : error) (st : St W) : St W := (run (emitTurnCompleted a None (Some (RunFailed e))) st).1.
Definition failed_run (prompt : string) (e : error) (st : St W) : St W :=
  (run (endRun a prompt (Some (RunFailed e))) (failed_turn e st)).1.

(** How a turn of the synchronous engine relates to the start of a streamed one. *)
Definition starts_as (prompt : string) fin ds ns (sync : St W * option (StepResult T))
    (strm : Stream W T * option error) : Prop :=
  ∃ out, sync.2 = Some out ∧
  ((∃ e, out = SErr None (RunFailed e) ∧ strm = (running_stream sync.1 None None fin ds ns, Some e)) ∨
   (∃ e st, out = SErr None (RunFailed (model_failed e)) ∧ sync.1 = failed_turn (model_failed e) st ∧
      strm = (running_stream (failed_turn (stream_failed e) st) None None fin ds ns, Some (stream_failed e))) ∨
   (∃ st sr turnRC modelRC resp ds1,
      strm = (running_stream st (Some sr) (Some (turnRC, modelRC)) fin ds1 ns, None) ∧
      sr_failure sr = None ∧
      ∀ sr' ds', sr_response sr' = sr_response sr → sr_usage sr' = sr_usage sr →
        ends_as prompt (Some resp) ds' ns (sync.1, out)
          (completeTurn prompt sr' turnRC modelRC
             (running_stream st (Some sr') (Some (turnRC, modelRC)) fin ds' ns)))).

Lemma emit_running resp e st cur trn fin ds ns :
  emitStreamTurnCompleted a resp (RunFailed <$> e) (running_stream st cur trn fin ds ns) =
  (running_stream (run (emitTurnCompleted a resp (RunFailed <$> e)) st).1 cur trn fin ds ns, tt).
Proof. unfold emitStreamTurnCompleted. destruct e; cbn [fmap option_fmap option_map]; by rewrite lift_run. Qed.

(** The accounting of a response does not look at the settings. *)
Definition account (resp : ModelResponse) : prog W unit :=
  bind (locked (λ r,
    let r := r <| usage ::= λ u, IncrRequest u (resp_Usage resp) |> in
    (if InputTokens (resp_Usage resp) >? 0
     then r <| lastInputTokens := InputTokens (resp_Usage resp) |> else r, tt)))
  (λ _, match costTracker_Record a with
    | None => Ret tt
    | Some record =>
      callback (λ w, (record (ModelName (model a))
        (MkRunUsage (Usage_Incr zero_usage (resp_Usage resp)) 0 0) w, tt))
    end).

Lemma account_settings resp ms st :
  (run (account resp) (st <| settings := ms |>)).1 = ((run (account resp) st).1) <| settings := ms |>.
Proof. unfold account. rewrite !bind_sync. by destruct (costTracker_Record a). Qed.

Lemma account_running sr resp st cur trn fin ds ns :
  sr_usage sr = resp_Usage resp →
  account_response a sr resp (running_stream st cur trn fin ds ns) =
  (running_stream (run (account resp) st).1 None trn (Some resp) ds ns, resp).
Proof.
  intros Hu. unfold account_response. set (resp' := if usage_is_zero _ then _ else _).
  assert (resp' = resp) as -> by (subst resp'; destruct (usage_is_zero _); [rewrite Hu; by destruct resp|done]).
  unfold account. rewrite bind_sync, bind_stream. cbn [modify fst snd].
  rewrite bind_stream.
  rewrite (lift_run _ st None trn (Some resp) ds ns). cbn [fst snd].
  rewrite bind_stream, lift_run. done.
Qed.

Lemma completeTurn_agrees prompt turnRC modelRC resp ms (sr : StreamedResponse) st fin ds ns :
  sr_response sr = Some resp → sr_usage sr = resp_Usage resp →
  ends_as prompt (Some resp) ds ns
    (run (bind (keep_settings a ms resp) (λ _, bind (append_response a modelRC resp)
      (λ _, handle_response prompt turnRC resp))) (run (account resp) st).1)
    (completeTurn prompt sr turnRC modelRC
      (running_stream (st <| settings := ms |>) (Some sr) (Some (turnRC, modelRC)) fin ds ns)).
Proof.
  intros Hr Hu. unfold Stream.completeTurn. rewrite Hr, bind_stream, account_running by done.
  cbn [fst snd]. rewrite Hint, bind_stream, lift_run. cbn [runResponseInterceptors run fst snd].
  rewrite bind_stream. cbn [modify fst snd]. rewrite account_settings.
  rewrite bind_stream. cbn [read fst snd].
  change (settings (ss _)) with ms.
  change (running_stream ?st ?c ?t ?f ?d ?n) <| ss_final := ?f' |> with (running_stream st c t f' d n).
  rewrite bind_stream, lift_run, bind_sync. cbn [fst snd].
  replace (run (keep_settings a ms resp) ((run (account resp) st).1) <| settings := ms |>)
    with (run (keep_settings a ms resp) (run (account resp) st).1) by done.
  agree_step. apply handle_stream_response_agrees.
Qed.

Lemma quiet_endRun prompt e (st : St W) : rs (run (endRun a prompt e) st).1 = rs st.
Proof. revert st. change (quiet (endRun a prompt e)). unfold endRun. solve_quiet. Qed.

Lemma turn_failed_run resp e st :
  run (turn_failed a resp e : prog W (StepResult T)) st =
  ((run (emitTurnCompleted a resp (Some (RunFailed e))) st).1, SErr resp (RunFailed e)).
Proof. unfold turn_failed. by rewrite bind_sync. Qed.

Lemma callback_run {X} (f : W → W * X) (st : St W) :
  run (callback f) st = (st <| world := (f (world st)).1 |>, (f (world st)).2).
Proof. cbn. by destruct (f (world st)). Qed.

Lemma account_ok resp st :
  run (bind (locked (λ r,
    let r := r <| usage ::= λ u, IncrRequest u (resp_Usage resp) |> in
    (if InputTokens (resp_Usage resp) >? 0
     then r <| lastInputTokens := InputTokens (resp_Usage resp) |> else r, tt)))
  (λ _, bind match costTracker_Record a with
    | None => Ret tt
    | Some record =>
      callback (λ w, (record (ModelName (model a))
        (MkRunUsage (Usage_Incr zero_usage (resp_Usage resp)) 0 0) w, tt))
    end (λ _, Ret (Ok resp)))) st = ((run (account resp) st).1, Ok resp).
Proof. unfold account. rewrite !bind_sync. by destruct (costTracker_Record a). Qed.

Lemma startTurn_agrees prompt st fin ds ns :
  starts_as prompt fin ds ns (run (turn prompt) st)
    (startTurn prompt (running_stream st None None fin ds ns)).
Proof.
  unfold AgentLoop.turn, Stream.startTurn. agree_step. destruct o as [e|].
  { eexists. split; [done|]. left. by eexists. }
  do 4 agree_step. agree_step. destruct r0 as [[[msgs ms] params]|e].
  2: { rewrite bind_sync, bind_stream, (emit_running None (Some e)), turn_failed_run.
       eexists. split; [done|]. left. by eexists. }
  agree_step. rewrite bind_sync. unfold model_request. do 2 agree_step.
  rewrite bind_sync, bind_stream, lift_run, !callback_run. cbn [fst snd].
  match goal with |- context [buildMiddlewareChain a ?f msgs ms params ?w] =>
    pose proof (Hmodel f msgs ms params w) as Hm;
    destruct (buildMiddlewareChain a f msgs ms params w) as [w' [resp|e]] end; cbn [fst snd].
  - destruct Hm as (sr & (Hf & Hr & Hu) & ->). cbn [fst snd].
    rewrite account_ok. cbn [fst snd]. rewrite Hint. cbn [runResponseInterceptors].
    rewrite bind_sync. cbn [run fst snd].
    rewrite !bind_sync. cbn [run fst snd].
    eexists. split; [done|]. right; right. do 6 eexists. split; [done|]. split; [done|].
    intros sr' ds' Hr' Hu'. cbn [fst]. rewrite <-surjective_pairing.
    match goal with |- context [completeTurn prompt sr' ?trc ?mrc] =>
      pose proof (completeTurn_agrees prompt trc mrc resp ms sr' (s7 <| world := w' |>) fin ds' ns) as Hc end.
    rewrite !bind_sync in Hc. apply Hc; congruence.
  - rewrite Hm. cbn [fst snd run]. rewrite bind_sync, turn_failed_run. cbn [fst snd run].
    rewrite bind_stream. cbn [rejectPendingSteers].
    eexists. split; [done|]. right; left. exists e. eexists. split_and!; [done|done|].
    change (rejectPendingSteers hk (Some e) ?s) with (s, tt). cbn [fst snd].
    by rewrite bind_stream, (emit_running None (Some (stream_failed e))).
Qed.
(** ** Driving a stream

    [drives k s s' e]: [k] passes of the loop of [Next] lead from [s] to [s'], where the
    stream ends with [e]. *)
Inductive drives (prompt : string) : nat → Stream W T → Stream W T → option RunError → Prop :=
| drives_end s s' e : advance prompt s = (s', AEnd e) → drives prompt 1 s s' e
| drives_event s s1 ev k s' e :
    advance prompt s = (s1, AEvent ev) → drives prompt k s1 s' e → drives prompt (S k) s s' e
| drives_again s s1 k s' e :
    advance prompt s = (s1, AAgain) → drives prompt k s1 s' e → drives prompt (S k) s s' e.

(** What [Result] makes of the end of a stream. *)
Definition result_of (s : Stream W T) (e : option RunError) : RunResult T + RunError :=
  match e with
  | Some e => inr e
  | None =>
    match ss_err s, ss_result s with
    | Some e, _ => inr e
    | None, Some r => inl r
    | None, None => inr (RunFailed (ENew "stream completed without a result"))
    end
  end.

(** The rest of [Result] after [Next]. *)
Lemma drives_next prompt k s s' e n m :
  drives prompt k s s' e → (k ≤ n)%nat → (k ≤ S m)%nat →
  (r ← Next prompt n;
   match r with
   | None => mret None
   | Some (AEnd (Some e)) => mret (Some (inr e))
   | Some (AEnd None) =>
     e ← read ss_err; result ← read ss_result;
     mret (Some (match e, result with
                 | Some e, _ => inr e
                 | None, Some r => inl r
                 | None, None => inr (RunFailed (ENew "stream completed without a result"))
                 end))
   | Some _ => Result prompt m
   end) s = (s', Some (result_of s' e)).
Proof.
  intros H. revert n m. induction H as [s s' e Ha|s s1 ev k s' e Ha H IH|s s1 k s' e Ha H IH];
    intros n m Hn Hm; (destruct n as [|n]; [lia|]); cbn [Stream.Next]; rewrite !bind_stream, Ha; cbn [fst snd].
  - destruct e as [e|]; [done|]. by destruct s' as [? ? ? ? ? ? ? [?|] [?|]].
  - assert (1 ≤ k)%nat as Hk by (inversion H; lia). destruct m as [|m]; [lia|]. cbn [Stream.Result].
    rewrite <-(IH (S m) m) by lia. done.
  - rewrite <-(IH n m) by lia. by rewrite bind_stream.
Qed.

Lemma drives_Result prompt k s s' e fuel :
  drives prompt k s s' e → (k ≤ fuel)%nat → Result prompt fuel s = (s', Some (result_of s' e)).
Proof.
  intros H Hf. assert (1 ≤ k)%nat as Hk by (inversion H; lia). destruct fuel as [|fuel]; [lia|].
  cbn [Stream.Result]. by eapply drives_next; [exact H|lia|lia].
Qed.

(** Passes that do not end the stream. *)
Inductive reaches (prompt : string) : Stream W T → Stream W T → Prop :=
| reaches_refl s : reaches prompt s s
| reaches_event s s1 s2 ev :
    advance prompt s = (s1, AEvent ev) → reaches prompt s1 s2 → reaches prompt s s2
| reaches_again s s1 s2 : advance prompt s = (s1, AAgain) → reaches prompt s1 s2 → reaches prompt s s2.

Lemma reaches_drives prompt s s1 k s' e :
  reaches prompt s s1 → drives prompt k s1 s' e → ∃ k', drives prompt k' s s' e.
Proof.
  intros H Hd. induction H as [s|s s1 s2 ev Ha H IH|s s1 s2 Ha H IH]; [eauto|..];
    destruct (IH Hd) as [k' Hk']; eexists; [by eapply drives_event|by eapply drives_again].
Qed.

Lemma reaches_trans prompt s1 s2 s3 : reaches prompt s1 s2 → reaches prompt s2 s3 → reaches prompt s1 s3.
Proof. induction 1; eauto using reaches. Qed.

(** Events are handed out one by one, and only deltas are recorded. *)
Lemma drain prompt st sr turnRC modelRC fin ds ns :
  ∃ ds', reaches prompt (running_stream st (Some sr) (Some (turnRC, modelRC)) fin ds ns)
    (running_stream st (Some (MkStreamedResponse [] (sr_failure sr) (sr_response sr) (sr_usage sr)))
       (Some (turnRC, modelRC)) fin ds' ns).
Proof.
  destruct sr as [evs f r u]. cbn [sr_failure sr_response sr_usage]. revert ds.
  induction evs as [|ev evs IH]; intros ds; [eexists; constructor|].
  assert (∃ ds1, advance prompt (running_stream st (Some (MkStreamedResponse (ev :: evs) f r u))
      (Some (turnRC, modelRC)) fin ds ns) =
    (running_stream st (Some (MkStreamedResponse evs f r u)) (Some (turnRC, modelRC)) fin ds1 ns, AEvent ev))
    as [ds1 Ha].
  { change (advance prompt _) with ((recordStreamDelta a ev;; mret (AEvent ev) : SM W T _)
      (running_stream st (Some (MkStreamedResponse evs f r u)) (Some (turnRC, modelRC)) fin ds ns)).
    unfold recordStreamDelta. destruct (stream_delta ev) as [[[kind i] c]|]; [|by exists ds].
    destruct (_ && _); [|by exists ds]. by eexists. }
  destruct (IH ds1) as (ds' & Hd). exists ds'. by eapply reaches_event.
Qed.

(** A started turn continues in the same pass. *)
Lemma advance_started prompt st fin ds ds1 ns st1 sr rcs :
  startTurn prompt (running_stream st None None fin ds ns) =
    (running_stream st1 (Some sr) (Some rcs) fin ds1 ns, None) →
  advance prompt (running_stream st None None fin ds ns) =
  advance prompt (running_stream st1 (Some sr) (Some rcs) fin ds1 ns).
Proof.
  intros Hs. unfold Stream.advance. rewrite !(bind_stream (read ss_done)). cbn [read fst snd ss_done running_stream].
  rewrite !(bind_stream (read ss_current)). cbn [read fst snd ss_current running_stream].
  rewrite !bind_stream. by rewrite Hs.
Qed.

Lemma advance_failed prompt st fin ds ns st1 e :
  startTurn prompt (running_stream st None None fin ds ns) = (running_stream st1 None None fin ds ns, Some e) →
  advance prompt (running_stream st None None fin ds ns) =
  (ended_stream (run (endRun a prompt (Some (RunFailed e))) st1).1 fin None (Some (RunFailed e)) ds ns,
   AEnd (Some (RunFailed e))).
Proof.
  intros Hs. unfold Stream.advance. rewrite (bind_stream (read ss_done)). cbn [read fst snd ss_done running_stream].
  rewrite (bind_stream (read ss_current)). cbn [read fst snd ss_current running_stream].
  rewrite bind_stream, Hs. cbn [fst snd]. unfold fail_run. by rewrite bind_stream, finish_running.
Qed.

(** The pass that completes a turn. *)
Lemma advance_completes prompt st r u turnRC modelRC fin ds ns s1 failed :
  completeTurn prompt (MkStreamedResponse [] None r u) turnRC modelRC
    (running_stream st (Some (MkStreamedResponse [] None r u)) (Some (turnRC, modelRC)) fin ds ns)
    = (s1, failed) →
  advance prompt (running_stream st (Some (MkStreamedResponse [] None r u)) (Some (turnRC, modelRC)) fin ds ns) =
  match failed with
  | Some e => fail_run a hk prompt e s1
  | None => (s1, if ss_done s1 then AEnd None else AAgain)
  end.
Proof.
  intros Hc. unfold Stream.advance. rewrite (bind_stream (read ss_done)). cbn [read fst snd ss_done running_stream].
  rewrite (bind_stream (read ss_current)). cbn [read fst snd ss_current running_stream].
  rewrite bind_stream. cbn [mret SM_ret fst snd].
  rewrite (bind_stream (read ss_current)). cbn [read fst snd ss_current running_stream].
  rewrite (bind_stream (read ss_turn)). cbn [read fst snd ss_turn running_stream sr_events sr_failure].
  rewrite bind_stream, Hc. cbn [fst snd]. by destruct failed.
Qed.

Lemma fail_run_running prompt e st cur fin ds ns :
  fail_run a hk prompt e (running_stream st cur None fin ds ns) =
  (ended_stream (run (endRun a prompt (Some e)) st).1 fin None (Some e) ds ns, AEnd (Some e)).
Proof. unfold fail_run. by rewrite bind_stream, finish_running. Qed.

(** A turn that ends a run, and one that does not, from an open stream. *)
Lemma complete_drives prompt st sr turnRC modelRC fin ds ns resp st' out :
  sr_failure sr = None →
  (∀ sr' ds', sr_response sr' = sr_response sr → sr_usage sr' = sr_usage sr →
     ends_as prompt (Some resp) ds' ns (st', out)
       (completeTurn prompt sr' turnRC modelRC
          (running_stream st (Some sr') (Some (turnRC, modelRC)) fin ds' ns))) →
  ∃ ds' s0, reaches prompt (running_stream st (Some sr) (Some (turnRC, modelRC)) fin ds ns) s0 ∧
  advance prompt s0 = match out with
    | SErr _ e => (ended_stream (run (endRun a prompt (Some e)) st').1 (Some resp) None (Some e) ds' ns, AEnd (Some e))
    | SDone _ r => (ended_stream (run (endRun a prompt None) st').1 (Some resp) (Some r) None ds' ns, AEnd None)
    | SNext _ => (running_stream st' None None (Some resp) ds' ns, AAgain)
    end.
Proof.
  intros Hf Hc. destruct (drain prompt st sr turnRC modelRC fin ds ns) as [ds' Hr]. rewrite Hf in Hr.
  specialize (Hc (MkStreamedResponse [] None (sr_response sr) (sr_usage sr)) ds' eq_refl eq_refl).
  exists ds'. eexists. split; [exact Hr|].
  destruct out as [r e|r res|r]; apply advance_completes in Hc; rewrite Hc; [|done..].
  apply fail_run_running.
Qed.

(** Two streams that take the same next step. *)
Lemma drives_same prompt s s1 k s' e :
  advance prompt s = advance prompt s1 → drives prompt k s1 s' e → drives prompt k s s' e.
Proof.
  intros Hs H. inversion H; subst;
    [apply drives_end|eapply drives_event|eapply drives_again]; by rewrite ?Hs.
Qed.
Lemma reaches_same prompt s s1 s0 s2 :
  advance prompt s = advance prompt s1 → reaches prompt s1 s0 → advance prompt s0 = (s2, AAgain) →
  reaches prompt s s2.
Proof.
  intros Hs H Ha. inversion H as [|? ? ? ? Ha1 H1|? ? ? Ha1 H1]; subst.
  - eapply reaches_again; [by rewrite Hs|constructor].
  - eapply reaches_event; [by rewrite Hs|]. eapply reaches_trans; [done|]. eapply reaches_again; [done|constructor].
  - eapply reaches_again; [by rewrite Hs|]. eapply reaches_trans; [done|]. eapply reaches_again; [done|constructor].
Qed.

(** How the outcome of the synchronous loop shows in a stream that has ended. *)
Definition outcome_agrees (prompt : string) (out : RunResult T + RunError) (st : St W)
    (s : Stream W T) (e : option RunError) : Prop :=
  (result_of s e = out ∧ ss s = (run (endRun a prompt (outcome_error out)) st).1) ∨
  (∃ er st0, out = inr (RunFailed (model_failed er)) ∧ result_of s e = inr (RunFailed (stream_failed er)) ∧
     st = failed_turn (model_failed er) st0 ∧ ss s = failed_run prompt (stream_failed er) st0).

Lemma turn_drives prompt st fin ds ns st' o :
  run (turn prompt) st = (st', o) →
  match o with
  | Some (SErr _ e) => ∃ k s' e', drives prompt k (running_stream st None None fin ds ns) s' e' ∧
      outcome_agrees prompt (inr e) st' s' e'
  | Some (SDone _ r) => ∃ k s' e', drives prompt k (running_stream st None None fin ds ns) s' e' ∧
      outcome_agrees prompt (inl r) st' s' e'
  | Some (SNext _) => ∃ fin' ds', reaches prompt (running_stream st None None fin ds ns)
      (running_stream st' None None fin' ds' ns)
  | None => False
  end.
Proof.
  intros Hrun. pose proof (startTurn_agrees prompt st fin ds ns) as (out & Eo & H).
  rewrite Hrun in Eo, H. cbn [fst snd] in Eo, H. subst o.
  destruct H as [(e & -> & Hs)|[(e & st1 & -> & Hst & Hs)|(st1 & sr & trc & mrc & resp & ds1 & Hs & Hf & Hc)]].
  - apply advance_failed in Hs. do 3 eexists. split; [by apply drives_end|]. by left.
  - apply advance_failed in Hs. do 3 eexists. split; [by apply drives_end|]. right. by exists e, st1.
  - apply advance_started in Hs.
    destruct (complete_drives prompt st1 sr trc mrc fin ds1 ns resp st' out Hf Hc) as (ds' & s0 & Hr & Ha).
    destruct out as [r e|r res|r].
    + destruct (reaches_drives _ _ _ _ _ _ Hr (drives_end _ _ _ _ Ha)) as [k Hk].
      do 3 eexists. split; [by eapply drives_same|]. by left.
    + destruct (reaches_drives _ _ _ _ _ _ Hr (drives_end _ _ _ _ Ha)) as [k Hk].
      do 3 eexists. split; [by eapply drives_same|]. by left.
    + exists (Some resp), ds'. by eapply reaches_same.
Qed.

Lemma loop_drives prompt fuel st fin ds ns st' out :
  run (runLoop fuel prompt) st = (st', Some out) →
  ∃ k s' e, drives prompt k (running_stream st None None fin ds ns) s' e ∧ outcome_agrees prompt out st' s' e.
Proof.
  revert st fin ds. induction fuel as [|fuel IH]; intros st fin ds; cbn [AgentLoop.runLoop]; [done|].
  rewrite bind_sync. cbn [AgentLoop.Step]. rewrite bind_sync.
  destruct (run (turn prompt) st) as [st1 o] eqn:Ht. cbn [fst snd].
  pose proof (turn_drives prompt st fin ds ns st1 o Ht) as Hd.
  destruct o as [[r e|r res|r]|]; cbn [run fst snd]; [..|done].
  - by intros [= <- <-].
  - by intros [= <- <-].
  - destruct Hd as (fin' & ds' & Hr). intros Hrun. destruct (IH st1 fin' ds' Hrun) as (k & s' & e & Hk & Ho).
    destruct (reaches_drives _ _ _ _ _ _ Hr Hk) as [k' Hk']. eauto 6.
Qed.

(** The first turn fails to start, or its stream is the next thing to read. *)
Lemma first_pass prompt st fin ds ns :
  (∃ e st', startTurn prompt (running_stream st None None fin ds ns) =
      (running_stream st' None None fin ds ns, Some e) ∧
    advance prompt (running_stream st None None fin ds ns) =
      (ended_stream (run (endRun a prompt (Some (RunFailed e))) st').1 fin None (Some (RunFailed e)) ds ns,
       AEnd (Some (RunFailed e)))) ∨
  (∃ st' sr rcs ds', startTurn prompt (running_stream st None None fin ds ns) =
      (running_stream st' (Some sr) (Some rcs) fin ds' ns, None) ∧
    advance prompt (running_stream st' (Some sr) (Some rcs) fin ds' ns) =
    advance prompt (running_stream st None None fin ds ns)).
Proof.
  destruct (startTurn_agrees prompt st fin ds ns)
    as (out & _ & [(e & _ & Hs)|[(e & st1 & _ & _ & Hs)|(st1 & sr & trc & mrc & resp & ds1 & Hs & _)]]).
  - left. do 2 eexists. split; [exact Hs|]. by apply advance_failed.
  - left. do 2 eexists. split; [exact Hs|]. by apply advance_failed.
  - right. do 4 eexists. split; [exact Hs|]. symmetry. by apply advance_started.
Qed.

(** Without its deltas, the bus of a streaming run has seen the events of the run. *)
Lemma merge_without_deltas k evs ds : without_deltas (merge_deltas k evs ds) = evs.
Proof.
  revert k. induction evs as [|e evs IH]; intros k; cbn [merge_deltas]; unfold without_deltas; rewrite omap_app;
    (assert (∀ l : list ModelDeltaEvent, omap (λ x : RunEvent + ModelDeltaEvent,
      match x with inl e => Some e | inr _ => None end) (inr <$> l) = []) as -> by (by intros l; induction l));
    [done|]. cbn. f_equal. apply IH.
Qed.

(** C11: a streaming run is equivalent to a synchronous one: for an agent without
    response interceptors and a run without steer queue, with a model that streams the
    responses it would return, when [Run] returns, [RunStream] followed by [Result]
    returns the same result or error and leaves the same run state, history, world and
    settings, and the event bus has seen the same sequence of events once the
    [ModelDeltaEvent]s are left out.  Only a failure of the model request is worded
    differently: then both runs are in the same state when the model fails, and each
    reports the failed turn and the end of the run with its own wording. *)
Theorem stream_equivalent fuel cfg parent rid now prompt st st' out :
  run (Run json_marshal json_object_ok unmarshal_wrapper unmarshal_T string_as_T type_name_T ctx_Err
    a su fuel cfg parent rid now prompt) st = (st', Some out) →
  ∃ fuel' s' out',
    stream_outcome json_marshal json_object_ok unmarshal_wrapper unmarshal_T string_as_T type_name_T
      ctx_Err a su requestStream streamMiddleware hk fuel' cfg None parent rid now prompt st
      = (s', Some out') ∧
    without_deltas (bus_events s') = events (ss s') ∧
    ((out' = out ∧ ss s' = st') ∨
     (∃ e p st0, out = inr (RunFailed (model_failed e)) ∧ out' = inr (RunFailed (stream_failed e)) ∧
        st' = failed_run p (model_failed e) st0 ∧ ss s' = failed_run p (stream_failed e) st0)).
Proof.
  intros Hrun. enough (∃ fuel' s' out',
    stream_outcome json_marshal json_object_ok unmarshal_wrapper unmarshal_T string_as_T type_name_T
      ctx_Err a su requestStream streamMiddleware hk fuel' cfg None parent rid now prompt st = (s', Some out') ∧
    ((out' = out ∧ ss s' = st') ∨
     (∃ e p st0, out = inr (RunFailed (model_failed e)) ∧ out' = inr (RunFailed (stream_failed e)) ∧
        st' = failed_run p (model_failed e) st0 ∧ ss s' = failed_run p (stream_failed e) st0)))
    as (fuel' & s' & out' & E & H).
  { exists fuel', s', out'. split; [done|]. split; [apply merge_without_deltas|done]. }
  revert Hrun. unfold Run, stream_outcome, RunStream. rewrite bind_sync.
  destruct (run (setup_run a su cfg parent rid now prompt) st) as [st1 [p|e]]; cbn [fst snd].
  2: { intros [= <- <-]. exists 0%nat. do 2 eexists.
       change (newAgentStream st1 None) with (running_stream st1 None None None (MkStreamLog [] []) []).
       rewrite close_queue_none. split; [done|]. by left. }
  rewrite bind_sync. destruct (run (runLoop fuel p) st1) as [st2 [o|]] eqn:Hloop; cbn [fst snd]; [|done].
  rewrite bind_sync. cbn [run]. intros [= <- <-].
  change (newAgentStream st1 None) with (running_stream st1 None None None (MkStreamLog [] []) []).
  destruct (loop_drives p fuel st1 None (MkStreamLog [] []) [] st2 o Hloop) as (k & s' & e & Hk & Ho).
  assert (∀ out', out' = result_of s' e →
    (out' = o ∧ ss s' = (run (endRun a p (outcome_error o)) st2).1) ∨
    (∃ e p0 st0, o = inr (RunFailed (model_failed e)) ∧ out' = inr (RunFailed (stream_failed e)) ∧
       (run (endRun a p (outcome_error o)) st2).1 = failed_run p0 (model_failed e) st0 ∧
       ss s' = failed_run p0 (stream_failed e) st0)) as Hout.
  { intros out' ->. destruct Ho as [Ho|(er & st0 & -> & Hr & -> & Hss)]; [by left|]. right. by exists er, p, st0. }
  rewrite bind_stream.
  destruct (first_pass p st1 None (MkStreamLog [] []) []) as [(er & st3 & Hs & Ha)|(st3 & sr & rcs & ds' & Hs & Ha)];
    rewrite Hs; cbn [fst snd].
  - rewrite bind_stream, finish_running. cbn [fst snd mret SM_ret].
    assert (s' = ended_stream (run (endRun a p (Some (RunFailed er))) st3).1 None None
      (Some (RunFailed er)) (MkStreamLog [] []) [] ∧ e = Some (RunFailed er)) as [-> ->] by (inversion Hk; split; congruence).
    exists 0%nat. do 2 eexists. split; [done|]. by apply Hout.
  - exists k, s', (result_of s' e). split; [|by apply Hout].
    apply (drives_Result _ k); [|done]. by eapply drives_same.
Qed.
End equivalence.

Module Streams.
(** The scripted models again, streaming the text of a response as one delta. *)
Definition events_of (r : ModelResponse) : list StreamEvent :=
  [PartStartEvent 0 (TextPart ""); PartDeltaEvent 0 (TextPartDelta (TextContent r)); PartEndEvent 0].
Definition streamed (r : ModelResponse) : StreamedResponse :=
  MkStreamedResponse (events_of r) None (Some r) (resp_Usage r).
Definition streaming (m : Model nat) : StreamFunc nat := λ msgs ms params w,
  match Request m msgs ms params w with
  | (w, Ok r) => (w, Ok (streamed r))
  | (w, Err e) => (w, Err e)
  end.
Definition no_hooks : SteerQueueHooks nat := MkSteerQueueHooks None None None.
End Streams.

Lemma stream_equivalent_witness :
  ∃ fuel' s' r, stream_outcome Demo.marshal (λ _, true) Scripts.no_json Scripts.parse Some "string"
      Demo.no_cancel Scripts.plain_agent Setups.setup (Streams.streaming (model Scripts.plain_agent)) []
      Streams.no_hooks fuel' Setups.config None "" "run-1" (At 1) "go" Scripts.start = (s', Some (inl r))
    ∧ Output r = "done".
Proof.
  pose (r := run (Setups.go Scripts.plain_agent 5 Setups.config) Scripts.start).
  assert (Hr : ∃ out, r.2 = Some (inl out) ∧ Output out = "done") by (vm_compute; eexists; split; reflexivity).
  destruct Hr as (out & Hr & Ho).
  assert (Hm : streaming_model Scripts.plain_agent (Streams.streaming (model Scripts.plain_agent)) []).
  { intros onC msgs ms params w. unfold buildMiddlewareChain, buildStreamMiddlewareChain, Streams.streaming.
    cbn -[Request]. destruct (Request _ msgs ms params w) as [w' [resp|e]]; [|reflexivity].
    exists (Streams.streamed resp). repeat split. }
  destruct (stream_equivalent Demo.marshal (λ _, true) Scripts.no_json Scripts.parse Some "string"
    Demo.no_cancel Scripts.plain_agent Setups.setup (Streams.streaming (model Scripts.plain_agent)) []
    Streams.no_hooks Hm eq_refl 5 Setups.config "" "run-1" (At 1) "go" Scripts.start r.1 (inl out))
    as (fuel' & s' & out' & E & _ & Hout).
  { rewrite <-Hr. unfold r, Setups.go. apply surjective_pairing. }
  destruct Hout as [[-> _]|(e & p & st0 & [=] & _)]. exists fuel', s', out. split; [exact E|exact Ho].
Defined.

(** A stream that breaks in its second turn.  [finish] describes the broken turn by the
    last response the run has seen, which is the one of the first turn: the event of
    turn 2 reports calls and none were received. *)
Definition breaking : StreamFunc nat := λ _ _ _ w,
  (S w, Ok (match w with
            | O => Streams.streamed Scripts.two_calls
            | _ => MkStreamedResponse [] (Some (ENew "connection lost")) None zero_usage
            end)).
Example broken_turn_reports_earlier_response :
  ∃ s', stream_outcome Demo.marshal (λ _, true) Scripts.no_json Scripts.parse Some "string"
    Demo.no_cancel Scripts.plain_agent Setups.setup breaking [] Streams.no_hooks 9 Setups.config None ""
    "run-1" (At 1) "go" Scripts.start = (s', Some (inr (RunFailed
      (EWrap "model stream failed: " (ENew "connection lost") "")))) ∧
  TurnCompletedEvent 2 true false "model stream failed: connection lost" ∈ events (ss s').
Proof. eexists. split; [vm_compute; reflexivity|]. apply list_elem_of_In. vm_compute. tauto. Qed.
