(* ===== verification/SteerSafety.v ===== *)
(** * Steering is reported exactly once

    Instructions enter the queue of a streaming run at any time between two passes of
    its loop.  Whatever the model, the tools and the hooks do, each accepted
    instruction is reported exactly once, as consumed by a request or as rejected, in
    the order of acceptance, and when the run has ended none is left; an instruction
    that is reported as consumed was a user prompt of a request the model accepted. *)

From S2P Require Import Prelude Errors Usage Messages AgentTypes AutoContext AgentTools AgentToolsSafety AgentLoop AgentLoopSpec AgentTurn AgentSafety Json Serialize Snapshot RunSetup RunSafety Steer Stream StreamSafety.

Section steering.
Context {W T : Type}.
Context (json_marshal : ToolValue → res string).
Context (json_object_ok : string → bool).
Context (unmarshal_wrapper : string → res (gmap string string)).
Context (unmarshal_T : string → res T).
Context (string_as_T : string → option T).
Context (type_name_T : string).
Context (ctx_Err : W → option error).
Context (a : Agent W T).
Context (requestStream : StreamFunc W) (streamMiddleware : list (StreamMiddleware W)).
Context (hk : SteerQueueHooks W).

Local Abbreviation M := (SM W T).
Local Abbreviation startTurn := (startTurn ctx_Err a requestStream streamMiddleware hk).
Local Abbreviation completeTurn := (completeTurn json_marshal json_object_ok
  unmarshal_wrapper unmarshal_T string_as_T type_name_T ctx_Err a hk).
Local Abbreviation handle_stream_response := (handle_stream_response json_marshal json_object_ok
  unmarshal_wrapper unmarshal_T string_as_T type_name_T ctx_Err a hk).
Local Abbreviation advance := (advance json_marshal json_object_ok unmarshal_wrapper unmarshal_T
  string_as_T type_name_T ctx_Err a requestStream streamMiddleware hk).

(** ** Postconditions of stream programs *)





(** Nothing of the agent rewrites the history on its way to the model. *)
Definition unfiltered : Prop :=
  autoContext a = None ∧ historyProcessors a = [] ∧ messageInterceptors a = [].

(** Programs that then leave the history alone as well. *)
Definition history (s : Stream W T) : list ModelMessage := messages (rs (ss s)).



(** ** The invariant *)

(** An instruction is a user prompt of a request among the messages. *)
Definition carries (msgs : list ModelMessage) (m : SteerMessage) : Prop :=
  ∃ ps, ModelRequest ps ∈ msgs ∧ UserPromptPart (sm_Text m) ∈ ps.

(** The instructions of the coming request are in the history; those reported as
    consumed were in a request. *)
Definition in_history (s : Stream W T) : Prop := unfiltered → ∀ m, m ∈ ss_pending s → carries (history s) m.
Definition in_request (notices : list SteerNotice) (requests : list (list ModelMessage)) : Prop :=
  unfiltered → ∀ m, SteerConsumed m ∈ notices → ∃ msgs, msgs ∈ requests ∧ carries msgs m.

Lemma in_history_none s : ss_pending s = [] → in_history s.
Proof. intros Hp Hu m. rewrite Hp. by intros ?%not_elem_of_nil. Qed.

Definition queued (q : option SteerQueue) : list SteerMessage := match q with Some q => sq_pending q | None => [] end.
Definition closed (q : option SteerQueue) : bool := match q with Some q => sq_closed q | None => true end.

(** A closed queue holds nothing, an open one at most its capacity. *)
Definition wf_queue (q : option SteerQueue) : Prop :=
  (closed q = true → queued q = []) ∧ (length (queued q) ≤ SteerQueueMaxPending)%nat.
Lemma wf_empty cl : wf_queue (Some (MkSteerQueue [] cl)).
Proof. split; [done|]. cbn. lia. Qed.
Hint Resolve wf_empty : core.

(** The accepted instructions, in order: those reported, those in the coming request,
    those waiting. *)
Definition balanced (acc : list SteerMessage) (s : Stream W T) : Prop :=
  acc = (notice_of <$> ss_notices s) ++ ss_pending s ++ queued (ss_queue s) ∧ wf_queue (ss_queue s) ∧
  in_request (ss_notices s) (sl_requests (ss_log s)).








(** What holds while a turn goes on, and after its request has been accepted. *)
Definition ongoing (acc : list SteerMessage) (s : Stream W T) : Prop :=
  balanced acc s ∧ ss_done s = false ∧ in_history s.
Definition clear (acc : list SteerMessage) (s : Stream W T) : Prop :=
  balanced acc s ∧ ss_done s = false ∧ ss_pending s = [] ∧ ss_current s = None.
Lemma clear_ongoing acc s : clear acc s → ongoing acc s.
Proof. intros (Hb & Hd & Hp & Hc). split_and!; [done..|]. by apply in_history_none. Qed.


(** ** Turns *)










(** ** The loop *)






(** ** Schedules of a run

    A run with a queue, and what its callers do between two passes of the loop: they
    add an instruction, ask for the next event, or close the stream. *)

Context (su : AgentSetup W) (cfg : runConfig) (parent newRunID : string) (now : Timestamp).




End steering.

