(* ===== verification/History.v ===== *)
(** * History processors

    src/core/normalize.go and src/core/memory/strategy.go: the processors an agent can
    run over its history before a request.  [NormalizeHistory] drops tool results
    without a call and the images of earlier turns; the memory strategies keep a
    window, a token budget, or a summary of what they drop. *)

From S2P Require Import Prelude Errors Usage Messages Truncate AgentTypes AutoContext AutoContextSafety AgentTools AgentToolsSafety AgentLoop AgentLoopSpec AgentTurn AgentSafety.

Definition CompactionStrategyHistoryProcessor : string := "history_processor".

(** ** Normalisation *)

(** One part: dropped ([None]) or kept, without images in a completed turn. *)
Definition normalize_part (callIDs : list string) (is_last : bool) (p : RequestPart) : option RequestPart :=
  match p with
  | ToolReturnPart name content id images =>
    if negb (String.eqb id "") && negb (bool_decide (id ∈ callIDs)) then None
    else if negb is_last && negb (bool_decide (images = [])) then Some (ToolReturnPart name content id [])
    else Some p
  | _ => Some p
  end.
Definition normalize_message (callIDs : list string) (is_last : bool) (m : ModelMessage) : option ModelMessage :=
  match m with
  | Response _ => Some m
  | ModelRequest ps =>
    match omap (normalize_part callIDs is_last) ps with
    | [] => None
    | filtered => Some (ModelRequest filtered)
    end
  end.
Definition nonempty_call_ids (m : ModelMessage) : list string :=
  filter (λ id, id ≠ "") (call_ids m).

(** Whether a part or a request is changed. *)
Definition part_changes (callIDs : list string) (is_last : bool) (p : RequestPart) : bool :=
  match p with
  | ToolReturnPart _ _ id images =>
    (negb (String.eqb id "") && negb (bool_decide (id ∈ callIDs)))
    || (negb is_last && negb (bool_decide (images = [])))
  | _ => false
  end.
Definition message_changes (callIDs : list string) (is_last : bool) (m : ModelMessage) : bool :=
  match m with
  | Response _ => false
  | ModelRequest ps =>
    existsb (part_changes callIDs is_last) ps
    || bool_decide (omap (normalize_part callIDs is_last) ps = [])
  end.

(** The loop; a request is the last one when none follows. *)
Fixpoint normalize_from (callIDs : list string) (msgs : list ModelMessage) : list ModelMessage :=
  match msgs with
  | [] => []
  | m :: rest =>
    option_list (normalize_message callIDs (negb (existsb is_request rest)) m) ++ normalize_from callIDs rest
  end.
Fixpoint changed_from (callIDs : list string) (msgs : list ModelMessage) : bool :=
  match msgs with
  | [] => false
  | m :: rest => message_changes callIDs (negb (existsb is_request rest)) m || changed_from callIDs rest
  end.
Definition normalized (msgs : list ModelMessage) : list ModelMessage :=
  normalize_from (msgs ≫= nonempty_call_ids) msgs.

Definition NormalizeHistory {W} : HistoryProcessor W := λ msgs w,
  let result := normalized msgs in
  (w, (if changed_from (msgs ≫= nonempty_call_ids) msgs
       then [MkContextCompactionStats CompactionStrategyHistoryProcessor
               (Z.of_nat (length msgs)) (Z.of_nat (length result))]
       else [], Ok result)).

(** ** Memory strategies *)

(** [SlidingWindowMemory]; [None] is Go's panic on an index out of range. *)
Definition SlidingWindowMemory (windowSize : Z) (msgs : list ModelMessage) : option (list ModelMessage) :=
  let len := Z.of_nat (length msgs) in
  if len <=? windowSize * 2 + 1 then Some msgs
  else
    let start := len - windowSize * 2 in
    let start := if start <? 1 then 1 else start in
    if start >? 1 then
      match msgs !! Z.to_nat start with
      | None => None
      | Some m =>
        let start := if is_request m then start - 1 else start in
        Some (firstn 1 msgs ++ skipn (Z.to_nat start) msgs)
      end
    else Some (firstn 1 msgs ++ skipn (Z.to_nat start) msgs).

(** Four bytes to a token; an empty history counts as one. *)
Definition request_part_estimate (p : RequestPart) : Z :=
  match p with
  | SystemPromptPart c | UserPromptPart c | ToolReturnPart _ c _ _ | RetryPromptPart c _ _ => strlen c / 4
  | _ => 0
  end.
Definition response_part_estimate (p : ResponsePart) : Z :=
  match p with
  | TextPart c | ThinkingPart c _ => strlen c / 4
  | CallPart c => strlen (tc_ArgsJSON c) / 4
  | ProviderMetadataPart _ _ _ => 0
  end.
Definition message_estimate (m : ModelMessage) : Z :=
  match m with
  | ModelRequest ps => foldr Z.add 0 (request_part_estimate <$> ps)
  | Response r => foldr Z.add 0 (response_part_estimate <$> resp_Parts r)
  end.
Definition estimateMessageTokens (msgs : list ModelMessage) : Z :=
  let total := foldr Z.add 0 (message_estimate <$> msgs) in
  if total =? 0 then 1 else total.

(** The loop drops the second and third message while more than three are left; the
    length is enough fuel. *)
Fixpoint drop_pairs (fuel : nat) (maxTokens : Z) (result : list ModelMessage) : list ModelMessage :=
  match fuel with
  | O => result
  | S fuel =>
    if (3 <? length result)%nat && (estimateMessageTokens result >? maxTokens)
    then drop_pairs fuel maxTokens (firstn 1 result ++ skipn 3 result)
    else result
  end.
Definition TokenBudgetMemory (maxTokens : Z) (msgs : list ModelMessage) : list ModelMessage :=
  if estimateMessageTokens msgs <=? maxTokens then msgs
  else if (length msgs <=? 2)%nat then msgs
  else drop_pairs (length msgs) maxTokens msgs.

Definition summary_line (m : ModelMessage) : string :=
  match m with
  | ModelRequest ps =>
    String.concat "" (omap (λ p, match p with
      | UserPromptPart c => Some ("User: " +:+ c +:+ nl) | _ => None end) ps)
  | Response r => if String.eqb (TextContent r) "" then "" else "Assistant: " +:+ TextContent r +:+ nl
  end.
Definition summary_request (msgs : list ModelMessage) : list ModelMessage :=
  [ModelRequest [UserPromptPart ("Summarize this conversation concisely:" +:+ nl
    +:+ String.concat "" (summary_line <$> msgs))]].

Section summary.
Context {W : Type}.

(** [SummaryMemory]: at most [maxMessages] are left alone. *)
Definition SummaryMemory (summarizer : Model W) (maxMessages : Z) (msgs : list ModelMessage) (w : W)
    : W * res (list ModelMessage) :=
  let len := Z.of_nat (length msgs) in
  if len <=? maxMessages then (w, Ok msgs)
  else
    let keepLast := Z.quot maxMessages 2 in
    let keepLast := if keepLast <? 1 then 1 else keepLast in
    if keepLast >=? len then (w, Ok msgs)
    else
      let toSummarize := skipn 1 (firstn (Z.to_nat (len - keepLast)) msgs) in
      if bool_decide (toSummarize = []) then (w, Ok msgs)
      else
        match Request summarizer (summary_request toSummarize) None
                (MkModelRequestParameters [] (OutputModeOther "") [] None true) w with
        | (w, Err e) => (w, Err (EWrap "summary memory: " e ""))
        | (w, Ok resp) =>
          let summary := if String.eqb (TextContent resp) "" then "(conversation summary unavailable)"
                         else TextContent resp in
          let recentStart := recent_start msgs keepLast in
          (w, Ok (firstn 1 msgs
                  ++ [Response (MkModelResponse [TextPart ("[Conversation Summary] " +:+ summary)]
                        zero_usage "" (FinishReasonOther ""))]
                  ++ skipn (Z.to_nat recentStart) msgs))
        end.
End summary.

(** ** Valid histories

    What a provider accepts: roles alternate, every call is answered by the next
    request, and a request answers only calls of the response before it. *)
Fixpoint linked (calls : list string) (msgs : list ModelMessage) : Prop :=
  match msgs with
  | [] => True
  | ModelRequest ps :: rest => (∀ id, id ∈ omap answers ps → id = "" ∨ id ∈ calls) ∧ linked [] rest
  | Response r :: rest => linked (call_ids (Response r)) rest
  end.
Definition valid_history (msgs : list ModelMessage) : Prop :=
  alternating true msgs ∧ paired msgs ∧ linked [] msgs.

Lemma paired_drop i msgs : paired msgs → paired (drop i msgs).
Proof.
  revert i. induction msgs as [|[ps|r] msgs IH]; intros [|i] H; try done; cbn in *; apply IH; tauto.
Qed.
Lemma linked_drop prev prev' i msgs r :
  linked prev msgs → msgs !! i = Some (Response r) → linked prev' (drop i msgs).
Proof.
  revert prev i. induction msgs as [|[ps|r'] msgs IH]; intros prev [|i] H Hi; try done; cbn in *.
  - eapply IH; [apply H|done].
  - by eapply IH.
Qed.

(** Cutting out messages after the first keeps a history valid, when the rest starts
    with a response. *)
Lemma valid_cut msgs i r :
  valid_history msgs → msgs !! i = Some (Response r) → valid_history (firstn 1 msgs ++ skipn i msgs).
Proof.
  intros (Ha & Hp & Hl) Hi. pose proof (alternating_drop _ _ _ _ Ha Hi) as Ha'.
  pose proof (paired_drop i _ Hp) as Hp'. pose proof (linked_drop [] [] i _ _ Hl Hi) as Hl'.
  destruct msgs as [|[ps|r0] msgs]; [done| |by destruct Ha].
  change (firstn 1 (ModelRequest ps :: msgs)) with [ModelRequest ps].
  split_and!; cbn -[skipn] in *; try done; by split; [apply Hl|].
Qed.

Lemma head_cut (msgs : list ModelMessage) (i : nat) : (length msgs > 0)%nat → head (firstn 1 msgs ++ skipn i msgs) = head msgs.
Proof. by destruct msgs; [cbn; lia|]. Qed.
Lemma last_cut (msgs : list ModelMessage) (i : nat) : (i < length msgs)%nat → last (firstn 1 msgs ++ skipn i msgs) = last msgs.
Proof.
  intros Hi. assert (∃ m, last (skipn i msgs) = Some m) as [m Hm].
  { destruct (last (skipn i msgs)) eqn:E; [by eexists|]. apply last_None, (f_equal length) in E.
    rewrite length_drop in E. cbn in E. lia. }
  rewrite last_app, Hm. rewrite <-(take_drop i msgs), last_app. by rewrite Hm.
Qed.

(** A window of [n] pairs keeps a valid history valid: [SlidingWindowMemory] with
    a positive window returns a valid history of at most [2 n + 2] messages with the
    same first and last message. *)
Theorem SlidingWindowMemory_valid n msgs :
  1 ≤ n → valid_history msgs → ∃ out,
  SlidingWindowMemory n msgs = Some out ∧ valid_history out ∧ Z.of_nat (length out) ≤ 2 * n + 2 ∧
  head out = head msgs ∧ last out = last msgs.
Proof.
  intros Hn Hv. unfold SlidingWindowMemory. destruct (Z.leb_spec (Z.of_nat (length msgs)) (n * 2 + 1)) as [|Hlen].
  { exists msgs. split_and!; try done. lia. }
  destruct (Z.ltb_spec (Z.of_nat (length msgs) - n * 2) 1); [lia|].
  set (start := Z.of_nat (length msgs) - n * 2). destruct (Z.gtb_spec start 1); [|lia].
  destruct (lookup_lt_is_Some_2 msgs (Z.to_nat start)) as [m Hm]; [lia|]. rewrite Hm.
  assert (∃ i r, Z.to_nat (if is_request m then start - 1 else start) = i ∧ msgs !! i = Some (Response r) ∧
    (Z.to_nat start - 1 ≤ i ≤ Z.to_nat start)%nat) as (i & r & -> & Hi & Hb).
  { destruct m as [ps|r]; cbn [is_request]; [|exists (Z.to_nat start), r; split_and!; [done|done|lia..]].
    destruct (lookup_lt_is_Some_2 msgs (Z.to_nat (start - 1))) as [m' Hm']; [lia|].
    replace (Z.to_nat start) with (S (Z.to_nat (start - 1))) in Hm by lia.
    pose proof (alternating_lookup _ _ _ _ _ (proj1 Hv) Hm' Hm) as Hr.
    destruct m' as [?|r]; [done|]. eexists _, r. split_and!; [done|done|lia..]. }
  eexists. split; [done|]. split_and!.
  - by eapply valid_cut.
  - rewrite length_app, length_take, length_drop. lia.
  - apply head_cut. lia.
  - apply last_cut. lia.
Qed.

(** A window of zero pairs panics on every history of two messages or more. *)
Lemma SlidingWindowMemory_zero_panics msgs : (2 ≤ length msgs)%nat → SlidingWindowMemory 0 msgs = None.
Proof.
  intros H. unfold SlidingWindowMemory. destruct (Z.leb_spec (Z.of_nat (length msgs)) (0 * 2 + 1)); [lia|].
  destruct (Z.ltb_spec (Z.of_nat (length msgs) - 0 * 2) 1); [lia|].
  destruct (Z.gtb_spec (Z.of_nat (length msgs) - 0 * 2) 1); [|lia].
  by rewrite lookup_ge_None_2 by lia.
Qed.

(** *** The token budget *)

Lemma valid_drop_pair msgs :
  (3 < length msgs)%nat → valid_history msgs →
  valid_history (firstn 1 msgs ++ skipn 3 msgs).
Proof.
  intros Hl Hv. destruct msgs as [|m0 [|m1 [|m2 [|m3 msgs]]]]; cbn in Hl; try lia.
  destruct m3 as [ps|r]; [|by eapply (valid_cut _ 3)].
  destruct Hv as [(H0 & H1 & H2 & H3 & _) _]. by destruct m0.
Qed.

Lemma drop_pairs_spec fuel maxTokens msgs :
  (length msgs ≤ fuel)%nat → valid_history msgs →
  let out := drop_pairs fuel maxTokens msgs in
  valid_history out ∧ (estimateMessageTokens out ≤ maxTokens ∨ (length out ≤ 3)%nat) ∧
  head out = head msgs ∧ last out = last msgs ∧ (length out ≤ length msgs)%nat.
Proof.
  revert msgs. induction fuel as [|fuel IH]; intros msgs Hf Hv; cbn [drop_pairs].
  { split_and!; [done| |done..]. right. lia. }
  destruct (Nat.ltb_spec 3 (length msgs)) as [Hl|]; cbn [andb]; [|split_and!; [done|right; lia|done..]].
  destruct (Z.gtb_spec (estimateMessageTokens msgs) maxTokens);
    [|split_and!; [done|left; lia|done..]].
  assert (length (firstn 1 msgs ++ skipn 3 msgs) < length msgs)%nat as Hlen.
  { rewrite length_app, length_take, length_drop. lia. }
  destruct (IH (firstn 1 msgs ++ skipn 3 msgs)) as (H1 & H2 & H3 & H4 & H5); [lia|by apply valid_drop_pair|].
  split_and!; [done|done| | |lia].
  - rewrite H3. apply head_cut. lia.
  - rewrite H4. apply last_cut. lia.
Qed.

(** [TokenBudgetMemory] keeps a valid history valid: it returns a valid history
    with the same first and last message that is within the budget, or that has only
    three messages left to keep. *)
Theorem TokenBudgetMemory_valid maxTokens msgs :
  valid_history msgs →
  let out := TokenBudgetMemory maxTokens msgs in
  valid_history out ∧ (estimateMessageTokens out ≤ maxTokens ∨ (length out ≤ 3)%nat) ∧
  head out = head msgs ∧ last out = last msgs ∧ (length out ≤ length msgs)%nat.
Proof.
  intros Hv. unfold TokenBudgetMemory.
  destruct (Z.leb_spec (estimateMessageTokens msgs) maxTokens); [split_and!; [done|by left|done..]|].
  destruct (Nat.leb_spec (length msgs) 2); [split_and!; [done|right; lia|done..]|].
  by apply drop_pairs_spec.
Qed.

(** *** The summary *)

(** Roles still alternate after a summary. *)
Lemma SummaryMemory_alternates {W} (m : Model W) maxMessages msgs w w' out :
  alternating true msgs → SummaryMemory m maxMessages msgs w = (w', Ok out) → alternating true out.
Proof.
  intros Ha. unfold SummaryMemory. destruct (_ <=? _); [by intros [= <- <-]|].
  set (keep := if _ <? 1 then 1 else _). assert (0 < keep) as Hk.
  { unfold keep. destruct (Z.ltb_spec (Z.quot maxMessages 2) 1); lia. }
  destruct (Z.geb_spec keep (Z.of_nat (length msgs))); [by intros [= <- <-]|].
  case_bool_decide as Hold; [by intros [= <- <-]|].
  destruct (Request _ _ _ _ w) as [w1 [resp|e]]; [|done]. intros [= <- <-].
  destruct (decide (1 < recent_start msgs keep)) as [Hs|Hs].
  - destruct (recent_start_request msgs keep) as [Hd Hb]; [done|lia|done|].
    destruct msgs as [|m0 msgs]; [cbn in *; lia|]. destruct Ha as [Hm Ha]. by split_and!.
  - exfalso. apply Hold, skipn_all2. rewrite length_take. unfold recent_start in Hs.
    destruct (Z.gtb_spec (Z.of_nat (length msgs) - keep) 1) as [Hg|]; [|lia].
    destruct (msgs !! Z.to_nat (Z.of_nat (length msgs) - keep)) as [[ps|r]|] eqn:E; [lia| |lia].
    replace (Z.to_nat (Z.of_nat (length msgs) - keep)) with 2%nat in E by lia.
    destruct msgs as [|m0 [|m1 [|m2 msgs]]]; try done. cbn in E. simplify_eq. by destruct Ha as (_ & _ & ? & _).
Qed.

(** *** Normalised histories *)

Lemma option_list_length {A} (o : option A) : (length (option_list o) ≤ 1)%nat.
Proof. destruct o; cbn; lia. Qed.
Lemma normalize_length ids msgs : (length (normalize_from ids msgs) ≤ length msgs)%nat.
Proof.
  induction msgs as [|m msgs IH]; cbn [normalize_from length]; [lia|]. rewrite length_app.
  pose proof (option_list_length (normalize_message ids (negb (existsb is_request msgs)) m)). lia.
Qed.

(** Whether a part or a message stays as it is. *)
Lemma part_unchanged ids b p : part_changes ids b p = false ↔ normalize_part ids b p = Some p.
Proof.
  destruct p; cbn; try done. destruct (_ && _); cbn; [done|].
  destruct b; cbn; [done|]. case_bool_decide; cbn; [done|]. split; [done|]. intros [= E]. congruence.
Qed.
Lemma omap_length_le {A B} (f : A → option B) (l : list A) : (length (omap f l) ≤ length l)%nat.
Proof. induction l as [|x l IH]; cbn; [lia|]. destruct (f x); cbn in *; lia. Qed.
Lemma parts_unchanged ids b ps :
  existsb (part_changes ids b) ps = false ↔ omap (normalize_part ids b) ps = ps.
Proof.
  induction ps as [|p ps IH]; [done|]. cbn [existsb]. rewrite orb_false_iff, IH, part_unchanged.
  change (omap (normalize_part ids b) (p :: ps)) with
    (match normalize_part ids b p with Some q => q :: omap (normalize_part ids b) ps
     | None => omap (normalize_part ids b) ps end).
  destruct (normalize_part ids b p) as [q|]; [split; [by intros [[= ->] ->]|by intros [= -> ->]]|].
  split; [by intros [? _]|]. intros E. exfalso. apply (f_equal length) in E. cbn in E.
  pose proof (omap_length_le (normalize_part ids b) ps). lia.
Qed.
Lemma message_unchanged ids b m : message_changes ids b m = false ↔ normalize_message ids b m = Some m.
Proof.
  destruct m as [ps|r]; [|done]. cbn. rewrite orb_false_iff, bool_decide_eq_false, parts_unchanged.
  destruct (omap (normalize_part ids b) ps) as [|p qs]; [split; [by intros [_ ?]|done]|].
  split; [intros [E _]; cbn; by rewrite E|]. intros [= <-]. by split.
Qed.
Lemma changed_iff ids msgs : changed_from ids msgs = false ↔ normalize_from ids msgs = msgs.
Proof.
  induction msgs as [|m msgs IH]; [done|]. cbn [changed_from normalize_from].
  rewrite orb_false_iff, IH, message_unchanged.
  destruct (normalize_message ids _ m) as [m'|]; cbn [option_list app].
  { split; [by intros [[= ->] ->]|by intros [= -> ->]]. }
  split; [by intros [? _]|]. intros E. exfalso. apply (f_equal length) in E. pose proof (normalize_length ids msgs). cbn in E. lia.
Qed.

(** Calls and responses are kept. *)
Lemma normalize_calls ids msgs : normalize_from ids msgs ≫= nonempty_call_ids = msgs ≫= nonempty_call_ids.
Proof.
  induction msgs as [|m msgs IH]; [done|]. cbn [normalize_from]. rewrite bind_app, IH, bind_cons. f_equal.
  destruct m as [ps|r]; cbn; [|by rewrite app_nil_r]. by destruct (omap _ ps).
Qed.
Lemma normalize_has_request ids msgs :
  existsb is_request msgs = false → existsb is_request (normalize_from ids msgs) = false.
Proof.
  induction msgs as [|m msgs IH]; [done|]. cbn. intros [Hm Hr]%orb_false_iff.
  destruct m as [ps|r]; [done|]. cbn. auto.
Qed.

(** A normalised message is not changed again, in the last turn or not. *)
Lemma part_stable ids b b' p q :
  normalize_part ids b p = Some q → (b = true → b' = true) → part_changes ids b' q = false.
Proof.
  destruct p; cbn; try by intros [= <-].
  destruct (negb (_ =? "")%string && negb (bool_decide _)) eqn:E1; [done|].
  destruct (negb b && negb (bool_decide (images = []))) eqn:E2; intros [= <-] Hb; cbn -[bool_decide];
    rewrite E1; cbn -[bool_decide]; [by rewrite bool_decide_eq_true_2, andb_false_r|].
  destruct b; [by rewrite Hb|]. cbn -[bool_decide] in E2. by rewrite E2, andb_false_r.
Qed.
Lemma message_stable ids b b' m m' :
  normalize_message ids b m = Some m' → (b = true → b' = true) → message_changes ids b' m' = false.
Proof.
  destruct m as [ps|r]; cbn; [|by intros [= <-]].
  destruct (omap (normalize_part ids b) ps) as [|q qs] eqn:E; [done|]. intros [= <-] Hb.
  apply message_unchanged. unfold normalize_message.
  assert (omap (normalize_part ids b') (q :: qs) = q :: qs) as ->; [|done].
  apply parts_unchanged. apply Bool.not_true_is_false. intros (p & Hp & Hc)%existsb_exists.
  apply list_elem_of_In in Hp. rewrite <-E in Hp. apply list_elem_of_omap in Hp as (p0 & _ & Hp0).
  by rewrite (part_stable _ _ _ _ _ Hp0 Hb) in Hc.
Qed.
Lemma normalize_stable ids msgs : changed_from ids (normalize_from ids msgs) = false.
Proof.
  induction msgs as [|m msgs IH]; [done|]. cbn [normalize_from].
  destruct (normalize_message ids _ m) as [m'|] eqn:E; [|done].
  change (option_list (Some m') ++ ?l) with (m' :: l). cbn [changed_from].
  rewrite IH, orb_false_r. eapply message_stable; [done|]. intros Hb. apply negb_true_iff in Hb.
  by rewrite normalize_has_request.
Qed.

(** A tool result of a history, and whether it carries images. *)
Definition returns (m : ModelMessage) : list (string * bool) :=
  match m with
  | ModelRequest ps => omap (λ p, match p with
      | ToolReturnPart _ _ id images => Some (id, negb (bool_decide (images = []))) | _ => None end) ps
  | Response _ => []
  end.

Lemma normalize_part_return ids b p q :
  normalize_part ids b p = Some q →
  match q with
  | ToolReturnPart _ _ id images => (id = "" ∨ id ∈ ids) ∧ (b = false → images = [])
  | _ => True
  end.
Proof.
  destruct p; cbn -[bool_decide]; try by intros [= <-].
  destruct (negb (_ =? "")%string && negb (bool_decide _)) eqn:E1; [done|].
  assert (toolCallID = "" ∨ toolCallID ∈ ids) as Hid.
  { apply andb_false_iff in E1 as [E1|E1]; apply negb_false_iff in E1; [left; by apply String.eqb_eq|right].
    by apply bool_decide_eq_true in E1. }
  destruct (negb b && _) eqn:E2; intros [= <-]; [done|]. split; [done|]. intros ->. cbn -[bool_decide] in E2.
  by apply negb_false_iff, bool_decide_eq_true in E2.
Qed.

Lemma normalized_returns ids msgs m x :
  m ∈ normalize_from ids msgs → x ∈ returns m → x.1 = "" ∨ x.1 ∈ ids.
Proof.
  induction msgs as [|m0 msgs IH]; cbn [normalize_from]; [by rewrite elem_of_nil|].
  rewrite elem_of_app. intros [Hm|Hm] Hx; [|by apply IH].
  destruct m0 as [ps|r]; cbn in Hm.
  2: { apply list_elem_of_singleton in Hm as ->. by apply elem_of_nil in Hx. }
  destruct (omap _ ps) as [|q qs] eqn:E; cbn in Hm; [by apply elem_of_nil in Hm|].
  apply list_elem_of_singleton in Hm as ->. unfold returns in Hx. rewrite <-E in Hx.
  apply list_elem_of_omap in Hx as (p & Hp & Hx). apply list_elem_of_omap in Hp as (p0 & _ & Hp).
  apply normalize_part_return in Hp. destruct p; try done. injection Hx as <-. apply Hp.
Qed.

Lemma normalized_images ids msgs l1 m l2 x :
  normalize_from ids msgs = l1 ++ m :: l2 → x ∈ returns m → x.2 = true → existsb is_request l2 = false.
Proof.
  revert l1. induction msgs as [|m0 msgs IH]; intros l1 E Hx Hi; cbn [normalize_from] in E; [by destruct l1|].
  destruct (normalize_message ids _ m0) as [m0'|] eqn:En; cbn [option_list app] in E; [|by eapply IH].
  destruct l1 as [|m1 l1]; cbn in E; simplify_eq; [|by eapply IH].
  destruct (existsb is_request msgs) eqn:Er; [|by apply normalize_has_request].
  exfalso. destruct m0 as [ps|r]; cbn in En; simplify_eq/=; [|by apply elem_of_nil in Hx].
  destruct (omap (normalize_part ids false) ps) as [|q qs] eqn:E; simplify_eq. unfold returns in Hx.
  rewrite <-E in Hx. apply list_elem_of_omap in Hx as (p & Hp & Hx).
  apply list_elem_of_omap in Hp as (p0 & _ & Hp). apply normalize_part_return in Hp.
  destruct p; try done. injection Hx as <-. cbn in Hi. destruct Hp as [_ Hp]. by rewrite Hp in Hi.
Qed.

(** [NormalizeHistory] does what it says, for every history: no tool result is
    left without a call in the history; tool results carry images only in the last
    request; the calls of the responses are kept; a second pass changes nothing; and a
    compaction is reported exactly when something changed. *)
Theorem NormalizeHistory_correct {W} msgs (w : W) :
  let out := normalized msgs in
  (∃ stats, NormalizeHistory msgs w = (w, (stats, Ok out)) ∧ (stats = [] ↔ out = msgs)) ∧
  (∀ m x, m ∈ out → x ∈ returns m → x.1 = "" ∨ x.1 ∈ out ≫= call_ids) ∧
  (∀ l1 m l2 x, out = l1 ++ m :: l2 → x ∈ returns m → x.2 = true → existsb is_request l2 = false) ∧
  out ≫= nonempty_call_ids = msgs ≫= nonempty_call_ids ∧
  NormalizeHistory out w = (w, ([], Ok out)).
Proof.
  intros out. pose proof (normalize_calls (msgs ≫= nonempty_call_ids) msgs) as Hc. fold (normalized msgs) in Hc.
  split_and!.
  - unfold NormalizeHistory. eexists. split; [done|]. fold out.
    pose proof (changed_iff (msgs ≫= nonempty_call_ids) msgs) as Hch.
    destruct (changed_from _ msgs); [|naive_solver]. split; [done|]. intros E. naive_solver.
  - intros m x Hm Hx. destruct (normalized_returns _ _ _ _ Hm Hx) as [|H]; [by left|]. right.
    rewrite <-Hc in H. apply list_elem_of_bind in H as (m' & H & Hm'). apply list_elem_of_bind.
    exists m'. split; [|done]. unfold nonempty_call_ids in H. by apply list_elem_of_filter in H as [_ H].
  - intros l1 m l2 x. apply normalized_images.
  - done.
  - pose proof (normalize_stable (msgs ≫= nonempty_call_ids) msgs) as Hs. fold (normalized msgs) in Hs.
    fold out in Hc, Hs. assert (normalized out = out) as E.
    { unfold normalized at 1. rewrite Hc. by apply changed_iff. }
    unfold NormalizeHistory. by rewrite Hc, Hs, E.
Qed.

(** The documentation asks for a call in a _preceding_ response; a result before its
    call is kept as well. *)
Lemma early_return_kept :
  let msgs := [ModelRequest [ToolReturnPart "read" "ok" "1" []];
    Response (MkModelResponse [CallPart (MkToolCallPart "read" "{}" "1" ∅)] zero_usage "" FinishReasonToolCall)] in
  normalized msgs = msgs.
Proof. vm_compute. reflexivity. Qed.

(** A summary can leave the result of a call that was summarised away: from the valid
    history of five messages it keeps the last one, whose call is gone. *)
Definition summarizer : Model unit :=
  MkModel (λ _ _ _ w, (w, Ok (MkModelResponse [TextPart "summary"] zero_usage "" FinishReasonStop))) "summary".
Lemma demo_history_valid : valid_history demo_history.
Proof. split_and!; vm_compute; try tauto; repeat split; intros; set_solver. Qed.
Lemma SummaryMemory_leaves_orphans :
  valid_history demo_history ∧
  ∃ out, SummaryMemory summarizer 2 demo_history tt = (tt, Ok out) ∧ ¬ no_orphans out ∧ ¬ valid_history out.
Proof.
  split; [exact demo_history_valid|]. eexists. split; [vm_compute; reflexivity|]. split.
  - intros H. destruct (H (ModelRequest [ToolReturnPart "test" "ok" "2" []]) "2") as [|H']; [set_solver|..].
    + vm_compute. set_solver.
    + done.
    + vm_compute in H'. set_solver.
  - intros (_ & _ & H). vm_compute in H. set_solver.
Qed.

Lemma SlidingWindowMemory_valid_witness :
  ∃ out, SlidingWindowMemory 1 demo_history = Some out ∧ valid_history out ∧ length out = 3%nat.
Proof.
  destruct (SlidingWindowMemory_valid 1 demo_history) as (out & E & Hv & _); [lia|exact demo_history_valid|].
  exists out. split; [exact E|]. split; [exact Hv|]. vm_compute in E. injection E as <-. reflexivity.
Defined.

Lemma TokenBudgetMemory_valid_witness :
  valid_history (TokenBudgetMemory 3 demo_history) ∧ length (TokenBudgetMemory 3 demo_history) = 3%nat.
Proof.
  split; [|vm_compute; reflexivity]. exact (proj1 (TokenBudgetMemory_valid 3 demo_history demo_history_valid)).
Defined.
