(* ===== verification/EventBus.v ===== *)
(** * The event bus

    src/core/eventbus.go: typed publish and subscribe.  [Publish] calls the subscribers
    of an event's type; [PublishAsync] queues the event with the subscribers of that
    moment, and one dispatch goroutine delivers the queue.  A step is one section under
    a mutex or one call of a handler: both publications copy the subscribers under [mu]
    in one step and go on in later ones, [PublishAsync] with its append under [queueMu]
    and [Publish] handler by handler, and everything else may come in between.
    Handlers act on a world.  A handler that panics ends the process and is not
    modelled. *)

From S2P Require Import Prelude.

Section bus.
Context {W K E : Type} `{Countable K} (type_of : E → K).

Record subscriberEntry := MkSubscriber { sub_id : Z; sub_fn : E → W → W }.
Record queuedEvent := MkQueuedEvent { qe_subs : list subscriberEntry; qe_arg : E }.
Record EventBus := MkEventBus {
  subscribers : gmap K (list subscriberEntry);
  bus_nextID : Z;
  bus_queue : list queuedEvent;
  bus_closed : bool;
}.
#[export] Instance EventBus_eta : RecordEta EventBus := λ b,
  MkEventBus (subscribers b) (bus_nextID b) (bus_queue b) (bus_closed b).
Definition NewEventBus : EventBus := MkEventBus ∅ 0 [] false.

Definition entries (k : K) (bus : EventBus) : list subscriberEntry := default [] (subscribers bus !! k).

(** ** Operations *)

(** [Subscribe] returns the identifier its unsubscribe function closes over. *)
Definition Subscribe (k : K) (handler : E → W → W) (bus : EventBus) : EventBus * Z :=
  let id := bus_nextID bus in
  (bus <| bus_nextID := id + 1 |>
       <| subscribers ::= <[k := entries k bus ++ [MkSubscriber id handler]]> |>, id).

(** The function [Subscribe] returns: the first entry with the identifier goes. *)
Fixpoint remove_entry (id : Z) (subs : list subscriberEntry) : list subscriberEntry :=
  match subs with
  | [] => []
  | s :: subs => if sub_id s =? id then subs else s :: remove_entry id subs
  end.
Definition unsubscribe (k : K) (id : Z) (bus : EventBus) : EventBus :=
  if existsb (λ s, sub_id s =? id) (entries k bus)
  then bus <| subscribers ::= <[k := remove_entry id (entries k bus)]> |>
  else bus.

Definition snapshotSubscribers (event : E) (bus : EventBus) : list subscriberEntry :=
  entries (type_of event) bus.

Definition dispatchSubscribers (subs : list subscriberEntry) (arg : E) (w : W) : W :=
  foldl (λ w s, sub_fn s arg w) w subs.

Definition Publish (event : E) (bus : EventBus) (w : W) : W :=
  dispatchSubscribers (snapshotSubscribers event bus) event w.

Definition enqueue (event : queuedEvent) (bus : EventBus) : EventBus :=
  if bus_closed bus then bus else bus <| bus_queue ::= λ q, q ++ [event] |>.

Definition PublishAsync (event : E) (bus : EventBus) : EventBus :=
  match snapshotSubscribers event bus with
  | [] => bus
  | subs => enqueue (MkQueuedEvent subs event) bus
  end.

(** [Close] up to its wait for the dispatch goroutine. *)
Definition CloseBus (bus : EventBus) : EventBus := bus <| bus_closed := true |>.

(** How [dequeue] returns: it waits, has an event, or ends the loop. *)
Inductive Dequeued := QWait | QEvent (e : queuedEvent) | QEnd.
Definition dequeue (bus : EventBus) : EventBus * Dequeued :=
  match bus_queue bus with
  | [] => (bus, if bus_closed bus then QEnd else QWait)
  | e :: q => (bus <| bus_queue := q |>, QEvent e)
  end.

(** ** The goroutines

    Where the dispatch goroutine stands: about to take an event, in the middle of
    calling handlers, or gone. *)
Inductive Dispatcher :=
| DIdle
| DCalling (subs : list subscriberEntry) (arg : E)
| DExited.

(** Where another goroutine stands inside a publication, after it has copied the
    subscribers: about to [enqueue], or calling the remaining handlers. *)
Inductive Inflight :=
| InAsync (e : queuedEvent)
| InSync (subs : list subscriberEntry) (arg : E).

(** [bs_log] records the asynchronous deliveries. *)
Record BusState := MkBusState {
  bs_bus : EventBus;
  bs_calls : gmap nat Inflight;
  bs_dispatcher : Dispatcher;
  bs_world : W;
  bs_log : list (Z * E);
}.
#[export] Instance BusState_eta : RecordEta BusState := λ s,
  MkBusState (bs_bus s) (bs_calls s) (bs_dispatcher s) (bs_world s) (bs_log s).

(** One step of [dispatchLoop]; a waiting loop stays where it is. *)
Definition dispatch_step (s : BusState) : BusState :=
  match bs_dispatcher s with
  | DExited => s
  | DCalling [] _ => s <| bs_dispatcher := DIdle |>
  | DCalling (sub :: subs) arg =>
    s <| bs_dispatcher := DCalling subs arg |> <| bs_world ::= sub_fn sub arg |>
      <| bs_log ::= λ l, l ++ [(sub_id sub, arg)] |>
  | DIdle =>
    match dequeue (bs_bus s) with
    | (bus, QEvent e) => s <| bs_bus := bus |> <| bs_dispatcher := DCalling (qe_subs e) (qe_arg e) |>
    | (bus, QEnd) => s <| bs_bus := bus |> <| bs_dispatcher := DExited |>
    | (bus, QWait) => s
    end
  end.

(** The first section of [PublishAsync] and of [Publish], by goroutine [g]: the copy of
    the subscribers; without subscribers both return.  A goroutine is in one
    publication at a time. *)
Definition snapshot_step (g : nat) (mk : list subscriberEntry → E → Inflight) (event : E) (s : BusState) : BusState :=
  match bs_calls s !! g, snapshotSubscribers event (bs_bus s) with
  | None, (_ :: _) as subs => s <| bs_calls ::= <[g := mk subs event]> |>
  | _, _ => s
  end.
Definition begin_async (g : nat) (event : E) (s : BusState) : BusState :=
  snapshot_step g (λ subs arg, InAsync (MkQueuedEvent subs arg)) event s.
Definition begin_sync (g : nat) (event : E) (s : BusState) : BusState := snapshot_step g InSync event s.

(** The next section of the publication goroutine [g] is in: [enqueue], or one handler;
    after the last one [Publish] returns. *)
Definition continue_step (g : nat) (s : BusState) : BusState :=
  match bs_calls s !! g with
  | None => s
  | Some (InAsync e) => s <| bs_bus ::= enqueue e |> <| bs_calls ::= delete g |>
  | Some (InSync [] _) => s <| bs_calls ::= delete g |>
  | Some (InSync (sub :: subs) arg) =>
    s <| bs_world ::= sub_fn sub arg |> <| bs_calls ::= <[g := InSync subs arg]> |>
  end.

(** The steps of all goroutines. *)
Inductive BusOp :=
| OpSubscribe (k : K) (handler : E → W → W)
| OpUnsubscribe (k : K) (id : Z)
| OpPublish (g : nat) (event : E)
| OpPublishAsync (g : nat) (event : E)
| OpContinue (g : nat)
| OpClose
| OpDispatch.
Definition run_bus_op (op : BusOp) (s : BusState) : BusState :=
  match op with
  | OpSubscribe k h => s <| bs_bus ::= λ b, (Subscribe k h b).1 |>
  | OpUnsubscribe k id => s <| bs_bus ::= unsubscribe k id |>
  | OpPublish g e => begin_sync g e s
  | OpPublishAsync g e => begin_async g e s
  | OpContinue g => continue_step g s
  | OpClose => s <| bs_bus ::= CloseBus |>
  | OpDispatch => dispatch_step s
  end.
Definition run_bus (ops : list BusOp) (s : BusState) : BusState := foldl (λ s op, run_bus_op op s) s ops.
Definition bus_start (w : W) : BusState := MkBusState NewEventBus ∅ DIdle w [].

(** ** What is owed

    The publication a step appends to the queue, with its goroutine; the deliveries it
    promises, those still to be made, and the steps the dispatch goroutine needs for
    them. *)
Definition deliveries (subs : list subscriberEntry) (arg : E) : list (Z * E) := (λ s, (sub_id s, arg)) <$> subs.
Definition deliveries_of (q : queuedEvent) : list (Z * E) := deliveries (qe_subs q) (qe_arg q).
Definition queued_by (op : BusOp) (s : BusState) : list (nat * queuedEvent) :=
  match op with
  | OpContinue g =>
    match bs_calls s !! g with
    | Some (InAsync e) => if bus_closed (bs_bus s) then [] else [(g, e)]
    | _ => []
    end
  | _ => []
  end.
Fixpoint all_queued (ops : list BusOp) (s : BusState) : list (nat * queuedEvent) :=
  match ops with
  | [] => []
  | op :: ops => queued_by op s ++ all_queued ops (run_bus_op op s)
  end.
Definition all_promised (ops : list BusOp) (s : BusState) : list (Z * E) := all_queued ops s ≫= λ ge, deliveries_of ge.2.

(** The publications goroutine [g] begins, in the order of its calls: each event with
    the subscribers of its type at the moment of the call. *)
Definition begun_by (g : nat) (op : BusOp) (s : BusState) : list queuedEvent :=
  match op with
  | OpPublishAsync g' e =>
    match bs_calls s !! g', snapshotSubscribers e (bs_bus s) with
    | None, (_ :: _) as subs => if decide (g' = g) then [MkQueuedEvent subs e] else []
    | _, _ => []
    end
  | _ => []
  end.
Fixpoint begun (g : nat) (ops : list BusOp) (s : BusState) : list queuedEvent :=
  match ops with
  | [] => []
  | op :: ops => begun_by g op s ++ begun g ops (run_bus_op op s)
  end.
Definition in_flight (g : nat) (s : BusState) : list queuedEvent :=
  match bs_calls s !! g with Some (InAsync e) => [e] | _ => [] end.
Definition of_goroutine (g : nat) (l : list (nat * queuedEvent)) : list queuedEvent :=
  snd <$> filter (λ ge, ge.1 = g) l.

Definition current (d : Dispatcher) : list (Z * E) :=
  match d with DCalling subs arg => deliveries subs arg | _ => [] end.
Definition outstanding (s : BusState) : list (Z * E) :=
  current (bs_dispatcher s) ++ (bus_queue (bs_bus s) ≫= deliveries_of).
Definition work (s : BusState) : nat :=
  (match bs_dispatcher s with
   | DExited => 0
   | DIdle => 1
   | DCalling subs _ => 2 + length subs
   end + sum_list ((λ q, 2 + length (qe_subs q)) <$> bus_queue (bs_bus s)))%nat.

(** A gone dispatch goroutine leaves a closed bus with an empty queue. *)
Definition exited_clean (s : BusState) : Prop :=
  bs_dispatcher s = DExited → bus_closed (bs_bus s) = true ∧ bus_queue (bs_bus s) = [].

Lemma exited_clean_step op s : exited_clean s → exited_clean (run_bus_op op s).
Proof.
  unfold exited_clean. destruct s as [[subs n q c] ic d w l]. intros Hc.
  destruct op; cbn -[entries snapshotSubscribers]; try done.
  - unfold unsubscribe. by case_match.
  - unfold begin_sync, snapshot_step. by repeat case_match.
  - unfold begin_async, snapshot_step. by repeat case_match.
  - unfold continue_step. cbn. repeat case_match; try done. cbn. intros Hd. destruct (Hc Hd) as [Hcl Hq]. cbn in *. by subst.
  - intros Hd. destruct (Hc Hd) as [Hcl Hq]. done.
  - destruct d as [|[|sub subs'] arg|]; cbn; try done. destruct q as [|e q]; [|done]. by destruct c.
Qed.

Lemma outstanding_step op s : exited_clean s →
  bs_log (run_bus_op op s) ++ outstanding (run_bus_op op s) =
    bs_log s ++ outstanding s ++ (queued_by op s ≫= λ ge, deliveries_of ge.2).
Proof.
  intros Hex. destruct s as [[subs n q c] ic d w l]. unfold outstanding.
  destruct op as [k h|k id|g e|g e|g| |]; cbn -[entries snapshotSubscribers]; rewrite ?app_nil_r; try done.
  - unfold unsubscribe. by case_match.
  - unfold begin_sync, snapshot_step. by repeat case_match.
  - unfold begin_async, snapshot_step. by repeat case_match.
  - unfold continue_step. cbn. destruct (ic !! g) as [[e|[|sub subs'] arg]|]; cbn; rewrite ?app_nil_r; try done.
    unfold enqueue. cbn. destruct c; cbn; [by rewrite app_nil_r|].
    rewrite bind_app. cbn. by rewrite !app_nil_r, !app_assoc.
  - destruct d as [|[|sub subs'] arg|]; cbn; try done.
    + destruct q as [|e q]; [by destruct c|]. done.
    + by rewrite <-app_assoc.
Qed.

(** Goroutine by goroutine: while the bus is open, what was queued and what is in
    flight is what was begun. *)
Lemma queued_step g op s : bus_closed (bs_bus s) = false →
  of_goroutine g (queued_by op s) ++ in_flight g (run_bus_op op s) = in_flight g s ++ begun_by g op s.
Proof.
  intros Hcl. destruct s as [[subs n q c] ic d w l]. cbn in Hcl. subst c. unfold in_flight, of_goroutine.
  destruct op as [k h|k id|g' e|g' e|g'| |]; cbn -[entries snapshotSubscribers]; rewrite ?app_nil_r; try done.
  - unfold begin_sync, snapshot_step. cbn -[snapshotSubscribers]. repeat case_match; simplify_map_eq; try done.
    all: destruct (decide (g' = g)); simplify_map_eq; done.
  - unfold begin_async, snapshot_step. cbn -[snapshotSubscribers].
    destruct (ic !! g') eqn:Eg; [by rewrite app_nil_r|]. destruct (snapshotSubscribers e _) eqn:Es; [by rewrite app_nil_r|].
    cbn. case_decide; simplify_map_eq; [done|]. by rewrite app_nil_r.
  - unfold continue_step. cbn. destruct (ic !! g') as [[e|[|sub subs'] arg]|] eqn:Eg; cbn; try done.
    all: unfold filter; cbn; try (case_decide; cbn); simplify_map_eq; try done.
    all: destruct (decide (g' = g)); simplify_map_eq; try done.
  - destruct d as [|[|sub subs'] arg|]; cbn; try done. by destruct q.
Qed.

(** ** Delivery *)

Lemma run_bus_clean ops s : exited_clean s → exited_clean (run_bus ops s).
Proof. revert s. induction ops as [|op ops IH]; intros s Hs; [done|]. by apply IH, exited_clean_step. Qed.

Lemma run_bus_outstanding ops s : exited_clean s →
  bs_log (run_bus ops s) ++ outstanding (run_bus ops s) = bs_log s ++ outstanding s ++ all_promised ops s.
Proof.
  unfold all_promised. revert s. induction ops as [|op ops IH]; intros s Hs; cbn; [by rewrite app_nil_r|].
  change (foldl (λ s op, run_bus_op op s) (run_bus_op op s) ops) with (run_bus ops (run_bus_op op s)).
  rewrite IH by by apply exited_clean_step. rewrite app_assoc, outstanding_step by done.
  by rewrite bind_app, <-!app_assoc.
Qed.

Lemma bus_closed_step op s : bus_closed (bs_bus s) = true → bus_closed (bs_bus (run_bus_op op s)) = true.
Proof.
  destruct s as [[subs n q c] ic d w l]. cbn. intros ->. destruct op; cbn -[entries snapshotSubscribers]; try done.
  - unfold unsubscribe. by case_match.
  - unfold begin_sync, snapshot_step. by repeat case_match.
  - unfold begin_async, snapshot_step. by repeat case_match.
  - unfold continue_step. cbn. by repeat case_match.
  - destruct d as [|[|sub subs'] arg|]; cbn; try done. by destruct q.
Qed.
Lemma closed_queues_nothing ops s : bus_closed (bs_bus s) = true → all_queued ops s = [].
Proof.
  revert s. induction ops as [|op ops IH]; intros s Hs; [done|]. cbn. rewrite IH by by apply bus_closed_step.
  rewrite app_nil_r. destruct op; try done. cbn. rewrite Hs. by repeat case_match.
Qed.
Lemma of_goroutine_app g l1 l2 : of_goroutine g (l1 ++ l2) = of_goroutine g l1 ++ of_goroutine g l2.
Proof. unfold of_goroutine. by rewrite filter_app, fmap_app. Qed.

Lemma queued_in_call_order g ops s :
  (of_goroutine g (all_queued ops s) `prefix_of` in_flight g s ++ begun g ops s) ∧
  (bus_closed (bs_bus (run_bus ops s)) = false →
    of_goroutine g (all_queued ops s) ++ in_flight g (run_bus ops s) = in_flight g s ++ begun g ops s).
Proof.
  revert s. induction ops as [|op ops IH]; intros s.
  { cbn. rewrite app_nil_r. split; [apply prefix_nil|done]. }
  change (run_bus (op :: ops) s) with (run_bus ops (run_bus_op op s)). cbn [all_queued begun].
  rewrite of_goroutine_app. destruct (bus_closed (bs_bus s)) eqn:Hcl.
  - pose proof (closed_queues_nothing (op :: ops) s Hcl) as Hn. cbn in Hn. apply app_nil in Hn as [Hn1 Hn2].
    rewrite Hn1, Hn2. split; [apply prefix_nil|].
    enough (bus_closed (bs_bus (run_bus (op :: ops) s)) = true) as He by (unfold run_bus in *; cbn in He; congruence).
    clear -Hcl. generalize (op :: ops). intros l. revert s Hcl. induction l as [|o l IH]; intros s Hcl; [done|].
    apply IH. by apply bus_closed_step.
  - destruct (IH (run_bus_op op s)) as [Hp He].
    pose proof (queued_step g op s Hcl) as Hs. split.
    + rewrite app_assoc, <-Hs, <-app_assoc. by apply prefix_app.
    + intros Hf. rewrite <-app_assoc, He by done. by rewrite !app_assoc, Hs.
Qed.

(** C38: asynchronous events are delivered in order.  In every interleaving of
    subscriptions, publications, closing and the dispatch goroutine, where a publication
    copies the subscribers in one step and enters the queue in a later one, the
    deliveries made so far and those outstanding are exactly those of the publications
    that entered the queue, in the order they entered, each to the subscribers it had
    copied, in the order they subscribed.  The publications of one goroutine enter the
    queue in the order of its calls, none skipped: what entered is a prefix of what it
    began, and while the bus is open all but the one still in flight. *)
Theorem async_delivery_in_order ops w :
  let s := run_bus ops (bus_start w) in
  let queued := all_queued ops (bus_start w) in
  bs_log s ++ outstanding s = (queued ≫= λ ge, deliveries_of ge.2) ∧
  ∀ g, (of_goroutine g queued `prefix_of` begun g ops (bus_start w)) ∧
    (bus_closed (bs_bus s) = false → of_goroutine g queued ++ in_flight g s = begun g ops (bus_start w)).
Proof.
  intros s queued. split; [unfold s; by rewrite run_bus_outstanding|]. intros g.
  exact (queued_in_call_order g ops (bus_start w)).
Qed.

(** Without interference the steps of a publication make up the function. *)
Lemma publish_async_steps g e s :
  bs_calls s !! g = None →
  bs_bus (run_bus [OpPublishAsync g e; OpContinue g] s) = PublishAsync e (bs_bus s).
Proof.
  intros Hg. cbn. unfold begin_async, snapshot_step, PublishAsync. rewrite Hg.
  destruct (snapshotSubscribers e (bs_bus s)) as [|s0 ss]; unfold continue_step; [by rewrite Hg|].
  cbn. by rewrite lookup_insert_eq.
Qed.
Lemma continue_sync g subs arg s :
  bs_calls s !! g = Some (InSync subs arg) →
  bs_world (run_bus (replicate (length subs) (OpContinue g)) s) = dispatchSubscribers subs arg (bs_world s).
Proof.
  revert s. induction subs as [|sub subs IH]; intros s Hg; [done|]. cbn. unfold continue_step. rewrite Hg.
  unfold run_bus in IH. rewrite IH; [done|]. cbn. by rewrite lookup_insert_eq.
Qed.
Lemma publish_steps g e s :
  bs_calls s !! g = None →
  let n := length (snapshotSubscribers e (bs_bus s)) in
  bs_world (run_bus (OpPublish g e :: replicate n (OpContinue g)) s) = Publish e (bs_bus s) (bs_world s).
Proof.
  intros Hg n. unfold n. change (run_bus (?o :: ?l) s) with (run_bus l (run_bus_op o s)). cbn [run_bus_op].
  unfold begin_sync, snapshot_step, Publish. rewrite Hg.
  destruct (snapshotSubscribers e (bs_bus s)) as [|s0 ss]; [done|]. rewrite (continue_sync g _ e); [done|].
  cbn. by rewrite lookup_insert_eq.
Qed.

(** Left alone, the dispatch goroutine of a closed bus makes progress until it exits. *)
Lemma work_step s : bus_closed (bs_bus s) = true → bs_dispatcher s ≠ DExited →
  (work (dispatch_step s) < work s)%nat ∧ bus_closed (bs_bus (dispatch_step s)) = true.
Proof.
  destruct s as [[subs n q c] ic d w l]. cbn. intros -> Hd. unfold work.
  destruct d as [|[|sub subs'] arg|]; cbn; try done; try (split; [lia|done]).
  destruct q as [|e q]; cbn; split; try done; lia.
Qed.
Lemma dispatch_drains n s : exited_clean s → bus_closed (bs_bus s) = true → (work s ≤ n)%nat →
  let s' := run_bus (replicate n OpDispatch) s in
  bs_dispatcher s' = DExited ∧ bs_log s' = bs_log s ++ outstanding s.
Proof.
  intros Hc Hcl Hw. cbn zeta. pose proof (run_bus_outstanding (replicate n OpDispatch) s Hc) as Ho.
  assert (all_promised (replicate n OpDispatch) s = []) as Hp.
  { clear. unfold all_promised. revert s. induction n; [done|]. intros s. cbn. auto. }
  rewrite Hp, app_nil_r in Ho. pose proof (run_bus_clean (replicate n OpDispatch) s Hc) as Hc'.
  assert (bs_dispatcher (run_bus (replicate n OpDispatch) s) = DExited) as Hd.
  { clear Hc Ho Hp Hc'. revert s Hcl Hw. induction n as [|n IH]; intros s Hcl Hw.
    - destruct s as [[] ic [] w l]; cbn in *; try done; unfold work in Hw; cbn in Hw; lia.
    - cbn. destruct (bs_dispatcher s) eqn:Ed.
      3: { assert (dispatch_step s = s) as Hs by (unfold dispatch_step; by rewrite Ed). rewrite Hs.
           clear IH Hw Hcl. induction n as [|n IHn]; [done|]. cbn. by rewrite Hs. }
      all: destruct (work_step s) as [Hlt Hcl']; [done|by rewrite Ed|]; apply IH; [done|lia]. }
  split; [done|]. destruct (Hc' Hd) as [_ Hq]. unfold outstanding in Ho at 1. rewrite Hd, Hq in Ho. cbn in Ho.
  by rewrite app_nil_r in Ho.
Qed.

(** C39: a closed bus is drained: whatever happened before, once [Close] has been
    called, the dispatch goroutine scheduled [work] times delivers everything promised
    and exits, which is what [Close] waits for. *)
Theorem Close_drains ops w :
  let s := run_bus_op OpClose (run_bus ops (bus_start w)) in
  let s' := run_bus (replicate (work s) OpDispatch) s in
  bs_dispatcher s' = DExited ∧ bs_log s' = all_promised ops (bus_start w).
Proof.
  intros s s'. assert (exited_clean (run_bus ops (bus_start w))) as Hc by by apply run_bus_clean.
  destruct (dispatch_drains (work s) s) as [Hd Hl]; [by apply exited_clean_step|done|lia|].
  split; [done|]. unfold s'. rewrite Hl.
  transitivity (bs_log (run_bus ops (bus_start w)) ++ outstanding (run_bus ops (bus_start w))); [done|].
  by rewrite run_bus_outstanding.
Qed.

(** ** Subscriptions *)

(** Identifiers are issued once. *)
Definition ids_unique (bus : EventBus) : Prop :=
  ∀ k, NoDup (sub_id <$> entries k bus) ∧ Forall (λ s, sub_id s < bus_nextID bus) (entries k bus).

Lemma remove_entry_filter id subs :
  NoDup (sub_id <$> subs) → remove_entry id subs = filter (λ s, sub_id s ≠ id) subs.
Proof.
  induction subs as [|s subs IH]; [done|]. rewrite fmap_cons, NoDup_cons. intros [Hs Hn]. cbn [remove_entry].
  destruct (Z.eqb_spec (sub_id s) id) as [Hid|Hid].
  - rewrite filter_cons_False by (intros Hc; by apply Hc). symmetry. apply filter_all.
    apply Forall_forall. intros x Hx Hxi. apply Hs. rewrite Hid, <-Hxi. by apply list_elem_of_fmap_2.
  - rewrite filter_cons_True by done. by rewrite IH.
Qed.
Lemma entries_insert k k' l bus :
  entries k' (bus <| subscribers ::= <[k := l]> |>) = if decide (k' = k) then l else entries k' bus.
Proof. unfold entries. cbn. case_decide; subst; [by rewrite lookup_insert_eq|by rewrite lookup_insert_ne]. Qed.
Lemma unsubscribe_entries k id k' bus :
  ids_unique bus →
  entries k' (unsubscribe k id bus) =
    if decide (k' = k) then filter (λ s, sub_id s ≠ id) (entries k bus) else entries k' bus.
Proof.
  intros Hu. destruct (Hu k) as [Hn _]. unfold unsubscribe. destruct (existsb _ _) eqn:Ex.
  - rewrite entries_insert. case_decide; [by apply remove_entry_filter|done].
  - case_decide; subst; [|done]. symmetry. apply filter_all. apply Forall_forall. intros x Hx Hxi.
    apply Bool.not_true_iff_false in Ex. apply Ex, existsb_exists. exists x.
    split; [by apply list_elem_of_In|by apply Z.eqb_eq].
Qed.

Lemma ids_unique_op op s : ids_unique (bs_bus s) → ids_unique (bs_bus (run_bus_op op s)).
Proof.
  intros Hu. destruct op as [k h|k id|g e|g e|g| |]; cbn [run_bus_op bs_bus]; try done.
  - change (ids_unique (Subscribe k h (bs_bus s)).1). intros k'. unfold Subscribe. cbn [fst].
    set (bus := bs_bus s) in *. destruct (Hu k) as [Hn Hf]. destruct (Hu k') as [Hn' Hf'].
    rewrite entries_insert. cbn [bus_nextID]. case_decide.
    + rewrite fmap_app, NoDup_app, Forall_app. split_and!; try done.
      * intros x Hx. cbn. intros ->%list_elem_of_singleton. apply list_elem_of_fmap in Hx as (y & Hy & Hin).
        rewrite Forall_forall in Hf. specialize (Hf y Hin). lia.
      * apply NoDup_singleton.
      * eapply Forall_impl; [exact Hf|]. cbn. lia.
      * apply Forall_singleton. cbn. lia.
    + split; [done|]. eapply Forall_impl; [exact Hf'|]. cbn. lia.
  - change (ids_unique (unsubscribe k id (bs_bus s))).
    intros k'. destruct (Hu k') as [Hn Hf]. rewrite unsubscribe_entries by done.
    assert (bus_nextID (unsubscribe k id (bs_bus s)) = bus_nextID (bs_bus s)) as -> by (unfold unsubscribe; by case_match).
    case_decide; [subst|done]. split.
    + clear -Hn. induction (entries k (bs_bus s)) as [|x l IH]; [done|].
      rewrite fmap_cons, NoDup_cons in Hn. destruct Hn as [Hx Hl]. rewrite filter_cons. case_decide; [|by apply IH].
      rewrite fmap_cons, NoDup_cons. split; [|by apply IH]. intros (y & Hxy & Hy)%list_elem_of_fmap.
      apply list_elem_of_filter in Hy as [_ Hy]. apply Hx. rewrite Hxy. by apply list_elem_of_fmap_2.
    + by apply Forall_filter.
  - unfold begin_sync, snapshot_step. by repeat case_match.
  - unfold begin_async, snapshot_step. by repeat case_match.
  - unfold continue_step. repeat case_match; try done. cbn. unfold enqueue. by case_match.
  - unfold dispatch_step, dequeue. repeat case_match; by simplify_eq/=.
Qed.
Lemma ids_unique_reachable ops w : ids_unique (bs_bus (run_bus ops (bus_start w))).
Proof.
  assert (ids_unique (bs_bus (bus_start w))) as Hs.
  { intros k. unfold entries. cbn. rewrite lookup_empty. split; constructor. }
  revert Hs. generalize (bus_start w). induction ops as [|op ops IH]; intros s Hs; [done|].
  by apply IH, ids_unique_op.
Qed.

(** Unsubscribing removes exactly one subscription: on every reachable bus, the
    function that [Subscribe] returned takes its own handler out and leaves the others
    of every type in their order, also when other subscriptions came or went in
    between; called at once it restores the subscribers as they were. *)
Theorem unsubscribe_exact ops w k h ops' :
  let s := run_bus ops (bus_start w) in
  let id := (Subscribe k h (bs_bus s)).2 in
  let s1 := run_bus ops' (run_bus_op (OpSubscribe k h) s) in
  (∀ k', entries k' (unsubscribe k id (Subscribe k h (bs_bus s)).1) = entries k' (bs_bus s)) ∧
  (∀ k', entries k' (unsubscribe k id (bs_bus s1)) =
    if decide (k' = k) then filter (λ e, sub_id e ≠ id) (entries k (bs_bus s1)) else entries k' (bs_bus s1)).
Proof.
  intros s id s1. pose proof (ids_unique_reachable ops w) as Hu. fold s in Hu. split; intros k'.
  - rewrite unsubscribe_entries by apply (ids_unique_op (OpSubscribe k h) s Hu). unfold id, Subscribe. cbn [fst snd].
    rewrite !entries_insert. case_decide; [|done]. subst k'. rewrite decide_True by done.
    rewrite filter_app. cbn. rewrite decide_False by (intros Hc; by apply Hc). rewrite app_nil_r.
    apply filter_all. destruct (Hu k) as [_ Hf]. eapply Forall_impl; [exact Hf|]. cbn. intros x Hx Hxi. lia.
  - apply unsubscribe_entries. unfold s1. change (ids_unique (bs_bus (run_bus (OpSubscribe k h :: ops') s))).
    unfold s. unfold run_bus. rewrite <-foldl_app. apply (ids_unique_reachable (ops ++ OpSubscribe k h :: ops')).
Qed.
End bus.

(** Between goroutines the order is that of the queue and not that of the calls: a
    publication that has copied its subscribers can be overtaken by a later one, and
    reaches a handler that was unsubscribed in between. *)
Example publication_overtaken :
  let h : Z → unit → unit := λ _ w, w in
  let ops := [OpSubscribe tt h; OpPublishAsync 1 10; OpUnsubscribe tt 0; OpSubscribe tt h;
              OpPublishAsync 2 20; OpContinue 2; OpContinue 1] ++ replicate 6 OpDispatch in
  bs_log (run_bus (λ _, tt) ops (bus_start tt)) = [(1, 20); (0, 10)].
Proof. reflexivity. Qed.
