(* ===== verification/ModelUtil.v ===== *)
(** * Model wrappers

    src/modelutil: models that retry, fall back, route or cache.  Each wraps a model
    and is one itself.  The clock, the random source and the waiting of a request are
    standard-library services and act on the world through parameters.  The heartbeat
    of a retried request (off by default) only logs and is left out, as are the rate
    limiter and the sessions. *)

From Stdlib Require Import Floats.SpecFloat.
From S2P Require Import Prelude Errors Usage Messages Truncate AgentTypes AutoContext AgentTools AgentLoop.

(** ** Doubles and durations *)

Definition float64 : Type := spec_float.
Definition float_mul : float64 → float64 → float64 := SFmul 53 1024.
(** [float64(z)]. *)
Definition float_of_int (z : Z) : float64 := binary_normalize 53 1024 z 0 false.
(** [time.Duration(f)]: truncation; what does not fit is the least integer, as on amd64. *)
Definition int_of_float (f : float64) : Z :=
  match f with
  | S754_zero _ => 0
  | S754_finite s m e =>
    let a := if 0 <=? e then Z.pos m * 2 ^ e else Z.pos m / 2 ^ (- e) in
    let z := if s then - a else a in
    if (- 2 ^ 63 <=? z) && (z <? 2 ^ 63) then z else - 2 ^ 63
  | _ => - 2 ^ 63
  end.

Definition second : Duration := 1000000000.

(** ** Text of an error *)

Fixpoint Contains_from (fuel : nat) (s sub : string) : bool :=
  match strip_prefix sub s with
  | Some _ => true
  | None => match fuel, s with S fuel, String _ s => Contains_from fuel s sub | _, _ => false end
  end.
Definition Contains (s sub : string) : bool := Contains_from (String.length s) s sub.

(** [strings.ToLower], as far as its ASCII letters go: besides the capital letters, the
    runes with an ASCII letter as lower case are the Kelvin sign and the dotted I. *)
Definition kelvin_sign : string := byte_string [226; 132; 170]%nat.
Definition dotted_I : string := byte_string [196; 176]%nat.
Definition lower_byte (a : Ascii.ascii) : Ascii.ascii :=
  let n := Ascii.nat_of_ascii a in
  if ((65 <=? n) && (n <=? 90))%nat then Ascii.ascii_of_nat (n + 32) else a.
Fixpoint lower_from (fuel : nat) (s : string) : string :=
  match fuel, s with
  | S fuel, String a s' =>
    match strip_prefix kelvin_sign s, strip_prefix dotted_I s with
    | Some r, _ => "k" +:+ lower_from fuel r
    | _, Some r => "i" +:+ lower_from fuel r
    | None, None => String (lower_byte a) (lower_from fuel s')
    end
  | _, _ => s
  end.
Definition ToLower (s : string) : string := lower_from (String.length s) s.

(** ** Retries *)

Definition ErrUnexpectedEOF := ESentinel "unexpected EOF".
Definition EOF := ESentinel "EOF".

Definition isPermanent429 (body : string) : bool :=
  existsb (Contains (ToLower body))
    ["credits"; "spending limit"; "billing"; "quota exceeded"; "quota_exhausted"; "plan limit"; "subscription"].

(** [errors.As] for [ModelHTTPError], and for the interface [net.Error], which the
    deadline of a context implements too. *)
Definition as_http (e : error) : option (Z * string * Z) :=
  match e with EModelHTTP _ code body after => Some (code, body, after) | _ => None end.
Definition as_net (e : error) : option unit :=
  match e with
  | ENet _ => Some tt
  | ESentinel _ => if Is e ContextDeadlineExceeded then Some tt else None
  | _ => None
  end.

Definition transient_patterns : list string :=
  ["unexpected EOF"; "connection reset"; "connection refused"; "broken pipe"; "i/o timeout"; "no such host";
   "dns"; "temporary failure"; "internal_error"; "stream error"].

Definition defaultIsRetryable (e : error) : bool :=
  match
    match errors_as as_http e with
    | Some (code, body, _) =>
      if code =? 429 then Some (negb (isPermanent429 body))
      else if existsb (Z.eqb code) [408; 500; 502; 503; 504; 529] then Some true
      else None
    | None => None
    end
  with
  | Some b => b
  | None =>
    Is e ErrUnexpectedEOF || Is e EOF || bool_decide (is_Some (errors_as as_net e))
    || existsb (Contains (ToLower (Error e))) transient_patterns
  end.

Record RetryConfig := MkRetryConfig {
  MaxRetries : Z;
  InitialBackoff : Duration;
  MaxBackoff : Duration;
  BackoffFactor : float64;
  Jitter : bool;
  MinRemaining : Duration;
  IsRetryable : option (error → bool);
}.
#[export] Instance RetryConfig_eta : RecordEta RetryConfig := λ c,
  MkRetryConfig (MaxRetries c) (InitialBackoff c) (MaxBackoff c) (BackoffFactor c) (Jitter c) (MinRemaining c)
    (IsRetryable c).
Definition DefaultRetryConfig : RetryConfig :=
  MkRetryConfig 5 (1 * second) (30 * second) (float_of_int 2) true (20 * second) (Some defaultIsRetryable).
(** The configuration [NewRetryModel] works with. *)
Definition normalizeRetry (c : RetryConfig) : RetryConfig :=
  MkRetryConfig (MaxRetries c)
    (if InitialBackoff c =? 0 then second else InitialBackoff c)
    (if MaxBackoff c =? 0 then 30 * second else MaxBackoff c)
    (if SFeqb (BackoffFactor c) (float_of_int 0) then float_of_int 2 else BackoffFactor c)
    (Jitter c)
    (if MinRemaining c =? 0 then 20 * second else MinRemaining c)
    (Some (default defaultIsRetryable (IsRetryable c))).

Section retry.
Context {W A : Type}.
(** What is left until the deadline of the context, if it has one; the random source;
    and a wait, which ends with the error of a cancelled context. *)
Context (remaining : W → option Duration) (rand_Float64 : W → W * float64)
  (wait_for : Duration → W → W * option error).
Context (cfg : RetryConfig) (fn : W → W * res A).

Definition retryable (e : error) : bool := match IsRetryable cfg with Some f => f e | None => false end.
(** Too close to the deadline for a wait of [d] and another request. *)
Definition too_late (d : Duration) (w : W) : bool :=
  match remaining w with
  | Some r => (MinRemaining cfg >? 0) && (r <=? d + MinRemaining cfg)
  | None => false
  end.
(** The wait after an error: the provider's [Retry-After] or the backoff, plus jitter. *)
Definition retry_wait (backoff : Duration) (e : error) (w : W) : W * Duration :=
  let wait := match errors_as as_http e with
              | Some (_, _, after) => if after >? 0 then after else backoff
              | None => backoff
              end in
  if Jitter cfg then
    let '(w, r) := rand_Float64 w in
    (w, wait + int_of_float (float_mul (float_mul (float_of_int wait) (S754_finite false 4503599627370496 (-54))) r))
  else (w, wait).
Definition next_backoff (backoff : Duration) : Duration :=
  let b := int_of_float (float_mul (float_of_int backoff) (BackoffFactor cfg)) in
  if b >? MaxBackoff cfg then MaxBackoff cfg else b.

(** The loop of [retryLoop], with the attempts that are left.  Besides the world it
    returns what each attempt made gave, and the result: [None] is a nil result with a
    nil error. *)
Fixpoint retry_attempts (n : nat) (backoff : Duration) (w : W) : W * list (res A) * option (res A) :=
  match n with
  | O => (w, [], None)
  | S n =>
    match fn w with
    | (w, Ok v) => (w, [Ok v], Some (Ok v))
    | (w, Err e) =>
      if negb (retryable e) || too_late 0 w then (w, [Err e], Some (Err e))
      else
        match n with
        | O => (w, [Err e], Some (Err e))
        | S _ =>
          let '(w, wait) := retry_wait backoff e w in
          if too_late wait w then (w, [Err e], Some (Err e))
          else
            match wait_for wait w with
            | (w, Some cancelled) => (w, [Err e], Some (Err cancelled))
            | (w, None) =>
              let '(w, log, r) := retry_attempts n (next_backoff backoff) w in (w, Err e :: log, r)
            end
        end
    end
  end.
Definition retryLoop (w : W) : W * list (res A) * option (res A) :=
  retry_attempts (Z.to_nat (MaxRetries cfg + 1)) (InitialBackoff cfg) w.
End retry.

(** ** Fallback *)

Section models.
Context {W : Type}.
Context (ctx_Err : W → option error).

(** [FallbackModel.Request]; the constructor takes a first model, so [lastErr] is set
    when the list is used up. *)
Fixpoint fallback_request (models : list (Model W)) (lastErr : error)
    (msgs : list ModelMessage) (ms : option ModelSettings) (params : ModelRequestParameters) (w : W)
    : W * res ModelResponse :=
  match models with
  | [] => (w, Err (EWrap "all models failed, last error: " lastErr ""))
  | m :: models =>
    match ctx_Err w with
    | Some e => (w, Err (EWrap ("context cancelled before trying model " +:+ go_quote (ModelName m) +:+ ": ") e ""))
    | None =>
      match Request m msgs ms params w with
      | (w, Ok resp) => (w, Ok resp)
      | (w, Err e) => fallback_request models e msgs ms params w
      end
    end
  end.
Definition NewFallbackModel (primary : Model W) (fallbacks : list (Model W)) : Model W :=
  MkModel (fallback_request (primary :: fallbacks) (ENew "")) (ModelName primary +:+ "+fallback").

(** ** Routing *)

Definition last_user_prompt (ps : list RequestPart) : option string :=
  head (omap (λ p, match p with UserPromptPart c => Some c | _ => None end) (rev ps)).
Definition extractLastUserPrompt (msgs : list ModelMessage) : string :=
  default "" (head (omap (λ m, match m with
    | ModelRequest ps => last_user_prompt ps | Response _ => None end) (rev msgs))).

(** A router with a state of its own; [NewRouterModel] threads it through. *)
Definition Router (R : Type) := string → R → R * res (Model W).
Definition router_request {R} (route : Router R) (msgs : list ModelMessage) (ms : option ModelSettings)
    (params : ModelRequestParameters) (rw : R * W) : (R * W) * res ModelResponse :=
  let '(r, w) := rw in
  match route (extractLastUserPrompt msgs) r with
  | (r, Err e) => ((r, w), Err (EWrap "router: " e ""))
  | (r, Ok m) => let '(w, out) := Request m msgs ms params w in ((r, w), out)
  end.

Definition ClassifierRouter (models : gmap string (Model W)) (classify : string → string) : Router unit :=
  λ prompt r,
    (r, match models !! classify prompt with
        | Some m => Ok m
        | None => Err (ENew ("classifier returned unknown key " +:+ go_quote (classify prompt)))
        end).
Definition ThresholdRouter (simple complex : Model W) (threshold : Z) : Router unit := λ prompt r,
  (r, Ok (if strlen prompt >? threshold then complex else simple)).

(** The counter is an atomic unsigned integer of 64 bits. *)
Definition RoundRobinRouter (models : list (Model W)) : Router Z := λ _ idx,
  match models with
  | [] => (idx, Err (ENew "round robin: no models configured"))
  | _ =>
    let next := (idx + 1) mod 2 ^ 64 in
    let i := (next - 1) mod 2 ^ 64 in
    (next, match models !! Z.to_nat (i mod Z.of_nat (length models)) with
           | Some m => Ok m
           | None => Err (ENew "index out of range")
           end)
  end.
End models.

(** ** Caching

    A cached response is a pointer: the cache hands out the object it stored, so the
    objects live in a heap and the cache holds addresses.  [cacheKey] is the hash of
    cache_key.go over SHA-256. *)

Record MemoryCache := MkMemoryCache {
  mc_entries : gmap string (nat * Time);
  mc_ttl : Duration;
}.
#[export] Instance MemoryCache_eta : RecordEta MemoryCache := λ c, MkMemoryCache (mc_entries c) (mc_ttl c).
Definition NewMemoryCache : MemoryCache := MkMemoryCache ∅ 0.
Definition NewMemoryCacheWithTTL (ttl : Duration) : MemoryCache := MkMemoryCache ∅ ttl.

(** [Get] removes an entry that has expired. *)
Definition cache_Get (key : string) (now : Time) (c : MemoryCache) : MemoryCache * option nat :=
  match mc_entries c !! key with
  | None => (c, None)
  | Some (p, createdAt) =>
    if (mc_ttl c >? 0) && (now - createdAt >? mc_ttl c) then (c <| mc_entries ::= delete key |>, None)
    else (c, Some p)
  end.
Definition cache_Set (key : string) (p : nat) (now : Time) (c : MemoryCache) : MemoryCache :=
  c <| mc_entries ::= <[key := (p, now)]> |>.

Inductive CacheEvent := CacheEventHit (key modelName : string) | CacheEventMiss (key modelName : string).

Section cached.
Context {W : Type}.
Context (now : W → Time).
Context (cacheKey : string → list ModelMessage → option ModelSettings → ModelRequestParameters → res string).
Context (m : Model W).

Record CacheState := MkCacheState {
  cs_heap : list ModelResponse;
  cs_cache : MemoryCache;
  cs_events : list CacheEvent;
  cs_world : W;
}.

(** [CachedModel.Request] returns the address of a response. *)
Definition cached_request (msgs : list ModelMessage) (ms : option ModelSettings) (params : ModelRequestParameters)
    (s : CacheState) : CacheState * res nat :=
  match cacheKey (ModelName m) msgs ms params with
  | Err _ =>
    match Request m msgs ms params (cs_world s) with
    | (w, Err e) => (MkCacheState (cs_heap s) (cs_cache s) (cs_events s) w, Err e)
    | (w, Ok resp) =>
      (MkCacheState (cs_heap s ++ [resp]) (cs_cache s) (cs_events s) w, Ok (length (cs_heap s)))
    end
  | Ok key =>
    let '(c, hit) := cache_Get key (now (cs_world s)) (cs_cache s) in
    match hit with
    | Some p => (MkCacheState (cs_heap s) c (cs_events s ++ [CacheEventHit key (ModelName m)]) (cs_world s), Ok p)
    | None =>
      let events := cs_events s ++ [CacheEventMiss key (ModelName m)] in
      match Request m msgs ms params (cs_world s) with
      | (w, Err e) => (MkCacheState (cs_heap s) c events w, Err e)
      | (w, Ok resp) =>
        let p := length (cs_heap s) in
        (MkCacheState (cs_heap s ++ [resp]) (cache_Set key p (now w) c) events w, Ok p)
      end
    end
  end.

(** A response interceptor of the agent writes through the pointer it is given. *)
Definition intercept_at (p : nat) (r : InterceptResult) (s : CacheState) : CacheState :=
  MkCacheState (alter (λ resp, intercepted_parts resp r) p (cs_heap s)) (cs_cache s) (cs_events s) (cs_world s).
End cached.
Arguments CacheState : clear implicits.

(** ** What the wrappers guarantee *)

Section retry_safety.
Context {W A : Type}.
Context (remaining : W → option Duration) (rand_Float64 : W → W * float64)
  (wait_for : Duration → W → W * option error).
Context (cfg : RetryConfig) (fn : W → W * res A).
Local Abbreviation retry_attempts := (retry_attempts remaining rand_Float64 wait_for cfg fn).
Local Abbreviation retryLoop := (retryLoop remaining rand_Float64 wait_for cfg fn).

(** An attempt that is followed by another. *)
Definition retried (r : res A) : Prop := ∃ e, r = Err e ∧ retryable cfg e = true.

Lemma retry_attempts_spec n backoff w w' log r :
  retry_attempts n backoff w = (w', log, r) →
  (length log ≤ n)%nat ∧ (n = 0%nat ↔ r = None) ∧
  (∀ v, r = Some (Ok v) ↔ last log = Some (Ok v)) ∧
  Forall retried (removelast log) ∧ (n ≠ 0%nat → log ≠ []).
Proof.
  revert backoff w w' log r. induction n as [|n IH]; intros backoff w w' log r; cbn [ModelUtil.retry_attempts].
  { intros [= <- <- <-]. split_and!; try done. }
  assert (∀ (e : error) (r0 : res A) w0, (∀ v, r0 ≠ Ok v) → (w0, [Err e], Some r0) = (w', log, r) →
    (length log ≤ S n)%nat ∧ (S n = 0%nat ↔ r = None) ∧ (∀ v, r = Some (Ok v) ↔ last log = Some (Ok v)) ∧
    Forall retried (removelast log) ∧ (S n ≠ 0%nat → log ≠ [])) as Hend.
  { intros e r0 w0 Hr [= <- <- <-]. cbn. split_and!; try done; try lia; try by constructor.
    intros v. split; [|done]. intros [= ->]. by destruct (Hr v). }
  destruct (fn w) as [w1 [v|e]].
  { intros [= <- <- <-]. cbn. split_and!; try done; try lia; try by constructor. }
  destruct (retryable cfg e) eqn:Hre; cbn [negb orb]; [|by apply Hend].
  destruct (too_late remaining cfg 0 w1); [by apply Hend|]. destruct n as [|n]; [by apply Hend|].
  destruct (retry_wait rand_Float64 cfg backoff e w1) as [w2 wt].
  destruct (too_late remaining cfg wt w2); [by apply Hend|].
  destruct (wait_for wt w2) as [w3 [ce|]]; [by apply Hend|].
  destruct (retry_attempts (S n) (next_backoff cfg backoff) w3) as [[w4 log'] r'] eqn:E.
  apply IH in E as (Hl & Hn & Hv & Hf & Hne). intros [= <- <- <-].
  destruct log' as [|x log']; [by destruct (Hne ltac:(done))|]. split_and!; try done.
  - cbn in *. lia.
  - split; [done|]. intros ->. by destruct Hn as [_ Hn]; specialize (Hn eq_refl).
  - change (removelast (Err e :: x :: log')) with (@Err A e :: removelast (x :: log')).
    constructor; [by exists e|done].
Qed.

(** With no deadline and no cancellation, the loop gives up only on an error that is
    not to be retried or when the attempts are used up. *)
Lemma retry_attempts_gives_up n backoff w w' log e :
  (∀ w, remaining w = None) → (∀ d w, (wait_for d w).2 = None) →
  retry_attempts n backoff w = (w', log, Some (Err e)) →
  last log = Some (Err e) ∧ (retryable cfg e = false ∨ length log = n).
Proof.
  intros Hrem Hwait. revert backoff w w' log. induction n as [|n IH]; intros backoff w w' log;
    cbn [ModelUtil.retry_attempts]; [done|].
  destruct (fn w) as [w1 [v|e1]]; [done|]. unfold too_late. rewrite Hrem.
  destruct (retryable cfg e1) eqn:Hre; cbn [negb orb]; [|intros [= <- <- <-]; auto].
  destruct n as [|n]; [intros [= <- <- <-]; auto|].
  destruct (retry_wait rand_Float64 cfg backoff e1 w1) as [w2 wt]. rewrite Hrem. specialize (Hwait wt w2).
  destruct (wait_for wt w2) as [w3 c]. cbn in Hwait. subst c.
  destruct (retry_attempts (S n) (next_backoff cfg backoff) w3) as [[w4 log'] r'] eqn:E. intros [= <- <- ->].
  apply IH in E as [Hl Hd]. destruct log' as [|x log']; [done|]. split; [done|].
  destruct Hd as [Hd|Hd]; [by left|]. right. cbn in *. lia.
Qed.

(** A retried request: at most [MaxRetries + 1] attempts are made; each but the
    last failed with an error that may be retried; the request succeeds exactly when
    its last attempt does, with that response; it returns a response or an error
    exactly when [MaxRetries] is not negative; and with no deadline and no cancellation
    it fails only with the error of its last attempt, which may not be retried or was
    the last one allowed. *)
Theorem retryLoop_correct w w' log r :
  retryLoop w = (w', log, r) →
  Z.of_nat (length log) ≤ Z.max 0 (MaxRetries cfg + 1) ∧
  Forall retried (removelast log) ∧
  (∀ v, r = Some (Ok v) ↔ last log = Some (Ok v)) ∧
  (r = None ↔ MaxRetries cfg < 0) ∧
  ((∀ w, remaining w = None) → (∀ d w, (wait_for d w).2 = None) → ∀ e, r = Some (Err e) →
    last log = Some (Err e) ∧ (retryable cfg e = false ∨ Z.of_nat (length log) = MaxRetries cfg + 1)).
Proof.
  unfold ModelUtil.retryLoop. intros E. destruct (retry_attempts_spec _ _ _ _ _ _ E) as (Hl & Hn & Hv & Hf & Hne).
  split_and!; [lia|done|done| |].
  - rewrite <-Hn. lia.
  - intros Hrem Hwait e ->. destruct (retry_attempts_gives_up _ _ _ _ _ _ Hrem Hwait E) as [Hla [Hd|Hd]].
    + auto.
    + split; [done|]. right. assert (log ≠ []) as Hlog by (by destruct log). destruct log; [done|]. cbn in *. lia.
Qed.
End retry_safety.

Section fallback_safety.
Context {W : Type}.
Context (ctx_Err : W → option error).
Context (msgs : list ModelMessage) (ms : option ModelSettings) (params : ModelRequestParameters).

(** The models fail one after the other, the last with [e]. *)
Inductive failed : list (Model W) → error → W → W → error → Prop :=
| failed_nil e w : failed [] e w w e
| failed_cons m models e0 e w w1 w2 e' :
    ctx_Err w = None → Request m msgs ms params w = (w1, Err e) → failed models e w1 w2 e' →
    failed (m :: models) e0 w w2 e'.

(** A fallback model answers with the first of its models that succeeds: it
    returns a response exactly when some model returns it after all models before it
    failed in turn and the context was not cancelled; the models after it are not
    asked. When all models fail it reports the error of the last one. *)
Theorem fallback_first primary fallbacks w w' resp :
  (Request (NewFallbackModel ctx_Err primary fallbacks) msgs ms params w = (w', Ok resp) ↔
   ∃ before m after w1 e, primary :: fallbacks = before ++ m :: after ∧ failed before (ENew "") w w1 e ∧
     ctx_Err w1 = None ∧ Request m msgs ms params w1 = (w', Ok resp)) ∧
  (∀ e, failed (primary :: fallbacks) (ENew "") w w' e →
   Request (NewFallbackModel ctx_Err primary fallbacks) msgs ms params w =
     (w', Err (EWrap "all models failed, last error: " e ""))).
Proof.
  cbn [NewFallbackModel Request]. generalize (ENew ""). generalize (primary :: fallbacks). intros models e0. split.
  - revert e0 w. induction models as [|m models IH]; intros e0 w.
    { cbn. split; [done|]. by intros (before & m & after & w1 & e & Hm & _); destruct before. }
    cbn [fallback_request]. split.
    + destruct (ctx_Err w) as [ce|] eqn:Hc; [done|].
      destruct (Request m msgs ms params w) as [w1 [r|e]] eqn:Hr.
      * intros [= <- <-]. exists [], m, models, w, e0. split_and!; try done. constructor.
      * intros (before & m' & after & w2 & e' & -> & Hf & Hc' & Hr')%IH.
        exists (m :: before), m', after, w2, e'. split_and!; try done. by econstructor.
    + intros (before & m' & after & w1 & e & Hm & Hf & Hc & Hr). destruct before as [|m0 before]; simplify_eq/=.
      * inversion Hf; subst. by rewrite Hc, Hr.
      * inversion Hf as [|? ? ? e1 ? w2 ? ? Hc0 Hr0 Hf0]; subst. rewrite Hc0, Hr0. apply IH.
        by exists before, m', after, w1, e.
  - intros e Hf. induction Hf as [|m models' e1 e2 w1 w2 w3 e3 Hc Hr _ IH]; [done|]. cbn. by rewrite Hc, Hr.
Qed.
End fallback_safety.

Section round_robin.
Context {W : Type}.

(** The models of [n] requests in a row. *)
Fixpoint choices (models : list (Model W)) (n : nat) (idx : Z) : list (res (Model W)) :=
  match n with
  | O => []
  | S n => let '(idx, m) := RoundRobinRouter models "" idx in m :: choices models n idx
  end.

Lemma route_lookup (models : list (Model W)) idx :
  models ≠ [] → 0 ≤ idx < 2 ^ 64 → ∃ m,
  models !! Z.to_nat (idx mod Z.of_nat (length models)) = Some m ∧
  RoundRobinRouter models "" idx = ((idx + 1) mod 2 ^ 64, Ok m).
Proof.
  intros Hm Hi. destruct (lookup_lt_is_Some_2 models (Z.to_nat (idx mod Z.of_nat (length models)))) as [m E].
  { assert (0 < Z.of_nat (length models)) by (destruct models; [done|cbn; lia]).
    pose proof (Z.mod_pos_bound idx (Z.of_nat (length models))). lia. }
  exists m. split; [done|]. unfold RoundRobinRouter. destruct models as [|m0 models]; [done|].
  assert (((idx + 1) mod 2 ^ 64 - 1) mod 2 ^ 64 = idx) as ->; [|by rewrite E].
  rewrite Zminus_mod_idemp_l. replace (idx + 1 - 1) with idx by lia. by apply Z.mod_small.
Qed.

Lemma choices_lookup (models : list (Model W)) n idx i :
  models ≠ [] → 0 ≤ idx → idx + Z.of_nat n ≤ 2 ^ 64 → (i < n)%nat →
  choices models n idx !! i = Ok <$> models !! Z.to_nat ((idx + Z.of_nat i) mod Z.of_nat (length models)).
Proof.
  intros Hm. revert idx i. induction n as [|n IH]; intros idx i Hi Hn Hin; [lia|]. cbn [choices].
  destruct (route_lookup models idx) as (m & E & ->); [done|lia|]. destruct i as [|i]; cbn [lookup list_lookup].
  - rewrite Z.add_0_r, E. done.
  - destruct (decide (idx + 1 = 2 ^ 64)); [lia|]. rewrite Z.mod_small by lia. rewrite IH by lia.
    do 4 f_equal. lia.
Qed.

Lemma rotate_lookup {X} (l : list X) (k i : nat) :
  (k < length l)%nat → (i < length l)%nat → (drop k l ++ take k l) !! i = l !! ((k + i) mod length l)%nat.
Proof.
  intros Hk Hi. destruct (decide (i < length l - k)%nat).
  - rewrite lookup_app_l by (rewrite length_drop; lia). rewrite lookup_drop. f_equal.
    symmetry. apply Nat.mod_small. lia.
  - rewrite lookup_app_r by (rewrite length_drop; lia). rewrite length_drop, lookup_take_lt by lia. f_equal.
    apply (Nat.mod_unique _ _ 1); lia.
Qed.

(** Round robin is fair: any [n] consecutive requests to [n] models, before the
    64-bit counter wraps, are the models in order from the current one on, each chosen
    exactly once; so every model is reached within [n] requests. *)
Theorem round_robin_fair (models : list (Model W)) idx :
  models ≠ [] → 0 ≤ idx → idx + Z.of_nat (length models) ≤ 2 ^ 64 →
  let k := Z.to_nat (idx mod Z.of_nat (length models)) in
  choices models (length models) idx = Ok <$> (drop k models ++ take k models) ∧
  (drop k models ++ take k models) ≡ₚ models.
Proof.
  intros Hm Hi Hn k. assert (0 < Z.of_nat (length models)) as Hpos by (destruct models; [done|cbn; lia]).
  pose proof (Z.mod_pos_bound idx (Z.of_nat (length models)) Hpos) as Hk. split.
  - apply list_eq. intros i. rewrite list_lookup_fmap. destruct (decide (i < length models)%nat) as [Hlt|Hge].
    + rewrite choices_lookup by done. rewrite rotate_lookup by (subst k; lia). do 2 f_equal. subst k.
      rewrite <-Zplus_mod_idemp_l. rewrite Z2Nat.inj_mod by lia. rewrite Z2Nat.inj_add by lia. by rewrite !Nat2Z.id.
    + rewrite !lookup_ge_None_2; [done|rewrite length_app, length_drop, length_take; lia|].
      assert (∀ n j, length (choices models n j) = n) as ->; [|lia].
      clear. induction n as [|n IH]; intros j; [done|]. cbn. destruct (RoundRobinRouter models "" j). cbn. by rewrite IH.
  - rewrite Permutation_app_comm. by rewrite take_drop.
Qed.
End round_robin.

Section cache_safety.
Context {W : Type}.
Context (now : W → Time).
Context (cacheKey : string → list ModelMessage → option ModelSettings → ModelRequestParameters → res string).
Context (m : Model W).
Context (msgs : list ModelMessage) (ms : option ModelSettings) (params : ModelRequestParameters).
Local Abbreviation cached_request := (cached_request now cacheKey m msgs ms params).

(** The cache: a request that misses asks the model and stores its response; the
    same request at a later time [now w] is answered with that response and without
    asking the model as long as the entry has not expired, and asks the model again
    once it has; an error is not cached. *)
Theorem cached_request_correct key s s1 p w :
  cacheKey (ModelName m) msgs ms params = Ok key → mc_entries (cs_cache s) !! key = None →
  cached_request s = (s1, Ok p) →
  (∃ resp, Request m msgs ms params (cs_world s) = (cs_world s1, Ok resp) ∧ cs_heap s1 !! p = Some resp) ∧
  let s2 := MkCacheState (cs_heap s1) (cs_cache s1) (cs_events s1) w in
  let age := now w - now (cs_world s1) in
  (mc_ttl (cs_cache s1) ≤ 0 ∨ age ≤ mc_ttl (cs_cache s1) →
    ∃ ev, cached_request s2 = (MkCacheState (cs_heap s1) (cs_cache s1) ev w, Ok p)) ∧
  (0 < mc_ttl (cs_cache s1) < age →
    (cached_request s2).2 = match (Request m msgs ms params w).2 with
                            | Ok _ => Ok (length (cs_heap s1))
                            | Err e => Err e
                            end).
Proof.
  intros Hkey Hnone. unfold ModelUtil.cached_request. rewrite Hkey. unfold cache_Get. rewrite Hnone.
  destruct (Request m msgs ms params (cs_world s)) as [w1 [resp|e]]; [|done]. intros [= <- <-]. cbn.
  rewrite lookup_insert_eq. split; [exists resp; split; [done|]; by rewrite list_lookup_middle|]. split.
  - intros Hage. assert ((mc_ttl (cs_cache s) >? 0) && (now w - now w1 >? mc_ttl (cs_cache s)) = false) as ->.
    { apply andb_false_iff. rewrite !Z.gtb_ltb, !Z.ltb_ge. lia. }
    eexists. by destruct (cs_cache s).
  - intros Hage. assert ((mc_ttl (cs_cache s) >? 0) && (now w - now w1 >? mc_ttl (cs_cache s)) = true) as ->.
    { apply andb_true_iff. rewrite !Z.gtb_ltb, !Z.ltb_lt. lia. }
    by destruct (Request m msgs ms params w) as [? []].
Qed.

(** The response is shared: what an interceptor of one run writes to it, the next run
    with the same request receives from the cache. *)
Lemma cached_response_is_shared key s s1 p r resp :
  cacheKey (ModelName m) msgs ms params = Ok key → mc_entries (cs_cache s) !! key = None →
  mc_ttl (cs_cache s) = 0 → cached_request s = (s1, Ok p) → cs_heap s1 !! p = Some resp →
  ∃ s2, cached_request (intercept_at p r s1) = (s2, Ok p) ∧ cs_heap s2 !! p = Some (intercepted_parts resp r).
Proof.
  intros Hkey Hnone Httl. unfold ModelUtil.cached_request. rewrite Hkey. unfold cache_Get. rewrite Hnone.
  destruct (Request m msgs ms params (cs_world s)) as [w1 [resp'|e]]; [|done]. intros [= <- <-]. cbn. intros Hp.
  rewrite lookup_insert_eq, Httl. cbn. eexists. split; [done|]. cbn. rewrite list_lookup_alter_eq. by rewrite Hp.
Qed.
End cache_safety.

(** ** Instances *)

Module Wrapped.
(** A world that counts requests; the model fails until the second one. *)
Definition flaky (w : nat) : nat * res string :=
  (S w, if (w <? 2)%nat then Err (EModelHTTP "overloaded" 529 "" 0) else Ok "answer").
Definition no_wait (d : Duration) (w : nat) : nat * option error := (w, None).
Definition half (w : nat) : nat * float64 := (w, S754_finite false 4503599627370496 (-53)).
Definition named (name : string) (r : nat → res ModelResponse) : Model nat :=
  MkModel (λ _ _ _ w, (S w, r w)) name.
Definition answer (text : string) : ModelResponse :=
  MkModelResponse [TextPart text] zero_usage "" FinishReasonStop.
Definition three : list (Model nat) :=
  [named "a" (λ _, Err (ENew "down")); named "b" (λ _, Ok (answer "b")); named "c" (λ _, Ok (answer "c"))].
Definition params : ModelRequestParameters := MkModelRequestParameters [] OutputModeText [] None true.
Definition key (name : string) (msgs : list ModelMessage) (ms : option ModelSettings)
  (p : ModelRequestParameters) : res string := Ok name.
Definition fresh : CacheState nat := MkCacheState [] (NewMemoryCacheWithTTL 10) [] 0%nat.
End Wrapped.

Lemma retryLoop_correct_witness :
  let '(w, log, r) := retryLoop (λ _, None) Wrapped.half Wrapped.no_wait DefaultRetryConfig Wrapped.flaky 0%nat in
  r = Some (Ok "answer") ∧ length log = 3%nat ∧ Z.of_nat (length log) ≤ Z.max 0 (5 + 1).
Proof.
  destruct (retryLoop _ _ _ _ _ _) as [[w log] r] eqn:E.
  pose proof (retryLoop_correct (λ _, None) Wrapped.half Wrapped.no_wait DefaultRetryConfig Wrapped.flaky
    0%nat w log r E) as [H _].
  vm_compute in E. injection E as <- <- <-. split; [reflexivity|]. split; [reflexivity|]. exact H.
Defined.

Lemma round_robin_fair_witness :
  choices Wrapped.three 3 7 = Ok <$> (drop 1 Wrapped.three ++ take 1 Wrapped.three).
Proof.
  refine (proj1 (round_robin_fair Wrapped.three 7 _ _ _)); [discriminate|vm_compute; discriminate..].
Defined.

Lemma cached_request_correct_witness :
  let request := cached_request Z.of_nat Wrapped.key (Wrapped.named "b" (λ _, Ok (Wrapped.answer "b"))) [] None
    Wrapped.params in
  let s1 := (request Wrapped.fresh).1 in
  ∃ ev, request (MkCacheState (cs_heap s1) (cs_cache s1) (cs_events s1) 5%nat)
    = (MkCacheState (cs_heap s1) (cs_cache s1) ev 5%nat, Ok 0%nat).
Proof.
  cbn zeta.
  refine (proj1 (proj2 (cached_request_correct Z.of_nat Wrapped.key (Wrapped.named "b" (λ _, Ok (Wrapped.answer "b")))
    [] None Wrapped.params "b" Wrapped.fresh _ 0%nat 5%nat _ _ _)) _); [reflexivity..|].
  right. vm_compute. discriminate.
Defined.
