(* ===== verification/Iter.v ===== *)
(** * Runs step by step

    src/core/iter.go: [Iter] sets a run up like [Run] and lets the caller make its
    steps with [Next].  The run begins with the first step and ends, once, with the step
    that finishes it, with an error, or with [Close].  The start time of the run is that
    of the first [Next], unless a snapshot brought one; [RunContext] of the model has no
    start time, so callbacks do not see it. *)

From S2P Require Import Prelude Errors Usage Messages Truncate AgentTypes AutoContext AgentTools AgentToolsSafety AgentLoop AgentLoopSpec AgentTurn AgentSafety Json Serialize Snapshot RunSetup RunSafety Steer Stream StreamSafety.

Definition ErrAgentRunClosed := ESentinel "agent run closed before completion".

(** What [Next] returns besides a response. *)
Inductive NextErr := NextOK | NextEOF | NextFailed (e : RunError).

Section iter.
Context {W T : Type}.
Context (json_marshal : ToolValue → res string).
Context (json_object_ok : string → bool).
Context (unmarshal_wrapper : string → res (gmap string string)).
Context (unmarshal_T : string → res T).
Context (string_as_T : string → option T).
Context (type_name_T : string).
Context (ctx_Err : W → option error).
Context (a : Agent W T) (su : AgentSetup W).
Local Open Scope prog_scope.
Local Abbreviation Step := (Step json_marshal json_object_ok unmarshal_wrapper unmarshal_T string_as_T
  type_name_T ctx_Err a).
Local Abbreviation runLoop := (runLoop json_marshal json_object_ok unmarshal_wrapper unmarshal_T string_as_T
  type_name_T ctx_Err a).
Local Abbreviation Run := (Run json_marshal json_object_ok unmarshal_wrapper unmarshal_T string_as_T
  type_name_T ctx_Err a su).

(** [AgentRun]; [ar_ready]: it has an agent and an engine. *)
Record AgentRun := MkAgentRun {
  ar_st : St W;
  ar_prompt : string;
  ar_ready : bool;
  ar_done : bool;
  ar_result : option (RunResult T);
  ar_err : option RunError;
  ar_started : bool;
  ar_ended : bool;
  ar_origin : RunOrigin;          (* the start time and the traces of the run state *)
  ar_startTimeDeferred : bool;
}.
#[export] Instance AgentRun_eta : RecordEta AgentRun := λ r,
  MkAgentRun (ar_st r) (ar_prompt r) (ar_ready r) (ar_done r) (ar_result r) (ar_err r) (ar_started r) (ar_ended r)
    (ar_origin r) (ar_startTimeDeferred r).

(** The setup of [Iter]: input guardrails without hooks, and no event yet. *)
Definition setup_iter (cfg : runConfig) (parent newRunID : string) (now : Timestamp) (prompt : string)
    : prog W (res string) :=
  initializeRunExecution su cfg parent newRunID now;;;
  prompt <-? applyInputGuardrails a false (inputGuardrails su) prompt;;
  _ <-? bootstrapRunMessages su prompt (cfg_deferredResults cfg) (cfg_initialRequestParts cfg);;
  Ret (Ok prompt).

Definition start_deferred (cfg : runConfig) : bool :=
  match cfg_snapshot cfg with None => true | Some snap => IsZero (instant (snap_RunStartTime snap)) end.

(** A failed setup returns a run without agent and state. *)
Definition Iter (cfg : runConfig) (parent newRunID : string) (now : Timestamp) (prompt : string) (st : St W)
    : AgentRun :=
  let origin := (initial_state su cfg parent newRunID now).2 in
  match run (setup_iter cfg parent newRunID now prompt) st with
  | (st, Err e) => MkAgentRun st "" false true None (Some (RunFailed e)) false false origin false
  | (st, Ok prompt) => MkAgentRun st prompt true false None None false false origin (start_deferred cfg)
  end.

(** [start], at time [now]. *)
Definition iter_start (now : Timestamp) (r : AgentRun) : AgentRun :=
  if ar_started r || negb (ar_ready r) then r
  else
    let r := if ar_startTimeDeferred r then r <| ar_origin ::= λ o, o <| startTime := now |> |> else r in
    r <| ar_st := (run (beginRun a (ar_prompt r)) (ar_st r)).1 |> <| ar_started := true |>.
Definition iter_finish (runErr : option RunError) (r : AgentRun) : AgentRun :=
  if ar_ended r || negb (ar_started r) || negb (ar_ready r) then r
  else r <| ar_ended := true |> <| ar_st := (run (endRun a (ar_prompt r) runErr) (ar_st r)).1 |>.

(** [Next]; [None]: out of fuel. *)
Definition iter_Next (fuel : nat) (now : Timestamp) (r : AgentRun) : AgentRun * option (option ModelResponse * NextErr) :=
  if ar_done r then (r, Some (None, match ar_err r with Some e => NextFailed e | None => NextEOF end))
  else
    let r := iter_start now r in
    match run (Step fuel (ar_prompt r)) (ar_st r) with
    | (st, None) => (r <| ar_st := st |>, None)
    | (st, Some (SErr resp e)) =>
      (iter_finish (Some e) (r <| ar_st := st |> <| ar_done := true |> <| ar_err := Some e |>),
       Some (resp, NextFailed e))
    | (st, Some (SDone resp result)) =>
      (iter_finish None (r <| ar_st := st |> <| ar_done := true |> <| ar_result := Some result |>),
       Some (Some resp, NextOK))
    | (st, Some (SNext resp)) => (r <| ar_st := st |>, Some (Some resp, NextOK))
    end.

Definition iter_Close (r : AgentRun) : AgentRun :=
  if ar_done r then r
  else iter_finish (Some (RunFailed ErrAgentRunClosed))
         (r <| ar_done := true |> <| ar_err := Some (RunFailed ErrAgentRunClosed) |>).

Definition iter_Result (r : AgentRun) : RunResult T + RunError :=
  match ar_err r with
  | Some e => inr e
  | None =>
    if negb (ar_done r) then inr (RunFailed (ENew "agent run not yet complete"))
    else match ar_result r with
         | Some result => inl result
         | None => inr (RunFailed (ENew "agent run completed without a result"))
         end
  end.

(** A caller that makes steps until the run is done, with the fuel of [runLoop], at the
    times [clock] shows. *)
Fixpoint iter_all (clock : nat → Timestamp) (fuel : nat) (r : AgentRun) : AgentRun :=
  match fuel with
  | O => r
  | S fuel' => if ar_done r then r else iter_all clock fuel' (iter_Next fuel (clock fuel) r).1
  end.

(** ** Agreement with [Run] *)









(** However a run is driven, its end is reported at most once and only when it has
    begun. *)
Definition tidy (r : AgentRun) : Prop :=
  (ar_ended r = true → ar_started r = true ∧ ar_done r = true) ∧
  (ar_done r = true → ar_started r = true → ar_ended r = true) ∧ (ar_started r = true → ar_ready r = true) ∧
  (ar_ready r = false → ar_done r = true).
Lemma tidy_Iter cfg parent rid now prompt st : tidy (Iter cfg parent rid now prompt st).
Proof. unfold Iter. by destruct (run _ st) as [? []]. Qed.
Lemma tidy_Next fuel now r : tidy r → tidy (iter_Next fuel now r).1.
Proof.
  intros Ht. destruct Ht as (H1 & H2 & H3 & H4) eqn:Et. clear Et. unfold iter_Next. destruct (ar_done r) eqn:Hd; [done|].
  destruct (ar_ready r) eqn:Hr; [|by specialize (H4 eq_refl)].
  assert (ar_ended r = false) as He. { destruct (ar_ended r); [|done]. by destruct (H1 eq_refl). }
  unfold iter_start. rewrite Hr. destruct (ar_started r) eqn:Hs; cbn [orb negb]; [|destruct (ar_startTimeDeferred r)];
    cbn -[Step]; destruct (run (Step fuel _) _) as [st1 [[resp e|resp res|resp]|]]; unfold iter_finish; cbn;
    rewrite ?He, ?Hr, ?Hs; unfold tidy; cbn; rewrite ?He, ?Hr, ?Hs, ?Hd; by split_and!.
Qed.
Lemma tidy_Close r : tidy r → tidy (iter_Close r).
Proof.
  intros Ht. destruct Ht as (H1 & H2 & H3 & H4) eqn:Et. clear Et. unfold iter_Close. destruct (ar_done r) eqn:Hd; [done|].
  destruct (ar_ready r) eqn:Hr; [|by specialize (H4 eq_refl)].
  assert (ar_ended r = false) as He. { destruct (ar_ended r); [|done]. by destruct (H1 eq_refl). }
  unfold iter_finish. cbn. rewrite He, Hr. destruct (ar_started r) eqn:Hs; cbn; unfold tidy; cbn;
    rewrite ?He, ?Hr, ?Hs; by split_and!.
Qed.
End iter.

Module Steps.
Definition setup : AgentSetup nat := MkAgentSetup ["be brief"] [] None [] None DefaultUsageLimits [].
Definition go (cfg : runConfig) :=
  Run Demo.marshal (λ _, true) Scripts.no_json Scripts.parse Some "string" Demo.no_cancel Scripts.plain_agent
    setup 5 cfg "" "run-1" (At 1) "go".
Definition stepped (cfg : runConfig) : AgentRun (W := nat) (T := string) :=
  iter_all Demo.marshal (λ _, true) Scripts.no_json Scripts.parse Some "string" Demo.no_cancel Scripts.plain_agent (λ _, At 3) 5
    (Iter Scripts.plain_agent setup cfg "" "run-1" (At 1) "go" Scripts.start).
End Steps.


(** Resuming a deferred run with [Iter] takes over its results and publishes neither
    [RunResumedEvent] nor [DeferredResolvedEvent], which [Run] does. *)
Example iter_resumes_silently :
  RunResumedEvent ∈ events (run (Steps.go Setups.resume) Scripts.start).1 ∧
  DeferredResolvedEvent "2" "b" "late" false ∈ events (run (Steps.go Setups.resume) Scripts.start).1 ∧
  RunResumedEvent ∉ events (ar_st (Steps.stepped Setups.resume)) ∧
  DeferredResolvedEvent "2" "b" "late" false ∉ events (ar_st (Steps.stepped Setups.resume)) ∧
  ∃ r, iter_Result (Steps.stepped Setups.resume) = inl r.
Proof.
  split_and!; [| | | |eexists; vm_compute; reflexivity]; rewrite list_elem_of_In; vm_compute; [tauto|tauto|..];
    intuition discriminate.
Qed.
