(* ===== verification/Graph.v ===== *)
(** * Workflow graphs

    src/ext/graph/graph.go: a graph of named nodes.  A node changes the state and names
    the next node; a fan-out node sends copies of the state through other nodes at the
    same time and merges the results.  Nodes are callbacks on a world, atomic with
    respect to each other; the order in which the branches of a fan-out run is a
    parameter. *)

From S2P Require Import Prelude Errors.

Lemma omap_of_fmap {A B C} (f : B → option C) (h : A → B) (l : list A) : omap f (h <$> l) = omap (λ x, f (h x)) l.
Proof. induction l as [|x l IH]; [done|]. cbn. destruct (f (h x)); cbn in *; by rewrite IH. Qed.

Definition EndNode : string := "__end__".
Definition DefaultMaxIterations : Z := 100.

Section graph.
Context {W S : Type}.

(** [node.Run] and [FanOutFunc] leave a state behind also when they fail. *)
Definition NodeFunc := S → W → W * (S * res string).
Definition FanOutFunc := S → W → W * (S * res (list (string * S) * string)).
Record Graph := MkGraph {
  nodes : gmap string NodeFunc;
  fanOutNodes : gmap string FanOutFunc;
  reducer : option (list S → S);
  entryPoint : string;
  maxIterations : Z;
  nodeOrder : list string;
}.
#[export] Instance Graph_eta : RecordEta Graph := λ g,
  MkGraph (nodes g) (fanOutNodes g) (reducer g) (entryPoint g) (maxIterations g) (nodeOrder g).

(** ** Construction *)

Definition NewGraph : Graph := MkGraph ∅ ∅ None "" DefaultMaxIterations [].
Definition AddNode (name : string) (fn : NodeFunc) (g : Graph) : Graph :=
  g <| nodes ::= <[name := fn]> |> <| nodeOrder ::= λ l, l ++ [name] |>.
Definition SetEntryPoint (name : string) (g : Graph) : Graph := g <| entryPoint := name |>.
Definition SetMaxIterations (n : Z) (g : Graph) : Graph := g <| maxIterations := n |>.
Definition AddFanOutNode (name : string) (fn : FanOutFunc) (g : Graph) : Graph :=
  g <| fanOutNodes ::= <[name := fn]> |> <| nodeOrder ::= λ l, l ++ [name] |>.
Definition SetReducer (fn : list S → S) (g : Graph) : Graph := g <| reducer := Some fn |>.

(** ** Execution *)

Context (ctx_Err : W → option error).
(** The order in which the goroutines of [n] branches run. *)
Context (order : nat → W → list nat).
Context (g : Graph).

Definition run_branch (send : string * S) (w : W) : W * res S :=
  match nodes g !! send.1 with
  | None => (w, Err (ENew ("fan-out target node " +:+ go_quote send.1 +:+ " not found")))
  | Some node =>
    match node send.2 w with
    | (w, (_, Err e)) => (w, Err (EWrap ("fan-out branch node " +:+ go_quote send.1 +:+ " failed: ") e ""))
    | (w, (s, Ok _)) => (w, Ok s)
    end
  end.

(** Each branch writes its own slot of the results. *)
Fixpoint run_branches (sends : list (string * S)) (sched : list nat) (results : list (option (res S))) (w : W)
    : W * list (option (res S)) :=
  match sched with
  | [] => (w, results)
  | i :: sched =>
    match sends !! i with
    | None => run_branches sends sched results w
    | Some send =>
      let '(w, r) := run_branch send w in run_branches sends sched (<[i := Some r]> results) w
    end
  end.

(** [errors.Join]. *)
Fixpoint errors_Join (e : error) (es : list error) : error :=
  match es with
  | [] => EWrap "" e ""
  | [e'] => EJoin e e'
  | e' :: es => EJoin e (errors_Join e' es)
  end.

Definition branch_errors (results : list (option (res S))) : list error :=
  omap (λ r, match r with Some (Err e) => Some e | _ => None end) results.
Definition branch_states (results : list (option (res S))) : list S :=
  omap (λ r, match r with Some (Ok s) => Some s | _ => None end) results.

Definition executeFanOut (name : string) (fn : FanOutFunc) (state : S) (w : W) : W * (S * res string) :=
  match fn state w with
  | (w, (state, Err e)) => (w, (state, Err (EWrap ("fan-out node " +:+ go_quote name +:+ " failed: ") e "")))
  | (w, (state, Ok ([], continueNode))) => (w, (state, Ok continueNode))
  | (w, (state, Ok (sends, continueNode))) =>
    match reducer g with
    | None =>
      (w, (state, Err (ENew ("fan-out node " +:+ go_quote name +:+ " produced sends but no reducer is set"))))
    | Some reduce =>
      let n := length sends in
      let '(w, results) := run_branches sends (order n w) (replicate n None) w in
      match branch_errors results with
      | e :: es => (w, (state, Err (errors_Join e es)))
      | [] => (w, (reduce (branch_states results), Ok continueNode))
      end
    end
  end.

(** One node: the next node, or how the run ends. *)
Definition run_node (name : string) (state : S) (w : W) : W * (S * res string) :=
  match fanOutNodes g !! name with
  | Some fn => executeFanOut name fn state w
  | None =>
    match nodes g !! name with
    | None => (w, (state, Err (ENew ("node " +:+ go_quote name +:+ " not found"))))
    | Some node =>
      match node state w with
      | (w, (state, Err e)) => (w, (state, Err (EWrap ("node " +:+ go_quote name +:+ " failed: ") e "")))
      | (w, (state, Ok next)) => (w, (state, Ok next))
      end
    end
  end.

(** The loop of [Run]; [trace] lists the nodes executed.  [None]: out of fuel. *)
Fixpoint graph_loop (fuel : nat) (iterations : Z) (currentNode : string) (state : S) (w : W) (trace : list string)
    : option (W * list string * (S * option error)) :=
  match fuel with
  | O => None
  | Datatypes.S fuel =>
    match ctx_Err w with
    | Some e => Some (w, trace, (state, Some e))
    | None =>
      let iterations := iterations + 1 in
      if iterations >? maxIterations g then
        Some (w, trace, (state, Some (ENew ("max iterations (" +:+ itoa (maxIterations g) +:+ ") exceeded at node "
          +:+ go_quote currentNode))))
      else
        let trace := trace ++ [currentNode] in
        match run_node currentNode state w with
        | (w, (state, Err e)) => Some (w, trace, (state, Some e))
        | (w, (state, Ok nextNode)) =>
          if String.eqb nextNode "" || String.eqb nextNode EndNode then Some (w, trace, (state, None))
          else graph_loop fuel iterations nextNode state w trace
        end
    end
  end.

Definition graph_Run (fuel : nat) (initialState : S) (w : W) : option (W * list string * (option S * option error)) :=
  if String.eqb (entryPoint g) "" then Some (w, [], (None, Some (ENew "no entry point set")))
  else if bool_decide (nodes g !! entryPoint g = None) && bool_decide (fanOutNodes g !! entryPoint g = None) then
    Some (w, [], (None, Some (ENew ("entry point " +:+ go_quote (entryPoint g) +:+ " not found in graph"))))
  else
    match graph_loop fuel 0 (entryPoint g) initialState w [] with
    | Some (w, trace, (state, e)) => Some (w, trace, (Some state, e))
    | None => None
    end.

(** ** The diagram *)

Definition mermaid_node (name : string) : string :=
  let start := String.eqb name (entryPoint g) in
  match fanOutNodes g !! name with
  | Some _ =>
    let label := if start then name +:+ " [Start, Fan-Out]" else name +:+ " [Fan-Out]" in
    "    " +:+ name +:+ "([" +:+ quote_char +:+ label +:+ quote_char +:+ "])" +:+ byte_string [10%nat]
  | None =>
    let label := if start then name +:+ " [Start]" else name in
    "    " +:+ name +:+ "[" +:+ quote_char +:+ label +:+ quote_char +:+ "]" +:+ byte_string [10%nat]
  end.
Definition Mermaid : string :=
  "graph TD" +:+ byte_string [10%nat] +:+ String.concat "" (mermaid_node <$> nodeOrder g) +:+
  (if String.eqb (entryPoint g) "" then ""
   else "    START(( )) --> " +:+ entryPoint g +:+ byte_string [10%nat]).

(** ** Termination *)

Lemma graph_loop_terminates fuel iterations node state w trace :
  0 ≤ iterations → (Z.to_nat (maxIterations g - iterations) < fuel)%nat →
  ∃ w' trace' out, graph_loop fuel iterations node state w trace = Some (w', trace ++ trace', out) ∧
    Z.of_nat (length trace') ≤ Z.max 0 (maxIterations g - iterations).
Proof.
  revert iterations node state w trace. induction fuel as [|fuel IH]; intros it node state w trace Hit Hf; [lia|].
  cbn [graph_loop]. destruct (ctx_Err w) as [e|].
  { exists w, [], (state, Some e). rewrite app_nil_r. split; [done|]. cbn. lia. }
  destruct (Z.gtb_spec (it + 1) (maxIterations g)).
  { eexists w, [], _. rewrite app_nil_r. split; [done|]. cbn. lia. }
  destruct (run_node node state w) as [w1 [state1 [next|e]]].
  2: { exists w1, [node], (state1, Some e). split; [done|]. cbn. lia. }
  destruct (_ || _). { exists w1, [node], (state1, None). split; [done|]. cbn. lia. }
  destruct (IH (it + 1) next state1 w1 (trace ++ [node])) as (w2 & tr & out & E & Hl); [lia|lia|].
  exists w2, (node :: tr), out. rewrite E, <-app_assoc. split; [done|]. cbn. lia.
Qed.

(** C40: every graph ends, whatever its nodes do: with more fuel than iterations
    allowed, [Run] returns a state or an error after at most [maxIterations] iterations
    of its loop, each of which executes one node or one fan-out with its branches. *)
Theorem graph_Run_terminates fuel state w :
  (Z.to_nat (maxIterations g) < fuel)%nat →
  ∃ w' trace out, graph_Run fuel state w = Some (w', trace, out) ∧
    Z.of_nat (length trace) ≤ Z.max 0 (maxIterations g).
Proof.
  intros Hf. unfold graph_Run. destruct (String.eqb _ _); [do 3 eexists; split; [done|cbn; lia]|].
  destruct (_ && _); [do 3 eexists; split; [done|cbn; lia]|].
  destruct (graph_loop_terminates fuel 0 (entryPoint g) state w []) as (w' & tr & [st e] & E & Hl); [lia|..].
  { by rewrite Z.sub_0_r. }
  rewrite E. do 3 eexists. split; [done|]. rewrite app_nil_l. by rewrite Z.sub_0_r in Hl.
Qed.

(** ** Fan-out *)

(** Nodes whose outcome depends on the state only. *)
Context (Hpure : ∀ name node s w w', nodes g !! name = Some node → (node s w).2 = (node s w').2).
Context (Horder : ∀ n w, order n w ≡ₚ seq 0 n).

Lemma branch_outcome send w w' : (run_branch send w).2 = (run_branch send w').2.
Proof. clear ctx_Err.
  unfold run_branch. destruct (nodes g !! send.1) as [node|] eqn:E; [|done].
  pose proof (Hpure _ _ send.2 w w' E) as Hp.
  destruct (node send.2 w) as [w1 [s1 r1]], (node send.2 w') as [w2 [s2 r2]]. cbn in Hp. simplify_eq.
  by destruct r2.
Qed.

Lemma run_branches_lookup sends sched results w w0 i :
  length results = length sends →
  (run_branches sends sched results w).2 !! i =
    match sends !! i with
    | Some send => if bool_decide (i ∈ sched) then Some (Some (run_branch send w0).2) else results !! i
    | None => results !! i
    end.
Proof. clear ctx_Err.
  revert results w. induction sched as [|j sched IH]; intros results w Hlen; cbn [run_branches].
  { destruct (sends !! i); [|done]. rewrite bool_decide_eq_false_2; [done|]. apply not_elem_of_nil. }
  destruct (sends !! j) as [send|] eqn:Ej.
  - pose proof (branch_outcome send w w0) as Ho. destruct (run_branch send w) as [w1 r]. cbn in Ho. subst r.
    rewrite IH by by rewrite length_insert. destruct (sends !! i) as [si|] eqn:Ei.
    + destruct (decide (i ∈ sched)) as [Hin|Hin].
      { rewrite !bool_decide_eq_true_2; [done| |done]. by apply elem_of_cons; right. }
      rewrite (bool_decide_eq_false_2 (i ∈ sched)) by done. destruct (decide (i = j)) as [->|Hne].
      * rewrite bool_decide_eq_true_2 by (apply elem_of_cons; by left). simplify_eq.
        apply list_lookup_insert_eq. rewrite Hlen. by eapply lookup_lt_Some.
      * rewrite bool_decide_eq_false_2 by (rewrite elem_of_cons; tauto). by apply list_lookup_insert_ne.
    + apply list_lookup_insert_ne. congruence.
  - rewrite IH by done. destruct (sends !! i) as [si|] eqn:Ei; [|done].
    assert (i ≠ j) as Hne by congruence.
    destruct (decide (i ∈ sched)).
    + rewrite !bool_decide_eq_true_2; [done| |done]. by apply elem_of_cons; right.
    + rewrite !bool_decide_eq_false_2; [done| |done]. rewrite elem_of_cons. tauto.
Qed.

Lemma run_branches_results sends sched w w0 :
  sched ≡ₚ seq 0 (length sends) →
  (run_branches sends sched (replicate (length sends) None) w).2 = (λ send, Some (run_branch send w0).2) <$> sends.
Proof. clear ctx_Err.
  intros Hs. apply list_eq. intros i. rewrite (run_branches_lookup _ _ _ _ w0) by apply length_replicate.
  rewrite list_lookup_fmap. destruct (sends !! i) as [send|] eqn:E; cbn.
  - rewrite bool_decide_eq_true_2; [done|]. rewrite Hs. apply elem_of_seq. apply lookup_lt_Some in E. lia.
  - apply lookup_replicate_None. by apply lookup_ge_None_1 in E.
Qed.

(** A fan-out does not depend on how its branches interleave: when the outcome of
    a node depends only on its state, then under every order of the branches the
    result of a fan-out node is that of running each branch on its own: the errors of
    all failed branches in the order of the sends, with the state left as the fan-out
    function left it, or the reducer applied to the states of the branches in the order
    of the sends. *)
Theorem executeFanOut_deterministic name fn state w w0 :
  (executeFanOut name fn state w).2 =
  match (fn state w).2 with
  | (state, Err e) => (state, Err (EWrap ("fan-out node " +:+ go_quote name +:+ " failed: ") e ""))
  | (state, Ok ([], next)) => (state, Ok next)
  | (state, Ok (sends, next)) =>
    match reducer g with
    | None => (state, Err (ENew ("fan-out node " +:+ go_quote name +:+ " produced sends but no reducer is set")))
    | Some reduce =>
      let outcomes := (λ send, (run_branch send w0).2) <$> sends in
      match omap (λ r, match r with Err e => Some e | Ok _ => None end) outcomes with
      | e :: es => (state, Err (errors_Join e es))
      | [] => (reduce (omap (λ r, match r with Ok s => Some s | Err _ => None end) outcomes), Ok next)
      end
    end
  end.
Proof. clear ctx_Err.
  unfold executeFanOut. destruct (fn state w) as [w1 [state1 [[[|send sends] next]|e]]]; cbn [snd]; [done| |done].
  destruct (reducer g) as [reduce|]; [|done].
  pose proof (run_branches_results (send :: sends) (order (length (send :: sends)) w1) w1 w0 (Horder _ _)) as Hr.
  destruct (run_branches _ _ _ w1) as [w2 results]. cbn [snd] in Hr. subst results.
  unfold branch_errors, branch_states. cbn zeta. rewrite !omap_of_fmap. by destruct (omap _ (send :: sends)).
Qed.
End graph.

Module Flows.
(** A fan-out that sends its state and twice its state to a node that adds one, and
    sums the results; the branches run in the opposite order. *)
Definition flow : Graph (W := unit) (S := Z) :=
  SetReducer (foldr Z.add 0) (SetEntryPoint "split"
    (AddFanOutNode "split" (λ s w, (w, (s, Ok ([("inc", s); ("inc", 2 * s)], EndNode))))
      (AddNode "inc" (λ s w, (w, (s + 1, Ok ""))) NewGraph))).
Definition backwards (n : nat) (w : unit) : list nat := rev (seq 0 n).
(** A node that names itself as the next one. *)
Definition cycle : Graph (W := unit) (S := Z) :=
  SetMaxIterations 3 (SetEntryPoint "inc" (AddNode "inc" (λ s w, (w, (s + 1, Ok "inc"))) NewGraph)).
End Flows.

Lemma graph_Run_terminates_witness :
  ∃ w' trace out, graph_Run (λ _, None) Flows.backwards Flows.cycle 4 0 tt = Some (w', trace, out) ∧
    trace = ["inc"; "inc"; "inc"] ∧ out.1 = Some 3 ∧ Z.of_nat (length trace) ≤ Z.max 0 3.
Proof.
  destruct (graph_Run_terminates (λ _, None) Flows.backwards Flows.cycle 4 0 tt) as (w' & tr & out & E & H).
  - vm_compute. lia.
  - exists w', tr, out. split; [exact E|]. pose proof E as E'. vm_compute in E'. injection E' as <- <- <-.
    split; [reflexivity|]. split; [reflexivity|]. exact H.
Defined.

Lemma executeFanOut_deterministic_witness :
  (executeFanOut Flows.backwards Flows.flow "split" (λ s w, (w, (s, Ok ([("inc", s); ("inc", 2 * s)], EndNode)))) 5 tt).2
  = (17, Ok EndNode).
Proof.
  rewrite (executeFanOut_deterministic Flows.backwards Flows.flow) with (w0 := tt).
  - vm_compute. reflexivity.
  - intros name node s w w' H. destruct w, w'. reflexivity.
  - intros n w. unfold Flows.backwards. symmetry. apply Permutation_rev.
Defined.
