(* ===== verification/OrchHistory.v ===== *)
(** * Orchestration history

    src/ext/orchestrator/history.go: timelines, run and worker summaries and replay over
    a durable list of event records, and the query of sqlite/history.go that selects
    the records.  The functions work against the class [EventStore]; what they rely on
    is [EventStoreLaws], and the selection of the table is an instance. *)

From S2P Require Import Prelude Errors OrchTypes.

Inductive EventKind :=
| EventTaskCreated | EventTaskUpdated | EventTaskDeleted | EventTaskClaimed | EventLeaseRenewed
| EventLeaseReleased | EventTaskRequeued | EventTaskCompleted | EventTaskFailed | EventTaskCanceled
| EventArtifactCreated | EventCommandCreated | EventCommandClaimed | EventCommandReleased
| EventCommandHandled | EventKindOther (s : string).
#[export] Instance EventKind_eq_dec : EqDecision EventKind.
Proof. solve_decision. Defined.

Record EventRecord := MkEventRecord {
  er_Sequence : Z;
  er_ID : string;
  er_Kind : EventKind;
  er_TaskID : string;
  er_RunID : string;
  er_LeaseID : string;
  er_CommandID : string;
  er_ArtifactID : string;
  er_CreatedAt : Time;
  er_Payload : string;
}.
Record EventFilter := MkEventFilter {
  ef_Kinds : list EventKind;
  ef_TaskID : string;
  ef_RunID : string;
  ef_LeaseID : string;
  ef_CommandID : string;
  ef_ArtifactID : string;
  ef_AfterSequence : Z;
  ef_Limit : Z;
}.
#[export] Instance EventFilter_eta : RecordEta EventFilter := λ f,
  MkEventFilter (ef_Kinds f) (ef_TaskID f) (ef_RunID f) (ef_LeaseID f) (ef_CommandID f) (ef_ArtifactID f)
    (ef_AfterSequence f) (ef_Limit f).
Definition no_filter : EventFilter := MkEventFilter [] "" "" "" "" "" 0 0.

(** ** The store of events *)

Class EventStore (S : Type) := ListEvents : EventFilter → S → res (list EventRecord).

(** The conditions of the query; an empty or zero field does not restrict. *)
Definition column_matches (want have : string) : bool := String.eqb want "" || String.eqb want have.
Definition event_matches (f : EventFilter) (r : EventRecord) : bool :=
  (negb (ef_AfterSequence f >? 0) || (er_Sequence r >? ef_AfterSequence f))
  && column_matches (ef_TaskID f) (er_TaskID r)
  && column_matches (ef_RunID f) (er_RunID r)
  && column_matches (ef_LeaseID f) (er_LeaseID r)
  && column_matches (ef_CommandID f) (er_CommandID r)
  && column_matches (ef_ArtifactID f) (er_ArtifactID r)
  && (bool_decide (ef_Kinds f = []) || bool_decide (er_Kind r ∈ ef_Kinds f)).
(** [listEvents] on a table in the order of its sequence numbers. *)
Definition listEvents (f : EventFilter) (table : list EventRecord) : list EventRecord :=
  let l := filter (λ r, event_matches f r = true) table in
  if ef_Limit f >? 0 then take (Z.to_nat (ef_Limit f)) l else l.

(** A store lists a table of records with increasing positive sequence numbers. *)
Class EventStoreLaws (S : Type) `{EventStore S} := {
  table_of : S → list EventRecord;
  lists_table f s : ListEvents f s = Ok (listEvents f (table_of s));
  sequences_sorted s : StronglySorted (λ a b, er_Sequence a < er_Sequence b) (table_of s);
  sequences_positive s : Forall (λ r, 0 < er_Sequence r) (table_of s);
}.

(** ** Decoding *)

Definition kind_of (e : Event) : EventKind :=
  match e with
  | EvTaskCreated _ => EventTaskCreated
  | EvTaskUpdated _ => EventTaskUpdated
  | EvTaskDeleted _ => EventTaskDeleted
  | EvTaskClaimed _ => EventTaskClaimed
  | EvLeaseRenewed _ => EventLeaseRenewed
  | EvLeaseReleased _ => EventLeaseReleased
  | EvTaskRequeued _ => EventTaskRequeued
  | EvTaskCompleted _ => EventTaskCompleted
  | EvTaskFailed _ => EventTaskFailed
  | EvTaskCanceled _ => EventTaskCanceled
  | EvArtifactCreated _ => EventArtifactCreated
  | EvCommandCreated _ => EventCommandCreated
  | EvCommandClaimed _ => EventCommandClaimed
  | EvCommandReleased _ => EventCommandReleased
  | EvCommandHandled _ => EventCommandHandled
  end.
Definition kind_string (k : EventKind) : string :=
  match k with
  | EventTaskCreated => "task_created"
  | EventTaskUpdated => "task_updated"
  | EventTaskDeleted => "task_deleted"
  | EventTaskClaimed => "task_claimed"
  | EventLeaseRenewed => "lease_renewed"
  | EventLeaseReleased => "lease_released"
  | EventTaskRequeued => "task_requeued"
  | EventTaskCompleted => "task_completed"
  | EventTaskFailed => "task_failed"
  | EventTaskCanceled => "task_canceled"
  | EventArtifactCreated => "artifact_created"
  | EventCommandCreated => "command_created"
  | EventCommandClaimed => "command_claimed"
  | EventCommandReleased => "command_released"
  | EventCommandHandled => "command_handled"
  | EventKindOther s => s
  end.

Record DecodedEvent := MkDecodedEvent { de_Record : EventRecord; de_Payload : Event }.
Record Timeline := MkTimeline {
  tl_ID : string;
  tl_Events : list DecodedEvent;
  tl_Latest : option EventRecord;
  tl_LatestAt : Time;
}.
Record RunTimeline := MkRunTimeline {
  rt_RunID : string;
  rt_TaskID : string;
  rt_WorkerID : string;
  rt_Attempt : Z;
  rt_Events : list DecodedEvent;
  rt_Latest : option EventRecord;
  rt_LatestAt : Time;
  rt_StartedAt : Time;
  rt_CompletedAt : Time;
  rt_Terminal : option EventRecord;
}.
#[export] Instance RunTimeline_eta : RecordEta RunTimeline := λ t,
  MkRunTimeline (rt_RunID t) (rt_TaskID t) (rt_WorkerID t) (rt_Attempt t) (rt_Events t) (rt_Latest t)
    (rt_LatestAt t) (rt_StartedAt t) (rt_CompletedAt t) (rt_Terminal t).

Inductive RunStatus := RunRunning | RunCompleted | RunFailed | RunCanceled | RunRequeued | RunReleased.
#[export] Instance RunStatus_eq_dec : EqDecision RunStatus.
Proof. solve_decision. Defined.

Record RunSummary := MkRunSummary {
  rsm_ID : string;
  rsm_TaskID : string;
  rsm_WorkerID : string;
  rsm_Attempt : Z;
  rsm_Status : RunStatus;
  rsm_StartedAt : Time;
  rsm_CompletedAt : Time;
  rsm_LatestAt : Time;
  rsm_LatestKind : option EventKind;
  rsm_TerminalKind : option EventKind;
}.
Record RunFilter := MkRunFilter { rf_TaskID : string; rf_WorkerID : string; rf_Statuses : list RunStatus }.
(** The fields about the latest run are read off that run. *)
Record WorkerSummary := MkWorkerSummary {
  wsm_ID : string;
  wsm_ActiveRuns : Z;
  wsm_CompletedRuns : Z;
  wsm_FailedRuns : Z;
  wsm_CanceledRuns : Z;
  wsm_RequeuedRuns : Z;
  wsm_ReleasedRuns : Z;
  wsm_LatestAt : Time;
  wsm_LatestRun : option RunSummary;
}.
#[export] Instance WorkerSummary_eta : RecordEta WorkerSummary := λ s,
  MkWorkerSummary (wsm_ID s) (wsm_ActiveRuns s) (wsm_CompletedRuns s) (wsm_FailedRuns s) (wsm_CanceledRuns s)
    (wsm_RequeuedRuns s) (wsm_ReleasedRuns s) (wsm_LatestAt s) (wsm_LatestRun s).
Record WorkerFilter := MkWorkerFilter { wf_IDs : list string; wf_ActiveOnly : bool }.

(** [runStatusFromEvent]. *)
Definition runStatusFromEvent (kind : EventKind) : RunStatus :=
  match kind with
  | EventTaskCompleted => RunCompleted
  | EventTaskFailed => RunFailed
  | EventTaskCanceled => RunCanceled
  | EventTaskRequeued => RunRequeued
  | EventLeaseReleased => RunReleased
  | _ => RunRunning
  end.

(** [applyRunProjection]: what a payload says about its run. *)
Definition set_attempt (n : Z) (t : RunTimeline) : RunTimeline := if n >? 0 then t <| rt_Attempt := n |> else t.
Definition set_worker (id : string) (t : RunTimeline) : RunTimeline :=
  if String.eqb (rt_WorkerID t) "" then t <| rt_WorkerID := id |> else t.
Definition set_terminal (at_ : Time) (r : EventRecord) (t : RunTimeline) : RunTimeline :=
  t <| rt_CompletedAt := at_ |> <| rt_Terminal := Some r |>.
Definition applyRunProjection (t : RunTimeline) (d : DecodedEvent) : RunTimeline :=
  match de_Payload d with
  | EvTaskClaimed p =>
    let t := set_attempt (tcl_Attempt p) (set_worker (tcl_WorkerID p) t) in
    if IsZero (rt_StartedAt t) || Before (tcl_AcquiredAt p) (rt_StartedAt t)
    then t <| rt_StartedAt := tcl_AcquiredAt p |> else t
  | EvLeaseRenewed p =>
    let t := set_worker (lre_WorkerID p) t in
    if IsZero (rt_StartedAt t) then t <| rt_StartedAt := er_CreatedAt (de_Record d) |> else t
  | EvLeaseReleased p => set_terminal (lrl_ReleasedAt p) (de_Record d) (set_worker (lrl_WorkerID p) t)
  | EvTaskRequeued p => set_terminal (trq_RequeuedAt p) (de_Record d) (set_attempt (trq_LastAttempt p) t)
  | EvTaskCompleted p => set_terminal (tcp_CompletedAt p) (de_Record d) (set_attempt (tcp_Attempt p) t)
  | EvTaskFailed p => set_terminal (tfe_FailedAt p) (de_Record d) (set_attempt (tfe_Attempt p) t)
  | EvTaskCanceled p => set_terminal (tca_CanceledAt p) (de_Record d) (set_attempt (tca_Attempt p) t)
  | _ => t
  end.

Definition summarizeRunTimeline (t : RunTimeline) : RunSummary :=
  MkRunSummary (rt_RunID t) (rt_TaskID t) (rt_WorkerID t) (rt_Attempt t)
    (match rt_Terminal t with Some r => runStatusFromEvent (er_Kind r) | None => RunRunning end)
    (rt_StartedAt t) (rt_CompletedAt t) (rt_LatestAt t) (er_Kind <$> rt_Latest t) (er_Kind <$> rt_Terminal t).

Definition matchesRunFilter (s : RunSummary) (f : RunFilter) : bool :=
  column_matches (rf_TaskID f) (rsm_TaskID s) && column_matches (rf_WorkerID f) (rsm_WorkerID s)
  && (bool_decide (rf_Statuses f = []) || bool_decide (rsm_Status s ∈ rf_Statuses f)).

(** The records of a list by key, in the order of first appearance. *)
Fixpoint add_to {A} (key : string) (x : A) (groups : list (string * list A)) : list (string * list A) :=
  match groups with
  | [] => [(key, [x])]
  | (k, xs) :: groups => if String.eqb k key then (k, xs ++ [x]) :: groups else (k, xs) :: add_to key x groups
  end.
Definition group_by {A} (key : A → string) (l : list A) : list (string * list A) :=
  foldl (λ groups x, if String.eqb (key x) "" then groups else add_to (key x) x groups) [] l.

Definition count_run (s : WorkerSummary) (r : RunSummary) : WorkerSummary :=
  let s := match rsm_Status r with
           | RunRunning => s <| wsm_ActiveRuns ::= Z.add 1 |>
           | RunCompleted => s <| wsm_CompletedRuns ::= Z.add 1 |>
           | RunFailed => s <| wsm_FailedRuns ::= Z.add 1 |>
           | RunCanceled => s <| wsm_CanceledRuns ::= Z.add 1 |>
           | RunRequeued => s <| wsm_RequeuedRuns ::= Z.add 1 |>
           | RunReleased => s <| wsm_ReleasedRuns ::= Z.add 1 |>
           end in
  if IsZero (wsm_LatestAt s) || After (rsm_LatestAt r) (wsm_LatestAt s)
  then s <| wsm_LatestAt := rsm_LatestAt r |> <| wsm_LatestRun := Some r |> else s.
Definition summarizeWorkerRuns (workerID : string) (runs : list RunSummary) : WorkerSummary :=
  foldl count_run (MkWorkerSummary workerID 0 0 0 0 0 0 zero_time None) runs.
Definition matchesWorkerFilter (s : WorkerSummary) (f : WorkerFilter) : bool :=
  (bool_decide (wf_IDs f = []) || bool_decide (wsm_ID s ∈ wf_IDs f))
  && negb (wf_ActiveOnly f && (wsm_ActiveRuns s =? 0)).

(** The order of a worker's timeline. *)
Definition record_before (a b : EventRecord) : bool :=
  if negb (er_Sequence a =? er_Sequence b) then er_Sequence a <? er_Sequence b
  else if negb (er_CreatedAt a =? er_CreatedAt b) then Before (er_CreatedAt a) (er_CreatedAt b)
  else String.ltb (er_ID a) (er_ID b).
Fixpoint insert_event (d : DecodedEvent) (l : list DecodedEvent) : list DecodedEvent :=
  match l with
  | [] => [d]
  | x :: l => if record_before (de_Record d) (de_Record x) then d :: x :: l else x :: insert_event d l
  end.
Definition sort_events (l : list DecodedEvent) : list DecodedEvent := foldl (λ l d, insert_event d l) [] l.

Definition traverse {A B} (f : A → res B) : list A → res (list B) :=
  fix go l := match l with
    | [] => Ok []
    | x :: l => match f x with
                | Err e => Err e
                | Ok y => match go l with Err e => Err e | Ok ys => Ok (y :: ys) end
                end
    end.
Definition and_then {A B} (r : res A) (k : A → res B) : res B :=
  match r with Ok x => k x | Err e => Err e end.

Section history.
Context {S : Type} `{EventStore S}.
(** encoding/json on the payload struct of a kind, and that struct's zero value. *)
Context (unmarshal_event : EventKind → string → res Event) (zero_event : EventKind → Event).

Definition DecodePayload (r : EventRecord) : res Event :=
  if String.eqb (er_Payload r) "" then Ok (zero_event (er_Kind r))
  else match unmarshal_event (er_Kind r) (er_Payload r) with
       | Ok e => Ok e
       | Err e => Err (EWrap "unmarshal orchestrator event payload: " e "")
       end.
Definition DecodeEvent (r : EventRecord) : res DecodedEvent :=
  match er_Kind r with
  | EventKindOther k => Err (ENew ("orchestrator: unsupported event kind " +:+ go_quote k))
  | _ => and_then (DecodePayload r) (λ e, Ok (MkDecodedEvent r e))
  end.

(** ** Timelines *)

Definition timeline_of (id : string) (ds : list DecodedEvent) : Timeline :=
  let latest := de_Record <$> last ds in
  MkTimeline id ds latest (match latest with Some r => er_CreatedAt r | None => zero_time end).
Definition LoadTaskTimeline (s : S) (taskID : string) : res Timeline :=
  if String.eqb taskID "" then Err (ENew "orchestrator: task id must not be empty")
  else and_then (ListEvents (no_filter <| ef_TaskID := taskID |>) s) (λ events,
       and_then (traverse DecodeEvent events) (λ ds, Ok (timeline_of taskID ds))).
Definition LoadCommandTimeline (s : S) (commandID : string) : res Timeline :=
  if String.eqb commandID "" then Err (ENew "orchestrator: command id must not be empty")
  else and_then (ListEvents (no_filter <| ef_CommandID := commandID |>) s) (λ events,
       and_then (traverse DecodeEvent events) (λ ds, Ok (timeline_of commandID ds))).

Definition project_event (t : RunTimeline) (d : DecodedEvent) : RunTimeline :=
  let r := de_Record d in
  let t := t <| rt_Events ::= λ l, l ++ [d] |> <| rt_Latest := Some r |> <| rt_LatestAt := er_CreatedAt r |> in
  let t := if String.eqb (rt_TaskID t) "" && negb (String.eqb (er_TaskID r) "")
           then t <| rt_TaskID := er_TaskID r |> else t in
  applyRunProjection t d.
Definition empty_run (runID : string) : RunTimeline :=
  MkRunTimeline runID "" "" 0 [] None zero_time zero_time zero_time None.
Definition buildRunTimeline (runID : string) (events : list EventRecord) : res RunTimeline :=
  and_then (traverse DecodeEvent events) (λ ds, Ok (foldl project_event (empty_run runID) ds)).

Definition LoadRunTimeline (s : S) (runID : string) : res RunTimeline :=
  if String.eqb runID "" then Err (ENew "orchestrator: run id must not be empty")
  else and_then (ListEvents (no_filter <| ef_RunID := runID |>) s) (buildRunTimeline runID).
Definition GetRun (s : S) (runID : string) : res RunSummary :=
  and_then (LoadRunTimeline s runID) (λ t,
    match rt_Events t with [] => Err ErrRunNotFound | _ => Ok (summarizeRunTimeline t) end).

Definition ListRuns (s : S) (f : RunFilter) : res (list RunSummary) :=
  and_then (ListEvents no_filter s) (λ events,
  and_then (traverse (λ g, buildRunTimeline g.1 g.2) (group_by er_RunID events)) (λ ts,
    Ok (filter (λ r, matchesRunFilter r f = true) (summarizeRunTimeline <$> ts)))).

(** ** Workers *)

Definition GetWorker (s : S) (workerID : string) : res WorkerSummary :=
  if String.eqb workerID "" then Err (ENew "orchestrator: worker id must not be empty")
  else and_then (ListRuns s (MkRunFilter "" workerID [])) (λ runs,
    match runs with [] => Err ErrRunNotFound | _ => Ok (summarizeWorkerRuns workerID runs) end).
Definition ListWorkers (s : S) (f : WorkerFilter) : res (list WorkerSummary) :=
  and_then (ListRuns s (MkRunFilter "" "" [])) (λ runs,
    Ok (filter (λ w, matchesWorkerFilter w f = true)
          ((λ g, summarizeWorkerRuns g.1 g.2) <$> group_by rsm_WorkerID runs))).
Definition LoadWorkerTimeline (s : S) (workerID : string) : res (list RunSummary * Timeline) :=
  if String.eqb workerID "" then Err (ENew "orchestrator: worker id must not be empty")
  else and_then (ListRuns s (MkRunFilter "" workerID [])) (λ runs,
       and_then (traverse (λ r, and_then (ListEvents (no_filter <| ef_RunID := rsm_ID r |>) s)
                                  (traverse DecodeEvent)) runs) (λ dss,
         Ok (runs, timeline_of workerID (sort_events (concat dss))))).

(** ** Recoveries *)

Record RecoveryHistoryFilter := MkRecoveryHistoryFilter {
  rhf_TaskID : string; rhf_RunID : string; rhf_LeaseID : string; rhf_CommandID : string;
  rhf_AfterSequence : Z; rhf_Limit : Z;
}.
Definition limited {A} (limit : Z) (l : list A) : list A := if limit >? 0 then take (Z.to_nat limit) l else l.
(** A summary is the sequence number and the payload of the release.  Records after
    the limit are not decoded. *)
Fixpoint recoveries {A} (select : Event → option A) (limit : Z) (out : list (Z * A)) (records : list EventRecord)
    : res (list (Z * A)) :=
  match records with
  | [] => Ok out
  | r :: records =>
    and_then (DecodeEvent r) (λ d,
      match select (de_Payload d) with
      | None => recoveries select limit out records
      | Some p =>
        let out := out ++ [(er_Sequence r, p)] in
        if (limit >? 0) && (Z.of_nat (length out) >=? limit) then Ok out
        else recoveries select limit out records
      end)
  end.
Definition recovered_lease (e : Event) : option LeaseReleasedEvent :=
  match e with EvLeaseReleased p => if lrl_Recovered p then Some p else None | _ => None end.
Definition recovered_command (e : Event) : option CommandReleasedEvent :=
  match e with EvCommandReleased p => if crl_Recovered p then Some p else None | _ => None end.
Definition ListLeaseRecoveries (s : S) (f : RecoveryHistoryFilter) : res (list (Z * LeaseReleasedEvent)) :=
  and_then (ListEvents (MkEventFilter [EventLeaseReleased] (rhf_TaskID f) (rhf_RunID f) (rhf_LeaseID f) "" ""
    (rhf_AfterSequence f) 0) s) (recoveries recovered_lease (rhf_Limit f) []).
Definition ListCommandRecoveries (s : S) (f : RecoveryHistoryFilter) : res (list (Z * CommandReleasedEvent)) :=
  and_then (ListEvents (MkEventFilter [EventCommandReleased] (rhf_TaskID f) (rhf_RunID f) "" (rhf_CommandID f) ""
    (rhf_AfterSequence f) 0) s) (recoveries recovered_command (rhf_Limit f) []).

(** ** Replay *)

Definition advanceReplayCursor (cursor : Z) (records : list EventRecord) : Z :=
  foldl (λ c r, Z.max c (er_Sequence r)) cursor records.
Definition ReplayEventRecords (s : S) (f : EventFilter) (cursor : Z) : res (list EventRecord * Z) :=
  and_then (ListEvents (f <| ef_AfterSequence := Z.max (ef_AfterSequence f) cursor |>) s) (λ records,
    Ok (records, advanceReplayCursor cursor records)).
Definition ReplayEvents (s : S) (f : EventFilter) (cursor : Z) : res (list DecodedEvent * Z) :=
  and_then (ReplayEventRecords s f cursor) (λ '(records, next),
  and_then (traverse DecodeEvent records) (λ ds, Ok (ds, next))).
End history.
