(* ===== verification/OrchHistorySafety.v ===== *)
(** * Properties of the orchestration history

    Replay in pages misses nothing and repeats nothing; the list of runs and the lookup
    of a run agree; the status of a run is that of its last terminal event. *)

From S2P Require Import Prelude Errors OrchTypes OrchHistory.

Section laws.
Context {S : Type} `{EventStoreLaws S}.

(** ** Replay *)

(** A client that asks for pages until one is empty. *)
Fixpoint replay_pages (fuel : nat) (s : S) (f : EventFilter) (cursor : Z) : list (list EventRecord) :=
  match fuel with
  | O => []
  | Datatypes.S fuel =>
    match ReplayEventRecords s f cursor with
    | Ok ([], _) | Err _ => []
    | Ok (page, next) => page :: replay_pages fuel s f next
    end
  end.

Definition after (x : Z) (r : EventRecord) : Prop := x ≤ 0 ∨ x < er_Sequence r.
#[local] Instance after_dec x r : Decision (after x r).
Proof. unfold after. apply _. Defined.
(** The records a filter is after, past a position. *)
Definition selected (f : EventFilter) (x : Z) (table : list EventRecord) : list EventRecord :=
  filter (λ r, event_matches (f <| ef_AfterSequence := x |>) r = true) table.

Lemma matches_after f x r :
  event_matches (f <| ef_AfterSequence := x |>) r = true ↔
  after x r ∧ event_matches (f <| ef_AfterSequence := 0 |>) r = true.
Proof.
  unfold event_matches, after. cbn -[bool_decide]. rewrite !andb_true_iff, orb_true_iff, negb_true_iff.
  rewrite !Z.gtb_ltb, Z.ltb_ge, Z.ltb_lt. tauto.
Qed.
Lemma selected_later f x y table : x ≤ y → 0 < y → selected f y table = filter (after y) (selected f x table).
Proof.
  intros Hxy Hy. unfold selected. rewrite list_filter_filter. apply list_filter_iff. intros r.
  rewrite (matches_after f x), (matches_after f y). unfold after. split; [|tauto]. intros [[?|?] ?]; split_and!; auto; lia.
Qed.

Lemma sorted_filter {A} (R : A → A → Prop) (P : A → Prop) `{∀ x, Decision (P x)} (l : list A) :
  StronglySorted R l → StronglySorted R (filter P l).
Proof.
  induction 1 as [|x l Hl IH Hx]; [constructor|]. rewrite filter_cons. case_decide; [|done].
  constructor; [done|]. by apply Forall_filter.
Qed.
Lemma sorted_split {A} (R : A → A → Prop) (l1 l2 : list A) x y :
  StronglySorted R (l1 ++ l2) → x ∈ l1 → y ∈ l2 → R x y.
Proof.
  induction l1 as [|z l1 IH]; cbn; [by rewrite elem_of_nil|]. inversion 1 as [|? ? Hl Hf]; subst.
  rewrite elem_of_cons. intros [->|Hx] Hy; [|by apply IH]. rewrite Forall_forall in Hf. apply Hf.
  apply elem_of_app. by right.
Qed.

Lemma cursor_bound cursor page :
  cursor ≤ advanceReplayCursor cursor page ∧
  Forall (λ r, er_Sequence r ≤ advanceReplayCursor cursor page) page ∧
  (∀ x, cursor ≤ x → Forall (λ r, er_Sequence r ≤ x) page → advanceReplayCursor cursor page ≤ x).
Proof.
  unfold advanceReplayCursor. revert cursor. induction page as [|r page IH]; intros cursor; cbn.
  { split_and!; [lia|constructor|auto]. }
  destruct (IH (Z.max cursor (er_Sequence r))) as (H1 & H2 & H3). split_and!; [lia|constructor; [lia|done]|].
  intros x Hx Hf. inversion Hf; subst. apply H3; [lia|done].
Qed.

(** One page and what it leaves. *)
Lemma page_step s f cursor page rest :
  selected f (Z.max (ef_AfterSequence f) cursor) (table_of s) = page ++ rest → page ≠ [] →
  selected f (Z.max (ef_AfterSequence f) (advanceReplayCursor cursor page)) (table_of s) = rest.
Proof.
  intros E Hne. set (x := Z.max (ef_AfterSequence f) cursor) in *.
  destruct (cursor_bound cursor page) as (H1 & H2 & H3). set (c := advanceReplayCursor cursor page) in *.
  assert (StronglySorted (λ a b, er_Sequence a < er_Sequence b) (page ++ rest)) as Hs.
  { rewrite <-E. apply sorted_filter, sequences_sorted. }
  assert (∀ r, r ∈ page ++ rest → 0 < er_Sequence r ∧ after x r) as Hr.
  { intros r Hr. rewrite <-E in Hr. unfold selected in Hr. apply list_elem_of_filter in Hr as [Hm Hr].
    apply matches_after in Hm as [Hm _]. split; [|done]. pose proof (sequences_positive s) as Hp.
    rewrite Forall_forall in Hp. by apply Hp. }
  rewrite Forall_forall in H2. destruct page as [|r0 page]; [done|].
  assert (er_Sequence r0 ≤ c) as Hr0 by (apply H2, elem_of_cons; by left).
  assert (0 < er_Sequence r0 ∧ after x r0) as [Hp0 Ha0] by (apply Hr; by apply elem_of_cons; left).
  assert (Z.max (ef_AfterSequence f) c = c) as -> by (unfold after in Ha0; lia).
  rewrite (selected_later f x c), E, filter_app by (unfold after in Ha0; lia).
  rewrite (filter_all (after c) rest).
  - replace (filter (after c) (r0 :: page)) with (@nil EventRecord); [done|]. symmetry.
    apply elem_of_nil_inv. intros r [Ha Hin]%list_elem_of_filter. specialize (H2 r Hin). unfold after in Ha. lia.
  - apply Forall_forall. intros r Hin. right.
    assert (c ≤ er_Sequence r - 1); [|lia]. apply H3.
    + destruct (Hr r) as [_ Ha]; [by apply elem_of_app; right|].
      assert (er_Sequence r0 < er_Sequence r) by (eapply (sorted_split _ _ _ _ _ Hs); [apply elem_of_cons; by left|done]).
      unfold after in *. lia.
    + apply Forall_forall. intros r' Hin'.
      assert (er_Sequence r' < er_Sequence r) by (by eapply (sorted_split _ _ _ _ _ Hs)). lia.
Qed.

(** Replay in pages is complete: a client that replays with any filter, page size
    and cursor until a page is empty receives exactly the records that match the
    filter after the cursor, each once, in the order they were appended. *)
Theorem replay_complete fuel s f cursor :
  (length (table_of s) < fuel)%nat →
  concat (replay_pages fuel s f cursor) =
  filter (λ r, event_matches (f <| ef_AfterSequence := Z.max (ef_AfterSequence f) cursor |>) r = true) (table_of s).
Proof.
  intros Hf. change (filter _ (table_of s)) with (selected f (Z.max (ef_AfterSequence f) cursor) (table_of s)).
  assert (length (selected f (Z.max (ef_AfterSequence f) cursor) (table_of s)) < fuel)%nat as Hl.
  { eapply Nat.le_lt_trans; [apply length_filter|done]. }
  clear Hf. revert cursor Hl. induction fuel as [|fuel IH]; intros cursor Hl; [lia|]. cbn [replay_pages].
  unfold ReplayEventRecords. rewrite lists_table. unfold listEvents, and_then.
  change (ef_Limit (f <| ef_AfterSequence := _ |>)) with (ef_Limit f).
  change (filter _ (table_of s)) with (selected f (Z.max (ef_AfterSequence f) cursor) (table_of s)).
  set (all := selected f (Z.max (ef_AfterSequence f) cursor) (table_of s)) in *.
  assert (∃ page rest, all = page ++ rest ∧ (page = [] → all = []) ∧
    (if ef_Limit f >? 0 then take (Z.to_nat (ef_Limit f)) all else all) = page) as (page & rest & E & He & ->).
  { destruct (Z.gtb_spec (ef_Limit f) 0).
    - exists (take (Z.to_nat (ef_Limit f)) all), (drop (Z.to_nat (ef_Limit f)) all). rewrite take_drop.
      split_and!; [done| |done]. intros Ht. destruct all; [done|]. destruct (Z.to_nat (ef_Limit f)) eqn:En; [lia|done].
    - exists all, []. by rewrite app_nil_r. }
  destruct page as [|r page]; [by rewrite He|]. cbn [concat].
  pose proof (page_step s f cursor (r :: page) rest E ltac:(done)) as Hrest.
  rewrite IH; [by rewrite Hrest, E|]. rewrite Hrest. rewrite E, length_app in Hl. cbn in Hl. lia.
Qed.
End laws.

(** ** Groups *)

Section groups.
Context {A : Type} (key : A → string).

(** A key occurs once and comes with the elements that have it, in order. *)
Definition grouped (l : list A) (gs : list (string * list A)) : Prop :=
  NoDup gs.*1 ∧ ∀ k xs, (k, xs) ∈ gs ↔ k ≠ "" ∧ xs = filter (λ x, key x = k) l ∧ xs ≠ [].

Lemma add_to_keys k (x : A) gs : k ∈ gs.*1 → (add_to k x gs).*1 = gs.*1.
Proof.
  induction gs as [|[k' xs] gs IH]; cbn; [by rewrite elem_of_nil|].
  destruct (String.eqb_spec k' k) as [->|Hne]; [done|]. rewrite elem_of_cons. intros [->|Hk]; [done|]. cbn. by rewrite IH.
Qed.
Lemma add_to_new k (x : A) gs : k ∉ gs.*1 → add_to k x gs = gs ++ [(k, [x])].
Proof.
  induction gs as [|[k' xs] gs IH]; cbn; [done|]. rewrite not_elem_of_cons. intros [Hne Hk].
  destruct (String.eqb_spec k' k) as [->|_]; [done|]. by rewrite IH.
Qed.
Lemma add_to_elem k (x : A) gs k' xs' :
  NoDup gs.*1 → k ∈ gs.*1 →
  (k', xs') ∈ add_to k x gs ↔ (k' ≠ k ∧ (k', xs') ∈ gs) ∨ (k' = k ∧ ∃ xs, (k, xs) ∈ gs ∧ xs' = xs ++ [x]).
Proof.
  induction gs as [|[k0 xs0] gs IH]; cbn; [by rewrite elem_of_nil|]. rewrite NoDup_cons, elem_of_cons.
  intros [Hn Hnd] Hk. destruct (String.eqb_spec k0 k) as [->|Hne].
  - rewrite elem_of_cons. split.
    + intros [[= -> ->]|Hin]; [right; split; [done|]; exists xs0; split; [by apply elem_of_cons; left|done]|].
      left. split; [|by apply elem_of_cons; right]. intros ->. apply Hn.
      apply list_elem_of_fmap. by exists (k, xs').
    + intros [[Hk' [[= -> ->]|Hin]%elem_of_cons]|[-> (xs & [[= ->]|Hin]%elem_of_cons & ->)]]; [done|by right|by left|].
      exfalso. apply Hn. apply list_elem_of_fmap. by exists (k, xs).
  - destruct Hk as [|Hk]; [done|]. rewrite elem_of_cons, IH by done. split.
    + intros [[= -> ->]|[[Hk' Hin]|[-> (xs & Hin & ->)]]].
      * left. split; [done|]. apply elem_of_cons. by left.
      * left. split; [done|]. apply elem_of_cons. by right.
      * right. split; [done|]. exists xs. split; [|done]. apply elem_of_cons. by right.
    + intros [[Hk' [[= -> ->]|Hin]%elem_of_cons]|[-> (xs & [[= -> ->]|Hin]%elem_of_cons & ->)]].
      * by left.
      * right. by left.
      * done.
      * right. right. split; [done|]. by exists xs.
Qed.

Lemma group_by_grouped l : grouped l (group_by key l).
Proof.
  induction l as [|x l [Hn IH]] using rev_ind; [split; [constructor|]|].
  { intros k xs. cbn. rewrite elem_of_nil. split; [done|]. by intros (_ & -> & ?). }
  unfold group_by. rewrite foldl_app. cbn [foldl]. fold (group_by key l). unfold grouped.
  assert (∀ k, filter (λ y, key y = k) (l ++ [x]) = filter (λ y, key y = k) l ++ (if decide (key x = k) then [x] else [])) as Hfl.
  { intros k. by rewrite filter_app, filter_cons. }
  destruct (String.eqb_spec (key x) "") as [Hx|Hx].
  { split; [done|]. intros k xs. rewrite IH, Hfl. case_decide; [|by rewrite app_nil_r].
    split; intros (? & _); congruence. }
  destruct (decide (key x ∈ (group_by key l).*1)) as [Hin|Hni].
  - split; [by rewrite add_to_keys|]. intros k xs. rewrite add_to_elem by done. rewrite Hfl. setoid_rewrite IH.
    case_decide as Hk.
    + split.
      * intros [[? _]|(-> & xs0 & (H1 & -> & H2) & ->)]; [congruence|]. split_and!; [done|done|by destruct (filter _ l)].
      * intros (H1 & -> & H2). right. split; [done|]. exists (filter (λ y, key y = k) l). subst k. split; [|done].
        split_and!; [done|done|]. apply list_elem_of_fmap in Hin as ([k0 xs0] & Hk0 & Hin). cbn in Hk0. subst k0.
        apply IH in Hin as (_ & <- & ?). done.
    + rewrite app_nil_r. split; [|by left].
      intros [[? ?]|[-> _]]; [done|congruence].
  - rewrite add_to_new by done. split.
    { rewrite fmap_app, NoDup_app. split_and!; [done| |apply NoDup_singleton].
      intros k Hk. cbn. intros ->%list_elem_of_singleton. done. }
    intros k xs. rewrite elem_of_app, list_elem_of_singleton, IH, Hfl. case_decide as Hk.
    + subst k. assert (filter (λ y, key y = key x) l = []) as Hempty.
      { destruct (filter (λ y, key y = key x) l) as [|y ys] eqn:E; [done|]. exfalso. apply Hni.
        apply list_elem_of_fmap. exists (key x, y :: ys). split; [done|]. apply IH. by rewrite E. }
      rewrite Hempty. cbn. split; [|intros (_ & -> & _); by right].
      intros [(_ & -> & ?)|[= ->]]; [done|]. by split_and!.
    + rewrite app_nil_r. split; [|by left]. by intros [?|[= -> _]].
Qed.
End groups.

(** ** Runs *)

Section runs.
Context {S : Type} `{EventStoreLaws S}.
Context (unmarshal_event : EventKind → string → res Event) (zero_event : EventKind → Event).
Local Abbreviation DecodeEvent := (DecodeEvent unmarshal_event zero_event).
Local Abbreviation buildRunTimeline := (buildRunTimeline unmarshal_event zero_event).
Local Abbreviation GetRun := (GetRun unmarshal_event zero_event).
Local Abbreviation ListRuns := (ListRuns unmarshal_event zero_event).

Lemma run_records s id :
  id ≠ "" → ListEvents (no_filter <| ef_RunID := id |>) s = Ok (filter (λ r, er_RunID r = id) (table_of s)).
Proof.
  intros Hid. rewrite lists_table. unfold listEvents. cbn -[event_matches]. f_equal. apply list_filter_iff. intros r.
  unfold event_matches, column_matches. cbn. rewrite !andb_true_r.
  destruct (String.eqb_spec id ""); [done|]. cbn. rewrite String.eqb_eq. naive_solver.
Qed.
Lemma all_records s : ListEvents no_filter s = Ok (table_of s).
Proof.
  rewrite lists_table. unfold listEvents. cbn -[event_matches]. f_equal. apply filter_all.
  apply Forall_forall. done.
Qed.

(** The projection keeps the identifier and collects the events. *)
Lemma apply_projection_fields t d :
  rt_RunID (applyRunProjection t d) = rt_RunID t ∧ rt_Events (applyRunProjection t d) = rt_Events t.
Proof.
  unfold applyRunProjection, set_terminal, set_attempt, set_worker.
  destruct (de_Payload d); repeat case_match; done.
Qed.
Lemma project_fields ds t :
  rt_RunID (foldl project_event t ds) = rt_RunID t ∧ rt_Events (foldl project_event t ds) = rt_Events t ++ ds.
Proof.
  revert t. induction ds as [|d ds IH]; intros t; cbn [foldl]; [by rewrite app_nil_r|].
  destruct (IH (project_event t d)) as [-> ->]. unfold project_event.
  match goal with |- rt_RunID (applyRunProjection ?t' d) = _ ∧ _ =>
    destruct (apply_projection_fields t' d) as [-> ->] end.
  case_match; cbn; by rewrite <-app_assoc.
Qed.

Lemma traverse_length {A B} (f : A → res B) l ys : traverse f l = Ok ys → length ys = length l.
Proof.
  revert ys. induction l as [|x l IH]; intros ys; cbn; [by intros [= <-]|]. destruct (f x); [|done].
  destruct (traverse f l) as [zs|]; [|done]. intros [= <-]. cbn. by rewrite (IH zs).
Qed.
Lemma traverse_elem {A B} (f : A → res B) l ys :
  traverse f l = Ok ys → (∀ y, y ∈ ys → ∃ x, x ∈ l ∧ f x = Ok y) ∧ (∀ x, x ∈ l → ∃ y, y ∈ ys ∧ f x = Ok y).
Proof.
  revert ys. induction l as [|x l IH]; intros ys; cbn.
  { intros [= <-]. split; intros ? ?%elem_of_nil; done. }
  destruct (f x) as [y|] eqn:Ex; [|done]. destruct (traverse f l) as [zs|]; [|done]. intros [= <-].
  destruct (IH zs eq_refl) as [H1 H2]. split.
  - intros y' [->|Hy]%elem_of_cons; [exists x; split; [by apply elem_of_cons; left|done]|].
    destruct (H1 y' Hy) as (x' & Hx' & E). exists x'. split; [by apply elem_of_cons; right|done].
  - intros x' [->|Hx]%elem_of_cons; [exists y; split; [by apply elem_of_cons; left|done]|].
    destruct (H2 x' Hx) as (y' & Hy' & E). exists y'. split; [by apply elem_of_cons; right|done].
Qed.
Lemma traverse_keys {A B} (f : A → res B) (ka : A → string) (kb : B → string) l ys :
  (∀ x y, f x = Ok y → kb y = ka x) → traverse f l = Ok ys → kb <$> ys = ka <$> l.
Proof.
  intros Hk. revert ys. induction l as [|x l IH]; intros ys; cbn; [by intros [= <-]|].
  destruct (f x) as [y|] eqn:Ex; [|done]. destruct (traverse f l) as [zs|]; [|done]. intros [= <-]. cbn.
  by rewrite (Hk _ _ Ex), (IH zs).
Qed.

Lemma build_id id records t : buildRunTimeline id records = Ok t → rt_RunID t = id.
Proof.
  unfold OrchHistory.buildRunTimeline. destruct (traverse _ records) as [ds|]; [|done]. intros [= <-].
  by destruct (project_fields ds (empty_run id)) as [-> _].
Qed.
Lemma build_events id records t : buildRunTimeline id records = Ok t → length (rt_Events t) = length records.
Proof.
  unfold OrchHistory.buildRunTimeline. destruct (traverse _ records) as [ds|] eqn:E; [|done]. intros [= <-].
  destruct (project_fields ds (empty_run id)) as [_ ->]. by rewrite app_nil_l, (traverse_length _ _ _ E).
Qed.
(** [GetRun], from the records of the run. *)
Lemma GetRun_build s id r :
  GetRun s id = Ok r ↔ id ≠ "" ∧ filter (λ e, er_RunID e = id) (table_of s) ≠ [] ∧
    ∃ t, buildRunTimeline id (filter (λ e, er_RunID e = id) (table_of s)) = Ok t ∧ r = summarizeRunTimeline t.
Proof.
  unfold OrchHistory.GetRun, LoadRunTimeline. destruct (String.eqb_spec id "") as [->|Hid]; [cbn; naive_solver|].
  rewrite run_records by done. cbn [and_then].
  destruct (buildRunTimeline id _) as [t|e] eqn:E; cbn [and_then]; [|naive_solver].
  pose proof (build_events _ _ _ E) as Hl. destruct (rt_Events t) as [|d ds].
  - split; [done|]. intros (_ & Hne & _). by destruct (filter _ _).
  - split; [|naive_solver]. intros [= <-]. split_and!; [done| |by exists t]. by destruct (filter _ _).
Qed.

(** The list of runs and the lookup of a run agree: [ListRuns] returns one summary
    per run, and the summaries are exactly those [GetRun] returns that match the
    filter. *)
Theorem ListRuns_GetRun s f runs :
  ListRuns s f = Ok runs →
  NoDup (rsm_ID <$> runs) ∧ ∀ r, r ∈ runs ↔ GetRun s (rsm_ID r) = Ok r ∧ matchesRunFilter r f = true.
Proof.
  unfold OrchHistory.ListRuns. rewrite all_records. cbn [and_then].
  destruct (group_by_grouped er_RunID (table_of s)) as [Hn Hg].
  destruct (traverse _ (group_by er_RunID (table_of s))) as [ts|] eqn:E; cbn [and_then]; [|done]. intros [= <-].
  assert (rt_RunID <$> ts = (group_by er_RunID (table_of s)).*1) as Hkeys.
  { eapply (traverse_keys _ fst); [|exact E]. intros [k xs] t. apply build_id. }
  destruct (traverse_elem _ _ _ E) as [H1 H2]. split.
  - assert (∀ l : list RunTimeline, NoDup (rt_RunID <$> l) →
      NoDup (rsm_ID <$> filter (λ r, matchesRunFilter r f = true) (summarizeRunTimeline <$> l))) as Hnd.
    { clear. induction l as [|t l IH]; [constructor|]. rewrite !fmap_cons, NoDup_cons. intros [Ht Hl].
      rewrite filter_cons. case_decide; [|auto]. rewrite fmap_cons, NoDup_cons. split; [|auto].
      intros (r & Hr & Hin)%list_elem_of_fmap. apply list_elem_of_filter in Hin as [_ Hin].
      apply list_elem_of_fmap in Hin as (t' & -> & Hin). apply Ht, list_elem_of_fmap. by exists t'. }
    apply Hnd. by rewrite Hkeys.
  - intros r. rewrite list_elem_of_filter, list_elem_of_fmap. split.
    + intros [Hm (t & -> & Ht)]. split; [|done]. destruct (H1 t Ht) as ([k xs] & Hin & Hb).
      apply Hg in Hin as (Hk & -> & Hne). cbn in Hb. pose proof (build_id _ _ _ Hb) as Hid.
      cbn [rsm_ID summarizeRunTimeline]. rewrite Hid. apply GetRun_build. split_and!; [done..|]. by exists t.
    + intros [Hr Hm]. split; [done|]. apply GetRun_build in Hr as (Hid & Hne & t & Hb & Hr).
      destruct (H2 (rsm_ID r, filter (λ e, er_RunID e = rsm_ID r) (table_of s))) as (t' & Ht' & Hb').
      { by apply Hg. }
      cbn in Hb'. exists t'. split; [congruence|done].
Qed.

(** *** The status of a run *)

(** The payload decoded for a record has the record's kind. *)
Context (Hkinds : ∀ k p e, unmarshal_event k p = Ok e → kind_of e = k).
Context (Hzero : ∀ k, (∀ x, k ≠ EventKindOther x) → kind_of (zero_event k) = k).

Definition terminal (k : EventKind) : bool :=
  match k with
  | EventLeaseReleased | EventTaskRequeued | EventTaskCompleted | EventTaskFailed | EventTaskCanceled => true
  | _ => false
  end.

Lemma DecodeEvent_kind r d : DecodeEvent r = Ok d → de_Record d = r ∧ kind_of (de_Payload d) = er_Kind r.
Proof.
  unfold OrchHistory.DecodeEvent, DecodePayload. intros E.
  assert (∀ x, er_Kind r ≠ EventKindOther x) as Hk by (intros x Hx; by rewrite Hx in E).
  assert (and_then (if String.eqb (er_Payload r) "" then Ok (zero_event (er_Kind r))
    else match unmarshal_event (er_Kind r) (er_Payload r) with
         | Ok e => Ok e | Err e => Err (EWrap "unmarshal orchestrator event payload: " e "") end)
    (λ e, Ok (MkDecodedEvent r e)) = Ok d) as E'.
  { destruct (er_Kind r); try exact E. by destruct (Hk s). }
  clear E. destruct (String.eqb _ _); cbn in E'; [simplify_eq; split; [done|]; by apply Hzero|].
  destruct (unmarshal_event (er_Kind r) (er_Payload r)) as [e|] eqn:Ee; cbn in E'; simplify_eq.
  split; [done|]. by eapply Hkinds.
Qed.

Lemma apply_terminal t d :
  rt_Terminal (applyRunProjection t d) =
    if terminal (kind_of (de_Payload d)) then Some (de_Record d) else rt_Terminal t.
Proof.
  unfold applyRunProjection, set_terminal, set_attempt, set_worker.
  destruct (de_Payload d); cbn; repeat case_match; done.
Qed.
Lemma fold_terminal ds t :
  rt_Terminal (foldl project_event t ds) =
    match last (filter (λ d, terminal (kind_of (de_Payload d)) = true) ds) with
    | Some d => Some (de_Record d)
    | None => rt_Terminal t
    end.
Proof.
  revert t. induction ds as [|d ds IH]; intros t; [done|]. cbn [foldl]. rewrite IH, filter_cons.
  assert (rt_Terminal (project_event t d) = if terminal (kind_of (de_Payload d)) then Some (de_Record d) else rt_Terminal t) as ->.
  { unfold project_event. rewrite apply_terminal. by repeat case_match. }
  destruct (terminal (kind_of (de_Payload d))) eqn:Et; rewrite ?decide_True, ?decide_False by done.
  - rewrite last_cons. by destruct (last (filter _ ds)).
  - by destruct (last (filter _ ds)).
Qed.

Lemma decoded_terminals records ds :
  traverse DecodeEvent records = Ok ds →
  de_Record <$> filter (λ d, terminal (kind_of (de_Payload d)) = true) ds =
    filter (λ r, terminal (er_Kind r) = true) records.
Proof.
  revert ds. induction records as [|r records IH]; intros ds; cbn; [by intros [= <-]|].
  destruct (DecodeEvent r) as [d|] eqn:Ed; [|done]. destruct (traverse _ records) as [zs|]; [|done]. intros [= <-].
  destruct (DecodeEvent_kind _ _ Ed) as [Hr Hk]. rewrite !filter_cons, Hk.
  case_decide; [|by apply IH]. rewrite fmap_cons, Hr. f_equal. by apply IH.
Qed.

(** The status of a run is the one its last terminal event says, and a run without
    one is running: for a run with a summary, among the events recorded for it, the
    last completion, failure, cancellation, requeue or release decides. *)
Theorem run_status_last_terminal s id r :
  GetRun s id = Ok r →
  rsm_Status r =
    match last (filter (λ e, terminal (er_Kind e) = true) (filter (λ e, er_RunID e = id) (table_of s))) with
    | Some e => runStatusFromEvent (er_Kind e)
    | None => RunRunning
    end.
Proof.
  intros (_ & _ & t & Hb & ->)%GetRun_build. unfold OrchHistory.buildRunTimeline in Hb.
  destruct (traverse _ _) as [ds|] eqn:E; [|done]. cbn in Hb. injection Hb as <-.
  cbn [rsm_Status summarizeRunTimeline]. rewrite fold_terminal, <-(decoded_terminals _ _ E), fmap_last.
  by destruct (last _).
Qed.
End runs.

(** ** Instances *)

Module Tables.
(** A table as a store: two runs of a task, the first failed and requeued. *)
Definition event (n : Z) (kind : EventKind) (run : string) : EventRecord :=
  MkEventRecord n ("event-" +:+ itoa n) kind "task" run "" "" "" (100 + n) "".
Definition table : list EventRecord :=
  [event 1 EventTaskCreated ""; event 2 EventTaskClaimed "run-1"; event 4 EventTaskRequeued "run-1";
   event 5 EventTaskClaimed "run-2"; event 8 EventTaskCompleted "run-2"].
Definition zero (k : EventKind) : Event :=
  match k with
  | EventTaskClaimed => EvTaskClaimed (MkTaskClaimedEvent "" "" "" "" 0 0 0)
  | EventTaskRequeued => EvTaskRequeued (MkTaskRequeuedEvent "" "" 0 "" 0)
  | EventTaskCompleted => EvTaskCompleted (MkTaskCompletedEvent "" "" 0 0)
  | EventTaskUpdated => EvTaskUpdated (MkTaskUpdatedEvent "" "" [] [] 0)
  | EventTaskDeleted => EvTaskDeleted (MkTaskDeletedEvent "" 0)
  | EventLeaseRenewed => EvLeaseRenewed (MkLeaseRenewedEvent "" "" "" "" 0)
  | EventLeaseReleased => EvLeaseReleased (MkLeaseReleasedEvent "" "" "" "" 0 false TaskPending "" false)
  | EventTaskFailed => EvTaskFailed (MkTaskFailedEvent "" "" 0 "" 0)
  | EventTaskCanceled => EvTaskCanceled (MkTaskCanceledEvent "" "" 0 "" 0)
  | EventArtifactCreated => EvArtifactCreated (MkArtifactCreatedEvent "" "" "" "" "" "" 0 0)
  | EventCommandCreated => EvCommandCreated (MkCommandCreatedEvent "" CommandCancelTask "" "" "" 0)
  | EventCommandClaimed => EvCommandClaimed (MkCommandClaimedEvent "" CommandCancelTask "" "" "" 0)
  | EventCommandReleased => EvCommandReleased (MkCommandReleasedEvent "" CommandCancelTask "" "" "" 0 "" false)
  | EventCommandHandled => EvCommandHandled (MkCommandHandledEvent "" CommandCancelTask "" "" "" 0)
  | _ => EvTaskCreated (MkTaskCreatedEvent "" "" "" "" 0)
  end.
Definition no_json (k : EventKind) (p : string) : res Event := Err (ENew "no json").
Record EventTable := MkEventTable {
  records : list EventRecord;
  sorted : StronglySorted (λ a b, er_Sequence a < er_Sequence b) records;
  positive : Forall (λ r, 0 < er_Sequence r) records;
}.
#[global] Instance store_events : EventStore EventTable := λ f s, Ok (listEvents f (records s)).
#[global, refine] Instance store_laws : EventStoreLaws EventTable := {| table_of := records |}.
Proof. - done. - exact sorted. - exact positive. Defined.
Definition demo : EventTable.
Proof.
  refine (MkEventTable table _ _); [repeat constructor|].
  repeat (apply Forall_cons; split; [vm_compute; reflexivity|]). apply Forall_nil. done.
Defined.
Lemma zero_kind k : (∀ x, k ≠ EventKindOther x) → kind_of (zero k) = k.
Proof. destruct k; try done. intros Hk. by destruct (Hk s). Qed.
End Tables.

Lemma replay_complete_witness :
  concat (replay_pages 6 Tables.demo (no_filter <| ef_RunID := "run-1" |> <| ef_Limit := 1 |>) 2)
  = [Tables.event 4 EventTaskRequeued "run-1"].
Proof. rewrite replay_complete by (cbn; lia). vm_compute. reflexivity. Defined.

Lemma ListRuns_GetRun_witness :
  ∃ r1 r2, ListRuns Tables.no_json Tables.zero Tables.demo (MkRunFilter "" "" []) = Ok [r1; r2] ∧
    GetRun Tables.no_json Tables.zero Tables.demo (rsm_ID r2) = Ok r2.
Proof.
  eexists _, _. split; [vm_compute; reflexivity|].
  match goal with |- _ = Ok ?r2 =>
    refine (proj1 (proj1 (proj2 (ListRuns_GetRun Tables.no_json Tables.zero Tables.demo (MkRunFilter "" "" []) _ _) r2) _))
  end.
  - vm_compute. reflexivity.
  - apply list_elem_of_In. right. left. reflexivity.
Defined.

Lemma run_status_last_terminal_witness :
  ∃ r, GetRun Tables.no_json Tables.zero Tables.demo "run-1" = Ok r ∧ rsm_Status r = RunRequeued.
Proof.
  eexists. split; [vm_compute; reflexivity|].
  rewrite (run_status_last_terminal Tables.no_json Tables.zero) with (s := Tables.demo) (id := "run-1").
  - vm_compute. reflexivity.
  - intros k p e H. discriminate H.
  - apply Tables.zero_kind.
  - vm_compute. reflexivity.
Defined.
