(* ===== verification/Runner.v ===== *)
(** * Queries and the agent runner

    src/ext/orchestrator/query.go: the runs that are active and the commands a worker
    can claim, read from the store.  src/ext/orchestrator/runner.go: [AgentRunner],
    which runs an agent of the core for each claimed task and turns its result into
    the outcome of the task.  The scheduler ([finish_claim] of Scheduler) and the
    in-memory store take it from there; the end of the file composes the three. *)

From S2P Require Import Prelude Errors Usage OrchTypes MemStore MemCommands StoreInv StoreDeps StoreOps StoreLife StoreSafety StoreClaims Scheduler Messages AgentTypes AgentTools AgentToolsSafety AgentLoop AgentSafety Json Serialize Snapshot RunSetup RunSafety.

(** ** Queries

    The in-memory store has no optimised queries, so these are the projections of
    its listings. *)

Record ActiveRunSummary := MkActiveRunSummary {
  ars_RunID : string;
  ars_TaskID : string;
  ars_TaskKind : string;
  ars_TaskSubject : string;
  ars_WorkerID : string;
  ars_Attempt : Z;
  ars_StartedAt : Time;
  ars_UpdatedAt : Time;
}.
Record ActiveRunFilter := MkActiveRunFilter { arf_WorkerID : string; arf_Kinds : list string }.

Definition run_summary (t : Task) (run : RunRef) : ActiveRunSummary :=
  MkActiveRunSummary (run_ID run) (task_ID t) (task_Kind t) (task_Subject t) (run_WorkerID run)
    (run_Attempt run) (run_StartedAt run) (task_UpdatedAt t).

Definition active_run (f : ActiveRunFilter) (t : Task) : option ActiveRunSummary :=
  match task_Run t with
  | None => None
  | Some run =>
    if String.eqb (run_ID run) "" then None
    else if negb (String.eqb (arf_WorkerID f) "") && negb (String.eqb (run_WorkerID run) (arf_WorkerID f)) then None
    else Some (run_summary t run)
  end.

Definition ListActiveRuns (f : ActiveRunFilter) (s : Store) : list ActiveRunSummary :=
  omap (active_run f) (ListTasks (MkTaskFilter (arf_Kinds f) [TaskRunning]) s).

Definition GetActiveRun (runID : string) (s : Store) : res ActiveRunSummary :=
  if String.eqb runID "" then Err ErrRunNotFound
  else match List.find (λ r, String.eqb (ars_RunID r) runID) (ListActiveRuns (MkActiveRunFilter "" []) s) with
       | Some r => Ok r
       | None => Err ErrRunNotFound
       end.

Definition ListPendingCommandsForWorker (workerID : string) (s : Store) : list Command :=
  List.filter (λ c, String.eqb (cmd_TargetWorkerID c) "" || String.eqb (cmd_TargetWorkerID c) workerID)
    (ListCommands (MkCommandFilter [] [CommandPending] "" "" "") s).

Lemma elem_of_ListTasks f s t :
  Inv s → t ∈ ListTasks f s ↔ st_tasks s !! task_ID t = Some t ∧ matchesFilter t f = true.
Proof.
  intros HI. unfold ListTasks. rewrite list_elem_of_omap. split.
  - intros (id & _ & H). destruct (st_tasks s !! id) as [t'|] eqn:E; [|done].
    destruct (matchesFilter t' f) eqn:Em; simplify_eq. by rewrite (Inv_task_key _ _ _ HI E).
  - intros [H Hm]. exists (task_ID t). rewrite H, Hm. split; [|done].
    apply (ti_order _ (inv_task _ HI)). eauto.
Qed.

(** Each task is listed once. *)
Lemma ListTasks_NoDup f s : Inv s → NoDup (task_ID <$> ListTasks f s).
Proof.
  intros HI. unfold ListTasks. pose proof (ti_order_nodup _ (inv_task _ HI)) as Hnd.
  assert (Hk : ∀ id t, st_tasks s !! id = Some t → task_ID t = id) by (intros; by eapply Inv_task_key).
  induction (st_taskOrder s) as [|id ids IH]; [constructor|]. apply NoDup_cons in Hnd as [Hni Hnd]. cbn.
  destruct (st_tasks s !! id) as [t|] eqn:E; [|by apply IH]. destruct (matchesFilter t f); [|by apply IH].
  cbn. apply NoDup_cons. split; [|by apply IH]. rewrite (Hk _ _ E). intros Hin. apply Hni.
  apply list_elem_of_fmap in Hin as (t' & -> & Ht'). apply list_elem_of_omap in Ht' as (id' & Hid' & H).
  destruct (st_tasks s !! id') as [t''|] eqn:E'; [|done]. destruct (matchesFilter t'' f); simplify_eq.
  by rewrite (Hk _ _ E').
Qed.

Lemma omap_sublist {A B C} (f : A → option B) (g : B → C) (h : A → C) l :
  (∀ a b, f a = Some b → g b = h a) → sublist (g <$> omap f l) (h <$> l).
Proof.
  intros Hf. induction l as [|a l IH]; [constructor|]. cbn. destruct (f a) as [b|] eqn:E; cbn.
  - rewrite (Hf _ _ E). by constructor.
  - by constructor.
Qed.

(** The active runs are exactly the leases: on every reachable store, [ListActiveRuns]
    returns one summary per leased task that the filter selects, with the worker and
    the attempt that hold the lease, and nothing else. *)
Theorem ListActiveRuns_exact f s :
  reachable s →
  NoDup (ars_TaskID <$> ListActiveRuns f s) ∧
  ∀ x, x ∈ ListActiveRuns f s ↔
    ∃ l t run, st_leases s !! ars_TaskID x = Some l ∧ st_tasks s !! ars_TaskID x = Some t ∧
      task_Run t = Some run ∧ run_WorkerID run = lease_WorkerID l ∧ run_Attempt run = task_Attempt t ∧
      x = run_summary t run ∧ matchesKinds t (arf_Kinds f) = true ∧
      (arf_WorkerID f = "" ∨ arf_WorkerID f = lease_WorkerID l).
Proof.
  intros HI%reachable_inv. split.
  - eapply sublist_NoDup; [apply (ListTasks_NoDup (MkTaskFilter (arf_Kinds f) [TaskRunning]) s HI)|].
    apply omap_sublist. intros t x. unfold active_run. repeat case_match; naive_solver.
  - intros x. unfold ListActiveRuns. rewrite list_elem_of_omap. split.
    + intros (t & [Ht Hm]%elem_of_ListTasks & Hx); [|done]. unfold matchesFilter in Hm. cbn in Hm.
      apply andb_true_iff in Hm as [Hk Hst]. unfold matchesStatuses in Hst. cbn in Hst.
      apply bool_decide_eq_true, list_elem_of_singleton in Hst.
      destruct (ti_running _ (inv_task _ HI) _ _ Ht Hst) as [l Hl].
      destruct (lw_run _ _ _ (ti_leases _ (inv_task _ HI) _ _ Hl)) as (t' & run & Ht' & _ & Hr & _ & Hw & Ha & Hid).
      rewrite Ht in Ht'. injection Ht' as <-. unfold active_run in Hx. rewrite Hr, (proj2 (String.eqb_neq _ _) Hid) in Hx.
      destruct (_ && _) eqn:Ew; simplify_eq. cbn. exists l, t, run. rewrite Hl, Ht. split_and!; try done.
      apply andb_false_iff in Ew. rewrite !negb_false_iff, !String.eqb_eq in Ew. rewrite <- Hw. naive_solver.
    + intros (l & t & run & Hl & Ht & Hr & Hw & Ha & -> & Hk & Hf). cbn in *.
      destruct (lw_run _ _ _ (ti_leases _ (inv_task _ HI) _ _ Hl)) as (t' & run' & Ht' & Hst & Hr' & _ & _ & _ & Hid).
      rewrite Ht in Ht'. injection Ht' as <-. rewrite Hr in Hr'. injection Hr' as <-. exists t. rewrite elem_of_ListTasks by done. rewrite Ht. unfold matchesFilter, matchesStatuses.
      cbn. rewrite Hk, Hst. split; [done|]. unfold active_run. rewrite Hr, (proj2 (String.eqb_neq _ _) Hid).
      rewrite Hw. destruct Hf as [-> | ->]; cbn; [done|]. by rewrite String.eqb_refl, andb_false_r.
Qed.

(** ** The agent runner *)

(** [promptFn] and the optional functions of the options; [runOptsFn] is given as the
    configuration its options build. *)
Record AgentRunner (T : Type) := MkAgentRunner {
  promptFn : Task → res string;
  runOptsFn : option (Task → RunRef → runConfig);
  resultMeta : option (RunResult T → AnyMap);
  runner_artifacts : option (Task → RunResult T → list ArtifactSpec);
}.
Arguments MkAgentRunner {T}. Arguments promptFn {T}. Arguments runOptsFn {T}.
Arguments resultMeta {T}. Arguments runner_artifacts {T}.

Definition NewAgentRunner {T} : AgentRunner T := MkAgentRunner (λ t, Ok (task_Input t)) None None None.
Definition no_options : runConfig := MkRunConfig None None [] None [] [] ∅.

(** A run error as a Go error value: a deferral is an error of its own. *)
Definition run_error (e : RunError) : error :=
  match e with RunFailed e => e | ErrDeferred _ _ _ => ENew (RunError_Error e) end.

Section runner.
Context {W T : Type}.
Context (json_marshal : ToolValue → res string).
Context (json_object_ok : string → bool).
Context (unmarshal_wrapper : string → res (gmap string string)).
Context (unmarshal_T : string → res T).
Context (string_as_T : string → option T).
Context (type_name_T : string).
Context (ctx_Err : W → option error).
Context (a : Agent W T) (su : AgentSetup W).
(** The output as an [any], and the state that the stateful tools exported. *)
Context (as_any : T → any) (toolState : St W → AnyMap).
Context (runner : AgentRunner T).

Local Abbreviation Run := (Run json_marshal json_object_ok unmarshal_wrapper unmarshal_T string_as_T
  type_name_T ctx_Err a su).

Definition empty_run_ref : RunRef := MkRunRef "" "" "" 0 zero_time.

(** The task result and the artifacts of a run that returned. *)
Definition task_outcome (claim : ClaimedTask) (result : RunResult T) (ts : AnyMap) (now : Time) : TaskOutcome :=
  let task := claimed_Task claim in
  let run := default empty_run_ref (claimed_Run claim) in
  MkTaskOutcome
    (Some (MkTaskResult (res_RunID T result) (as_any (Output result)) (res_Usage result) ts
       (match resultMeta runner with Some f => f result | None => ∅ end) now))
    (match runner_artifacts runner with
     | Some f =>
       f (if String.eqb (run_ID run) "" then task else task <| task_Run := Some run |>) result
     | None => []
     end).

(** [RunTask]: [parent] is the run ID of the calling context, [newRunID] and [start]
    what the agent draws for its own run, [now] the reading of the clock after it. *)
Definition RunTask (fuel : nat) (claim : ClaimedTask) (parent newRunID : string) (start : Timestamp) (now : Time)
    (st : St W) : St W * option (res TaskOutcome) :=
  let task := claimed_Task claim in
  let run := default empty_run_ref (claimed_Run claim) in
  let parent := if String.eqb (run_ID run) "" then parent else run_ID run in
  match promptFn runner task with
  | Err e => (st, Some (Err e))
  | Ok prompt =>
    let cfg := match runOptsFn runner with Some f => f task run | None => no_options end in
    let '(st, out) := AgentTools.run (Run fuel cfg parent newRunID start prompt) st in
    (st, match out with
         | None => None
         | Some (inr e) => Some (Err (run_error e))
         | Some (inl result) => Some (Ok (task_outcome claim result (toolState st) now))
         end)
  end.

(** What the scheduler is told when [RunTask] returns. *)
Definition told (r : res TaskOutcome) : option TaskOutcome * option error :=
  match r with Ok o => (Some o, None) | Err e => (None, Some e) end.

(** ** A claimed task is carried to its end *)

(** The stored task after its run: completed with the outcome, or failed or requeued
    with the error. *)
Definition finished_as (r : ClaimRun) (out : res TaskOutcome) (now : Time) (t t' : Task) : Prop :=
  match out with
  | Ok o => task_Status t' = TaskCompleted ∧ task_LastError t' = "" ∧ task_CompletedAt t' = now ∧
      ∀ res, outcome_Result o = Some res →
        ∃ res', task_Result t' = Some res' ∧ result_Output res' = result_Output res
  | Err e => ∃ e', effective_error r (Some e) = Some e' ∧ task_LastError t' = Error e' ∧
      task_Status t' = if isRetryable e' && negb (exhaustedAttempts t) then TaskPending else TaskFailed
  end.

Lemma finish_claim_stores clock r out (w : World Store) :
  let id := task_ID (claimed_Task (g_claim r)) in
  let now := clock (w_tick w) in
  Inv (w_store w) → now ≠ zero_time →
  live_lease (w_store w) id (lease_Token (claimed_Lease (g_claim r))) now →
  g_renewErr r = None → sd_ctxErr (w_sched w) = None →
  let w' := (finish_claim clock r (told out).1 (told out).2 w).1 in
  w_sched w' = w_sched w ∧ GetLease id (w_store w') = Err ErrLeaseNotFound ∧
  ∃ t t', GetTask id (w_store w) = Ok t ∧ GetTask id (w_store w') = Ok t' ∧ finished_as r out now t t'.
Proof.
  intros id now HI Hnow Hl Hr Hctx.
  unfold finish_claim, mbind, M_bind, mret, M_ret, Now, getSched, call, atomic, finished_as.
  cbn -[effective_error]. fold now id.
  destruct out as [o|e]; cbn -[effective_error].
  - assert (effective_error r None = None) as -> by (unfold effective_error; by rewrite Hr). cbn.
    fold id now.
    match goal with |- context [CompleteTask ?wall ?i ?tok ?o' ?n ?s] =>
      destruct (CompleteTask_spec wall i tok o' n s HI Hnow) as [Hok Hc];
      destruct (CompleteTask wall i tok o' n s) as [s' [t'|e]] end.
    2: { by apply Hok in Hl. }
    destruct (Hc _ _ eq_refl) as (Ht' & Hg & Hst & Hca & Hle & (t & Ht & _) & Hres). cbn.
    split; [done|]. split; [done|]. cbn in Ht. exists t, t'. unfold GetTask at 1. rewrite Ht. split_and!; try done.
    intros res Hres0. edestruct Hres as (r' & Hr' & Ho & _); [done|cbn; by rewrite Hres0|]. cbn in Ho.
    exists r'. split; [done|]. rewrite Ho. by case_match.
  - assert (∃ e', effective_error r (Some e) = Some e') as [e' He'].
    { unfold effective_error. repeat case_match; eauto. }
    rewrite He'. cbn. rewrite Hctx, (bool_decide_eq_false_2 (@None error ≠ None)) by (intros H; by apply H).
    rewrite andb_false_r. cbn. fold id now.
    match goal with |- context [FailTask ?wall ?i ?tok ?e0 ?n ?s] =>
      destruct (FailTask_spec wall i tok e' n s HI Hnow) as [Hok Hc];
      destruct (FailTask wall i tok (Some e') n s) as [s' [t'|e2]] end.
    2: { by apply Hok in Hl. }
    destruct (Hc _ _ eq_refl) as (Ht' & Hg & Hle & t & Ht & _ & Hst). cbn.
    split; [done|]. split; [done|]. cbn in Ht. exists t, t'. unfold GetTask at 1. rewrite Ht. split_and!; [done..|].
    exists e'. auto.
Qed.

(** C8: a claimed task is carried to its end: when the agent has a request limit, its
    run returns for every claimed task, whatever the model and the tools do; and when
    the worker still holds the lease and is not being stopped, the scheduler then
    leaves the stored task without lease and not running: completed with the output of
    the run, or, if the run failed, requeued or failed with its error, as the error and
    the attempts left decide; the goroutine is gone. *)
Theorem claimed_task_is_finished clock g r (w : World Store) fuel n parent rid start now st :
  let claim := g_claim r in
  let id := task_ID (claimed_Task claim) in
  let cfg := match runOptsFn runner with
             | Some f => f (claimed_Task claim) (default empty_run_ref (claimed_Run claim))
             | None => no_options end in
  RequestLimit (run_limits su cfg) = Some n → Z.max 0 (n - prior_requests cfg) < Z.of_nat fuel →
  reachable (w_store w) → clock (w_tick w) ≠ zero_time →
  live_lease (w_store w) id (lease_Token (claimed_Lease claim)) (clock (w_tick w)) →
  g_renewErr r = None → sd_ctxErr (w_sched w) = None →
  ∃ st' out, RunTask fuel claim parent rid start now st = (st', Some out) ∧
  let w' := (run_ended clock g r (told out).1 (told out).2 w).1 in
  GetLease id (w_store w') = Err ErrLeaseNotFound ∧ sd_runs (w_sched w') !! g = None ∧
  ∃ t t', GetTask id (w_store w) = Ok t ∧ GetTask id (w_store w') = Ok t' ∧
    finished_as r out (clock (w_tick w)) t t' ∧
    ∀ o, out = Ok o → ∃ result ts, o = task_outcome claim result ts now.
Proof.
  intros claim id cfg Hlim Hfuel HI%reachable_inv Hnow Hl Hr Hctx.
  assert (∃ st' out, RunTask fuel claim parent rid start now st = (st', Some out) ∧
    ∀ o, out = Ok o → ∃ result ts, o = task_outcome claim result ts now) as (st' & out & Hrun & Hout).
  { unfold RunTask. destruct (promptFn runner _) as [prompt|e]; [|exists st, (Err e); by split]. fold cfg.
    match goal with |- context [Run fuel cfg ?p] =>
      destruct (Run_ends json_marshal json_object_ok unmarshal_wrapper unmarshal_T string_as_T type_name_T
        ctx_Err a su cfg p rid start prompt n fuel st Hlim Hfuel) as (st' & [result|e] & -> & _) end;
      eexists _, _; (split; [done|]); intros o; [intros [= <-]; eauto|done]. }
  exists st', out. split; [done|].
  pose proof (finish_claim_stores clock r out w HI Hnow Hl Hr Hctx) as (Hs & Hg & t & t' & Ht & Ht' & Hf).
  unfold run_ended. rewrite exec_bind.
  destruct (exec (finish_claim clock r (told out).1 (told out).2) w) as [w1 u]. cbn in *.
  split; [done|]. split; [by rewrite lookup_delete_eq|]. eauto 8.
Qed.
End runner.

(** ** Instances *)

Module Runs.
Definition claim : ClaimedTask :=
  match st_tasks demo !! "task-1", st_leases demo !! "task-1" with
  | Some t, Some l => MkClaimedTask t l (task_Run t)
  | _, _ => MkClaimedTask (MkTask "" "" "" "" "" TaskPending 0 0 [] [] ∅ None None "" 0 0 0 0)
              (MkLease "" "" "" "" 0 0) None
  end.
Definition world : World Store := MkWorld demo new_sched 0.
Definition at_105 (_ : nat) : Time := 105.
Definition goroutine : ClaimRun := MkClaimRun claim PRunning None None.
Definition exec :=
  RunTask Demo.marshal (λ _, true) Scripts.no_json Scripts.parse Some "string" Demo.no_cancel
    Scripts.plain_agent Setups.setup AString (λ _, ∅) NewAgentRunner 51 claim "" "agent-1" (At 1) 105
    Scripts.start.
End Runs.

Lemma ListActiveRuns_exact_witness :
  ∃ x, ListActiveRuns (MkActiveRunFilter "w1" []) demo = [x] ∧ ars_TaskID x = "task-1" ∧
    ∃ l, st_leases demo !! "task-1" = Some l ∧ ars_WorkerID x = lease_WorkerID l.
Proof.
  eexists. split; [vm_compute; reflexivity|]. split; [reflexivity|].
  match goal with |- ∃ l, _ ∧ ars_WorkerID ?x = _ =>
    destruct (proj1 (proj2 (ListActiveRuns_exact (MkActiveRunFilter "w1" []) demo demo_reachable) x))
      as (l & t & run & Hl & _ & _ & Hw & _ & Hx & _) end.
  - vm_compute. left.
  - exists l. split; [exact Hl|]. rewrite Hx. exact Hw.
Defined.

Lemma claimed_task_is_finished_witness :
  ∃ st' out, Runs.exec = (st', Some out) ∧ is_ok out = true ∧
  let s' := w_store (run_ended Runs.at_105 1 Runs.goroutine (told out).1 (told out).2 Runs.world).1 in
  GetLease "task-1" s' = Err ErrLeaseNotFound ∧
  ∃ t', GetTask "task-1" s' = Ok t' ∧ task_Status t' = TaskCompleted.
Proof.
  destruct (claimed_task_is_finished Demo.marshal (λ _, true) Scripts.no_json Scripts.parse Some "string"
    Demo.no_cancel Scripts.plain_agent Setups.setup AString (λ _, ∅) NewAgentRunner Runs.at_105 1
    Runs.goroutine Runs.world 51 50 "" "agent-1" (At 1) 105 Scripts.start eq_refl
    ltac:(vm_compute; reflexivity) demo_reachable ltac:(discriminate)
    ltac:(exists (MkLease "lease-1" "task-1" "w1" "lease-1" 100 110); vm_compute; repeat split)
    eq_refl eq_refl) as (st' & out & E & Hg & _ & t & t' & _ & Ht' & Hf & _).
  exists st', out. split; [exact E|].
  assert (Hok : is_ok (default (Err (ENew "")) Runs.exec.2) = true) by (vm_compute; reflexivity).
  assert (E' : Runs.exec = (st', Some out)) by exact E.
  rewrite E' in Hok. split; [exact Hok|]. split; [exact Hg|].
  exists t'. split; [exact Ht'|]. destruct out as [o|]; [exact (proj1 Hf)|discriminate Hok].
Defined.
