(* ===== verification/SchedulerFrame.v ===== *)
(** * What a scheduler does to its store

    A scheduler changes its store only through the calls of the interface.  Hence a
    relation that every call keeps between the store before and after ([respects]) holds
    across every step of the scheduler. *)

From S2P Require Import Prelude Errors Usage OrchTypes MemStore Scheduler SchedulerSafety.

Section frame.
Context {S : Type} `{OrchStore S}.
Context (R : relation S) `{!PreOrder R}.

Definition respects_commands (ops : CommandOps S) : Prop :=
  (∀ wall req s, R s (co_ClaimPendingCommand ops wall req s).1) ∧
  (∀ wall id tok by_ now s, R s (co_HandleCommand ops wall id tok by_ now s).1) ∧
  (∀ wall id tok s, R s (co_ReleaseCommand ops wall id tok s).1) ∧
  (∀ recover, co_RecoverClaimedCommands ops = Some recover → ∀ wall before now s, R s (recover wall before now s).1).

Record respects : Prop := {
  rs_claim : ∀ wall req s, R s (os_ClaimReadyTask wall req s).1;
  rs_complete : ∀ wall id tok o now s, R s (os_CompleteTask wall id tok o now s).1;
  rs_fail : ∀ wall id tok e now s, R s (os_FailTask wall id tok e now s).1;
  rs_cancel : ∀ wall id tok reason now s, R s (os_CancelTask wall id tok reason now s).1;
  rs_retry : ∀ wall id reason now s, R s (os_RetryTask wall id reason now s).1;
  rs_renew : ∀ wall id tok ttl now s, R s (os_RenewLease wall id tok ttl now s).1;
  rs_release : ∀ wall id tok s, R s (os_ReleaseLease wall id tok s).1;
  rs_recover : ∀ recover, os_RecoverExpiredLeases = Some recover → ∀ wall now s, R s (recover wall now s).1;
  rs_commands : ∀ ops, os_commands = Some ops → respects_commands ops;
}.

Context (HR : respects).
Context (clock : nat → Time) (cfg : SchedulerConfig).
Context (controller : option (Task → RunRef → error → option error)).

Definition keeps {A} (m : M S A) : Prop := all_acts (λ _ act, ∀ w, R (w_store w) (w_store (act w).1)) m.

Lemma keeps_ret {A} (a : A) : keeps (mret a).
Proof. done. Qed.
Lemma frame_bind {A B} (m : M S A) (k : A → M S B) : keeps m → (∀ a, keeps (k a)) → keeps (m ≫= k).
Proof. apply all_acts_bind. Qed.
Lemma keeps_mod f : keeps (modSched f).
Proof. split; [|done]. intros w. reflexivity. Qed.
Lemma keeps_now : keeps (Now clock).
Proof. split; [|done]. intros w. reflexivity. Qed.
Lemma keeps_get : keeps getSched.
Proof. split; [|done]. intros w. reflexivity. Qed.
Lemma keeps_store {A} (f : S → A) : keeps (getStore f).
Proof. split; [|done]. intros w. reflexivity. Qed.
Lemma keeps_acquire : keeps (tryAcquireSlot cfg).
Proof. split; [|done]. intros w. case_match; reflexivity. Qed.
Lemma keeps_call {A} (f : (nat → Time) → S → S * A) :
  (∀ wall s, R s (f wall s).1) → keeps (call clock f).
Proof.
  intros Hf. split; [|done]. intros w. specialize (Hf (λ i, clock (w_tick w + i)%nat) (w_store w)). by destruct (f _ _).
Qed.

Create HintDb keeps.
Hint Resolve keeps_ret keeps_mod keeps_now keeps_get keeps_store keeps_acquire : keeps.
Hint Resolve rs_claim rs_complete rs_fail rs_cancel rs_retry rs_renew rs_release : keeps.
Ltac keeps := repeat first
  [ done | apply frame_bind; [|intros ?] | apply keeps_call; intros ?? | case_match
  | solve [eauto with keeps] ].

Lemma keeps_remote task run e : keeps (cancelRemoteRun controller task run e).
Proof. unfold cancelRemoteRun. keeps. Qed.
Hint Resolve keeps_remote : keeps.

Lemma keeps_handle ops c : respects_commands ops → keeps (handleCommand clock cfg controller ops c).
Proof.
  intros (? & ? & ? & _).
  unfold handleCommand, applyCancelTask, applyAbortRun, applyRetryTask, cancel_ignoring, cancelRun, OnError. keeps.
Qed.

Lemma keeps_process fuel : keeps (processCommands clock cfg controller fuel).
Proof.
  unfold processCommands. destruct os_commands as [ops|] eqn:E; [|keeps].
  pose proof (rs_commands HR ops E) as Ho. pose proof (λ c, keeps_handle ops c Ho) as Hh.
  destruct Ho as (? & ? & ? & _). induction fuel as [|fuel IH]; cbn [process_loop]; unfold OnError; keeps.
Qed.

Lemma keeps_sweep recs : keeps (sweep_leases controller recs).
Proof. induction recs; cbn [sweep_leases]; unfold sweep_lease, cancelRun, OnError; keeps. Qed.
Hint Resolve keeps_sweep : keeps.

Lemma keeps_recover t : keeps (recover_if_due clock cfg controller t).
Proof.
  unfold recover_if_due, recover, Sweep. destruct (recoveryEnabled cfg); [|keeps].
  pose proof (rs_recover HR) as H1. pose proof (rs_commands HR) as H2.
  destruct os_RecoverExpiredLeases as [f|]; [specialize (H1 f eq_refl)|];
    (destruct os_commands as [ops|]; [destruct (H2 ops eq_refl) as (_ & _ & _ & H3);
       destruct (co_RecoverClaimedCommands ops) as [g|]; [specialize (H3 g eq_refl)|]|]); keeps.
Qed.

Lemma keeps_dispatch fuel : keeps (dispatch clock cfg fuel).
Proof. induction fuel; cbn [dispatch]; unfold releaseSlot, spawn; keeps. Qed.

Lemma keeps_renew g : keeps (renew_tick clock cfg g).
Proof. unfold renew_tick, cancelRun. keeps. Qed.

Lemma keeps_ended g r o e : keeps (run_ended clock g r o e).
Proof. unfold run_ended, finish_claim, end_run, OnError. keeps. Qed.

Lemma keeps_iteration fuel t : keeps (run_iteration clock cfg controller fuel t).
Proof.
  unfold run_iteration, loop_error.
  apply frame_bind; [apply keeps_recover|intros [t' [e|]]]; cbn [snd]; [keeps|].
  apply frame_bind; [apply keeps_process|intros [[e|]|]]; [keeps| |keeps].
  apply frame_bind; [apply keeps_dispatch|intros [[e|]|]]; keeps.
Qed.

(** What is left of the goroutines' work keeps the relation. *)
Record keeps_config (c : Config S) : Prop := {
  kc_poll : ∀ m, cf_poll c = Some m → keeps m;
  kc_renew : ∀ g m, cf_renew c !! g = Some m → keeps m;
  kc_end : ∀ g m, cf_end c !! g = Some m → keeps m;
}.
Lemma keeps_insert (ms : gmap positive (M S unit)) g m :
  keeps m → (∀ g m, ms !! g = Some m → keeps m) → ∀ g' m', <[g := m]> ms !! g' = Some m' → keeps m'.
Proof. intros Hm Hms g' m'. rewrite lookup_insert_Some. intros [[_ <-]|[_ H']]; eauto. Qed.
Lemma keeps_delete (ms : gmap positive (M S unit)) g :
  (∀ g m, ms !! g = Some m → keeps m) → ∀ g' m', delete g ms !! g' = Some m' → keeps m'.
Proof. intros Hms g' m' [_ H']%lookup_delete_Some. eauto. Qed.

(** Every step of the scheduler keeps the relation, if those of its environment do. *)
Lemma sched_step_respects env c c' :
  (∀ s s', env s s' → R s s') →
  sched_step clock cfg controller env c c' → keeps_config c →
  R (w_store (cf_world c)) (w_store (cf_world c')) ∧ keeps_config c'.
Proof.
  intros Henv Hs [Hp Hr He].
  destruct Hs as [| | | | |g w B act next po rn en Hg| | |g w B act next po rn en Hg| | |]; cbn in *;
    try (split; [reflexivity|by split]).
  - split; [reflexivity|]. split; [|done..]. intros m [= <-]. apply keeps_iteration.
  - destruct (Hp _ eq_refl) as [Ha Hn]. split; [apply Ha|]. split; [|done..]. intros m [= <-]. apply Hn.
  - split; [reflexivity|]. split; [done| |done]. apply keeps_insert; [apply keeps_renew|done].
  - destruct (Hr _ _ Hg) as [Ha Hn]. split; [apply Ha|]. split; [done| |done]. apply keeps_insert; [apply Hn|done].
  - split; [reflexivity|]. split; [done| |done]. by apply keeps_delete.
  - split; [reflexivity|]. split; [done|done|]. apply keeps_insert; [apply keeps_ended|done].
  - destruct (He _ _ Hg) as [Ha Hn]. split; [apply Ha|]. split; [done|done|]. apply keeps_insert; [apply Hn|done].
  - split; [reflexivity|]. split; [done|done|]. by apply keeps_delete.
  - split; [by apply Henv|by split].
Qed.
Lemma sched_steps_respect env w c' :
  (∀ s s', env s s' → R s s') →
  rtc (sched_step clock cfg controller env) (idle w) c' → R (w_store w) (w_store (cf_world c')).
Proof.
  intros Henv Hs. assert (keeps_config (idle w)) as Hk by (split; [done|intros ??; cbn; by intros ?%lookup_empty_Some..]).
  change (w_store w) with (w_store (cf_world (idle w))). revert Hk. induction Hs as [|c1 c2 c3 H1 _ IH]; [reflexivity|].
  intros Hk. destruct (sched_step_respects _ _ _ Henv H1 Hk) as [HR1 Hk2]. etransitivity; [done|by apply IH].
Qed.
End frame.
