(* ===== verification/Team.v ===== *)
(** * Teams

    src/ext/team: a team is a set of teammates, each an agent driven by a scheduler of
    its own over a shared orchestrator store.  [teamWorkerStore] (store_adapter.go)
    gives a teammate the view of the store its scheduler works on: the tasks of the
    team only, its own assignments before unassigned work.  team.go: spawning,
    assigning, releasing and removing; teammate.go: the life of a teammate.

    The backend is the in-memory store, the default of [NewTeam].  A call of a worker
    store that looks a task up and then calls the backend is one step here: nothing in
    the package changes the kind or the team of a task, so a look-up is still true when
    the backend is called, and a task deleted in between is not found by either.  The agents
    themselves are the parameter of [end_task]: what [Agent.Run] returned. *)

From S2P Require Import Prelude Errors Usage OrchTypes MemStore MemCommands StoreInv StoreDeps StoreOps StoreLife StoreSafety StoreClaims StoreCommands Scheduler SchedulerSafety Runner.

(** ** Tasks of a team *)

Definition teamTaskKind : string := "team".
Definition teamMetadataName : string := "team.name".
Definition teamMetadataAssignee : string := "team.assignee".
Definition teamMetadataCreatedBy : string := "team.created_by".
Definition teamTaskLeaseTTL : Duration := 24 * 3600 * Second.
Definition teamSchedulerPollRate : Duration := 100 * Millisecond.

Definition newline : string := byte_string [10%nat].
Definition buildTeamTaskPrompt (subject description : string) : string :=
  let subject := TrimSpace subject in
  let description := TrimSpace description in
  if String.eqb subject "" && String.eqb description "" then ""
  else if String.eqb description "" then subject
  else if String.eqb subject "" then description
  else "Task: " +:+ subject +:+ newline +:+ newline +:+ "Details:" +:+ newline +:+ description.

Definition teamTaskPrompt (task : Task) : string :=
  if negb (String.eqb (TrimSpace (task_Input task)) "") then task_Input task
  else buildTeamTaskPrompt (task_Subject task) (task_Description task).

Definition newTeamTaskMetadata (teamName assignee createdBy : string) : AnyMap :=
  let m := {[ teamMetadataName := AString teamName ]} in
  let m := if String.eqb assignee "" then m else <[teamMetadataAssignee := AString assignee]> m in
  if String.eqb createdBy "" then m else <[teamMetadataCreatedBy := AString createdBy]> m.

(** ** Teammates *)

Inductive TeammateState :=
| TeammateStarting | TeammateRunning | TeammateIdle | TeammateShuttingDown | TeammateStopped.
#[export] Instance TeammateState_eq_dec : EqDecision TeammateState.
Proof. solve_decision. Defined.

Record shutdownRequest := MkShutdownRequest {
  sh_ID : string;
  sh_CorrelationID : string;
  sh_From : string;
  sh_Reason : string;
}.
Record activeTask := MkActiveTask {
  at_TaskID : string;
  at_LeaseToken : string;
  at_RunID : string;
  at_runEnded : bool;
  at_settled : bool;
}.
#[export] Instance activeTask_eta : RecordEta activeTask := λ a,
  MkActiveTask (at_TaskID a) (at_LeaseToken a) (at_RunID a) (at_runEnded a) (at_settled a).

(** [tm_runCancel] is the cancel function of the current run with the cause it was
    called with, if any; [tm_stopped] says that [cancel] of the teammate's context has
    been called; [tm_shutdown] is set exactly when a shutdown was requested. *)
Record Teammate := MkTeammate {
  tm_state : TeammateState;
  tm_active : option activeTask;
  tm_runCancel : option (option error);
  tm_stopped : bool;
  tm_shutdown : option shutdownRequest;
}.
#[export] Instance Teammate_eta : RecordEta Teammate := λ t,
  MkTeammate (tm_state t) (tm_active t) (tm_runCancel t) (tm_stopped t) (tm_shutdown t).
Definition new_teammate : Teammate := MkTeammate TeammateStarting None None false None.

(** [requestShutdown]: the first request counts; an idle or starting teammate is
    stopped at once.  [id] is the fresh identifier. *)
Definition requestShutdown (id from reason correlationID : string) (tm : Teammate) : Teammate * shutdownRequest :=
  match tm_shutdown tm with
  | Some req => (tm, req)
  | None =>
    let req := MkShutdownRequest id (if String.eqb correlationID "" then id else correlationID) from reason in
    let tm := tm <| tm_shutdown := Some req |> in
    match tm_state tm with
    | TeammateIdle | TeammateStarting =>
      (tm <| tm_state := TeammateShuttingDown |> <| tm_stopped := true |>, req)
    | _ => (tm, req)
    end
  end.

Definition setActiveClaim (claim : ClaimedTask) (tm : Teammate) : Teammate :=
  tm <| tm_active := Some (MkActiveTask (task_ID (claimed_Task claim)) (lease_Token (claimed_Lease claim))
          (match claimed_Run claim with Some run => run_ID run | None => "" end) false false) |>.

Definition tm_beginRun (tm : Teammate) : Teammate := tm <| tm_runCancel := Some None |>.
Definition tm_endRun (tm : Teammate) : Teammate := tm <| tm_runCancel := None |>.
Definition abortCurrentRun (cause : error) (tm : Teammate) : Teammate * bool :=
  match tm_runCancel tm with
  | None => (tm, false)
  | Some None => (tm <| tm_runCancel := Some (Some cause) |>, true)
  | Some (Some _) => (tm, true)
  end.

(** [markTaskProgress]: the flag says whether the teammate became idle. *)
Definition markTaskProgress (taskID : string) (runEnded settled : bool) (tm : Teammate) : Teammate * bool :=
  match tm_active tm with
  | Some a =>
    if String.eqb (at_TaskID a) taskID then
      let a := if runEnded then a <| at_runEnded := true |> else a in
      let a := if settled then a <| at_settled := true |> else a in
      if at_runEnded a && at_settled a then
        match tm_shutdown tm with
        | Some _ => (tm <| tm_active := None |> <| tm_state := TeammateShuttingDown |> <| tm_stopped := true |>, false)
        | None => (tm <| tm_active := None |> <| tm_state := TeammateIdle |>, true)
        end
      else (tm <| tm_active := Some a |>, false)
    else (tm, false)
  | None => (tm, false)
  end.

(** ** The team *)

Inductive TeamEvent :=
| TeammateSpawnedEvent (name task : string)
| TeammateIdleEvent (name : string)
| TeammateTerminatedEvent (name reason : string)
| TopologyTransitionedEvent (runID from to reason : string).

Record Team := MkTeam {
  team_name : string;
  team_leader : string;
  team_members : gmap string Teammate;
  team_closing : bool;
  team_store : Store;
  team_bus : bool;
  team_wg : Z;
  team_events : list TeamEvent;
}.
#[export] Instance Team_eta : RecordEta Team := λ t,
  MkTeam (team_name t) (team_leader t) (team_members t) (team_closing t) (team_store t) (team_bus t)
    (team_wg t) (team_events t).

Definition NewTeam (name leader : string) (bus : bool) (store : option Store) : Team :=
  MkTeam name leader ∅ false (default (NewStore bus) store) bus 0 [].

Definition team_publish (e : TeamEvent) (t : Team) : Team :=
  if team_bus t then t <| team_events ::= λ l, l ++ [e] |> else t.

Definition teamTopologyState (teamName : string) (members : nat) : string :=
  "team:" +:+ (if String.eqb teamName "" then "team" else teamName) +:+ "/members=" +:+ itoa (Z.of_nat members).
Definition topology (t : Team) : string := teamTopologyState (team_name t) (size (team_members t)).

Definition leaderSenderName (t : Team) : string :=
  if String.eqb (team_leader t) "" then "leader" else team_leader t.

Definition GetTeammate (name : string) (t : Team) : option Teammate := team_members t !! name.
Definition on_member {A} (name : string) (f : Teammate → Teammate * A) (t : Team) : Team * option A :=
  match GetTeammate name t with
  | None => (t, None)
  | Some tm => let '(tm, a) := f tm in (t <| team_members ::= <[name := tm]> |>, Some a)
  end.

(** [markTaskProgress] of the named teammate, with the event it publishes. *)
Definition mark_progress (name taskID : string) (runEnded settled : bool) (t : Team) : Team :=
  let '(t, r) := on_member name (markTaskProgress taskID runEnded settled) t in
  match r with
  | Some true => team_publish (TeammateIdleEvent name) t
  | _ => t
  end.

(** A call of the backend. *)
Definition on_store {A} (f : Store → Store * A) (t : Team) : Team * A :=
  let '(s, a) := f (team_store t) in (t <| team_store := s |>, a).

Section team.
(** [fmt.Sprint] of floats and of composite values. *)
Context (sprint_opaque : any → string).

Definition Sprint (v : any) : string :=
  match v with
  | ANil => "<nil>"
  | ABool b => if b then "true" else "false"
  | AInt n => itoa n
  | AString s => s
  | v => sprint_opaque v
  end.
Definition metadataString (task : Task) (key : string) : string :=
  match task_Metadata task !! key with
  | None => ""
  | Some v => Sprint v
  end.
Definition teamTaskName (task : Task) : string := metadataString task teamMetadataName.
Definition teamTaskAssignee (task : Task) : string := metadataString task teamMetadataAssignee.

Definition isTeamTask (name : string) (task : Task) : bool :=
  String.eqb (task_Kind task) teamTaskKind && String.eqb (teamTaskName task) name.
Definition listTeamTasks (statuses : list TaskStatus) (t : Team) : list Task :=
  List.filter (isTeamTask (team_name t)) (ListTasks (MkTaskFilter [teamTaskKind] statuses) (team_store t)).
Definition getTeamTask (id : string) (t : Team) : res Task :=
  match GetTask id (team_store t) with
  | Err e => Err e
  | Ok task => if isTeamTask (team_name t) task then Ok task else Err ErrTaskNotFound
  end.

Definition createTeamTask (wall : nat → Time) (subject description assignee createdBy : string) (t : Team)
    : Team * res Task :=
  if String.eqb subject "" then (t, Err (ENew "team task subject must not be empty"))
  else if negb (String.eqb assignee "") && bool_decide (GetTeammate assignee t = None)
  then (t, Err (ENew ("teammate " +:+ go_quote assignee +:+ " not found")))
  else
    on_store (CreateTask wall (MkCreateTaskRequest teamTaskKind subject description
      (buildTeamTaskPrompt subject description) [] [] 1
      (newTeamTaskMetadata (team_name t) assignee createdBy))) t.

(** The loop of [releaseAssignedTasks]: the first failed update ends it. *)
Fixpoint release_tasks (wall : nat → Time) (n : nat) (assignee : string) (tasks : list Task) (t : Team)
    : Team * option error :=
  match tasks with
  | [] => (t, None)
  | task :: tasks =>
    if String.eqb (teamTaskAssignee task) assignee then
      match on_store (UpdateTask (λ i, wall (n + i)%nat)
              (MkUpdateTaskRequest (task_ID task) None None [] [] {[ teamMetadataAssignee := ANil ]})) t with
      | (t, Err e) => (t, Some e)
      | (t, Ok _) => release_tasks wall (Datatypes.S n) assignee tasks t
      end
    else release_tasks wall n assignee tasks t
  end.
Definition releaseAssignedTasks (wall : nat → Time) (assignee : string) (t : Team) : Team * option error :=
  if String.eqb assignee "" then (t, None)
  else release_tasks wall 0 assignee (listTeamTasks [TaskPending] t) t.

Definition removeTeammate (wall : nat → Time) (name : string) (t : Team) : Team :=
  let before := topology t in
  let t := t <| team_members ::= delete name |> in
  let t := team_publish (TopologyTransitionedEvent "" before (topology t) ("teammate_removed:" +:+ name)) t in
  (releaseAssignedTasks wall name t).1.

(** [SpawnTeammate] as far as the team's state goes; the prompt and the options of the
    new agent are left out.  [runID] is the run of the calling context. *)
Definition SpawnTeammate (wall : nat → Time) (runID name task : string) (t : Team) : Team * res unit :=
  if String.eqb name "" then (t, Err (ENew "teammate name must not be empty"))
  else if String.eqb task "" then (t, Err (ENew "initial task must not be empty"))
  else if team_closing t then (t, Err (ENew "team is shutting down"))
  else if bool_decide (is_Some (GetTeammate name t))
  then (t, Err (ENew ("teammate " +:+ go_quote name +:+ " already exists")))
  else
    let before := topology t in
    let t := t <| team_members ::= <[name := new_teammate]> |> <| team_wg ::= Z.add 1 |> in
    let after := topology t in
    match createTeamTask wall task "" name (leaderSenderName t) t with
    | (t, Err e) =>
      (t <| team_members ::= delete name |> <| team_wg ::= λ n, n - 1 |>,
       Err (EWrap "create initial team task: " e ""))
    | (t, Ok _) =>
      let t := team_publish (TopologyTransitionedEvent runID before after ("spawn_teammate:" +:+ name)) t in
      (team_publish (TeammateSpawnedEvent name task) t, Ok tt)
    end.

Definition requestShutdownForRun (id name from reason correlationID runID : string) (t : Team)
    : Team * res shutdownRequest :=
  let reason := if String.eqb reason "" then "work complete" else reason in
  match on_member name (requestShutdown id from reason correlationID) t with
  | (t, None) => (t, Err (ENew ("teammate " +:+ go_quote name +:+ " not found")))
  | (t, Some req) =>
    (team_publish (TopologyTransitionedEvent runID (topology t) (topology t +:+ "/shutdown_pending:" +:+ name)
       ("shutdown_teammate:" +:+ name)) t, Ok req)
  end.

(** The first half of [Shutdown], and what it does when its context ends before all
    teammates have stopped; [ids] are the fresh identifiers. *)
Definition Shutdown (ids : string → string) (t : Team) : Team :=
  t <| team_closing := true |>
    <| team_members ::= map_imap (λ name tm, Some (requestShutdown (ids name) "team" "team shutdown" "" tm).1) |>.
Definition cancel_members (t : Team) : Team :=
  t <| team_members ::= fmap (λ tm, tm <| tm_stopped := true |>) |>.

(** ** A teammate at work *)

(** [RunTask] before the agent runs, as the three critical sections it consists of. *)
Definition claim_task (name : string) (claim : ClaimedTask) (t : Team) : Team :=
  (on_member name (λ tm, (setActiveClaim claim tm, tt)) t).1.
Definition start_running (name : string) (t : Team) : Team :=
  (on_member name (λ tm, (tm <| tm_state := TeammateRunning |>, tt)) t).1.
Definition begin_task (name : string) (claim : ClaimedTask) (t : Team) : Team :=
  (on_member name (λ tm, (tm_beginRun tm, tt)) (start_running name (claim_task name claim t))).1.

(** [RunTask] after the agent's run: the deferred functions, last one first. *)
Definition end_task (name : string) (claim : ClaimedTask) (t : Team) : Team :=
  mark_progress name (task_ID (claimed_Task claim)) true false
    (on_member name (λ tm, (tm_endRun tm, tt)) t).1.

(** What [RunTask] returns for what [Agent.Run] returned: the cause stands in for a
    plain cancellation, and a task that was failed or canceled meanwhile reports
    nothing.  [trace] is the artifact of the run, if any. *)
Definition caused (e : error) (cause : option error) : error :=
  if Is e ContextCanceled then
    match cause with
    | Some c => if Is c ContextCanceled then e else c
    | None => e
    end
  else e.
Definition teammate_outcome (name : string) (result : res (string * string * RunUsage * AnyMap))
    (cause : option error) (trace : option ArtifactSpec) (now : Time) : option TaskOutcome * option error :=
  match result with
  | Err e =>
    let e := caused e cause in
    if bool_decide (is_Some (errors_as as_failed_current e)) || bool_decide (is_Some (errors_as as_task_cancel e))
    then (None, None) else (None, Some e)
  | Ok (runID, output, usage, toolState) =>
    (Some (MkTaskOutcome (Some (MkTaskResult runID (AString output) usage toolState
       {[ "teammate" := AString name ]} now)) (option_list trace)), None)
  end.

(** The end of a teammate's goroutine; its context ends with the caller's or when it
    is stopped. *)
Definition exit_reason (tm : Teammate) (ctxEnded : bool) : string :=
  match tm_shutdown tm with
  | Some req => if String.eqb (sh_Reason req) "" then "shutdown_requested" else sh_Reason req
  | None => if ctxEnded then "context_cancelled" else "stopped"
  end.
Definition teammate_exit (wall : nat → Time) (ctxEnded : bool) (name : string) (t : Team) : Team :=
  match GetTeammate name t with
  | None => t
  | Some tm =>
    let t := t <| team_members ::= <[name := tm <| tm_state := TeammateStopped |>]> |> in
    let t := team_publish (TeammateTerminatedEvent name (exit_reason tm (tm_stopped tm || ctxEnded))) t in
    (removeTeammate wall name t) <| team_wg ::= λ n, n - 1 |>
  end.

(** The worker's tool task_fail_current: fails the claimed task and aborts its run. *)
Definition taskFailCurrentTool (wall : nat → Time) (name reason : string) (t : Team) : Team * res string :=
  if String.eqb reason "" then (t, Err (EModelRetry "reason must not be empty"))
  else
  match GetTeammate name t ≫= tm_active with
  | None => (t, Err (ENew "no active claimed task"))
  | Some active =>
    match getTeamTask (at_TaskID active) t with
    | Err e => (t, Err e)
    | Ok task =>
      if bool_decide (task_Status task = TaskRunning)
         && match task_Run task with Some run => String.eqb (run_ID run) (at_RunID active) | None => false end
      then
        match on_store (FailTask (λ i, wall (1 + i)%nat) (at_TaskID active) (at_LeaseToken active)
                (Some (ENew reason)) (wall 0%nat)) t with
        | (t, Err e) => (t, Err e)
        | (t, Ok _) =>
          let t := mark_progress name (at_TaskID active) false true t in
          match on_member name (abortCurrentRun (EFailedCurrentTask reason)) t with
          | (t, Some true) => (t, Ok (at_TaskID active))
          | (t, _) => (t, Err (ENew "current run is not active"))
          end
        end
      else (t, Err (ENew "current task is no longer active"))
    end
  end.
End team.
