(* ===== verification/TeamStore.v ===== *)
(** * The worker store of a team

    [teamWorkerStore] of src/ext/team/store_adapter.go: the store interfaces of the
    orchestrator restricted to the tasks of one team, as one teammate sees them.  It is
    an [OrchStore], so the scheduler of Scheduler runs on it; here are its operations,
    that it keeps the laws the scheduler relies on, that a teammate never touches what
    belongs to others, and which task it claims. *)

From S2P Require Import Prelude Errors Usage OrchTypes MemStore MemCommands StoreInv StoreDeps StoreOps StoreLife StoreSafety StoreClaims StoreCommands Scheduler SchedulerSafety SchedulerFrame Runner Team.

Section worker.
Context (sprint_opaque : any → string).
Local Abbreviation getTeamTask := (getTeamTask sprint_opaque).
Local Abbreviation listTeamTasks := (listTeamTasks sprint_opaque).
Local Abbreviation teamTaskAssignee := (teamTaskAssignee sprint_opaque).
Local Abbreviation isTeamTask := (isTeamTask sprint_opaque).
Context (workerID : string).

(** ** Tasks and leases *)

(** The guard in front of most calls. *)
Definition guarded {A} (id : string) (f : Team → Team * res A) (t : Team) : Team * res A :=
  match getTeamTask id t with
  | Err e => (t, Err e)
  | Ok _ => f t
  end.

Definition markTaskSettled (taskID : string) (t : Team) : Team :=
  if String.eqb taskID "" then t else mark_progress workerID taskID false true t.
(** A call that settles the task when it succeeds. *)
Definition settling {A} (id : string) (f : Team → Team * res A) (t : Team) : Team * res A :=
  match f t with
  | (t, Ok a) => (markTaskSettled id t, Ok a)
  | (t, Err e) => (t, Err e)
  end.

Definition team_UpdateTask (wall : nat → Time) (req : UpdateTaskRequest) : Team → Team * res Task :=
  guarded (utr_ID req) (on_store (UpdateTask wall req)).
Definition team_DeleteTask (wall : nat → Time) (id : string) : Team → Team * res unit :=
  guarded id (on_store (DeleteTask wall id)).
Definition team_ClaimTask (wall : nat → Time) (id : string) (req : ClaimTaskRequest) : Team → Team * res ClaimedTask :=
  guarded id (on_store (ClaimTask wall id req)).
Definition team_CompleteTask (wall : nat → Time) (id tok : string) (o : option TaskOutcome) (now : Time)
    : Team → Team * res Task :=
  guarded id (settling id (on_store (CompleteTask wall id tok o now))).
Definition team_FailTask (wall : nat → Time) (id tok : string) (e : option error) (now : Time)
    : Team → Team * res Task :=
  guarded id (settling id (on_store (FailTask wall id tok e now))).
Definition team_CancelTask (wall : nat → Time) (id tok reason : string) (now : Time) : Team → Team * res Task :=
  guarded id (settling id (on_store (CancelTask wall id tok reason now))).
Definition team_RetryTask (wall : nat → Time) (id reason : string) (now : Time) : Team → Team * res Task :=
  guarded id (on_store (RetryTask wall id reason now)).
Definition team_GetLease (id : string) (t : Team) : res Lease :=
  match getTeamTask id t with
  | Err e => Err e
  | Ok _ => GetLease id (team_store t)
  end.
Definition team_RenewLease (wall : nat → Time) (id tok : string) (ttl : Duration) (now : Time)
    : Team → Team * res Lease :=
  guarded id (on_store (RenewLease wall id tok ttl now)).
Definition team_ReleaseLease (wall : nat → Time) (id tok : string) : Team → Team * res unit :=
  guarded id (settling id (on_store (ReleaseLease wall id tok))).

(** [tryClaim] over a list of tasks: [None] when none of them could be claimed. *)
Fixpoint try_claims (wall : nat → Time) (n : nat) (req : ClaimTaskRequest) (tasks : list Task) (s : Store)
    : Store * option (res ClaimedTask) :=
  match tasks with
  | [] => (s, None)
  | task :: tasks =>
    if bool_decide (task_ID task ∈ claim_ExcludeTaskIDs req) then try_claims wall n req tasks s
    else
    match ClaimTask (λ i, wall (n + i)%nat) (task_ID task) req s with
    | (s, Ok claim) => (s, Some (Ok claim))
    | (s, Err e) =>
      if Is e ErrNoReadyTask || Is e ErrTaskBlocked || Is e ErrTaskNotFound
      then try_claims wall (Datatypes.S n) req tasks s
      else (s, Some (Err e))
    end
  end.

Definition assigned_to (name : string) (task : Task) : bool := String.eqb (teamTaskAssignee task) name.
Definition team_ClaimReadyTask (wall : nat → Time) (req : ClaimTaskRequest) (t : Team) : Team * res ClaimedTask :=
  let tasks := listTeamTasks [TaskPending] t in
  on_store (λ s,
    match try_claims wall 0 req (List.filter (assigned_to workerID) tasks) s with
    | (s, Some r) => (s, r)
    | (s, None) =>
      match try_claims wall (length tasks) req (List.filter (assigned_to "") tasks) s with
      | (s, Some r) => (s, r)
      | (s, None) => (s, Err ErrNoReadyTask)
      end
    end) t.

(** ** Recovery *)

Fixpoint recover_tasks (wall : nat → Time) (n : nat) (now : Time) (tasks : list Task) (s : Store)
    : Store * list LeaseRecovery :=
  match tasks with
  | [] => (s, [])
  | task :: tasks =>
    match GetLease (task_ID task) s with
    | Err _ => recover_tasks wall n now tasks s
    | Ok lease =>
      if After (lease_ExpiresAt lease) now then recover_tasks wall n now tasks s
      else
        let '(s, r) := RecoverExpiredLease (λ i, wall (n + i)%nat) (task_ID task) now s in
        let '(s, rs) := recover_tasks wall (2 + n) now tasks s in
        (s, option_list r ++ rs)
    end
  end.
Definition team_RecoverExpiredLeases (wall : nat → Time) (now : Time) (t : Team)
    : Team * res (list LeaseRecovery) :=
  on_store (λ s, let '(s, rs) := recover_tasks wall 1 (normalizeNow (wall 0%nat) now) (listTeamTasks [] t) s in
                 (s, Ok rs)) t.
Definition team_RecoverExpiredLease (wall : nat → Time) (id : string) (now : Time)
    : Team → Team * res (option LeaseRecovery) :=
  guarded id (on_store (λ s, let '(s, r) := RecoverExpiredLease wall id now s in (s, Ok r))).

(** ** Commands *)

Definition commandVisible (t : Team) (c : Command) : bool :=
  negb (String.eqb (cmd_TaskID c) "") && is_ok (getTeamTask (cmd_TaskID c) t).
Definition team_GetCommand (id : string) (t : Team) : res Command :=
  match GetCommand id (team_store t) with
  | Err e => Err e
  | Ok c => if commandVisible t c then Ok c else Err ErrCommandNotFound
  end.
Definition team_ListCommands (f : CommandFilter) (t : Team) : list Command :=
  List.filter (commandVisible t) (ListCommands f (team_store t)).
Definition command_guarded {A} (id : string) (f : Team → Team * res A) (t : Team) : Team * res A :=
  match team_GetCommand id t with
  | Err e => (t, Err e)
  | Ok _ => f t
  end.

Fixpoint claim_commands (wall : nat → Time) (n : nat) (req : ClaimCommandRequest) (cs : list Command) (s : Store)
    : Store * res Command :=
  match cs with
  | [] => (s, Err ErrNoPendingCommand)
  | c :: cs =>
    match ClaimCommand (λ i, wall (n + i)%nat) (cmd_ID c) req s with
    | (s, Ok claimed) => (s, Ok claimed)
    | (s, Err e) =>
      if Is e ErrNoPendingCommand || Is e ErrCommandNotFound
      then claim_commands wall (Datatypes.S n) req cs s
      else (s, Err e)
    end
  end.
Definition team_ClaimPendingCommand (wall : nat → Time) (req : ClaimCommandRequest) (t : Team)
    : Team * res Command :=
  on_store (claim_commands wall 0 req
    (List.filter (commandVisible t) (ListPendingCommandsForWorker (ccmd_WorkerID req) (team_store t)))) t.
Definition team_ClaimCommand (wall : nat → Time) (id : string) (req : ClaimCommandRequest)
    : Team → Team * res Command :=
  command_guarded id (on_store (ClaimCommand wall id req)).
Definition team_HandleCommand (wall : nat → Time) (id tok by_ : string) (now : Time) : Team → Team * res Command :=
  command_guarded id (on_store (HandleCommand wall id tok by_ now)).
Definition team_ReleaseCommand (wall : nat → Time) (id tok : string) : Team → Team * res unit :=
  command_guarded id (on_store (ReleaseCommand wall id tok)).

Fixpoint recover_commands (wall : nat → Time) (n : nat) (before now : Time) (cs : list Command) (s : Store)
    : Store * list CommandRecovery :=
  match cs with
  | [] => (s, [])
  | c :: cs =>
    if IsZero (cmd_ClaimedAt c) || After (cmd_ClaimedAt c) before then recover_commands wall n before now cs s
    else
      let '(s, r) := RecoverClaimedCommand (λ i, wall (n + i)%nat) (cmd_ID c) before now s in
      let '(s, rs) := recover_commands wall (Datatypes.S n) before now cs s in
      (s, option_list r ++ rs)
  end.
Definition team_RecoverClaimedCommands (wall : nat → Time) (before now : Time) (t : Team)
    : Team * res (list CommandRecovery) :=
  let now := normalizeNow (wall 0%nat) now in
  let before := if IsZero before then now else before in
  on_store (λ s, let '(s, rs) := recover_commands wall 1 before now
                   (team_ListCommands (MkCommandFilter [] [CommandClaimed] "" "" "") t) s in (s, Ok rs)) t.
Definition team_RecoverClaimedCommand (wall : nat → Time) (id : string) (before now : Time)
    : Team → Team * res (option CommandRecovery) :=
  command_guarded id (on_store (λ s, let '(s, r) := RecoverClaimedCommand wall id before now s in (s, Ok r))).

(** ** The interface of the scheduler *)

#[local] Instance teamWorkerStore : OrchStore Team := {|
  os_GetTask := getTeamTask;
  os_GetLease := team_GetLease;
  os_ClaimReadyTask := team_ClaimReadyTask;
  os_CompleteTask := team_CompleteTask;
  os_FailTask := team_FailTask;
  os_CancelTask := team_CancelTask;
  os_RetryTask := team_RetryTask;
  os_RenewLease := team_RenewLease;
  os_ReleaseLease := team_ReleaseLease;
  os_RecoverExpiredLeases := Some team_RecoverExpiredLeases;
  os_commands := Some (MkCommandOps Team team_ClaimPendingCommand team_HandleCommand team_ReleaseCommand
    (Some team_RecoverClaimedCommands));
|}.

(** ** Isolation

    What a call may not touch: tasks and leases that are not the team's, and commands
    for such tasks. *)

Definition mine (name : string) (s : Store) (id : string) : Prop :=
  ∃ task, st_tasks s !! id = Some task ∧ isTeamTask name task = true.

Definition spared (name : string) (s s' : Store) : Prop :=
  Inv s → Inv s' ∧
  (∀ id, ¬ mine name s id → st_tasks s' !! id = st_tasks s !! id ∧ st_leases s' !! id = st_leases s !! id) ∧
  (∀ cid c, st_commands s !! cid = Some c → ¬ mine name s (cmd_TaskID c) → st_commands s' !! cid = Some c).

Definition isolated (t t' : Team) : Prop :=
  team_name t' = team_name t ∧ spared (team_name t) (team_store t) (team_store t').

#[local] Instance spared_preorder name : PreOrder (spared name).
Proof.
  split; [intros s HI; done|]. intros s1 s2 s3 H12 H23 HI1. destruct (H12 HI1) as (HI2 & Ht & Hc).
  destruct (H23 HI2) as (HI3 & Ht' & Hc').
  assert (Hm : ∀ id, ¬ mine name s1 id → ¬ mine name s2 id).
  { intros id Hn. unfold mine. by rewrite (proj1 (Ht id Hn)). }
  split; [done|]. split.
  - intros id Hn. destruct (Ht' id (Hm id Hn)) as [-> ->]. by apply Ht.
  - intros cid c Hcid Hn. apply Hc'; [by apply Hc|by apply Hm].
Qed.
#[local] Instance isolated_preorder : PreOrder isolated.
Proof.
  split; [by split|]. intros t1 t2 t3 [E1 H1] [E2 H2]. split; [congruence|].
  rewrite E1 in H2. by etransitivity.
Qed.

Lemma spared_tasks name ids s s' :
  (∀ id, id ∈ ids → mine name s id) → (Inv s → Inv s' ∧ outside ids s s') → same_cmds s s' → spared name s s'.
Proof.
  intros Hm Ho [Hc _] HI. destruct (Ho HI) as [HI' Hout]. split; [done|]. split.
  - intros id Hn. apply Hout. intros Hin. by apply Hn, Hm.
  - intros cid c. by rewrite Hc.
Qed.
Lemma spared_commands name (cids : list string) s s' :
  (∀ cid c, cid ∈ cids → st_commands s !! cid = Some c → mine name s (cmd_TaskID c)) →
  (Inv s → Inv s') → same_tasks s s' →
  (∀ cid, cid ∉ cids → st_commands s' !! cid = st_commands s !! cid) → spared name s s'.
Proof.
  intros Hm HI' (Ht & Hl & _) Hc HI. split; [by apply HI'|]. split.
  - intros id _. by rewrite Ht, Hl.
  - intros cid c Hcid Hn. rewrite Hc; [done|]. intros Hin. by apply Hn, (Hm cid).
Qed.

Lemma getTeamTask_mine id t task :
  getTeamTask id t = Ok task → mine (team_name t) (team_store t) id ∧ st_tasks (team_store t) !! id = Some task.
Proof.
  unfold Team.getTeamTask, GetTask. destruct (st_tasks (team_store t) !! id) as [task'|] eqn:E; [|done].
  destruct (isTeamTask (team_name t) task') eqn:Em; [|done]. intros [= <-]. split; [by exists task'|done].
Qed.

Lemma on_store_isolated {A} (f : Store → Store * A) t :
  spared (team_name t) (team_store t) (f (team_store t)).1 → isolated t (on_store f t).1.
Proof. intros H. unfold on_store. by destruct (f (team_store t)) as [s a]. Qed.

Lemma guarded_isolated {A} id (f : Team → Team * res A) t :
  (mine (team_name t) (team_store t) id → isolated t (f t).1) → isolated t (guarded id f t).1.
Proof.
  intros H. unfold guarded. destruct (getTeamTask id t) as [task|e] eqn:E; [|reflexivity].
  by apply H, (getTeamTask_mine _ _ _ E).
Qed.

Lemma on_member_fields {A} name (f : Teammate → Teammate * A) t :
  team_name (on_member name f t).1 = team_name t ∧ team_store (on_member name f t).1 = team_store t.
Proof. unfold on_member. destruct (GetTeammate name t) as [tm|]; [|done]. by destruct (f tm). Qed.
Lemma team_publish_fields e t :
  team_name (team_publish e t) = team_name t ∧ team_store (team_publish e t) = team_store t ∧
  team_members (team_publish e t) = team_members t.
Proof. unfold team_publish. by destruct (team_bus t). Qed.
Lemma mark_progress_fields name id re se t :
  team_name (mark_progress name id re se t) = team_name t ∧ team_store (mark_progress name id re se t) = team_store t.
Proof.
  unfold mark_progress. pose proof (on_member_fields name (markTaskProgress id re se) t) as H.
  destruct (on_member _ _ t) as [t1 [[]|]]; [|done..].
  by destruct (team_publish_fields (TeammateIdleEvent name) t1) as (-> & -> & _).
Qed.
Lemma settled_fields id t :
  team_name (markTaskSettled id t) = team_name t ∧ team_store (markTaskSettled id t) = team_store t.
Proof. unfold markTaskSettled. case_match; [done|apply mark_progress_fields]. Qed.

Lemma settling_isolated {A} id (f : Team → Team * res A) t : isolated t (f t).1 → isolated t (settling id f t).1.
Proof.
  unfold settling. destruct (f t) as [t1 [a|e]]; [|done]. cbn. unfold isolated.
  by destruct (settled_fields id t1) as [-> ->].
Qed.

(** ** The calls one by one *)

Ltac only_one := repeat case_match; simplify_eq; simpl; repeat apply only_task_publish; try done;
  intros j Hj; simpl; by rewrite ?lookup_insert_ne, ?lookup_delete_ne.

Lemma CompleteTask_only wall id tok o now s : Inv s → only_task id s (CompleteTask wall id tok o now s).1.
Proof.
  intros HI. unfold CompleteTask. destruct (validateLeaseLocked _ _ _ _ _) as [[t l]|] eqn:Hv; [|done].
  apply validateLease_ok in Hv as (Ht & Hl & _). rewrite (Inv_lease_key _ _ _ HI Hl). simpl.
  apply only_task_publish. destruct o as [o|]; [|apply only_task_retire]. intros j Hj.
  match goal with |- context [createOutcomeArtifactsLocked ?a ?b ?c ?s0] =>
    destruct (create_artifacts_fields a b c s0) as (-> & -> & _) end. by apply only_task_retire.
Qed.
Lemma FailTask_only wall id tok e now s : Inv s → only_task id s (FailTask wall id tok e now s).1.
Proof.
  intros HI. unfold FailTask, requeueTaskLocked. destruct (validateLeaseLocked _ _ _ _ _) as [[t l]|] eqn:Hv; [|done].
  apply validateLease_ok in Hv as (Ht & Hl & _). rewrite (Inv_lease_key _ _ _ HI Hl). only_one.
Qed.
Lemma CancelTask_only wall id tok reason now s : only_task id s (CancelTask wall id tok reason now s).1.
Proof. unfold CancelTask. only_one. Qed.
Lemma RetryTask_only wall id reason now s : only_task id s (RetryTask wall id reason now s).1.
Proof. unfold RetryTask. only_one. Qed.
Lemma RenewLease_only wall id tok ttl now s : only_task id s (RenewLease wall id tok ttl now s).1.
Proof. unfold RenewLease. only_one. Qed.
Lemma ReleaseLease_only wall id tok s : Inv s → only_task id s (ReleaseLease wall id tok s).1.
Proof.
  intros HI. unfold ReleaseLease, requeueTaskLocked. destruct (st_leases s !! id) as [l|] eqn:Hl; [|done]. only_one.
Qed.
Lemma ClaimTask_only wall id req s : Inv s → only_task id s (ClaimTask wall id req s).1.
Proof.
  intros HI. unfold ClaimTask. case_match; [done|].
  pose proof (claimTaskLocked_life id req (normalizeNow (wall 0%nat) (claim_Now req)) s HI) as H0.
  destruct (claimTaskLocked _ _ _ _). apply H0.
Qed.

Lemma only_outside id ids s s' : id ∈ ids → only_task id s s' → outside ids s s'.
Proof. intros Hin Ho j Hj. apply Ho. by intros ->. Qed.

(** A call on one task of the team. *)
Lemma one_task_spared wall op name id s :
  command_op op = false → mine name s id → (Inv s → only_task id s (run_op wall op s)) →
  spared name s (run_op wall op s).
Proof.
  intros Hop Hm Ho. apply (spared_tasks name [id]).
  - by intros j ->%list_elem_of_singleton.
  - intros HI. split; [by apply run_op_Inv|]. eapply only_outside; [by apply list_elem_of_singleton|by apply Ho].
  - by apply task_op_cmds.
Qed.

Lemma outside_trans ids s1 s2 s3 : outside ids s1 s2 → outside ids s2 s3 → outside ids s1 s3.
Proof. intros H1 H2 j Hj. destruct (H2 j Hj) as [-> ->]. by apply H1. Qed.

Lemma try_claims_frame wall n req tasks ids s :
  (∀ task, task ∈ tasks → task_ID task ∈ ids) → Inv s →
  let s' := (try_claims wall n req tasks s).1 in Inv s' ∧ outside ids s s' ∧ same_cmds s s'.
Proof.
  revert n s. induction tasks as [|task tasks IH]; intros n s Hin HI; cbn [try_claims]; [done|].
  case_match; [apply IH; set_solver|].
  set (wl := λ i, wall (n + i)%nat).
  pose proof (run_op_Inv wl (OpClaimTask (task_ID task) req) s HI) as HI1.
  pose proof (ClaimTask_only wl (task_ID task) req s HI) as Ho%(only_outside _ ids); [|set_solver].
  pose proof (task_op_cmds wl (OpClaimTask (task_ID task) req) s eq_refl) as Hc. cbn in HI1, Hc.
  destruct (ClaimTask wl (task_ID task) req s) as [s1 [c|e]]; [done|]. case_match; [|done].
  destruct (IH (Datatypes.S n) s1) as (HI2 & Ho2 & Hc2); [set_solver|done|].
  split; [done|]. split; [by eapply outside_trans|by etransitivity].
Qed.

Lemma recover_tasks_frame wall n now tasks ids s :
  (∀ task, task ∈ tasks → task_ID task ∈ ids) → Inv s →
  let s' := (recover_tasks wall n now tasks s).1 in Inv s' ∧ outside ids s s' ∧ same_cmds s s'.
Proof.
  revert n s. induction tasks as [|task tasks IH]; intros n s Hin HI; cbn [recover_tasks]; [done|].
  destruct (GetLease (task_ID task) s) as [l|]; [|apply IH; set_solver]. case_match; [apply IH; set_solver|].
  set (wl := λ i, wall (n + i)%nat).
  pose proof (run_op_Inv wl (OpRecoverExpiredLease (task_ID task) now) s HI) as HI1.
  assert (outside ids s (RecoverExpiredLease wl (task_ID task) now s).1) as Ho.
  { eapply only_outside; [|apply recover_only]. set_solver. }
  pose proof (task_op_cmds wl (OpRecoverExpiredLease (task_ID task) now) s eq_refl) as Hc. cbn in HI1, Hc.
  destruct (RecoverExpiredLease wl (task_ID task) now s) as [s1 r].
  destruct (IH (2 + n)%nat s1) as (HI2 & Ho2 & Hc2); [set_solver|done|].
  destruct (recover_tasks wall (2 + n) now tasks s1) as [s2 rs].
  split; [done|]. split; [by eapply outside_trans|by etransitivity].
Qed.

(** Calls on one command. *)
Definition only_command (cid : string) (s s' : Store) : Prop :=
  ∀ j, j ≠ cid → st_commands s' !! j = st_commands s !! j.
Lemma only_command_publish cid e s s' : only_command cid s s' → only_command cid s (publish e s').
Proof.
  intros Ho j Hj. destruct (same_state_cmds _ _ (publish_same e s')) as [-> _]. by apply Ho.
Qed.
Ltac only_cmd := repeat case_match; simplify_eq; simpl; repeat apply only_command_publish; try done;
  intros j Hj; simpl; by rewrite ?lookup_insert_ne.
Lemma ClaimCommand_only wall cid req s : only_command cid s (ClaimCommand wall cid req s).1.
Proof. unfold ClaimCommand. only_cmd. Qed.
Lemma HandleCommand_only wall cid tok by_ now s : only_command cid s (HandleCommand wall cid tok by_ now s).1.
Proof. unfold HandleCommand. only_cmd. Qed.
Lemma ReleaseCommand_only wall cid tok s : only_command cid s (ReleaseCommand wall cid tok s).1.
Proof. unfold ReleaseCommand. only_cmd. Qed.
Lemma RecoverClaimedCommand_only wall cid before now s :
  only_command cid s (RecoverClaimedCommand wall cid before now s).1.
Proof. unfold RecoverClaimedCommand, recoverClaimedCommandLocked. only_cmd. Qed.

(** What a loop over the commands [cids] leaves alone. *)
Definition commands_frame (cids : list string) (s s' : Store) : Prop :=
  Inv s' ∧ same_tasks s s' ∧ ∀ cid, cid ∉ cids → st_commands s' !! cid = st_commands s !! cid.
Lemma commands_frame_refl cids s : Inv s → commands_frame cids s s.
Proof. by split. Qed.
Lemma commands_frame_op wall op cid cids s :
  side_op op = true → Inv s → cid ∈ cids → only_command cid s (run_op wall op s) →
  commands_frame cids s (run_op wall op s).
Proof.
  intros Hop HI Hin Ho. split; [by apply run_op_Inv|]. split; [by apply side_op_tasks|].
  intros j Hj. apply Ho. by intros ->.
Qed.
Lemma commands_frame_trans cids s1 s2 s3 :
  commands_frame cids s1 s2 → commands_frame cids s2 s3 → commands_frame cids s1 s3.
Proof.
  intros (_ & Ht & Hc) (HI & Ht' & Hc'). split; [done|]. split; [by eapply same_tasks_trans|].
  intros j Hj. by rewrite Hc', Hc.
Qed.
Lemma commands_frame_spared name (cids : list string) s s' :
  (∀ cid c, cid ∈ cids → st_commands s !! cid = Some c → mine name s (cmd_TaskID c)) →
  (Inv s → commands_frame cids s s') → spared name s s'.
Proof.
  intros Hm Hf HI. destruct (Hf HI) as (HI' & Ht & Hc). by apply (spared_commands name cids).
Qed.

Lemma claim_commands_frame wall n req cs cids s :
  (∀ c, c ∈ cs → cmd_ID c ∈ cids) → Inv s → commands_frame cids s (claim_commands wall n req cs s).1.
Proof.
  revert n s. induction cs as [|c cs IH]; intros n s Hin HI; cbn [claim_commands]; [by apply commands_frame_refl|].
  set (wl := λ i, wall (n + i)%nat).
  assert (commands_frame cids s (ClaimCommand wl (cmd_ID c) req s).1) as Hf.
  { apply (commands_frame_op wl (OpClaimCommand (cmd_ID c) req) (cmd_ID c)); [done..|set_solver|apply ClaimCommand_only]. }
  destruct (ClaimCommand wl (cmd_ID c) req s) as [s1 [c1|e]]; [done|]. case_match; [|done].
  eapply commands_frame_trans; [done|]. apply IH; [set_solver|apply Hf].
Qed.
Lemma recover_commands_frame wall n before now cs cids s :
  (∀ c, c ∈ cs → cmd_ID c ∈ cids) → Inv s → commands_frame cids s (recover_commands wall n before now cs s).1.
Proof.
  revert n s. induction cs as [|c cs IH]; intros n s Hin HI; cbn [recover_commands]; [by apply commands_frame_refl|].
  case_match; [apply IH; set_solver|]. set (wl := λ i, wall (n + i)%nat).
  assert (commands_frame cids s (RecoverClaimedCommand wl (cmd_ID c) before now s).1) as Hf.
  { apply (commands_frame_op wl (OpRecoverClaimedCommand (cmd_ID c) before now) (cmd_ID c));
      [done..|set_solver|apply RecoverClaimedCommand_only]. }
  destruct (RecoverClaimedCommand wl (cmd_ID c) before now s) as [s1 r].
  pose proof (IH (Datatypes.S n) s1 ltac:(set_solver) (proj1 Hf)) as Hf2.
  destruct (recover_commands wall (Datatypes.S n) before now cs s1) as [s2 rs]. by eapply commands_frame_trans.
Qed.

Lemma visible_mine t c : commandVisible t c = true → mine (team_name t) (team_store t) (cmd_TaskID c).
Proof.
  unfold commandVisible. rewrite andb_true_iff. intros [_ H].
  destruct (getTeamTask (cmd_TaskID c) t) as [task|] eqn:E; [|done]. by apply (getTeamTask_mine _ _ _ E).
Qed.
Lemma elem_of_ListCommands f s c : Inv s → c ∈ ListCommands f s → st_commands s !! cmd_ID c = Some c.
Proof.
  intros HI. unfold ListCommands. rewrite list_elem_of_omap. intros (id & _ & H).
  destruct (st_commands s !! id) as [c'|] eqn:E; [|done]. case_match; simplify_eq.
  by destruct (ci_commands _ (inv_cmd _ HI) _ _ E) as (-> & _).
Qed.

(** A loop over the visible commands of a listing touches only commands of the team. *)
Lemma visible_spared f t (l : list Command) s' :
  (∀ c, c ∈ l → c ∈ ListCommands f (team_store t)) →
  (Inv (team_store t) → commands_frame (cmd_ID <$> List.filter (commandVisible t) l) (team_store t) s') →
  spared (team_name t) (team_store t) s'.
Proof.
  intros Hl Hf HI. revert HI.
  intros HI. apply (commands_frame_spared _ (cmd_ID <$> List.filter (commandVisible t) l)); [|done|done].
  intros cid c Hin Hc. apply list_elem_of_fmap in Hin as (c' & -> & Hc').
  apply list_elem_of_In, List.filter_In in Hc' as [Hc' Hv]. apply list_elem_of_In, Hl, elem_of_ListCommands in Hc'; [|done].
  rewrite Hc in Hc'. injection Hc' as ->. by apply visible_mine.
Qed.

Lemma elem_of_listTeamTasks sts t task :
  Inv (team_store t) → task ∈ listTeamTasks sts t →
  st_tasks (team_store t) !! task_ID task = Some task ∧ isTeamTask (team_name t) task = true ∧
  matchesStatuses task sts = true.
Proof.
  intros HI Hin. apply list_elem_of_In, List.filter_In in Hin as [Hin Hm].
  apply list_elem_of_In, elem_of_ListTasks in Hin as [Ht Hf]; [|done]. split; [done|]. split; [done|].
  unfold matchesFilter in Hf. by apply andb_true_iff in Hf as [_ Hf].
Qed.

(** A loop over tasks of the team. *)
Lemma tasks_spared sts t s' :
  (Inv (team_store t) → let ids := task_ID <$> listTeamTasks sts t in
     Inv s' ∧ outside ids (team_store t) s' ∧ same_cmds (team_store t) s') →
  spared (team_name t) (team_store t) s'.
Proof.
  intros Hf HI. destruct (Hf HI) as (HI' & Ho & Hc).
  apply (spared_tasks _ (task_ID <$> listTeamTasks sts t)); [|done..].
  intros id Hin. apply list_elem_of_fmap in Hin as (task & -> & Hin).
  destruct (elem_of_listTeamTasks _ _ _ HI Hin) as (Ht & Hm & _). by exists task.
Qed.

Lemma ClaimReadyTask_isolated wall req t : isolated t (team_ClaimReadyTask wall req t).1.
Proof.
  apply on_store_isolated, (tasks_spared [TaskPending]). intros HI ids.
  assert (Hin : ∀ f task, task ∈ List.filter f (listTeamTasks [TaskPending] t) → task_ID task ∈ ids).
  { intros f task [Hin _]%list_elem_of_In%List.filter_In. by apply list_elem_of_fmap_2, list_elem_of_In. }
  pose proof (try_claims_frame wall 0 req (List.filter (assigned_to workerID) (listTeamTasks [TaskPending] t)) ids
    (team_store t) (Hin _) HI) as H1. cbn zeta in H1.
  destruct (try_claims wall 0 req _ (team_store t)) as [s1 [r|]]; [done|]. destruct H1 as (HI1 & Ho1 & Hc1).
  pose proof (try_claims_frame wall (length (listTeamTasks [TaskPending] t)) req
    (List.filter (assigned_to "") (listTeamTasks [TaskPending] t)) ids s1 (Hin _) HI1) as (HI2 & Ho2 & Hc2).
  destruct (try_claims wall (length _) req _ s1) as [s2 [r|]]; cbn in *;
    (split; [done|]; split; [by eapply outside_trans|by etransitivity]).
Qed.

Lemma team_GetCommand_mine id t c :
  team_GetCommand id t = Ok c →
  st_commands (team_store t) !! id = Some c ∧ mine (team_name t) (team_store t) (cmd_TaskID c).
Proof.
  unfold team_GetCommand, GetCommand. destruct (st_commands (team_store t) !! id) as [c'|]; [|done].
  destruct (commandVisible t c') eqn:E; [|done]. intros [= <-]. split; [done|]. by apply visible_mine.
Qed.

Lemma command_guarded_isolated {A} wall op id (f : Store → Store * res A) t :
  side_op op = true → (f (team_store t)).1 = run_op wall op (team_store t) →
  only_command id (team_store t) (run_op wall op (team_store t)) →
  isolated t (command_guarded id (on_store f) t).1.
Proof.
  intros Hop Hf Ho. unfold command_guarded. destruct (team_GetCommand id t) as [c|] eqn:E; [|reflexivity].
  apply team_GetCommand_mine in E as [Hc Hm]. apply on_store_isolated. rewrite Hf.
  apply (commands_frame_spared _ [id]).
  - intros cid c' ->%list_elem_of_singleton Hc'. by simplify_eq.
  - intros HI. apply (commands_frame_op wall op id); [done..|by apply list_elem_of_singleton|done].
Qed.

(** Every call of the worker store spares what is not the team's. *)
Lemma worker_respects : respects isolated.
Proof.
  split.
  - apply ClaimReadyTask_isolated.
  - intros wall id tok o now t. apply guarded_isolated. intros Hm. apply settling_isolated, on_store_isolated.
    apply (one_task_spared wall (OpCompleteTask id tok o now) _ id); [done..|apply CompleteTask_only].
  - intros wall id tok e now t. apply guarded_isolated. intros Hm. apply settling_isolated, on_store_isolated.
    apply (one_task_spared wall (OpFailTask id tok e now) _ id); [done..|apply FailTask_only].
  - intros wall id tok reason now t. apply guarded_isolated. intros Hm. apply settling_isolated, on_store_isolated.
    apply (one_task_spared wall (OpCancelTask id tok reason now) _ id); [done..|]. intros _. apply CancelTask_only.
  - intros wall id reason now t. apply guarded_isolated. intros Hm. apply on_store_isolated.
    apply (one_task_spared wall (OpRetryTask id reason now) _ id); [done..|]. intros _. apply RetryTask_only.
  - intros wall id tok ttl now t. apply guarded_isolated. intros Hm. apply on_store_isolated.
    apply (one_task_spared wall (OpRenewLease id tok ttl now) _ id); [done..|]. intros _. apply RenewLease_only.
  - intros wall id tok t. apply guarded_isolated. intros Hm. apply settling_isolated, on_store_isolated.
    apply (one_task_spared wall (OpReleaseLease id tok) _ id); [done..|apply ReleaseLease_only].
  - intros recover [= <-] wall now t. apply on_store_isolated, (tasks_spared []). intros HI ids.
    pose proof (recover_tasks_frame wall 1 (normalizeNow (wall 0%nat) now) (listTeamTasks [] t) ids (team_store t)
      (λ task, list_elem_of_fmap_2 _ _ _) HI) as H. by destruct (recover_tasks _ _ _ _ _).
  - intros ops [= <-]. unfold respects_commands. cbn. split_and!.
    + intros wall req t. apply on_store_isolated, (visible_spared (MkCommandFilter [] [CommandPending] "" "" "")
        t (ListPendingCommandsForWorker (ccmd_WorkerID req) (team_store t))).
      * intros c [Hc _]%list_elem_of_In%List.filter_In. by apply list_elem_of_In.
      * intros HI. apply claim_commands_frame; [|done]. intros c. apply list_elem_of_fmap_2.
    + intros wall id tok by_ now t. apply (command_guarded_isolated wall (OpHandleCommand id tok by_ now)); [done..|].
      apply HandleCommand_only.
    + intros wall id tok t. apply (command_guarded_isolated wall (OpReleaseCommand id tok)); [done..|].
      apply ReleaseCommand_only.
    + intros recover [= <-] wall before now t. apply on_store_isolated.
      apply (visible_spared (MkCommandFilter [] [CommandClaimed] "" "" "") t
        (ListCommands (MkCommandFilter [] [CommandClaimed] "" "" "") (team_store t))); [done|]. intros HI.
      match goal with |- context [recover_commands ?wl ?k ?b ?n ?cs ?s] =>
        pose proof (recover_commands_frame wl k b n cs (cmd_ID <$> cs) s (λ c, list_elem_of_fmap_2 _ _ _) HI) as H;
        by destruct (recover_commands wl k b n cs s) end.
Qed.

(** C15: a teammate stays within its team: whatever its scheduler does, at every point
    of every interleaving of its goroutines' single actions with others that do the same, tasks of other kinds or other teams,
    their leases and the commands for them stay exactly as they are. *)
Theorem teammate_isolated clock cfg controller env w c' :
  (∀ t t', env t t' → isolated t t') →
  rtc (sched_step clock cfg controller env) (idle w) c' → Inv (team_store (w_store w)) →
  let s := team_store (w_store w) in
  let s' := team_store (w_store (cf_world c')) in
  (∀ id, ¬ mine (team_name (w_store w)) s id →
     st_tasks s' !! id = st_tasks s !! id ∧ st_leases s' !! id = st_leases s !! id) ∧
  (∀ cid c, st_commands s !! cid = Some c → ¬ mine (team_name (w_store w)) s (cmd_TaskID c) →
     st_commands s' !! cid = Some c).
Proof.
  intros Henv Hsteps HI. pose proof (sched_steps_respect isolated worker_respects _ _ _ _ _ _ Henv Hsteps) as [_ H].
  by apply H.
Qed.

(** ** Which task a teammate claims *)

Lemma claim_scan_app ids1 ids2 req now s :
  claim_scan (ids1 ++ ids2) req now s =
  match claim_scan ids1 req now s with
  | (s1, Err e) => if Is e ErrNoReadyTask || Is e ErrTaskBlocked then claim_scan ids2 req now s1 else (s1, Err e)
  | (s1, Ok c) => (s1, Ok c)
  end.
Proof.
  revert s. induction ids1 as [|id ids1 IH]; intros s; [done|]. cbn [claim_scan app].
  destruct (claimTaskLocked id req now s) as [s1 [c|e]]; [done|].
  destruct (Is e ErrNoReadyTask || Is e ErrTaskBlocked) eqn:E; [apply IH|by rewrite E].
Qed.

(** A claim attempt removes no task and keeps the kind and the metadata of each. *)
Lemma claim_keeps_identity id req now s j t :
  Inv s → st_tasks s !! j = Some t →
  ∃ t', st_tasks (claimTaskLocked id req now s).1 !! j = Some t' ∧ task_Kind t' = task_Kind t ∧
        task_Metadata t' = task_Metadata t.
Proof.
  intros HI Ht. pose proof (claimTaskLocked_life id req now s HI) as Hl.
  destruct (claimTaskLocked id req now s) as [s1 r] eqn:Hc. destruct Hl as (_ & Ho & _). cbn.
  destruct (decide (j = id)) as [->|Hne]; [|by rewrite (proj1 (Ho _ Hne)); eauto].
  pose proof (Inv_task_key _ _ _ HI Ht) as Hid.
  unfold claimTaskLocked, claim_exhausted, claim_start in Hc. rewrite Ht in Hc.
  repeat case_match; simplify_eq; unfold publishTaskFailed, publishTaskClaimed; cbn;
    repeat match goal with |- context [publish ?e ?s0] => destruct (publish_fields e s0) as (-> & _) end;
    cbn; rewrite ?lookup_insert_eq; eauto.
Qed.
Lemma claim_keeps_task id req now s j :
  Inv s → is_Some (st_tasks s !! j) → is_Some (st_tasks (claimTaskLocked id req now s).1 !! j).
Proof. intros HI [t Ht]. destruct (claim_keeps_identity id req now s j t HI Ht) as (t' & -> & _). eauto. Qed.
Lemma claim_scan_keeps_task ids req now s j :
  Inv s → is_Some (st_tasks s !! j) → is_Some (st_tasks (claim_scan ids req now s).1 !! j).
Proof.
  revert s. induction ids as [|id ids IH]; intros s HI Hj; [done|]. cbn [claim_scan].
  pose proof (claim_keeps_task id req now s j HI Hj) as Hk.
  pose proof (claimTaskLocked_Inv id req now s HI) as HI1.
  destruct (claimTaskLocked id req now s) as [s1 [c|e]]; [done|]. case_match; [by apply IH|done].
Qed.

(** The loop of the worker store is the scan of the backend over the given tasks. *)
Lemma try_claims_scan wall n req tasks s :
  0 < claim_LeaseTTL req → claim_Now req ≠ zero_time → Inv s →
  (∀ task, task ∈ tasks → is_Some (st_tasks s !! task_ID task)) →
  try_claims wall n req tasks s =
  match claim_scan (task_ID <$> tasks) req (claim_Now req) s with
  | (s', Ok c) => (s', Some (Ok c))
  | (s', Err _) => (s', None)
  end.
Proof.
  intros Httl Hnow. revert n s. induction tasks as [|task tasks IH]; intros n s HI Hin; [done|].
  cbn [try_claims fmap list_fmap claim_scan].
  assert (Hid : is_Some (st_tasks s !! task_ID task)) by (apply Hin; set_solver).
  case_bool_decide as Hex.
  { unfold claimTaskLocked. destruct Hid as [tk ->]. unfold containsString. rewrite bool_decide_eq_true_2 by done.
    cbn. apply IH; [done|]. intros task' ?. apply Hin. set_solver. }
  unfold ClaimTask. rewrite (proj2 (Z.leb_gt _ _) Httl). unfold normalizeNow, IsZero, zero_time in *.
  rewrite (proj2 (Z.eqb_neq _ _) Hnow).
  pose proof (claim_spec (task_ID task) req (claim_Now req) s HI) as Hsp.
  pose proof (claimTaskLocked_Inv (task_ID task) req (claim_Now req) s HI) as HI1.
  destruct (claimable req (claim_Now req) s (task_ID task)).
  { destruct Hsp as (t & s' & c & _ & -> & _). done. }
  destruct Hsp as (s1 & e & Hc & He).
  pose proof (λ j, claim_keeps_task (task_ID task) req (claim_Now req) s j HI) as Hk. rewrite Hc in *.
  assert (Is e ErrNoReadyTask || Is e ErrTaskBlocked = true) as Hskip by (by destruct (He Hid) as [-> | ->]).
  rewrite Hskip. cbn [orb]. apply IH; [done|]. intros task' Hin'. apply Hk, Hin. set_solver.
Qed.

(** The pending tasks of the team that are assigned to the teammate, and those
    assigned to nobody, in the order of their creation. *)
Definition own_ids (t : Team) : list string :=
  task_ID <$> List.filter (assigned_to workerID) (listTeamTasks [TaskPending] t).
Definition free_ids (t : Team) : list string :=
  task_ID <$> List.filter (assigned_to "") (listTeamTasks [TaskPending] t).

Lemma claim_ids_stored t id : Inv (team_store t) → id ∈ own_ids t ++ free_ids t → is_Some (st_tasks (team_store t) !! id).
Proof.
  intros HI. unfold own_ids, free_ids. rewrite <- fmap_app. intros (task & -> & Hin)%list_elem_of_fmap.
  assert (task ∈ listTeamTasks [TaskPending] t) as H.
  { apply elem_of_app in Hin. rewrite !list_elem_of_In, !List.filter_In in Hin. apply list_elem_of_In. naive_solver. }
  destruct (elem_of_listTeamTasks _ _ _ HI H) as [Ht _]. eauto.
Qed.

Lemma find_app {A} (f : A → bool) l1 l2 :
  List.find f (l1 ++ l2) = match List.find f l1 with Some x => Some x | None => List.find f l2 end.
Proof. induction l1 as [|x l1 IH]; cbn; [done|]. by destruct (f x). Qed.
Lemma filter_sublist {A} (f : A → bool) l : sublist (List.filter f l) l.
Proof. induction l as [|x l IH]; cbn; [done|]. destruct (f x); by constructor. Qed.

Lemma claim_ids_NoDup t : Inv (team_store t) → workerID ≠ "" → NoDup (own_ids t ++ free_ids t).
Proof.
  intros HI Hw.
  assert (Hnd : NoDup (task_ID <$> listTeamTasks [TaskPending] t)).
  { eapply sublist_NoDup; [apply (ListTasks_NoDup (MkTaskFilter [teamTaskKind] [TaskPending]) _ HI)|].
    apply fmap_sublist, filter_sublist. }
  assert (Hf : ∀ f, NoDup (task_ID <$> List.filter f (listTeamTasks [TaskPending] t))).
  { intros f. eapply sublist_NoDup; [done|]. apply fmap_sublist, filter_sublist. }
  apply NoDup_app. split; [apply Hf|]. split; [|apply Hf].
  intros id (t1 & -> & [H1 E1]%list_elem_of_In%List.filter_In)%list_elem_of_fmap
    (t2 & Eid & [H2 E2]%list_elem_of_In%List.filter_In)%list_elem_of_fmap.
  apply list_elem_of_In in H1, H2.
  destruct (elem_of_listTeamTasks _ _ _ HI H1) as [S1 _]. destruct (elem_of_listTeamTasks _ _ _ HI H2) as [S2 _].
  rewrite Eid in S1. simplify_eq. unfold assigned_to in *. apply String.eqb_eq in E1, E2. congruence.
Qed.

Lemma team_claim_scan wall req t :
  0 < claim_LeaseTTL req → claim_Now req ≠ zero_time → Inv (team_store t) → workerID ≠ "" →
  team_ClaimReadyTask wall req t =
  on_store (claim_scan (own_ids t ++ free_ids t) req (claim_Now req)) t.
Proof.
  intros Httl Hnow HI Hw. unfold team_ClaimReadyTask, on_store. rewrite claim_scan_app.
  pose proof (λ id, claim_ids_stored t id HI) as Hst.
  pose proof (claim_ids_NoDup t HI Hw) as (Hnd1 & _ & Hnd2)%NoDup_app.
  rewrite try_claims_scan; [|done..|]; last first.
  { intros task Hin. apply Hst, elem_of_app. left. by apply list_elem_of_fmap_2. }
  fold (own_ids t).
  pose proof (claim_scan_spec (own_ids t) req (claim_Now req) (team_store t) HI
    ltac:(intros; apply Hst, elem_of_app; by left) Hnd1) as H1.
  pose proof (λ j, claim_scan_keeps_task (own_ids t) req (claim_Now req) (team_store t) j HI) as Hk.
  pose proof (claim_scan_Inv (own_ids t) req (claim_Now req) (team_store t) HI) as HI1.
  destruct (List.find _ (own_ids t)).
  { destruct H1 as (tk & s1 & c & _ & -> & _). done. }
  destruct H1 as [s1 H1]. rewrite H1 in *. cbn in Hk, HI1 |- *.
  rewrite try_claims_scan; [|done..|]; last first.
  { intros task Hin. apply Hk, Hst, elem_of_app. right. by apply list_elem_of_fmap_2. }
  fold (free_ids t).
  pose proof (claim_scan_spec (free_ids t) req (claim_Now req) s1 HI1
    ltac:(intros; apply Hk, Hst, elem_of_app; by right) Hnd2) as H2.
  destruct (List.find _ (free_ids t)).
  - by destruct H2 as (tk & s2 & c & _ & -> & _).
  - by destruct H2 as [s2 ->].
Qed.

(** A teammate claims the first claimable task of its own, else the first one that
    nobody is assigned to, in the order of creation, and never one assigned to another
    teammate; when there is none it reports ErrNoReadyTask. *)
Theorem team_ClaimReadyTask_first wall req t :
  Inv (team_store t) → workerID ≠ "" → 0 < claim_LeaseTTL req → claim_Now req ≠ zero_time →
  let s := team_store t in
  let now := claim_Now req in
  match List.find (claimable req now s) (own_ids t ++ free_ids t) with
  | Some id => ∃ task s' c, st_tasks s !! id = Some task ∧
      team_ClaimReadyTask wall req t = (t <| team_store := s' |>, Ok c) ∧ new_claim req now s id task s' c ∧
      isTeamTask (team_name t) task = true ∧
      (teamTaskAssignee task = workerID ∨
       teamTaskAssignee task = "" ∧ List.find (claimable req now s) (own_ids t) = None)
  | None => (team_ClaimReadyTask wall req t).2 = Err ErrNoReadyTask
  end.
Proof.
  intros HI Hw Httl Hnow s now. rewrite team_claim_scan by done. unfold on_store. fold s now.
  pose proof (claim_scan_spec (own_ids t ++ free_ids t) req now s HI
    (λ id, claim_ids_stored t id HI) (claim_ids_NoDup t HI Hw)) as H.
  destruct (List.find _ _) as [id|] eqn:E; [|by destruct H as [s' ->]].
  destruct H as (task & s' & c & Ht & -> & Hn). exists task, s', c. do 3 (split; [done|]).
  assert (Hex : ∀ name, id ∈ task_ID <$> List.filter (assigned_to name) (listTeamTasks [TaskPending] t) →
    isTeamTask (team_name t) task = true ∧ teamTaskAssignee task = name).
  { intros name (task' & -> & [Hin Ha]%list_elem_of_In%List.filter_In)%list_elem_of_fmap.
    apply list_elem_of_In in Hin. destruct (elem_of_listTeamTasks _ _ _ HI Hin) as (Ht' & Hm & _).
    fold s in Ht'. simplify_eq. split; [done|]. by apply String.eqb_eq. }
  destruct (List.find (claimable req now s) (own_ids t)) as [id'|] eqn:E1.
  - assert (id' = id) as -> by (rewrite find_app, E1 in E; by injection E).
    apply List.find_some in E1 as [Hin _]. destruct (Hex workerID) as [? ?]; [by apply list_elem_of_In|]. auto.
  - rewrite find_app, E1 in E. apply List.find_some in E as [Hin _].
    destruct (Hex "") as [? ?]; [by apply list_elem_of_In|]. auto.
Qed.

(** ** The laws the scheduler relies on *)

(** Tasks keep their kind and metadata. *)
Definition keeps_identity (s s' : Store) : Prop :=
  ∀ j t, st_tasks s !! j = Some t →
    ∃ t', st_tasks s' !! j = Some t' ∧ task_Kind t' = task_Kind t ∧ task_Metadata t' = task_Metadata t.
Lemma keeps_identity_trans s1 s2 s3 : keeps_identity s1 s2 → keeps_identity s2 s3 → keeps_identity s1 s3.
Proof.
  intros H1 H2 j t (t' & Ht' & E1 & E2)%H1. destruct (H2 j t' Ht') as (t'' & ? & ? & ?).
  exists t''. split; [done|]. split; congruence.
Qed.
Lemma identity_mine name s s' id : keeps_identity s s' → mine name s id → mine name s' id.
Proof.
  intros Hk (t & Ht & Hm). destruct (Hk _ _ Ht) as (t' & Ht' & E1 & E2). exists t'. split; [done|].
  unfold Team.isTeamTask, teamTaskName, metadataString in *. by rewrite E1, E2.
Qed.
Lemma ClaimTask_identity wall id req s : Inv s → keeps_identity s (ClaimTask wall id req s).1.
Proof.
  intros HI j t Ht. unfold ClaimTask. case_match; [by eauto|]. by apply claim_keeps_identity.
Qed.

(** A claim the loop returns was made by the backend for one of the tasks; before it,
    the attempts changed no kind and no metadata. *)
Lemma try_claims_ok wall n req tasks s :
  Inv s →
  match try_claims wall n req tasks s with
  | (s', Some (Ok c)) => ∃ task s1 wl, task ∈ tasks ∧ task_ID task ∉ claim_ExcludeTaskIDs req ∧ Inv s1 ∧
      keeps_identity s s1 ∧ ClaimTask wl (task_ID task) req s1 = (s', Ok c)
  | (s', _) => Inv s' ∧ keeps_identity s s'
  end.
Proof.
  assert (Hrefl : ∀ s, keeps_identity s s) by (intros ????; eauto).
  revert n s. induction tasks as [|task tasks IH]; intros n s HI; cbn [try_claims]; [done|].
  case_bool_decide as Hex.
  { specialize (IH n s HI). destruct (try_claims _ _ _ _ _) as [s' [[c|e]|]]; [|done..].
    destruct IH as (task' & s1 & wl & Hin & H). exists task', s1, wl. split; [|done]. set_solver. }
  set (wl := λ i, wall (n + i)%nat).
  pose proof (run_op_Inv wl (OpClaimTask (task_ID task) req) s HI) as HI1. cbn in HI1.
  pose proof (ClaimTask_identity wl (task_ID task) req s HI) as Hk.
  destruct (ClaimTask wl (task_ID task) req s) as [s1 [c|e]] eqn:Hc; cbn in HI1, Hk.
  { exists task, s, wl. split; [set_solver|done]. }
  destruct (Is e ErrNoReadyTask || Is e ErrTaskBlocked || Is e ErrTaskNotFound); [|done].
  specialize (IH (Datatypes.S n) s1 HI1).
  destruct (try_claims _ _ _ _ s1) as [s' [[c|e']|]].
  - destruct IH as (task' & s2 & wl' & Hin & Hne & HI2 & Hk2 & Hc2). exists task', s2, wl'.
    split; [set_solver|]. do 2 (split; [done|]). split; [by eapply keeps_identity_trans|done].
  - destruct IH as [? ?]. split; [done|by eapply keeps_identity_trans].
  - destruct IH as [? ?]. split; [done|by eapply keeps_identity_trans].
Qed.

Lemma team_claim_ok wall req t t' c :
  Inv (team_store t) → team_ClaimReadyTask wall req t = (t', Ok c) →
  ∃ task s1 wl, task ∈ listTeamTasks [TaskPending] t ∧ task_ID task ∉ claim_ExcludeTaskIDs req ∧ Inv s1 ∧
    keeps_identity (team_store t) s1 ∧ ClaimTask wl (task_ID task) req s1 = (team_store t', Ok c) ∧
    team_name t' = team_name t.
Proof.
  intros HI. unfold team_ClaimReadyTask, on_store.
  assert (Hf : ∀ f task, task ∈ List.filter f (listTeamTasks [TaskPending] t) → task ∈ listTeamTasks [TaskPending] t).
  { intros f task [H _]%list_elem_of_In%List.filter_In. by apply list_elem_of_In. }
  pose proof (try_claims_ok wall 0 req (List.filter (assigned_to workerID) (listTeamTasks [TaskPending] t)) _ HI) as H1.
  destruct (try_claims wall 0 req _ _) as [s1 [[c1|e]|]]; intros Hc; simplify_eq.
  { destruct H1 as (task & s2 & wl & Hin & ?). exists task, s2, wl. cbn. naive_solver. }
  destruct H1 as [HI1 Hk1].
  pose proof (try_claims_ok wall (length (listTeamTasks [TaskPending] t)) req
    (List.filter (assigned_to "") (listTeamTasks [TaskPending] t)) _ HI1) as H2.
  destruct (try_claims wall (length _) req _ s1) as [s2 [[c2|e]|]]; simplify_eq.
  destruct H2 as (task & s3 & wl & Hin & Hne & HI3 & Hk3 & Hc3). exists task, s3, wl.
  split; [by eapply Hf|]. do 2 (split; [done|]). split; [by eapply keeps_identity_trans|done].
Qed.

(** [tok] is the token of the lease of a task of the team. *)
Definition team_owns (t : Team) (id tok : string) : Prop :=
  mine (team_name t) (team_store t) id ∧ mem_owns (team_store t) id tok.

(** A fenced call of the backend stays fenced behind the guard. *)
Lemma guarded_fenced {A} id tok (f : Store → Store * res A) t :
  ¬ team_owns t id tok →
  (¬ mem_owns (team_store t) id tok → ∃ e, f (team_store t) = (team_store t, Err e) ∧
     (isLeaseLoss e = true ∨ Is e ErrTaskNotFound = true)) →
  ∃ e, guarded id (on_store f) t = (t, Err e) ∧ guarded id (settling id (on_store f)) t = (t, Err e) ∧
     (isLeaseLoss e = true ∨ Is e ErrTaskNotFound = true).
Proof.
  intros Hno Hf. unfold guarded. destruct (getTeamTask id t) as [task|e] eqn:E.
  - destruct Hf as (e & He & Hl); [intros Ho; by apply Hno; split; [apply (getTeamTask_mine _ _ _ E)|]|].
    exists e. unfold settling, on_store. rewrite He. by destruct t.
  - exists e. do 2 (split; [done|]). right. unfold Team.getTeamTask, GetTask in E.
    repeat case_match; by simplify_eq.
Qed.

Lemma ClaimTask_claims wl id req s s' c :
  Inv s → ClaimTask wl id req s = (s', Ok c) →
  task_ID (claimed_Task c) = id ∧ mem_owns s' id (lease_Token (claimed_Lease c)).
Proof.
  intros HI Hc. unfold ClaimTask in Hc. case_match; [done|].
  pose proof (claim_spec id req (normalizeNow (wl 0%nat) (claim_Now req)) s HI) as Hsp.
  destruct (claimable _ _ s id); [|destruct Hsp as (? & ? & ? & _); congruence].
  destruct Hsp as (t & s1 & c1 & _ & Hc' & _ & Hl & Hid & _). rewrite Hc in Hc'. simplify_eq.
  split; [done|]. by exists (claimed_Lease c1).
Qed.
Lemma team_claim_owns wall req t t' c :
  Inv (team_store t) → team_ClaimReadyTask wall req t = (t', Ok c) →
  Inv (team_store t') ∧ team_owns t' (task_ID (claimed_Task c)) (lease_Token (claimed_Lease c)) ∧
  task_ID (claimed_Task c) ∉ claim_ExcludeTaskIDs req.
Proof.
  intros HI Hc. pose proof (ClaimReadyTask_isolated wall req t) as [_ Hs]. destruct (Hs HI) as [HI' _].
  rewrite Hc in HI'. split; [done|].
  destruct (team_claim_ok _ _ _ _ _ HI Hc) as (task & s1 & wl & Hin & Hne & HI1 & Hk & Hcl & Hname).
  destruct (ClaimTask_claims _ _ _ _ _ _ HI1 Hcl) as [-> Ho]. split; [|done]. split; [|done].
  pose proof (ClaimTask_identity wl (task_ID task) req s1 HI1) as Hk'. rewrite Hcl in Hk'. rewrite Hname.
  eapply identity_mine; [exact Hk'|]. eapply identity_mine; [exact Hk|].
  destruct (elem_of_listTeamTasks _ _ _ HI Hin) as (Ht & Hm & _). by exists task.
Qed.

#[local, refine] Instance teamWorkerStore_laws : OrchStoreLaws Team := {|
  store_ok := λ t, Inv (team_store t);
  owns := team_owns;
|}.
Proof.
  - intros wall req t t' c HI Hc. by destruct (team_claim_owns _ _ _ _ _ HI Hc) as (? & ? & _).
  - intros wall req t t' c HI Hc. by apply (team_claim_owns _ _ _ _ _ HI Hc).
  - intros wall id tok o now t Hno.
    destruct (guarded_fenced id tok (CompleteTask wall id tok o now) t Hno) as (e & H1 & H2 & He);
      [intros Hno'; exact (complete_fenced (S := Store) wall id tok o now _ Hno')|].
    by exists e.
  - intros wall id tok re now t Hno.
    destruct (guarded_fenced id tok (FailTask wall id tok re now) t Hno) as (e & H1 & H2 & He);
      [intros Hno'; exact (fail_fenced (S := Store) wall id tok re now _ Hno')|].
    by exists e.
  - intros wall id tok t Hno.
    destruct (guarded_fenced id tok (ReleaseLease wall id tok) t Hno) as (e & H1 & H2 & He);
      [intros Hno'; exact (release_fenced (S := Store) wall id tok _ Hno')|].
    by exists e.
  - intros wall id tok ttl now t Hno Httl.
    destruct (guarded_fenced id tok (RenewLease wall id tok ttl now) t Hno) as (e & H1 & H2 & He);
      [intros Hno'; exact (renew_fenced (S := Store) wall id tok ttl now _ Hno' Httl)|].
    by exists e.
Defined.
End worker.
