(* ===== verification/TeamSafety.v ===== *)
(** * The life of teammates

    Work goes back to the team when a teammate leaves, a shutdown request is honoured
    once the current task is over, and a teammate works on one task at a time; and
    three situations in which a team does not do what it says. *)

From S2P Require Import Prelude Errors Usage OrchTypes MemStore MemCommands StoreInv StoreDeps StoreOps StoreLife StoreSafety StoreClaims StoreCommands Scheduler SchedulerSafety SchedulerFrame Runner Team TeamStore.

(** ** Updating the metadata of a task *)

(** A task before and after a metadata update of some task: nothing but metadata,
    dependency lists and the time of the update changes. *)
Definition relabelled (f : AnyMap → AnyMap) (a b : Task) : Prop :=
  task_ID b = task_ID a ∧ task_Kind b = task_Kind a ∧ task_Status b = task_Status a ∧
  task_Metadata b = f (task_Metadata a).
Definition relabelled_map (f : string → AnyMap → AnyMap) (m m' : gmap string Task) : Prop :=
  ∀ j, option_Forall2 (relabelled (f j)) (m !! j) (m' !! j).

Lemma relabelled_map_trans f g m1 m2 m3 :
  relabelled_map f m1 m2 → relabelled_map g m2 m3 → relabelled_map (λ j x, g j (f j x)) m1 m3.
Proof.
  intros H1 H2 j. specialize (H1 j). specialize (H2 j).
  inversion H1 as [a b (E1 & E2 & E3 & E4) Ea Eb|Ea Eb]; rewrite <- Eb in H2.
  - inversion H2 as [b' c (F1 & F2 & F3 & F4) Eb' Ec|]; subst. constructor. repeat split; congruence.
  - inversion H2. constructor.
Qed.

Lemma linked_map_relabelled self P Q m m' : linked_map self P Q m m' → relabelled_map (λ _ x, x) m m'.
Proof.
  intros H j. specialize (H j). inversion H as [a b [-> _ _]|]; constructor. done.
Qed.

Lemma UpdateTask_metadata wall id f s t :
  Inv s → st_tasks s !! id = Some t →
  ∃ s' t', UpdateTask wall (MkUpdateTaskRequest id None None [] [] f) s = (s', Ok t') ∧
    st_taskOrder s' = st_taskOrder s ∧
    relabelled_map (λ j x, if decide (j = id) then merge_metadata x f else x) (st_tasks s) (st_tasks s').
Proof.
  intros HI Ht. pose proof (Inv_task_key _ _ _ HI Ht) as Hkey.
  assert (id ≠ "") as Hne. { eapply issued_nonempty_task, (ti_tasks _ (inv_task _ HI) _ _ Ht). }
  unfold UpdateTask. cbn [utr_ID utr_AddBlocks utr_AddBlockedBy utr_Subject utr_Description utr_Metadata].
  rewrite (proj2 (String.eqb_neq _ _) Hne), Ht. cbn [validateTaskDependencies missing_dep].
  match goal with |- context [linkTaskDependencies _ (task_ID ?t0) _ _] => set (t1 := t0) end.
  assert (relabelled (λ x, merge_metadata x f) t t1) as Hr by done.
  assert (task_ID t1 = id) as -> by (destruct Hr as [-> _]; done). clearbody t1.
  destruct (linkTaskDependencies _ _ _ _) as [s' peers] eqn:Hl.
  apply linkTaskDependencies_linked in Hl as (m1 & _ & Hl & Hs'); [|done].
  apply linked_map_relabelled in Hl. cbn in Hl, Hs'.
  eexists _, _. split; [done|].
  match goal with |- context [publishTaskUpdates ?p ?s0] =>
    destruct (same_state_fields _ _ (publishTaskUpdates_same p s0)) as (-> & _ & _ & _ & ->) end.
  unfold publishTaskUpdated.
  match goal with |- context [publish ?e ?s0] => destruct (publish_fields e s0) as (-> & _ & _ & _ & ->) end.
  split; [by rewrite Hs'|]. cbn. intros j. specialize (Hl j). rewrite lookup_insert in Hl |- *.
  destruct (decide (id = j)) as [<-|Hj]; destruct (decide _); try done.
  - rewrite Ht.
    inversion Hl as [a b (E1 & E2 & E3 & E4) Ea Eb|]; subst. constructor.
    destruct Hr as (F1 & F2 & F3 & F4). unfold relabelled. cbn. repeat split; congruence.
Qed.

Lemma merge_metadata_delete k m : merge_metadata m {[ k := ANil ]} = delete k m.
Proof.
  apply map_eq. intros j. unfold merge_metadata. rewrite lookup_merge. unfold diag_None.
  destruct (decide (j = k)) as [->|Hne].
  - rewrite lookup_singleton_eq, lookup_delete_eq. by destruct (m !! k).
  - rewrite lookup_singleton_ne, lookup_delete_ne by done. by destruct (m !! j).
Qed.

(** ** Work goes back to the team *)

Section release.
Context (sprint_opaque : any → string).
Local Abbreviation listTeamTasks := (listTeamTasks sprint_opaque).
Local Abbreviation teamTaskAssignee := (teamTaskAssignee sprint_opaque).
Local Abbreviation isTeamTask := (isTeamTask sprint_opaque).
Local Abbreviation assigned_to := (assigned_to sprint_opaque).

Definition unassign (ids : list string) (j : string) (m : AnyMap) : AnyMap :=
  if decide (j ∈ ids) then delete teamMetadataAssignee m else m.

Lemma relabelled_map_ext f g m m' :
  (∀ j x, f j x = g j x) → relabelled_map f m m' → relabelled_map g m m'.
Proof.
  intros E H j. specialize (H j). inversion H as [a b (H1 & H2 & H3 & H4)|]; constructor.
  repeat split; [done..|]. by rewrite H4.
Qed.

Lemma relabelled_dom f m m' j : relabelled_map f m m' → is_Some (m !! j) → is_Some (m' !! j).
Proof. intros H [t Ht]. specialize (H j). rewrite Ht in H. inversion H; eauto. Qed.

(** The loop never fails and unassigns exactly the given tasks of the teammate. *)
Lemma release_tasks_spec wall n name tasks t :
  Inv (team_store t) → (∀ task, task ∈ tasks → is_Some (st_tasks (team_store t) !! task_ID task)) →
  ∃ s', release_tasks sprint_opaque wall n name tasks t = (t <| team_store := s' |>, None) ∧ Inv s' ∧
    st_taskOrder s' = st_taskOrder (team_store t) ∧
    relabelled_map (unassign (task_ID <$> List.filter (assigned_to name) tasks)) (st_tasks (team_store t)) (st_tasks s').
Proof.
  revert n t. induction tasks as [|task tasks IH]; intros n t HI Hin; cbn [release_tasks List.filter].
  { exists (team_store t). split; [by destruct t|]. do 2 (split; [done|]). intros j.
    destruct (st_tasks (team_store t) !! j); constructor. by repeat split. }
  unfold TeamStore.assigned_to at 1. destruct (String.eqb (teamTaskAssignee task) name).
  2: { apply IH; [done|]. intros. apply Hin. set_solver. }
  destruct (Hin task) as [tk Htk]; [set_solver|]. unfold on_store.
  set (wl := λ i, wall (n + i)%nat). set (req := MkUpdateTaskRequest _ _ _ _ _ _).
  destruct (UpdateTask_metadata wl (task_ID task) {[ teamMetadataAssignee := ANil ]} (team_store t) tk HI Htk)
    as (s1 & t1 & Hu & Ho1 & Hr1). fold req in Hu.
  pose proof (run_op_Inv wl (OpUpdateTask req) (team_store t) HI) as HI1. cbn in HI1. rewrite Hu in HI1 |- *.
  destruct (IH (Datatypes.S n) (t <| team_store := s1 |>)) as (s2 & Hs2 & HI2 & Ho2 & Hr2); [done|..].
  { intros task' Hin'. cbn. eapply relabelled_dom; [exact Hr1|]. apply Hin. set_solver. }
  exists s2. split; [exact Hs2|]. split; [done|]. split; [by rewrite Ho2|].
  eapply relabelled_map_ext; [|exact (relabelled_map_trans _ _ _ _ _ Hr1 Hr2)].
  intros j x. cbn beta. unfold unassign. cbn [fmap list_fmap].
  destruct (decide (j = task_ID task)) as [->|Hne].
  - rewrite merge_metadata_delete, (decide_True (P := task_ID task ∈ task_ID task :: _)) by set_solver.
    case_decide; [|done]. by rewrite delete_delete_eq.
  - apply decide_ext. set_solver.
Qed.

Lemma listed_team_task sts t task :
  Inv (team_store t) → st_tasks (team_store t) !! task_ID task = Some task →
  isTeamTask (team_name t) task = true → matchesStatuses task sts = true → task ∈ listTeamTasks sts t.
Proof.
  intros HI Ht Hm Hs. apply list_elem_of_In, List.filter_In. split; [|done].
  apply list_elem_of_In, elem_of_ListTasks; [done|]. split; [done|]. unfold matchesFilter.
  cbn [tf_Statuses tf_Kinds]. rewrite Hs, andb_true_r.
  unfold Team.isTeamTask in Hm. apply andb_true_iff in Hm as [Hk%String.eqb_eq _]. cbn.
  unfold matchesKinds. rewrite Hk. cbn. done.
Qed.

Lemma unassigned_assignee (a b : Task) :
  task_Metadata b = delete teamMetadataAssignee (task_Metadata a) → teamTaskAssignee b = "".
Proof.
  intros E. unfold Team.teamTaskAssignee, metadataString. by rewrite E, lookup_delete_eq.
Qed.

(** The tasks after those of [name] have been unassigned. *)
Lemma release_effect name t t' :
  Inv (team_store t) → Inv (team_store t') → team_name t' = team_name t →
  relabelled_map (unassign (task_ID <$> List.filter (assigned_to name) (listTeamTasks [TaskPending] t)))
    (st_tasks (team_store t)) (st_tasks (team_store t')) → name ≠ "" →
  (∀ task, task ∈ listTeamTasks [TaskPending] t' → teamTaskAssignee task ≠ name) ∧
  ∀ id task, st_tasks (team_store t) !! id = Some task → ∃ task',
    st_tasks (team_store t') !! id = Some task' ∧ task_Status task' = task_Status task ∧
    (task ∈ listTeamTasks [TaskPending] t → teamTaskAssignee task = name → teamTaskAssignee task' = "") ∧
    (teamTaskAssignee task ≠ name → teamTaskAssignee task' = teamTaskAssignee task).
Proof.
  intros HI HI' En Hr Hname.
  set (ids := task_ID <$> List.filter (assigned_to name) (listTeamTasks [TaskPending] t)) in *.
  assert (Hids : ∀ id task, st_tasks (team_store t) !! id = Some task → task ∈ listTeamTasks [TaskPending] t →
    teamTaskAssignee task = name → id ∈ ids).
  { intros id task Ht Hin Ha. rewrite <- (Inv_task_key _ _ _ HI Ht). apply list_elem_of_fmap_2, list_elem_of_In,
      List.filter_In. split; [by apply list_elem_of_In|]. by apply String.eqb_eq. }
  assert (Hown : ∀ id task, st_tasks (team_store t) !! id = Some task → id ∈ ids → teamTaskAssignee task = name).
  { intros id task Ht (task' & -> & [Hin Ha]%list_elem_of_In%List.filter_In)%list_elem_of_fmap.
    apply list_elem_of_In in Hin. destruct (elem_of_listTeamTasks _ _ _ _ HI Hin) as [Ht' _]. simplify_eq.
    by apply String.eqb_eq. }
  split.
  - intros task' Hin. match type of Hin with _ ∈ listTeamTasks _ ?t2 =>
      destruct (elem_of_listTeamTasks _ _ t2 _ HI' Hin) as (Ht' & Hm & Hst) end.
    specialize (Hr (task_ID task')). rewrite Ht' in Hr. inversion Hr as [a b (E1 & E2 & E3 & E4) Ea Eb|]; subst.
    symmetry in Ea. unfold unassign in E4. case_decide as Hd; [by rewrite (unassigned_assignee a _ E4)|].
    intros Ha. apply Hd, (Hids _ a Ea).
    + apply listed_team_task; [done| | |].
      * by rewrite <- E1.
      * rewrite <- En. unfold Team.isTeamTask, teamTaskName, metadataString in *. by rewrite <- E2, <- E4.
      * unfold matchesStatuses in *. by rewrite <- E3.
    + unfold Team.teamTaskAssignee, metadataString in *. by rewrite <- E4.
  - intros id task Ht. specialize (Hr id). rewrite Ht in Hr.
    inversion Hr as [a b (E1 & E2 & E3 & E4) Ea Eb|]; subst. exists b. do 2 (split; [done|]). unfold unassign in E4. split.
    + intros Hin Ha. rewrite decide_True in E4 by (by eapply Hids). by eapply unassigned_assignee.
    + intros Ha. rewrite decide_False in E4 by (intros Hd; by eapply Ha, Hown).
      unfold Team.teamTaskAssignee, metadataString. by rewrite E4.
Qed.

(** A teammate that leaves gives its work back: when its goroutine ends, it is no
    longer a member, no pending task of the team is assigned to it any more, every
    task that was is free for all, and tasks of other teammates keep their assignee
    and every task its status. *)
Theorem exit_returns_work wall ctxEnded name t tm :
  Inv (team_store t) → GetTeammate name t = Some tm → name ≠ "" →
  let t' := teammate_exit sprint_opaque wall ctxEnded name t in
  GetTeammate name t' = None ∧
  (∀ task, task ∈ listTeamTasks [TaskPending] t' → teamTaskAssignee task ≠ name) ∧
  ∀ id task, st_tasks (team_store t) !! id = Some task → ∃ task',
    st_tasks (team_store t') !! id = Some task' ∧ task_Status task' = task_Status task ∧
    (task ∈ listTeamTasks [TaskPending] t → teamTaskAssignee task = name → teamTaskAssignee task' = "") ∧
    (teamTaskAssignee task ≠ name → teamTaskAssignee task' = teamTaskAssignee task).
Proof.
  intros HI Htm Hname. unfold teammate_exit. rewrite Htm. unfold removeTeammate, releaseAssignedTasks.
  rewrite (proj2 (String.eqb_neq _ _) Hname).
  match goal with |- context [release_tasks _ _ _ _ (listTeamTasks _ ?t1) _] => set (t1' := t1) end.
  assert (team_name t1' = team_name t ∧ team_store t1' = team_store t ∧ team_members t1' !! name = None) as (En & Es & Em).
  { unfold t1', team_publish. cbn. destruct (team_bus t); cbn; by rewrite lookup_delete_eq. }
  clearbody t1'. pose proof HI as HI1. rewrite <- Es in HI1.
  destruct (release_tasks_spec wall 0 name (listTeamTasks [TaskPending] t1') t1' HI1) as (s' & -> & HI' & Ho & Hr).
  { intros task Hin. destruct (elem_of_listTeamTasks _ _ _ _ HI1 Hin) as [Ht _]. eauto. }
  assert (listTeamTasks [TaskPending] t1' = listTeamTasks [TaskPending] t) as El.
  { unfold Team.listTeamTasks. by rewrite En, Es. }
  rewrite El, Es in Hr. split; [exact Em|].
  by apply release_effect.
Qed.
End release.

(** ** Shutdown *)

(** What can happen to a teammate while it works on task [id]: requests to shut down,
    the end of its run, the end of the task in the store, and an abort by its own tool. *)
Inductive TmOp :=
| TmShutdown (id from reason correlationID : string)
| TmRunEnded
| TmSettled
| TmEndRun
| TmAbort (cause : error).
#[export] Instance TmOp_eq_dec : EqDecision TmOp.
Proof. solve_decision. Defined.

Definition run_tm (taskID : string) (op : TmOp) (tm : Teammate) : Teammate :=
  match op with
  | TmShutdown id from reason correlationID => (requestShutdown id from reason correlationID tm).1
  | TmRunEnded => (markTaskProgress taskID true false tm).1
  | TmSettled => (markTaskProgress taskID false true tm).1
  | TmEndRun => tm_endRun tm
  | TmAbort cause => (abortCurrentRun cause tm).1
  end.
Definition run_tms (taskID : string) (ops : list TmOp) (tm : Teammate) : Teammate :=
  foldl (λ tm op, run_tm taskID op tm) tm ops.

Definition is_shutdown (op : TmOp) : bool := match op with TmShutdown _ _ _ _ => true | _ => false end.

(** Working on the task, with the parts of its end that have happened; and done. *)
Definition busy (taskID : string) (runEnded settled : bool) (tm : Teammate) : Prop :=
  tm_state tm = TeammateRunning ∧
  ∃ a, tm_active tm = Some a ∧ at_TaskID a = taskID ∧ at_runEnded a = runEnded ∧ at_settled a = settled.
Definition over (tm : Teammate) : Prop :=
  tm_active tm = None ∧
  match tm_shutdown tm with
  | Some _ => tm_state tm = TeammateShuttingDown ∧ tm_stopped tm = true
  | None => tm_state tm = TeammateIdle
  end.
Definition stage (taskID : string) (runEnded settled : bool) (tm : Teammate) : Prop :=
  if runEnded && settled then over tm else busy taskID runEnded settled tm.

Lemma stage_step taskID op re se tm :
  stage taskID re se tm →
  stage taskID (re || bool_decide (op = TmRunEnded)) (se || bool_decide (op = TmSettled)) (run_tm taskID op tm).
Proof.
  unfold stage. destruct (re && se) eqn:E.
  - apply andb_true_iff in E as [-> ->]. cbn. unfold over. intros [Ha Hs].
    destruct op; cbn; unfold requestShutdown, markTaskProgress, tm_endRun, abortCurrentRun; rewrite ?Ha; cbn.
    + destruct (tm_shutdown tm) as [r|] eqn:Er; cbn; [by rewrite Er|]. by rewrite Hs.
    + done.
    + done.
    + done.
    + by destruct (tm_runCancel tm) as [[c|]|].
  - intros (Hst & a & Ha & Hid & <- & <-). unfold busy, over.
    destruct op; cbn; unfold requestShutdown, markTaskProgress, tm_endRun, abortCurrentRun; rewrite ?orb_false_r, ?E.
    + destruct (tm_shutdown tm); cbn; [eauto 8|]. rewrite Hst. cbn. eauto 8.
    + rewrite Ha, Hid, String.eqb_refl, orb_true_r. cbn. destruct (at_settled a) eqn:Es; cbn; [|eauto 8].
      by destruct (tm_shutdown tm) eqn:Er; cbn; rewrite ?Er.
    + rewrite Ha, Hid, String.eqb_refl, orb_true_r, andb_true_r. cbn.
      destruct (at_runEnded a) eqn:Es; cbn; [|eauto 8].
      by destruct (tm_shutdown tm) eqn:Er; cbn; rewrite ?Er.
    + eauto 8.
    + destruct (tm_runCancel tm) as [[c|]|]; cbn; eauto 8.
Qed.

Lemma run_tm_shutdown taskID op tm :
  is_Some (tm_shutdown (run_tm taskID op tm)) ↔ is_Some (tm_shutdown tm) ∨ is_shutdown op = true.
Proof.
  destruct op; cbn; unfold requestShutdown, markTaskProgress, tm_endRun, abortCurrentRun;
    repeat case_match; simplify_eq/=; rewrite ?is_Some_alt in *; repeat case_match; naive_solver.
Qed.

Lemma decide_cons (x op : TmOp) ops :
  bool_decide (x ∈ op :: ops) = bool_decide (op = x) || bool_decide (x ∈ ops).
Proof. repeat case_bool_decide; set_solver. Qed.

Lemma stage_steps taskID ops re se tm :
  stage taskID re se tm →
  stage taskID (re || bool_decide (TmRunEnded ∈ ops)) (se || bool_decide (TmSettled ∈ ops)) (run_tms taskID ops tm).
Proof.
  revert re se tm. induction ops as [|op ops IH]; intros re se tm H; cbn [run_tms foldl].
  - rewrite !bool_decide_eq_false_2 by set_solver. by rewrite !orb_false_r.
  - apply (stage_step _ op) in H. apply IH in H. unfold run_tms in H. rewrite <- !orb_assoc in H.
    by rewrite !decide_cons.
Qed.

(** A shutdown request is honoured as soon as the current task is over, and not
    before: whatever happens to a teammate that works on a task, once its run has ended
    and the task is settled in the store, in either order, it has no task; it is
    stopped if a shutdown was requested at any time, and idle otherwise; and as long as
    one of the two is missing it stays at work. *)
Theorem shutdown_after_task taskID ops tm :
  busy taskID false false tm →
  let tm' := run_tms taskID ops tm in
  (TmRunEnded ∈ ops → TmSettled ∈ ops → over tm') ∧
  (¬ (TmRunEnded ∈ ops ∧ TmSettled ∈ ops) →
     busy taskID (bool_decide (TmRunEnded ∈ ops)) (bool_decide (TmSettled ∈ ops)) tm') ∧
  (is_Some (tm_shutdown tm') ↔ is_Some (tm_shutdown tm) ∨ existsb is_shutdown ops = true).
Proof.
  intros Hb tm'. pose proof (stage_steps taskID ops false false tm Hb) as H. cbn [orb] in H. fold tm' in H.
  split_and!.
  - intros H1 H2. unfold stage in H. by rewrite !bool_decide_eq_true_2 in H.
  - intros Hn. unfold stage in H. destruct (_ && _) eqn:E; [|done]. destruct Hn.
    by rewrite andb_true_iff, !bool_decide_eq_true in E.
  - unfold tm'. clear. revert tm. induction ops as [|op ops IH]; intros tm; cbn; [naive_solver|].
    unfold run_tms in IH. rewrite IH, run_tm_shutdown, orb_true_iff. tauto.
Qed.

Lemma createTeamTask_Inv wall subject description assignee by_ t :
  Inv (team_store t) → Inv (team_store (createTeamTask wall subject description assignee by_ t).1).
Proof.
  intros HI. unfold createTeamTask, on_store. repeat (case_match; [done|]).
  match goal with |- context [CreateTask ?wl ?req ?s0] =>
    assert (Inv (CreateTask wl req s0).1) as HI' by exact (run_op_Inv wl (OpCreateTask req) s0 HI);
    by destruct (CreateTask wl req s0) end.
Qed.
Lemma SpawnTeammate_Inv wall runID name task t :
  Inv (team_store t) → Inv (team_store (SpawnTeammate wall runID name task t).1).
Proof.
  intros HI. unfold SpawnTeammate. repeat (destruct (_ : bool); [done|]).
  match goal with |- context [createTeamTask ?wl ?a ?b ?c ?d ?t0] =>
    pose proof (createTeamTask_Inv wl a b c d t0 HI) as HI'; destruct (createTeamTask wl a b c d t0) as [t1 [x|e]] end.
  - cbn. by rewrite !(proj1 (proj2 (team_publish_fields _ _))).
  - done.
Qed.

(** ** Situations *)

Module Teams.
Definition opaque (_ : any) : string := "?".
Definition at_ (t : Time) (_ : nat) : Time := t.
(** A team with two teammates, the first of which has claimed its initial task and
    works on it; there is also a task of another kind, held by someone else. *)
Definition store : Store :=
  run_ops (at_ 10) [OpCreateTask (MkCreateTaskRequest "build" "other" "" "" [] [] 0 ∅);
                    OpClaimTask "task-1" (MkClaimTaskRequest "ci" 1000 11 [] [])] (NewStore true).
Definition spawned : Team :=
  (SpawnTeammate (at_ 13) "" "bob" "review" (SpawnTeammate (at_ 12) "" "ann" "write" (NewTeam "core" "" true (Some store))).1).1.
Definition request (name : string) (now : Time) : ClaimTaskRequest := MkClaimTaskRequest name teamTaskLeaseTTL now [] [].
Definition claimed : Team * res ClaimedTask := team_ClaimReadyTask opaque "ann" (at_ 20) (request "ann" 20) spawned.
Definition claim : ClaimedTask :=
  match claimed.2 with
  | Ok c => c
  | Err _ => MkClaimedTask (MkTask "" "" "" "" "" TaskPending 0 0 [] [] ∅ None None "" 0 0 0 0)
               (MkLease "" "" "" "" 0 0) None
  end.
Definition working : Team := begin_task "ann" claim claimed.1.
(** The task is deleted behind the back of the teammate; its run ends. *)
Definition deleted : Team := (on_store (DeleteTask (at_ 30) "task-2") working).1.
Definition tried : Team * res Task := team_CompleteTask opaque "ann" (at_ 31) "task-2" "lease-2" None 31 deleted.
Definition stuck : Team := Shutdown (λ name, name) (end_task "ann" claim tried.1).
(** An operator cancels the task of [ann]; before she sees the command she is stopped,
    so that her task goes back to the queue, where [bob] finds it after his own. *)
Definition commanded : Team :=
  (on_store (CreateCommand (at_ 40) (MkCreateCommandRequest CommandCancelTask "task-2" "" "stop" ∅)) working).1.
Definition left_behind : Team :=
  teammate_exit opaque (at_ 42) true "ann"
    (end_task "ann" claim (team_ReleaseLease opaque "ann" (at_ 41) "task-2" "lease-2" commanded).1).
Definition taken : Team :=
  let t := (team_ClaimReadyTask opaque "bob" (at_ 50) (request "bob" 50) left_behind).1 in
  let t := (team_CompleteTask opaque "bob" (at_ 51) "task-3" "lease-3" None 51 t).1 in
  (team_ClaimReadyTask opaque "bob" (at_ 52) (request "bob" 52) t).1.
End Teams.

Lemma spawned_Inv : Inv (team_store Teams.spawned).
Proof. do 2 apply SpawnTeammate_Inv. apply reachable_inv, run_ops_reachable. Qed.

(** A command that was addressed to one teammate is lost for the next one that runs the
    task: the worker store looks for commands by the worker they were addressed to when
    they were created, while the store itself would deliver the command. *)
Lemma stale_target_hides_command :
  (∃ task run, st_tasks (team_store Teams.taken) !! "task-2" = Some task ∧ task_Status task = TaskRunning ∧
     task_Run task = Some run ∧ run_WorkerID run = "bob") ∧
  (∀ name, name = "bob" ∨ name = "carol" →
     (team_ClaimPendingCommand Teams.opaque (Teams.at_ 60) (MkClaimCommandRequest name 60) Teams.taken).2
     = Err ErrNoPendingCommand) ∧
  ∃ c, (ClaimPendingCommand (Teams.at_ 60) (MkClaimCommandRequest "bob" 60) (team_store Teams.taken)).2 = Ok c ∧
    cmd_TaskID c = "task-2" ∧ cmd_Kind c = CommandCancelTask.
Proof.
  split; [|split].
  - eexists _, _. split; [vm_compute; reflexivity|]. done.
  - intros name [-> | ->]; vm_compute; reflexivity.
  - eexists. split; [vm_compute; reflexivity|]. done.
Qed.

(** A teammate whose task is deleted while it runs is never settled: the store refuses
    its result, and a later shutdown request is recorded but not acted on, so
    [Shutdown] waits until its own context ends. *)
Lemma deleted_task_blocks_shutdown :
  Teams.tried.2 = Err ErrTaskNotFound ∧
  ∃ tm a, GetTeammate "ann" Teams.stuck = Some tm ∧ tm_active tm = Some a ∧ at_runEnded a = true ∧
    is_Some (tm_shutdown tm) ∧ tm_stopped tm = false ∧ tm_state tm = TeammateRunning ∧
    team_wg Teams.stuck = 2.
Proof.
  split; [vm_compute; reflexivity|]. eexists _, _. split; [vm_compute; reflexivity|].
  split; [reflexivity|]. split; [reflexivity|]. split; [eexists; reflexivity|]. done.
Qed.

(** A shutdown request that arrives after the task has been claimed but before the
    teammate counts as running stops it at once, although its task has not completed. *)
Lemma shutdown_stops_claimed_task id from reason correlationID claim tm :
  tm_state tm = TeammateIdle ∨ tm_state tm = TeammateStarting → tm_shutdown tm = None →
  let tm' := (requestShutdown id from reason correlationID (setActiveClaim claim tm)).1 in
  tm_stopped tm' = true ∧ is_Some (tm_active tm').
Proof.
  intros Hst Hs. unfold requestShutdown, setActiveClaim. cbn. rewrite Hs. destruct Hst as [-> | ->]; cbn; eauto.
Qed.

(** ** Instances *)

Definition ann_at_work : Teammate := default new_teammate (GetTeammate "ann" Teams.working).

Lemma shutdown_after_task_witness :
  over (run_tms "task-2" [TmSettled; TmShutdown "r1" "leader" "" ""; TmEndRun; TmRunEnded] ann_at_work).
Proof.
  refine (proj1 (shutdown_after_task "task-2" _ ann_at_work _) _ _).
  - vm_compute. split; [reflexivity|]. eexists. repeat split.
  - apply list_elem_of_In. cbn. auto.
  - apply list_elem_of_In. cbn. auto.
Defined.

Lemma exit_returns_work_witness :
  let t' := teammate_exit Teams.opaque (Teams.at_ 30) true "bob" Teams.spawned in
  GetTeammate "bob" t' = None ∧
  ∃ task, st_tasks (team_store Teams.spawned) !! "task-3" = Some task ∧
    teamTaskAssignee Teams.opaque task = "bob" ∧
    ∃ task', st_tasks (team_store t') !! "task-3" = Some task' ∧ teamTaskAssignee Teams.opaque task' = "".
Proof.
  destruct (exit_returns_work Teams.opaque (Teams.at_ 30) true "bob" Teams.spawned new_teammate spawned_Inv
    ltac:(vm_compute; reflexivity) ltac:(discriminate)) as (H1 & _ & H3).
  split; [exact H1|]. eexists. split; [vm_compute; reflexivity|]. split; [vm_compute; reflexivity|].
  edestruct (H3 "task-3") as (task' & Ht' & _ & Ha & _); [vm_compute; reflexivity|].
  exists task'. split; [exact Ht'|]. apply Ha; [|vm_compute; reflexivity].
  apply list_elem_of_In. vm_compute. right. left. reflexivity.
Defined.

Lemma team_ClaimReadyTask_first_witness :
  own_ids Teams.opaque "bob" Teams.spawned ++ free_ids Teams.opaque Teams.spawned = ["task-3"] ∧
  ∃ s' c, team_ClaimReadyTask Teams.opaque "bob" (Teams.at_ 20) (Teams.request "bob" 20) Teams.spawned
          = (Teams.spawned <| team_store := s' |>, Ok c) ∧ task_ID (claimed_Task c) = "task-3".
Proof.
  assert (E : own_ids Teams.opaque "bob" Teams.spawned ++ free_ids Teams.opaque Teams.spawned = ["task-3"])
    by (vm_compute; reflexivity).
  split; [exact E|].
  pose proof (team_ClaimReadyTask_first Teams.opaque "bob" (Teams.at_ 20) (Teams.request "bob" 20) Teams.spawned
    spawned_Inv ltac:(discriminate) ltac:(reflexivity) ltac:(discriminate)) as H. cbv zeta in H. rewrite E in H.
  replace (List.find _ ["task-3"]) with (Some "task-3") in H by (vm_compute; reflexivity).
  destruct H as (task & s' & c & _ & Hc & Hn & _). exists s', c. split; [exact Hc|]. exact (proj1 (proj2 (proj2 Hn))).
Defined.

Lemma teammate_isolated_witness :
  let cfg := MkSchedulerConfig "ann" 1 teamTaskLeaseTTL 1 1 1 1 in
  let w' := (run_iteration (H := teamWorkerStore Teams.opaque "ann") (Teams.at_ 2000) cfg None 2 0 (NewWorld Teams.spawned)).1 in
  size (sd_runs (w_sched w')) = 1%nat ∧
  st_tasks (team_store (w_store w')) !! "task-1" = st_tasks (team_store Teams.spawned) !! "task-1" ∧
  st_leases (team_store (w_store w')) !! "task-1" = st_leases (team_store Teams.spawned) !! "task-1".
Proof.
  intros cfg w'. split; [vm_compute; reflexivity|].
  apply (proj1 (teammate_isolated Teams.opaque "ann" (Teams.at_ 2000) cfg None (λ _ _, False)
    (NewWorld Teams.spawned) (idle w') ltac:(intros ?? []) ltac:(apply run_iteration_steps) spawned_Inv)).
  intros (task & Ht & Hm). vm_compute in Ht. injection Ht as <-. vm_compute in Hm. discriminate Hm.
Defined.
