(* ===== verification/TimeText.v ===== *)
(** * The RFC 3339 text of a time

    What the SQLite store (src/ext/orchestrator/sqlite/store.go) relies on of package
    time: the layout [time.RFC3339Nano], in which times are written into text columns
    and into JSON, and the parser that reads it back.  A column is compared byte by
    byte, so the order of the texts matters: it is chronological between different
    seconds, and not within one.

    Days are counted from 1 January of year 1, Go's zero time, in the proleptic
    Gregorian calendar.  Times are instants and are written in UTC. *)

From S2P Require Import Prelude Errors Json.

Definition nanos : Z := 1000000000.
Definition day_seconds : Z := 86400.

(** ** Calendar *)

Definition is_leap (y : Z) : bool := (y mod 4 =? 0) && (negb (y mod 100 =? 0) || (y mod 400 =? 0)).

(** The days of the year before each month. *)
Definition month_starts (leap : bool) : list Z :=
  let l := if leap then 1 else 0 in
  [0; 31; 59 + l; 90 + l; 120 + l; 151 + l; 181 + l; 212 + l; 243 + l; 273 + l; 304 + l; 334 + l].
Definition month_start (leap : bool) (m : Z) : Z := nth (Z.to_nat (m - 1)) (month_starts leap) 0.
Definition month_of (leap : bool) (yday : Z) : Z :=
  Z.of_nat (length (List.filter (λ s, s <=? yday) (month_starts leap))).

Definition cycle_days : Z := 146097.
(** The year, and the day in it: cycles of 400, 100, 4 and 1 years. *)
Definition year_split (day : Z) : Z * Z :=
  let n400 := day / cycle_days in
  let d := day mod cycle_days in
  let n100 := Z.min (d / 36524) 3 in
  let d := d - n100 * 36524 in
  let n4 := d / 1461 in
  let d := d - n4 * 1461 in
  let n1 := Z.min (d / 365) 3 in
  (400 * n400 + 100 * n100 + 4 * n4 + n1 + 1, d - n1 * 365).
Definition month_day (leap : bool) (yday : Z) : Z * Z :=
  let m := month_of leap yday in (m, yday - month_start leap m + 1).
Definition civil_of_day (day : Z) : Z * Z * Z :=
  let '(y, yday) := year_split day in
  let '(m, d) := month_day (is_leap y) yday in (y, m, d).
Definition year_start (y : Z) : Z := 365 * (y - 1) + (y - 1) / 4 - (y - 1) / 100 + (y - 1) / 400.
Definition day_of_civil (c : Z * Z * Z) : Z :=
  let '(y, m, d) := c in year_start y + month_start (is_leap y) m + d - 1.

(** A number that orders dates. *)
Definition date_key (c : Z * Z * Z) : Z := let '(y, m, d) := c in y * 10000 + m * 100 + d.

(** ** Digits *)

Definition digit (n : Z) : string := byte_string [(48 + Z.to_nat n)%nat].
Fixpoint pad (w : nat) (n : Z) : string :=
  match w with
  | O => ""
  | S w => digit (n / 10 ^ Z.of_nat w) +:+ pad w (n mod 10 ^ Z.of_nat w)
  end.
Definition pad_min (w : nat) (n : Z) : string := if n <? 10 ^ Z.of_nat w then pad w n else itoa n.
Definition year_text (y : Z) : string :=
  if y <? 0 then "-" +:+ pad_min 4 (- y) else pad_min 4 y.

Definition zero_digit : Ascii.ascii := Ascii.ascii_of_nat 48.
Fixpoint trim_zeros (s : string) : string :=
  match s with
  | EmptyString => ""
  | String a s =>
    match trim_zeros s with
    | EmptyString => if Ascii.eqb a zero_digit then "" else String a ""
    | r => String a r
    end
  end.

(** ** The layout *)

Definition date_text (c : Z * Z * Z) : string :=
  let '(y, m, d) := c in year_text y +:+ "-" +:+ pad 2 m +:+ "-" +:+ pad 2 d.
Definition clock_text (sod : Z) : string :=
  pad 2 (sod / 3600) +:+ ":" +:+ pad 2 (sod mod 3600 / 60) +:+ ":" +:+ pad 2 (sod mod 60).
Definition fraction_text (ns : Z) : string :=
  if ns =? 0 then "" else "." +:+ trim_zeros (pad 9 ns).
Definition second_text (sec : Z) : string :=
  date_text (civil_of_day (sec / day_seconds)) +:+ "T" +:+ clock_text (sec mod day_seconds).
(** [t.UTC().Format(time.RFC3339Nano)]. *)
Definition FormatRFC3339Nano (t : Time) : string :=
  second_text (t / nanos) +:+ fraction_text (t mod nanos) +:+ "Z".

(** ** Parsing *)

Definition digit_value (a : Ascii.ascii) : option Z :=
  let n := Ascii.nat_of_ascii a in
  if ((48 <=? n) && (n <=? 57))%nat then Some (Z.of_nat n - 48) else None.
Fixpoint parse_digits (w : nat) (acc : Z) (s : string) : option (Z * string) :=
  match w, s with
  | O, _ => Some (acc, s)
  | S w, String a s => v ← digit_value a; parse_digits w (10 * acc + v) s
  | S _, EmptyString => None
  end.
(** The digits of a fraction and the closing [Z]; further digits are not written. *)
Fixpoint parse_fraction (w : nat) (acc : Z) (s : string) : option Z :=
  if String.eqb s "Z" then Some (acc * 10 ^ Z.of_nat w) else
  match w, s with
  | S w, String a s => v ← digit_value a; parse_fraction w (10 * acc + v) s
  | _, _ => None
  end.
Definition parse_tail (s : string) : option Z :=
  if String.eqb s "Z" then Some 0
  else s ← strip_prefix "." s; parse_fraction 9 0 s.
Definition parse_rfc3339 (s : string) : option Time :=
  '(y, s) ← parse_digits 4 0 s; s ← strip_prefix "-" s;
  '(m, s) ← parse_digits 2 0 s; s ← strip_prefix "-" s;
  '(d, s) ← parse_digits 2 0 s; s ← strip_prefix "T" s;
  '(h, s) ← parse_digits 2 0 s; s ← strip_prefix ":" s;
  '(mi, s) ← parse_digits 2 0 s; s ← strip_prefix ":" s;
  '(sec, s) ← parse_digits 2 0 s;
  ns ← parse_tail s;
  Some ((day_of_civil (y, m, d) * day_seconds + h * 3600 + mi * 60 + sec) * nanos + ns).

(** [time.Time.MarshalJSON] refuses years outside 0 to 9999. *)
Definition year_of (t : Time) : Z := (civil_of_day (t / nanos / day_seconds)).1.1.
Definition time_encodes (t : Time) : bool := (0 <=? year_of t) && (year_of t <=? 9999).
#[export] Instance rfc3339nano : TimeFormat := {|
  format_time := λ t, if time_encodes t then Ok (FormatRFC3339Nano t)
                      else Err (ENew "Time.MarshalJSON: year outside of range [0,9999]");
  parse_time := λ s, match parse_rfc3339 s with
                     | Some t => Ok t
                     | None => Err (ENew "parsing time as RFC3339: cannot parse")
                     end;
|}.

(** ** The calendar is a bijection and keeps the order *)

Lemma year_split_spec day :
  let '(y, yday) := year_split day in
  year_start y + yday = day ∧ 0 ≤ yday < 365 + (if is_leap y then 1 else 0).
Proof.
  unfold year_split.
  set (n400 := day / cycle_days). set (r := day mod cycle_days).
  set (n100 := Z.min (r / 36524) 3). set (d1 := r - n100 * 36524).
  set (n4 := d1 / 1461). set (d2 := d1 - n4 * 1461). set (n1 := Z.min (d2 / 365) 3).
  assert (day = cycle_days * n400 + r ∧ 0 ≤ r < cycle_days) as [Hday Hr].
  { unfold n400, r, cycle_days. Z.to_euclidean_division_equations; lia. }
  assert (0 ≤ n100 ≤ 3 ∧ 0 ≤ d1 < 36525 ∧ (n100 < 3 → d1 < 36524)) as (H100 & Hd1 & Hd1').
  { unfold n100, d1, cycle_days in *. Z.to_euclidean_division_equations; lia. }
  assert (0 ≤ n4 ≤ 24 ∧ 0 ≤ d2 < 1461 ∧ (n4 = 24 → n100 < 3 → d2 < 1460)) as (H4 & Hd2 & Hd2').
  { unfold n4, d2 in *. Z.to_euclidean_division_equations; lia. }
  assert (0 ≤ n1 ≤ 3 ∧ 0 ≤ d2 - n1 * 365 < 366 ∧ (n1 < 3 → d2 - n1 * 365 < 365)) as (H1 & Hy & Hy').
  { unfold n1 in *. Z.to_euclidean_division_equations; lia. }
  clearbody n400 n100 n4 n1. unfold cycle_days in *.
  assert (400 * n400 + 100 * n100 + 4 * n4 + n1 + 1 - 1 = 400 * n400 + 100 * n100 + 4 * n4 + n1) as Ey by lia.
  unfold year_start. rewrite Ey.
  replace ((400 * n400 + 100 * n100 + 4 * n4 + n1) / 4) with (100 * n400 + 25 * n100 + n4)
    by (Z.to_euclidean_division_equations; lia).
  replace ((400 * n400 + 100 * n100 + 4 * n4 + n1) / 100) with (4 * n400 + n100)
    by (Z.to_euclidean_division_equations; lia).
  replace ((400 * n400 + 100 * n100 + 4 * n4 + n1) / 400) with n400
    by (Z.to_euclidean_division_equations; lia).
  split; [unfold d2, d1; lia|]. split; [lia|].
  destruct (is_leap _) eqn:El; [lia|].
  enough (n1 < 3 ∨ (n1 = 3 ∧ n4 = 24 ∧ n100 < 3)) by (clear Ey; lia).
  apply andb_false_iff in El as [El|El].
  - left. apply Z.eqb_neq in El. Z.to_euclidean_division_equations; lia.
  - apply orb_false_iff in El as [E1 E2]. apply negb_false_iff, Z.eqb_eq in E1. apply Z.eqb_neq in E2.
    Z.to_euclidean_division_equations; lia.
Qed.

Lemma year_start_step y : year_start (y + 1) = year_start y + 365 + (if is_leap y then 1 else 0).
Proof.
  unfold year_start, is_leap. replace (y + 1 - 1) with y by lia.
  destruct (Z.eqb_spec (y mod 4) 0); destruct (Z.eqb_spec (y mod 100) 0); destruct (Z.eqb_spec (y mod 400) 0);
    simpl; Z.to_euclidean_division_equations; lia.
Qed.
Lemma year_start_mono y y' : y < y' → year_start y + 365 + (if is_leap y then 1 else 0) ≤ year_start y'.
Proof.
  intros H. replace y' with (y + 1 + Z.of_nat (Z.to_nat (y' - y - 1))) by lia.
  rewrite <- year_start_step. induction (Z.to_nat (y' - y - 1)) as [|n IH]; [by rewrite Z.add_0_r|].
  etransitivity; [exact IH|]. rewrite Nat2Z.inj_succ, <- Z.add_1_r, Z.add_assoc, year_start_step.
  destruct (is_leap _); lia.
Qed.

(** Facts about a day of the year, checked day by day. *)
Definition month_day_ok (leap : bool) (yday : Z) : bool :=
  let '(m, d) := month_day leap yday in
  let '(m', d') := month_day leap (yday + 1) in
  (month_start leap m + d - 1 =? yday) && (1 <=? m) && (m <=? 12) && (1 <=? d) && (d <=? 31)
  && (m * 100 + d <? m' * 100 + d').
Lemma month_day_checked :
  forallb (month_day_ok false) (seqZ 0 365) && forallb (month_day_ok true) (seqZ 0 366) = true.
Proof. vm_compute. reflexivity. Qed.
Lemma month_day_fact (leap : bool) yday : 0 ≤ yday < 365 + (if leap then 1 else 0) → month_day_ok leap yday = true.
Proof.
  intros H. pose proof month_day_checked as Hc. apply andb_prop in Hc as [H0 H1].
  rewrite forallb_forall in H0, H1.
  destruct leap; [apply H1|apply H0]; apply list_elem_of_In, elem_of_seqZ; lia.
Qed.

Lemma month_day_next (leap : bool) a :
  0 ≤ a < 365 + (if leap then 1 else 0) →
  (month_day leap a).1 * 100 + (month_day leap a).2 <
    (month_day leap (a + 1)).1 * 100 + (month_day leap (a + 1)).2.
Proof.
  intros H%month_day_fact. unfold month_day_ok in H.
  destruct (month_day leap a), (month_day leap (a + 1)). rewrite !andb_true_iff, Z.ltb_lt in H. apply H.
Qed.
Lemma month_day_key_mono (leap : bool) a b :
  0 ≤ a < b → b < 365 + (if leap then 1 else 0) →
  (month_day leap a).1 * 100 + (month_day leap a).2 < (month_day leap b).1 * 100 + (month_day leap b).2.
Proof.
  intros Ha Hb. replace b with (a + 1 + Z.of_nat (Z.to_nat (b - a - 1))) in Hb |- * by lia.
  induction (Z.to_nat (b - a - 1)) as [|n IH].
  - replace (a + 1 + Z.of_nat 0) with (a + 1) by lia. apply month_day_next; lia.
  - rewrite Nat2Z.inj_succ in *. etransitivity; [apply IH; lia|].
    replace (a + 1 + Z.succ (Z.of_nat n)) with (a + 1 + Z.of_nat n + 1) in Hb |- * by lia.
    apply month_day_next; lia.
Qed.

Lemma civil_bounds day :
  let '(y, m, d) := civil_of_day day in
  1 ≤ m ≤ 12 ∧ 1 ≤ d ≤ 31 ∧ day_of_civil (y, m, d) = day.
Proof.
  unfold civil_of_day. pose proof (year_split_spec day) as H. destruct (year_split day) as [y yday].
  destruct H as [Hs Hy]. pose proof (month_day_fact _ _ Hy) as Hm. unfold month_day_ok in Hm.
  destruct (month_day (is_leap y) yday) as [m d], (month_day _ (yday + 1)).
  rewrite !andb_true_iff, !Z.leb_le, !Z.eqb_eq in Hm. unfold day_of_civil. lia.
Qed.

Lemma civil_mono a b : a < b → date_key (civil_of_day a) < date_key (civil_of_day b).
Proof.
  intros Hab. pose proof (civil_bounds a) as Ba. pose proof (civil_bounds b) as Bb.
  unfold civil_of_day, date_key in *.
  pose proof (year_split_spec a) as Ha. pose proof (year_split_spec b) as Hb.
  destruct (year_split a) as [ya da], (year_split b) as [yb db].
  destruct (decide (ya = yb)) as [->|Hne].
  - pose proof (month_day_key_mono (is_leap yb) da db) as Hk.
    destruct (month_day _ da), (month_day _ db). simpl in Hk. lia.
  - assert (ya < yb).
    { destruct (decide (ya < yb)); [done|]. pose proof (year_start_mono yb ya). lia. }
    destruct (month_day _ da), (month_day _ db). lia.
Qed.

(** ** The order of texts *)

Lemma ascii_compare_refl a : Ascii.compare a a = Eq.
Proof. unfold Ascii.compare. apply N.compare_refl. Qed.

Lemma append_cons c a b : String c a +:+ b = String c (a +:+ b).
Proof. reflexivity. Qed.

(** Texts of one length, followed by anything. *)
Lemma compare_app_eq a x y : String.compare (a +:+ x) (a +:+ y) = String.compare x y.
Proof. induction a as [|c a IH]; [done|]. rewrite !append_cons. cbn. by rewrite ascii_compare_refl. Qed.
Lemma compare_app_lt a b x y :
  String.length a = String.length b → String.compare a b = Lt → String.compare (a +:+ x) (b +:+ y) = Lt.
Proof.
  revert b. induction a as [|c a IH]; intros [|c' b]; try done. rewrite !append_cons. cbn. intros [= Hl].
  destruct (Ascii.compare c c'); [by apply IH|done|done].
Qed.
Lemma length_app_string a b : String.length (a +:+ b) = (String.length a + String.length b)%nat.
Proof. induction a as [|c a IH]; [done|]. rewrite append_cons. cbn. by rewrite IH. Qed.
Lemma string_app_assoc (a b c : string) : (a +:+ b) +:+ c = a +:+ b +:+ c.
Proof. induction a as [|x a IH]; [done|]. rewrite !append_cons. by rewrite IH. Qed.

Lemma pad_length w n : String.length (pad w n) = w.
Proof. revert n. induction w as [|w IH]; intros n; [done|]. cbn [pad]. rewrite length_app_string, IH. done. Qed.

Lemma digit_mono a b : 0 ≤ a < b → b < 10 → String.compare (digit a) (digit b) = Lt.
Proof.
  intros H1 H2.
  assert (a ∈ seqZ 0 10 ∧ b ∈ seqZ 0 10) as [Ha Hb] by (rewrite !elem_of_seqZ; lia).
  assert (forallb (λ a, forallb (λ b, negb (a <? b) ||
    match String.compare (digit a) (digit b) with Lt => true | _ => false end) (seqZ 0 10)) (seqZ 0 10) = true)
    as Hc by (vm_compute; reflexivity).
  rewrite forallb_forall in Hc. specialize (Hc a (proj1 (list_elem_of_In _ _) Ha)).
  rewrite forallb_forall in Hc. specialize (Hc b (proj1 (list_elem_of_In _ _) Hb)).
  apply orb_prop in Hc as [Hc|Hc]; [|by destruct (String.compare _ _)].
  apply negb_true_iff, Z.ltb_ge in Hc. lia.
Qed.

Lemma pow10_succ w : 10 ^ Z.of_nat (S w) = 10 * 10 ^ Z.of_nat w.
Proof. rewrite Nat2Z.inj_succ, Z.pow_succ_r by lia. done. Qed.

Lemma pad_mono w a b :
  0 ≤ a < b → b < 10 ^ Z.of_nat w → String.compare (pad w a) (pad w b) = Lt.
Proof.
  revert a b. induction w as [|w IH]; intros a b Hab Hb; [cbn in Hb; lia|].
  rewrite pow10_succ in Hb. cbn [pad]. set (p := 10 ^ Z.of_nat w) in *.
  assert (0 < p) by (unfold p; apply Z.pow_pos_nonneg; lia).
  destruct (decide (a / p = b / p)) as [E|E].
  - rewrite E, compare_app_eq. apply IH.
    + pose proof (Z.div_mod a p) as H1. pose proof (Z.div_mod b p) as H2.
      pose proof (Z.mod_pos_bound a p). nia.
    + apply Z.mod_pos_bound. done.
  - apply compare_app_lt; [done|]. assert (a / p ≤ b / p) by (apply Z.div_le_mono; lia).
    apply digit_mono; [|apply Z.div_lt_upper_bound; lia].
    split; [apply Z.div_pos; lia|lia].
Qed.

Lemma year_text_pad y : 0 ≤ y ≤ 9999 → year_text y = pad 4 y.
Proof.
  intros H. unfold year_text, pad_min.
  destruct (Z.ltb_spec y 0); [lia|]. destruct (Z.ltb_spec y (10 ^ Z.of_nat 4)); [done|].
  change (10 ^ Z.of_nat 4) with 10000 in *. lia.
Qed.

(** A fixed-width field decides, or the rest does. *)
Lemma field_lt w a b x y :
  0 ≤ a → b < 10 ^ Z.of_nat w → a < b ∨ (a = b ∧ String.compare x y = Lt) →
  String.compare (pad w a +:+ x) (pad w b +:+ y) = Lt.
Proof.
  intros Ha Hb [H|[-> H]].
  - apply compare_app_lt; [by rewrite !pad_length|by apply pad_mono].
  - by rewrite compare_app_eq.
Qed.

Lemma clock_split s : 0 ≤ s →
  s = 3600 * (s / 3600) + 60 * (s mod 3600 / 60) + s mod 60 ∧
  0 ≤ s / 3600 ∧ 0 ≤ s mod 3600 / 60 < 60 ∧ 0 ≤ s mod 60 < 60.
Proof. intros H. Z.to_euclidean_division_equations; lia. Qed.

(** The seconds of two texts decide their order. *)
Lemma second_text_lt a b x y :
  0 ≤ (civil_of_day (a / day_seconds)).1.1 → (civil_of_day (b / day_seconds)).1.1 ≤ 9999 →
  a < b → String.compare (second_text a +:+ x) (second_text b +:+ y) = Lt.
Proof.
  intros Hya Hyb Hab. unfold second_text.
  assert (a / day_seconds < b / day_seconds ∨
          (a / day_seconds = b / day_seconds ∧ a mod day_seconds < b mod day_seconds)) as Hc.
  { unfold day_seconds. Z.to_euclidean_division_equations; lia. }
  pose proof (civil_bounds (a / day_seconds)) as Ba. pose proof (civil_bounds (b / day_seconds)) as Bb.
  assert (date_key (civil_of_day (a / day_seconds)) < date_key (civil_of_day (b / day_seconds)) ∨
          (civil_of_day (a / day_seconds) = civil_of_day (b / day_seconds) ∧
           a mod day_seconds < b mod day_seconds)) as Hk.
  { destruct Hc as [Hc|[-> Hc]]; [left; by apply civil_mono|by right]. }
  assert (0 ≤ a mod day_seconds) as Hs by (apply Z.mod_pos_bound; done).
  assert (b mod day_seconds < 86400) as Hs' by (by apply Z.mod_pos_bound).
  clear Hc. unfold date_text, clock_text, date_key in *.
  destruct (civil_of_day (a / day_seconds)) as [[ya ma] da], (civil_of_day (b / day_seconds)) as [[yb mb] db].
  cbn in Hya, Hyb. set (sa := a mod day_seconds) in *. set (sb := b mod day_seconds) in *.
  pose proof (clock_split sa Hs) as Ca. pose proof (clock_split sb) as Cb.
  assert (0 ≤ sb ∧ sa < 86400) as [? ?] by (split; apply Z.mod_pos_bound; done).
  set (ha := sa / 3600) in *. set (mia := sa mod 3600 / 60) in *. set (sca := sa mod 60) in *.
  set (hb := sb / 3600) in *. set (mib := sb mod 3600 / 60) in *. set (scb := sb mod 60) in *.
  clearbody sa sb ha mia sca hb mib scb. specialize (Cb ltac:(lia)).
  assert (ya * 10000 + ma * 100 + da < yb * 10000 + mb * 100 + db ∨
    (ya = yb ∧ ma = mb ∧ da = db ∧ sa < sb)) as Hk' by (destruct Hk as [?|[[=] ?]]; [by left|right; lia]).
  clear Hk. rewrite !year_text_pad, !string_app_assoc by lia.
  repeat (rewrite compare_app_eq || (apply field_lt; [lia|cbn; lia|];
    match goal with |- ?u < ?v ∨ _ => destruct (decide (u < v)); [by left|right; split; [lia|]] end)).
  exfalso. lia.
Qed.

Lemma year_of_mono a b : a ≤ b → year_of a ≤ year_of b.
Proof.
  intros H. unfold year_of.
  assert (a / nanos / day_seconds ≤ b / nanos / day_seconds) as Hd
    by (unfold nanos, day_seconds; Z.to_euclidean_division_equations; lia).
  pose proof (civil_bounds (a / nanos / day_seconds)) as Ba.
  pose proof (civil_bounds (b / nanos / day_seconds)) as Bb.
  destruct (decide (a / nanos / day_seconds = b / nanos / day_seconds)) as [->|Hne]; [done|].
  pose proof (civil_mono (a / nanos / day_seconds) (b / nanos / day_seconds) ltac:(lia)) as Hk.
  unfold date_key in Hk.
  destruct (civil_of_day (a / nanos / day_seconds)) as [[ya ma] da],
    (civil_of_day (b / nanos / day_seconds)) as [[yb mb] db]. cbn. lia.
Qed.

(** Between different seconds the order of the texts is the order of the times. *)
Lemma text_order a b :
  time_encodes a = true → time_encodes b = true → a / nanos < b / nanos →
  String.compare (FormatRFC3339Nano a) (FormatRFC3339Nano b) = Lt.
Proof.
  intros Ha Hb Hab. unfold time_encodes, year_of in *. rewrite !andb_true_iff, !Z.leb_le in *.
  apply second_text_lt; [apply Ha|apply Hb|done].
Qed.
Lemma text_leb a b :
  time_encodes a = true → time_encodes b = true → a / nanos < b / nanos →
  String.leb (FormatRFC3339Nano a) (FormatRFC3339Nano b) = true.
Proof. intros. unfold String.leb. by rewrite text_order. Qed.

(** ** Parsing inverts writing *)

Lemma digit_read n s : 0 ≤ n < 10 → ∃ a, digit n +:+ s = String a s ∧ digit_value a = Some n.
Proof.
  intros H. eexists. split; [reflexivity|]. unfold digit_value.
  rewrite Ascii.nat_ascii_embedding by lia.
  assert ((48 <=? 48 + Z.to_nat n) && (48 + Z.to_nat n <=? 57) = true)%nat as ->.
  { rewrite andb_true_iff, !Nat.leb_le. lia. }
  f_equal. lia.
Qed.

Lemma pad_quot w n :
  0 ≤ n < 10 ^ Z.of_nat (S w) → 0 ≤ n / 10 ^ Z.of_nat w < 10 ∧ 0 ≤ n mod 10 ^ Z.of_nat w < 10 ^ Z.of_nat w.
Proof.
  rewrite pow10_succ. intros H. assert (0 < 10 ^ Z.of_nat w) by (apply Z.pow_pos_nonneg; lia).
  split; [|by apply Z.mod_pos_bound]. split; [apply Z.div_pos; lia|apply Z.div_lt_upper_bound; lia].
Qed.

Lemma parse_pad w acc n s :
  0 ≤ n < 10 ^ Z.of_nat w → parse_digits w acc (pad w n +:+ s) = Some (acc * 10 ^ Z.of_nat w + n, s).
Proof.
  revert acc n. induction w as [|w IH]; intros acc n Hn.
  { cbn in Hn |- *. do 2 f_equal. lia. }
  destruct (pad_quot w n Hn) as [Hq Hr]. cbn [pad]. rewrite string_app_assoc.
  destruct (digit_read _ (pad w (n mod 10 ^ Z.of_nat w) +:+ s) Hq) as (a & -> & Ha).
  cbn [parse_digits]. rewrite Ha. cbn [mbind option_bind]. rewrite IH by done. do 2 f_equal.
  rewrite pow10_succ. pose proof (Z_div_mod_eq_full n (10 ^ Z.of_nat w)). lia.
Qed.

Lemma trim_zeros_pad w n : 0 ≤ n < 10 ^ Z.of_nat w → trim_zeros (pad w n) = "" → n = 0.
Proof.
  revert n. induction w as [|w IH]; intros n Hn; [cbn in Hn; lia|].
  destruct (pad_quot w n Hn) as [Hq Hr]. cbn [pad].
  destruct (digit_read _ (pad w (n mod 10 ^ Z.of_nat w)) Hq) as (a & -> & Ha). cbn [trim_zeros].
  destruct (trim_zeros (pad w (n mod 10 ^ Z.of_nat w))) eqn:Et; [|done].
  apply IH in Et; [|done]. destruct (Ascii.eqb_spec a zero_digit) as [->|]; [|done]. intros _.
  assert (digit_value zero_digit = Some 0) as H0 by reflexivity. rewrite H0 in Ha. injection Ha as Ha.
  pose proof (Z_div_mod_eq_full n (10 ^ Z.of_nat w)) as Hd. rewrite <- Ha, Et in Hd. lia.
Qed.

Lemma trim_app_Z s : trim_zeros s +:+ "Z" = "Z" ↔ trim_zeros s = "".
Proof.
  split; [|by intros ->]. destruct (trim_zeros s) as [|a r]; [done|].
  rewrite append_cons. intros [= -> H]. by destruct r.
Qed.

Lemma parse_fraction_trim w acc n :
  0 ≤ n < 10 ^ Z.of_nat w →
  parse_fraction w acc (trim_zeros (pad w n) +:+ "Z") = Some (acc * 10 ^ Z.of_nat w + n).
Proof.
  revert acc n. induction w as [|w IH]; intros acc n Hn.
  { cbn in Hn. replace n with 0 by lia. cbn. f_equal. lia. }
  assert (parse_fraction (S w) acc (trim_zeros (pad (S w) n) +:+ "Z") =
    if String.eqb (trim_zeros (pad (S w) n) +:+ "Z") "Z" then Some (acc * 10 ^ Z.of_nat (S w))
    else match trim_zeros (pad (S w) n) +:+ "Z" with
         | String a s => v ← digit_value a; parse_fraction w (10 * acc + v) s
         | _ => None end) as -> by done.
  destruct (String.eqb_spec (trim_zeros (pad (S w) n) +:+ "Z") "Z") as [E|E].
  { apply trim_app_Z, trim_zeros_pad in E; [|done]. f_equal. lia. }
  destruct (pad_quot w n Hn) as [Hq Hr]. cbn [pad] in *.
  destruct (digit_read _ (pad w (n mod 10 ^ Z.of_nat w)) Hq) as (a & Ea & Ha). rewrite Ea in *.
  assert (trim_zeros (String a (pad w (n mod 10 ^ Z.of_nat w))) =
          String a (trim_zeros (pad w (n mod 10 ^ Z.of_nat w)))) as ->.
  { cbn in E |- *. destruct (trim_zeros (pad w _)); [|done]. by destruct (Ascii.eqb _ _). }
  rewrite append_cons, Ha. cbn [mbind option_bind]. rewrite IH by done. f_equal.
  rewrite pow10_succ. pose proof (Z_div_mod_eq_full n (10 ^ Z.of_nat w)). lia.
Qed.

Lemma parse_tail_fraction ns : 0 ≤ ns < nanos → parse_tail (fraction_text ns +:+ "Z") = Some ns.
Proof.
  intros H. unfold fraction_text, parse_tail. destruct (Z.eqb_spec ns 0) as [->|Hne]; [done|].
  rewrite string_app_assoc. set (r := trim_zeros (pad 9 ns) +:+ "Z").
  assert (String.eqb ("." +:+ r) "Z" = false) as -> by reflexivity.
  assert (strip_prefix "." ("." +:+ r) = Some r) as -> by reflexivity.
  cbn [mbind option_bind]. unfold r. by rewrite parse_fraction_trim.
Qed.

Lemma strip_prefix_app p s : strip_prefix p (p +:+ s) = Some s.
Proof. induction p as [|a p IH]; [done|]. rewrite append_cons. cbn. by rewrite Ascii.eqb_refl. Qed.

Lemma parse_FormatRFC3339Nano t : time_encodes t = true → parse_rfc3339 (FormatRFC3339Nano t) = Some t.
Proof.
  intros Ht. unfold time_encodes, year_of in Ht. rewrite andb_true_iff, !Z.leb_le in Ht.
  unfold FormatRFC3339Nano, second_text, parse_rfc3339.
  set (sec := t / nanos) in *. pose proof (civil_bounds (sec / day_seconds)) as Hb.
  destruct (civil_of_day (sec / day_seconds)) as [[y m] d]. cbn [fst] in Ht.
  destruct Hb as (Hm & Hd & Hday).
  assert (0 ≤ sec mod day_seconds < day_seconds) as Hs by (by apply Z.mod_pos_bound).
  destruct (clock_split (sec mod day_seconds)) as (Ec & Hh & Hmi & Hsc); [lia|].
  assert (sec mod day_seconds / 3600 < 24) as Hh' by (apply Z.div_lt_upper_bound; [|unfold day_seconds in *]; lia).
  unfold date_text, clock_text. rewrite year_text_pad, !string_app_assoc by lia.
  repeat first [ rewrite parse_pad by (cbn; lia) | rewrite strip_prefix_app ]; cbn [mbind option_bind].
  repeat first [ rewrite parse_pad by (cbn; lia); cbn [mbind option_bind]
               | rewrite strip_prefix_app; cbn [mbind option_bind] ].
  rewrite parse_tail_fraction by (by apply Z.mod_pos_bound). cbn [mbind option_bind]. f_equal.
  rewrite !Z.mul_0_l, !Z.add_0_l, Hday.
  pose proof (Z_div_mod_eq_full sec day_seconds). pose proof (Z_div_mod_eq_full t nanos). fold sec in H0. lia.
Qed.

(** ** The text is ASCII *)

Definition ascii_only (s : string) : bool := forallb (byte_in 0 127) (String.list_ascii_of_string s).

Lemma ascii_only_app a b : ascii_only (a +:+ b) = ascii_only a && ascii_only b.
Proof.
  unfold ascii_only. induction a as [|c a IH]; [done|]. rewrite append_cons. cbn [String.list_ascii_of_string forallb].
  by rewrite IH, andb_assoc.
Qed.
Lemma ascii_only_valid s : ascii_only s = true → ValidString s = true.
Proof.
  unfold ascii_only, ValidString. induction s as [|a s IH]; [done|].
  cbn [String.list_ascii_of_string forallb String.length]. intros [Ha Hs]%andb_prop.
  cbn [valid_bytes]. unfold rune_len. rewrite Ha. cbn [drop]. by apply IH.
Qed.
Lemma pad_ascii w n : 0 ≤ n < 10 ^ Z.of_nat w → ascii_only (pad w n) = true.
Proof.
  revert n. induction w as [|w IH]; intros n Hn; [done|]. destruct (pad_quot w n Hn) as [Hq Hr].
  cbn [pad]. rewrite ascii_only_app, IH by done. rewrite andb_true_r.
  apply andb_true_intro. split; [|done]. unfold byte_in.
  rewrite Ascii.nat_ascii_embedding by lia. apply andb_true_intro. rewrite !Nat.leb_le. lia.
Qed.
Lemma trim_zeros_ascii s : ascii_only s = true → ascii_only (trim_zeros s) = true.
Proof.
  unfold ascii_only. induction s as [|a s IH]; [done|]. cbn. intros [Ha Hs]%andb_prop.
  specialize (IH Hs). destruct (trim_zeros s).
  - destruct (Ascii.eqb a zero_digit); [done|]. cbn. by rewrite Ha.
  - cbn. rewrite Ha. exact IH.
Qed.

Lemma FormatRFC3339Nano_ascii t : time_encodes t = true → ascii_only (FormatRFC3339Nano t) = true.
Proof.
  intros Ht. unfold time_encodes, year_of in Ht. rewrite andb_true_iff, !Z.leb_le in Ht.
  unfold FormatRFC3339Nano, second_text. pose proof (civil_bounds (t / nanos / day_seconds)) as Hb.
  destruct (civil_of_day (t / nanos / day_seconds)) as [[y m] d]. cbn [fst] in Ht.
  destruct Hb as (Hm & Hd & _).
  assert (0 ≤ t / nanos mod day_seconds < day_seconds) as Hs by (by apply Z.mod_pos_bound).
  destruct (clock_split (t / nanos mod day_seconds)) as (Ec & Hh & Hmi & Hsc); [lia|].
  assert (t / nanos mod day_seconds / 3600 < 100) as Hh' by (apply Z.div_lt_upper_bound; [|unfold day_seconds in *]; lia).
  unfold date_text, clock_text, fraction_text. rewrite year_text_pad by lia.
  rewrite !ascii_only_app, !pad_ascii by (cbn; lia).
  destruct (t mod nanos =? 0); [done|]. rewrite ascii_only_app, trim_zeros_ascii; [done|].
  apply pad_ascii. by apply Z.mod_pos_bound.
Qed.

#[export] Instance rfc3339nano_laws : TimeFormatLaws.
Proof.
  intros t s. unfold format_time, parse_time, rfc3339nano. destruct (time_encodes t) eqn:Ht; [|done]. intros [= <-].
  rewrite parse_FormatRFC3339Nano by done. split; [|done].
  by apply ascii_only_valid, FormatRFC3339Nano_ascii.
Qed.

(** Within one second the texts are not in order: ["5.5Z"] sorts before ["5Z"]. *)
Lemma text_order_within_second :
  String.ltb (FormatRFC3339Nano (5 * nanos + 500000000)) (FormatRFC3339Nano (5 * nanos)) = true.
Proof. reflexivity. Qed.
