(* ===== verification/OrchJson.v ===== *)
(** * JSON form of the orchestrator's records

    The SQLite store (src/ext/orchestrator/sqlite/store.go) keeps tasks, leases,
    commands and artifacts as JSON in a payload column.  The structs of types.go,
    commands.go and artifacts.go have no tags, so the fields carry their Go names and
    none is left out.  Times are written as RFC 3339 text (TimeText). *)

From S2P Require Import Prelude Errors Usage OrchTypes Json Serialize Snapshot TimeText.

(** Counters.  The integers of the model are not bounded; the range check of the
    decoder, which every number the encoder wrote passes, is not repeated. *)
Record GoInt := Int { int_value : Z }.
#[export] Instance goint_json : Json GoInt := {|
  json_zero := Int 0; json_empty := λ n, int_value n =? 0; json_ok := λ _, true;
  marshal := λ n, Ok (JNum (int_value n));
  unmarshal := λ j, match j with JNum z => Ok (Int z) | JNull => Ok (Int 0) | _ => Err type_error end;
|}.
#[export] Instance goint_json_laws : JsonLaws GoInt.
Proof. split; [intros [z] Hz%Z.eqb_eq; cbn in Hz; by subst|]. intros [z] _. eauto. Qed.

(** A byte slice is written as base64 text, represented by the bytes it denotes. *)
Record GoBytes := Bytes { byte_slice : string }.
#[export] Instance gobytes_json : Json GoBytes := {|
  json_zero := Bytes ""; json_empty := λ b, String.eqb (byte_slice b) ""; json_ok := λ _, true;
  marshal := λ b, Ok (JString (byte_slice b));
  unmarshal := λ j, match j with JString s => Ok (Bytes s) | JNull => Ok (Bytes "") | _ => Err type_error end;
|}.
#[export] Instance gobytes_json_laws : JsonLaws GoBytes.
Proof. split; [intros [s] Hs%String.eqb_eq; cbn in Hs; by subst|]. intros [s] _. eauto. Qed.

(** A pointer: nil is null. *)
#[export] Instance pointer_json `{Json A} : Json (option A) := {|
  json_zero := None; json_empty := λ x, match x with None => true | _ => false end;
  json_ok := λ x, match x with
                  | None => true
                  | Some a => json_ok a && match marshal a with Ok JNull => false | _ => true end
                  end;
  marshal := λ x, match x with None => Ok JNull | Some a => marshal a end;
  unmarshal := λ j, match j with JNull => Ok None | _ => Some <$> unmarshal j end;
|}.
#[export] Instance pointer_json_laws `{JsonLaws A} : JsonLaws (option A).
Proof.
  split; [by intros [|]|]. intros [a|]; [|by eexists]. cbn. intros [Ha Hn]%andb_prop.
  destruct (json_roundtrip a Ha) as (j & Hj & Hu). rewrite Hj in Hn |- *. exists j. split; [done|].
  destruct j; try done; by rewrite Hu.
Qed.

(** ** The string enumerations *)

Definition task_status_string (s : TaskStatus) : string :=
  match s with
  | TaskPending => "pending" | TaskRunning => "running" | TaskCompleted => "completed"
  | TaskFailed => "failed" | TaskCanceled => "canceled" | TaskStatusNone => ""
  end.
Definition command_kind_string (k : CommandKind) : string :=
  match k with
  | CommandCancelTask => "cancel_task" | CommandAbortRun => "abort_run"
  | CommandRetryTask => "retry_task" | CommandKindOther s => s
  end.
Definition command_status_string (s : CommandStatus) : string :=
  match s with CommandPending => "pending" | CommandClaimed => "claimed" | CommandHandled => "handled" end.

(** The statuses are the only ones the store writes; others are not represented. *)
Definition read_status {A} (show : A → string) (all : list A) (j : json) : res A :=
  match j with
  | JString s => match List.find (λ x, String.eqb (show x) s) all with Some x => Ok x | None => Err type_error end
  | _ => Err type_error
  end.
#[export] Instance task_status_json : Json TaskStatus := {|
  json_zero := TaskStatusNone; json_empty := λ s, bool_decide (s = TaskStatusNone); json_ok := λ _, true;
  marshal := λ s, Ok (JString (task_status_string s));
  unmarshal := read_status task_status_string
    [TaskPending; TaskRunning; TaskCompleted; TaskFailed; TaskCanceled; TaskStatusNone];
|}.
#[export] Instance task_status_json_laws : JsonLaws TaskStatus.
Proof. split; [intros s ?%bool_decide_eq_true_1; done|]. intros [] _; by eexists. Qed.
#[export] Instance command_status_json : Json CommandStatus := {|
  json_zero := CommandPending; json_empty := λ _, false; json_ok := λ _, true;
  marshal := λ s, Ok (JString (command_status_string s));
  unmarshal := read_status command_status_string [CommandPending; CommandClaimed; CommandHandled];
|}.
#[export] Instance command_status_json_laws : JsonLaws CommandStatus.
Proof. split; [done|]. intros [] _; by eexists. Qed.
Definition read_command_kind (s : string) : CommandKind :=
  if String.eqb s "cancel_task" then CommandCancelTask
  else if String.eqb s "abort_run" then CommandAbortRun
  else if String.eqb s "retry_task" then CommandRetryTask
  else CommandKindOther s.
#[export] Instance command_kind_json : Json CommandKind := {|
  json_zero := CommandKindOther ""; json_empty := λ k, bool_decide (k = CommandKindOther "");
  json_ok := λ k, match k with CommandKindOther _ => false | _ => true end;
  marshal := λ k, Ok (JString (coerce_utf8 (command_kind_string k)));
  unmarshal := λ j, match j with
                    | JString s => Ok (read_command_kind (coerce_utf8 s)) | JNull => Ok (CommandKindOther "")
                    | _ => Err type_error
                    end;
|}.
#[export] Instance command_kind_json_laws : JsonLaws CommandKind.
Proof. split; [intros s ?%bool_decide_eq_true_1; done|]. intros [] ?; [by eexists..|done]. Qed.

(** ** The structs *)

Section orch_codecs.

Definition ok_runRef (p : RunRef) : bool :=
  json_ok (run_ID p) && json_ok (run_TaskID p) && json_ok (run_WorkerID p) &&
  json_ok (Int (run_Attempt p)) && json_ok (At (run_StartedAt p)).
Definition marshal_runRef (p : RunRef) : res json :=
  object [put "ID" (run_ID p); put "TaskID" (run_TaskID p); put "WorkerID" (run_WorkerID p);
          put "Attempt" (Int (run_Attempt p)); put "StartedAt" (At (run_StartedAt p))].
Definition unmarshal_runRef (j : json) : res RunRef :=
  o ← fields j; x1 ← field o "ID"; x2 ← field o "TaskID"; x3 ← field o "WorkerID"; x4 ← field o "Attempt";
  x5 ← field o "StartedAt";
  Ok (MkRunRef x1 x2 x3 (int_value x4) (instant x5)).
#[export] Instance runRef_json : Json RunRef := {|
  json_zero := MkRunRef json_zero json_zero json_zero 0 zero_time;
  json_empty := λ _, false;
  json_ok := ok_runRef; marshal := marshal_runRef; unmarshal := unmarshal_runRef;
|}.
#[export] Instance runRef_json_laws : JsonLaws RunRef.
Proof. solve_struct ok_runRef marshal_runRef unmarshal_runRef. Qed.

Definition ok_taskResult (p : TaskResult) : bool :=
  json_ok (result_RunnerRunID p) && json_ok (result_Output p) && json_ok (result_Usage p) &&
  json_ok (result_ToolState p) && json_ok (result_Metadata p) &&
  json_ok (At (result_CompletedAt p)).
Definition marshal_taskResult (p : TaskResult) : res json :=
  object [put "RunnerRunID" (result_RunnerRunID p); put "Output" (result_Output p);
          put "Usage" (result_Usage p); put "ToolState" (result_ToolState p);
          put "Metadata" (result_Metadata p); put "CompletedAt" (At (result_CompletedAt p))].
Definition unmarshal_taskResult (j : json) : res TaskResult :=
  o ← fields j; x1 ← field o "RunnerRunID"; x2 ← field o "Output"; x3 ← field o "Usage";
  x4 ← field o "ToolState"; x5 ← field o "Metadata"; x6 ← field o "CompletedAt";
  Ok (MkTaskResult x1 x2 x3 x4 x5 (instant x6)).
#[export] Instance taskResult_json : Json TaskResult := {|
  json_zero := MkTaskResult json_zero json_zero json_zero json_zero json_zero zero_time;
  json_empty := λ _, false;
  json_ok := ok_taskResult; marshal := marshal_taskResult; unmarshal := unmarshal_taskResult;
|}.
#[export] Instance taskResult_json_laws : JsonLaws TaskResult.
Proof. solve_struct ok_taskResult marshal_taskResult unmarshal_taskResult. Qed.

Definition ok_task (p : Task) : bool :=
  json_ok (task_ID p) && json_ok (task_Kind p) && json_ok (task_Subject p) &&
  json_ok (task_Description p) && json_ok (task_Input p) && json_ok (task_Status p) &&
  json_ok (Int (task_Attempt p)) && json_ok (Int (task_MaxAttempts p)) &&
  json_ok (task_Blocks p) && json_ok (task_BlockedBy p) && json_ok (task_Metadata p) &&
  json_ok (task_Run p) && json_ok (task_Result p) && json_ok (task_LastError p) &&
  json_ok (At (task_CreatedAt p)) && json_ok (At (task_UpdatedAt p)) &&
  json_ok (At (task_StartedAt p)) && json_ok (At (task_CompletedAt p)).
Definition marshal_task (p : Task) : res json :=
  object [put "ID" (task_ID p); put "Kind" (task_Kind p); put "Subject" (task_Subject p);
          put "Description" (task_Description p); put "Input" (task_Input p);
          put "Status" (task_Status p); put "Attempt" (Int (task_Attempt p));
          put "MaxAttempts" (Int (task_MaxAttempts p)); put "Blocks" (task_Blocks p);
          put "BlockedBy" (task_BlockedBy p); put "Metadata" (task_Metadata p);
          put "Run" (task_Run p); put "Result" (task_Result p);
          put "LastError" (task_LastError p); put "CreatedAt" (At (task_CreatedAt p));
          put "UpdatedAt" (At (task_UpdatedAt p)); put "StartedAt" (At (task_StartedAt p));
          put "CompletedAt" (At (task_CompletedAt p))].
Definition unmarshal_task (j : json) : res Task :=
  o ← fields j; x1 ← field o "ID"; x2 ← field o "Kind"; x3 ← field o "Subject";
  x4 ← field o "Description"; x5 ← field o "Input"; x6 ← field o "Status";
  x7 ← field o "Attempt"; x8 ← field o "MaxAttempts"; x9 ← field o "Blocks";
  x10 ← field o "BlockedBy"; x11 ← field o "Metadata"; x12 ← field o "Run";
  x13 ← field o "Result"; x14 ← field o "LastError"; x15 ← field o "CreatedAt";
  x16 ← field o "UpdatedAt"; x17 ← field o "StartedAt"; x18 ← field o "CompletedAt";
  Ok (MkTask x1 x2 x3 x4 x5 x6 (int_value x7) (int_value x8) x9 x10 x11 x12 x13 x14 (instant x15)
    (instant x16) (instant x17) (instant x18)).
#[export] Instance task_json : Json Task := {|
  json_zero := MkTask json_zero json_zero json_zero json_zero json_zero json_zero 0 0 json_zero json_zero
    json_zero json_zero json_zero json_zero zero_time zero_time zero_time zero_time;
  json_empty := λ _, false;
  json_ok := ok_task; marshal := marshal_task; unmarshal := unmarshal_task;
|}.
#[export] Instance task_json_laws : JsonLaws Task.
Proof. solve_struct ok_task marshal_task unmarshal_task. Qed.

Definition ok_lease (p : Lease) : bool :=
  json_ok (lease_ID p) && json_ok (lease_TaskID p) && json_ok (lease_WorkerID p) &&
  json_ok (lease_Token p) && json_ok (At (lease_AcquiredAt p)) &&
  json_ok (At (lease_ExpiresAt p)).
Definition marshal_lease (p : Lease) : res json :=
  object [put "ID" (lease_ID p); put "TaskID" (lease_TaskID p);
          put "WorkerID" (lease_WorkerID p); put "Token" (lease_Token p);
          put "AcquiredAt" (At (lease_AcquiredAt p));
          put "ExpiresAt" (At (lease_ExpiresAt p))].
Definition unmarshal_lease (j : json) : res Lease :=
  o ← fields j; x1 ← field o "ID"; x2 ← field o "TaskID"; x3 ← field o "WorkerID"; x4 ← field o "Token";
  x5 ← field o "AcquiredAt"; x6 ← field o "ExpiresAt";
  Ok (MkLease x1 x2 x3 x4 (instant x5) (instant x6)).
#[export] Instance lease_json : Json Lease := {|
  json_zero := MkLease json_zero json_zero json_zero json_zero zero_time zero_time;
  json_empty := λ _, false;
  json_ok := ok_lease; marshal := marshal_lease; unmarshal := unmarshal_lease;
|}.
#[export] Instance lease_json_laws : JsonLaws Lease.
Proof. solve_struct ok_lease marshal_lease unmarshal_lease. Qed.

Definition ok_command (p : Command) : bool :=
  json_ok (cmd_ID p) && json_ok (cmd_Kind p) && json_ok (cmd_TaskID p) &&
  json_ok (cmd_RunID p) && json_ok (cmd_TargetWorkerID p) && json_ok (cmd_Reason p) &&
  json_ok (cmd_Metadata p) && json_ok (cmd_Status p) && json_ok (cmd_ClaimToken p) &&
  json_ok (cmd_ClaimedBy p) && json_ok (cmd_HandledBy p) &&
  json_ok (At (cmd_CreatedAt p)) && json_ok (At (cmd_ClaimedAt p)) &&
  json_ok (At (cmd_HandledAt p)).
Definition marshal_command (p : Command) : res json :=
  object [put "ID" (cmd_ID p); put "Kind" (cmd_Kind p); put "TaskID" (cmd_TaskID p);
          put "RunID" (cmd_RunID p); put "TargetWorkerID" (cmd_TargetWorkerID p);
          put "Reason" (cmd_Reason p); put "Metadata" (cmd_Metadata p);
          put "Status" (cmd_Status p); put "ClaimToken" (cmd_ClaimToken p);
          put "ClaimedBy" (cmd_ClaimedBy p); put "HandledBy" (cmd_HandledBy p);
          put "CreatedAt" (At (cmd_CreatedAt p)); put "ClaimedAt" (At (cmd_ClaimedAt p));
          put "HandledAt" (At (cmd_HandledAt p))].
Definition unmarshal_command (j : json) : res Command :=
  o ← fields j; x1 ← field o "ID"; x2 ← field o "Kind"; x3 ← field o "TaskID"; x4 ← field o "RunID";
  x5 ← field o "TargetWorkerID"; x6 ← field o "Reason"; x7 ← field o "Metadata";
  x8 ← field o "Status"; x9 ← field o "ClaimToken"; x10 ← field o "ClaimedBy";
  x11 ← field o "HandledBy"; x12 ← field o "CreatedAt"; x13 ← field o "ClaimedAt";
  x14 ← field o "HandledAt";
  Ok (MkCommand x1 x2 x3 x4 x5 x6 x7 x8 x9 x10 x11 (instant x12) (instant x13) (instant x14)).
#[export] Instance command_json : Json Command := {|
  json_zero := MkCommand json_zero json_zero json_zero json_zero json_zero json_zero json_zero json_zero
    json_zero json_zero json_zero zero_time zero_time zero_time;
  json_empty := λ _, false;
  json_ok := ok_command; marshal := marshal_command; unmarshal := unmarshal_command;
|}.
#[export] Instance command_json_laws : JsonLaws Command.
Proof. solve_struct ok_command marshal_command unmarshal_command. Qed.

Definition ok_artifact (p : Artifact) : bool :=
  json_ok (art_ID p) && json_ok (art_TaskID p) && json_ok (art_RunID p) &&
  json_ok (art_Kind p) && json_ok (art_Name p) && json_ok (art_ContentType p) &&
  json_ok (Bytes (art_Body p)) && json_ok (art_Metadata p) && json_ok (At (art_CreatedAt p)).
Definition marshal_artifact (p : Artifact) : res json :=
  object [put "ID" (art_ID p); put "TaskID" (art_TaskID p); put "RunID" (art_RunID p);
          put "Kind" (art_Kind p); put "Name" (art_Name p);
          put "ContentType" (art_ContentType p); put "Body" (Bytes (art_Body p));
          put "Metadata" (art_Metadata p); put "CreatedAt" (At (art_CreatedAt p))].
Definition unmarshal_artifact (j : json) : res Artifact :=
  o ← fields j; x1 ← field o "ID"; x2 ← field o "TaskID"; x3 ← field o "RunID"; x4 ← field o "Kind";
  x5 ← field o "Name"; x6 ← field o "ContentType"; x7 ← field o "Body";
  x8 ← field o "Metadata"; x9 ← field o "CreatedAt";
  Ok (MkArtifact x1 x2 x3 x4 x5 x6 (byte_slice x7) x8 (instant x9)).
#[export] Instance artifact_json : Json Artifact := {|
  json_zero := MkArtifact json_zero json_zero json_zero json_zero json_zero json_zero "" json_zero zero_time;
  json_empty := λ _, false;
  json_ok := ok_artifact; marshal := marshal_artifact; unmarshal := unmarshal_artifact;
|}.
#[export] Instance artifact_json_laws : JsonLaws Artifact.
Proof. solve_struct ok_artifact marshal_artifact unmarshal_artifact. Qed.

End orch_codecs.
