(* ===== verification/SqliteTx.v ===== *)
(** * SQLite orchestration store: tables, transactions and records

    The lower half of src/ext/orchestrator/sqlite/store.go and history.go: the tables
    of [init], the transaction wrapper [withTx], the functions that load and save rows,
    and the records of the event table.

    A table is a map from primary key to row; a payload column holds JSON.  [TX] is
    code that runs on a connection: it may read the clock, draw identifiers, execute
    statements and fail.  The database engine is external: [env_fault] says which of the
    statements of a call it refuses (busy, full, a constraint, a cancelled context) and
    with which error, so every theorem over an arbitrary [Env] covers failures at any
    point of a call.  A transaction that fails, or fails to commit, leaves the tables
    as they were.

    A UUID that a rolled back transaction drew is not drawn again. *)

From S2P Require Import Prelude Errors Usage OrchTypes MemStore OrchHistory Json TimeText OrchJson.

(** ** Tables *)

Record TaskRow := MkTaskRow {
  trow_created_at : string; trow_kind : string; trow_status : string; trow_payload : json }.
Record LeaseRow := MkLeaseRow { lrow_expires_at : string; lrow_payload : json }.
Record CommandRow := MkCommandRow {
  crow_created_at : string; crow_kind : string; crow_status : string; crow_task_id : string;
  crow_run_id : string; crow_target_worker_id : string; crow_payload : json }.
Record ArtifactRow := MkArtifactRow {
  arow_created_at : string; arow_task_id : string; arow_run_id : string; arow_kind : string;
  arow_name : string; arow_payload : json }.
(** The columns and the record its payload column denotes. *)
Record EventRow := MkEventRow { erow_columns : EventRecord; erow_payload : EventRecord }.

(** [tbl_events] is in the order of the sequence column, [tbl_sequence] the last number
    AUTOINCREMENT issued. *)
Record DB := MkDB {
  tbl_tasks : gmap string TaskRow;
  tbl_leases : gmap string LeaseRow;
  tbl_commands : gmap string CommandRow;
  tbl_artifacts : gmap string ArtifactRow;
  tbl_events : list EventRow;
  tbl_sequence : Z;
}.
#[export] Instance DB_eta : RecordEta DB := λ d,
  MkDB (tbl_tasks d) (tbl_leases d) (tbl_commands d) (tbl_artifacts d) (tbl_events d) (tbl_sequence d).
(** A new database file after [init]. *)
Definition empty_db : DB := MkDB ∅ ∅ ∅ ∅ [] 0.

(** [ORDER BY key ASC, id ASC]: text is compared byte by byte. *)
Definition row_le {R} (key : R → string) (a b : string * R) : Prop :=
  String.ltb (key a.2) (key b.2) = true ∨ (key a.2 = key b.2 ∧ String.leb a.1 b.1 = true).
#[export] Instance row_le_dec {R} (key : R → string) a b : Decision (row_le key a b).
Proof. unfold row_le. apply _. Defined.
Definition ordered {R} (key : R → string) (rows : gmap string R) : list (string * R) :=
  merge_sort (row_le key) (map_to_list rows).

(** SQLite's [json_extract] of a text value: [None] is NULL. *)
Definition json_child (k : string) (j : json) : option json :=
  match j with
  | JObject fs => snd <$> List.find (λ e, String.eqb e.1 k) fs
  | _ => None
  end.
Fixpoint json_extract (path : list string) (j : json) : option string :=
  match path with
  | [] => match j with JString s => Some s | _ => None end
  | k :: path => j ← json_child k j; json_extract path j
  end.

(** ** Code on a connection *)

(** What the libraries supply: [uuid.NewString] in the order of use, and encoding/json
    on the payload struct of an event. *)
Class SqlConfig := MkSqlConfig { uuid : nat → string; marshal_event : Event → res string }.
(** The surroundings of one call: the readings of the clock and the refused statements. *)
Class Env := MkEnv { env_wall : nat → Time; env_fault : nat → option error }.
Record Conn := MkConn { c_db : DB; c_clock : nat; c_stmts : nat; c_uuids : nat }.
#[export] Instance Conn_eta : RecordEta Conn := λ c,
  MkConn (c_db c) (c_clock c) (c_stmts c) (c_uuids c).

Definition TX (A : Type) : Type := Conn → Conn * res A.
#[export] Instance TX_ret : MRet TX := λ A a c, (c, Ok a).
#[export] Instance TX_bind : MBind TX := λ A B k m c,
  match m c with
  | (c, Ok a) => k a c
  | (c, Err e) => (c, Err e)
  end.
Definition throw {A} (e : error) : TX A := λ c, (c, Err e).
Definition lift_res {A} (r : res A) : TX A := λ c, (c, r).
(** [if err != nil { return fmt.Errorf("...: %w", err) }]. *)
Definition wrap {A} (prefix : string) (m : TX A) : TX A := λ c,
  let '(c, r) := m c in (c, wrap_error prefix r).
(** Code that inspects the error. *)
Definition try {A} (m : TX A) : TX (res A) := λ c, let '(c, r) := m c in (c, Ok r).

Section tx.
Context {CF : SqlConfig} {E : Env}.

Definition time_Now : TX Time := λ c, (c <| c_clock ::= S |>, Ok (env_wall (c_clock c))).
Definition newID (prefix : string) : TX string := λ c,
  (c <| c_uuids ::= S |>, Ok (prefix +:+ "-" +:+ uuid (c_uuids c))).
Definition statement : TX unit := λ c,
  (c <| c_stmts ::= S |>, match env_fault (c_stmts c) with Some e => Err e | None => Ok tt end).
Definition read_db {A} (f : DB → A) : TX A := λ c, (c, Ok (f (c_db c))).
Definition write_db (f : DB → DB) : TX unit := λ c, (c <| c_db ::= f |>, Ok tt).
Definition exec (f : DB → DB) : TX unit := statement;; write_db f.
Definition query {A} (f : DB → A) : TX A := statement;; read_db f.

Definition withTx {A} (fn : TX A) : TX A := λ c,
  match wrap "begin sqlite transaction: " statement c with
  | (c1, Err e) => (c1, Err e)
  | (c1, Ok _) =>
    match fn c1 with
    | (c2, Err e) => (c2 <| c_db := c_db c1 |>, Err e)
    | (c2, Ok a) =>
      match statement c2 with
      | (c3, Err e) => (c3 <| c_db := c_db c1 |>, Err e)
      | (c3, Ok _) => (c3, Ok a)
      end
    end
  end.

Definition normalizeNowTx (now : Time) : TX Time := if IsZero now then time_Now else mret now.
Definition formatTime (t : Time) : TX string := t ← normalizeNowTx t; mret (FormatRFC3339Nano t).

(** ** Tasks *)

Definition scanTask (payload : json) : res Task :=
  wrap_error "unmarshal task payload: " (unmarshal payload).
Definition tryLoadTaskTx (id : string) : TX (option Task) :=
  row ← query (λ db, tbl_tasks db !! id);
  match row with
  | None => mret None
  | Some row => task ← lift_res (scanTask (trow_payload row)); mret (Some task)
  end.
Definition loadTaskTx (id : string) : TX Task :=
  task ← tryLoadTaskTx id;
  match task with None => throw ErrTaskNotFound | Some task => mret task end.
(** [loadTask], outside a transaction. *)
Definition loadTask (id : string) : TX Task :=
  row ← query (λ db, tbl_tasks db !! id);
  match row with
  | None => throw ErrTaskNotFound
  | Some row => lift_res (scanTask (trow_payload row))
  end.
Definition scanTasks (rows : list (string * TaskRow)) : res (list Task) :=
  mapM (λ r, scanTask (trow_payload r.2)) rows.
Definition listTasksTx : TX (list Task) :=
  rows ← wrap "list tasks: " (query (λ db, ordered trow_created_at (tbl_tasks db)));
  lift_res (scanTasks rows).
Definition listTaskIDsTx : TX (list string) :=
  wrap "list task ids: " (query (λ db, (ordered trow_created_at (tbl_tasks db)).*1)).

Definition saveTaskTx (task : Task) : TX unit :=
  payload ← lift_res (wrap_error ("marshal task " +:+ go_quote (task_ID task) +:+ ": ") (marshal task));
  created_at ← formatTime (task_CreatedAt task);
  wrap ("save task " +:+ go_quote (task_ID task) +:+ ": ") (exec (λ db, db <| tbl_tasks ::=
    <[task_ID task := MkTaskRow created_at (task_Kind task) (task_status_string (task_Status task)) payload]> |>)).

(** ** Leases *)

Definition scanLease (payload : json) : res Lease :=
  wrap_error "unmarshal lease payload: " (unmarshal payload).
Definition tryLoadLeaseTx (taskID : string) : TX (option Lease) :=
  row ← query (λ db, tbl_leases db !! taskID);
  match row with
  | None => mret None
  | Some row => lease ← lift_res (scanLease (lrow_payload row)); mret (Some lease)
  end.
Definition loadLeaseTx (taskID : string) : TX Lease :=
  lease ← tryLoadLeaseTx taskID;
  match lease with None => throw ErrLeaseNotFound | Some lease => mret lease end.
Definition loadLease (taskID : string) : TX Lease :=
  row ← query (λ db, tbl_leases db !! taskID);
  match row with
  | None => throw ErrLeaseNotFound
  | Some row => lift_res (scanLease (lrow_payload row))
  end.
Definition saveLeaseTx (lease : Lease) : TX unit :=
  payload ← lift_res (wrap_error ("marshal lease " +:+ go_quote (lease_ID lease) +:+ ": ") (marshal lease));
  expires_at ← formatTime (lease_ExpiresAt lease);
  wrap ("save lease " +:+ go_quote (lease_ID lease) +:+ ": ") (exec (λ db, db <| tbl_leases ::=
    <[lease_TaskID lease := MkLeaseRow expires_at payload]> |>)).
(** [DELETE FROM leases WHERE task_id = ?]; [what] names the call in the error. *)
Definition deleteLeaseTx (what taskID : string) : TX unit :=
  wrap ("delete " +:+ what +:+ ": ") (exec (λ db, db <| tbl_leases ::= delete taskID |>)).

(** ** Commands and artifacts *)

Definition scanCommand (payload : json) : res Command :=
  wrap_error "unmarshal command payload: " (unmarshal payload).
Definition loadCommandTx (id : string) : TX Command :=
  row ← query (λ db, tbl_commands db !! id);
  match row with
  | None => throw ErrCommandNotFound
  | Some row => lift_res (scanCommand (crow_payload row))
  end.
Definition saveCommandTx (command : Command) : TX unit :=
  payload ← lift_res (wrap_error ("marshal command " +:+ go_quote (cmd_ID command) +:+ ": ") (marshal command));
  created_at ← formatTime (cmd_CreatedAt command);
  wrap ("save command " +:+ go_quote (cmd_ID command) +:+ ": ") (exec (λ db, db <| tbl_commands ::=
    <[cmd_ID command := MkCommandRow created_at (command_kind_string (cmd_Kind command))
        (command_status_string (cmd_Status command)) (cmd_TaskID command) (cmd_RunID command)
        (cmd_TargetWorkerID command) payload]> |>)).

Definition scanArtifact (payload : json) : res Artifact :=
  wrap_error "unmarshal artifact payload: " (unmarshal payload).
Definition loadArtifact (id : string) : TX Artifact :=
  row ← query (λ db, tbl_artifacts db !! id);
  match row with
  | None => throw ErrArtifactNotFound
  | Some row => lift_res (scanArtifact (arow_payload row))
  end.
Definition saveArtifactTx (a : Artifact) : TX unit :=
  payload ← lift_res (wrap_error ("marshal artifact " +:+ go_quote (art_ID a) +:+ ": ") (marshal a));
  created_at ← formatTime (art_CreatedAt a);
  wrap ("save artifact " +:+ go_quote (art_ID a) +:+ ": ") (exec (λ db, db <| tbl_artifacts ::=
    <[art_ID a := MkArtifactRow created_at (art_TaskID a) (art_RunID a) (art_Kind a) (art_Name a) payload]> |>)).

(** ** The event table *)

Definition newEventRecord (createdAt : Time) (payload : Event)
    (taskID runID leaseID commandID artifactID : string) : TX EventRecord :=
  encoded ← lift_res (wrap_error "marshal orchestrator history payload: " (marshal_event payload));
  id ← newID "event";
  createdAt ← normalizeNowTx createdAt;
  mret (MkEventRecord 0 id (kind_of payload) taskID runID leaseID commandID artifactID createdAt encoded).

(** The record ["{}"] denotes. *)
Definition blank_record : EventRecord :=
  MkEventRecord 0 "" (EventKindOther "") "" "" "" "" "" zero_time "".
Definition with_sequence (n : Z) (r : EventRecord) : EventRecord :=
  MkEventRecord n (er_ID r) (er_Kind r) (er_TaskID r) (er_RunID r) (er_LeaseID r) (er_CommandID r)
    (er_ArtifactID r) (er_CreatedAt r) (er_Payload r).
Definition with_created_at (t : Time) (r : EventRecord) : EventRecord :=
  MkEventRecord (er_Sequence r) (er_ID r) (er_Kind r) (er_TaskID r) (er_RunID r) (er_LeaseID r) (er_CommandID r)
    (er_ArtifactID r) t (er_Payload r).

(** What [json.Unmarshal] makes of the marshalled record. *)
Definition json_record (r : EventRecord) : EventRecord :=
  MkEventRecord (er_Sequence r) (coerce_utf8 (er_ID r)) (er_Kind r) (coerce_utf8 (er_TaskID r))
    (coerce_utf8 (er_RunID r)) (coerce_utf8 (er_LeaseID r)) (coerce_utf8 (er_CommandID r))
    (coerce_utf8 (er_ArtifactID r)) (er_CreatedAt r) (er_Payload r).

(** The insert reserves the sequence number, the update writes the payload with it. *)
Definition saveEventTx (event : EventRecord) : TX unit :=
  createdAt ← normalizeNowTx (er_CreatedAt event);
  let event := with_created_at createdAt event in
  _ ← formatTime (er_CreatedAt event);
  sequence ← wrap ("insert event " +:+ go_quote (er_ID event) +:+ ": ")
    (exec (λ db, let n := tbl_sequence db + 1 in
       db <| tbl_events ::= λ l, l ++ [MkEventRow (with_sequence n event) blank_record] |>
          <| tbl_sequence := n |>);; read_db tbl_sequence);
  let event := with_sequence sequence event in
  _ ← lift_res (wrap_error ("marshal event " +:+ go_quote (er_ID event) +:+ ": ")
    (format_time (er_CreatedAt event)));
  wrap ("update event payload " +:+ go_quote (er_ID event) +:+ ": ")
    (exec (λ db, db <| tbl_events ::= fmap (λ row,
       if er_Sequence (erow_columns row) =? sequence then MkEventRow (erow_columns row) (json_record event) else row) |>)).
Definition saveEventsTx (events : list EventRecord) : TX unit :=
  foldr (λ event rest, saveEventTx event;; rest) (mret tt) events.

Definition scanEventRecord (row : EventRow) : EventRecord :=
  let event := erow_payload row in
  if er_Sequence event =? 0 then with_sequence (er_Sequence (erow_columns row)) event else event.
Definition loadEvent (id : string) : TX EventRecord :=
  row ← query (λ db, List.find (λ row, String.eqb (er_ID (erow_columns row)) id) (tbl_events db));
  match row with None => throw ErrEventNotFound | Some row => mret (scanEventRecord row) end.
(** The filter works on the columns, the answer comes from the payload. *)
Definition listEventsTx (f : EventFilter) : TX (list EventRecord) :=
  rows ← wrap "list events: " (query (λ db,
    let l := filter (λ row, event_matches f (erow_columns row) = true) (tbl_events db) in
    if ef_Limit f >? 0 then take (Z.to_nat (ef_Limit f)) l else l));
  mret (scanEventRecord <$> rows).

(** ** The events of the store

    One struct per event, published on the bus and recorded in the table. *)
Definition created_event (t : Task) : Event :=
  EvTaskCreated (MkTaskCreatedEvent (task_ID t) (task_Kind t) (task_Subject t) (task_Description t) (task_CreatedAt t)).
Definition updated_event (t : Task) : Event :=
  EvTaskUpdated (MkTaskUpdatedEvent (task_ID t) (task_Subject t) (task_Blocks t) (task_BlockedBy t) (task_UpdatedAt t)).
Definition deleted_event (taskID : string) (deletedAt : Time) : Event :=
  EvTaskDeleted (MkTaskDeletedEvent taskID deletedAt).
Definition claimed_event (t : Task) (l : Lease) : Event :=
  EvTaskClaimed (MkTaskClaimedEvent (task_ID t) (task_runID t) (lease_ID l) (lease_WorkerID l) (task_Attempt t)
    (lease_AcquiredAt l) (lease_ExpiresAt l)).
Definition renewed_event (l : Lease) (runID : string) : Event :=
  EvLeaseRenewed (MkLeaseRenewedEvent (lease_TaskID l) runID (lease_ID l) (lease_WorkerID l) (lease_ExpiresAt l)).
Definition released_event (l : Lease) (runID : string) (requeued : bool) (resultStatus : TaskStatus)
    (reason : string) (recovered : bool) (releasedAt : Time) : Event :=
  EvLeaseReleased (MkLeaseReleasedEvent (lease_TaskID l) runID (lease_ID l) (lease_WorkerID l) releasedAt requeued
    resultStatus reason recovered).
Definition requeued_event (t : Task) (lastRunID : string) (lastAttempt : Z) (reason : string) : Event :=
  EvTaskRequeued (MkTaskRequeuedEvent (task_ID t) lastRunID lastAttempt reason (task_UpdatedAt t)).
Definition completed_event (t : Task) : Event :=
  EvTaskCompleted (MkTaskCompletedEvent (task_ID t) (task_runID t) (task_Attempt t) (task_CompletedAt t)).
Definition failed_event (t : Task) : Event :=
  EvTaskFailed (MkTaskFailedEvent (task_ID t) (task_runID t) (task_Attempt t) (task_LastError t) (task_CompletedAt t)).
Definition canceled_event (t : Task) : Event :=
  EvTaskCanceled (MkTaskCanceledEvent (task_ID t) (task_runID t) (task_Attempt t) (task_LastError t) (task_CompletedAt t)).
Definition artifact_event (a : Artifact) : Event :=
  EvArtifactCreated (MkArtifactCreatedEvent (art_ID a) (art_TaskID a) (art_RunID a) (art_Kind a) (art_Name a)
    (art_ContentType a) (Z.of_nat (String.length (art_Body a))) (art_CreatedAt a)).
Definition command_created_event (c : Command) : Event :=
  EvCommandCreated (MkCommandCreatedEvent (cmd_ID c) (cmd_Kind c) (cmd_TaskID c) (cmd_RunID c) (cmd_TargetWorkerID c)
    (cmd_CreatedAt c)).
Definition command_claimed_event (c : Command) : Event :=
  EvCommandClaimed (MkCommandClaimedEvent (cmd_ID c) (cmd_Kind c) (cmd_TaskID c) (cmd_RunID c) (cmd_ClaimedBy c)
    (cmd_ClaimedAt c)).
Definition command_released_event (c : Command) (releasedBy : string) (releasedAt : Time) (reason : string)
    (recovered : bool) : Event :=
  EvCommandReleased (MkCommandReleasedEvent (cmd_ID c) (cmd_Kind c) (cmd_TaskID c) (cmd_RunID c) releasedBy releasedAt
    reason recovered).
Definition command_handled_event (c : Command) : Event :=
  EvCommandHandled (MkCommandHandledEvent (cmd_ID c) (cmd_Kind c) (cmd_TaskID c) (cmd_RunID c) (cmd_HandledBy c)
    (cmd_HandledAt c)).

Definition taskCreatedRecord (t : Task) : TX EventRecord :=
  newEventRecord (task_CreatedAt t) (created_event t) (task_ID t) "" "" "" "".
Definition taskUpdatedRecord (t : Task) : TX EventRecord :=
  newEventRecord (task_UpdatedAt t) (updated_event t) (task_ID t) "" "" "" "".
Definition taskDeletedRecord (taskID : string) (deletedAt : Time) : TX EventRecord :=
  newEventRecord deletedAt (deleted_event taskID deletedAt) taskID "" "" "" "".
Definition taskClaimedRecord (t : Task) (l : Lease) : TX EventRecord :=
  newEventRecord (lease_AcquiredAt l) (claimed_event t l) (task_ID t) (task_runID t) (lease_ID l) "" "".
Definition leaseRenewedRecord (l : Lease) (runID : string) : TX EventRecord :=
  newEventRecord (lease_ExpiresAt l) (renewed_event l runID) (lease_TaskID l) runID (lease_ID l) "" "".
Definition leaseReleasedRecord (l : Lease) (runID : string) (requeued : bool) (resultStatus : TaskStatus)
    (reason : string) (recovered : bool) (releasedAt : Time) : TX EventRecord :=
  newEventRecord releasedAt (released_event l runID requeued resultStatus reason recovered releasedAt)
    (lease_TaskID l) runID (lease_ID l) "" "".
Definition taskRequeuedRecord (t : Task) (lastRunID : string) (lastAttempt : Z) (reason : string) : TX EventRecord :=
  newEventRecord (task_UpdatedAt t) (requeued_event t lastRunID lastAttempt reason) (task_ID t) lastRunID "" "" "".
Definition taskCompletedRecord (t : Task) : TX EventRecord :=
  newEventRecord (task_CompletedAt t) (completed_event t) (task_ID t) (task_runID t) "" "" "".
Definition taskFailedRecord (t : Task) : TX EventRecord :=
  newEventRecord (task_CompletedAt t) (failed_event t) (task_ID t) (task_runID t) "" "" "".
Definition taskCanceledRecord (t : Task) : TX EventRecord :=
  newEventRecord (task_CompletedAt t) (canceled_event t) (task_ID t) (task_runID t) "" "" "".
Definition artifactCreatedRecord (a : Artifact) : TX EventRecord :=
  newEventRecord (art_CreatedAt a) (artifact_event a) (art_TaskID a) (art_RunID a) "" "" (art_ID a).
Definition commandCreatedRecord (c : Command) : TX EventRecord :=
  newEventRecord (cmd_CreatedAt c) (command_created_event c) (cmd_TaskID c) (cmd_RunID c) "" (cmd_ID c) "".
Definition commandClaimedRecord (c : Command) : TX EventRecord :=
  newEventRecord (cmd_ClaimedAt c) (command_claimed_event c) (cmd_TaskID c) (cmd_RunID c) "" (cmd_ID c) "".
Definition commandReleasedRecord (c : Command) (releasedBy reason : string) (recovered : bool) (releasedAt : Time)
    : TX EventRecord :=
  newEventRecord releasedAt (command_released_event c releasedBy releasedAt reason recovered) (cmd_TaskID c)
    (cmd_RunID c) "" (cmd_ID c) "".
Definition commandHandledRecord (c : Command) : TX EventRecord :=
  newEventRecord (cmd_HandledAt c) (command_handled_event c) (cmd_TaskID c) (cmd_RunID c) "" (cmd_ID c) "".

End tx.
#[global] Arguments saveEventsTx : simpl never.
