(* ===== verification/SqliteStore.v ===== *)
(** * SQLite orchestration store: operations

    src/ext/orchestrator/sqlite/store.go.  Every exported method holds the store's mutex
    for its whole body, runs one transaction and then publishes the events of what the
    transaction did; each is one function on [SqlStore].  Values that the closure of a
    transaction leaves in variables of the method are the result of the [TX] code.
    Where a Go map is ranged over (the peers of a dependency change), the order is
    unspecified; the model takes the order of [map_to_list].

    Inside a call, times go through [normalizeNow]; [ORDER BY created_at] and
    [expires_at <= ?] compare the RFC 3339 texts of the columns. *)

From S2P Require Import Prelude Errors Usage OrchTypes MemStore MemCommands OrchHistory Json TimeText OrchJson Runner SqliteTx.

Record SqlStore := MkSqlStore {
  sq_db : DB;
  sq_uuids : nat;
  sq_bus : bool;
  sq_published : list Event;
}.
#[export] Instance SqlStore_eta : RecordEta SqlStore := λ s,
  MkSqlStore (sq_db s) (sq_uuids s) (sq_bus s) (sq_published s).
(** [NewStore] on a new file, with or without [WithEventBus]. *)
Definition sql_NewStore (bus : bool) : SqlStore := MkSqlStore empty_db 0 bus [].

Definition connect (s : SqlStore) : Conn := MkConn (sq_db s) 0 0 (sq_uuids s).
Definition disconnect (c : Conn) (s : SqlStore) : SqlStore :=
  s <| sq_db := c_db c |> <| sq_uuids := c_uuids c |>.
Definition sql_publish (es : list Event) (s : SqlStore) : SqlStore :=
  if sq_bus s then s <| sq_published ::= λ l, l ++ es |> else s.
(** A method: its code on the connection, then what it publishes and returns. *)
Definition method {A B} (m : TX A) (finish : A → list Event * res B) (s : SqlStore) : SqlStore * res B :=
  match m (connect s) with
  | (c, Err e) => (disconnect c s, Err e)
  | (c, Ok a) => let '(es, r) := finish a in (sql_publish es (disconnect c s), r)
  end.
(** A method that only reads. *)
Definition read_only {A} (m : TX A) (s : SqlStore) : res A := (m (connect s)).2.

(** ** Helpers that differ from the in-memory store *)

Definition sql_append_unique (out : list string) (v : string) : list string :=
  if bool_decide (v ∈ out) then out else out ++ [v].
Definition sql_appendUniqueStrings (src values : list string) : list string :=
  foldl sql_append_unique src values.
Definition sql_cancelReason (reason : string) : string :=
  if negb (String.eqb reason "") then reason else "task canceled".
Definition sql_retryReason (reason : string) : string :=
  if negb (String.eqb reason "") then "command retry: " +:+ reason else "command retry".
Definition errorString (e : option error) (fallback : string) : string :=
  match e with None => fallback | Some e => Error e end.

Section store.
Context {CF : SqlConfig} {E : Env}.

(** [requeueTask]: the changed task, its last run and its last attempt. *)
Definition requeueTask (task : Task) (now : Time) (rollbackAttempt : bool) : TX (Task * string * Z) :=
  now ← normalizeNowTx now;
  let lastRunID := task_runID task in
  let lastAttempt := task_Attempt task in
  let task := task <| task_Status := TaskPending |> <| task_Result := None |> <| task_Run := None |>
                   <| task_StartedAt := zero_time |> <| task_CompletedAt := zero_time |>
                   <| task_UpdatedAt := now |> in
  let task := if rollbackAttempt && (task_Attempt task >? 0)
              then task <| task_Attempt ::= λ n, n - 1 |> else task in
  mret (task, lastRunID, lastAttempt).

(** ** Dependencies *)

Fixpoint dependencies_exist (ids : list string) : TX unit :=
  match ids with
  | [] => mret tt
  | id :: ids =>
    r ← try (loadTaskTx id);
    match r with
    | Err e => throw (if Is e ErrTaskNotFound then ErrTaskDependencyNotFound else e)
    | Ok _ => dependencies_exist ids
    end
  end.
Definition validateTaskDependenciesTx (blocks blockedBy : list string) : TX unit :=
  dependencies_exist blocks;; dependencies_exist blockedBy.

(** One direction of [linkTaskDependenciesTx]: the peers are loaded, changed and saved;
    [updated] collects the changed ones. *)
Fixpoint link_peers (add : Task → Task) (count : Task → nat) (now : Time) (ids : list string)
    (updated : gmap string Task) : TX (gmap string Task) :=
  match ids with
  | [] => mret updated
  | id :: ids =>
    peer ← loadTaskTx id;
    let peer' := add peer in
    if bool_decide (count peer' = count peer) then link_peers add count now ids updated
    else
      let peer' := peer' <| task_UpdatedAt := now |> in
      saveTaskTx peer';;
      link_peers add count now ids (<[task_ID peer' := peer']> updated)
  end.
Definition linkTaskDependenciesTx (task : Task) (now : Time) : TX (list Task) :=
  updated ← link_peers (λ p, p <| task_BlockedBy ::= λ l, sql_appendUniqueStrings l [task_ID task] |>)
              (λ p, length (task_BlockedBy p)) now (task_Blocks task) ∅;
  updated ← link_peers (λ p, p <| task_Blocks ::= λ l, sql_appendUniqueStrings l [task_ID task] |>)
              (λ p, length (task_Blocks p)) now (task_BlockedBy task) updated;
  mret (map_to_list updated).*2.

Fixpoint blocked_by (ids : list string) : TX bool :=
  match ids with
  | [] => mret false
  | id :: ids =>
    blocker ← tryLoadTaskTx id;
    match blocker with
    | None => blocked_by ids
    | Some blocker => if bool_decide (task_Status blocker = TaskCompleted) then blocked_by ids else mret true
    end
  end.
Definition isBlockedTx (task : Task) : TX bool := blocked_by (task_BlockedBy task).

(** ** Tasks *)

(** The records of a changed task and of its changed peers, in one go. *)
Definition save_task_records (own : TX EventRecord) (peers : list Task) : TX unit :=
  record ← own;
  records ← mapM taskUpdatedRecord peers;
  saveEventsTx (record :: records).

Definition sql_CreateTask (req : CreateTaskRequest) : SqlStore → SqlStore * res Task :=
  method (withTx (
    validateTaskDependenciesTx (ctr_Blocks req) (ctr_BlockedBy req);;
    now ← time_Now;
    id ← newID "task";
    let task :=
      MkTask id (ctr_Kind req) (ctr_Subject req) (ctr_Description req) (ctr_Input req)
        TaskPending 0 (ctr_MaxAttempts req) (ctr_Blocks req) (ctr_BlockedBy req)
        (ctr_Metadata req) None None "" now now zero_time zero_time in
    peers ← linkTaskDependenciesTx task now;
    saveTaskTx task;;
    save_task_records (taskCreatedRecord task) peers;;
    mret (task, peers)))
  (λ '(task, peers), (created_event task :: (updated_event <$> peers), Ok task)).

Definition sql_GetTask (id : string) : SqlStore → res Task := read_only (loadTask id).
Definition sql_ListTasks (filter : TaskFilter) : SqlStore → res (list Task) :=
  read_only (tasks ← listTasksTx; mret (List.filter (λ t, matchesFilter t filter) tasks)).

Definition sql_UpdateTask (req : UpdateTaskRequest) (s : SqlStore) : SqlStore * res Task :=
  if String.eqb (utr_ID req) "" then (s, Err (ENew "gollem/orchestrator/sqlite: task id must not be empty"))
  else
  method (withTx (
    task ← loadTaskTx (utr_ID req);
    validateTaskDependenciesTx (utr_AddBlocks req) (utr_AddBlockedBy req);;
    let task := match utr_Subject req with Some v => task <| task_Subject := v |> | None => task end in
    let task := match utr_Description req with Some v => task <| task_Description := v |> | None => task end in
    let task := task <| task_Blocks ::= λ l, sql_appendUniqueStrings l (utr_AddBlocks req) |> in
    let task := task <| task_BlockedBy ::= λ l, sql_appendUniqueStrings l (utr_AddBlockedBy req) |> in
    let task := task <| task_Metadata ::= λ m, merge_metadata m (utr_Metadata req) |> in
    now ← time_Now;
    let task := task <| task_UpdatedAt := now |> in
    peers ← linkTaskDependenciesTx task now;
    saveTaskTx task;;
    save_task_records (taskUpdatedRecord task) peers;;
    mret (task, peers)))
  (λ '(task, peers), (updated_event task :: (updated_event <$> peers), Ok task)) s.

(** The tasks that named the deleted one, without it. *)
Fixpoint unlink_peers (id : string) (now : Time) (tasks : list Task) : TX (list Task) :=
  match tasks with
  | [] => mret []
  | task :: tasks =>
    let task' := task <| task_Blocks ::= λ l, removeString l id |>
                      <| task_BlockedBy ::= λ l, removeString l id |> in
    if bool_decide (length (task_Blocks task') = length (task_Blocks task))
       && bool_decide (length (task_BlockedBy task') = length (task_BlockedBy task))
    then unlink_peers id now tasks
    else
      let task' := task' <| task_UpdatedAt := now |> in
      saveTaskTx task';;
      peers ← unlink_peers id now tasks;
      mret (task' :: peers)
  end.
Definition sql_DeleteTask (id : string) : SqlStore → SqlStore * res unit :=
  method (
    now ← time_Now;
    withTx (
      loadTaskTx id;;
      wrap "delete task: " (exec (λ db, db <| tbl_tasks ::= delete id |>));;
      deleteLeaseTx "task lease" id;;
      wrap "delete task artifacts: " (exec (λ db,
        db <| tbl_artifacts ::= filter (λ kr, arow_task_id kr.2 ≠ id) |>));;
      tasks ← listTasksTx;
      peers ← unlink_peers id now tasks;
      save_task_records (taskDeletedRecord id now) peers;;
      mret (now, peers)))
  (λ '(now, peers), (deleted_event id now :: (updated_event <$> peers), Ok tt)).

(** ** Claims *)

Definition sql_lease_ttl_error : error := ENew "gollem/orchestrator/sqlite: lease ttl must be positive".

(** What [claimTaskTx] returns besides errors of the database: a claim, or the reason
    there is none, with a task whose attempts are used up. *)
Inductive ClaimResult :=
| Claimed (claim : ClaimedTask)
| Refused (exhausted : option Task) (e : error).

Definition claim_start_tx (task : Task) (req : ClaimTaskRequest) (now : Time) : TX ClaimResult :=
  runID ← newID "run";
  let attempt := task_Attempt task + 1 in
  let run := MkRunRef runID (task_ID task) (claim_WorkerID req) attempt now in
  let task := task <| task_Attempt := attempt |> <| task_Status := TaskRunning |>
                   <| task_Run := Some run |> <| task_Result := None |>
                   <| task_LastError := "" |> <| task_StartedAt := now |>
                   <| task_CompletedAt := zero_time |> <| task_UpdatedAt := now |> in
  saveTaskTx task;;
  leaseID ← newID "lease";
  token ← newID "lease-token";
  let lease := MkLease leaseID (task_ID task) (claim_WorkerID req) token now
                 (TimeAdd now (claim_LeaseTTL req)) in
  saveLeaseTx lease;;
  mret (Claimed (MkClaimedTask task lease (Some run))).

(** The task is returned whether or not it was changed. *)
Definition claim_exhausted_tx (task : Task) (now : Time) : TX ClaimResult :=
  if negb (bool_decide (task_Status task = TaskCompleted)) && negb (bool_decide (task_Status task = TaskFailed))
  then
    let task := task <| task_Status := TaskFailed |> <| task_LastError := "task exhausted max attempts" |>
                     <| task_CompletedAt := now |> <| task_UpdatedAt := now |> in
    saveTaskTx task;;
    deleteLeaseTx "exhausted lease" (task_ID task);;
    mret (Refused (Some task) ErrNoReadyTask)
  else mret (Refused (Some task) ErrNoReadyTask).

Definition claimTaskTx (taskID : string) (req : ClaimTaskRequest) (now : Time) : TX ClaimResult :=
  task ← loadTaskTx taskID;
  if containsString (claim_ExcludeTaskIDs req) taskID then mret (Refused None ErrNoReadyTask)
  else if negb (matchesKinds task (claim_Kinds req)) then mret (Refused None ErrNoReadyTask)
  else
    blocked ← isBlockedTx task;
    if (blocked : bool) then mret (Refused None ErrTaskBlocked)
    else
      lease ← tryLoadLeaseTx taskID;
      let leaseExpired := match lease with Some l => negb (After (lease_ExpiresAt l) now) | None => false end in
      let hasActiveLease := match lease with Some _ => negb leaseExpired | None => false end in
      if hasActiveLease then mret (Refused None ErrNoReadyTask)
      else if exhaustedAttempts task then claim_exhausted_tx task now
      else
        match task_Status task with
        | TaskPending => claim_start_tx task req now
        | TaskRunning =>
          if negb leaseExpired && bool_decide (is_Some lease) then mret (Refused None ErrNoReadyTask)
          else claim_start_tx task req now
        | _ => mret (Refused None ErrNoReadyTask)
        end.

(** The loop of [ClaimReadyTask]; [failed] are the tasks it found exhausted and
    [records] their records, which are saved at its end. *)
Fixpoint claim_ready_scan (ids : list string) (req : ClaimTaskRequest) (now : Time)
    (failed : list Task) (records : list EventRecord) : TX (option ClaimedTask * list Task) :=
  match ids with
  | [] => saveEventsTx records;; mret (None, failed)
  | id :: ids =>
    r ← try (claimTaskTx id req now);
    match r with
    | Ok (Claimed claim) =>
      record ← taskClaimedRecord (claimed_Task claim) (claimed_Lease claim);
      saveEventsTx (records ++ [record]);;
      mret (Some claim, failed)
    | Ok (Refused exhausted e) =>
      '(failed, records) ← match exhausted with
                           | None => mret (failed, records)
                           | Some t => record ← taskFailedRecord t; mret (failed ++ [t], records ++ [record])
                           end;
      if Is e ErrNoReadyTask || Is e ErrTaskBlocked then claim_ready_scan ids req now failed records
      else throw e
    | Err e =>
      if Is e ErrNoReadyTask || Is e ErrTaskBlocked then claim_ready_scan ids req now failed records
      else throw e
    end
  end.
Definition sql_ClaimReadyTask (req : ClaimTaskRequest) (s : SqlStore) : SqlStore * res ClaimedTask :=
  if claim_LeaseTTL req <=? 0 then (s, Err sql_lease_ttl_error)
  else
  method (
    now ← normalizeNowTx (claim_Now req);
    withTx (ids ← listTaskIDsTx; claim_ready_scan ids req now [] []))
  (λ '(claim, failed),
     let es := failed_event <$> failed in
     match claim with
     | None => (es, Err ErrNoReadyTask)
     | Some c => (es ++ [claimed_event (claimed_Task c) (claimed_Lease c)], Ok c)
     end) s.

Definition sql_ClaimTask (taskID : string) (req : ClaimTaskRequest) (s : SqlStore) : SqlStore * res ClaimedTask :=
  if claim_LeaseTTL req <=? 0 then (s, Err sql_lease_ttl_error)
  else
  method (
    now ← normalizeNowTx (claim_Now req);
    withTx (
      r ← claimTaskTx taskID req now;
      match r with
      | Refused (Some t) e =>
        record ← taskFailedRecord t;
        saveEventsTx [record];;
        if Is e ErrNoReadyTask then mret (inr t) else throw e
      | Refused None e => throw e
      | Claimed claim =>
        record ← taskClaimedRecord (claimed_Task claim) (claimed_Lease claim);
        saveEventsTx [record];;
        mret (inl claim)
      end))
  (λ r, match r with
        | inr t => ([failed_event t], Err ErrNoReadyTask)
        | inl c => ([claimed_event (claimed_Task c) (claimed_Lease c)], Ok c)
        end) s.

(** ** Settling a task *)

Definition validateLeaseTx (taskID leaseToken : string) (now : Time) : TX (Task * Lease) :=
  task ← loadTaskTx taskID;
  lease ← loadLeaseTx taskID;
  if negb (String.eqb (lease_Token lease) leaseToken) then throw ErrLeaseMismatch
  else
    now ← normalizeNowTx now;
    if negb (After (lease_ExpiresAt lease) now) then throw ErrLeaseExpired else mret (task, lease).

Definition outcome_artifact (taskID runID : string) (createdAt : Time) (spec : ArtifactSpec) : TX Artifact :=
  id ← newID "artifact";
  let a := MkArtifact id taskID runID (spec_Kind spec) (spec_Name spec) (spec_ContentType spec) (spec_Body spec)
             (spec_Metadata spec) createdAt in
  saveArtifactTx a;; mret a.
Definition createOutcomeArtifactsTx (task : Task) (artifacts : list ArtifactSpec) (createdAt : Time)
    : TX (list Artifact) :=
  mapM (outcome_artifact (task_ID task) (task_runID task) createdAt) artifacts.

Definition sql_CompleteTask (taskID leaseToken : string) (outcome : option TaskOutcome) (now : Time)
    : SqlStore → SqlStore * res Task :=
  method (
    now ← normalizeNowTx now;
    withTx (
      '(task, lease) ← validateLeaseTx taskID leaseToken now;
      let result := match outcome with Some o => outcome_Result o | None => None end in
      let result := (λ r, if IsZero (result_CompletedAt r) then r <| result_CompletedAt := now |> else r) <$> result in
      let task := task <| task_Status := TaskCompleted |> <| task_Result := result |>
                       <| task_LastError := "" |> <| task_CompletedAt := now |> <| task_UpdatedAt := now |> in
      saveTaskTx task;;
      deleteLeaseTx "completed lease" (lease_TaskID lease);;
      artifacts ← match outcome with
                  | Some o => createOutcomeArtifactsTx task (outcome_Artifacts o) now
                  | None => mret []
                  end;
      record ← taskCompletedRecord task;
      records ← mapM artifactCreatedRecord artifacts;
      saveEventsTx (record :: records);;
      mret (task, artifacts)))
  (λ '(task, artifacts), (completed_event task :: (artifact_event <$> artifacts), Ok task)).

(** [inl]: the task went back to the queue. *)
Definition sql_FailTask (taskID leaseToken : string) (runErr : option error) (now : Time)
    : SqlStore → SqlStore * res Task :=
  method (
    now ← normalizeNowTx now;
    withTx (
      '(task, lease) ← validateLeaseTx taskID leaseToken now;
      let retryable := match runErr with Some e => isRetryable e | None => false end in
      if retryable && negb (exhaustedAttempts task) then
        '(task, lastRunID, lastAttempt) ← requeueTask task now false;
        let task := task <| task_LastError := errorString runErr "retryable failure" |> in
        saveTaskTx task;;
        deleteLeaseTx "requeued lease" (lease_TaskID lease);;
        record ← taskRequeuedRecord task lastRunID lastAttempt "retryable failure";
        saveEventsTx [record];;
        mret (inl (task, lastRunID, lastAttempt))
      else
        let task := task <| task_Status := TaskFailed |> <| task_Result := None |>
                         <| task_LastError := errorString runErr "task failed" |>
                         <| task_CompletedAt := now |> <| task_UpdatedAt := now |> in
        saveTaskTx task;;
        deleteLeaseTx "failed lease" (lease_TaskID lease);;
        record ← taskFailedRecord task;
        saveEventsTx [record];;
        mret (inr task)))
  (λ r, match r with
        | inl (task, lastRunID, lastAttempt) =>
          ([requeued_event task lastRunID lastAttempt "retryable failure"], Ok task)
        | inr task => if bool_decide (task_Status task = TaskPending) then ([], Ok task)
                      else ([failed_event task], Ok task)
        end).

(** The guard of [CancelTask]. *)
Definition cancel_guard_tx (taskID leaseToken : string) (now : Time) (task : Task) : TX unit :=
  match task_Status task with
  | TaskPending => if negb (String.eqb leaseToken "") then throw ErrLeaseMismatch else mret tt
  | TaskRunning =>
    lease ← loadLeaseTx taskID;
    if negb (After (lease_ExpiresAt lease) now) then throw ErrLeaseExpired
    else if String.eqb leaseToken "" || negb (String.eqb (lease_Token lease) leaseToken)
    then throw ErrLeaseMismatch
    else mret tt
  | _ => throw ErrTaskNotCancelable
  end.
Definition sql_CancelTask (taskID leaseToken reason : string) (now : Time) : SqlStore → SqlStore * res Task :=
  method (
    now ← normalizeNowTx now;
    withTx (
      task ← loadTaskTx taskID;
      cancel_guard_tx taskID leaseToken now task;;
      let task := task <| task_Status := TaskCanceled |> <| task_Result := None |>
                       <| task_LastError := sql_cancelReason reason |>
                       <| task_CompletedAt := now |> <| task_UpdatedAt := now |> in
      saveTaskTx task;;
      deleteLeaseTx "canceled lease" taskID;;
      record ← taskCanceledRecord task;
      saveEventsTx [record];;
      mret task))
  (λ task, ([canceled_event task], Ok task)).

Definition sql_RetryTask (taskID reason : string) (now : Time) : SqlStore → SqlStore * res Task :=
  method (
    now ← normalizeNowTx now;
    withTx (
      task ← loadTaskTx taskID;
      if negb (bool_decide (task_Status task = TaskFailed)) && negb (bool_decide (task_Status task = TaskCanceled))
      then throw ErrTaskNotRetryable
      else
        '(task, lastRunID, lastAttempt) ← requeueTask task now false;
        let task := task <| task_LastError := "" |> <| task_Attempt := 0 |> in
        saveTaskTx task;;
        deleteLeaseTx "retried lease" taskID;;
        record ← taskRequeuedRecord task lastRunID lastAttempt (sql_retryReason reason);
        saveEventsTx [record];;
        mret (task, lastRunID, lastAttempt)))
  (λ '(task, lastRunID, lastAttempt),
     ([requeued_event task lastRunID lastAttempt (sql_retryReason reason)], Ok task)).

(** ** Leases *)

Definition sql_GetLease (taskID : string) : SqlStore → res Lease := read_only (loadLease taskID).

Definition sql_RenewLease (taskID leaseToken : string) (ttl : Duration) (now : Time) (s : SqlStore)
    : SqlStore * res Lease :=
  if ttl <=? 0 then (s, Err sql_lease_ttl_error)
  else
  method (
    now ← normalizeNowTx now;
    withTx (
      lease ← loadLeaseTx taskID;
      if negb (String.eqb (lease_Token lease) leaseToken) then throw ErrLeaseMismatch
      else if negb (After (lease_ExpiresAt lease) now) then throw ErrLeaseExpired
      else
        let lease := lease <| lease_ExpiresAt := TimeAdd now ttl |> in
        saveLeaseTx lease;;
        task ← tryLoadTaskTx taskID;
        let runID := match task with Some t => task_runID t | None => "" end in
        record ← leaseRenewedRecord lease runID;
        saveEventsTx [record];;
        mret (lease, runID)))
  (λ '(lease, runID), ([renewed_event lease runID], Ok lease)) s.

Definition sql_ReleaseLease (taskID leaseToken : string) : SqlStore → SqlStore * res unit :=
  method (
    releasedAt ← time_Now;
    withTx (
      lease ← loadLeaseTx taskID;
      if negb (String.eqb (lease_Token lease) leaseToken) then throw ErrLeaseMismatch
      else
        task ← tryLoadTaskTx taskID;
        '(runID, resultStatus, requeued) ←
          match task with
          | Some t =>
            if bool_decide (task_Status t = TaskRunning) then
              now ← time_Now;
              '(t, lastRunID, lastAttempt) ← requeueTask t now true;
              saveTaskTx t;;
              mret (lastRunID, TaskPending, Some (t, lastAttempt))
            else mret (task_runID t, task_Status t, None)
          | None => mret (""%string, TaskStatusNone, None)
          end;
        deleteLeaseTx "released lease" taskID;;
        record ← leaseReleasedRecord lease runID (bool_decide (is_Some requeued)) resultStatus "lease released"
                   false releasedAt;
        records ← match requeued with
                  | Some (t, lastAttempt) =>
                    r ← taskRequeuedRecord t runID lastAttempt "lease released"; mret [r]
                  | None => mret []
                  end;
        saveEventsTx (record :: records);;
        mret (lease, runID, resultStatus, requeued, releasedAt)))
  (λ '(lease, runID, resultStatus, requeued, releasedAt),
     (released_event lease runID (bool_decide (is_Some requeued)) resultStatus "lease released" false releasedAt ::
        match requeued with
        | Some (t, lastAttempt) => [requeued_event t runID lastAttempt "lease released"]
        | None => []
        end, Ok tt)).

(** ** Lease recovery *)

(** What one recovery publishes: the release, and the failed or the requeued task. *)
Record RecoveryPublication := MkRecoveryPublication {
  pub_release : Event; pub_failed : option Event; pub_requeued : option Event }.

Definition recover_lease_tx (taskID : string) (now : Time) : TX (option (LeaseRecovery * RecoveryPublication)) :=
  lease ← tryLoadLeaseTx taskID;
  match lease with
  | None => mret None
  | Some lease =>
    if After (lease_ExpiresAt lease) now then mret None
    else
    task ← tryLoadTaskTx taskID;
    match task with
    | None => deleteLeaseTx "orphaned expired lease" taskID;; mret None
    | Some task =>
      let recovery status requeued := MkLeaseRecovery task lease now status requeued "lease expired" in
      if bool_decide (task_Status task = TaskRunning) && exhaustedAttempts task then
        let failed := task <| task_Status := TaskFailed |> <| task_Result := None |>
                           <| task_LastError := "lease expired" |>
                           <| task_CompletedAt := now |> <| task_UpdatedAt := now |> in
        saveTaskTx failed;;
        deleteLeaseTx "recovered expired lease" taskID;;
        r1 ← leaseReleasedRecord lease (task_runID task) false TaskFailed "lease expired" true now;
        r2 ← taskFailedRecord failed;
        saveEventsTx [r1; r2];;
        mret (Some (recovery TaskFailed false, MkRecoveryPublication
          (released_event lease (task_runID task) false TaskFailed "lease expired" true now)
          (Some (failed_event failed)) None))
      else if bool_decide (task_Status task = TaskRunning) then
        '(requeued, lastRunID, lastAttempt) ← requeueTask task now false;
        let requeued := requeued <| task_LastError := "lease expired" |> in
        saveTaskTx requeued;;
        deleteLeaseTx "recovered expired lease" taskID;;
        r1 ← leaseReleasedRecord lease lastRunID true TaskPending "lease expired" true now;
        r2 ← taskRequeuedRecord requeued lastRunID lastAttempt "lease expired";
        saveEventsTx [r1; r2];;
        mret (Some (recovery TaskPending true, MkRecoveryPublication
          (released_event lease lastRunID true TaskPending "lease expired" true now)
          None (Some (requeued_event requeued lastRunID lastAttempt "lease expired"))))
      else
        deleteLeaseTx "stale expired lease" taskID;;
        r1 ← leaseReleasedRecord lease (task_runID task) false (task_Status task) "lease expired" true now;
        saveEventsTx [r1];;
        mret (Some (recovery (task_Status task) false, MkRecoveryPublication
          (released_event lease (task_runID task) false (task_Status task) "lease expired" true now) None None))
    end
  end.

(** Releases first, then failures, then requeued tasks. *)
Definition recovery_events (l : list RecoveryPublication) : list Event :=
  (pub_release <$> l) ++ omap pub_failed l ++ omap pub_requeued l.

Definition expired_rows (now : string) (db : DB) : list (string * LeaseRow) :=
  List.filter (λ r, String.leb (lrow_expires_at r.2) now) (ordered lrow_expires_at (tbl_leases db)).
Fixpoint recover_leases_tx (ids : list string) (now : Time) : TX (list (LeaseRecovery * RecoveryPublication)) :=
  match ids with
  | [] => mret []
  | id :: ids =>
    r ← recover_lease_tx id now;
    rs ← recover_leases_tx ids now;
    mret (match r with Some r => r :: rs | None => rs end)
  end.
Definition sql_RecoverExpiredLeases (now : Time) : SqlStore → SqlStore * res (list LeaseRecovery) :=
  method (
    now ← normalizeNowTx now;
    withTx (
      text ← formatTime now;
      ids ← wrap "list expired leases: " (query (λ db, (expired_rows text db).*1));
      recover_leases_tx ids now))
  (λ rs, (recovery_events rs.*2, Ok rs.*1)).
Definition sql_RecoverExpiredLease (taskID : string) (now : Time) : SqlStore → SqlStore * res (option LeaseRecovery) :=
  method (
    now ← normalizeNowTx now;
    withTx (recover_lease_tx taskID now))
  (λ r, (recovery_events (option_list (snd <$> r)), Ok (fst <$> r))).

(** ** Artifacts *)

Definition sql_CreateArtifact (req : CreateArtifactRequest) (s : SqlStore) : SqlStore * res Artifact :=
  if String.eqb (car_TaskID req) "" then (s, Err ErrArtifactTaskRequired)
  else
  method (withTx (
    loadTaskTx (car_TaskID req);;
    id ← newID "artifact";
    now ← time_Now;
    let a := MkArtifact id (car_TaskID req) (car_RunID req) (car_Kind req) (car_Name req)
               (car_ContentType req) (car_Body req) (car_Metadata req) now in
    saveArtifactTx a;;
    record ← artifactCreatedRecord a;
    saveEventsTx [record];;
    mret a))
  (λ a, ([artifact_event a], Ok a)) s.
Definition sql_GetArtifact (id : string) : SqlStore → res Artifact := read_only (loadArtifact id).
Definition sql_ListArtifacts (f : ArtifactFilter) : SqlStore → res (list Artifact) :=
  read_only (
    rows ← wrap "list artifacts: " (query (λ db, ordered arow_created_at (tbl_artifacts db)));
    all ← lift_res (mapM (λ r, scanArtifact (arow_payload r.2)) rows);
    mret (List.filter (λ a, matchesArtifactFilter a f) all)).

(** ** Commands *)

(** The new target of a pending command, and whether it differs. *)
Definition refreshed_target (task : Task) (c : Command) : Command :=
  match cmd_Kind c with
  | CommandCancelTask =>
    match task_Status task with
    | TaskRunning =>
      c <| cmd_RunID := task_runID task |>
        <| cmd_TargetWorkerID := match task_Run task with Some run => run_WorkerID run | None => "" end |>
    | TaskPending => c <| cmd_RunID := "" |> <| cmd_TargetWorkerID := "" |>
    | _ => c
    end
  | CommandAbortRun =>
    match task_Status task, task_Run task with
    | TaskRunning, Some run =>
      if negb (String.eqb (run_WorkerID run) "") then
        let c := if String.eqb (cmd_RunID c) "" then c <| cmd_RunID := run_ID run |> else c in
        if String.eqb (run_ID run) (cmd_RunID c) then c <| cmd_TargetWorkerID := run_WorkerID run |>
        else c <| cmd_TargetWorkerID := "" |>
      else c <| cmd_TargetWorkerID := "" |>
    | _, _ => c <| cmd_TargetWorkerID := "" |>
    end
  | CommandRetryTask =>
    let c := c <| cmd_TargetWorkerID := "" |> in
    match task_Run task with None => c <| cmd_RunID := "" |> | Some _ => c end
  | CommandKindOther _ => c
  end.
Definition target_changed (c c' : Command) : bool :=
  negb (String.eqb (cmd_RunID c) (cmd_RunID c') && String.eqb (cmd_TargetWorkerID c) (cmd_TargetWorkerID c')).
Definition refreshCommandTargetTx (c : Command) : TX Command :=
  task ← tryLoadTaskTx (cmd_TaskID c);
  match task with
  | None =>
    let c := c <| cmd_TargetWorkerID := "" |> <| cmd_RunID := "" |> in
    saveCommandTx c;; mret c
  | Some task =>
    let c' := refreshed_target task c in
    if target_changed c c' then saveCommandTx c';; mret c' else mret c
  end.

Definition sql_validateCommandTarget (task : Task) (req : CreateCommandRequest) : res (string * string) :=
  let runID := if String.eqb (ccr_RunID req) "" then task_runID task else ccr_RunID req in
  match ccr_Kind req with
  | CommandCancelTask =>
    match task_Status task with
    | TaskPending => Ok (runID, "")
    | TaskRunning =>
      match task_Run task with
      | None => Err ErrInvalidCommand
      | Some run => if String.eqb (run_WorkerID run) "" then Err ErrInvalidCommand else Ok (runID, run_WorkerID run)
      end
    | _ => Err ErrTaskNotCancelable
    end
  | CommandAbortRun =>
    match task_Status task, task_Run task with
    | TaskRunning, Some run =>
      if String.eqb (run_WorkerID run) "" then Err ErrRunNotFound
      else if negb (String.eqb (ccr_RunID req) "") && negb (String.eqb (run_ID run) (ccr_RunID req))
      then Err ErrRunNotFound
      else Ok (run_ID run, run_WorkerID run)
    | _, _ => Err ErrRunNotFound
    end
  | CommandRetryTask =>
    match task_Status task with
    | TaskFailed | TaskCanceled => Ok (runID, "")
    | _ => Err ErrTaskNotRetryable
    end
  | CommandKindOther _ => Err ErrInvalidCommand
  end.

Definition sql_CreateCommand (req : CreateCommandRequest) (s : SqlStore) : SqlStore * res Command :=
  if String.eqb (ccr_TaskID req) "" then (s, Err ErrTaskNotFound)
  else
  method (withTx (
    task ← loadTaskTx (ccr_TaskID req);
    '(runID, targetWorkerID) ← lift_res (sql_validateCommandTarget task req);
    id ← newID "command";
    now ← time_Now;
    let c := MkCommand id (ccr_Kind req) (ccr_TaskID req) runID targetWorkerID (ccr_Reason req) (ccr_Metadata req)
               CommandPending "" "" "" now zero_time zero_time in
    saveCommandTx c;;
    record ← commandCreatedRecord c;
    saveEventsTx [record];;
    mret c))
  (λ c, ([command_created_event c], Ok c)) s.
Definition sql_GetCommand (id : string) : SqlStore → res Command := read_only (loadCommandTx id).
Definition scan_commands (rows : list (string * CommandRow)) : res (list Command) :=
  mapM (λ r, scanCommand (crow_payload r.2)) rows.
Definition sql_ListCommands (f : CommandFilter) : SqlStore → res (list Command) :=
  read_only (
    rows ← wrap "list commands: " (query (λ db, ordered crow_created_at (tbl_commands db)));
    all ← lift_res (scan_commands rows);
    mret (List.filter (λ c, matchesCommandFilter c f) all)).
Definition sql_ListPendingCommandsForWorker (workerID : string) : SqlStore → res (list Command) :=
  read_only (
    rows ← wrap "list pending commands for worker: " (query (λ db,
      List.filter (λ r, String.eqb (crow_status r.2) "pending" &&
        (String.eqb (crow_target_worker_id r.2) "" || String.eqb (crow_target_worker_id r.2) workerID))
        (ordered crow_created_at (tbl_commands db))));
    lift_res (scan_commands rows)).

(** Claiming: the assignments, the save and the record. *)
Definition claim_command_tx (worker : string) (now : Time) (c : Command) : TX Command :=
  let c := claim_command worker now c in
  saveCommandTx c;;
  record ← commandClaimedRecord c;
  saveEventsTx [record];;
  mret c.
Definition sql_claim_worker_error : error :=
  ENew "gollem/orchestrator/sqlite: command claim worker id must not be empty".

(** A row is decoded when the loop reaches it. *)
Fixpoint claim_commands_tx (rows : list (string * CommandRow)) (worker : string) (now : Time) : TX Command :=
  match rows with
  | [] => throw ErrNoPendingCommand
  | (_, row) :: rows =>
    c ← lift_res (scanCommand (crow_payload row));
    if negb (bool_decide (cmd_Status c = CommandPending)) then claim_commands_tx rows worker now
    else
      c ← refreshCommandTargetTx c;
      if targets_other worker c then claim_commands_tx rows worker now
      else claim_command_tx worker now c
  end.
Definition sql_ClaimPendingCommand (req : ClaimCommandRequest) (s : SqlStore) : SqlStore * res Command :=
  if String.eqb (ccmd_WorkerID req) "" then (s, Err sql_claim_worker_error)
  else
  method (
    now ← normalizeNowTx (ccmd_Now req);
    withTx (
      rows ← wrap "list pending commands: " (query (λ db, ordered crow_created_at (tbl_commands db)));
      claim_commands_tx rows (ccmd_WorkerID req) now))
  (λ c, ([command_claimed_event c], Ok c)) s.
Definition sql_ClaimCommand (id : string) (req : ClaimCommandRequest) (s : SqlStore) : SqlStore * res Command :=
  if String.eqb (ccmd_WorkerID req) "" then (s, Err sql_claim_worker_error)
  else
  method (
    now ← normalizeNowTx (ccmd_Now req);
    withTx (
      c ← loadCommandTx id;
      if negb (bool_decide (cmd_Status c = CommandPending)) then throw ErrNoPendingCommand
      else
        c ← refreshCommandTargetTx c;
        if targets_other (ccmd_WorkerID req) c then throw ErrNoPendingCommand
        else claim_command_tx (ccmd_WorkerID req) now c))
  (λ c, ([command_claimed_event c], Ok c)) s.

Definition sql_HandleCommand (id claimToken handledBy : string) (now : Time) : SqlStore → SqlStore * res Command :=
  method (
    now ← normalizeNowTx now;
    withTx (
      c ← loadCommandTx id;
      if negb (claim_matches c claimToken) then throw ErrCommandClaimMismatch
      else
        let c := c <| cmd_Status := CommandHandled |> <| cmd_HandledBy := handledBy |>
                   <| cmd_HandledAt := now |> <| cmd_ClaimToken := "" |> in
        saveCommandTx c;;
        record ← commandHandledRecord c;
        saveEventsTx [record];;
        mret c))
  (λ c, ([command_handled_event c], Ok c)).

(** A claimed command goes back to pending. *)
Definition release_command_tx (c : Command) (reason : string) (recovered : bool) (releasedAt : Time) : TX Command :=
  let c' := release_command c in
  saveCommandTx c';;
  record ← commandReleasedRecord c' (cmd_ClaimedBy c) reason recovered releasedAt;
  saveEventsTx [record];;
  mret c'.
Definition sql_ReleaseCommand (id claimToken : string) : SqlStore → SqlStore * res unit :=
  method (withTx (
    c ← loadCommandTx id;
    if negb (claim_matches c claimToken) then throw ErrCommandClaimMismatch
    else
      releasedAt ← time_Now;
      c' ← release_command_tx c "command released" false releasedAt;
      mret (c', cmd_ClaimedBy c, releasedAt)))
  (λ '(c, releasedBy, releasedAt),
     ([command_released_event c releasedBy releasedAt "command released" false], Ok tt)).

Definition recovered_command_event (r : CommandRecovery) : Event :=
  command_released_event (crec_Command r) (crec_ReleasedBy r) (crec_RecoveredAt r) "claim expired" true.
Fixpoint recover_commands_tx (cs : list Command) (claimedBefore now : Time) : TX (list CommandRecovery) :=
  match cs with
  | [] => mret []
  | c :: cs =>
    if IsZero (cmd_ClaimedAt c) || After (cmd_ClaimedAt c) claimedBefore
    then recover_commands_tx cs claimedBefore now
    else
      c' ← release_command_tx c "claim expired" true now;
      rs ← recover_commands_tx cs claimedBefore now;
      mret (MkCommandRecovery c' now (cmd_ClaimedBy c) :: rs)
  end.
Definition sql_RecoverClaimedCommands (claimedBefore now : Time) : SqlStore → SqlStore * res (list CommandRecovery) :=
  method (
    now ← normalizeNowTx now;
    let claimedBefore := if IsZero claimedBefore then now else claimedBefore in
    withTx (
      rows ← wrap "list claimed commands: " (query (λ db,
        List.filter (λ r, String.eqb (crow_status r.2) "claimed") (ordered crow_created_at (tbl_commands db))));
      cs ← lift_res (scan_commands rows);
      recover_commands_tx cs claimedBefore now))
  (λ rs, (recovered_command_event <$> rs, Ok rs)).
Definition sql_RecoverClaimedCommand (id : string) (claimedBefore now : Time)
    : SqlStore → SqlStore * res (option CommandRecovery) :=
  method (
    now ← normalizeNowTx now;
    let claimedBefore := if IsZero claimedBefore then now else claimedBefore in
    withTx (
      r ← try (loadCommandTx id);
      match r with
      | Err e => if Is e ErrCommandNotFound then mret None else throw e
      | Ok c =>
        if negb (stale_claim c claimedBefore) then mret None
        else
          c' ← release_command_tx c "claim expired" true now;
          mret (Some (MkCommandRecovery c' now (cmd_ClaimedBy c)))
      end))
  (λ r, (recovered_command_event <$> option_list r, Ok r)).

(** ** Queries *)

Definition sql_ListActiveRuns (f : ActiveRunFilter) : SqlStore → res (list ActiveRunSummary) :=
  read_only (
    rows ← wrap "query active runs: " (query (λ db,
      List.filter (λ r, String.eqb (trow_status r.2) "running"
        && (bool_decide (arf_Kinds f = []) || bool_decide (trow_kind r.2 ∈ arf_Kinds f))
        && (String.eqb (arf_WorkerID f) "" ||
            bool_decide (json_extract ["Run"; "WorkerID"] (trow_payload r.2) = Some (arf_WorkerID f))))
        (ordered trow_created_at (tbl_tasks db))));
    tasks ← lift_res (scanTasks rows);
    mret (omap (λ t, match task_Run t with
                     | Some run => if String.eqb (run_ID run) "" then None else Some (run_summary t run)
                     | None => None
                     end) tasks)).
Definition sql_GetActiveRun (runID : string) (s : SqlStore) : res ActiveRunSummary :=
  if String.eqb runID "" then Err ErrRunNotFound
  else
  read_only (
    row ← query (λ db, List.find (λ r, String.eqb (trow_status r.2) "running"
        && bool_decide (json_extract ["Run"; "ID"] (trow_payload r.2) = Some runID))
        (ordered trow_created_at (tbl_tasks db)));
    match row with
    | None => throw ErrRunNotFound
    | Some row =>
      t ← lift_res (scanTask (trow_payload row.2));
      match task_Run t with
      | Some run => if String.eqb (run_ID run) "" then throw ErrRunNotFound else mret (run_summary t run)
      | None => throw ErrRunNotFound
      end
    end) s.

(** The left join of expired leases with their tasks. *)
Definition expired_summary (l : Lease) (t : option Task) : ExpiredLeaseSummary :=
  let run := t ≫= task_Run in
  MkExpiredLeaseSummary (lease_ID l) (lease_TaskID l) (match run with Some r => run_ID r | None => "" end)
    (lease_WorkerID l) (match run with Some r => run_Attempt r | None => 0 end) (lease_ExpiresAt l).
Definition sql_ListExpiredLeases (now : Time) : SqlStore → res (list ExpiredLeaseSummary) :=
  read_only (
    now ← normalizeNowTx now;
    text ← formatTime now;
    rows ← wrap "list expired leases: " (query (λ db,
      (λ r, (lrow_payload r.2, trow_payload <$> tbl_tasks db !! r.1)) <$> expired_rows text db));
    mapM (λ '(lp, tp),
      l ← lift_res (wrap_error "unmarshal expired lease payload: " (unmarshal lp));
      t ← match tp with
          | None => mret None
          | Some tp => t ← lift_res (wrap_error "unmarshal expired lease task payload: " (unmarshal tp)); mret (Some t)
          end;
      mret (expired_summary l t)) rows).

Definition stale_summary (c : Command) : StaleClaimedCommandSummary :=
  MkStaleClaimedCommandSummary (cmd_ID c) (cmd_Kind c) (cmd_TaskID c) (cmd_RunID c) (cmd_TargetWorkerID c)
    (cmd_ClaimedBy c) (cmd_ClaimedAt c) (cmd_Reason c).
Definition claimed_at_text (r : CommandRow) : string := default "" (json_extract ["ClaimedAt"] (crow_payload r)).
Definition sql_ListStaleClaimedCommands (claimedBefore : Time) : SqlStore → res (list StaleClaimedCommandSummary) :=
  read_only (
    claimedBefore ← normalizeNowTx claimedBefore;
    text ← formatTime claimedBefore;
    rows ← wrap "list stale claimed commands: " (query (λ db,
      List.filter (λ r, String.eqb (crow_status r.2) "claimed"
        && negb (String.eqb (claimed_at_text r.2) "") && String.leb (claimed_at_text r.2) text)
        (ordered claimed_at_text (tbl_commands db))));
    cs ← lift_res (scan_commands rows);
    mret (stale_summary <$> cs)).

(** ** Event history *)

Definition sql_GetEvent (id : string) : SqlStore → res EventRecord := read_only (loadEvent id).
Definition sql_ListEvents (f : EventFilter) : SqlStore → res (list EventRecord) := read_only (listEventsTx f).

End store.
