(* ===== verification/SqliteLogic.v ===== *)
(** * A program logic for the SQLite store

    [Abs] is the content of the database as Go values: the maps of tasks, leases,
    commands and artifacts, and the log of recorded events.  [Rep] relates a connection
    to it: every row holds a value that decodes to the abstract one, with columns that
    agree with it, and the event table is the log, numbered from one.  [hoare m Q X a]
    says what code on a connection does to the abstract content: [Q] holds when it
    succeeds, [X] of the error when it fails.  The rules of the file follow the structure
    of the code, so a proof about an operation never looks at rows, JSON or statements. *)

From S2P Require Import Prelude Errors Usage OrchTypes MemStore MemCommands OrchHistory Json Serialize Snapshot TimeText OrchJson Runner SqliteTx SqliteStore.

(** ** Values that JSON keeps

    A record survives when its strings are UTF-8 and its values of type [any] of a kind
    that survives ([text_task] and so on); a time that cannot be encoded makes
    [json.Marshal] fail and is never stored.  A record with other values of type [any]
    ([plain_task] and so on) is refused, or read back with the JSON forms of these values,
    which survive: see [task_written]. *)

Definition time_error : error := ENew "Time.MarshalJSON: year outside of range [0,9999]".

Section values.

Definition text_run (r : RunRef) : bool :=
  ValidString (run_ID r) && ValidString (run_TaskID r) && ValidString (run_WorkerID r).
Definition text_result (r : TaskResult) : bool :=
  ValidString (result_RunnerRunID r) && json_ok (result_Output r) && json_ok (result_Usage r)
  && json_ok (result_ToolState r) && json_ok (result_Metadata r).
Definition option_text {A} (f : A → bool) (x : option A) : bool := match x with None => true | Some a => f a end.
Definition text_task (t : Task) : bool :=
  ValidString (task_ID t) && ValidString (task_Kind t) && ValidString (task_Subject t)
  && ValidString (task_Description t) && ValidString (task_Input t)
  && forallb ValidString (task_Blocks t) && forallb ValidString (task_BlockedBy t)
  && json_ok (task_Metadata t) && option_text text_run (task_Run t) && option_text text_result (task_Result t)
  && ValidString (task_LastError t).
Definition text_lease (l : Lease) : bool :=
  ValidString (lease_ID l) && ValidString (lease_TaskID l) && ValidString (lease_WorkerID l)
  && ValidString (lease_Token l).
Definition text_command (c : Command) : bool :=
  ValidString (cmd_ID c) && json_ok (cmd_Kind c) && ValidString (cmd_TaskID c) && ValidString (cmd_RunID c)
  && ValidString (cmd_TargetWorkerID c) && ValidString (cmd_Reason c) && json_ok (cmd_Metadata c)
  && ValidString (cmd_ClaimToken c) && ValidString (cmd_ClaimedBy c) && ValidString (cmd_HandledBy c).
Definition text_artifact (a : Artifact) : bool :=
  ValidString (art_ID a) && ValidString (art_TaskID a) && ValidString (art_RunID a) && ValidString (art_Kind a)
  && ValidString (art_Name a) && ValidString (art_ContentType a) && json_ok (art_Metadata a).

(** The same without a condition on the values of type [any]. *)
Definition plain_result (r : TaskResult) : bool := ValidString (result_RunnerRunID r) && json_ok (result_Usage r).
Definition plain_task (t : Task) : bool :=
  ValidString (task_ID t) && ValidString (task_Kind t) && ValidString (task_Subject t)
  && ValidString (task_Description t) && ValidString (task_Input t)
  && forallb ValidString (task_Blocks t) && forallb ValidString (task_BlockedBy t)
  && option_text text_run (task_Run t) && option_text plain_result (task_Result t)
  && ValidString (task_LastError t).
Definition plain_command (c : Command) : bool :=
  ValidString (cmd_ID c) && json_ok (cmd_Kind c) && ValidString (cmd_TaskID c) && ValidString (cmd_RunID c)
  && ValidString (cmd_TargetWorkerID c) && ValidString (cmd_Reason c)
  && ValidString (cmd_ClaimToken c) && ValidString (cmd_ClaimedBy c) && ValidString (cmd_HandledBy c).
Definition plain_artifact (a : Artifact) : bool :=
  ValidString (art_ID a) && ValidString (art_TaskID a) && ValidString (art_RunID a) && ValidString (art_Kind a)
  && ValidString (art_Name a) && ValidString (art_ContentType a).

(** A value has a faithful JSON form, or a time in it cannot be encoded. *)
Definition survives `{Json A} (x : A) : Prop :=
  (json_ok x = true ∧ marshal x ≠ Ok JNull) ∨ marshal x = Err time_error.

Lemma survives_cases `{JsonLaws A} (x : A) :
  survives x → (∃ j, marshal x = Ok j ∧ unmarshal j = Ok x) ∨ marshal x = Err time_error.
Proof. intros [[Hx _]|Hx]; [left; by apply json_roundtrip|by right]. Qed.

Definition field_ok (f : res (list (string * json))) : Prop := is_ok f = true ∨ f = Err time_error.

Lemma object_cases fs :
  Forall field_ok fs → (Forall (λ f, is_ok f = true) fs) ∨ object fs = Err time_error.
Proof.
  unfold object. induction 1 as [|f fs Hf _ [IH|IH]]; [by left| |]; destruct Hf as [Hf| ->].
  - left. by constructor.
  - by right.
  - right. destruct f; [|done]. cbn. destruct (mapM id fs) as [ls|e]; [done|]. cbn in IH |- *. by simplify_eq.
  - by right.
Qed.

(** A struct survives when its fields do. *)
Lemma struct_survives `{Json A} (x : A) fs :
  marshal x = object fs → Forall field_ok fs → (Forall (λ f, is_ok f = true) fs → json_ok x = true) → survives x.
Proof.
  intros Hm Hf Hok. destruct (object_cases fs Hf) as [Ha|He]; [left|right; congruence].
  split; [by apply Hok|]. rewrite Hm. unfold object. by destruct (mapM id fs).
Qed.

Lemma put_ok `{JsonLaws A} k (x : A) : json_ok x = true → field_ok (put k x).
Proof. intros (j & Hj & _)%json_roundtrip. left. unfold put. by rewrite Hj. Qed.
Lemma put_string k s : ValidString s = true → field_ok (put k s).
Proof. intros _. by left. Qed.
Lemma put_strings k (l : list string) : forallb ValidString l = true → field_ok (put k l).
Proof. intros H. apply put_ok. exact H. Qed.
Lemma put_time k t : field_ok (put k (At t)).
Proof. unfold field_ok, put. cbn -[time_encodes FormatRFC3339Nano]. destruct (time_encodes t); [by left|by right]. Qed.
Lemma put_time_ok k t : is_ok (put k (At t)) = true → json_ok (At t) = true.
Proof. unfold put. cbn -[time_encodes FormatRFC3339Nano]. by destruct (time_encodes t). Qed.

(** A pointer field. *)
Definition option_survives `{Json A} (x : option A) : Prop := match x with Some a => survives a | None => True end.
Lemma put_pointer `{JsonLaws A} k (x : option A) : option_survives x → field_ok (put k x).
Proof.
  destruct x as [a|]; [|by left]. unfold field_ok, put. cbn. intros [[Ha Hn]| ->]; [left|by right].
  destruct (json_roundtrip a Ha) as (j & -> & _). done.
Qed.
Lemma put_pointer_ok `{Json A} k (x : option A) :
  option_survives x → is_ok (put k x) = true → json_ok x = true.
Proof.
  destruct x as [a|]; [|done]. unfold put. cbn. intros [[Ha Hn]| ->]; [|done]. rewrite Ha. intros _.
  destruct (marshal a) as [[]|]; done.
Qed.

Ltac fields_survive ok m :=
  intros Ht; eapply struct_survives;
  [ with_strategy opaque [object] reflexivity
  | unfold ok, option_text in Ht; rewrite ?andb_true_iff in Ht; destruct_and?;
    repeat (apply Forall_cons_2; [first [by apply put_string|by apply put_strings|apply put_time|by apply put_pointer
                                |by apply put_ok|by apply (put_ok _ (Int _))|by apply (put_ok _ (Bytes _))]|]);
    apply Forall_nil_2
  | intros Hf; rewrite !Forall_cons in Hf; destruct_and?; unfold ok, option_text in Ht; rewrite ?andb_true_iff in Ht; destruct_and?;
    match goal with |- json_ok ?x = _ => change (m x = true) end;
    match goal with |- ?f _ _ = _ => unfold f | |- ?f _ = _ => unfold f end; rewrite ?andb_true_iff;
    repeat split; first [done | by eapply put_time_ok | by eapply put_pointer_ok] ].

Lemma run_survives r : text_run r = true → survives r.
Proof. fields_survive text_run ok_runRef. Qed.
Lemma result_survives r : text_result r = true → survives r.
Proof. fields_survive text_result ok_taskResult. Qed.
Lemma lease_survives l : text_lease l = true → survives l.
Proof. fields_survive text_lease ok_lease. Qed.
Lemma command_survives c : text_command c = true → survives c.
Proof. fields_survive text_command ok_command. Qed.
Lemma artifact_survives a : text_artifact a = true → survives a.
Proof. fields_survive text_artifact ok_artifact. Qed.
Lemma task_survives t : text_task t = true → survives t.
Proof.
  intros Ht.
  assert (option_survives (task_Run t)) as Hrun.
  { unfold text_task in Ht. rewrite !andb_true_iff in Ht. destruct (task_Run t); [|done].
    apply run_survives. apply Ht. }
  assert (option_survives (task_Result t)) as Hres.
  { unfold text_task in Ht. rewrite !andb_true_iff in Ht. destruct (task_Result t); [|done].
    apply result_survives. apply Ht. }
  revert Ht. fields_survive text_task ok_task.
Qed.

(** *** Values that JSON changes *)

(** [x'] is read where [x] was written. *)
Definition reads `{Json A} (x x' : A) : Prop := ∃ j, marshal x = Ok j ∧ unmarshal j = Ok x'.
Lemma put_reads `{Json A} k (x x' : A) : reads x x' → ∃ l, put k x = Ok l ∧ only_key k l ∧ field l k = Ok x'.
Proof.
  intros (j & Hj & Hu). exists [(k, j)]. unfold put. rewrite Hj. split_and!; [done|unfold only_key; set_solver|].
  unfold field, get_key. cbn. by rewrite same_key_refl.
Qed.
Lemma put_is_ok `{Json A} k (x : A) : is_ok (put k x) = true → ∃ j, marshal x = Ok j.
Proof. unfold put. destruct (marshal x); [eauto|done]. Qed.
Lemma object_ok fs j : object fs = Ok j → Forall (λ f, is_ok f = true) fs ∧ j ≠ JNull.
Proof.
  unfold object. destruct (mapM id fs) as [ls|] eqn:E; [|done]. cbn. intros [= <-]. split; [|done].
  pose proof (mapM_error id fs) as H. rewrite E in H. apply Forall_forall. intros f Hf%list_elem_of_In.
  by apply (proj1 (forallb_forall _ _) (eq_sym H)).
Qed.

(** A value of type [any] is read in its JSON form. *)
Lemma any_reads (v : any) : is_ok (marshal v) = true → ∃ v', reads v v' ∧ json_ok v' = true.
Proof.
  destruct (marshal v) as [j|] eqn:Hj; [|done]. intros _. exists (unmarshal_any j).
  split; [by exists j|apply unmarshal_any_ok].
Qed.
Lemma map_reads (m : AnyMap) : is_ok (marshal m) = true → ∃ m', reads m m' ∧ json_ok m' = true.
Proof.
  destruct (marshal m) as [j|] eqn:Hj; [|done]. intros _.
  destruct (map_unmarshals m j Hj) as [m' Hm'].
  exists m'. split; [by exists j|by eapply any_map_ok].
Qed.
Lemma put_map_reads k (m : AnyMap) : is_ok (put k m) = true → ∃ m', reads m m' ∧ json_ok m' = true.
Proof. intros [j Hj]%put_is_ok. apply map_reads. by rewrite Hj. Qed.

(** Reads the fields of a struct, those of type [any] as the context says. *)
Ltac read_struct :=
  repeat match goal with
  | H : reads ?x _ |- context [put ?k ?x] =>
    let E := fresh in destruct (put_reads k x _ H) as (? & E & ? & ?); rewrite E; clear E H
  end;
  write_fields; eexists; split; [reflexivity|]; cbn [fields mjoin list_join mbind res_bind]; read_fields.
Ltac json_fields :=
  first [done | by eapply put_time_ok | by eapply put_pointer_ok].

Lemma result_written r j : plain_result r = true → marshal r = Ok j →
  ∃ o ts m, let r' := r <| result_Output := o |> <| result_ToolState := ts |> <| result_Metadata := m |> in
    unmarshal j = Ok r' ∧ text_result r' = true.
Proof.
  unfold plain_result. intros [Hs Hu]%andb_prop Hj. pose proof (object_ok _ _ Hj) as [Hf _].
  rewrite !Forall_cons in Hf. destruct Hf as (_ & Ho & _ & Hts & Hm & Ht & _).
  apply put_is_ok in Ho as [jo Ho]. destruct (any_reads (result_Output r)) as (o & Hro & Hok); [by rewrite Ho|].
  destruct (put_map_reads _ _ Hts) as (ts & Hrts & Htsok), (put_map_reads _ _ Hm) as (m & Hrm & Hmok).
  exists o, ts, m.
  set (r' := r <| result_Output := o |> <| result_ToolState := ts |> <| result_Metadata := m |>). cbv zeta. apply put_time_ok in Ht.
  assert (json_ok (result_RunnerRunID r) = true) as Hs' by exact Hs.
  assert (∃ j', marshal_taskResult r = Ok j' ∧ unmarshal_taskResult j' = Ok r') as (j' & Hj' & Hr').
  { unfold marshal_taskResult, unmarshal_taskResult. clear Hj. read_struct. reflexivity. }
  assert (j' = j) as -> by (enough (Ok j' = Ok j) by congruence; by rewrite <-Hj', <-Hj). split; [exact Hr'|].
  unfold text_result, r'. cbn -[ValidString json_ok]. by rewrite Hs, Hok, Hu, Htsok, Hmok.
Qed.

(** [t'] is [t] but for the values of type [any], which have their JSON form. *)
Definition same_task (t t' : Task) : Prop :=
  ∃ m r, t' = t <| task_Metadata := m |> <| task_Result := r |> ∧ reads (task_Metadata t) m ∧ reads (task_Result t) r.
(** A result that survives is read as it is. *)
Lemma reads_result (x r : option TaskResult) : option_text text_result x = true → reads x r → r = x.
Proof.
  intros Hx (j & Hj & Hu). assert (option_survives x) as Hs by (destruct x; [by apply result_survives|done]).
  assert (json_ok x = true) as Hok.
  { eapply (put_pointer_ok "k"); [exact Hs|]. unfold put. by rewrite Hj. }
  destruct (json_roundtrip x Hok) as (j' & Hj' & Hu'). congruence.
Qed.

Lemma task_result_written k (x : option TaskResult) :
  option_text plain_result x = true → is_ok (put k x) = true → ∃ x', reads x x' ∧ option_text text_result x' = true.
Proof.
  intros Hx [j Hj]%put_is_ok. destruct x as [r|]; [|exists None; split; [by exists JNull|done]].
  change (plain_result r = true) in Hx. change (marshal r = Ok j) in Hj.
  destruct (result_written r j Hx Hj) as (o & ts & m & Hu & Htx). eexists (Some _). split; [|exact Htx].
  exists j. split; [exact Hj|]. destruct (object_ok _ _ Hj) as [_ Hn]. unfold unmarshal at 1, pointer_json.
  destruct j; try done; by rewrite Hu.
Qed.

Lemma task_written t j : plain_task t = true → marshal t = Ok j →
  ∃ t', same_task t t' ∧ text_task t' = true ∧ unmarshal j = Ok t'.
Proof.
  intros Ht Hj. unfold plain_task in Ht. rewrite !andb_true_iff in Ht.
  destruct Ht as (((((((((H1 & H2) & H3) & H4) & H5) & H6) & H7) & H8) & H9) & H10).
  pose proof (object_ok _ _ Hj) as [Hf _]. rewrite !Forall_cons in Hf.
  destruct Hf as (_ & _ & _ & _ & _ & _ & _ & _ & _ & _ & Hm & Hrun & Hres & _ & Hc & Hu & Hs & Hd & _).
  destruct (put_map_reads _ _ Hm) as (m & Hrm & Hmok), (task_result_written _ _ H9 Hres) as (r & Hrr & Hrok).
  assert (json_ok (task_Run t) = true) as Hrun'.
  { eapply put_pointer_ok; [|exact Hrun]. destruct (task_Run t); [by apply run_survives|done]. }
  apply put_time_ok in Hc, Hu, Hs, Hd.
  exists (t <| task_Metadata := m |> <| task_Result := r |>). split; [by exists m, r|]. split.
  { unfold text_task. cbn -[ValidString json_ok]. by rewrite H1, H2, H3, H4, H5, H6, H7, H8, H10, Hmok, Hrok. }
  assert (∃ j', marshal_task t = Ok j' ∧ unmarshal_task j' = Ok (t <| task_Metadata := m |> <| task_Result := r |>))
    as (j' & Hj' & Hr').
  { unfold marshal_task, unmarshal_task. clear Hj Hm Hrun Hres.
    assert (json_ok (task_ID t) = true ∧ json_ok (task_Kind t) = true ∧ json_ok (task_Subject t) = true ∧
      json_ok (task_Description t) = true ∧ json_ok (task_Input t) = true ∧ json_ok (task_Blocks t) = true ∧
      json_ok (task_BlockedBy t) = true ∧ json_ok (task_LastError t) = true ∧ json_ok (task_Status t) = true ∧
      json_ok (Int (task_Attempt t)) = true ∧ json_ok (Int (task_MaxAttempts t)) = true) as Hok by done.
    destruct_and! Hok. read_struct. reflexivity. }
  assert (j' = j) as -> by (enough (Ok j' = Ok j) by congruence; by rewrite <-Hj', <-Hj). exact Hr'.
Qed.

Lemma command_written c j : plain_command c = true → marshal c = Ok j →
  ∃ m, text_command (c <| cmd_Metadata := m |>) = true ∧ unmarshal j = Ok (c <| cmd_Metadata := m |>).
Proof.
  intros Ht Hj. unfold plain_command in Ht. rewrite !andb_true_iff in Ht.
  destruct Ht as ((((((((H1 & H2) & H3) & H4) & H5) & H6) & H7) & H8) & H9).
  pose proof (object_ok _ _ Hj) as [Hf _]. rewrite !Forall_cons in Hf.
  destruct Hf as (_ & _ & _ & _ & _ & _ & Hm & _ & _ & _ & _ & Hc & Hu & Hs & _).
  destruct (put_map_reads _ _ Hm) as (m & Hrm & Hmok). apply put_time_ok in Hc, Hu, Hs. exists m. split.
  { unfold text_command. cbn -[ValidString json_ok]. by rewrite H1, H2, H3, H4, H5, H6, H7, H8, H9, Hmok. }
  assert (∃ j', marshal_command c = Ok j' ∧ unmarshal_command j' = Ok (c <| cmd_Metadata := m |>)) as (j' & Hj' & Hr').
  { unfold marshal_command, unmarshal_command. clear Hj Hm.
    assert (json_ok (cmd_ID c) = true ∧ json_ok (cmd_TaskID c) = true ∧ json_ok (cmd_RunID c) = true ∧
      json_ok (cmd_TargetWorkerID c) = true ∧ json_ok (cmd_Reason c) = true ∧ json_ok (cmd_ClaimToken c) = true ∧
      json_ok (cmd_ClaimedBy c) = true ∧ json_ok (cmd_HandledBy c) = true ∧ json_ok (cmd_Status c) = true) as Hok by done.
    destruct_and! Hok. read_struct. reflexivity. }
  assert (j' = j) as -> by (enough (Ok j' = Ok j) by congruence; by rewrite <-Hj', <-Hj). exact Hr'.
Qed.
Lemma artifact_written x j : plain_artifact x = true → marshal x = Ok j →
  ∃ m, text_artifact (x <| art_Metadata := m |>) = true ∧ unmarshal j = Ok (x <| art_Metadata := m |>).
Proof.
  intros Ht Hj. unfold plain_artifact in Ht. rewrite !andb_true_iff in Ht.
  destruct Ht as (((((H1 & H2) & H3) & H4) & H5) & H6).
  pose proof (object_ok _ _ Hj) as [Hf _]. rewrite !Forall_cons in Hf.
  destruct Hf as (_ & _ & _ & _ & _ & _ & _ & Hm & Hc & _).
  destruct (put_map_reads _ _ Hm) as (m & Hrm & Hmok). apply put_time_ok in Hc. exists m. split.
  { unfold text_artifact. cbn -[ValidString json_ok]. by rewrite H1, H2, H3, H4, H5, H6, Hmok. }
  assert (∃ j', marshal_artifact x = Ok j' ∧ unmarshal_artifact j' = Ok (x <| art_Metadata := m |>)) as (j' & Hj' & Hr').
  { unfold marshal_artifact, unmarshal_artifact. clear Hj Hm.
    assert (json_ok (art_ID x) = true ∧ json_ok (art_TaskID x) = true ∧ json_ok (art_RunID x) = true ∧
      json_ok (art_Kind x) = true ∧ json_ok (art_Name x) = true ∧ json_ok (art_ContentType x) = true ∧
      json_ok (Bytes (art_Body x)) = true) as Hok by done.
    destruct_and! Hok. read_struct. reflexivity. }
  assert (j' = j) as -> by (enough (Ok j' = Ok j) by congruence; by rewrite <-Hj', <-Hj). exact Hr'.
Qed.
End values.

(** ** The content of a database *)

Record Abs := MkAbs {
  g_tasks : gmap string Task;
  g_leases : gmap string Lease;
  g_commands : gmap string Command;
  g_artifacts : gmap string Artifact;
  g_log : list Event;
  g_uuids : nat;
}.
#[export] Instance Abs_eta : RecordEta Abs := λ a,
  MkAbs (g_tasks a) (g_leases a) (g_commands a) (g_artifacts a) (g_log a) (g_uuids a).

(** A condition on failures that says nothing. *)
Notation anyhow := (λ (_ : error) (_ : Conn), True).

Section logic.
Context {CF : SqlConfig} {E : Env}.

(** A payload that [json.Marshal] wrote is read as [x]. *)
Definition encodes `{Json A} (payload : json) (x : A) : Prop :=
  (∃ x0 : A, marshal x0 = Ok payload) ∧ unmarshal payload = Ok x.
(** A column made by [formatTime]; a zero time would be the time of the call. *)
Definition time_column (col : string) (t : Time) : Prop := t ≠ zero_time → col = FormatRFC3339Nano t.

Record task_stored (id : string) (row : TaskRow) (t : Task) : Prop := {
  ts_payload : encodes (trow_payload row) t;
  ts_id : task_ID t = id;
  ts_created : time_column (trow_created_at row) (task_CreatedAt t);
  ts_kind : trow_kind row = task_Kind t;
  ts_status : trow_status row = task_status_string (task_Status t);
}.
Record lease_stored (id : string) (row : LeaseRow) (l : Lease) : Prop := {
  ls_payload : encodes (lrow_payload row) l;
  ls_id : lease_TaskID l = id;
  ls_expires : time_column (lrow_expires_at row) (lease_ExpiresAt l);
}.
Record command_stored (id : string) (row : CommandRow) (c : Command) : Prop := {
  cs_payload : encodes (crow_payload row) c;
  cs_id : cmd_ID c = id;
  cs_created : time_column (crow_created_at row) (cmd_CreatedAt c);
  cs_status : crow_status row = command_status_string (cmd_Status c);
  cs_target : crow_target_worker_id row = cmd_TargetWorkerID c;
}.
Record artifact_stored (id : string) (row : ArtifactRow) (x : Artifact) : Prop := {
  as_payload : encodes (arow_payload row) x;
  as_id : art_ID x = id;
  as_created : time_column (arow_created_at row) (art_CreatedAt x);
  as_task : arow_task_id row = art_TaskID x;
}.
(** The record of an event, and the row that holds it. *)
Definition record_for (e : Event) (r : EventRecord) : Prop :=
  er_Kind r = kind_of e ∧ marshal_event e = Ok (er_Payload r).
Definition event_stored (e : Event) (row : EventRow) : Prop :=
  record_for e (erow_columns row) ∧ erow_payload row = json_record (erow_columns row).
Definition row_sequence (row : EventRow) : Z := er_Sequence (erow_columns row).

Record Rep (c : Conn) (a : Abs) : Prop := {
  rep_tasks : map_Forall2 task_stored (tbl_tasks (c_db c)) (g_tasks a);
  rep_leases : map_Forall2 lease_stored (tbl_leases (c_db c)) (g_leases a);
  rep_commands : map_Forall2 command_stored (tbl_commands (c_db c)) (g_commands a);
  rep_artifacts : map_Forall2 artifact_stored (tbl_artifacts (c_db c)) (g_artifacts a);
  rep_log : Forall2 event_stored (g_log a) (tbl_events (c_db c));
  rep_numbers : row_sequence <$> tbl_events (c_db c) = Z.of_nat <$> seq 1 (length (g_log a));
  rep_sequence : tbl_sequence (c_db c) = Z.of_nat (length (g_log a));
  rep_uuids : c_uuids c = g_uuids a;
}.

(** Only the tables and the UUIDs matter. *)
Lemma Rep_same c c' a : Rep c a → c_db c' = c_db c → c_uuids c' = c_uuids c → Rep c' a.
Proof. intros [] Hd Hu. by split; rewrite ?Hd, ?Hu. Qed.

(** ** Triples *)

Definition hoare {A} (m : TX A) (Q : A → Abs → Prop) (X : error → Conn → Prop) (a : Abs) : Prop :=
  ∀ c, Rep c a → (g_uuids a ≤ c_uuids (m c).1)%nat ∧
    match (m c).2 with
    | Ok x => ∃ a', Rep (m c).1 a' ∧ Q x a'
    | Err e => X e (m c).1
    end.

(** The errors of the surroundings: a refused statement, or a value that encoding/json
    refuses, wrapped on the way up.  They leave the content as it is. *)
Inductive fault_error : error → Prop :=
| fault_refused i e : env_fault i = Some e → fault_error e
| fault_wrap p e : fault_error e → fault_error (EWrap p e "").
Inductive encode_error : error → Prop :=
| encode_time : encode_error time_error
| encode_event ev e : marshal_event ev = Err e → encode_error e
| encode_wrap p e : encode_error e → encode_error (EWrap p e "").
Definition tolerant (X : error → Conn → Prop) (a : Abs) : Prop :=
  ∀ e c, fault_error e → Rep c a → X e c.
Definition save_tolerant (X : error → Conn → Prop) (a : Abs) : Prop :=
  tolerant X a ∧ ∀ e c, encode_error e → Rep c a → X e c.
Lemma tolerant_wrap X a p : tolerant X a → tolerant (λ e c, X (EWrap p e "") c) a.
Proof. intros HX e c He. apply HX. by constructor. Qed.

Ltac uuids HR := split; [rewrite <- (rep_uuids _ _ HR); cbn; lia|]; cbn.

Lemma h_ret {A} (x : A) Q X a : Q x a → hoare (mret x) Q X a.
Proof. intros HQ c HR. uuids HR. eauto. Qed.
Lemma h_throw {A} e (Q : A → _) X a : (∀ c, Rep c a → X e c) → hoare (throw e) Q X a.
Proof. intros HX c HR. uuids HR. eauto. Qed.
Lemma h_lift {A} (r : res A) Q X a :
  match r with Ok x => Q x a | Err e => ∀ c, Rep c a → X e c end → hoare (lift_res r) Q X a.
Proof. destruct r; [apply h_ret|apply h_throw]. Qed.

Lemma h_bind {A B} (m : TX A) (k : A → TX B) Q X a :
  hoare m (λ x a', hoare (k x) Q X a') X a → hoare (m ≫= k) Q X a.
Proof.
  intros Hm c HR. destruct (Hm c HR) as [Hu Hc]. unfold mbind, TX_bind.
  destruct (m c) as [c1 [x|e]]; cbn in *; [|done].
  destruct Hc as (a1 & HR1 & Hk). destruct (Hk c1 HR1) as [Hu1 Hk1].
  split; [|done]. rewrite <- (rep_uuids _ _ HR1) in Hu1. lia.
Qed.

Lemma h_mono {A} (m : TX A) (Q Q' : A → Abs → Prop) (X X' : error → Conn → Prop) a :
  hoare m Q X a → (∀ x a', Q x a' → Q' x a') → (∀ e c, X e c → X' e c) → hoare m Q' X' a.
Proof.
  intros Hm HQ HX c HR. destruct (Hm c HR) as [Hu Hc]. split; [done|].
  destruct (m c).2; [|by apply HX]. destruct Hc as (a' & ? & ?). eauto.
Qed.

Lemma h_wrap {A} p (m : TX A) Q X a :
  hoare m Q (λ e c, X (EWrap p e "") c) a → hoare (wrap p m) Q X a.
Proof. intros Hm c HR. specialize (Hm c HR). unfold wrap. by destruct (m c) as [? []]. Qed.

Lemma h_try {A} (m : TX A) Q X a :
  hoare m (λ x a', Q (Ok x) a') (λ e c, ∃ a', Rep c a' ∧ Q (Err e) a') a → hoare (try m) Q X a.
Proof. intros Hm c HR. specialize (Hm c HR). unfold try. by destruct (m c) as [? []]. Qed.

Lemma h_statement Q X a : tolerant X a → Q tt a → hoare statement Q X a.
Proof.
  intros HX HQ c HR. unfold statement. uuids HR.
  assert (Rep (c <| c_stmts ::= S |>) a) as HR' by (by eapply Rep_same).
  destruct (env_fault (c_stmts c)) eqn:Hf; [|eauto]. apply (HX _ _); [by econstructor|exact HR'].
Qed.
Lemma h_query {A} (f : DB → A) Q X a :
  tolerant X a → (∀ c, Rep c a → Q (f (c_db c)) a) → hoare (query f) Q X a.
Proof.
  intros HX HQ. apply h_bind, h_statement; [done|]. intros c HR. uuids HR. eauto.
Qed.
Lemma h_exec f Q X a a' :
  tolerant X a → g_uuids a' = g_uuids a →
  (∀ c, Rep c a → Rep (c <| c_db ::= f |>) a') → Q tt a' → hoare (exec f) Q X a.
Proof.
  intros HX Hu HR' HQ. apply h_bind, h_statement; [done|]. intros c HR. uuids HR. exists a'. split; [by apply HR'|done].
Qed.
Lemma h_now Q X a : (∀ t, Q t a) → hoare time_Now Q X a.
Proof.
  intros HQ c HR. uuids HR.
  exists a. split; [by eapply Rep_same|apply HQ].
Qed.
Lemma h_normalizeNow t Q X a : (∀ t', (t ≠ zero_time → t' = t) → Q t' a) → hoare (normalizeNowTx t) Q X a.
Proof.
  intros HQ. unfold normalizeNowTx. destruct (IsZero t) eqn:Hz.
  - apply h_now. intros t'. apply HQ. intros Ht. apply Z.eqb_eq in Hz. done.
  - apply h_ret, HQ. done.
Qed.
Lemma h_formatTime t Q X a : (∀ s, time_column s t → Q s a) → hoare (formatTime t) Q X a.
Proof.
  intros HQ. apply h_bind, h_normalizeNow. intros t' Ht. apply h_ret, HQ.
  intros Hn. by rewrite Ht.
Qed.
Lemma h_newID p Q X a :
  Q (p +:+ "-" +:+ uuid (g_uuids a)) (a <| g_uuids ::= S |>) → hoare (newID p) Q X a.
Proof.
  intros HQ c HR. uuids HR. eexists. split; [|rewrite (rep_uuids _ _ HR); exact HQ].
  destruct HR as [? ? ? ? ? ? ? Hu]. split; try done. cbn. by rewrite Hu.
Qed.

(** ** Rows *)

Lemma lookup_stored {R V} (P : string → R → V → Prop) (rows : gmap string R) (vals : gmap string V) id :
  map_Forall2 P rows vals →
  (rows !! id = None ∧ vals !! id = None) ∨ (∃ r v, rows !! id = Some r ∧ vals !! id = Some v ∧ P id r v).
Proof. intros H. specialize (H id). inversion H; naive_solver. Qed.

Lemma scan_encoded `{Json A} (prefix : string) (payload : json) (x : A) :
  encodes payload x → wrap_error prefix (unmarshal payload) = Ok x.
Proof. intros [_ ->]. done. Qed.

Lemma h_tryLoadTask id Q X a :
  tolerant X a → Q (g_tasks a !! id) a → hoare (tryLoadTaskTx id) Q X a.
Proof.
  intros HX HQ. apply h_bind, h_query; [done|]. intros c HR.
  destruct (lookup_stored _ _ _ id (rep_tasks _ _ HR)) as [[-> Hv]|(r & t & -> & Hv & Ht)];
    rewrite Hv in HQ; [by apply h_ret|].
  apply h_bind, h_lift. unfold scanTask. rewrite (scan_encoded _ _ _ (ts_payload _ _ _ Ht)). by apply h_ret.
Qed.
Lemma h_loadTask id Q X a :
  tolerant X a →
  match g_tasks a !! id with Some t => Q t a | None => ∀ c, Rep c a → X ErrTaskNotFound c end →
  hoare (loadTaskTx id) Q X a.
Proof.
  intros HX HQ. apply h_bind, h_tryLoadTask; [done|].
  destruct (g_tasks a !! id); [by apply h_ret|by apply h_throw].
Qed.
Lemma h_tryLoadLease id Q X a :
  tolerant X a → Q (g_leases a !! id) a → hoare (tryLoadLeaseTx id) Q X a.
Proof.
  intros HX HQ. apply h_bind, h_query; [done|]. intros c HR.
  destruct (lookup_stored _ _ _ id (rep_leases _ _ HR)) as [[-> Hv]|(r & l & -> & Hv & Hl)];
    rewrite Hv in HQ; [by apply h_ret|].
  apply h_bind, h_lift. unfold scanLease. rewrite (scan_encoded _ _ _ (ls_payload _ _ _ Hl)). by apply h_ret.
Qed.
Lemma h_loadLease id Q X a :
  tolerant X a →
  match g_leases a !! id with Some l => Q l a | None => ∀ c, Rep c a → X ErrLeaseNotFound c end →
  hoare (loadLeaseTx id) Q X a.
Proof.
  intros HX HQ. apply h_bind, h_tryLoadLease; [done|].
  destruct (g_leases a !! id); [by apply h_ret|by apply h_throw].
Qed.
Lemma h_loadCommand id Q X a :
  tolerant X a →
  match g_commands a !! id with Some c => Q c a | None => ∀ c, Rep c a → X ErrCommandNotFound c end →
  hoare (loadCommandTx id) Q X a.
Proof.
  intros HX HQ. apply h_bind, h_query; [done|]. intros c HR.
  destruct (lookup_stored _ _ _ id (rep_commands _ _ HR)) as [[-> Hv]|(r & x & -> & Hv & Hx)];
    rewrite Hv in HQ; [by apply h_throw|].
  apply h_lift. unfold scanCommand. rewrite (scan_encoded _ _ _ (cs_payload _ _ _ Hx)). done.
Qed.

(** ** Saving *)

Lemma h_marshal `{JsonLaws A} (x : A) p Q X a :
  survives x → save_tolerant X a → (∀ j, encodes j x → Q j a) →
  hoare (lift_res (wrap_error p (marshal x))) Q X a.
Proof.
  intros Hs [_ HX] HQ. apply h_lift.
  destruct (survives_cases x Hs) as [(j & Hm & Hu)| ->].
  - rewrite Hm. apply HQ. by split; [exists x|].
  - intros c. apply HX. repeat constructor.
Qed.
(** A value that JSON may change. *)
Lemma h_marshal_any `{Json A} (x : A) p Q a :
  (∀ j, marshal x = Ok j → Q j a) → hoare (lift_res (wrap_error p (marshal x))) Q anyhow a.
Proof. intros HQ. apply h_lift. destruct (marshal x); [by apply HQ|done]. Qed.
Lemma h_exec_wrap p f Q X a a' :
  tolerant X a → g_uuids a' = g_uuids a →
  (∀ c, Rep c a → Rep (c <| c_db ::= f |>) a') → Q tt a' → hoare (wrap p (exec f)) Q X a.
Proof. intros HX Hu HR HQ. apply h_wrap. apply (h_exec _ _ _ a a'); [by apply tolerant_wrap|done..]. Qed.
Lemma h_query_wrap {A} p (f : DB → A) Q X a :
  tolerant X a → (∀ c, Rep c a → Q (f (c_db c)) a) → hoare (wrap p (query f)) Q X a.
Proof. intros HX HQ. apply h_wrap, h_query; [by apply tolerant_wrap|done]. Qed.

Lemma h_saveTask t Q X a :
  text_task t = true → save_tolerant X a → Q tt (a <| g_tasks ::= <[task_ID t := t]> |>) →
  hoare (saveTaskTx t) Q X a.
Proof.
  intros Ht HX HQ. apply h_bind, h_marshal; [by apply task_survives|done|]. intros j Hj.
  apply h_bind, h_formatTime. intros col Hcol.
  eapply h_exec_wrap; [apply HX| |..|exact HQ]; [done|]. intros c []. split; try done. cbn.
  by apply map_Forall2_insert_2.
Qed.
Lemma h_saveLease l Q X a :
  text_lease l = true → save_tolerant X a → Q tt (a <| g_leases ::= <[lease_TaskID l := l]> |>) →
  hoare (saveLeaseTx l) Q X a.
Proof.
  intros Ht HX HQ. apply h_bind, h_marshal; [by apply lease_survives|done|]. intros j Hj.
  apply h_bind, h_formatTime. intros col Hcol.
  eapply h_exec_wrap; [apply HX| |..|exact HQ]; [done|]. intros c []. split; try done. cbn.
  by apply map_Forall2_insert_2.
Qed.
Lemma h_saveCommand x Q X a :
  text_command x = true → save_tolerant X a → Q tt (a <| g_commands ::= <[cmd_ID x := x]> |>) →
  hoare (saveCommandTx x) Q X a.
Proof.
  intros Ht HX HQ. apply h_bind, h_marshal; [by apply command_survives|done|]. intros j Hj.
  apply h_bind, h_formatTime. intros col Hcol.
  eapply h_exec_wrap; [apply HX| |..|exact HQ]; [done|]. intros c []. split; try done. cbn.
  by apply map_Forall2_insert_2.
Qed.
Lemma h_saveArtifact x Q X a :
  text_artifact x = true → save_tolerant X a → Q tt (a <| g_artifacts ::= <[art_ID x := x]> |>) →
  hoare (saveArtifactTx x) Q X a.
Proof.
  intros Ht HX HQ. apply h_bind, h_marshal; [by apply artifact_survives|done|]. intros j Hj.
  apply h_bind, h_formatTime. intros col Hcol.
  eapply h_exec_wrap; [apply HX| |..|exact HQ]; [done|]. intros c []. split; try done. cbn.
  by apply map_Forall2_insert_2.
Qed.
(** Saving what JSON may change: the content holds what is read. *)
Lemma h_writeTask t Q a :
  plain_task t = true →
  (∀ t', same_task t t' → text_task t' = true → Q tt (a <| g_tasks ::= <[task_ID t := t']> |>)) →
  hoare (saveTaskTx t) Q anyhow a.
Proof.
  intros Ht HQ. apply h_bind, h_marshal_any. intros j Hj.
  destruct (task_written t j Ht Hj) as (t' & Hs & Htx & Hu). specialize (HQ t' Hs Htx).
  apply h_bind, h_formatTime. intros col Hcol. destruct Hs as (m & r & -> & _).
  eapply h_exec_wrap; [done| |..|exact HQ]; [done|]. intros c []. split; try done. cbn.
  apply map_Forall2_insert_2; [|done]. split; try done. by split; [exists t|].
Qed.
Lemma h_writeCommand x Q a :
  plain_command x = true →
  (∀ m, text_command (x <| cmd_Metadata := m |>) = true →
     Q tt (a <| g_commands ::= <[cmd_ID x := x <| cmd_Metadata := m |>]> |>)) →
  hoare (saveCommandTx x) Q anyhow a.
Proof.
  intros Ht HQ. apply h_bind, h_marshal_any. intros j Hj.
  destruct (command_written x j Ht Hj) as (m & Htx & Hu). specialize (HQ m Htx).
  apply h_bind, h_formatTime. intros col Hcol.
  eapply h_exec_wrap; [done| |..|exact HQ]; [done|]. intros c []. split; try done. cbn.
  apply map_Forall2_insert_2; [|done]. split; try done. by split; [exists x|].
Qed.
Lemma h_writeArtifact x Q a :
  plain_artifact x = true →
  (∀ m, text_artifact (x <| art_Metadata := m |>) = true →
     Q tt (a <| g_artifacts ::= <[art_ID x := x <| art_Metadata := m |>]> |>)) →
  hoare (saveArtifactTx x) Q anyhow a.
Proof.
  intros Ht HQ. apply h_bind, h_marshal_any. intros j Hj.
  destruct (artifact_written x j Ht Hj) as (m & Htx & Hu). specialize (HQ m Htx).
  apply h_bind, h_formatTime. intros col Hcol.
  eapply h_exec_wrap; [done| |..|exact HQ]; [done|]. intros c []. split; try done. cbn.
  apply map_Forall2_insert_2; [|done]. split; try done. by split; [exists x|].
Qed.
Lemma h_deleteLease what id Q X a :
  tolerant X a → Q tt (a <| g_leases ::= delete id |>) → hoare (deleteLeaseTx what id) Q X a.
Proof.
  intros HX HQ. eapply h_exec_wrap; [done| |..|exact HQ]; [done|]. intros c []. split; try done. cbn.
  by apply map_Forall2_delete.
Qed.

(** ** Events *)

Lemma h_newEventRecord at_ ev t r l k x Q X a :
  save_tolerant X a →
  (∀ rec, record_for ev rec → Q rec (a <| g_uuids ::= S |>)) →
  hoare (newEventRecord at_ ev t r l k x) Q X a.
Proof.
  intros [_ HX] HQ. apply h_bind, h_lift. destruct (marshal_event ev) as [text|e] eqn:Hm; cbn.
  - apply h_bind, h_newID, h_bind, h_normalizeNow. intros t' _. by apply h_ret, HQ.
  - intros c. apply HX. constructor. by econstructor.
Qed.

(** The insert and the update of a record, as one step. *)
Lemma Rep_append c a ev r n :
  Rep c a → record_for ev r → n = tbl_sequence (c_db c) + 1 →
  Rep (c <| c_db ::= λ db,
         (db <| tbl_events ::= λ l, l ++ [MkEventRow (with_sequence n r) blank_record] |> <| tbl_sequence := n |>)
           <| tbl_events ::= fmap (λ row, if er_Sequence (erow_columns row) =? n
                then MkEventRow (erow_columns row) (json_record (with_sequence n r)) else row) |> |>)
    (a <| g_log ::= λ l, l ++ [ev] |>).
Proof.
  intros [? ? ? ? Hlog Hnum Hseq ?] [Hk Hp] ->. rewrite Hseq.
  assert (Forall (λ row, row_sequence row ≤ Z.of_nat (length (g_log a))) (tbl_events (c_db c))) as Hle.
  { apply (Forall_fmap row_sequence (λ z, z ≤ Z.of_nat (length (g_log a)))). rewrite Hnum.
    apply Forall_fmap, Forall_forall. intros i Hi%list_elem_of_In%in_seq. cbn. lia. }
  assert ((λ row, if er_Sequence (erow_columns row) =? Z.of_nat (length (g_log a)) + 1
     then MkEventRow (erow_columns row) (json_record (with_sequence (Z.of_nat (length (g_log a)) + 1) r)) else row)
     <$> tbl_events (c_db c) = tbl_events (c_db c)) as Hsame.
  { etransitivity; [|apply list_fmap_id]. apply list_fmap_ext. intros i row Hrow.
    rewrite Forall_lookup in Hle. specialize (Hle _ _ Hrow). unfold row_sequence in Hle.
    destruct (Z.eqb_spec (er_Sequence (erow_columns row)) (Z.of_nat (length (g_log a)) + 1)); [lia|done]. }
  split; cbn; try done.
  - rewrite fmap_app, Hsame. cbn. rewrite Z.eqb_refl. apply Forall2_app; [done|].
    constructor; [|done]. split; [by split|done].
  - rewrite fmap_app, Hsame. cbn. rewrite Z.eqb_refl, fmap_app, Hnum. cbn.
    rewrite length_app, seq_app, fmap_app. cbn. do 2 f_equal. unfold row_sequence. cbn. lia.
  - rewrite length_app. cbn. lia.
Qed.

(** A failure between the two statements leaves a record without payload, so nothing is
    said of the content then. *)
Lemma h_saveEvent ev r Q X a :
  record_for ev r → (∀ e c, fault_error e ∨ encode_error e → X e c) →
  Q tt (a <| g_log ::= λ l, l ++ [ev] |>) → hoare (saveEventTx r) Q X a.
Proof.
  intros Hr HX HQ. apply h_bind, h_normalizeNow. intros t _. apply h_bind, h_formatTime. intros s _.
  intros c HR. unfold wrap, exec, statement, write_db, read_db, lift_res, mbind, TX_bind, format_time, rfc3339nano.
  cbn -[time_encodes]. set (rec := with_created_at t r).
  assert (record_for ev rec) as Hrec by exact Hr.
  pose proof (Rep_append (c <| c_stmts ::= S |> <| c_stmts ::= S |>) a ev rec _ ltac:(by eapply Rep_same) Hrec eq_refl) as HA.
  pose proof (rep_uuids _ _ HR) as Hu.
  destruct (env_fault (c_stmts c)) eqn:H1; cbn -[time_encodes].
  { split; [lia|]. apply HX. left. constructor. by econstructor. }
  destruct (time_encodes t) eqn:H2; cbn.
  2: { split; [lia|]. apply HX. right. repeat constructor. }
  destruct (env_fault (S (c_stmts c))) eqn:H3; cbn.
  { split; [lia|]. apply HX. left. constructor. by econstructor. }
  split; [lia|]. eexists. split; [exact HA|exact HQ].
Qed.
Lemma h_saveEvents es rs Q X a :
  Forall2 record_for es rs → (∀ e c, fault_error e ∨ encode_error e → X e c) →
  Q tt (a <| g_log ::= λ l, l ++ es |>) → hoare (saveEventsTx rs) Q X a.
Proof.
  intros Hrs HX. revert a. induction Hrs as [|ev r es rs Hr _ IH]; intros a HQ.
  - apply h_ret. destruct a as [? ? ? ? log ?]. cbn in *. by rewrite app_nil_r in HQ.
  - apply h_bind. apply (h_saveEvent ev); [done|done|]. apply IH. revert HQ. cbn. by rewrite <- app_assoc.
Qed.
(** The record of one event more. *)
Definition makes_record (m : TX EventRecord) (ev : Event) : Prop :=
  ∀ Q X a, save_tolerant X a → (∀ rec, record_for ev rec → Q rec (a <| g_uuids ::= S |>)) → hoare m Q X a.
Lemma h_records {A} (f : A → TX EventRecord) (ev : A → Event) l Q X a :
  (∀ x, makes_record (f x) (ev x)) → (∀ n, save_tolerant X (a <| g_uuids ::= Nat.add n |>)) →
  (∀ rs, Forall2 record_for (ev <$> l) rs → Q rs (a <| g_uuids ::= Nat.add (length l) |>)) →
  hoare (mapM f l) Q X a.
Proof.
  intros Hf. revert a Q. induction l as [|x l IH]; intros a Q HX HQ.
  - apply h_ret. specialize (HQ [] ltac:(constructor)). by destruct a.
  - cbn. apply h_bind, Hf; [specialize (HX 0%nat); by destruct a|]. intros rec Hrec. apply h_bind, IH.
    + intros n. specialize (HX (n + 1)%nat). destruct a. cbn in *. by rewrite <- Nat.add_assoc in HX.
    + intros rs Hrs. apply h_ret. specialize (HQ (rec :: rs)). destruct a. cbn in *.
      rewrite Nat.add_succ_r. apply HQ. by constructor.
Qed.

(** ** Lists of rows *)

Lemma ordered_rows {R} (key : R → string) (rows : gmap string R) :
  NoDup (ordered key rows).*1 ∧ ∀ id r, (id, r) ∈ ordered key rows ↔ rows !! id = Some r.
Proof.
  assert (ordered key rows ≡ₚ map_to_list rows) as HP by apply merge_sort_Permutation. split.
  - rewrite HP. apply NoDup_fst_map_to_list.
  - intros id r. rewrite HP. apply elem_of_map_to_list.
Qed.
(** [ids] are the keys of a map, each once. *)
Definition keys_of {V} (ids : list string) (m : gmap string V) : Prop :=
  NoDup ids ∧ ∀ id, id ∈ ids ↔ is_Some (m !! id).
Lemma ordered_keys {R V} (P : string → R → V → Prop) key (rows : gmap string R) (vals : gmap string V) :
  map_Forall2 P rows vals → keys_of (ordered key rows).*1 vals.
Proof.
  intros HP. destruct (ordered_rows key rows) as [Hnd Hin]. split; [done|]. intros id.
  rewrite list_elem_of_fmap. split.
  - intros ([id' r] & -> & Hr%Hin). cbn.
    destruct (lookup_stored _ _ _ id' HP) as [[Hn _]|(r' & v & _ & Hv & _)]; [congruence|eauto].
  - intros [v Hv]. destruct (lookup_stored _ _ _ id HP) as [[_ Hn]|(r & v' & Hr & _)]; [congruence|].
    exists (id, r). split; [done|by apply Hin].
Qed.
(** Decoding stored rows gives the stored values. *)
Lemma scan_rows {R V} `{Json V} (P : string → R → V → Prop) (payload : R → json) (p : string)
    (rows : gmap string R) (vals : gmap string V) (l : list (string * R)) :
  map_Forall2 P rows vals → (∀ id r v, P id r v → encodes (payload r) v) →
  Forall (λ x, rows !! x.1 = Some x.2) l →
  mapM (λ x, wrap_error p (unmarshal (payload x.2))) l = Ok (omap (λ id, vals !! id) l.*1).
Proof.
  intros HP Henc. induction 1 as [|[id r] l Hr _ IH]; [done|]. cbn in *.
  destruct (lookup_stored _ _ _ id HP) as [[Hn _]|(r' & v & Hr' & Hv & Hrv)]; [congruence|].
  simplify_eq. rewrite (scan_encoded p _ _ (Henc _ _ _ Hrv)), Hv. cbn. by rewrite IH.
Qed.
Lemma ordered_Forall {R} (key : R → string) (rows : gmap string R) :
  Forall (λ x, rows !! x.1 = Some x.2) (ordered key rows).
Proof. apply Forall_forall. intros [id r] Hr. by apply (ordered_rows key rows). Qed.

Lemma h_listTaskIDs Q X a :
  tolerant X a → (∀ ids, keys_of ids (g_tasks a) → Q ids a) → hoare listTaskIDsTx Q X a.
Proof.
  intros HX HQ. apply h_query_wrap; [done|]. intros c HR. apply HQ. by eapply ordered_keys, rep_tasks.
Qed.
Lemma h_listTasks Q X a :
  tolerant X a → (∀ ids, keys_of ids (g_tasks a) → Q (omap (λ id, g_tasks a !! id) ids) a) → hoare listTasksTx Q X a.
Proof.
  intros HX HQ. apply h_bind, h_query_wrap; [done|]. intros c HR. apply h_lift. unfold scanTasks, scanTask.
  rewrite (scan_rows task_stored trow_payload _ (tbl_tasks (c_db c)) (g_tasks a)); [|apply HR|by intros ??? []|apply ordered_Forall].
  apply HQ. by eapply ordered_keys, rep_tasks.
Qed.

(** ** Transactions and methods *)

(** A failed transaction only draws UUIDs. *)
Lemma h_withTx {A} (fn : TX A) Q X a :
  hoare fn Q (λ e _, ∀ c n, (g_uuids a ≤ n)%nat → Rep c (a <| g_uuids := n |>) → X e c) a →
  (∀ e c n, fault_error e → (g_uuids a ≤ n)%nat → Rep c (a <| g_uuids := n |>) → X e c) →
  hoare (withTx fn) Q X a.
Proof.
  intros Hfn HX c HR. unfold withTx, wrap, statement.
  assert (∀ c' n, c_db c' = c_db c → c_uuids c' = n → Rep c' (a <| g_uuids := n |>)) as Hback.
  { intros c' n Hd <-. destruct HR. split; cbn; by rewrite ?Hd. }
  pose proof (rep_uuids _ _ HR) as Hu. destruct (env_fault (c_stmts c)) eqn:H1; cbn.
  { split; [lia|]. apply (HX _ _ (c_uuids c)); [constructor; by econstructor|lia|by apply Hback]. }
  destruct (Hfn (c <| c_stmts ::= S |>) ltac:(by eapply Rep_same)) as [Hn Hr].
  destruct (fn _) as [c2 [x|e]]; cbn in *.
  - destruct (env_fault (c_stmts c2)) eqn:H2; cbn.
    + split; [done|]. apply (HX _ _ (c_uuids c2)); [by econstructor|done|by apply Hback].
    + split; [done|]. destruct Hr as (a' & HR' & HQ). exists a'. split; [by eapply Rep_same|done].
  - split; [done|]. apply (Hr _ (c_uuids c2)); [done|by apply Hback].
Qed.
Lemma withTx_rollback {A} (fn : TX A) c e : (withTx fn c).2 = Err e → c_db (withTx fn c).1 = c_db c.
Proof.
  unfold withTx, wrap, statement. destruct (env_fault (c_stmts c)); cbn; [done|].
  destruct (fn _) as [c2 [x|e']]; cbn; [|done]. by destruct (env_fault (c_stmts c2)).
Qed.

(** What is left of a content after a failed call. *)
Definition failed (a : Abs) (e : error) (c : Conn) : Prop := ∃ n, (g_uuids a ≤ n)%nat ∧ Rep c (a <| g_uuids := n |>).
(** Inside a transaction nothing is said of a failure: it is rolled back. *)
Lemma tolerant_anyhow a : tolerant anyhow a.
Proof. done. Qed.
Lemma save_tolerant_anyhow a : save_tolerant anyhow a.
Proof. done. Qed.
Lemma h_tx {A} (fn : TX A) Q a : hoare fn Q anyhow a → hoare (withTx fn) Q (failed a) a.
Proof.
  intros H. apply h_withTx; [|intros ???; by exists n].
  eapply h_mono; [exact H|done|]. intros e c _ c' n Hn HR. by exists n.
Qed.

(** Loading with a case for the missing row. *)
Lemma h_loadTask_any id Q a :
  (∀ t, g_tasks a !! id = Some t → Q t a) → hoare (loadTaskTx id) Q anyhow a.
Proof. intros HQ. apply h_loadTask; [done|]. destruct (g_tasks a !! id); auto. Qed.
Lemma h_loadLease_any id Q a :
  (∀ l, g_leases a !! id = Some l → Q l a) → hoare (loadLeaseTx id) Q anyhow a.
Proof. intros HQ. apply h_loadLease; [done|]. destruct (g_leases a !! id); auto. Qed.
Lemma h_loadCommand_any id Q a :
  (∀ c, g_commands a !! id = Some c → Q c a) → hoare (loadCommandTx id) Q anyhow a.
Proof. intros HQ. apply h_loadCommand; [done|]. destruct (g_commands a !! id); auto. Qed.

(** The store holds the content [a]. *)
Definition Holds (s : SqlStore) (a : Abs) : Prop := Rep (connect s) a.
Lemma Holds_publish es s a : Holds (sql_publish es s) a ↔ Holds s a.
Proof. unfold Holds, sql_publish. by destruct (sq_bus s). Qed.
Lemma Holds_disconnect c s a : Rep c a → Holds (disconnect c s) a.
Proof. intros HR. by eapply Rep_same. Qed.

Lemma method_rule {A B} (m : TX A) (finish : A → list Event * res B) s a Q X :
  Holds s a → hoare m Q X a →
  (∃ e c, X e c ∧ method m finish s = (disconnect c s, Err e)) ∨
  (∃ x s1 a', Holds s1 a' ∧ Q x a' ∧ sq_published s1 = sq_published s ∧ sq_bus s1 = sq_bus s ∧
     method m finish s = (sql_publish (finish x).1 s1, (finish x).2)).
Proof.
  intros HR Hm. destruct (Hm _ HR) as [_ Hr]. unfold method.
  destruct (m (connect s)) as [c [x|e]]; cbn in Hr.
  - right. destruct Hr as (a' & HR' & HQ). exists x, (disconnect c s), a'.
    destruct (finish x) as [es r]. split; [by eapply Rep_same|]. done.
  - left. eauto.
Qed.

End logic.

(** ** Tactics *)

(** One step of a proof: the rule of the code at the head.  A saved value leaves its text
    condition as the first goal. *)
Ltac rules :=
  cbv zeta;
  lazymatch goal with
  | |- hoare (mret _) _ _ _ => apply h_ret
  | |- hoare (throw _) _ _ _ => apply h_throw; done
  | |- hoare (withTx _) _ _ _ => apply h_tx
  | |- hoare (?m ≫= _) _ _ _ =>
    apply h_bind;
    lazymatch m with
    | normalizeNowTx _ => apply h_normalizeNow; let n := fresh "wall" in intros n _
    | time_Now => apply h_now; let n := fresh "wall" in intros n
    | newID _ => apply h_newID
    | saveTaskTx _ => apply h_saveTask; [|apply save_tolerant_anyhow|]
    | saveLeaseTx _ => apply h_saveLease; [|apply save_tolerant_anyhow|]
    | saveCommandTx _ => apply h_saveCommand; [|apply save_tolerant_anyhow|]
    | saveArtifactTx _ => apply h_saveArtifact; [|apply save_tolerant_anyhow|]
    | deleteLeaseTx _ _ => apply h_deleteLease; [apply tolerant_anyhow|]
    | tryLoadTaskTx _ => apply h_tryLoadTask; [apply tolerant_anyhow|]
    | tryLoadLeaseTx _ => apply h_tryLoadLease; [apply tolerant_anyhow|]
    | _ => apply h_newEventRecord; [apply save_tolerant_anyhow|]; intros ? ?
    end
  end.

(** The condition of the code at the head. *)
Ltac branch H := lazymatch goal with |- hoare (if ?b then _ else _) _ _ _ => destruct b eqn:H end.

Ltac text :=
  unfold text_task, text_lease, text_command, text_artifact, option_text in *; cbn -[ValidString json_ok] in *;
  rewrite ?andb_true_iff in *; destruct_and?; repeat split; auto.

(** The records at the end of a transaction. *)
Ltac save_events :=
  apply h_bind; eapply h_saveEvents;
  [repeat first [apply Forall2_nil_2 | apply Forall2_cons_2; [eassumption|] | eassumption]|done|].
