(* ===== verification/SqliteInv.v ===== *)
(** * What the SQLite store keeps true

    [GInv] is the well-formedness of the content of the database: identifiers and tokens
    are UUIDs that were drawn, a lease covers a running task and its current run, the
    dependency graph names stored tasks and is recorded at both ends, commands carry the
    claim fields of their status and artifacts belong to a stored task.  [gview] is the
    content as the lifecycle machine of StoreLife sees it, and [moved a0 a todo] says that
    [a] is a well-formed content that every task reached from [a0] by one allowed move,
    those in [todo] by none. *)

From S2P Require Import Prelude Errors Usage OrchTypes MemStore MemCommands StoreInv StoreLife OrchHistory Json Serialize Snapshot TimeText OrchJson SqliteTx SqliteStore SqliteLogic.

Section invariant.
Context {CF : SqlConfig}.

(** [id] was drawn among the first [n] UUIDs, or will be drawn after them. *)
Definition drawn (p : string) (n : nat) (id : string) : Prop := ∃ k, (k < n)%nat ∧ id = p +:+ "-" +:+ uuid k.
Definition undrawn (p : string) (n : nat) (id : string) : Prop := ∃ k, (n ≤ k)%nat ∧ id = p +:+ "-" +:+ uuid k.

Record g_task_ok (a : Abs) (id : string) (t : Task) : Prop := {
  gt_id : task_ID t = id;
  gt_drawn : drawn "task" (g_uuids a) id;
  gt_attempts : attempts_ok t;
  gt_text : text_task t = true;
}.
(** The run a lease was acquired for. *)
Definition covers (l : Lease) (id : string) (t : Task) : Prop :=
  task_Status t = TaskRunning ∧ ∃ r, task_Run t = Some r ∧ run_TaskID r = id ∧
    run_WorkerID r = lease_WorkerID l ∧ run_Attempt r = task_Attempt t ∧ run_ID r ≠ "".
Record g_lease_ok (a : Abs) (id : string) (l : Lease) : Prop := {
  gl_task : lease_TaskID l = id;
  gl_token : drawn "lease-token" (g_uuids a) (lease_Token l);
  gl_text : text_lease l = true;
  gl_covers : ∃ t, g_tasks a !! id = Some t ∧ covers l id t;
}.
Record g_command_ok (a : Abs) (id : string) (c : Command) : Prop := {
  gc_id : cmd_ID c = id;
  gc_drawn : drawn "command" (g_uuids a) id;
  gc_claim : claim_fields_ok c;
  gc_text : text_command c = true;
}.
Record g_artifact_ok (a : Abs) (id : string) (x : Artifact) : Prop := {
  ga_id : art_ID x = id;
  ga_drawn : drawn "artifact" (g_uuids a) id;
  ga_task : is_Some (g_tasks a !! art_TaskID x);
  ga_text : text_artifact x = true;
}.
(** The dependency graph; a task that names itself may do so on one side only. *)
Record g_deps_ok (tasks : gmap string Task) : Prop := {
  gd_sym : ∀ i j ti tj, i ≠ j → tasks !! i = Some ti → tasks !! j = Some tj →
             (j ∈ task_Blocks ti ↔ i ∈ task_BlockedBy tj);
  gd_blocks : ∀ i ti x, tasks !! i = Some ti → x ∈ task_Blocks ti → is_Some (tasks !! x);
  gd_blockedBy : ∀ i ti x, tasks !! i = Some ti → x ∈ task_BlockedBy ti → is_Some (tasks !! x);
}.
Record GInv (a : Abs) : Prop := {
  gi_tasks : ∀ id t, g_tasks a !! id = Some t → g_task_ok a id t;
  gi_leases : ∀ id l, g_leases a !! id = Some l → g_lease_ok a id l;
  gi_running : ∀ id t, g_tasks a !! id = Some t → task_Status t = TaskRunning → is_Some (g_leases a !! id);
  gi_tokens : ∀ i j li lj, g_leases a !! i = Some li → g_leases a !! j = Some lj →
                lease_Token li = lease_Token lj → i = j;
  gi_deps : g_deps_ok (g_tasks a);
  gi_commands : ∀ id c, g_commands a !! id = Some c → g_command_ok a id c;
  gi_artifacts : ∀ id x, g_artifacts a !! id = Some x → g_artifact_ok a id x;
}.

Lemma drawn_mono p n m id : (n ≤ m)%nat → drawn p n id → drawn p m id.
Proof. intros ? (k & ? & ->). exists k. split; [lia|done]. Qed.
Lemma undrawn_mono p n m id : (m ≤ n)%nat → undrawn p n id → undrawn p m id.
Proof. intros ? (k & ? & ->). exists k. split; [lia|done]. Qed.
Lemma drawn_next p n : drawn p (S n) (p +:+ "-" +:+ uuid n).
Proof. exists n. split; [lia|done]. Qed.
Lemma undrawn_next p n : undrawn p n (p +:+ "-" +:+ uuid n).
Proof. exists n. split; [lia|done]. Qed.
#[local] Hint Resolve drawn_mono drawn_next : core.

(** Events and further UUIDs do not matter. *)
Lemma GInv_ext a a' :
  GInv a → g_tasks a' = g_tasks a → g_leases a' = g_leases a → g_commands a' = g_commands a →
  g_artifacts a' = g_artifacts a → (g_uuids a ≤ g_uuids a')%nat → GInv a'.
Proof.
  intros [Ht Hl Hr Hk Hd Hc Ha] E1 E2 E3 E4 Hu. split; rewrite ?E1, ?E2, ?E3, ?E4; try done.
  - intros id t H. destruct (Ht _ _ H). split; eauto.
  - intros id l H. destruct (Hl _ _ H). split; rewrite ?E1; eauto.
  - intros id c H. destruct (Hc _ _ H). split; eauto.
  - intros id x H. destruct (Ha _ _ H). split; rewrite ?E1; eauto.
Qed.

Lemma GInv_empty : GInv (MkAbs ∅ ∅ ∅ ∅ [] 0).
Proof.
  split; [..|split| |]; intros *; change (g_tasks (MkAbs ∅ ∅ ∅ ∅ [] 0)) with (∅ : gmap string Task);
    change (g_leases (MkAbs ∅ ∅ ∅ ∅ [] 0)) with (∅ : gmap string Lease); cbn [g_commands g_artifacts];
    rewrite ?lookup_empty; naive_solver.
Qed.

(** ** The lifecycle of a task *)

Definition gview (a : Abs) (id : string) : option TaskView :=
  (λ t, view_task t (g_leases a !! id)) <$> g_tasks a !! id.
Definition glife (n : nat) : string → option TaskView → option TaskView → Prop :=
  life_move (undrawn "task" n) (undrawn "lease-token" n).

Lemma glife_mono n m id v v' : (n ≤ m)%nat → glife m id v v' → glife n id v v'.
Proof.
  unfold glife. intros Hn H. destruct H; eauto with life; [apply ls_create|apply ls_claim]; eauto using undrawn_mono.
Qed.

Record moved (a0 a : Abs) (todo : string → Prop) : Prop := {
  mv_inv : GInv a;
  mv_uuids : (g_uuids a0 ≤ g_uuids a)%nat;
  mv_todo : ∀ id, todo id → g_tasks a !! id = g_tasks a0 !! id ∧ g_leases a !! id = g_leases a0 !! id;
  mv_life : ∀ id, glife (g_uuids a0) id (gview a0 id) (gview a id);
}.

Lemma moved_refl a todo : GInv a → moved a a todo.
Proof. intros H. split; [done|lia|done|]. constructor. Qed.
Lemma moved_weaken a0 a (todo todo' : string → Prop) :
  moved a0 a todo → (∀ id, todo' id → todo id) → moved a0 a todo'.
Proof. intros [] H. split; auto. Qed.

Lemma gview_same a a' id :
  g_tasks a' !! id = g_tasks a !! id → g_leases a' !! id = g_leases a !! id → gview a' id = gview a id.
Proof. unfold gview. by intros -> ->. Qed.

(** Commands, artifacts, events and UUIDs may change as long as the content is well formed. *)
Lemma moved_ext a0 a a' todo :
  moved a0 a todo → GInv a' → g_tasks a' = g_tasks a → g_leases a' = g_leases a →
  (g_uuids a ≤ g_uuids a')%nat → moved a0 a' todo.
Proof.
  intros [_ Hu Ht Hl] HI E1 E2 Hu'. split; [done|lia| |].
  - by rewrite E1, E2.
  - intros id. rewrite (gview_same a a'); by rewrite ?E1, ?E2.
Qed.

Lemma moved_later a0 a a' todo :
  moved a0 a todo → g_tasks a' = g_tasks a → g_leases a' = g_leases a → g_commands a' = g_commands a →
  g_artifacts a' = g_artifacts a → (g_uuids a ≤ g_uuids a')%nat → moved a0 a' todo.
Proof.
  intros HM E1 E2 E3 E4 Hu. apply (moved_ext a0 a); [done| |done..].
  apply (GInv_ext a); [apply (mv_inv _ _ _ HM)|done..].
Qed.

(** ** Changing one task *)

(** Whether the rewritten task and its new lease fit together. *)
Definition g_lease_fits (a a' : Abs) (id : string) (t' : Task) (ol : option Lease) : Prop :=
  match ol with
  | None => task_Status t' ≠ TaskRunning
  | Some l =>
    lease_TaskID l = id ∧ drawn "lease-token" (g_uuids a') (lease_Token l) ∧ text_lease l = true ∧ covers l id t' ∧
    (∀ j lj, g_leases a !! j = Some lj → lease_Token lj = lease_Token l → j = id)
  end.
Record g_change (a a' : Abs) (id : string) (t t' : Task) (ol : option Lease) : Prop := {
  gx_old : g_tasks a !! id = Some t;
  gx_tasks : g_tasks a' = <[id := t']> (g_tasks a);
  gx_leases : g_leases a' = partial_alter (λ _, ol) id (g_leases a);
  gx_commands : g_commands a' = g_commands a;
  gx_artifacts : g_artifacts a' = g_artifacts a;
  gx_uuids : (g_uuids a ≤ g_uuids a')%nat;
  gx_ids : task_ID t' = task_ID t;
  gx_blocks : task_Blocks t' = task_Blocks t;
  gx_blockedBy : task_BlockedBy t' = task_BlockedBy t;
  gx_attempts : attempts_ok t → attempts_ok t';
  gx_text : text_task t = true → text_task t' = true;
  gx_lease : g_lease_fits a a' id t' ol;
}.

Lemma g_deps_insert tasks id t t' :
  tasks !! id = Some t → task_Blocks t' = task_Blocks t → task_BlockedBy t' = task_BlockedBy t →
  g_deps_ok tasks → g_deps_ok (<[id := t']> tasks).
Proof.
  intros Hid Hb Hbb [Hs H1 H2].
  assert (∀ x, is_Some (tasks !! x) → is_Some (<[id := t']> tasks !! x)) as Hdom.
  { intros x Hx. rewrite lookup_insert. by case_decide; eauto. }
  assert (∀ x tx, <[id := t']> tasks !! x = Some tx →
    ∃ tx0, tasks !! x = Some tx0 ∧ task_Blocks tx = task_Blocks tx0 ∧ task_BlockedBy tx = task_BlockedBy tx0) as Hget.
  { intros x tx Hx. rewrite lookup_insert in Hx. case_decide; simplify_eq; eauto. }
  split.
  - intros i j ti tj Hne (ti0 & Hi & -> & _)%Hget (tj0 & Hj & _ & ->)%Hget. by apply Hs.
  - intros i ti x (ti0 & Hi & -> & _)%Hget Hx. eauto.
  - intros i ti x (ti0 & Hi & _ & ->)%Hget Hx. eauto.
Qed.

Lemma g_change_inv a a' id t t' ol : GInv a → g_change a a' id t t' ol → GInv a'.
Proof.
  intros [Ht Hl Hr Hk Hd Hc Ha] [Hold E1 E2 E3 E4 Hu Hids Hb Hbb Hat Htx Hfit].
  destruct (Ht _ _ Hold) as [Hid Hdr Hat0 Htx0].
  assert (∀ j, is_Some (g_tasks a !! j) → is_Some (g_tasks a' !! j)) as Hdom.
  { intros j Hj. rewrite E1, lookup_insert. by case_decide; eauto. }
  assert (∀ j lj, g_leases a' !! j = Some lj → (j = id ∧ ol = Some lj) ∨ (j ≠ id ∧ g_leases a !! j = Some lj)) as Hget.
  { intros j lj. rewrite E2. destruct (decide (j = id)) as [->|Hne];
      [rewrite lookup_partial_alter_eq|rewrite lookup_partial_alter_ne by done]; auto. }
  split.
  - intros j tj Hj. rewrite E1, lookup_insert in Hj. case_decide; simplify_eq.
    + split; eauto.
    + destruct (Ht _ _ Hj). split; eauto.
  - intros j lj [[-> ->]|[Hne Hj]]%Hget.
    + destruct Hfit as (? & ? & ? & ? & _). split; eauto. exists t'. rewrite E1, lookup_insert_eq. done.
    + destruct (Hl _ _ Hj) as [? ? ? (tj & Htj & Hcov)]. split; eauto. exists tj.
      by rewrite E1, lookup_insert_ne by done.
  - intros j tj Hj Hrun. rewrite E1, lookup_insert in Hj. rewrite E2. case_decide; simplify_eq.
    + rewrite lookup_partial_alter_eq. destruct ol; [by eauto|by destruct Hfit].
    + rewrite lookup_partial_alter_ne by done. eauto.
  - intros i j li lj [[-> ->]|[Hni Hi]]%Hget [[-> Hlj]|[Hnj Hj]]%Hget He; simplify_eq; [done| | |by eauto].
    + symmetry. eapply Hfit; eauto.
    + eapply Hfit; eauto.
  - rewrite E1. eapply g_deps_insert; eauto.
  - rewrite E3. intros j c Hj. destruct (Hc _ _ Hj). split; eauto.
  - rewrite E4. intros j x Hj. destruct (Ha _ _ Hj). split; eauto.
Qed.

Lemma g_change_view a a' id t t' ol :
  g_change a a' id t t' ol → gview a' id = Some (view_task t' ol).
Proof. intros []. unfold gview. rewrite gx_tasks0, gx_leases0, lookup_insert_eq, lookup_partial_alter_eq. done. Qed.
Lemma g_change_other a a' id t t' ol j :
  g_change a a' id t t' ol → j ≠ id →
  g_tasks a' !! j = g_tasks a !! j ∧ g_leases a' !! j = g_leases a !! j.
Proof. intros [] Hj. by rewrite gx_tasks0, gx_leases0, lookup_insert_ne, lookup_partial_alter_ne. Qed.

(** One task more makes its move. *)
Lemma moved_change a0 a a' id t t' ol (todo : string → Prop) :
  moved a0 a todo → todo id → g_change a a' id t t' ol →
  glife (g_uuids a) id (Some (view_task t (g_leases a !! id))) (Some (view_task t' ol)) →
  moved a0 a' (λ j, todo j ∧ j ≠ id).
Proof.
  intros [HI Hu Htodo Hlife] Hid Hx Hmove. pose proof (gx_uuids _ _ _ _ _ _ Hx).
  split; [by eapply g_change_inv|lia| |].
  - intros j [Hj Hne]. destruct (g_change_other _ _ _ _ _ _ j Hx Hne) as [-> ->]. by apply Htodo.
  - intros j. destruct (decide (j = id)) as [->|Hne].
    + rewrite (g_change_view _ _ _ _ _ _ Hx). destruct (Htodo _ Hid) as [H1 H2].
      rewrite <- (gview_same a0 a id H1 H2). unfold gview. rewrite (gx_old _ _ _ _ _ _ Hx). cbn.
      by eapply glife_mono.
    + destruct (g_change_other _ _ _ _ _ _ j Hx Hne) as [H1 H2]. by rewrite (gview_same a a' j H1 H2).
Qed.

End invariant.

(** The move of a task whose lease is known. *)
Ltac life := unfold glife, view_task; cbn; repeat match goal with H : task_Status ?t = _ |- _ => rewrite H end;
  repeat match goal with H : g_leases _ !! _ = _ |- _ => rewrite H end.
