(* ===== verification/SqliteOps.v ===== *)
(** * The operations of the SQLite store on tasks and leases

    Each operation keeps [GInv], makes every task take at most one move of the lifecycle,
    and appends to the event table the events it publishes, wherever the database fails
    ([op_ok]). *)

From S2P Require Import Prelude Errors Usage OrchTypes MemStore MemCommands StoreInv StoreLife StoreOps OrchHistory Json Serialize Snapshot TimeText OrchJson SqliteTx SqliteStore SqliteLogic SqliteInv.

(** The errors of a library are none of the package's. *)
Definition foreign (e : error) : Prop := Is e ErrNoReadyTask = false ∧ Is e ErrTaskBlocked = false.
(** What github.com/google/uuid and encoding/json promise: distinct ASCII strings, and
    errors of their own. *)
Class SqlConfigLaws (CF : SqlConfig) : Prop := {
  uuid_inj : Inj (=) (=) uuid;
  uuid_ascii : ∀ k, ascii_only (uuid k) = true;
  marshal_foreign : ∀ ev e, marshal_event ev = Err e → foreign e;
}.
#[export] Existing Instance uuid_inj.
(** What the database driver promises. *)
Class ForeignFaults (E : Env) : Prop := {
  fault_foreign : ∀ i e, env_fault i = Some e → foreign e;
}.

Section ops.
Context {CF : SqlConfig} {CL : SqlConfigLaws CF} {E : Env}.

(** ** Outcomes *)

(** The event table grew by [es], in some order. *)
Definition recorded (a0 a : Abs) (es : list Event) : Prop := ∃ rec, g_log a = g_log a0 ++ rec ∧ rec ≡ₚ es.
Definition settled (a0 a : Abs) (es : list Event) : Prop := moved a0 a (λ _, False) ∧ recorded a0 a es.
Definition op_ok {B} (a : Abs) (s : SqlStore) (out : SqlStore * res B) : Prop :=
  ∃ a' es, settled a a' es ∧ Holds out.1 a' ∧ sq_bus out.1 = sq_bus s ∧
    sq_published out.1 = sq_published s ++ (if sq_bus s then es else []).

Lemma recorded_refl a : recorded a a [].
Proof. exists []. by rewrite app_nil_r. Qed.
Lemma settled_failed a n : GInv a → (g_uuids a ≤ n)%nat → settled a (a <| g_uuids := n |>) [].
Proof.
  intros HI Hn. split; [|exact (recorded_refl a)].
  apply (moved_ext a a); [by apply moved_refl| |done|done|done]. by apply (GInv_ext a).
Qed.
Lemma op_ok_same {B} a s (r : res B) : Holds s a → GInv a → op_ok a s (s, r).
Proof.
  intros HR HI. exists a, []. split; [split; [by apply moved_refl|apply recorded_refl]|].
  split_and!; [done|done|]. by destruct (sq_bus s); rewrite app_nil_r.
Qed.
Lemma method_op_ok {A B} (m : TX A) (finish : A → list Event * res B) s a :
  Holds s a → GInv a → hoare m (λ x a', settled a a' (finish x).1) (failed a) a → op_ok a s (method m finish s).
Proof.
  intros HR HI Hm. destruct (method_rule m finish s a _ _ HR Hm) as
    [(e & c & (n & Hn & HR') & ->)|(x & s1 & a' & HR' & HQ & Hp & Hb & ->)].
  - exists (a <| g_uuids := n |>), []. split; [by apply settled_failed|].
    split_and!; [by apply Holds_disconnect|done|]. cbn. by destruct (sq_bus s); rewrite app_nil_r.
  - exists a', (finish x).1. split; [done|]. split; [by apply Holds_publish|]. cbn. unfold sql_publish.
    rewrite <- Hb. destruct (sq_bus s1) eqn:Hbus; cbn; rewrite ?Hbus, ?Hp, ?app_nil_r; done.
Qed.

Lemma h_validateLease id tok now Q a :
  (∀ t l, g_tasks a !! id = Some t → g_leases a !! id = Some l → lease_Token l = tok → Q (t, l) a) →
  hoare (validateLeaseTx id tok now) Q anyhow a.
Proof.
  intros HQ. apply h_bind, h_loadTask_any. intros t Ht. apply h_bind, h_loadLease_any. intros l Hl.
  destruct (String.eqb_spec (lease_Token l) tok); cbn; [|by apply h_throw].
  apply h_bind, h_normalizeNow. intros now' _. case_match; [by apply h_throw|]. apply h_ret. auto.
Qed.

Definition requeued (t : Task) (now : Time) (rollback : bool) : Task :=
  let t := t <| task_Status := TaskPending |> <| task_Result := None |> <| task_Run := None |>
             <| task_StartedAt := zero_time |> <| task_CompletedAt := zero_time |> <| task_UpdatedAt := now |> in
  if rollback && (task_Attempt t >? 0) then t <| task_Attempt ::= λ n, n - 1 |> else t.
Lemma h_requeueTask t now rollback Q X a :
  (∀ now', Q (requeued t now' rollback, task_runID t, task_Attempt t) a) → hoare (requeueTask t now rollback) Q X a.
Proof. intros HQ. apply h_bind, h_normalizeNow. intros now' _. apply h_ret, HQ. Qed.

(** A leased task is running. *)
Lemma leased_running a id t l : GInv a → g_tasks a !! id = Some t → g_leases a !! id = Some l →
  lease_TaskID l = id ∧ task_Status t = TaskRunning ∧ g_task_ok a id t.
Proof.
  intros HI Ht Hl. destruct (gi_leases _ HI _ _ Hl) as [? _ _ (t' & Ht' & Hcov)].
  rewrite Ht in Ht'. injection Ht' as <-. split_and!; [done|apply Hcov|by apply (gi_tasks _ HI)].
Qed.

(** The task takes a move that retires its lease, or leaves it without one. *)
Lemma settle_retire a a' id t t' es :
  GInv a → g_tasks a !! id = Some t → g_tasks a' = <[id := t']> (g_tasks a) → g_leases a' = delete id (g_leases a) →
  g_commands a' = g_commands a → g_artifacts a' = g_artifacts a → (g_uuids a ≤ g_uuids a')%nat →
  task_ID t' = task_ID t → task_Blocks t' = task_Blocks t → task_BlockedBy t' = task_BlockedBy t →
  (attempts_ok t → attempts_ok t') → (text_task t = true → text_task t' = true) → task_Status t' ≠ TaskRunning →
  glife (g_uuids a) id (Some (view_task t (g_leases a !! id))) (Some (view_task t' None)) →
  g_log a' = g_log a ++ es → settled a a' es.
Proof.
  intros HI Ht E1 E2 E3 E4 Hu H1 H2 H3 H4 H5 H6 Hl Hlog. split; [|by exists es].
  eapply moved_weaken; [eapply (moved_change a a a' id t t' None (λ j, j = id)); [by apply moved_refl|done|by split|done]|done].
Qed.

(** The last step of an operation that retires a lease. *)
Ltac retire HI Ht :=
  eapply (settle_retire _ _ _ _ _ _ HI Ht); cbn;
  [reflexivity|reflexivity|reflexivity|reflexivity|lia|try done..].

Lemma sql_FailTask_ok id tok err now s a :
  Holds s a → GInv a → option_text (λ e, ValidString (Error e)) err = true →
  op_ok a s (sql_FailTask id tok err now s).
Proof.
  intros HR HI Herr. apply method_op_ok; [done..|]. rules. rules. apply h_bind, h_validateLease.
  intros t l Ht Hl _. destruct (leased_running _ _ _ _ HI Ht Hl) as (-> & Hst & [<- _ _ Htx]).
  assert (∀ d, ValidString d = true → ValidString (errorString err d) = true) as Hmsg.
  { destruct err; [|done]. intros. exact Herr. }
  cbn zeta. case_match.
  - apply h_bind, h_requeueTask. intros now'. rules; [text|]. do 2 rules. save_events. apply h_ret.
    retire HI Ht; [intros; text|]. life. apply ls_requeue. by left.
  - rules; [text|]. do 2 rules. save_events. apply h_ret.
    retire HI Ht; [intros; text|]. life. apply ls_fail.
Qed.

Lemma h_cancel_guard id tok now t Q a :
  (task_Status t = TaskPending ∨ task_Status t = TaskRunning → Q tt a) →
  hoare (cancel_guard_tx id tok now t) Q anyhow a.
Proof.
  intros HQ. unfold cancel_guard_tx. destruct (task_Status t); try by apply h_throw.
  - case_match; [by apply h_throw|]. apply h_ret. auto.
  - apply h_bind, h_loadLease_any. intros l Hl. repeat case_match; try by apply h_throw. apply h_ret. auto.
Qed.
Lemma sql_CancelTask_ok id tok reason now s a :
  Holds s a → GInv a → ValidString reason = true → op_ok a s (sql_CancelTask id tok reason now s).
Proof.
  intros HR HI Hreason. apply method_op_ok; [done..|]. rules. rules. apply h_bind, h_loadTask_any.
  intros t Ht. destruct (gi_tasks _ HI _ _ Ht) as [<- _ _ Htx]. apply h_bind, h_cancel_guard. intros Hst.
  assert (ValidString (sql_cancelReason reason) = true) by (unfold sql_cancelReason; by case_match).
  rules; [text|]. do 2 rules. save_events. apply h_ret. retire HI Ht; [intros; text|]. by apply ls_cancel.
Qed.
Lemma sql_RetryTask_ok id reason now s a :
  Holds s a → GInv a → op_ok a s (sql_RetryTask id reason now s).
Proof.
  intros HR HI. apply method_op_ok; [done..|]. rules. rules. apply h_bind, h_loadTask_any.
  intros t Ht. destruct (gi_tasks _ HI _ _ Ht) as [<- _ _ Htx]. case_match eqn:Hg; [rules|].
  apply andb_false_iff in Hg. rewrite !negb_false_iff, !bool_decide_eq_true in Hg.
  apply h_bind, h_requeueTask. intros now'. rules; [text|]. do 2 rules. save_events. apply h_ret.
  retire HI Ht; [|intros; text|by apply ls_retry].
  unfold attempts_ok. cbn. lia.
Qed.

(** ** Leases *)

(** The same task under a changed lease. *)
Lemma sql_RenewLease_ok id tok ttl now s a :
  Holds s a → GInv a → op_ok a s (sql_RenewLease id tok ttl now s).
Proof.
  intros HR HI. unfold sql_RenewLease. case_match; [by apply op_ok_same|].
  apply method_op_ok; [done..|]. rules. rules. apply h_bind, h_loadLease_any. intros l Hl.
  destruct (gi_leases _ HI _ _ Hl) as [<- Htok Htx (t & Ht & Hcov)].
  case_match; [rules|]. case_match; [rules|]. rules; [text|]. do 2 rules. save_events. apply h_ret.
  split; [|eexists; split; [reflexivity|cbn; reflexivity]].
  eapply moved_weaken; [eapply (moved_change a a _ (lease_TaskID l) t t (Some _) (λ j, j = lease_TaskID l))|done];
    [by apply moved_refl|done| |].
  - split; cbn; try done; [by rewrite insert_id|lia|].
    split_and!; [done|by eapply drawn_mono; [|exact Htok]; lia|by text|done|].
    intros j lj Hj Hjt. by eapply (gi_tokens _ HI).
  - life. constructor.
Qed.

Lemma sql_ReleaseLease_ok id tok s a :
  Holds s a → GInv a → op_ok a s (sql_ReleaseLease id tok s).
Proof.
  intros HR HI. apply method_op_ok; [done..|]. rules. rules. apply h_bind, h_loadLease_any. intros l Hl.
  destruct (gi_leases _ HI _ _ Hl) as [_ _ _ (t & Ht & _)].
  destruct (leased_running _ _ _ _ HI Ht Hl) as (<- & Hst & [Hid _ _ Htx]).
  case_match; [rules|]. rules. rewrite Ht, bool_decide_eq_true_2 by done.
  apply h_bind. rules. apply h_bind, h_requeueTask. intros now'.
  assert (text_task (requeued t now' true) = true).
  { unfold requeued. case_match; text. }
  assert (task_ID (requeued t now' true) = lease_TaskID l) as Hid'.
  { unfold requeued. by case_match. }
  rules; [done|]. do 3 rules. apply h_bind. do 2 rules. save_events. apply h_ret. rewrite Hid'.
  eapply (settle_retire _ _ _ _ (requeued t now' true) _ HI Ht); try done; try (unfold requeued; by case_match); cbn; [lia| |].
  - unfold requeued, attempts_ok. case_match eqn:Hg; cbn; [|done]. apply andb_prop in Hg as [_ Hg]. cbn in Hg. lia.
  - life. unfold requeued. case_match eqn:Hg; cbn; apply ls_requeue; [right|by left].
    apply andb_prop in Hg as [_ Hg]. cbn in Hg. lia.
Qed.

(** ** Recovery *)

(** One expired lease: what is recorded is what will be published. *)
Definition publication (r : option (LeaseRecovery * RecoveryPublication)) : list Event :=
  match r with
  | Some (_, p) => pub_release p :: option_list (pub_failed p) ++ option_list (pub_requeued p)
  | None => []
  end.
Definition unexpired (now : Time) (l : option Lease) : option Lease :=
  l ← l; if After (lease_ExpiresAt l) now then Some l else None.
Definition recovers (a : Abs) (id : string) (now : Time) (r : option (LeaseRecovery * RecoveryPublication)) : Prop :=
  match r with
  | Some (r, _) => ∃ l, g_leases a !! id = Some l ∧ After (lease_ExpiresAt l) now = false ∧ lrec_Lease r = l
  | None => g_leases a !! id = unexpired now (g_leases a !! id)
  end.
Lemma h_recover_lease id now Q a0 a (todo : string → Prop) :
  moved a0 a todo → todo id →
  (∀ r a', moved a0 a' (λ j, todo j ∧ j ≠ id) → g_log a' = g_log a ++ publication r → recovers a id now r →
     g_leases a' = partial_alter (unexpired now) id (g_leases a) → Q r a') →
  hoare (recover_lease_tx id now) Q anyhow a.
Proof.
  intros HM Hid HQ. pose proof (mv_inv _ _ _ HM) as HI. unfold recover_lease_tx. rules.
  assert (moved a0 a (λ j, todo j ∧ j ≠ id)) as HM' by (eapply moved_weaken; [done|naive_solver]).
  assert (unexpired now (g_leases a !! id) = g_leases a !! id →
    g_leases a = partial_alter (unexpired now) id (g_leases a)) as Hkeep.
  { intros H. apply map_eq. intros j. destruct (decide (j = id)) as [->|Hne];
      [by rewrite lookup_partial_alter_eq|by rewrite lookup_partial_alter_ne]. }
  destruct (g_leases a !! id) as [l|] eqn:Hl; cbn in Hkeep.
  2: { rules. apply HQ; [done|by rewrite app_nil_r|unfold recovers; by rewrite Hl|auto]. }
  branch Hexp.
  { rules. apply HQ; [done|by rewrite app_nil_r|unfold recovers; rewrite Hl; cbn; by rewrite Hexp|auto]. }
  assert (delete id (g_leases a) = partial_alter (unexpired now) id (g_leases a)) as Hgone.
  { apply map_eq. intros j. destruct (decide (j = id)) as [->|Hne].
    - by rewrite lookup_delete_eq, lookup_partial_alter_eq, Hl; cbn; rewrite Hexp.
    - by rewrite lookup_delete_ne, lookup_partial_alter_ne. }
  rules.
  destruct (gi_leases _ HI _ _ Hl) as [_ _ _ (t & Ht & _)]. rewrite Ht.
  destruct (leased_running _ _ _ _ HI Ht Hl) as (_ & Hst & [<- _ _ Htx]). cbv zeta.
  rewrite (bool_decide_eq_true_2 (task_Status t = TaskRunning)) by done. cbn [andb].
  destruct (exhaustedAttempts t).
  - rules; [text|]. do 3 rules. save_events. apply h_ret, HQ; [|done|by exists l|done].
    eapply moved_change; [done|done|split; try done; cbn; [lia|text]|]. life. apply ls_fail.
  - apply h_bind, h_requeueTask. intros now'. rules; [text|]. do 3 rules. save_events. apply h_ret, HQ; [|done|by exists l|done].
    eapply moved_change; [done|done|split; try done; cbn; [lia|text]|]. life. apply ls_requeue. by left.
Qed.
Lemma h_recover_leases ids now Q a0 a :
  moved a0 a (λ j, j ∈ ids) → NoDup ids →
  (∀ rs a', moved a0 a' (λ _, False) → g_log a' = g_log a ++ concat ((publication ∘ Some) <$> rs) →
     (∀ r p, (r, p) ∈ rs → ∃ id, id ∈ ids ∧ recovers a id now (Some (r, p))) →
     (∀ j, g_leases a' !! j = if decide (j ∈ ids) then unexpired now (g_leases a !! j) else g_leases a !! j) → Q rs a') →
  hoare (recover_leases_tx ids now) Q anyhow a.
Proof.
  revert a Q. induction ids as [|id ids IH]; intros a Q HM Hnd HQ.
  - apply h_ret, HQ; [|by rewrite app_nil_r|by intros r p ?%elem_of_nil|done]. eapply moved_weaken; [done|naive_solver].
  - apply NoDup_cons in Hnd as [Hid Hnd]. cbn. apply h_bind.
    eapply h_recover_lease; [exact HM|by left|]. intros r a1 HM1 Hlog1 Hr Hl1. apply h_bind, IH; [|done|].
    { eapply moved_weaken; [exact HM1|]. intros j Hj. split; [by right|by intros ->]. }
    assert (∀ j, j ≠ id → g_leases a1 !! j = g_leases a !! j) as Hother.
    { intros j Hj. by rewrite Hl1, lookup_partial_alter_ne. }
    intros rs a2 HM2 Hlog2 Hrs Hl2. apply h_ret, HQ; [done|..].
    + rewrite Hlog2, Hlog1, <- app_assoc. by destruct r.
    + intros r' p Hin. assert ((r', p) ∈ rs ∨ r = Some (r', p)) as [Hin'| ->].
      { destruct r; [apply elem_of_cons in Hin; naive_solver|by left]. }
      * destruct (Hrs _ _ Hin') as (j & Hj & l & Hl & ?). exists j. split; [by right|]. exists l.
        by rewrite <- Hother by (by intros ->).
      * exists id. split; [by left|exact Hr].
    + intros j. rewrite Hl2. destruct (decide (j = id)) as [->|Hne].
      * rewrite (decide_False (P := id ∈ ids)), decide_True by (done || by left).
        by rewrite Hl1, lookup_partial_alter_eq.
      * rewrite Hother by done. destruct (decide (j ∈ ids)); [rewrite decide_True by (by right)|rewrite decide_False by set_solver]; done.
Qed.
Lemma recovery_events_recorded (rs : list (LeaseRecovery * RecoveryPublication)) :
  concat ((publication ∘ Some) <$> rs) ≡ₚ recovery_events rs.*2.
Proof.
  unfold recovery_events. induction rs as [|[r p] rs IH]; [done|]. cbn. rewrite IH. constructor.
  destruct (pub_failed p), (pub_requeued p); cbn; solve_Permutation.
Qed.

Lemma filter_keeps_order {A} (f : A → bool) (l : list A) : List.filter f l `sublist_of` l.
Proof. induction l as [|x l IH]; [done|]. cbn. destruct (f x); by constructor. Qed.
(** The rows of expired leases, as the text of the column orders them. *)
Lemma h_expired_ids text p Q a :
  (∀ ids, NoDup ids →
     (∀ id l, g_leases a !! id = Some l → lease_ExpiresAt l ≠ zero_time →
        (id ∈ ids ↔ String.leb (FormatRFC3339Nano (lease_ExpiresAt l)) text = true)) → Q ids a) →
  hoare (wrap p (query (λ db, (expired_rows text db).*1))) Q anyhow a.
Proof.
  intros HQ. apply h_query_wrap; [done|]. intros c HR.
  destruct (ordered_rows lrow_expires_at (tbl_leases (c_db c))) as [Hnd Hin]. unfold expired_rows. apply HQ.
  - eapply sublist_NoDup; [exact Hnd|]. apply fmap_sublist, filter_keeps_order.
  - intros id l Hl Hz. destruct (lookup_stored _ _ _ id (rep_leases _ _ HR)) as [[_ Hn]|(r & l' & Hr & Hl' & Hrl)];
      [congruence|]. simplify_eq. destruct Hrl as [_ _ Hcol]. rewrite <- (Hcol Hz), list_elem_of_fmap. split.
    + intros ([id' r'] & -> & [Hr' Hle]%list_elem_of_In%filter_In). apply list_elem_of_In, Hin in Hr'.
      cbn in *. by simplify_eq.
    + intros Hle. exists (id, r). split; [done|]. apply list_elem_of_In, filter_In.
      split; [by apply list_elem_of_In, Hin|done].
Qed.
Lemma sql_RecoverExpiredLeases_ok now s a :
  Holds s a → GInv a → op_ok a s (sql_RecoverExpiredLeases now s).
Proof.
  intros HR HI. apply method_op_ok; [done..|]. rules. rules. apply h_bind, h_formatTime. intros text _.
  apply h_bind, h_expired_ids. intros ids Hnd _.
  apply (h_recover_leases _ _ _ a); [by apply moved_refl|done|]. intros rs a' HM Hlog _ _. split; [done|].
  eexists. split; [exact Hlog|apply recovery_events_recorded].
Qed.
Lemma sql_RecoverExpiredLease_ok id now s a :
  Holds s a → GInv a → op_ok a s (sql_RecoverExpiredLease id now s).
Proof.
  intros HR HI. apply method_op_ok; [done..|]. rules. rules.
  apply (h_recover_lease _ _ _ a a (λ j, j = id)); [by apply moved_refl|done|]. intros r a' HM Hlog _ _.
  split; [eapply moved_weaken; [exact HM|done]|]. eexists. split; [exact Hlog|].
  destruct r as [[r p]|]; [|done]. cbn. by destruct (pub_failed p), (pub_requeued p).
Qed.

(** ** Completion *)

Definition spec_text (x : ArtifactSpec) : bool :=
  ValidString (spec_Kind x) && ValidString (spec_Name x) && ValidString (spec_ContentType x).
Definition outcome_text (o : TaskOutcome) : bool :=
  option_text plain_result (outcome_Result o) && forallb spec_text (outcome_Artifacts o).

(** Identifiers are UTF-8. *)
Lemma drawn_valid p n id : ascii_only p = true → drawn p n id → ValidString id = true.
Proof.
  intros Hp (k & _ & ->). apply ascii_only_valid. by rewrite !ascii_only_app, Hp, uuid_ascii.
Qed.
Lemma next_valid p n : ascii_only p = true → ValidString (p +:+ "-" +:+ uuid n) = true.
Proof. intros Hp. eapply drawn_valid; [done|]. apply drawn_next. Qed.
Lemma drawn_fresh p n : ¬ drawn p n (p +:+ "-" +:+ uuid n).
Proof.
  intros (k & Hk & H). apply (inj (String.append p)), (inj (String.append "-")), (inj uuid) in H. lia.
Qed.

(** A new artifact of a stored task. *)
Lemma GInv_artifact a a' x :
  GInv a → is_Some (g_tasks a !! art_TaskID x) → text_artifact x = true → drawn "artifact" (g_uuids a') (art_ID x) →
  g_tasks a' = g_tasks a → g_leases a' = g_leases a → g_commands a' = g_commands a →
  g_artifacts a' = <[art_ID x := x]> (g_artifacts a) → (g_uuids a ≤ g_uuids a')%nat → GInv a'.
Proof.
  intros HI Ht Htx Hdr E1 E2 E3 E4 Hu.
  assert (GInv (a <| g_uuids := g_uuids a' |>)) as [H1 H2 H3 H4 H5 H6 H7] by (by apply (GInv_ext a)).
  split; rewrite ?E1, ?E2, ?E3; try done.
  - intros id t H. by destruct (H1 _ _ H).
  - intros id l H. destruct (H2 _ _ H). split; [done..|]. by rewrite E1.
  - intros id c H. by destruct (H6 _ _ H).
  - rewrite E4. intros id y [[<- <-]|[_ H]]%lookup_insert_Some; [by split; rewrite ?E1|].
    destruct (H7 _ _ H). split; [done..| |done]. by rewrite E1.
Qed.

Lemma h_outcome_artifacts tid rid at_ specs Q a :
  GInv a → is_Some (g_tasks a !! tid) → ValidString tid = true → ValidString rid = true →
  forallb spec_text specs = true →
  (∀ xs a', GInv a' → g_tasks a' = g_tasks a → g_leases a' = g_leases a → g_log a' = g_log a →
     (g_uuids a ≤ g_uuids a')%nat → Q xs a') →
  hoare (mapM (outcome_artifact tid rid at_) specs) Q anyhow a.
Proof.
  intros HI Ht Htid Hrid Htx HQ. revert a Q HI Ht HQ.
  induction specs as [|x specs IH]; intros a Q HI Ht HQ; [apply h_ret; auto|].
  cbn in Htx. apply andb_prop in Htx as [Hx Htx]. cbn. apply h_bind. unfold outcome_artifact at 1. rules.
  assert (ValidString ("artifact" +:+ "-" +:+ uuid (g_uuids a)) = true) by by apply next_valid.
  unfold spec_text in Hx.
  apply h_bind, h_writeArtifact; [unfold plain_artifact; text|]. intros m Hm. apply h_ret, h_bind. apply (IH Htx).
  - eapply (GInv_artifact a); [done| |exact Hm| |reflexivity..|cbn; lia]; [done|apply drawn_next].
  - done.
  - cbn. intros xs a' HI' E1 E2 E3 Hu. apply h_ret, HQ; auto. cbn in Hu. lia.
Qed.

Lemma sql_CompleteTask_ok id tok o now s a :
  Holds s a → GInv a → option_text outcome_text o = true → op_ok a s (sql_CompleteTask id tok o now s).
Proof.
  intros HR HI Ho. apply method_op_ok; [done..|]. rules. rules. apply h_bind, h_validateLease.
  intros t l Ht Hl _. destruct (leased_running _ _ _ _ HI Ht Hl) as (-> & Hst & [<- Hdr _ Htx]). cbv zeta.
  set (t' := t <| task_Status := TaskCompleted |> <| task_Result := _ |> <| task_LastError := "" |>
               <| task_CompletedAt := _ |> <| task_UpdatedAt := _ |>).
  assert (plain_task t' = true) as Htx'.
  { assert (option_text plain_result (task_Result t') = true).
    { destruct o as [o|]; [|done]. cbn in *. apply andb_prop in Ho as [Ho _].
      destruct (outcome_Result o) as [r|]; [|done]. cbn. by case_match. }
    unfold t', plain_task. text. }
  apply h_bind, h_writeTask; [done|]. intros t1 (m & res & Et & _) Ht1. rules.
  match goal with |- hoare _ _ _ ?a1 => assert (settled a a1 []) as [HM _] end.
  { subst t1. retire HI Ht; [life; apply ls_complete|by rewrite app_nil_r]. }
  apply h_bind.
  eapply h_mono with (Q := λ xs a', GInv a' ∧ g_tasks a' = <[task_ID t := t1]> (g_tasks a) ∧
    g_leases a' = delete (task_ID t) (g_leases a) ∧ g_log a' = g_log a ∧ (g_uuids a ≤ g_uuids a')%nat); [| |done].
  { destruct o as [o|]; [|apply h_ret; split; [apply HM|done]].
    apply andb_prop in Ho as [_ Ho]. apply h_outcome_artifacts; [apply HM| | | |done|].
    - cbn. rewrite lookup_insert_eq. eauto.
    - eapply drawn_valid; [|done]. done.
    - unfold task_runID. cbn. unfold text_task, option_text in Htx. rewrite !andb_true_iff in Htx.
      destruct (task_Run t) as [r|]; [|done]. unfold text_run in Htx. rewrite !andb_true_iff in Htx. apply Htx.
    - cbn. intros xs a' ? -> -> -> ?. done. }
  cbn. intros xs a' (HI' & E1 & E2 & E3 & Hu). rules.
  apply h_bind, (h_records _ artifact_event); [intros x Q X b HX HQ; by apply h_newEventRecord|done|].
  intros rs Hrs. save_events. apply h_ret. split; [|exists (completed_event t' :: (artifact_event <$> xs)); cbn; by rewrite E3].
  eapply (moved_ext _ _ _ _ HM); [|done|done|cbn; lia]. eapply (GInv_ext a'); cbn; try done. lia.
Qed.

(** ** Claims *)

(** A failed claim attempt leaves some content, and an error that is no reason to go on. *)
Definition claim_failure (e : error) : Prop := fault_error e ∨ encode_error e ∨ e = ErrTaskNotFound.
Definition claim_tolerant (X : error → Conn → Prop) : Prop := ∀ e c a, claim_failure e → Rep c a → X e c.
Lemma claim_tolerant_load X a : claim_tolerant X → tolerant X a.
Proof. intros HX e c He. apply HX. by left. Qed.
Lemma claim_tolerant_save X a : claim_tolerant X → save_tolerant X a.
Proof. intros HX. split; [by apply claim_tolerant_load|]. intros e c He. apply HX. right. by left. Qed.
#[local] Hint Resolve claim_tolerant_load claim_tolerant_save : core.

(** Whether a claim may take the task: not excluded, of a wanted kind, no stored blocker is
    unfinished, no lease is active, attempts are left and the status allows it. *)
Definition not_blocking (a : Abs) (j : string) : bool :=
  match g_tasks a !! j with Some t => bool_decide (task_Status t = TaskCompleted) | None => true end.
Definition claimable (t : Task) : bool :=
  match task_Status t with TaskPending | TaskRunning => true | _ => false end.
Definition g_ready (a : Abs) (id : string) (req : ClaimTaskRequest) (now : Time) : bool :=
  match g_tasks a !! id with
  | None => false
  | Some t =>
    negb (containsString (claim_ExcludeTaskIDs req) id) && matchesKinds t (claim_Kinds req)
    && forallb (not_blocking a) (task_BlockedBy t)
    && match g_leases a !! id with Some l => negb (After (lease_ExpiresAt l) now) | None => true end
    && negb (exhaustedAttempts t) && claimable t
  end.
Lemma g_ready_same a a' id req now :
  g_tasks a' !! id = g_tasks a !! id → g_leases a' !! id = g_leases a !! id →
  (∀ j, not_blocking a' j = not_blocking a j) → g_ready a' id req now = g_ready a id req now.
Proof.
  intros E1 E2 H. unfold g_ready. rewrite E1, E2. destruct (g_tasks a !! id) as [t|]; [|done].
  assert (forallb (not_blocking a') (task_BlockedBy t) = forallb (not_blocking a) (task_BlockedBy t)) as ->; [|done].
  induction (task_BlockedBy t); cbn; congruence.
Qed.

Lemma h_blocked_by ids Q X a :
  tolerant X a → Q (negb (forallb (not_blocking a) ids)) a → hoare (blocked_by ids) Q X a.
Proof.
  intros HX HQ. induction ids as [|id ids IH]; [by apply h_ret|]. cbn [blocked_by].
  apply h_bind, h_tryLoadTask; [done|]. cbn in HQ. unfold not_blocking in HQ at 1.
  destruct (g_tasks a !! id); [|by apply IH]. branch Hc; [by apply IH|by apply h_ret].
Qed.

Definition refusal (e : error) : Prop := e = ErrNoReadyTask ∨ e = ErrTaskBlocked.

(** The claimed task and its lease are stored. *)
Definition holds_claim (a : Abs) (id : string) (c : ClaimedTask) : Prop :=
  task_ID (claimed_Task c) = id ∧ g_tasks a !! id = Some (claimed_Task c) ∧ g_leases a !! id = Some (claimed_Lease c).
Lemma h_claim_start t id req now Q X a0 a (todo : string → Prop) :
  claim_tolerant X → moved a0 a todo → todo id → g_tasks a !! id = Some t →
  task_Status t = TaskPending ∨ task_Status t = TaskRunning → exhaustedAttempts t = false →
  ValidString (claim_WorkerID req) = true →
  (∀ c a', moved a0 a' (λ j, todo j ∧ j ≠ id) → g_log a' = g_log a → holds_claim a' id c → Q (Claimed c) a') →
  hoare (claim_start_tx t req now) Q X a.
Proof.
  intros HX HM Hid Ht Hst Hex Hw HQ. pose proof (mv_inv _ _ _ HM) as HI.
  destruct (gi_tasks _ HI _ _ Ht) as [<- Hdr Hat Htx]. pose proof (proj1 (exhausted_false t) Hex) as Hlt.
  assert (ValidString (task_ID t) = true) by (by eapply drawn_valid; [|exact Hdr]).
  assert (∀ p k, ascii_only p = true → ValidString (p +:+ "-" +:+ uuid k) = true) as Hv by (intros; by apply next_valid).
  apply h_bind, h_newID. cbv zeta. apply h_bind, h_saveTask; [|by auto|].
  { unfold text_task, option_text, text_run in *. cbn in *. rewrite ?andb_true_iff in *. destruct_and?.
    repeat split; auto. by apply (Hv "run"). }
  do 2 (apply h_bind, h_newID). apply h_bind, h_saveLease; [|by auto|].
  { unfold text_lease. cbn. rewrite !andb_true_iff. repeat split; auto; [by apply (Hv "lease")|by apply (Hv "lease-token")]. }
  apply h_ret, HQ; [|done|].
  2: { split; [done|]. cbn. by rewrite !lookup_insert_eq. }
  eapply (moved_change a0 a _ (task_ID t) t _ (Some _)); [done|done|split; cbn; try done; [lia|..]|].
  - unfold attempts_ok in *. cbn. lia.
  - intros _. unfold text_task, option_text, text_run in *. cbn in *. rewrite ?andb_true_iff in *. destruct_and?.
    repeat split; auto. by apply (Hv "run").
  - split_and!; [done|apply drawn_next| |split; [done|]; eexists; split; [reflexivity|done]|].
    + unfold text_lease. cbn. rewrite !andb_true_iff. repeat split; auto; [by apply (Hv "lease")|by apply (Hv "lease-token")].
    + cbn. intros j lj Hj Htok. destruct (gl_token _ _ _ (gi_leases _ HI _ _ Hj)) as (k & Hk & Hkt).
      rewrite Hkt in Htok. apply (inj (String.append "lease-token")), (inj (String.append "-")), (inj uuid) in Htok. lia.
  - unfold glife, view_task. cbn. apply ls_claim; [done|done|]. exists (S (S (g_uuids a))). split; [lia|done].
Qed.

Lemma h_claimTask id req now Q X a0 a (todo : string → Prop) :
  claim_tolerant X → moved a0 a todo → todo id → ValidString (claim_WorkerID req) = true →
  (∀ c a', g_ready a id req now = true → moved a0 a' (λ j, todo j ∧ j ≠ id) → g_log a' = g_log a →
     holds_claim a' id c → Q (Claimed c) a') →
  (∀ t e a', g_ready a id req now = false → refusal e → moved a0 a' (λ j, todo j ∧ j ≠ id) → g_log a' = g_log a →
     (∀ j, not_blocking a' j = not_blocking a j) → Q (Refused t e) a') →
  hoare (claimTaskTx id req now) Q X a.
Proof.
  intros HX HM Hid Hw HQ1 HQ2. pose proof (mv_inv _ _ _ HM) as HI.
  assert (moved a0 a (λ j, todo j ∧ j ≠ id)) as HM' by (eapply moved_weaken; [done|naive_solver]).
  apply h_bind, h_loadTask; [by auto|]. unfold g_ready in HQ1, HQ2. destruct (g_tasks a !! id) as [t|] eqn:Ht.
  2: { intros c. apply HX. by right; right. }
  branch Hexcl; [apply h_ret, HQ2; [done|by left|done..]|].
  branch Hkind; [apply negb_true_iff in Hkind; apply h_ret, HQ2; [by rewrite Hkind|by left|done..]|].
  apply negb_false_iff in Hkind. rewrite Hkind in HQ1, HQ2.
  apply h_bind, h_blocked_by; [by auto|].
  destruct (forallb (not_blocking a) (task_BlockedBy t)); cbn [negb andb] in *;
    [|apply h_ret, HQ2; [done|by right|done..]].
  apply h_bind, h_tryLoadLease; [by auto|]. cbv zeta.
  set (active := match g_leases a !! id with Some l => negb (After (lease_ExpiresAt l) now) | None => true end) in *.
  assert ((match g_leases a !! id with
     | Some _ => negb match g_leases a !! id with Some l => negb (After (lease_ExpiresAt l) now) | None => false end
     | None => false end) = negb active) as -> by (unfold active; by destruct (g_leases a !! id)).
  branch Hactive; [apply negb_true_iff in Hactive; apply h_ret, HQ2; [by rewrite Hactive|by left|done..]|].
  apply negb_false_iff in Hactive. rewrite Hactive in HQ1, HQ2. cbn [andb] in *.
  branch Hex; cbn [negb andb] in *.
  - unfold claim_exhausted_tx. branch Hg; [|apply h_ret, HQ2; [done|by left|done..]].
    destruct (gi_tasks _ HI _ _ Ht) as [<- _ _ Htx]. apply andb_prop in Hg.
    rewrite !negb_true_iff, !bool_decide_eq_false in Hg.
    apply h_bind, h_saveTask; [text|by auto|]. apply h_bind, h_deleteLease; [by auto|].
    apply h_ret, HQ2; [done|by left| |done|].
    + eapply moved_change; [done|done|split; try done; cbn; text|]. unfold glife, view_task. cbn.
      apply exhausted_true in Hex. apply ls_exhaust; tauto || lia.
    + intros j. unfold not_blocking. cbn. rewrite lookup_insert. case_decide; [|done]. subst. rewrite Ht. cbn.
      rewrite !bool_decide_eq_false_2; [done|naive_solver|done].
  - unfold claimable in *. destruct (task_Status t) eqn:Hst; try (apply h_ret, HQ2; [done|by left|done..]).
    + apply (h_claim_start t id _ _ _ _ a0 a todo); auto.
    + assert (negb match g_leases a !! id with Some l => negb (After (lease_ExpiresAt l) now) | None => false end &&
        bool_decide (is_Some (g_leases a !! id)) = false) as ->.
      { unfold active in Hactive. destruct (g_leases a !! id); [by rewrite Hactive|done]. }
      apply (h_claim_start t id _ _ _ _ a0 a todo); auto.
Qed.

(** What a scan records and publishes. *)
Definition claim_events (c : option ClaimedTask) : list Event :=
  match c with Some c => [claimed_event (claimed_Task c) (claimed_Lease c)] | None => [] end.

Lemma claim_failure_stops `{!ForeignFaults E} e :
  claim_failure e → Is e ErrNoReadyTask || Is e ErrTaskBlocked = false.
Proof.
  assert (∀ e, foreign e → Is e ErrNoReadyTask || Is e ErrTaskBlocked = false) as Hf by (by intros ? [-> ->]).
  intros [He|[He| ->]]; [| |done].
  - induction He as [i e He|p e _ IH]; [|done]. apply Hf. by eapply fault_foreign.
  - induction He as [|ev e He|p e _ IH]; [done| |done]. apply Hf. by eapply marshal_foreign.
Qed.

Lemma h_claim_scan `{!ForeignFaults E} ids req now failed records Q X a0 a :
  (∀ e c, claim_failure e → X e c) →
  moved a0 a (λ j, j ∈ ids) → NoDup ids → ValidString (claim_WorkerID req) = true →
  g_log a = g_log a0 → Forall2 record_for (failed_event <$> failed) records →
  (∀ j, not_blocking a j = not_blocking a0 j) →
  (∀ c failed a', moved a0 a' (λ _, False) → g_log a' = g_log a0 ++ (failed_event <$> failed) ++ claim_events c →
     match c with
     | Some c => ∃ id, g_ready a0 id req now = true ∧ holds_claim a' id c
     | None => ∀ id, id ∈ ids → g_ready a0 id req now = false
     end → Q (c, failed) a') →
  hoare (claim_ready_scan ids req now failed records) Q X a.
Proof.
  intros HX HM Hnd Hw Hlog Hrec Hnb HQ.
  assert (∀ e c, fault_error e ∨ encode_error e → X e c) as HX1 by (intros e c [?|?]; apply HX; [by left|by right; left]).
  assert (∀ b, save_tolerant X b) as HX2 by (intros b; split; intros e c ? _; apply HX1; auto).
  revert a failed records HM Hlog Hrec Hnb HQ.
  induction ids as [|id ids IH]; intros a failed records HM Hlog Hrec Hnb HQ.
  - cbn. apply h_bind. eapply h_saveEvents; [exact Hrec|done|]. apply h_ret, HQ; [|cbn; by rewrite Hlog, app_nil_r|by intros id ?%elem_of_nil].
    eapply (moved_later a0 a); [|done..]. eapply moved_weaken; [done|naive_solver].
  - apply NoDup_cons in Hnd as [Hid Hnd]. specialize (IH Hnd). cbn [claim_ready_scan]. apply h_bind, h_try.
    assert (∀ a', moved a0 a' (λ j, j ∈ id :: ids ∧ j ≠ id) → moved a0 a' (λ j, j ∈ ids)) as Hrest.
    { intros a' H. eapply moved_weaken; [exact H|]. intros j Hj. split; [by right|by intros ->]. }
    assert (g_ready a id req now = g_ready a0 id req now) as Hready.
    { destruct (mv_todo _ _ _ HM id) as [E1 E2]; [by left|]. by apply g_ready_same. }
    eapply (h_claimTask _ _ _ _ _ a0 a (λ j, j ∈ id :: ids)); [|exact HM|by left|done|..]; rewrite ?Hready.
    + intros e c a' He HR. exists a'. split; [done|]. cbv beta iota. rewrite (claim_failure_stops e He). apply h_throw. auto.
    + intros c a' Hrdy HM' Hlog' Hholds. apply h_bind, h_newEventRecord; [done|]. intros rec Hr. apply h_bind.
      eapply (h_saveEvents ((failed_event <$> failed) ++ claim_events (Some c))); [|done|].
      * apply Forall2_app; [done|]. by constructor.
      * apply h_ret, HQ; [|cbn; by rewrite Hlog', Hlog|by exists id].
        eapply (moved_later a0 a'); [|done..|cbn; lia]. eapply moved_weaken; [exact HM'|done].
    + intros t e a' Hrdy He HM' Hlog' Hnb'.
      assert (∀ c failed a1, moved a0 a1 (λ _, False) → g_log a1 = g_log a0 ++ (failed_event <$> failed) ++ claim_events c →
        match c with Some c => ∃ id, g_ready a0 id req now = true ∧ holds_claim a1 id c
        | None => ∀ id, id ∈ ids → g_ready a0 id req now = false end → Q (c, failed) a1) as HQ'.
      { intros [c|] f a1 H1 H2 H3; apply HQ; auto. intros j [->|Hj]%elem_of_cons; auto. }
      assert (Is e ErrNoReadyTask || Is e ErrTaskBlocked = true) as Hgo by (by destruct He as [-> | ->]).
      destruct t as [t|]; apply h_bind; [apply h_bind, h_newEventRecord; [done|]; intros rec Hr|];
        apply h_ret; rewrite Hgo; apply IH; auto; [| | | | |].
      * eapply (moved_later a0 a'); [by apply Hrest|done..|cbn; lia].
      * cbn. congruence.
      * rewrite fmap_app. apply Forall2_app; [done|]. by constructor.
      * intros j. by rewrite <- Hnb, <- Hnb'.
      * congruence.
      * intros j. by rewrite <- Hnb, <- Hnb'.
Qed.

Lemma sql_ClaimReadyTask_ok `{!ForeignFaults E} req s a :
  Holds s a → GInv a → ValidString (claim_WorkerID req) = true → op_ok a s (sql_ClaimReadyTask req s).
Proof.
  intros HR HI Hw. unfold sql_ClaimReadyTask. case_match; [by apply op_ok_same|].
  apply method_op_ok; [done..|]. rules. rules. apply h_bind, h_listTaskIDs; [done|]. intros ids [Hnd _].
  apply (h_claim_scan _ _ _ _ _ _ _ a); [done|by apply moved_refl|done..| |done|]; [constructor|].
  intros c failed a' HM Hlog _. split; [done|]. eexists. split; [exact Hlog|]. destruct c; cbn; by rewrite ?app_nil_r.
Qed.
Lemma sql_ClaimTask_ok id req s a :
  Holds s a → GInv a → ValidString (claim_WorkerID req) = true → op_ok a s (sql_ClaimTask id req s).
Proof.
  intros HR HI Hw. unfold sql_ClaimTask. case_match; [by apply op_ok_same|].
  apply method_op_ok; [done..|]. rules. rules. apply h_bind.
  apply (h_claimTask _ _ _ _ _ a a (λ j, j = id)); [done|by apply moved_refl|done|done| |].
  - intros c a' _ HM Hlog _. rules. save_events. apply h_ret. split; [|eexists; cbn; by rewrite Hlog].
    eapply (moved_later a a'); [|done..|cbn; lia]. eapply moved_weaken; [exact HM|done].
  - intros [t|] e a' _ He HM Hlog _; [|rules]. rules. save_events. branch Hgo; [|rules]. apply h_ret.
    split; [|eexists; cbn; by rewrite Hlog].
    eapply (moved_later a a'); [|done..|cbn; lia]. eapply moved_weaken; [exact HM|done].
Qed.

End ops.
