(* ===== verification/SqliteDeps.v ===== *)
(** * The operations of the SQLite store on artifacts, commands and dependencies *)

From S2P Require Import Prelude Errors Usage OrchTypes MemStore MemCommands StoreInv StoreDeps StoreLife StoreOps OrchHistory Json Serialize Snapshot TimeText OrchJson SqliteTx SqliteStore SqliteLogic SqliteInv SqliteOps.

(** Decimal numbers are ASCII. *)
Lemma pretty_N_go_ascii x s : ascii_only s = true → ascii_only (pretty_N_go x s) = true.
Proof.
  revert s. induction (N.lt_wf_0 x) as [x _ IH]. intros s Hs.
  destruct (decide (0 < x)%N) as [Hx|Hx].
  - rewrite pretty_N_go_step by done. apply IH; [by apply N.div_lt|].
    unfold ascii_only in *. cbn [String.list_ascii_of_string forallb]. rewrite Hs, andb_true_r.
    unfold pretty_N_char. repeat case_match; done.
  - replace x with 0%N by lia. by rewrite pretty_N_go_0.
Qed.
Lemma itoa_ascii z : ascii_only (itoa z) = true.
Proof.
  assert (∀ n : N, ascii_only (pretty n) = true) as Hn.
  { intros n. unfold pretty, pretty_N. case_decide; [done|]. by apply pretty_N_go_ascii. }
  unfold itoa. destruct z; cbn -[pretty_N]; rewrite ?ascii_only_app; first [done|apply (Hn (N.pos _))|by rewrite (Hn (N.pos _))].
Qed.

Section deps.
Context {CF : SqlConfig} {CL : SqlConfigLaws CF} {E : Env}.

(** ** Artifacts *)

Definition artifact_request_text (r : CreateArtifactRequest) : bool :=
  ValidString (car_RunID r) && ValidString (car_Kind r) && ValidString (car_Name r)
  && ValidString (car_ContentType r).

Lemma sql_CreateArtifact_ok req s a :
  Holds s a → GInv a → artifact_request_text req = true → op_ok a s (sql_CreateArtifact req s).
Proof.
  intros HR HI Htx. unfold sql_CreateArtifact. case_match; [by apply op_ok_same|].
  apply method_op_ok; [done..|]. rules. apply h_bind, h_loadTask_any. intros t Ht.
  pose proof (drawn_valid "task" _ _ eq_refl (gt_drawn _ _ _ (gi_tasks _ HI _ _ Ht))) as Hid.
  assert (ValidString ("artifact" +:+ "-" +:+ uuid (g_uuids a)) = true) by by apply next_valid.
  unfold artifact_request_text in Htx. do 2 rules.
  apply h_bind, h_writeArtifact; [unfold plain_artifact; text|]. intros m Hm. rules. save_events. apply h_ret.
  split; [|eexists; cbn; done].
  apply (moved_ext a a); [by apply moved_refl| |done|done|cbn; lia].
  eapply (GInv_artifact a); [done| |exact Hm| |reflexivity..|cbn; lia]; [by eauto|].
  eapply drawn_mono; [|apply drawn_next]. cbn. lia.
Qed.

(** ** Commands *)

Lemma GInv_command a a' c :
  GInv a → g_command_ok a' (cmd_ID c) c →
  g_tasks a' = g_tasks a → g_leases a' = g_leases a → g_artifacts a' = g_artifacts a →
  g_commands a' = <[cmd_ID c := c]> (g_commands a) → (g_uuids a ≤ g_uuids a')%nat → GInv a'.
Proof.
  intros HI Hc E1 E2 E3 E4 Hu.
  assert (GInv (a <| g_uuids := g_uuids a' |>)) as [H1 H2 H3 H4 H5 H6 H7] by (by apply (GInv_ext a)).
  split; rewrite ?E1, ?E2, ?E3; try done.
  - intros id t H. by destruct (H1 _ _ H).
  - intros id l H. destruct (H2 _ _ H). split; [done..|]. by rewrite E1.
  - rewrite E4. intros id y [[<- <-]|[_ H]]%lookup_insert_Some; [done|]. by destruct (H6 _ _ H).
  - intros id x H. destruct (H7 _ _ H). split; [done..| |done]. by rewrite E1.
Qed.
Lemma command_ok_later a a' id c : (g_uuids a ≤ g_uuids a')%nat → g_command_ok a id c → g_command_ok a' id c.
Proof. intros Hu [? Hd ? ?]. split; [done| |done..]. by eapply drawn_mono. Qed.

(** The content differs from [a] in commands only, and possibly in further UUIDs and
    the events [es]. *)
Record commands_moved (a a' : Abs) (es : list Event) : Prop := {
  cm_inv : GInv a';
  cm_tasks : g_tasks a' = g_tasks a;
  cm_leases : g_leases a' = g_leases a;
  cm_log : g_log a' = g_log a ++ es;
  cm_uuids : (g_uuids a ≤ g_uuids a')%nat;
}.
Lemma commands_settled a a' es es' : GInv a → commands_moved a a' es → es ≡ₚ es' → settled a a' es'.
Proof.
  intros HI [] Hes. split; [|by exists es]. apply (moved_ext a a); [by apply moved_refl|done..].
Qed.

Definition command_request_text (r : CreateCommandRequest) : bool :=
  ValidString (ccr_RunID r) && ValidString (ccr_Reason r).

(** The strings of a run. *)
Lemma task_run_text t : text_task t = true →
  ValidString (task_runID t) = true ∧ ∀ r, task_Run t = Some r → ValidString (run_ID r) = true ∧ ValidString (run_WorkerID r) = true.
Proof.
  unfold text_task, option_text, task_runID, text_run. rewrite !andb_true_iff. intros Htx.
  destruct (task_Run t) as [r|]; [|done]. rewrite !andb_true_iff in Htx. naive_solver.
Qed.
Lemma validateCommandTarget_text t req r w :
  text_task t = true → ValidString (ccr_RunID req) = true → sql_validateCommandTarget t req = Ok (r, w) →
  ValidString r = true ∧ ValidString w = true ∧ json_ok (ccr_Kind req) = true.
Proof.
  intros [Hid Hrun]%task_run_text Hreq. unfold sql_validateCommandTarget.
  repeat case_match; intros; simplify_eq; naive_solver.
Qed.

Lemma sql_CreateCommand_ok req s a :
  Holds s a → GInv a → command_request_text req = true → op_ok a s (sql_CreateCommand req s).
Proof.
  intros HR HI Htx. unfold sql_CreateCommand. case_match; [by apply op_ok_same|].
  apply method_op_ok; [done..|]. rules. apply h_bind, h_loadTask_any. intros t Ht.
  destruct (gi_tasks _ HI _ _ Ht) as [_ Hdr _ Htt]. pose proof (drawn_valid "task" _ _ eq_refl Hdr) as Hid.
  assert (ValidString ("command" +:+ "-" +:+ uuid (g_uuids a)) = true) by by apply next_valid.
  apply h_bind, h_lift. destruct (sql_validateCommandTarget t req) as [[r w]|] eqn:Hv; [|done].
  unfold command_request_text in Htx. rewrite !andb_true_iff in Htx. destruct_and?.
  destruct (validateCommandTarget_text t req r w) as (Hr & Hw & Hk); [done..|].
  do 2 rules. apply h_bind, h_writeCommand; [unfold plain_command; text|]. intros m Hm. rules. save_events. apply h_ret.
  eapply commands_settled; [done| |reflexivity]. split; try done; [|cbn; lia].
  match type of Hm with text_command ?c = _ =>
    apply (GInv_command a _ c); [done| |reflexivity..|cbn; lia] end.
  split; [done| |done|exact Hm]. cbn.
  eapply drawn_mono; [|apply drawn_next]. lia.
Qed.

(** Only the target of a command changes. *)
Lemma refreshed_target_ok a t id c :
  text_task t = true → g_command_ok a id c →
  g_command_ok a id (refreshed_target t c) ∧ cmd_Status (refreshed_target t c) = cmd_Status c.
Proof.
  intros [Hid Hrun]%task_run_text [? ? Hcl Htx]. unfold text_command in Htx. rewrite !andb_true_iff in Htx. destruct_and?.
  assert (∀ c', cmd_ID c' = cmd_ID c → claim_fields_ok c' → text_command c' = true → g_command_ok a id c') as Hok.
  { intros c' Hc' ? ?. split; [congruence|done..]. }
  unfold refreshed_target. destruct (task_Run t) as [run|] eqn:Ht; [destruct (Hrun run eq_refl)|];
    repeat case_match; (split; [|done]); apply Hok; try done;
    unfold text_command; cbn -[ValidString json_ok]; rewrite !andb_true_iff; repeat split; auto;
    match goal with H : cmd_Kind _ = _ |- json_ok _ = _ => rewrite H; assumption end.
Qed.

Lemma h_refreshTarget id c Q a :
  GInv a → g_command_ok a id c →
  (∀ c' a', commands_moved a a' [] → g_command_ok a' id c' → cmd_Status c' = cmd_Status c → Q c' a') →
  hoare (refreshCommandTargetTx c) Q anyhow a.
Proof.
  intros HI Hc HQ. pose proof (gc_id _ _ _ Hc) as Hid. unfold refreshCommandTargetTx. rules.
  assert (∀ c', g_command_ok a id c' → cmd_Status c' = cmd_Status c →
    hoare (saveCommandTx c';; mret c') Q anyhow a) as Hsave.
  { intros c' Hc' Hst. rules; [apply Hc'|]. apply h_ret, HQ; [|by destruct Hc'; split|done].
    pose proof (gc_id _ _ _ Hc') as Hid'. split; try done; [|cbn; by rewrite app_nil_r].
    eapply (GInv_command a _ c'); [done| |reflexivity..|done]. rewrite Hid'. by destruct Hc'; split. }
  destruct (g_tasks a !! cmd_TaskID c) as [t|] eqn:Ht.
  - destruct (refreshed_target_ok a t id c (gt_text _ _ _ (gi_tasks _ HI _ _ Ht)) Hc) as [Hok Hst].
    cbv zeta. branch Hb; [by apply Hsave|]. apply h_ret, HQ; [|done|done].
    split; try done. by rewrite app_nil_r.
  - apply Hsave; [|done]. destruct Hc as [? ? Hcl Htx]. split; [done|done|exact Hcl|]. text.
Qed.

Lemma h_claim_command id worker now c Q a :
  GInv a → g_command_ok a id c → worker ≠ "" → ValidString worker = true →
  (∀ c' a', commands_moved a a' [command_claimed_event c'] → Q c' a') →
  hoare (claim_command_tx worker now c) Q anyhow a.
Proof.
  intros HI [Hid Hdr Hcl Htx] Hne Hw HQ. unfold claim_command_tx.
  assert (ValidString (cmd_ID c +:+ "-claim-" +:+ itoa (UnixNano now)) = true).
  { apply ascii_only_valid. rewrite !ascii_only_app, itoa_ascii, Hid. destruct Hdr as (k & _ & ->).
    by rewrite !ascii_only_app, uuid_ascii. }
  assert (g_command_ok a id (claim_command worker now c)) as Hok.
  { split; [done|done| |unfold claim_command; text]. split; [|done]. cbn. by destruct (cmd_ID c). }
  rules; [apply Hok|]. rules. save_events. apply h_ret, HQ. split; try done; [|cbn; lia].
  eapply (GInv_command a _ (claim_command worker now c)); [done| |reflexivity..|cbn; lia].
  eapply (command_ok_later a); [cbn; lia|]. by rewrite (gc_id _ _ _ Hok).
Qed.

Lemma commands_moved_trans a a1 a2 es1 es2 :
  commands_moved a a1 es1 → commands_moved a1 a2 es2 → commands_moved a a2 (es1 ++ es2).
Proof.
  intros [] [H1 H2 H3 H4 H5]. split; [done|congruence..| |lia]. rewrite H4, cm_log0. by rewrite app_assoc.
Qed.
Lemma commands_moved_refl a : GInv a → commands_moved a a [].
Proof. intros HI. split; try done. by rewrite app_nil_r. Qed.

Lemma sql_ClaimCommand_ok id req s a :
  Holds s a → GInv a → ValidString (ccmd_WorkerID req) = true → op_ok a s (sql_ClaimCommand id req s).
Proof.
  intros HR HI Hw. unfold sql_ClaimCommand. case_match eqn:Hne; [by apply op_ok_same|].
  apply String.eqb_neq in Hne. apply method_op_ok; [done..|]. rules. rules. apply h_bind, h_loadCommand_any.
  intros c Hc. branch Hp; [rules|]. apply h_bind. eapply h_refreshTarget; [done|by apply (gi_commands _ HI)|].
  intros c1 a1 H1 Hc1 _. branch Hother; [rules|]. eapply h_claim_command; [apply H1|done..|].
  intros c2 a2 H2. eapply commands_settled; [done|by eapply commands_moved_trans|reflexivity].
Qed.

(** Rows that decode to well-formed commands. *)
Definition command_rows (a : Abs) (rows : list (string * CommandRow)) : Prop :=
  Forall (λ x, ∃ c, scanCommand (crow_payload x.2) = Ok c ∧ g_command_ok a x.1 c ∧ crow_status x.2 = command_status_string (cmd_Status c)) rows.
Lemma ordered_command_rows c a : Rep c a → GInv a → command_rows a (ordered crow_created_at (tbl_commands (c_db c))).
Proof.
  intros HR HI. apply Forall_forall. intros [id r] Hr%(ordered_rows crow_created_at).
  destruct (lookup_stored _ _ _ id (rep_commands _ _ HR)) as [[Hn _]|(r' & x & Hr' & Hx & Hrx)]; [congruence|].
  simplify_eq. exists x. cbn. split_and!; [|by apply (gi_commands _ HI)|apply Hrx].
  unfold scanCommand. by rewrite (scan_encoded _ _ _ (cs_payload _ _ _ Hrx)).
Qed.
Lemma command_rows_later a a' rows : (g_uuids a ≤ g_uuids a')%nat → command_rows a rows → command_rows a' rows.
Proof.
  intros Hu Hrows. eapply Forall_impl; [exact Hrows|]. intros x (c & ? & ? & ?). exists c.
  split_and!; [done|by eapply command_ok_later|done].
Qed.

Lemma h_claim_commands rows worker now Q a :
  GInv a → command_rows a rows → worker ≠ "" → ValidString worker = true →
  (∀ c a', commands_moved a a' [command_claimed_event c] → Q c a') →
  hoare (claim_commands_tx rows worker now) Q anyhow a.
Proof.
  intros HI Hrows Hne Hw. revert a Q HI Hrows.
  induction rows as [|[id row] rows IH]; intros a Q HI Hrows HQ; [by apply h_throw|].
  apply Forall_cons in Hrows as [(c & Hscan & Hc & _) Hrows]. cbn [claim_commands_tx]. apply h_bind, h_lift.
  cbn in Hscan. rewrite Hscan. branch Hp; [by apply IH|].
  apply h_bind. eapply h_refreshTarget; [done|exact Hc|]. intros c1 a1 H1 Hc1 _. branch Hother.
  - apply IH; [apply H1|eapply command_rows_later; [|done]; apply H1|].
    intros c2 a2 H2. apply HQ. by eapply (commands_moved_trans _ _ _ []).
  - eapply h_claim_command; [apply H1|done..|]. intros c2 a2 H2. apply HQ. by eapply (commands_moved_trans _ _ _ []).
Qed.
Lemma sql_ClaimPendingCommand_ok req s a :
  Holds s a → GInv a → ValidString (ccmd_WorkerID req) = true → op_ok a s (sql_ClaimPendingCommand req s).
Proof.
  intros HR HI Hw. unfold sql_ClaimPendingCommand. case_match eqn:Hne; [by apply op_ok_same|].
  apply String.eqb_neq in Hne. apply method_op_ok; [done..|]. rules. rules.
  apply h_bind, h_query_wrap; [done|]. intros c Hc.
  apply h_claim_commands; [done|by apply ordered_command_rows|done..|].
  intros x a' Hx. eapply commands_settled; [done|done|reflexivity].
Qed.

Lemma sql_HandleCommand_ok id tok by_ now s a :
  Holds s a → GInv a → ValidString by_ = true → op_ok a s (sql_HandleCommand id tok by_ now s).
Proof.
  intros HR HI Hby. apply method_op_ok; [done..|]. rules. rules. apply h_bind, h_loadCommand_any.
  intros c Hc. destruct (gi_commands _ HI _ _ Hc) as [Hid Hdr _ Htx]. branch Hm; [rules|].
  rules; [text|]. rules. save_events. apply h_ret.
  eapply commands_settled; [done| |reflexivity]. split; try done; [|cbn; lia].
  eapply (GInv_command a); [done| |reflexivity..|cbn; lia]. split; cbn; [done| |done|text].
  eapply drawn_mono; [|rewrite Hid; exact Hdr]. lia.
Qed.

Lemma h_release_command id c reason recovered at_ Q a :
  GInv a → g_command_ok a id c →
  (∀ a', commands_moved a a' [command_released_event (release_command c) (cmd_ClaimedBy c) at_ reason recovered] →
     Q (release_command c) a') →
  hoare (release_command_tx c reason recovered at_) Q anyhow a.
Proof.
  intros HI [Hid Hdr Hcl Htx] HQ. unfold release_command_tx.
  assert (g_command_ok a id (release_command c)) as Hok.
  { split; [done|done|done|unfold release_command; text]. }
  rules; [apply Hok|]. rules. save_events. apply h_ret, HQ. split; try done; [|cbn; lia].
  eapply (GInv_command a _ (release_command c)); [done| |reflexivity..|cbn; lia].
  eapply (command_ok_later a); [cbn; lia|]. by rewrite (gc_id _ _ _ Hok).
Qed.
Lemma sql_ReleaseCommand_ok id tok s a :
  Holds s a → GInv a → op_ok a s (sql_ReleaseCommand id tok s).
Proof.
  intros HR HI. apply method_op_ok; [done..|]. rules. apply h_bind, h_loadCommand_any.
  intros c Hc. branch Hm; [rules|]. rules. apply h_bind.
  eapply h_release_command; [done|by apply (gi_commands _ HI)|]. intros a' Ha'. apply h_ret.
  by eapply commands_settled.
Qed.
Lemma sql_RecoverClaimedCommand_ok id before now s a :
  Holds s a → GInv a → op_ok a s (sql_RecoverClaimedCommand id before now s).
Proof.
  intros HR HI. apply method_op_ok; [done..|]. rules. cbv zeta. rules. apply h_bind, h_try, h_loadCommand.
  { intros e c _ HRc. exists a. split; [done|]. branch He; [|rules]. apply h_ret.
    by eapply commands_settled; [done|apply commands_moved_refl|]. }
  destruct (g_commands a !! id) as [c|] eqn:Hc.
  - branch Hst; [apply h_ret; by eapply commands_settled; [done|apply commands_moved_refl|]|]. apply h_bind.
    eapply h_release_command; [done|by apply (gi_commands _ HI)|]. intros a' Ha'. apply h_ret.
    by eapply commands_settled.
  - intros c0 HR0. exists a. split; [done|]. apply h_ret. by eapply commands_settled; [done|apply commands_moved_refl|].
Qed.

Lemma h_recover_commands cs before now Q a :
  GInv a → Forall (λ c, g_command_ok a (cmd_ID c) c) cs →
  (∀ rs a', commands_moved a a' (recovered_command_event <$> rs) → Q rs a') →
  hoare (recover_commands_tx cs before now) Q anyhow a.
Proof.
  revert a Q. induction cs as [|c cs IH]; intros a Q HI Hcs HQ; [apply h_ret, HQ; by apply commands_moved_refl|].
  apply Forall_cons in Hcs as [Hc Hcs]. cbn [recover_commands_tx]. branch Hold; [by apply IH|].
  apply h_bind. eapply h_release_command; [done|exact Hc|]. intros a1 H1. apply h_bind, IH; [apply H1| |].
  - eapply Forall_impl; [exact Hcs|]. intros x. apply command_ok_later, H1.
  - intros rs a2 H2. apply h_ret, HQ. exact (commands_moved_trans _ _ _ _ _ H1 H2).
Qed.
Lemma scan_command_rows a rows : command_rows a rows →
  ∃ cs, scan_commands rows = Ok cs ∧ Forall (λ c, g_command_ok a (cmd_ID c) c) cs.
Proof.
  unfold scan_commands. induction 1 as [|[id r] rows (c & Hscan & Hc & _) _ (cs & IH & Hcs)]; [by exists []|].
  exists (c :: cs). cbn in *. rewrite Hscan. cbn. rewrite IH. split; [done|]. constructor; [|done].
  by rewrite (gc_id _ _ _ Hc).
Qed.
Lemma sql_RecoverClaimedCommands_ok before now s a :
  Holds s a → GInv a → op_ok a s (sql_RecoverClaimedCommands before now s).
Proof.
  intros HR HI. apply method_op_ok; [done..|]. rules. cbv zeta. rules.
  apply h_bind, h_query_wrap; [done|]. intros c Hc. apply h_bind, h_lift.
  destruct (scan_command_rows a (List.filter (λ r, String.eqb (crow_status r.2) "claimed")
    (ordered crow_created_at (tbl_commands (c_db c))))) as (cs & -> & Hcs).
  { pose proof (ordered_command_rows c a Hc HI) as Hall. unfold command_rows in *. rewrite Forall_forall in *.
    intros x [Hx _]%list_elem_of_In%filter_In. by apply Hall, list_elem_of_In. }
  apply h_recover_commands; [done..|]. intros rs a' H. by eapply commands_settled.
Qed.

(** ** Dependencies

    Creating, updating and deleting a task rewrites the dependency lists of its peers. *)

(** Only dependencies, texts and times differ. *)
Record deps_differ (t t' : Task) : Prop := {
  dd_id : task_ID t' = task_ID t;
  dd_view : ∀ l, view_task t' l = view_task t l;
  dd_run : task_Run t' = task_Run t;
  dd_text : text_task t = true → text_task t' = true;
}.
#[export] Instance deps_differ_preorder : PreOrder deps_differ.
Proof.
  split; [by split|]. intros x y z [? H ? ?] [? H' ? ?]. split; [congruence| |congruence|auto].
  intros l. by rewrite H', H.
Qed.
Lemma deps_differ_fields t t' : deps_differ t t' →
  task_Status t' = task_Status t ∧ task_Attempt t' = task_Attempt t ∧ task_MaxAttempts t' = task_MaxAttempts t.
Proof. intros [_ H _ _]. specialize (H None). by injection H. Qed.

Lemma GInv_retask a a' :
  GInv a →
  (∀ j t', g_tasks a' !! j = Some t' →
     (∃ t, g_tasks a !! j = Some t ∧ deps_differ t t' ∧ g_leases a' !! j = g_leases a !! j) ∨
     (g_tasks a !! j = None ∧ g_task_ok a' j t' ∧ task_Status t' ≠ TaskRunning)) →
  (∀ j l, g_leases a' !! j = Some l → g_leases a !! j = Some l ∧ is_Some (g_tasks a' !! j)) →
  (∀ j x, g_artifacts a' !! j = Some x → g_artifacts a !! j = Some x ∧ is_Some (g_tasks a' !! art_TaskID x)) →
  g_deps_ok (g_tasks a') → g_commands a' = g_commands a → (g_uuids a ≤ g_uuids a')%nat → GInv a'.
Proof.
  intros HI Ht Hl Hx Hd Hc Hu. split; [| | | |done| |].
  - intros j t' Hj. destruct (Ht _ _ Hj) as [(t & Hjt & Hdd & _)|(_ & ? & _)]; [|done].
    destruct (gi_tasks _ HI _ _ Hjt) as [? ? Hat Htx]. destruct (deps_differ_fields _ _ Hdd) as (_ & E1 & E2).
    destruct Hdd. split; [congruence|by eapply drawn_mono| |auto]. unfold attempts_ok. by rewrite E1, E2.
  - intros j l Hj. destruct (Hl _ _ Hj) as [Hj0 [t' Ht']]. destruct (gi_leases _ HI _ _ Hj0) as [? ? ? (t & Hjt & Hst & r & Hr & Hrr)].
    split; [done|by eapply drawn_mono|done|]. exists t'. split; [done|].
    destruct (Ht _ _ Ht') as [(t0 & Ht0 & Hdd & _)|(Hn & _)]; [|congruence]. simplify_eq.
    destruct (deps_differ_fields _ _ Hdd) as (E1 & E2 & _). split; [congruence|]. exists r.
    rewrite (dd_run _ _ Hdd), E2. done.
  - intros j t' Hj Hst. destruct (Ht _ _ Hj) as [(t & Hjt & Hdd & ->)|(_ & _ & ?)]; [|done].
    destruct (deps_differ_fields _ _ Hdd) as (E1 & _). eapply (gi_running _ HI); [done|congruence].
  - intros i j li lj [Hi _]%Hl [Hj _]%Hl. by apply (gi_tokens _ HI).
  - rewrite Hc. intros j c Hj. eapply command_ok_later; [done|by apply (gi_commands _ HI)].
  - intros j x [Hj Hs]%Hx. destruct (gi_artifacts _ HI _ _ Hj). split; [done|by eapply drawn_mono|done..].
Qed.

(** *** Links *)

Lemma appendUnique_one l v x : x ∈ sql_appendUniqueStrings l [v] ↔ x ∈ l ∨ x = v.
Proof.
  unfold sql_appendUniqueStrings, sql_append_unique. cbn. case_bool_decide; [naive_solver|].
  rewrite elem_of_app, list_elem_of_singleton. done.
Qed.
Lemma appendUnique_elem l vs x : x ∈ sql_appendUniqueStrings l vs ↔ x ∈ l ∨ x ∈ vs.
Proof.
  revert l. induction vs as [|v vs IH]; intros l; [cbn; rewrite elem_of_nil; tauto|].
  change (sql_appendUniqueStrings l (v :: vs)) with (sql_appendUniqueStrings (sql_appendUniqueStrings l [v]) vs).
  rewrite IH, appendUnique_one, elem_of_cons. tauto.
Qed.
Lemma appendUnique_text l vs :
  forallb ValidString l = true → forallb ValidString vs = true → forallb ValidString (sql_appendUniqueStrings l vs) = true.
Proof.
  rewrite !forallb_forall. setoid_rewrite <- list_elem_of_In. setoid_rewrite appendUnique_elem. naive_solver.
Qed.
(** The count shows whether the value was new. *)
Lemma appendUnique_same l v : length (sql_appendUniqueStrings l [v]) = length l → v ∈ l.
Proof.
  unfold sql_appendUniqueStrings, sql_append_unique. cbn. case_bool_decide; [done|]. rewrite length_app. cbn. lia.
Qed.

(** [tasks'] is [tasks] with [tid] among the [BlockedBy] of the tasks in [ids1] and among
    the [Blocks] of those in [ids2]. *)
Record peer_link (tid : string) (ids1 ids2 : list string) (j : string) (t t' : Task) : Prop := {
  pl_differ : deps_differ t t';
  pl_blockedBy : ∀ x, x ∈ task_BlockedBy t' ↔ x ∈ task_BlockedBy t ∨ (x = tid ∧ j ∈ ids1);
  pl_blocks : ∀ x, x ∈ task_Blocks t' ↔ x ∈ task_Blocks t ∨ (x = tid ∧ j ∈ ids2);
}.
Definition peers_linked tid ids1 ids2 : gmap string Task → gmap string Task → Prop :=
  map_Forall2 (peer_link tid ids1 ids2).
Lemma peers_linked_trans tid i1 i2 j1 j2 m1 m2 m3 :
  peers_linked tid i1 i2 m1 m2 → peers_linked tid j1 j2 m2 m3 → peers_linked tid (i1 ++ j1) (i2 ++ j2) m1 m3.
Proof.
  intros H1 H2 j. specialize (H1 j). specialize (H2 j).
  destruct (m1 !! j), (m2 !! j), (m3 !! j); inversion H1; inversion H2; subst; constructor.
  match goal with A : peer_link _ i1 i2 _ _ _, B : peer_link _ j1 j2 _ _ _ |- _ => destruct A as [A1 A2 A3], B as [B1 B2 B3] end.
  split; [by etransitivity|..]; intros x; rewrite elem_of_app; [rewrite B2, A2|rewrite B3, A3]; tauto.
Qed.
Lemma peers_linked_refl tid m : peers_linked tid [] [] m m.
Proof.
  intros j. destruct (m !! j); constructor. split; [done|..]; intros x; rewrite elem_of_nil; tauto.
Qed.
Lemma peers_linked_one tid i1 i2 j t t' m :
  m !! j = Some t → peer_link tid i1 i2 j t t' → (∀ k, k ∈ i1 ∨ k ∈ i2 → k = j) → peers_linked tid i1 i2 m (<[j := t']> m).
Proof.
  intros Hj Hl Hk k. destruct (decide (k = j)) as [->|Hne]; [rewrite lookup_insert_eq, Hj; by constructor|].
  rewrite lookup_insert_ne by done. destruct (m !! k); constructor.
  assert (k ∉ i1 ∧ k ∉ i2) as [H1 H2] by naive_solver. split; [done|..]; tauto.
Qed.
(** Every stored task has its key and is UTF-8. *)
Definition tasks_text (m : gmap string Task) : Prop := ∀ j t, m !! j = Some t → task_ID t = j ∧ text_task t = true.
Lemma tasks_text_linked tid i1 i2 m m' : peers_linked tid i1 i2 m m' → tasks_text m → tasks_text m'.
Proof.
  intros Hm Ht j t' Hj. specialize (Hm j). rewrite Hj in Hm. inversion Hm as [t ? Hl Hjt|]; subst.
  destruct (Ht j t) as [? ?]; [done|]. destruct (pl_differ _ _ _ _ _ _ Hl). split; [congruence|auto].
Qed.

(** The first list is extended when [d], the second otherwise. *)
Definition to_first (d : bool) (ids : list string) : list string := if d then ids else [].
Definition to_second (d : bool) (ids : list string) : list string := if d then [] else ids.
Lemma h_link_peers d add count tid now ids updated Q a :
  (∀ j t, text_task t = true → peer_link tid (to_first d [j]) (to_second d [j]) j t ((add t) <| task_UpdatedAt := now |>)) →
  (∀ j t, count (add t) = count t → peer_link tid (to_first d [j]) (to_second d [j]) j t t) →
  tasks_text (g_tasks a) →
  (∀ updated m, peers_linked tid (to_first d ids) (to_second d ids) (g_tasks a) m → Q updated (a <| g_tasks := m |>)) →
  hoare (link_peers add count now ids updated) Q anyhow a.
Proof.
  intros Hadd Hsame. revert a updated Q. induction ids as [|j ids IH]; intros a updated Q Ht HQ.
  - apply h_ret. specialize (HQ updated (g_tasks a)). destruct a. apply HQ. destruct d; apply peers_linked_refl.
  - cbn [link_peers]. apply h_bind, h_loadTask_any. intros t Hj. destruct (Ht _ _ Hj) as [<- Htx]. cbv zeta.
    assert (∀ t', peer_link tid (to_first d [task_ID t]) (to_second d [task_ID t]) (task_ID t) t t' →
      peers_linked tid (to_first d [task_ID t]) (to_second d [task_ID t]) (g_tasks a) (<[task_ID t := t']> (g_tasks a))) as Hone.
    { intros t' H. eapply peers_linked_one; [done..|]. intros k. destruct d; set_solver. }
    assert (∀ m m', peers_linked tid (to_first d [task_ID t]) (to_second d [task_ID t]) (g_tasks a) m →
      peers_linked tid (to_first d ids) (to_second d ids) m m' →
      peers_linked tid (to_first d (task_ID t :: ids)) (to_second d (task_ID t :: ids)) (g_tasks a) m') as Htrans.
    { intros m m' H1 H2. pose proof (peers_linked_trans _ _ _ _ _ _ _ _ H1 H2). by destruct d. }
    branch Hc.
    + apply bool_decide_eq_true in Hc. apply IH; [done|]. intros u m Hm. apply HQ. eapply Htrans; [|exact Hm].
      rewrite <- (insert_id (g_tasks a) (task_ID t) t) at 2 by done. by apply Hone, Hsame.
    + specialize (Hone _ (Hadd (task_ID t) t Htx)). pose proof (pl_differ _ _ _ _ _ _ (Hadd (task_ID t) t Htx)) as Hdd.
      rules; [by apply Hdd|]. rewrite (dd_id _ _ Hdd). apply IH; [by eapply tasks_text_linked|].
      intros u m Hm. specialize (HQ u m). destruct a. apply HQ. eapply Htrans; [exact Hone|exact Hm].
Qed.

#[local] Ltac member :=
  intros x; cbn -[sql_appendUniqueStrings] in *; rewrite ?appendUnique_one, ?list_elem_of_singleton, ?elem_of_nil; naive_solver.
Lemma h_linkTaskDependencies task now Q a :
  tasks_text (g_tasks a) → ValidString (task_ID task) = true →
  (∀ peers m, peers_linked (task_ID task) (task_Blocks task) (task_BlockedBy task) (g_tasks a) m →
     Q peers (a <| g_tasks := m |>)) →
  hoare (linkTaskDependenciesTx task now) Q anyhow a.
Proof.
  intros Ht Hid HQ. unfold linkTaskDependenciesTx.
  assert (∀ l, forallb ValidString l = true → forallb ValidString (sql_appendUniqueStrings l [task_ID task]) = true) as Happ.
  { intros l Hl. apply appendUnique_text; [done|]. cbn. by rewrite Hid. }
  apply h_bind, (h_link_peers true _ _ (task_ID task)); [| |done|].
  { intros j t Htx. split; [split; try done; intros; text|..]; member. }
  { intros j t Hc%appendUnique_same. split; [done|..]; member. }
  intros u1 m1 H1. apply h_bind, (h_link_peers false _ _ (task_ID task)).
  { intros j t Htx. split; [split; try done; intros; text|..]; member. }
  { intros j t Hc%appendUnique_same. split; [done|..]; member. }
  { by eapply tasks_text_linked. }
  intros u2 m2 H2. apply h_ret. specialize (HQ (map_to_list u2).*2 m2). destruct a. apply HQ.
  pose proof (peers_linked_trans _ _ _ _ _ _ _ _ H1 H2) as H. cbn in H. by rewrite app_nil_r in H.
Qed.

Lemma map_json_ok `{Json A} (m : gmap string A) : json_ok m = true ↔ ∀ k v, m !! k = Some v → ValidString k = true ∧ json_ok v = true.
Proof.
  unfold json_ok at 1, map_json. rewrite forallb_forall. split.
  - intros Hm k v Hk. apply andb_prop, (Hm (k, v)). by apply list_elem_of_In, elem_of_map_to_list.
  - intros Hm [k v] Hk%list_elem_of_In%elem_of_map_to_list. apply andb_true_iff. by apply Hm.
Qed.
Lemma merge_metadata_ok m m' : json_ok m = true → json_ok m' = true → json_ok (merge_metadata m m') = true.
Proof.
  rewrite !map_json_ok. intros H H' k v. unfold merge_metadata. rewrite lookup_merge. unfold diag_None.
  specialize (H k). specialize (H' k). destruct (m !! k), (m' !! k); cbn; try case_match; naive_solver.
Qed.

(** The linked peers and the task itself. *)
Lemma deps_linked tasks m task :
  g_deps_ok tasks → peers_linked (task_ID task) (task_Blocks task) (task_BlockedBy task) tasks m →
  (∀ j t, j ≠ task_ID task → tasks !! j = Some t → task_ID task ∈ task_BlockedBy t → j ∈ task_Blocks task) →
  (∀ j t, j ≠ task_ID task → tasks !! j = Some t → task_ID task ∈ task_Blocks t → j ∈ task_BlockedBy task) →
  (∀ x, x ∈ task_Blocks task ∨ x ∈ task_BlockedBy task → is_Some (tasks !! x)) →
  g_deps_ok (<[task_ID task := task]> m).
Proof.
  intros [Hs Hb Hbb] Hm H1 H2 H3. set (tid := task_ID task) in *.
  assert (∀ j t', <[tid := task]> m !! j = Some t' →
    (j = tid ∧ t' = task) ∨ (j ≠ tid ∧ ∃ t, tasks !! j = Some t ∧ peer_link tid (task_Blocks task) (task_BlockedBy task) j t t')) as Hget.
  { intros j t' [[<- <-]|[Hne Hj]]%lookup_insert_Some; [by left|right]. split; [done|].
    specialize (Hm j). rewrite Hj in Hm. inversion Hm; subst. eauto. }
  assert (∀ x, x = tid ∨ is_Some (tasks !! x) → is_Some (<[tid := task]> m !! x)) as Hdom.
  { intros x Hx. rewrite lookup_insert. case_decide; [by eauto|]. destruct Hx as [->|[t Hx]]; [done|].
    specialize (Hm x). rewrite Hx in Hm. inversion Hm; eauto. }
  split.
  - intros i j ti tj Hne [[-> ->]|(Hi & ti0 & Hti & [_ _ Hl2])]%Hget [[-> ->]|(Hj & tj0 & Htj & [_ Hl1 _])]%Hget; [done|..].
    + rewrite Hl1. naive_solver.
    + rewrite Hl2. naive_solver.
    + rewrite Hl1, Hl2. rewrite (Hs i j) by done. naive_solver.
  - intros i ti x [[-> ->]|(Hi & ti0 & Hti & [_ _ Hl2])]%Hget Hx; apply Hdom; [auto|].
    apply Hl2 in Hx as [Hx|[-> _]]; eauto.
  - intros i ti x [[-> ->]|(Hi & ti0 & Hti & [_ Hl1 _])]%Hget Hx; apply Hdom; [auto|].
    apply Hl1 in Hx as [Hx|[-> _]]; eauto.
Qed.

(** Every identifier names a stored task. *)
Definition all_stored (a : Abs) (ids : list string) : Prop := ∀ x, x ∈ ids → is_Some (g_tasks a !! x).
Lemma h_dependencies_exist ids Q a :
  (all_stored a ids → Q tt a) → hoare (dependencies_exist ids) Q anyhow a.
Proof.
  intros HQ. induction ids as [|id ids IH]; [apply h_ret, HQ; by intros x ?%elem_of_nil|].
  cbn [dependencies_exist]. apply h_bind, h_try, h_loadTask.
  { intros e c _ HR. exists a. split; [done|]. by apply h_throw. }
  destruct (g_tasks a !! id) eqn:Hid.
  - apply IH. intros H. apply HQ. intros x [->|Hx]%elem_of_cons; [by rewrite Hid|by apply H].
  - intros c HR. exists a. split; [done|]. by apply h_throw.
Qed.

(** A new or updated task, its peers and the records. *)
Lemma h_save_task_records own ev peers Q a :
  makes_record own ev →
  (∀ n, Q tt (a <| g_uuids := n + g_uuids a |> <| g_log ::= λ l, l ++ ev :: (updated_event <$> peers) |>)%nat) →
  hoare (save_task_records own peers) Q anyhow a.
Proof.
  intros Hown HQ. apply h_bind, Hown; [done|]. intros r Hr.
  apply h_bind, (h_records _ updated_event); [intros x Q' X b HX HQ'; by apply h_newEventRecord|done|].
  intros rs Hrs. apply (h_saveEvents (ev :: (updated_event <$> peers))); [by constructor|done|].
  specialize (HQ (length peers + 1)%nat). destruct a. cbn in *. by rewrite <- Nat.add_assoc in HQ.
Qed.

Definition create_text (r : CreateTaskRequest) : bool :=
  ValidString (ctr_Kind r) && ValidString (ctr_Subject r) && ValidString (ctr_Description r)
  && ValidString (ctr_Input r).
Definition update_text (r : UpdateTaskRequest) : bool :=
  option_text ValidString (utr_Subject r) && option_text ValidString (utr_Description r).

(** Stored identifiers are UTF-8. *)
Lemma all_stored_text a ids : GInv a → all_stored a ids → forallb ValidString ids = true.
Proof.
  intros HI Hids. apply forallb_forall. intros x Hx%list_elem_of_In. destruct (Hids x Hx) as [t Ht].
  exact (drawn_valid "task" _ _ eq_refl (gt_drawn _ _ _ (gi_tasks _ HI _ _ Ht))).
Qed.
Lemma GInv_tasks_text a : GInv a → tasks_text (g_tasks a).
Proof. intros HI j t Hj. by destruct (gi_tasks _ HI _ _ Hj). Qed.
(** A linked map has the same keys. *)
Lemma peers_linked_get tid i1 i2 m m' j t' :
  peers_linked tid i1 i2 m m' → m' !! j = Some t' → ∃ t, m !! j = Some t ∧ deps_differ t t'.
Proof.
  intros Hm Hj. specialize (Hm j). rewrite Hj in Hm. inversion Hm as [t ? Hl|]; subst. exists t.
  split; [done|apply (pl_differ _ _ _ _ _ _ Hl)].
Qed.
Lemma peers_linked_some tid i1 i2 m m' j : peers_linked tid i1 i2 m m' → is_Some (m !! j) → is_Some (m' !! j).
Proof. intros Hm [t Ht]. specialize (Hm j). rewrite Ht in Hm. inversion Hm; eauto. Qed.

Lemma sql_CreateTask_ok req s a :
  Holds s a → GInv a → create_text req = true → op_ok a s (sql_CreateTask req s).
Proof.
  intros HR HI Htx. apply method_op_ok; [done..|]. rules. unfold validateTaskDependenciesTx.
  apply h_bind, h_bind, h_dependencies_exist. intros Hb. apply h_dependencies_exist. intros Hbb. do 2 rules. cbv zeta.
  set (task := MkTask _ _ _ _ _ _ _ _ _ _ _ _ _ _ _ _ _ _).
  assert (ValidString (task_ID task) = true) as Hid by (by apply (next_valid "task")).
  assert (plain_task task = true) as Htask.
  { pose proof (all_stored_text _ _ HI Hb). pose proof (all_stored_text _ _ HI Hbb).
    unfold create_text in Htx. unfold task, plain_task in *. text. }
  assert (g_tasks a !! task_ID task = None) as Hnew.
  { destruct (g_tasks a !! task_ID task) eqn:Ht; [|done].
    by destruct (drawn_fresh _ _ (gt_drawn _ _ _ (gi_tasks _ HI _ _ Ht))). }
  apply h_bind, h_linkTaskDependencies; [exact (GInv_tasks_text a HI)|done|]. intros peers m Hm.
  change (peers_linked (task_ID task) (task_Blocks task) (task_BlockedBy task) (g_tasks a) m) in Hm.
  apply h_bind, h_writeTask; [done|]. intros task' (md & res & -> & _ & Hres) Htask'.
  apply reads_result in Hres as ->; [|done].
  apply h_bind, (h_save_task_records _ (created_event task));
    [intros Q X b HX HQ; by apply h_newEventRecord|]. intros n. apply h_ret.
  set (task' := task <| task_Metadata := md |> <| task_Result := _ |>) in *.
  assert (g_task_ok (a <| g_uuids := S (g_uuids a) |>) (task_ID task) task') as Hok.
  { split; [done|apply drawn_next|unfold attempts_ok, task', task; cbn; lia|done]. }
  split; [|eexists; split; [reflexivity|done]]. split; cbn; [|lia|done|].
  - apply (GInv_retask a); [done|..|done|cbn; lia]; cbn.
    + intros j t' [[<- <-]|[Hne Hj]]%lookup_insert_Some.
      * right. split; [done|]. split; [|done]. destruct Hok as [? Hd ? ?]. split; [done| |done|done].
        eapply drawn_mono; [|exact Hd]. cbn. lia.
      * left. destruct (peers_linked_get _ _ _ _ _ _ _ Hm Hj) as (t & ? & ?). eauto.
    + intros j l Hj. split; [done|]. rewrite lookup_insert_is_Some'. right.
      eapply peers_linked_some; [exact Hm|]. destruct (gl_covers _ _ _ (gi_leases _ HI _ _ Hj)) as (t & Ht & _). by exists t.
    + intros j x Hj. split; [done|]. rewrite lookup_insert_is_Some'. right.
      eapply peers_linked_some; [exact Hm|]. apply (gi_artifacts _ HI _ _ Hj).
    + apply (deps_linked (g_tasks a) m task'); [apply HI|exact Hm|..]; change (task_ID task') with (task_ID task).
      * intros j t _ Hj Hin. destruct (gd_blockedBy _ (gi_deps _ HI) _ _ _ Hj Hin). congruence.
      * intros j t _ Hj Hin. destruct (gd_blocks _ (gi_deps _ HI) _ _ _ Hj Hin). congruence.
      * intros x [Hx|Hx]; [by apply Hb|by apply Hbb].
  - intros j. unfold gview. cbn. destruct (decide (j = task_ID task)) as [->|Hne].
    + assert (g_leases a !! task_ID task = None) as Hl.
      { destruct (g_leases a !! task_ID task) eqn:Hl; [|done].
        destruct (gl_covers _ _ _ (gi_leases _ HI _ _ Hl)) as (t & Ht & _). congruence. }
      rewrite Hnew, Hl, lookup_insert_eq. apply ls_create. apply undrawn_next.
    + rewrite lookup_insert_ne by done. specialize (Hm j). destruct (g_tasks a !! j), (m !! j); inversion Hm; subst; [|constructor].
      match goal with H : peer_link _ _ _ _ _ _ |- _ => destruct H as [[_ Hv _ _] _ _] end. cbn. rewrite Hv. constructor.
Qed.

(** The changes an update makes before the links. *)
Definition updated_task (t : Task) (req : UpdateTaskRequest) (now : Time) : Task :=
  let t := match utr_Subject req with Some v => t <| task_Subject := v |> | None => t end in
  let t := match utr_Description req with Some v => t <| task_Description := v |> | None => t end in
  t <| task_Blocks ::= λ l, sql_appendUniqueStrings l (utr_AddBlocks req) |>
    <| task_BlockedBy ::= λ l, sql_appendUniqueStrings l (utr_AddBlockedBy req) |>
    <| task_Metadata ::= λ m, merge_metadata m (utr_Metadata req) |> <| task_UpdatedAt := now |>.
Lemma plain_text_result x : option_text text_result x = true → option_text plain_result x = true.
Proof.
  destruct x as [r|]; [|done]. unfold text_result, plain_result. cbn -[ValidString json_ok]. rewrite !andb_true_iff. tauto.
Qed.
Lemma updated_task_plain t req now :
  text_task t = true → update_text req = true → forallb ValidString (utr_AddBlocks req) = true →
  forallb ValidString (utr_AddBlockedBy req) = true → plain_task (updated_task t req now) = true.
Proof.
  unfold text_task, update_text, plain_task. rewrite !andb_true_iff. intros Ht [H1 H2] H4 H5. destruct_and! Ht.
  unfold updated_task. destruct (utr_Subject req), (utr_Description req); cbn -[ValidString json_ok option_text];
    repeat split; auto using appendUnique_text, plain_text_result.
Qed.
Lemma updated_task_differs t req now t' :
  text_task t = true → same_task (updated_task t req now) t' → text_task t' = true → deps_differ t t'.
Proof.
  intros Hold (m & r & -> & _ & Hr) Ht.
  assert (task_Result (updated_task t req now) = task_Result t) as Er
    by (unfold updated_task; by destruct (utr_Subject req), (utr_Description req)).
  rewrite Er in Hr. apply reads_result in Hr as ->; [|unfold text_task in Hold; rewrite !andb_true_iff in Hold; apply Hold].
  unfold updated_task in *. by destruct (utr_Subject req), (utr_Description req).
Qed.
Lemma updated_task_deps t req now x :
  (x ∈ task_Blocks (updated_task t req now) ↔ x ∈ task_Blocks t ∨ x ∈ utr_AddBlocks req) ∧
  (x ∈ task_BlockedBy (updated_task t req now) ↔ x ∈ task_BlockedBy t ∨ x ∈ utr_AddBlockedBy req).
Proof.
  unfold updated_task. destruct (utr_Subject req), (utr_Description req);
    cbn -[sql_appendUniqueStrings]; by rewrite !appendUnique_elem.
Qed.

Lemma sql_UpdateTask_ok req s a :
  Holds s a → GInv a → update_text req = true → op_ok a s (sql_UpdateTask req s).
Proof.
  intros HR HI Htx. unfold sql_UpdateTask. case_match; [by apply op_ok_same|].
  apply method_op_ok; [done..|]. rules. apply h_bind, h_loadTask_any. intros t Ht. unfold validateTaskDependenciesTx.
  apply h_bind, h_bind, h_dependencies_exist. intros Hb. apply h_dependencies_exist. intros Hbb. cbv zeta. rules.
  destruct (gi_tasks _ HI _ _ Ht) as [Hid Hdr _ Htt].
  pose proof (updated_task_plain t req wall Htt Htx (all_stored_text _ _ HI Hb) (all_stored_text _ _ HI Hbb)) as Hplain.
  pose proof (updated_task_deps t req wall) as Hdeps. pose proof (λ t', updated_task_differs t req wall t' Htt) as Hdd.
  match goal with |- hoare (linkTaskDependenciesTx ?x _ ≫= _) _ _ _ => change x with (updated_task t req wall) end.
  set (task := updated_task t req wall) in *. assert (task_ID task = utr_ID req) as Hid'.
  { rewrite <-Hid. unfold task, updated_task. by destruct (utr_Subject req), (utr_Description req). }
  clearbody task.
  apply h_bind, h_linkTaskDependencies; [exact (GInv_tasks_text a HI)|rewrite Hid'; by eapply (drawn_valid "task")|].
  intros peers m Hm. apply h_bind, h_writeTask; [done|]. intros task' Hs Htask'. specialize (Hdd _ Hs Htask').
  apply h_bind, (h_save_task_records _ (updated_event task));
    [intros Q X b HX HQ; by apply h_newEventRecord|]. intros n. apply h_ret.
  split; [|eexists; split; [reflexivity|done]]. destruct Hs as (md & res & -> & _).
  set (task' := task <| task_Metadata := md |> <| task_Result := res |>) in *.
  assert (∀ j t', <[task_ID task := task']> m !! j = Some t' → ∃ t0, g_tasks a !! j = Some t0 ∧ deps_differ t0 t') as Hget.
  { intros j t' [[<- <-]|[Hne Hj]]%lookup_insert_Some; [rewrite Hid'; eauto|by eapply peers_linked_get]. }
  assert (∀ j, is_Some (g_tasks a !! j) → is_Some (<[task_ID task := task']> m !! j)) as Hdom.
  { intros j Hj. rewrite lookup_insert_is_Some'. right. by eapply peers_linked_some. }
  split; cbn; [|lia|done|].
  - apply (GInv_retask a); [done|..|done|cbn; lia]; cbn.
    + intros j t' (t0 & ? & ?)%Hget. left. eauto.
    + intros j l Hj. split; [done|]. apply Hdom.
      destruct (gl_covers _ _ _ (gi_leases _ HI _ _ Hj)) as (t0 & Ht0 & _). by exists t0.
    + intros j x Hj. split; [done|]. apply Hdom, (gi_artifacts _ HI _ _ Hj).
    + destruct (gi_deps _ HI) as [Hs Hd1 Hd2]. apply (deps_linked (g_tasks a) m task'); [apply HI|exact Hm|..];
        change (task_ID task') with (task_ID task); rewrite ?Hid'.
      * intros j t0 Hne Hj Hin. apply Hdeps. left. by apply (Hs (utr_ID req) j _ t0).
      * intros j t0 Hne Hj Hin. apply Hdeps. left. by apply (Hs j (utr_ID req) t0 _).
      * intros x [[Hx|Hx]%Hdeps|[Hx|Hx]%Hdeps]; eauto.
  - intros j. unfold gview. cbn. destruct (<[task_ID task := task']> m !! j) as [t'|] eqn:Hj.
    + destruct (Hget _ _ Hj) as (t0 & -> & [_ Hv _ _]). cbn. rewrite Hv. constructor.
    + destruct (g_tasks a !! j) eqn:Hj0; [|constructor]. destruct (Hdom j); [by rewrite Hj0|congruence].
Qed.

(** *** Deletion *)

(** [id] is gone from both lists. *)
Record peer_unlink (id : string) (t t' : Task) : Prop := {
  pu_differ : deps_differ t t';
  pu_blocks : ∀ x, x ∈ task_Blocks t' ↔ x ∈ task_Blocks t ∧ x ≠ id;
  pu_blockedBy : ∀ x, x ∈ task_BlockedBy t' ↔ x ∈ task_BlockedBy t ∧ x ≠ id;
}.
Lemma removeString_text l id : forallb ValidString l = true → forallb ValidString (removeString l id) = true.
Proof.
  rewrite !forallb_forall. setoid_rewrite <- list_elem_of_In. setoid_rewrite elem_of_removeString. naive_solver.
Qed.
(** The count shows whether something was removed. *)
Lemma removeString_same l id : length (removeString l id) = length l → id ∉ l.
Proof.
  unfold removeString. intros Hlen Hin. pose proof (length_filter_lt (λ item, item ≠ id) l id Hin ltac:(tauto)). lia.
Qed.

Lemma h_unlink_peers id now ts Q a :
  NoDup (task_ID <$> ts) → (∀ t, t ∈ ts → g_tasks a !! task_ID t = Some t ∧ text_task t = true) →
  (∀ peers m, (∀ j, j ∉ task_ID <$> ts → m !! j = g_tasks a !! j) →
     (∀ t, t ∈ ts → ∃ t', m !! task_ID t = Some t' ∧ peer_unlink id t t') → Q peers (a <| g_tasks := m |>)) →
  hoare (unlink_peers id now ts) Q anyhow a.
Proof.
  revert a Q. induction ts as [|t ts IH]; intros a Q Hnd Hts HQ.
  { apply h_ret. specialize (HQ [] (g_tasks a)). destruct a. apply HQ; [done|]. by intros t ?%elem_of_nil. }
  cbn in Hnd. apply NoDup_cons in Hnd as [Hnin Hnd]. cbn [unlink_peers]. cbv zeta.
  destruct (Hts t) as [Ht Htx]; [by left|]. branch Hsame.
  - apply andb_prop in Hsame as [H1 H2]. apply bool_decide_eq_true, removeString_same in H1.
    apply bool_decide_eq_true, removeString_same in H2. apply IH; [done|intros t' ?; apply Hts; by right|].
    intros peers m Hm1 Hm2. apply HQ.
    + intros j Hj. apply Hm1. cbn in Hj. rewrite elem_of_cons in Hj. tauto.
    + intros t' [->|Ht']%elem_of_cons; [|by apply Hm2]. exists t. split; [by rewrite Hm1|]. split; [done|naive_solver..].
  - match goal with |- hoare (saveTaskTx ?x ≫= _) _ _ _ => set (t' := x) end.
    assert (peer_unlink id t t') as Hu.
    { split; [|intros x; apply elem_of_removeString..]. split; try done. intros _. unfold t', text_task in *. cbn -[ValidString json_ok removeString].
      rewrite !andb_true_iff in *. destruct_and?. repeat split; auto using removeString_text. }
    rules; [by apply Hu|]. apply h_bind, IH; [done| |].
    + intros t2 Ht2. destruct (Hts t2) as [? ?]; [by right|]. split; [|done]. cbn. rewrite lookup_insert_ne; [done|].
      intros Heq. apply Hnin. rewrite Heq. by apply list_elem_of_fmap_2.
    + intros peers m Hm1 Hm2. apply h_ret. specialize (HQ (t' :: peers) m). destruct a. apply HQ.
      * intros j Hj. rewrite Hm1; [|set_solver]. cbn. rewrite lookup_insert_ne; [done|set_solver].
      * intros t2 [->|Ht2]%elem_of_cons; [|by apply Hm2]. exists t'. split; [|done].
        rewrite Hm1 by done. cbn. apply lookup_insert_eq.
Qed.
Lemma map_Forall2_filter {R V} (P : string → R → V → Prop) (f : string * R → Prop) (g : string * V → Prop)
    `{!∀ x, Decision (f x), !∀ x, Decision (g x)} (m1 : gmap string R) (m2 : gmap string V) :
  (∀ k r v, P k r v → f (k, r) ↔ g (k, v)) → map_Forall2 P m1 m2 → map_Forall2 P (filter f m1) (filter g m2).
Proof.
  intros Hfg Hm k. specialize (Hm k). rewrite !map_lookup_filter.
  destruct (m1 !! k) as [r|], (m2 !! k) as [v|]; inversion Hm; subst; cbn; [|constructor].
  specialize (Hfg k r v ltac:(done)). repeat case_guard; cbn; try tauto; by constructor.
Qed.

Lemma deps_unlinked tasks m id :
  g_deps_ok tasks → (∀ j, m !! j = None ↔ j = id ∨ tasks !! j = None) →
  (∀ j t', m !! j = Some t' → ∃ t, tasks !! j = Some t ∧ peer_unlink id t t') → g_deps_ok m.
Proof.
  intros [Hs Hb Hbb] Hdom Hget.
  assert (∀ x, x ≠ id → is_Some (tasks !! x) → is_Some (m !! x)) as Hsome.
  { intros x Hne Hx. destruct (m !! x) eqn:Hm; [done|]. apply Hdom in Hm as [|Hm]; [done|]. by rewrite Hm in Hx. }
  assert (m !! id = None) as Hid by (apply Hdom; auto).
  split.
  - intros i j ti tj Hne Hi Hj. assert (i ≠ id ∧ j ≠ id) as [? ?] by (split; congruence).
    destruct (Hget _ _ Hi) as (ti0 & ? & [_ Hu _]). destruct (Hget _ _ Hj) as (tj0 & ? & [_ _ Hu']).
    rewrite Hu, Hu', (Hs i j) by done. tauto.
  - intros i ti x (ti0 & ? & [_ Hu _])%Hget [Hx ?]%Hu. eauto.
  - intros i ti x (ti0 & ? & [_ _ Hu])%Hget [Hx ?]%Hu. eauto.
Qed.

(** The list of stored tasks. *)
Lemma listed_tasks (m : gmap string Task) (ids : list string) : tasks_text m → keys_of ids m →
  task_ID <$> omap (λ id, m !! id) ids = ids.
Proof.
  intros HT [_ Hin]. assert (∀ x, x ∈ ids → is_Some (m !! x)) as Hall by apply Hin. clear Hin.
  induction ids as [|id ids IH]; [done|]. cbn. destruct (Hall id) as [t Ht]; [by left|]. rewrite Ht. cbn.
  rewrite (proj1 (HT _ _ Ht)), IH; [done|]. intros x Hx. apply Hall. by right.
Qed.

Lemma sql_DeleteTask_ok id s a : Holds s a → GInv a → op_ok a s (sql_DeleteTask id s).
Proof.
  intros HR HI. apply method_op_ok; [done..|]. rules. rules. apply h_bind, h_loadTask_any. intros t Ht.
  apply h_bind. apply (h_exec_wrap _ _ _ _ a (a <| g_tasks ::= delete id |>)); [done|done| |].
  { intros c []. split; try done. cbn. by apply map_Forall2_delete. }
  rules. apply h_bind.
  match goal with |- hoare _ _ _ ?a1 => apply (h_exec_wrap _ _ _ _ a1 (a1 <| g_artifacts ::= filter (λ kx, art_TaskID kx.2 ≠ id) |>)) end;
    [done|done| |].
  { intros c []. split; try done. cbn. apply map_Forall2_filter; [|done]. intros k r v [_ _ _ Htask]. cbn. by rewrite Htask. }
  apply h_bind, h_listTasks; [done|]. cbn. intros ids Hids.
  assert (tasks_text (delete id (g_tasks a))) as HT.
  { intros j tj [_ Hj]%lookup_delete_Some. by apply (GInv_tasks_text a HI). }
  pose proof (listed_tasks _ _ HT Hids) as Hlist. destruct Hids as [Hnd Hids].
  apply h_bind, h_unlink_peers; [by rewrite Hlist| |].
  { cbn. intros tj (j & Hj & Htj)%list_elem_of_omap. by destruct (HT _ _ Htj) as [-> ?]. }
  rewrite Hlist. cbn. intros peers m Hm1 Hm2.
  apply h_bind, (h_save_task_records _ (deleted_event id wall)); [intros Q X b HX HQ; by apply h_newEventRecord|].
  intros n. apply h_ret. split; [|eexists; split; [reflexivity|done]].
  assert (∀ j, m !! j = None ↔ j = id ∨ g_tasks a !! j = None) as Hnone.
  { intros j. destruct (decide (j ∈ ids)) as [Hj|Hj].
    - pose proof (proj1 (Hids j) Hj) as [tj Htj]. destruct (Hm2 tj) as (t' & Ht' & _).
      { apply list_elem_of_omap. eauto. } rewrite (proj1 (HT _ _ Htj)) in Ht'. rewrite Ht'.
      apply lookup_delete_Some in Htj as [? ->]. naive_solver.
    - rewrite Hm1 by done. rewrite lookup_delete_None. naive_solver. }
  assert (∀ j t', m !! j = Some t' → j ≠ id ∧ ∃ t0, g_tasks a !! j = Some t0 ∧ peer_unlink id t0 t') as Hget.
  { intros j t' Hj. assert (j ∈ ids) as Hjin.
    { apply dec_stable. intros Hn. rewrite Hm1 in Hj by done. apply Hn, Hids. eauto. }
    pose proof (proj1 (Hids j) Hjin) as [tj Htj]. destruct (Hm2 tj) as (t2 & Ht2 & Hu).
    { apply list_elem_of_omap. eauto. } rewrite (proj1 (HT _ _ Htj)) in Ht2.
    apply lookup_delete_Some in Htj as [? ?]. simplify_eq. eauto. }
  assert (∀ j, j ≠ id → is_Some (g_tasks a !! j) → is_Some (m !! j)) as Hdom.
  { intros j Hne [tj Hj]. destruct (m !! j) eqn:Hmj; [done|]. apply Hnone in Hmj as [|]; congruence. }
  split; cbn; [|lia|done|].
  - apply (GInv_retask a); [done|..|done|cbn; lia]; cbn.
    + intros j t' (Hne & t0 & ? & [? _ _])%Hget. left. exists t0. by rewrite lookup_delete_ne.
    + intros j l [Hne Hj]%lookup_delete_Some. split; [done|]. apply Hdom; [done|].
      destruct (gl_covers _ _ _ (gi_leases _ HI _ _ Hj)) as (t0 & Ht0 & _). by exists t0.
    + intros j x [Hj Hx]%map_lookup_filter_Some. split; [done|]. apply Hdom; [done|]. apply (gi_artifacts _ HI _ _ Hj).
    + apply (deps_unlinked (g_tasks a) _ id); [apply HI|done|]. intros j t' Hj. by apply Hget.
  - intros j. unfold gview. cbn. destruct (m !! j) as [t'|] eqn:Hj.
    + destruct (Hget _ _ Hj) as (Hne & t0 & -> & [[_ Hv _ _] _ _]). rewrite lookup_delete_ne by done. cbn. rewrite Hv. constructor.
    + apply Hnone in Hj as [->|Hj]; [rewrite Ht; apply ls_delete|]. rewrite Hj. constructor.
Qed.

End deps.
