(* ===== verification/SqliteFrame.v ===== *)
(** * The event table is append-only

    [grows m]: whatever [m] does and however it ends, the rows of the event table stay as
    they are; new ones follow.  The property is closed under the combinators of [TX], so
    every transaction of the store has it. *)

From S2P Require Import Prelude Errors Usage OrchTypes MemStore MemCommands StoreOps OrchHistory Json TimeText OrchJson Runner SqliteTx SqliteStore.

(** ** Calls *)

Definition error_of {B} (r : res B) : option error := match r with Ok _ => None | Err e => Some e end.
Definition outcome {B} (out : SqlStore * res B) : SqlStore * option error := (out.1, error_of out.2).

(** The store after a call, and the error it returned. *)
Definition run_sql {CF : SqlConfig} (E : Env) (op : Op) (s : SqlStore) : SqlStore * option error :=
  match op with
  | OpCreateTask req => outcome (sql_CreateTask req s)
  | OpUpdateTask req => outcome (sql_UpdateTask req s)
  | OpDeleteTask id => outcome (sql_DeleteTask id s)
  | OpClaimReadyTask req => outcome (sql_ClaimReadyTask req s)
  | OpClaimTask id req => outcome (sql_ClaimTask id req s)
  | OpCompleteTask id tok o now => outcome (sql_CompleteTask id tok o now s)
  | OpFailTask id tok e now => outcome (sql_FailTask id tok e now s)
  | OpCancelTask id tok reason now => outcome (sql_CancelTask id tok reason now s)
  | OpRetryTask id reason now => outcome (sql_RetryTask id reason now s)
  | OpRenewLease id tok ttl now => outcome (sql_RenewLease id tok ttl now s)
  | OpReleaseLease id tok => outcome (sql_ReleaseLease id tok s)
  | OpRecoverExpiredLeases now => outcome (sql_RecoverExpiredLeases now s)
  | OpRecoverExpiredLease id now => outcome (sql_RecoverExpiredLease id now s)
  | OpCreateArtifact req => outcome (sql_CreateArtifact req s)
  | OpCreateCommand req => outcome (sql_CreateCommand req s)
  | OpClaimPendingCommand req => outcome (sql_ClaimPendingCommand req s)
  | OpClaimCommand id req => outcome (sql_ClaimCommand id req s)
  | OpHandleCommand id tok by_ now => outcome (sql_HandleCommand id tok by_ now s)
  | OpReleaseCommand id tok => outcome (sql_ReleaseCommand id tok s)
  | OpRecoverClaimedCommands before now => outcome (sql_RecoverClaimedCommands before now s)
  | OpRecoverClaimedCommand id before now => outcome (sql_RecoverClaimedCommand id before now s)
  end.

(** ** Frame *)

(** The numbers of the rows were issued. *)
Definition numbered (c : Conn) : Prop :=
  Forall (λ row, er_Sequence (erow_columns row) ≤ tbl_sequence (c_db c)) (tbl_events (c_db c)).
Definition grows {A} (m : TX A) : Prop :=
  ∀ c, numbered c → numbered (m c).1 ∧ tbl_events (c_db c) `prefix_of` tbl_events (c_db (m c).1).

Create HintDb grows discriminated.
#[export] Hint Constants Opaque : grows.

Lemma grows_pure {A} (m : TX A) : (∀ c, c_db (m c).1 = c_db c) → grows m.
Proof. intros Hm c Hc. unfold numbered. by rewrite Hm. Qed.
Lemma grows_ret {A} (x : A) : grows (mret x).
Proof. by apply grows_pure. Qed.
Lemma grows_throw {A} e : grows (throw (A:=A) e).
Proof. by apply grows_pure. Qed.
Lemma grows_lift {A} (r : res A) : grows (lift_res r).
Proof. by apply grows_pure. Qed.
Lemma grows_bind {A B} (m : TX A) (k : A → TX B) : grows m → (∀ x, grows (k x)) → grows (m ≫= k).
Proof.
  intros Hm Hk c Hc. destruct (Hm c Hc) as [Hc1 Hp1]. unfold mbind, TX_bind. destruct (m c) as [c1 [x|e]]; [|done].
  cbn in *. destruct (Hk x c1 Hc1) as [Hc2 Hp2]. split; [done|by etransitivity].
Qed.
Lemma grows_wrap {A} p (m : TX A) : grows m → grows (wrap p m).
Proof. intros Hm c Hc. specialize (Hm c Hc). unfold wrap. by destruct (m c). Qed.
Lemma grows_try {A} (m : TX A) : grows m → grows (try m).
Proof. intros Hm c Hc. specialize (Hm c Hc). unfold try. by destruct (m c). Qed.
Lemma grows_mapM {A B} (f : A → TX B) l : (∀ x, grows (f x)) → grows (mapM f l).
Proof.
  intros Hf. induction l as [|x l IH]; [apply grows_ret|]. cbn. apply grows_bind; [done|]. intros y.
  apply grows_bind; [done|]. intros ys. apply grows_ret.
Qed.

Section frame.
Context {CF : SqlConfig} {E : Env}.

Lemma grows_now : grows time_Now.
Proof. by apply grows_pure. Qed.
Lemma grows_newID p : grows (newID p).
Proof. by apply grows_pure. Qed.
Lemma grows_statement : grows statement.
Proof. by apply grows_pure. Qed.
Lemma grows_query {A} (f : DB → A) : grows (query f).
Proof. apply grows_bind; [apply grows_statement|]. intros _. by apply grows_pure. Qed.
Lemma grows_exec f :
  (∀ db, tbl_events (f db) = tbl_events db ∧ tbl_sequence (f db) = tbl_sequence db) → grows (exec f).
Proof.
  intros Hf. apply grows_bind; [apply grows_statement|]. intros _ c Hc. unfold numbered in *. cbn.
  destruct (Hf (c_db c)) as [-> ->]. done.
Qed.
Lemma grows_withTx {A} (fn : TX A) : grows fn → grows (withTx fn).
Proof.
  intros Hfn c Hc. unfold withTx, wrap, statement. destruct (env_fault (c_stmts c)); cbn; [done|].
  pose proof (Hfn (MkConn (c_db c) (c_clock c) (S (c_stmts c)) (c_uuids c)) Hc) as H. cbn in H |- *. destruct (fn _) as [c2 [x|e]]; cbn in *; [|split; [exact Hc|reflexivity]].
  destruct (env_fault (c_stmts c2)); [split; [exact Hc|reflexivity]|exact H].
Qed.
#[local] Hint Resolve grows_ret grows_throw grows_lift grows_wrap grows_try grows_mapM grows_now grows_newID
  grows_statement grows_query grows_withTx : grows.

Lemma grows_normalizeNow t : grows (normalizeNowTx t).
Proof. unfold normalizeNowTx. case_match; eauto 2 with grows. Qed.
Lemma grows_newEventRecord t ev a b c d e : grows (newEventRecord t ev a b c d e).
Proof.
  unfold newEventRecord. apply grows_bind; [eauto 2 with grows|]. intros x. apply grows_bind; [eauto 2 with grows|].
  intros y. apply grows_bind; [apply grows_normalizeNow|]. eauto 2 with grows.
Qed.
#[local] Hint Resolve grows_normalizeNow : grows.

(** The code makes the record of an event. *)
Ltac record_of m :=
  lazymatch m with
  | taskCreatedRecord _ => idtac | taskUpdatedRecord _ => idtac | taskDeletedRecord _ _ => idtac
  | taskClaimedRecord _ _ => idtac | leaseRenewedRecord _ _ => idtac | leaseReleasedRecord _ _ _ _ _ _ _ => idtac
  | taskRequeuedRecord _ _ _ _ => idtac | taskCompletedRecord _ => idtac | taskFailedRecord _ => idtac
  | taskCanceledRecord _ => idtac | artifactCreatedRecord _ => idtac | commandCreatedRecord _ => idtac
  | commandClaimedRecord _ => idtac | commandReleasedRecord _ _ _ _ _ => idtac | commandHandledRecord _ => idtac
  end.
(** Splits the code along its binds and its cases. *)
Ltac keep :=
  repeat (cbv zeta;
    lazymatch goal with
    | |- ∀ _, _ => intros ?
    | |- grows (mbind _ _) => apply grows_bind
    | |- grows (wrap _ _) => apply grows_wrap
    | |- grows (try _) => apply grows_try
    | |- grows (withTx _) => apply grows_withTx
    | |- grows (mapM _ _) => apply grows_mapM
    | |- grows (save_task_records _ _) => unfold save_task_records
    | |- grows (exec _) => apply grows_exec; intros; split; reflexivity
    | |- grows ?m => first [assumption | solve [eauto 2 with grows] | record_of m; apply grows_newEventRecord | case_match]
    end).

Lemma grows_formatTime t : grows (formatTime t).
Proof. unfold formatTime. keep. Qed.
#[local] Hint Resolve grows_formatTime : grows.
Lemma grows_tryLoadTask id : grows (tryLoadTaskTx id).
Proof. unfold tryLoadTaskTx. keep. Qed.
Lemma grows_tryLoadLease id : grows (tryLoadLeaseTx id).
Proof. unfold tryLoadLeaseTx. keep. Qed.
#[local] Hint Resolve grows_tryLoadTask grows_tryLoadLease : grows.
Lemma grows_loadTask id : grows (loadTaskTx id).
Proof. unfold loadTaskTx. keep. Qed.
Lemma grows_loadLease id : grows (loadLeaseTx id).
Proof. unfold loadLeaseTx. keep. Qed.
Lemma grows_loadCommand id : grows (loadCommandTx id).
Proof. unfold loadCommandTx. keep. Qed.
Lemma grows_listTasks : grows listTasksTx.
Proof. unfold listTasksTx. keep. Qed.
Lemma grows_listTaskIDs : grows listTaskIDsTx.
Proof. unfold listTaskIDsTx. keep. Qed.
Lemma grows_saveTask t : grows (saveTaskTx t).
Proof. unfold saveTaskTx. keep. Qed.
Lemma grows_saveLease l : grows (saveLeaseTx l).
Proof. unfold saveLeaseTx. keep. Qed.
Lemma grows_saveCommand c : grows (saveCommandTx c).
Proof. unfold saveCommandTx. keep. Qed.
Lemma grows_saveArtifact x : grows (saveArtifactTx x).
Proof. unfold saveArtifactTx. keep. Qed.
Lemma grows_deleteLease w id : grows (deleteLeaseTx w id).
Proof. unfold deleteLeaseTx. keep. Qed.
#[local] Hint Resolve grows_loadTask grows_loadLease grows_loadCommand grows_listTasks grows_listTaskIDs grows_saveTask grows_saveLease
  grows_saveCommand grows_saveArtifact grows_deleteLease : grows.

(** The insert takes a number above all others; the update touches its row only. *)
Lemma renumber_old n rec rows :
  Forall (λ row, er_Sequence (erow_columns row) ≤ n) rows →
  (λ row, if er_Sequence (erow_columns row) =? n + 1 then MkEventRow (erow_columns row) rec else row) <$> rows = rows.
Proof.
  induction 1 as [|row rows Hr _ IH]; [done|]. cbn in *. rewrite IH.
  destruct (Z.eqb_spec (er_Sequence (erow_columns row)) (n + 1)); [lia|done].
Qed.
Lemma grows_saveEvent r : grows (saveEventTx r).
Proof.
  unfold saveEventTx. apply grows_bind; [keep|]. intros t. apply grows_bind; [keep|]. intros _. cbv zeta.
  set (ev := with_created_at t r). intros c Hc.
  unfold wrap, exec, statement, write_db, read_db, lift_res, mbind, TX_bind, numbered in *. cbn -[format_time].
  assert (Forall (λ row, er_Sequence (erow_columns row) ≤ tbl_sequence (c_db c) + 1) (tbl_events (c_db c))) as Hold.
  { eapply Forall_impl; [exact Hc|]. cbn. lia. }
  destruct (env_fault (c_stmts c)); cbn -[format_time]; [done|].
  assert (∀ row, er_Sequence (erow_columns row) = tbl_sequence (c_db c) + 1 →
    Forall (λ row, er_Sequence (erow_columns row) ≤ tbl_sequence (c_db c) + 1) (tbl_events (c_db c) ++ [row]) ∧
    tbl_events (c_db c) `prefix_of` tbl_events (c_db c) ++ [row]) as Hnew.
  { intros row Hrow. split; [|by eexists]. apply Forall_app. split; [done|]. constructor; [lia|done]. }
  destruct (format_time t); cbn; [|by apply Hnew].
  destruct (env_fault (S (c_stmts c))); cbn; [by apply Hnew|].
  rewrite fmap_app, (renumber_old (tbl_sequence (c_db c))) by done. cbn. rewrite Z.eqb_refl. by apply Hnew.
Qed.
#[local] Hint Resolve grows_saveEvent : grows.
Lemma grows_saveEvents rs : grows (saveEventsTx rs).
Proof. unfold saveEventsTx. induction rs; cbn; keep. Qed.
#[local] Hint Resolve grows_saveEvents : grows.

(** *** The helpers of the operations *)

Lemma grows_requeue t now b : grows (requeueTask t now b).
Proof. unfold requeueTask. keep. Qed.
Lemma grows_dependencies ids : grows (dependencies_exist ids).
Proof. induction ids; cbn; keep. Qed.
Lemma grows_link add count now ids m : grows (link_peers add count now ids m).
Proof. revert m. induction ids; intros m; cbn; keep. Qed.
Lemma grows_blocked ids : grows (blocked_by ids).
Proof. induction ids; cbn; keep. Qed.
Lemma grows_unlink id now ts : grows (unlink_peers id now ts).
Proof. induction ts; cbn; keep. Qed.
#[local] Hint Resolve grows_requeue grows_dependencies grows_link grows_blocked grows_unlink : grows.
Lemma grows_links t now : grows (linkTaskDependenciesTx t now).
Proof. unfold linkTaskDependenciesTx. keep. Qed.
Lemma grows_validateLease id tok now : grows (validateLeaseTx id tok now).
Proof. unfold validateLeaseTx. keep. Qed.
Lemma grows_outcome_artifact t r at_ x : grows (outcome_artifact t r at_ x).
Proof. unfold outcome_artifact. keep. Qed.
Lemma grows_cancel_guard id tok now t : grows (cancel_guard_tx id tok now t).
Proof. unfold cancel_guard_tx. keep. Qed.
Lemma grows_claim_start t req now : grows (claim_start_tx t req now).
Proof. unfold claim_start_tx. keep. Qed.
Lemma grows_claim_exhausted t now : grows (claim_exhausted_tx t now).
Proof. unfold claim_exhausted_tx. keep. Qed.
Lemma grows_recover_lease id now : grows (recover_lease_tx id now).
Proof. unfold recover_lease_tx. keep. Qed.
Lemma grows_refresh c : grows (refreshCommandTargetTx c).
Proof. unfold refreshCommandTargetTx. keep. Qed.
Lemma grows_claim_command w now c : grows (claim_command_tx w now c).
Proof. unfold claim_command_tx. keep. Qed.
Lemma grows_release_command c r b t : grows (release_command_tx c r b t).
Proof. unfold release_command_tx. keep. Qed.
#[local] Hint Resolve grows_links grows_validateLease grows_outcome_artifact grows_cancel_guard
  grows_claim_start grows_claim_exhausted grows_recover_lease grows_refresh grows_claim_command grows_release_command : grows.
Lemma grows_claimTask id req now : grows (claimTaskTx id req now).
Proof. unfold claimTaskTx, isBlockedTx. keep. Qed.
#[local] Hint Resolve grows_claimTask : grows.
Lemma grows_claim_scan ids req now f r : grows (claim_ready_scan ids req now f r).
Proof. revert f r. induction ids; intros f r; cbn; keep. Qed.
Lemma grows_recover_leases ids now : grows (recover_leases_tx ids now).
Proof. induction ids; cbn; keep. Qed.
Lemma grows_claim_commands rows w now : grows (claim_commands_tx rows w now).
Proof. induction rows; cbn [claim_commands_tx]; keep. Qed.
Lemma grows_recover_commands cs b now : grows (recover_commands_tx cs b now).
Proof. induction cs; cbn; keep. Qed.
#[local] Hint Resolve grows_claim_scan grows_recover_leases grows_claim_commands grows_recover_commands : grows.

(** *** The operations *)

Definition appends {B} (s : SqlStore) (out : SqlStore * res B) : Prop :=
  Forall (λ row, er_Sequence (erow_columns row) ≤ tbl_sequence (sq_db s)) (tbl_events (sq_db s)) →
  tbl_events (sq_db s) `prefix_of` tbl_events (sq_db out.1).
Lemma appends_same {B} s (r : res B) : appends s (s, r).
Proof. intros _. done. Qed.
Lemma appends_method {A B} (m : TX A) (finish : A → list Event * res B) s : grows m → appends s (method m finish s).
Proof.
  intros Hm Hs. destruct (Hm (connect s) Hs) as [_ Hp]. unfold method. destruct (m (connect s)) as [c [x|e]]; [|done].
  destruct (finish x) as [es r]. cbn in *. unfold sql_publish. by case_match.
Qed.
Lemma call_appends op s :
  Forall (λ row, er_Sequence (erow_columns row) ≤ tbl_sequence (sq_db s)) (tbl_events (sq_db s)) →
  tbl_events (sq_db s) `prefix_of` tbl_events (sq_db (run_sql E op s).1).
Proof.
  assert (∀ B (out : SqlStore * res B), appends s out →
    Forall (λ row, er_Sequence (erow_columns row) ≤ tbl_sequence (sq_db s)) (tbl_events (sq_db s)) →
    tbl_events (sq_db s) `prefix_of` tbl_events (sq_db (outcome out).1)) as Hout by (intros B [s' r] H; exact H).
  destruct op; apply Hout;
    unfold sql_CreateTask, sql_UpdateTask, sql_DeleteTask, sql_ClaimReadyTask, sql_ClaimTask, sql_CompleteTask,
      sql_FailTask, sql_CancelTask, sql_RetryTask, sql_RenewLease, sql_ReleaseLease, sql_RecoverExpiredLeases,
      sql_RecoverExpiredLease, sql_CreateArtifact, sql_CreateCommand, sql_ClaimPendingCommand, sql_ClaimCommand,
      sql_HandleCommand, sql_ReleaseCommand, sql_RecoverClaimedCommands, sql_RecoverClaimedCommand;
    repeat (case_match; [apply appends_same|]); apply appends_method;
    unfold validateTaskDependenciesTx, createOutcomeArtifactsTx; keep.
Qed.
End frame.
