(* ===== verification/SqliteSafety.v ===== *)
(** * What the SQLite store guarantees

    [run_sql] (SqliteFrame) is one call, in surroundings [E] that may refuse any statement, and
    [sql_reachable] what any sequence of calls leads to, restarts included.  The theorems
    are those of the in-memory store (StoreSafety): the content stays well formed, every
    task moves along the lifecycle machine, a fencing token that was replaced never works
    again.  On top of them come the guarantees of the transactions: a call that fails
    changes nothing, and the events a call publishes are those it records. *)

From S2P Require Import Prelude Errors Usage OrchTypes MemStore MemCommands StoreInv StoreDeps StoreLife StoreOps StoreSafety OrchHistory Json Serialize Snapshot TimeText OrchJson Runner SqliteTx SqliteStore SqliteLogic SqliteInv SqliteOps SqliteDeps SqliteFrame.

Section calls.
Context {CF : SqlConfig}.

(** The strings a call stores are UTF-8.  Nothing is asked of its values of type [any]:
    those that encoding/json refuses fail the call, the others are stored in their JSON
    form. *)
Definition op_text (op : Op) : bool :=
  match op with
  | OpCreateTask req => create_text req
  | OpUpdateTask req => update_text req
  | OpClaimReadyTask req | OpClaimTask _ req => ValidString (claim_WorkerID req)
  | OpCompleteTask _ _ o _ => option_text outcome_text o
  | OpFailTask _ _ e _ => option_text (λ e, ValidString (Error e)) e
  | OpCancelTask _ _ reason _ => ValidString reason
  | OpCreateArtifact req => artifact_request_text req
  | OpCreateCommand req => command_request_text req
  | OpClaimPendingCommand req | OpClaimCommand _ req => ValidString (ccmd_WorkerID req)
  | OpHandleCommand _ _ by_ _ => ValidString by_
  | _ => true
  end.

Context {CL : SqlConfigLaws CF}.

(** Any sequence of calls, with restarts on the same file. *)
Inductive sql_reachable : SqlStore → Prop :=
| sr_new bus : sql_reachable (sql_NewStore bus)
| sr_call E op s : sql_reachable s → ForeignFaults E → op_text op = true → sql_reachable (run_sql E op s).1
| sr_reopen bus s : sql_reachable s → sql_reachable (MkSqlStore (sq_db s) (sq_uuids s) bus []).

Lemma run_sql_ok E op s a :
  ForeignFaults E → op_text op = true → Holds s a → GInv a →
  ∃ a' es, settled a a' es ∧ Holds (run_sql E op s).1 a' ∧ sq_bus (run_sql E op s).1 = sq_bus s ∧
    sq_published (run_sql E op s).1 = sq_published s ++ (if sq_bus s then es else []).
Proof.
  intros HE Ht HR HI. destruct op; cbn -[option_text] in Ht |- *.
  - by apply sql_CreateTask_ok.
  - by apply sql_UpdateTask_ok.
  - by apply sql_DeleteTask_ok.
  - by apply sql_ClaimReadyTask_ok.
  - by apply sql_ClaimTask_ok.
  - by apply sql_CompleteTask_ok.
  - by apply sql_FailTask_ok.
  - by apply sql_CancelTask_ok.
  - by apply sql_RetryTask_ok.
  - by apply sql_RenewLease_ok.
  - by apply sql_ReleaseLease_ok.
  - by apply sql_RecoverExpiredLeases_ok.
  - by apply sql_RecoverExpiredLease_ok.
  - by apply sql_CreateArtifact_ok.
  - by apply sql_CreateCommand_ok.
  - by apply sql_ClaimPendingCommand_ok.
  - by apply sql_ClaimCommand_ok.
  - by apply sql_HandleCommand_ok.
  - by apply sql_ReleaseCommand_ok.
  - by apply sql_RecoverClaimedCommands_ok.
  - by apply sql_RecoverClaimedCommand_ok.
Qed.

Lemma Rep_empty : Rep (MkConn empty_db 0 0 0) (MkAbs ∅ ∅ ∅ ∅ [] 0).
Proof. split; cbn; try done; by apply map_Forall2_empty. Qed.

Lemma reachable_holds s : sql_reachable s → ∃ a, Holds s a ∧ GInv a.
Proof.
  induction 1 as [bus|E op s _ (a & HR & HI) HE Ht|bus s _ (a & HR & HI)].
  - exists (MkAbs ∅ ∅ ∅ ∅ [] 0). split; [apply Rep_empty|apply GInv_empty].
  - destruct (run_sql_ok E op s a HE Ht HR HI) as (a' & es & [HM _] & HR' & _). exists a'. split; [done|apply HM].
  - exists a. split; [by eapply Rep_same|done].
Qed.

(** ** Failed calls *)

(** Code that leaves the tables as they were when it fails. *)
Definition rolls_back {A} (m : TX A) : Prop := ∀ c e, (m c).2 = Err e → c_db (m c).1 = c_db c.
Lemma rolls_back_withTx `{E : Env} {A} (fn : TX A) : rolls_back (withTx fn).
Proof. intros c e. apply withTx_rollback. Qed.
Lemma rolls_back_clock `{E : Env} {A} (k : Time → TX A) : (∀ t, rolls_back (k t)) → rolls_back (time_Now ≫= k).
Proof. intros H c e He. unfold mbind, TX_bind, time_Now in *. cbn in *. by rewrite (H _ _ _ He). Qed.
Lemma rolls_back_now `{E : Env} {A} t (k : Time → TX A) :
  (∀ t, rolls_back (k t)) → rolls_back (normalizeNowTx t ≫= k).
Proof.
  intros H. unfold normalizeNowTx. case_match; [by apply rolls_back_clock|]. intros c e He. by apply (H t c e).
Qed.

(** A failure changes nothing, but for the errors in [P]. *)
Definition atomic {B} (P : error → Prop) (s : SqlStore) (out : SqlStore * res B) : Prop :=
  ∀ e, out.2 = Err e → P e ∨ (sq_db out.1 = sq_db s ∧ sq_published out.1 = sq_published s).
Lemma atomic_same {B} P s (r : res B) : atomic P s (s, r).
Proof. intros e _. by right. Qed.
Lemma atomic_method {A B} P (m : TX A) (finish : A → list Event * res B) s :
  rolls_back m → (∀ x e, (finish x).2 = Err e → P e) → atomic P s (method m finish s).
Proof.
  intros Hm Hf e He. unfold method in *. specialize (Hm (connect s)).
  destruct (m (connect s)) as [c [x|e']] eqn:Hmc; cbn in *.
  - specialize (Hf x). destruct (finish x) as [es r]. cbn in *. left. auto.
  - right. split; [|done]. by rewrite (Hm e').
Qed.
(** A claim that finds only exhausted tasks fails them and returns [ErrNoReadyTask]. *)
Definition may_exhaust (op : Op) (e : error) : Prop :=
  match op with OpClaimReadyTask _ | OpClaimTask _ _ => e = ErrNoReadyTask | _ => False end.
Lemma run_sql_atomic E op s e :
  (run_sql E op s).2 = Some e →
  may_exhaust op e ∨ (sq_db (run_sql E op s).1 = sq_db s ∧ sq_published (run_sql E op s).1 = sq_published s).
Proof.
  assert (∀ B P (out : SqlStore * res B), atomic P s out → (outcome out).2 = Some e →
    P e ∨ (sq_db (outcome out).1 = sq_db s ∧ sq_published (outcome out).1 = sq_published s)) as Hout.
  { intros B P [s' r] Ha He. cbn in He. destruct r; [done|]. cbn in He. simplify_eq. exact (Ha e eq_refl). }
  destruct op; apply Hout;
    unfold sql_CreateTask, sql_UpdateTask, sql_DeleteTask, sql_ClaimReadyTask, sql_ClaimTask, sql_CompleteTask,
      sql_FailTask, sql_CancelTask, sql_RetryTask, sql_RenewLease, sql_ReleaseLease, sql_RecoverExpiredLeases,
      sql_RecoverExpiredLease, sql_CreateArtifact, sql_CreateCommand, sql_ClaimPendingCommand, sql_ClaimCommand,
      sql_HandleCommand, sql_ReleaseCommand, sql_RecoverClaimedCommands, sql_RecoverClaimedCommand;
    repeat (case_match; [apply atomic_same|]); apply atomic_method;
    repeat first [apply rolls_back_withTx | apply rolls_back_now; intros ? | apply rolls_back_clock; intros ?].
  all: by (intros; repeat case_match; cbn in *; congruence).
Qed.

(** ** What a reader of the tables sees *)

Definition decoded {R V} `{Json V} (payload : R → json) (rows : gmap string R) (id : string) : option V :=
  row ← rows !! id; match unmarshal (payload row) with Ok v => Some v | Err _ => None end.
Definition sql_task (s : SqlStore) : string → option Task := decoded trow_payload (tbl_tasks (sq_db s)).
Definition sql_lease (s : SqlStore) : string → option Lease := decoded lrow_payload (tbl_leases (sq_db s)).
Definition sql_view (s : SqlStore) (id : string) : option TaskView :=
  (λ t, view_task t (sql_lease s id)) <$> sql_task s id.
(** The event table holds [log]. *)
Definition history (s : SqlStore) (log : list Event) : Prop := Forall2 event_stored log (tbl_events (sq_db s)).

Lemma decoded_stored {R V} `{Json V} (P : string → R → V → Prop) (payload : R → json) rows (vals : gmap string V) id :
  map_Forall2 P rows vals → (∀ k r v, P k r v → encodes (payload r) v) → decoded payload rows id = vals !! id.
Proof.
  intros HP Henc. unfold decoded. destruct (lookup_stored _ _ _ id HP) as [[-> ->]|(r & v & -> & -> & Hrv)]; [done|].
  cbn. by rewrite (proj2 (Henc _ _ _ Hrv)).
Qed.
Lemma Holds_task s a id : Holds s a → sql_task s id = g_tasks a !! id.
Proof. intros HR. eapply decoded_stored; [exact (rep_tasks _ _ HR)|]. by intros ??? []. Qed.
Lemma Holds_lease s a id : Holds s a → sql_lease s id = g_leases a !! id.
Proof. intros HR. eapply decoded_stored; [exact (rep_leases _ _ HR)|]. by intros ??? []. Qed.
Lemma Holds_view s a id : Holds s a → sql_view s id = gview a id.
Proof. intros HR. unfold sql_view, gview. by rewrite (Holds_task s a), (Holds_lease s a). Qed.
Lemma Holds_uuids s a : Holds s a → sq_uuids s = g_uuids a.
Proof. intros HR. exact (rep_uuids _ _ HR). Qed.

Lemma Holds_numbered s a : Holds s a →
  Forall (λ row, er_Sequence (erow_columns row) ≤ tbl_sequence (sq_db s)) (tbl_events (sq_db s)).
Proof.
  intros [_ _ _ _ _ Hnum Hseq _]. cbn in Hnum, Hseq. rewrite Hseq.
  apply (Forall_fmap row_sequence (λ z, z ≤ Z.of_nat (length (g_log a)))). rewrite Hnum.
  apply Forall_fmap, Forall_forall. intros i Hi%list_elem_of_In%in_seq. cbn. lia.
Qed.

(** ** Fencing *)

(** [tok] was issued and no lease carries it any more. *)
Definition sql_stale (s : SqlStore) (tok : string) : Prop :=
  drawn "lease-token" (sq_uuids s) tok ∧ ∀ id l, sql_lease s id = Some l → lease_Token l ≠ tok.
Definition sql_step (s s' : SqlStore) : Prop :=
  (∃ E op, ForeignFaults E ∧ op_text op = true ∧ s' = (run_sql E op s).1) ∨
  (∃ bus, s' = MkSqlStore (sq_db s) (sq_uuids s) bus []).

Lemma sql_step_reachable s s' : sql_reachable s → sql_step s s' → sql_reachable s'.
Proof. intros Hs [(E & op & ? & ? & ->)|(bus & ->)]; by constructor. Qed.
Lemma undrawn_drawn p n id : undrawn p n id → ¬ drawn p n id.
Proof.
  intros (k & Hk & ->) (j & Hj & H). apply (inj (String.append p)), (inj (String.append "-")), (inj uuid) in H. lia.
Qed.
Lemma gview_token a id l : GInv a → g_leases a !! id = Some l →
  ∃ v, gview a id = Some v ∧ v_token v = Some (lease_Token l).
Proof.
  intros HI Hl. destruct (gl_covers _ _ _ (gi_leases _ HI _ _ Hl)) as (t & Ht & _).
  unfold gview. rewrite Ht, Hl. cbn. eauto.
Qed.
Lemma gview_lease a id v tok : gview a id = Some v → v_token v = Some tok → ∃ l, g_leases a !! id = Some l ∧ lease_Token l = tok.
Proof.
  unfold gview. destruct (g_tasks a !! id); [|done]. intros [= <-]. cbn. destruct (g_leases a !! id); naive_solver.
Qed.
Lemma sql_stale_step s s' tok : sql_reachable s → sql_step s s' → sql_stale s tok → sql_stale s' tok.
Proof.
  intros Hs [(E & op & HE & Ht & ->)|(bus & ->)] [Hd Hno]; [|done].
  destruct (reachable_holds s Hs) as (a & HR & HI).
  destruct (run_sql_ok E op s a HE Ht HR HI) as (a' & es & [HM _] & HR' & _). destruct HM as [HI' Hu _ Hlife].
  rewrite (Holds_uuids _ _ HR) in Hd. split; [rewrite (Holds_uuids _ _ HR'); by eapply drawn_mono|].
  intros id l. rewrite (Holds_lease _ _ id HR'). intros Hl <-.
  destruct (gview_token _ _ _ HI' Hl) as (v & Hv & Htok). specialize (Hlife id). rewrite Hv in Hlife.
  destruct (life_move_token _ _ _ _ _ _ Hlife Htok) as [(v0 & Hv0 & Htok0)|Hnew].
  - destruct (gview_lease _ _ _ _ Hv0 Htok0) as (l0 & Hl0 & Heq). apply (Hno id l0); [|done].
    by rewrite (Holds_lease _ _ id HR).
  - by apply undrawn_drawn in Hnew.
Qed.

(** The calls that present a fencing token. *)
Definition presents (op : Op) (tok : string) : Prop :=
  match op with
  | OpCompleteTask _ t _ _ | OpFailTask _ t _ _ | OpCancelTask _ t _ _ | OpRenewLease _ t _ _ | OpReleaseLease _ t => t = tok
  | _ => False
  end.

Lemma method_refused {A B} (m : TX A) (finish : A → list Event * res B) s a X :
  Holds s a → hoare m (λ _ _, False) X a → (∃ e, (method m finish s).2 = Err e).
Proof.
  intros HR Hm. destruct (method_rule m finish s a _ _ HR Hm) as [(e & c & _ & ->)|(? & ? & ? & _ & [] & _)]. by exists e.
Qed.

Lemma h_fenced_validate `{E : Env} id tok now Q a :
  (∀ l, g_leases a !! id = Some l → lease_Token l ≠ tok) → hoare (validateLeaseTx id tok now) Q anyhow a.
Proof. intros Hno. apply h_validateLease. intros t l _ Hl Htok. by destruct (Hno l Hl). Qed.

(** A stale token is refused, whatever it is presented for. *)
Lemma stale_refused E op s tok :
  sql_reachable s → sql_stale s tok → presents op tok → ∃ e, (run_sql E op s).2 = Some e.
Proof.
  intros Hs [Hd Hno] Hop. destruct (reachable_holds s Hs) as (a & HR & HI).
  assert (∀ id l, g_leases a !! id = Some l → lease_Token l ≠ tok) as Hno'.
  { intros id l Hl. apply (Hno id). by rewrite (Holds_lease _ _ id HR). }
  assert (∀ B (out : SqlStore * res B), (∃ e, out.2 = Err e) → ∃ e, (outcome out).2 = Some e) as Hout.
  { intros B [s' r] [e He]. cbn in *. exists e. by rewrite He. }
  assert (∀ l id, g_leases a !! id = Some l → negb (String.eqb (lease_Token l) tok) = true) as Hneq.
  { intros l id Hl. apply negb_true_iff, String.eqb_neq. eauto. }
  destruct op; try done; cbn in Hop; subst; apply Hout.
  - eapply method_refused; [done|]. rules. rules. apply h_bind, h_fenced_validate. eauto.
  - eapply method_refused; [done|]. rules. rules. apply h_bind, h_fenced_validate. eauto.
  - eapply method_refused; [done|]. rules. rules. apply h_bind, h_loadTask_any. intros t Ht. apply h_bind.
    unfold cancel_guard_tx. destruct (task_Status t); try by apply h_throw.
    + assert (String.eqb tok "" = false) as -> by (by destruct Hd as (k & _ & ->)). by apply h_throw.
    + apply h_bind, h_loadLease_any. intros l Hl. branch Hexp; [by apply h_throw|].
      rewrite (Hneq l _ Hl), orb_true_r. by apply h_throw.
  - unfold sql_RenewLease. case_match; [by eexists|].
    eapply method_refused; [done|]. rules. rules. apply h_bind, h_loadLease_any. intros l Hl.
    rewrite (Hneq l _ Hl). by apply h_throw.
  - eapply method_refused; [done|]. rules. rules. apply h_bind, h_loadLease_any. intros l Hl.
    rewrite (Hneq l _ Hl). by apply h_throw.
Qed.
Lemma stale_steps_sql s s' tok : sql_reachable s → rtc sql_step s s' → sql_stale s tok → sql_reachable s' ∧ sql_stale s' tok.
Proof.
  intros Hs Hrtc. induction Hrtc as [|x y z Hxy _ IH]; [done|]. intros Hst.
  apply IH; [by eapply sql_step_reachable|by eapply sql_stale_step].
Qed.

(** ** The theorems *)

(** C5: whatever calls with UTF-8 strings were made, with whatever values of type [any],
    statements refused and restarts in between, every row of the database holds what
    [json.Marshal] wrote and decodes to a record, with columns that agree with it, whose
    values of type [any] are in the form JSON gives them and survive any number of further
    round trips, the event table is numbered without gaps, and the content is well formed: identifiers and tokens are
    UUIDs drawn once, a lease exists exactly for the running tasks and covers their current
    run, attempts stay within their bound, dependencies name stored tasks and are recorded at
    both ends, commands carry the claim fields of their status. *)
Theorem sqlite_invariant s : sql_reachable s → ∃ a, Holds s a ∧ GInv a.
Proof. apply reachable_holds. Qed.

(** C4: transactional outbox: whatever statement of a call the database refuses, the rows of the
    event table stay as they are and the call adds a row for exactly the events it publishes;
    a call that fails changes no table and publishes nothing, except a claim that found only
    exhausted tasks: it fails them and reports that nothing is ready. *)
Theorem sqlite_outbox s E op :
  sql_reachable s → ForeignFaults E → op_text op = true →
  ∃ rows rec es, tbl_events (sq_db (run_sql E op s).1) = tbl_events (sq_db s) ++ rows ∧
    Forall2 event_stored rec rows ∧ rec ≡ₚ es ∧
    sq_published (run_sql E op s).1 = sq_published s ++ (if sq_bus s then es else []) ∧
    ∀ e, (run_sql E op s).2 = Some e →
      may_exhaust op e ∨ (sq_db (run_sql E op s).1 = sq_db s ∧ sq_published (run_sql E op s).1 = sq_published s).
Proof.
  intros Hs HE Ht. destruct (reachable_holds s Hs) as (a & HR & HI).
  destruct (run_sql_ok E op s a HE Ht HR HI) as (a' & es & [_ (rec & Hrec & Hperm)] & HR' & _ & Hpub).
  destruct (call_appends op s) as [rows Hrows]; [by eapply Holds_numbered|].
  exists rows, rec, es. split_and!; [done| |done|done|apply run_sql_atomic].
  pose proof (rep_log _ _ HR') as Hlog. cbn in Hlog. rewrite Hrec, Hrows in Hlog.
  apply Forall2_app_inv in Hlog; [by apply Hlog|]. exact (Forall2_length _ _ _ (rep_log _ _ HR)).
Qed.

(** C6: every call moves every task along the lifecycle machine of the in-memory store, with
    UUIDs that were not drawn before as new identifiers and new fencing tokens. *)
Theorem sqlite_refines_lifecycle s E op id :
  sql_reachable s → ForeignFaults E → op_text op = true →
  glife (sq_uuids s) id (sql_view s id) (sql_view (run_sql E op s).1 id).
Proof.
  intros Hs HE Ht. destruct (reachable_holds s Hs) as (a & HR & HI).
  destruct (run_sql_ok E op s a HE Ht HR HI) as (a' & es & [HM _] & HR' & _).
  rewrite (Holds_view s a), (Holds_view _ a'), (Holds_uuids s a) by done. apply HM.
Qed.

(** C7: a fencing token that was issued and is no longer held is refused for ever: after any
    further calls, completing, failing, cancelling, renewing or releasing with it returns an
    error and changes no table. *)
Theorem sqlite_stale_tokens_are_fenced s s' tok E op :
  sql_reachable s → sql_stale s tok → rtc sql_step s s' → presents op tok →
  sq_db (run_sql E op s').1 = sq_db s' ∧ ∃ e, (run_sql E op s').2 = Some e.
Proof.
  intros Hs Hst Hsteps Hop. destruct (stale_steps_sql s s' tok Hs Hsteps Hst) as [Hs' Hst'].
  destruct (stale_refused E op s' tok Hs' Hst' Hop) as [e He]. split; [|by exists e].
  destruct (run_sql_atomic E op s' e He) as [Hx|[H _]]; [|done]. by destruct op.
Qed.

End calls.

(** ** A small database *)

(** UUIDs that are numbers, and events without fields. *)
Definition demo_sql : SqlConfig := MkSqlConfig (λ n, itoa (Z.of_nat n)) (λ ev, Ok "{}").
#[local] Existing Instance demo_sql | 100.
Lemma demo_sql_laws : SqlConfigLaws demo_sql.
Proof.
  split; [|intros k; apply itoa_ascii|done]. intros i j H. apply (inj pretty) in H. lia.
Qed.
Definition at_second (n : Z) : Time := (1700000000 + n) * nanos.
(** No statement is refused, or the one with the given number. *)
Definition quiet (n : Z) : Env := MkEnv (λ k, at_second n + Z.of_nat k) (λ _, None).
Definition busy (k : nat) (n : Z) : Env :=
  MkEnv (λ k, at_second n + Z.of_nat k) (λ i, if Nat.eqb i k then Some (ENew "database is locked") else None).
Lemma quiet_foreign n : ForeignFaults (quiet n).
Proof. by split. Qed.
Lemma busy_foreign k n : ForeignFaults (busy k n).
Proof. split. intros i e. cbn. by destruct (Nat.eqb i k); intros [= <-]. Qed.

Fixpoint sql_calls (n : Z) (ops : list Op) (s : SqlStore) : SqlStore :=
  match ops with [] => s | op :: ops => sql_calls (n + 1) ops (run_sql (quiet n) op s).1 end.
Lemma sql_calls_reachable n ops s :
  forallb op_text ops = true → sql_reachable s → sql_reachable (sql_calls n ops s).
Proof.
  revert n s. induction ops as [|op ops IH]; intros n s Hops Hs; [done|]. cbn in Hops. apply andb_prop in Hops as [Hop Hops].
  apply IH; [done|]. apply sr_call; [done|apply quiet_foreign|done].
Qed.

(** Two tasks, the second blocked by the first, the first claimed for ten seconds. *)
Definition demo_db : SqlStore := sql_calls 50
  [ OpCreateTask (req_task "build" [] 1); OpCreateTask (req_task "test" ["task-0"] 2);
    OpClaimReadyTask (req_claim "w1" (10 * nanos) (at_second 100)) ] (sql_NewStore true).
Lemma demo_db_reachable : sql_reachable demo_db.
Proof. apply sql_calls_reachable; [done|constructor]. Qed.

(** A task with an integer beyond the exact floats and a struct among its metadata: they
    are stored as a rounded float and a map; a channel is refused. *)
Definition with_metadata (m : AnyMap) : Op :=
  OpCreateTask (MkCreateTaskRequest "docs" "write" "" "" [] [] 0 m).
Definition odd_values : AnyMap :=
  {[ "count" := AInt (2 ^ 53 + 1); "spec" := AStruct [("b", ABool true); ("a", ATypedNil)] ]}.
Definition odd_db : SqlStore := sql_calls 200 [with_metadata odd_values; with_metadata {[ "c" := AOpaque 1 ]}] demo_db.
Lemma odd_db_reachable : sql_reachable odd_db.
Proof. apply sql_calls_reachable; [done|apply demo_db_reachable]. Qed.
Lemma sqlite_invariant_witness :
  (task_Metadata <$> omap (sql_task odd_db) (map_to_list (tbl_tasks (sq_db odd_db))).*1) =
    [{[ "count" := AFloat (FInt (2 ^ 53)); "spec" := AMap [("a", ANil); ("b", ABool true)] ]}; ∅; ∅] ∧
  ∃ a, Holds odd_db a ∧ GInv a.
Proof.
  split; [vm_compute; reflexivity|].
  apply (sqlite_invariant (CL := demo_sql_laws)). apply odd_db_reachable.
Defined.

(** A completion whose fifth statement is refused. *)
Lemma sqlite_outbox_witness :
  let out := run_sql (busy 4 105) (OpCompleteTask "task-0" "lease-token-7" None (at_second 105)) demo_db in
  out.2 = Some (EWrap "delete completed lease: " (ENew "database is locked") "") ∧
  ∃ rows rec es, tbl_events (sq_db out.1) = tbl_events (sq_db demo_db) ++ rows ∧
    Forall2 event_stored rec rows ∧ rec ≡ₚ es ∧
    sq_published out.1 = sq_published demo_db ++ (if sq_bus demo_db then es else []) ∧
    ∀ e, out.2 = Some e →
      may_exhaust (OpCompleteTask "task-0" "lease-token-7" None (at_second 105)) e ∨
      (sq_db out.1 = sq_db demo_db ∧ sq_published out.1 = sq_published demo_db).
Proof.
  split; [vm_compute; reflexivity|].
  apply (sqlite_outbox (CL := demo_sql_laws)); [apply demo_db_reachable|apply busy_foreign|reflexivity].
Defined.

Lemma sqlite_refines_lifecycle_witness :
  sql_view demo_db "task-0" = Some (MkView TaskRunning 1 1 (Some "lease-token-7") None) ∧
  let s' := (run_sql (quiet 105) (OpCompleteTask "task-0" "lease-token-7" None (at_second 105)) demo_db).1 in
  sql_view s' "task-0" = Some (MkView TaskCompleted 1 1 None None) ∧
  glife (sq_uuids demo_db) "task-0" (sql_view demo_db "task-0") (sql_view s' "task-0").
Proof.
  split; [vm_compute; reflexivity|]. split; [vm_compute; reflexivity|].
  apply (sqlite_refines_lifecycle (CL := demo_sql_laws)); [apply demo_db_reachable|apply quiet_foreign|reflexivity].
Defined.

(** The lease was recovered; its holder comes back. *)
Definition demo_db_recovered : SqlStore := sql_calls 200 [OpRecoverExpiredLeases (at_second 200)] demo_db.
Lemma no_row_stale s tok :
  drawn "lease-token" (sq_uuids s) tok → tbl_leases (sq_db s) = ∅ → sql_stale s tok.
Proof. intros Hd He. split; [done|]. intros id l. unfold sql_lease, decoded. by rewrite He, lookup_empty. Qed.
Lemma sqlite_stale_tokens_are_fenced_witness :
  let op := OpCompleteTask "task-0" "lease-token-7" None (at_second 201) in
  sql_stale demo_db_recovered "lease-token-7" ∧
  sq_db (run_sql (quiet 201) op demo_db_recovered).1 = sq_db demo_db_recovered ∧
  ∃ e, (run_sql (quiet 201) op demo_db_recovered).2 = Some e.
Proof.
  assert (sql_stale demo_db_recovered "lease-token-7") as Hst.
  { apply no_row_stale; [exists 7%nat; split; [vm_compute; lia|reflexivity]|vm_compute; reflexivity]. }
  split; [exact Hst|].
  apply (sqlite_stale_tokens_are_fenced (CL := demo_sql_laws) demo_db_recovered demo_db_recovered "lease-token-7");
    [|exact Hst|apply rtc_refl|reflexivity].
  apply sql_calls_reachable; [reflexivity|apply demo_db_reachable].
Defined.
