(* ===== verification/SqliteClaims.v ===== *)
(** * Claims and recovery of the SQLite store

    [ClaimReadyTask] takes a ready task when there is one; [RecoverExpiredLeases] compares
    times as RFC 3339 texts, which is right between different seconds only. *)

From S2P Require Import Prelude Errors Usage OrchTypes MemStore MemCommands StoreInv StoreDeps StoreLife StoreOps StoreSafety OrchHistory Json Serialize Snapshot TimeText OrchJson Runner SqliteTx SqliteStore SqliteLogic SqliteInv SqliteOps SqliteDeps SqliteFrame SqliteSafety.

Section claims.
Context {CF : SqlConfig} {CL : SqlConfigLaws CF}.

(** The tasks and leases of the tables. *)
Definition decode_rows {R V} `{Json V} (payload : R → json) (rows : gmap string R) : gmap string V :=
  omap (λ row, match unmarshal (payload row) with Ok v => Some v | Err _ => None end) rows.
Definition sql_content (s : SqlStore) : Abs :=
  MkAbs (decode_rows trow_payload (tbl_tasks (sq_db s))) (decode_rows lrow_payload (tbl_leases (sq_db s))) ∅ ∅ [] (sq_uuids s).
Lemma decode_rows_lookup {R V} `{Json V} (payload : R → json) (rows : gmap string R) id :
  (decode_rows payload rows : gmap string V) !! id = decoded payload rows id.
Proof. unfold decode_rows. by rewrite lookup_omap. Qed.
Lemma content_task s a id : Holds s a → g_tasks (sql_content s) !! id = g_tasks a !! id.
Proof. intros HR. cbn. rewrite decode_rows_lookup. exact (Holds_task s a id HR). Qed.
Lemma content_lease s a id : Holds s a → g_leases (sql_content s) !! id = g_leases a !! id.
Proof. intros HR. cbn. rewrite decode_rows_lookup. exact (Holds_lease s a id HR). Qed.
Lemma content_ready s a id req now : Holds s a → g_ready (sql_content s) id req now = g_ready a id req now.
Proof.
  intros HR. apply g_ready_same; [by apply content_task|by apply content_lease|].
  intros j. unfold not_blocking. by rewrite (content_task s a).
Qed.

Lemma claim_failure_not_ready `{E : Env, !ForeignFaults E} e : claim_failure e → e ≠ ErrNoReadyTask.
Proof. intros H%claim_failure_stops ->. done. Qed.

(** C28: [ClaimReadyTask] returns a task that was ready, with the task and the lease it stored,
    and reports that nothing is ready only if no stored task was: not excluded, of a wanted
    kind, unblocked, without an active lease, with attempts left and pending or running.  A
    refused statement gives another error. *)
Theorem sqlite_claim_ready s (E : Env) req :
  sql_reachable s → ForeignFaults E → ValidString (claim_WorkerID req) = true →
  claim_Now req ≠ zero_time → 0 < claim_LeaseTTL req →
  match sql_ClaimReadyTask req s with
  | (s', Ok c) =>
    let id := task_ID (claimed_Task c) in
    g_ready (sql_content s) id req (claim_Now req) = true ∧
    sql_task s' id = Some (claimed_Task c) ∧ sql_lease s' id = Some (claimed_Lease c)
  | (_, Err e) => e = ErrNoReadyTask → ∀ id, g_ready (sql_content s) id req (claim_Now req) = false
  end.
Proof.
  intros Hs HE Hw Hz Httl. destruct (reachable_holds s Hs) as (a & HR & HI).
  unfold sql_ClaimReadyTask. destruct (Z.leb_spec (claim_LeaseTTL req) 0); [lia|].
  set (now := claim_Now req) in *.
  match goal with |- context [method ?m ?f s] =>
    destruct (method_rule m f s a (λ x a', match x.1 with
      | Some c => ∃ id, g_ready a id req now = true ∧ holds_claim a' id c
      | None => ∀ id, g_ready a id req now = false end) (λ e _, e ≠ ErrNoReadyTask) HR)
      as [(e & c & He & ->)|([o failed] & s1 & a' & HR' & HQ & _ & _ & ->)] end.
  - apply h_bind, h_normalizeNow. intros now' Hn. rewrite (Hn Hz). fold now. apply h_withTx.
    + apply h_bind, h_listTaskIDs.
      { intros e c He _ c' n _ _. apply claim_failure_not_ready. by left. }
      intros ids [Hnd Hids]. apply (h_claim_scan _ _ _ _ _ _ _ a);
        [intros e c He c' n _ _; by apply claim_failure_not_ready|by apply moved_refl|done|done|done|constructor|done|].
      intros [c|] f a' _ _ Hc; [exact Hc|]. cbn. intros id. destruct (decide (id ∈ ids)) as [Hin|Hin]; [by apply Hc|].
      unfold g_ready. destruct (g_tasks a !! id) eqn:Ht; [|done]. destruct Hin. apply Hids. by rewrite Ht.
    + intros e c n He _ _. apply claim_failure_not_ready. by left.
  - done.
  - destruct o as [c|]; cbn -[g_ready].
    + destruct HQ as (id & Hrdy & Hid & Ht & Hl). rewrite Hid, (content_ready s a) by done.
      rewrite (Holds_task _ a'), (Holds_lease _ a') by (by apply Holds_publish). done.
    + intros _ id. rewrite (content_ready s a) by done. apply HQ.
Qed.

(** C29: [RecoverExpiredLeases] recovers expired leases only, keeps every lease that has not
    expired, and leaves none that expired in an earlier second. *)
Theorem sqlite_recovery s (E : Env) now s' rs :
  sql_reachable s → now ≠ zero_time → time_encodes now = true → sql_RecoverExpiredLeases now s = (s', Ok rs) →
  (∀ r, r ∈ rs → ∃ id, sql_lease s id = Some (lrec_Lease r) ∧ lease_ExpiresAt (lrec_Lease r) ≤ now ∧ sql_lease s' id = None) ∧
  (∀ id l, sql_lease s id = Some l → now < lease_ExpiresAt l → sql_lease s' id = Some l) ∧
  (∀ id l, sql_lease s id = Some l → lease_ExpiresAt l ≠ zero_time → time_encodes (lease_ExpiresAt l) = true →
     lease_ExpiresAt l / nanos < now / nanos → sql_lease s' id = None).
Proof.
  intros Hs Hz Henc Hrec. destruct (reachable_holds s Hs) as (a & HR & HI).
  unfold sql_RecoverExpiredLeases in Hrec.
  match type of Hrec with method ?m ?f s = _ =>
    destruct (method_rule m f s a (λ x a', ∃ ids : list string,
      (∀ id l, g_leases a !! id = Some l → lease_ExpiresAt l ≠ zero_time →
         (id ∈ ids ↔ String.leb (FormatRFC3339Nano (lease_ExpiresAt l)) (FormatRFC3339Nano now) = true)) ∧
      (∀ r p, (r, p) ∈ x → ∃ id, id ∈ ids ∧ recovers a id now (Some (r, p))) ∧
      (∀ j, g_leases a' !! j = if decide (j ∈ ids) then unexpired now (g_leases a !! j) else g_leases a !! j))
      (failed a) HR) as [(e & c & _ & Heq)|(x & s1 & a' & HR' & (ids & Hids & Hrs & Hl) & _ & _ & Heq)] end.
  - apply h_bind, h_normalizeNow. intros now' Hn. rewrite (Hn Hz). apply h_tx. apply h_bind, h_formatTime. intros text Ht.
    apply h_bind, h_expired_ids. intros ids Hnd Hids. apply (h_recover_leases _ _ _ a); [by apply moved_refl|done|].
    intros rs' a' _ _ H1 H2. exists ids. rewrite (Ht Hz) in Hids. done.
  - rewrite Heq in Hrec. done.
  - rewrite Heq in Hrec. injection Hrec as <- <-.
    assert (∀ id, sql_lease (sql_publish (recovery_events x.*2) s1) id = g_leases a' !! id) as Hl'.
    { intros id. apply Holds_lease. by apply Holds_publish. }
    split_and!.
    + intros r ([r' p] & -> & Hin)%list_elem_of_fmap. destruct (Hrs _ _ Hin) as (id & Hid & l & Hla & Hexp & <-).
      exists id. rewrite Hl', Hl, decide_True, (Holds_lease s a), Hla by done. cbn. rewrite Hexp.
      split_and!; [done| |done]. unfold After in Hexp. apply Z.ltb_ge in Hexp. done.
    + intros id l. rewrite (Holds_lease s a) by done. intros Hla Hlt. rewrite Hl', Hl, Hla.
      case_decide; [|done]. cbn. unfold After. destruct (Z.ltb_spec now (lease_ExpiresAt l)); [done|lia].
    + intros id l. rewrite (Holds_lease s a) by done. intros Hla Hzl Henc' Hsec. rewrite Hl', Hl, decide_True, Hla.
      * cbn. unfold After. destruct (Z.ltb_spec now (lease_ExpiresAt l)) as [Hlt|]; [|done].
        assert (now / nanos ≤ lease_ExpiresAt l / nanos) by (apply Z.div_le_mono; [done|lia]). lia.
      * apply (Hids id l Hla Hzl). by apply text_leb.
Qed.

End claims.

#[local] Existing Instance demo_sql | 100.
#[local] Existing Instance demo_sql_laws | 100.

(** The first task is leased and blocks the second: nothing is ready; after its lease
    expired it is. *)
Lemma sqlite_claim_ready_witness :
  let req now := req_claim "w2" (10 * nanos) (at_second now) in
  let E := quiet 130 in
  (∀ id, g_ready (sql_content demo_db) id (req 105) (at_second 105) = false) ∧
  ∃ s' c, sql_ClaimReadyTask (req_claim "w2" (10 * nanos) (at_second 105))
            (sql_calls 120 [OpCreateTask (req_task "docs" [] 1)] demo_db) = (s', Ok c) ∧
    sql_lease s' (task_ID (claimed_Task c)) = Some (claimed_Lease c).
Proof.
  intros req E. split.
  - pose proof (sqlite_claim_ready demo_db E (req 105) demo_db_reachable (quiet_foreign _) eq_refl ltac:(discriminate) ltac:(reflexivity)) as H.
    assert ((sql_ClaimReadyTask (req 105) demo_db).2 = Err ErrNoReadyTask) as He by (vm_compute; reflexivity).
    destruct (sql_ClaimReadyTask (req 105) demo_db) as [s' r]. cbn in He. subst r. exact (H eq_refl).
  - set (s := sql_calls 120 _ demo_db).
    assert (sql_reachable s) as Hs by (apply sql_calls_reachable; [reflexivity|apply demo_db_reachable]).
    pose proof (sqlite_claim_ready s E (req_claim "w2" (10 * nanos) (at_second 105)) Hs (quiet_foreign _) eq_refl ltac:(discriminate) ltac:(reflexivity)) as H.
    assert (is_ok (sql_ClaimReadyTask (req_claim "w2" (10 * nanos) (at_second 105)) s).2 = true) as Hok by (vm_compute; reflexivity).
    destruct (sql_ClaimReadyTask _ s) as [s' [c|e]]; [|discriminate Hok]. exists s', c. split; [reflexivity|apply H].
Defined.

Lemma sqlite_recovery_witness :
  let E := quiet 130 in
  ∃ s' rs, sql_RecoverExpiredLeases (at_second 130) demo_db = (s', Ok rs) ∧ length rs = 1%nat ∧
    sql_lease s' "task-0" = None.
Proof.
  intros E. pose (out := sql_RecoverExpiredLeases (at_second 130) demo_db).
  assert (match out.2 with Ok rs => length rs = 1%nat | Err _ => False end) as Hout by (vm_compute; reflexivity).
  destruct out as [s' [rs|e]] eqn:Heq; [|destruct Hout]. exists s', rs. split; [exact Heq|]. split; [exact Hout|].
  destruct (sqlite_recovery demo_db E (at_second 130) s' rs demo_db_reachable) as (_ & _ & H);
    [discriminate|reflexivity|exact Heq|].
  assert (match sql_lease demo_db "task-0" with
    | Some l => lease_ExpiresAt l = at_second 110 | None => False end) as Hl by (vm_compute; reflexivity).
  destruct (sql_lease demo_db "task-0") as [l|] eqn:Hl0; [|destruct Hl].
  apply (H "task-0" l Hl0); rewrite Hl; [discriminate|reflexivity|reflexivity].
Defined.

(** ** Deviations *)

(** A scan reports a task that completed with its last attempt as failed, to the bus and in
    the event table, on every call; the task itself stays completed. *)
Definition demo_db_completed : SqlStore :=
  sql_calls 105 [OpCompleteTask "task-0" "lease-token-7" None (at_second 105)] demo_db.
Lemma scan_reports_completed_task_failed :
  let out := run_sql (quiet 106) (OpClaimReadyTask (MkClaimTaskRequest "w2" (10 * nanos) (at_second 106) ["build"] []))
               demo_db_completed in
  out.2 = Some ErrNoReadyTask ∧ v_status <$> sql_view out.1 "task-0" = Some TaskCompleted ∧
  ∃ e, sq_published out.1 = sq_published demo_db_completed ++ [EvTaskFailed e] ∧ tfe_TaskID e = "task-0".
Proof.
  split; [vm_compute; reflexivity|]. split; [vm_compute; reflexivity|]. eexists.
  split; vm_compute; reflexivity.
Qed.

(** A lease that expired half a second ago is not recovered: its text ends in ["Z"] where the
    text of the time has a fraction, and a full stop sorts before a ["Z"]. *)
Lemma recovery_misses_fraction :
  let now := at_second 110 + 500000000 in
  lease_ExpiresAt <$> sql_lease demo_db "task-0" = Some (at_second 110) ∧
  (run_sql (quiet 111) (OpRecoverExpiredLeases now) demo_db).2 = None ∧
  is_Some (sql_lease (run_sql (quiet 111) (OpRecoverExpiredLeases now) demo_db).1 "task-0").
Proof. split; [vm_compute; reflexivity|]. split; [vm_compute; reflexivity|]. vm_compute. eauto. Qed.

(** A task that is made to block itself does not become blocked by itself: the link is
    written to a second copy of the task, which the update then overwrites. *)
Lemma self_dependency_one_sided :
  let op := OpUpdateTask (MkUpdateTaskRequest "task-2" None None ["task-2"] [] ∅) in
  (λ t, (task_Blocks t, task_BlockedBy t)) <$> sql_task (run_sql (quiet 105) op demo_db).1 "task-2"
    = Some (["task-2"], ["task-0"]).
Proof. vm_compute. reflexivity. Qed.
