(* ===== verification/AguiSession.v ===== *)
(** * AG-UI sessions and their replay buffer

    src/ext/agui: the event envelope and the sequencer of event.go, the replay buffer
    of replay.go and the session of session.go.  Every method of the session runs
    under its lock, so a method is one function of the session.  The clock and the
    random event identifiers are arguments.  Sequence numbers are 64-bit and wrap. *)

From S2P Require Import Prelude Errors Json TimeText OrchJson.

Definition uint64 (z : Z) : Z := z mod 2 ^ 64.

(** ** Events *)

Record Event := MkEvent {
  ev_ID : string; ev_Sequence : Z; ev_Type : string; ev_SessionID : string; ev_RunID : string;
  ev_ParentRunID : string; ev_TurnNumber : Z; ev_Timestamp : Time; ev_Data : RawMessage;
}.
#[export] Instance Event_eta : RecordEta Event := λ e,
  MkEvent (ev_ID e) (ev_Sequence e) (ev_Type e) (ev_SessionID e) (ev_RunID e) (ev_ParentRunID e)
    (ev_TurnNumber e) (ev_Timestamp e) (ev_Data e).

(** [Sequencer.Next]: the counter after the call and the number. *)
Definition Sequencer_Next (counter : Z) : Z * Z := let n := uint64 (counter + 1) in (n, n).

(** [MarshalData]: what [json.Marshal] refuses becomes an error object. *)
Definition MarshalData (v : res json) : RawMessage :=
  match v with
  | Ok j => RawJSON j
  | Err _ => RawJSON (JObject [("error", JString "failed to marshal event data")])
  end.

(** ** The replay buffer *)

Record EventBuffer := MkEventBuffer { buf_events : list Event; buf_cap : Z }.
#[export] Instance EventBuffer_eta : RecordEta EventBuffer := λ b,
  MkEventBuffer (buf_events b) (buf_cap b).

Definition NewEventBuffer (capacity : Z) : EventBuffer :=
  MkEventBuffer [] (if capacity <=? 0 then 10000 else capacity).

(** The oldest tenth makes room, and at least one event. *)
Definition Append (ev : Event) (b : EventBuffer) : EventBuffer :=
  let events :=
    if buf_cap b <=? Z.of_nat (length (buf_events b)) then
      let d := buf_cap b / 10 in
      drop (Z.to_nat (if d <? 1 then 1 else d)) (buf_events b)
    else buf_events b in
  b <| buf_events := events ++ [ev] |>.

(** The loop of [Since]: the bounds close in on the first event after [lastSeq].
    Every round shrinks the interval, so its length is fuel enough. *)
Fixpoint search_after (fuel : nat) (events : list Event) (lastSeq : Z) (lo hi : nat) : nat :=
  match fuel with
  | O => lo
  | S fuel =>
    if (lo <? hi)%nat then
      let mid := Nat.div (lo + hi) 2 in
      match events !! mid with
      | Some e =>
        if ev_Sequence e <=? lastSeq then search_after fuel events lastSeq (S mid) hi
        else search_after fuel events lastSeq lo mid
      | None => lo
      end
    else lo
  end.

(** The events after [lastSeq], and whether none of them was evicted. *)
Definition Since (lastSeq : Z) (b : EventBuffer) : list Event * bool :=
  match buf_events b with
  | [] => ([], true)
  | oldest :: _ =>
    if (0 <? lastSeq) && (lastSeq <? uint64 (ev_Sequence oldest - 1)) then ([], false)
    else
      let n := length (buf_events b) in
      let lo := search_after n (buf_events b) lastSeq 0 n in
      if (n <=? lo)%nat then ([], true) else (drop lo (buf_events b), true)
  end.

Definition buf_All (b : EventBuffer) : list Event := buf_events b.
Definition buf_Len (b : EventBuffer) : Z := Z.of_nat (length (buf_events b)).
Definition LastSeq (b : EventBuffer) : Z :=
  match last (buf_events b) with Some e => ev_Sequence e | None => 0 end.

(** ** Sessions *)

Definition SessionStatusStarting : string := "starting".
Definition SessionStatusRunning : string := "running".
Definition SessionStatusWaiting : string := "waiting".
Definition SessionStatusCompleted : string := "completed".
Definition SessionStatusFailed : string := "failed".
Definition SessionStatusCancelled : string := "cancelled".
Definition SessionStatusAborted : string := "aborted".
Definition defaultReplayCapacity : Z := 10000.

Record pendingApprovalState := MkPendingApproval {
  pas_ToolCallID : string; pas_ToolName : string; pas_ArgsJSON : string; pas_RequestedAt : Time;
}.
Record pendingExternalInputState := MkPendingExternalInput {
  pei_ToolCallID : string; pei_ToolName : string; pei_ArgsJSON : string; pei_RequestedAt : Time;
}.

(** [ses_replay] is nil until the buffer is first needed; the sequencer starts at 0. *)
Record Session := MkSession {
  ses_ID : string; ses_RunID : string; ses_ParentRunID : string; ses_Mode : string;
  ses_Status : string; ses_CreatedAt : Time; ses_UpdatedAt : Time; ses_statusAt : Time;
  ses_WaitingReason : string;
  ses_seq : Z; ses_replay : option EventBuffer;
  ses_pendingApprovals : gmap string pendingApprovalState;
  ses_pendingExternalInputs : gmap string pendingExternalInputState;
}.
#[export] Instance Session_eta : RecordEta Session := λ s,
  MkSession (ses_ID s) (ses_RunID s) (ses_ParentRunID s) (ses_Mode s) (ses_Status s) (ses_CreatedAt s)
    (ses_UpdatedAt s) (ses_statusAt s) (ses_WaitingReason s) (ses_seq s) (ses_replay s)
    (ses_pendingApprovals s) (ses_pendingExternalInputs s).

Definition NewSession (id mode : string) (now : Time) : Session :=
  MkSession id "" "" mode SessionStatusStarting now now zero_time "" 0 None ∅ ∅.

Definition SetRunID (runID parentRunID : string) (now : Time) (s : Session) : Session :=
  s <| ses_RunID := runID |> <| ses_ParentRunID := parentRunID |> <| ses_UpdatedAt := now |>.

Definition SetStatus (status : string) (now : Time) (s : Session) : Session :=
  let s := s <| ses_Status := status |> <| ses_UpdatedAt := now |> <| ses_statusAt := now |> in
  if negb (String.eqb status SessionStatusWaiting) then s <| ses_WaitingReason := "" |> else s.

Definition SetWaiting (reason : string) (now : Time) (s : Session) : Session :=
  s <| ses_Status := SessionStatusWaiting |> <| ses_WaitingReason := reason |>
    <| ses_UpdatedAt := now |> <| ses_statusAt := now |>.

Definition GetStatus (s : Session) : string := ses_Status s.

Definition ensureTransportStateLocked (capacity : Z) (s : Session) : Session * EventBuffer :=
  let capacity := if capacity <=? 0 then defaultReplayCapacity else capacity in
  match ses_replay s with
  | Some b => (s, b)
  | None => let b := NewEventBuffer capacity in (s <| ses_replay := Some b |>, b)
  end.

Definition EnsureReplayBuffer (capacity : Z) (s : Session) : Session := (ensureTransportStateLocked capacity s).1.
Definition ReplayBuffer (s : Session) : Session := EnsureReplayBuffer defaultReplayCapacity s.

Definition newEventLocked (id eventType : string) (data : RawMessage) (capturedAt : Time) (s : Session)
    : Session * Event :=
  let '(counter, n) := Sequencer_Next (ses_seq s) in
  (s <| ses_seq := counter |>,
   MkEvent id n eventType (ses_ID s) (ses_RunID s) (ses_ParentRunID s) 0 capturedAt data).

(** *** What raw AG-UI events mean for the session *)

Record rawAGUIEnvelope := MkRawAGUIEnvelope {
  raw_Type : string; raw_RunID : string; raw_Name : string; raw_Value : RawMessage; raw_Timestamp : Z;
}.
Definition unmarshal_envelope (j : json) : res rawAGUIEnvelope :=
  o ← fields j; x1 ← field o "type"; x2 ← field o "runId"; x3 ← field o "name"; x4 ← field o "value";
  x5 ← field o "timestamp"; Ok (MkRawAGUIEnvelope x1 x2 x3 x4 x5).

(** The payloads of the custom events: tool call, tool and arguments of a request,
    the tool call of a resolution, the reason of a wait. *)
Definition unmarshal_requested (j : json) : res (string * string * string) :=
  o ← fields j; x1 ← field o "toolCallId"; x2 ← field o "toolName"; x3 ← field o "argsJson"; Ok (x1, x2, x3).
Definition unmarshal_resolved (j : json) : res string := o ← fields j; field o "toolCallId".
Definition unmarshal_waiting (j : json) : res string := o ← fields j; field o "reason".

(** [json.Unmarshal(raw, &v)] for one of these structs. *)
Definition decode_raw {A} (f : json → res A) (r : RawMessage) : res A :=
  match r with
  | RawJSON j => f j
  | RawNil => Err (ENew "unexpected end of JSON input")
  | RawInvalid _ => Err (ENew "invalid character in JSON input")
  end.

(** A status that occurred before the current one was set is stale. *)
Definition applyRawStatusLocked (status waitingReason : string) (occurredAt : Time) (s : Session) : Session :=
  if negb (IsZero (ses_statusAt s)) && Before occurredAt (ses_statusAt s) then s
  else
    let s := s <| ses_Status := status |> <| ses_statusAt := occurredAt |> in
    if String.eqb status SessionStatusWaiting then s <| ses_WaitingReason := waitingReason |>
    else s <| ses_WaitingReason := "" |>.

Definition applyCustomEventLocked (name : string) (value : RawMessage) (occurredAt : Time) (s : Session) : Session :=
  if String.eqb name "gollem.approval.requested" then
    match decode_raw unmarshal_requested value with
    | Err _ => s
    | Ok (id, tool, args) =>
      if String.eqb id "" then s
      else s <| ses_pendingApprovals ::= <[id := MkPendingApproval id tool args occurredAt]> |>
    end
  else if String.eqb name "gollem.approval.resolved" then
    match decode_raw unmarshal_resolved value with
    | Err _ => s
    | Ok id => if String.eqb id "" then s else s <| ses_pendingApprovals ::= delete id |>
    end
  else if String.eqb name "gollem.deferred.requested" then
    match decode_raw unmarshal_requested value with
    | Err _ => s
    | Ok (id, tool, args) =>
      if String.eqb id "" then s
      else s <| ses_pendingExternalInputs ::= <[id := MkPendingExternalInput id tool args occurredAt]> |>
    end
  else if String.eqb name "gollem.deferred.resolved" then
    match decode_raw unmarshal_resolved value with
    | Err _ => s
    | Ok id => if String.eqb id "" then s else s <| ses_pendingExternalInputs ::= delete id |>
    end
  else if String.eqb name "gollem.run.waiting" then
    match decode_raw unmarshal_waiting value with
    | Err _ => s
    | Ok reason => applyRawStatusLocked SessionStatusWaiting reason occurredAt s
    end
  else if String.eqb name "gollem.run.resumed" then applyRawStatusLocked SessionStatusRunning "" occurredAt s
  else s.

(** [time.UnixMilli]. *)
Definition UnixMilli (ms : Z) : Time := unix_epoch + ms * 1000000.

Definition applyRawEventLocked (data : RawMessage) (fallbackTime : Time) (s : Session) : Session :=
  match decode_raw unmarshal_envelope data with
  | Err _ => s
  | Ok env =>
    let occurredAt := if 0 <? raw_Timestamp env then UnixMilli (raw_Timestamp env) else fallbackTime in
    let s := if IsZero (ses_UpdatedAt s) || After occurredAt (ses_UpdatedAt s)
             then s <| ses_UpdatedAt := occurredAt |> else s in
    let s := if negb (String.eqb (raw_RunID env) "") then s <| ses_RunID := raw_RunID env |> else s in
    if String.eqb (raw_Type env) "RUN_STARTED" then applyRawStatusLocked SessionStatusRunning "" occurredAt s
    else if String.eqb (raw_Type env) "RUN_FINISHED" then applyRawStatusLocked SessionStatusCompleted "" occurredAt s
    else if String.eqb (raw_Type env) "RUN_ERROR" then applyRawStatusLocked SessionStatusFailed "" occurredAt s
    else if String.eqb (raw_Type env) "CUSTOM" then
      applyCustomEventLocked (raw_Name env) (raw_Value env) occurredAt s
    else s
  end.

(** *** Capture, reconnect, new events *)

Definition CaptureRawEvent (id eventType : string) (data : RawMessage) (capturedAt : Time) (s : Session)
    : Session * Event :=
  let '(s, _) := ensureTransportStateLocked defaultReplayCapacity s in
  let s := applyRawEventLocked data capturedAt s in
  let '(s, ev) := newEventLocked id eventType data capturedAt s in
  (s <| ses_replay ::= fmap (Append ev) |>, ev).

(** The JSON of a pending request, and of the snapshot of the session. *)
Definition marshal_pending (id tool args : string) (requestedAt : Time) : res json :=
  object [put "tool_call_id" id; put "tool_name" tool; put_omitempty "args_json" args;
          put "requested_at" (At requestedAt)].
Definition marshal_pendings {A} (f : A → res json) (m : gmap string A) : res json :=
  JObject <$> mapM (λ '(k, v), j ← f v; Ok (coerce_utf8 k, j)) (map_to_list m).
Definition marshal_approvals : gmap string pendingApprovalState → res json :=
  marshal_pendings (λ p, marshal_pending (pas_ToolCallID p) (pas_ToolName p) (pas_ArgsJSON p) (pas_RequestedAt p)).
Definition marshal_inputs : gmap string pendingExternalInputState → res json :=
  marshal_pendings (λ p, marshal_pending (pei_ToolCallID p) (pei_ToolName p) (pei_ArgsJSON p) (pei_RequestedAt p)).

Definition snapshot_payload (snapshotSeq : Z) (s : Session) : res json :=
  approvals ← marshal_approvals (ses_pendingApprovals s);
  inputs ← marshal_inputs (ses_pendingExternalInputs s);
  object [put "session_id" (ses_ID s); put "run_id" (ses_RunID s); put "parent_run_id" (ses_ParentRunID s);
          put "mode" (ses_Mode s); put "status" (ses_Status s); put "created_at" (At (ses_CreatedAt s));
          put "updated_at" (At (ses_UpdatedAt s)); put "waiting_reason" (ses_WaitingReason s);
          Ok [("pending_approvals", approvals)]; Ok [("pending_external_inputs", inputs)];
          Ok [("snapshot_sequence", JNum snapshotSeq)]].

Definition buildSnapshotLocked (id : string) (snapshotSeq : Z) (capturedAt : Time) (s : Session) : Event :=
  MkEvent ("snapshot_" ++ id) snapshotSeq "session.snapshot" (ses_ID s) (ses_RunID s) (ses_ParentRunID s) 0
    capturedAt (MarshalData (snapshot_payload snapshotSeq s)).

(** The session, the high-water mark, the replay and the snapshot. *)
Definition PrepareReconnect (id : string) (lastSeq : Z) (capturedAt : Time) (s : Session)
    : Session * (Z * list Event * option Event) :=
  let '(s, b) := ensureTransportStateLocked defaultReplayCapacity s in
  let highWater := LastSeq b in
  let '(replay, complete) := Since lastSeq b in
  (s, if complete then (highWater, replay, None)
      else (highWater, [], Some (buildSnapshotLocked id highWater capturedAt s))).

(** [NewEvent] takes the marshalled payload ([None] for a nil one). *)
Definition NewEvent (id eventType : string) (data : option (res json)) (now : Time) (s : Session) : Session * Event :=
  newEventLocked id eventType (match data with Some v => MarshalData v | None => RawNil end) now s.
Definition NewTurnEvent (id eventType : string) (turnNumber : Z) (data : option (res json)) (now : Time) (s : Session)
    : Session * Event :=
  let '(s, ev) := NewEvent id eventType data now s in (s, ev <| ev_TurnNumber := turnNumber |>).
