(* ===== verification/AguiReplay.v ===== *)
(** * Reconnecting to an AG-UI session

    A session seen through every sequence of calls of its methods.  The log is the
    list of all events the session ever captured; the replay buffer keeps a suffix of
    it.  [reconnect_exact] says what a client that comes back with the last sequence
    number it saw is given. *)

From S2P Require Import Prelude Errors Json TimeText OrchJson AguiSession.

(** ** Calls *)

Inductive SessionOp :=
| OpSetRunID (runID parentRunID : string) (now : Time)
| OpSetStatus (status : string) (now : Time)
| OpSetWaiting (reason : string) (now : Time)
| OpEnsureReplayBuffer (capacity : Z)
| OpCapture (id eventType : string) (data : RawMessage) (at_ : Time)
| OpReconnect (id : string) (lastSeq : Z) (at_ : Time)
| OpNewEvent (id eventType : string) (data : option (res json)) (now : Time).

(** The session after the call and what it captured. *)
Definition session_op (op : SessionOp) (s : Session) : Session * list Event :=
  match op with
  | OpSetRunID r p now => (SetRunID r p now s, [])
  | OpSetStatus st now => (SetStatus st now s, [])
  | OpSetWaiting r now => (SetWaiting r now s, [])
  | OpEnsureReplayBuffer c => (EnsureReplayBuffer c s, [])
  | OpCapture id ty data at_ => let '(s, ev) := CaptureRawEvent id ty data at_ s in (s, [ev])
  | OpReconnect id last at_ => ((PrepareReconnect id last at_ s).1, [])
  | OpNewEvent id ty data now => ((NewEvent id ty data now s).1, [])
  end.
Definition run_session (ops : list SessionOp) (s : Session) : Session * list Event :=
  foldl (λ '(s, log) op, let '(s, evs) := session_op op s in (s, log ++ evs)) (s, []) ops.

Definition is_NewEvent (op : SessionOp) : bool := match op with OpNewEvent _ _ _ _ => true | _ => false end.

(** ** The events after a sequence number *)

Definition seq_lt (e e' : Event) : Prop := ev_Sequence e < ev_Sequence e'.
Definition after_seq (n : Z) (log : list Event) : list Event := filter (λ e, n < ev_Sequence e) log.
Definition last_seq (log : list Event) : Z := from_option ev_Sequence 0 (last log).

Lemma after_seq_app n l l' : after_seq n (l ++ l') = after_seq n l ++ after_seq n l'.
Proof. apply filter_app. Qed.
Lemma after_seq_none n l : Forall (λ e, ev_Sequence e ≤ n) l → after_seq n l = [].
Proof. induction 1; [done|]. unfold after_seq. rewrite filter_cons_False by lia. done. Qed.
Lemma after_seq_all n l : Forall (λ e, n < ev_Sequence e) l → after_seq n l = l.
Proof. apply filter_all. Qed.
Lemma after_seq_drop n l k :
  (∀ i e, l !! i = Some e → (i < k)%nat → ev_Sequence e ≤ n) →
  (∀ i e, l !! i = Some e → (k ≤ i)%nat → n < ev_Sequence e) →
  after_seq n l = drop k l.
Proof.
  intros Hlo Hhi. rewrite <-(take_drop k l) at 1. rewrite after_seq_app.
  rewrite after_seq_none, after_seq_all; [done| |].
  - apply Forall_lookup. intros i e He. rewrite lookup_drop in He. apply (Hhi _ _ He). lia.
  - apply Forall_lookup. intros i e He. apply lookup_take_Some in He as [He ?]. by apply (Hlo i).
Qed.

Lemma sorted_lookup {A} (R : relation A) l i j x y :
  StronglySorted R l → l !! i = Some x → l !! j = Some y → (i < j)%nat → R x y.
Proof.
  intros Hs Hx Hy Hij. rewrite <-(take_drop j l) in Hs.
  apply (StronglySorted_app_1_elem_of R _ _ x y Hs).
  - apply list_elem_of_lookup. exists i. by rewrite lookup_take_lt.
  - apply list_elem_of_lookup. exists 0%nat. by rewrite lookup_drop, Nat.add_0_r.
Qed.

(** The binary search of [Since] brackets the boundary. *)
Lemma search_after_spec fuel l n lo hi :
  (∀ i e, l !! i = Some e → (i < lo)%nat → ev_Sequence e ≤ n) →
  (∀ i e, l !! i = Some e → (hi ≤ i)%nat → n < ev_Sequence e) →
  StronglySorted seq_lt l → (lo ≤ hi ≤ length l)%nat → (hi - lo ≤ fuel)%nat →
  after_seq n l = drop (search_after fuel l n lo hi) l.
Proof.
  intros Hlo Hhi Hsort. revert lo hi Hlo Hhi.
  induction fuel as [|fuel IH]; intros lo hi Hlo Hhi Hb Hf; cbn [search_after].
  { apply after_seq_drop; [done|]. intros i e He ?. apply (Hhi i); [done|lia]. }
  destruct (Nat.ltb_spec lo hi) as [Hlt|Hge].
  2: { apply after_seq_drop; [done|]. intros i e He ?. apply (Hhi i); [done|lia]. }
  pose proof (Nat.div_mod_eq (lo + hi) 2) as Hdiv. pose proof (Nat.mod_upper_bound (lo + hi) 2).
  set (mid := Nat.div (lo + hi) 2) in *. assert (lo ≤ mid < hi)%nat as Hmid by lia.
  destruct (lookup_lt_is_Some_2 l mid) as [m Hm]; [lia|]. rewrite Hm.
  assert (∀ i j e e', l !! i = Some e → l !! j = Some e' → (i < j)%nat → ev_Sequence e < ev_Sequence e') as Hord.
  { intros i j e e'. by apply (sorted_lookup seq_lt). }
  destruct (Z.leb_spec (ev_Sequence m) n); apply IH; try lia; try done.
  - intros i e He Hi. destruct (decide (i = mid)) as [->|]; [by simplify_eq|].
    assert (ev_Sequence e < ev_Sequence m); [|lia]. apply (Hord i mid); [done..|lia].
  - intros i e He Hi. destruct (decide (i = mid)) as [->|]; [by simplify_eq|].
    assert (ev_Sequence m < ev_Sequence e); [|lia]. apply (Hord mid i); [done..|lia].
Qed.

(** ** The invariant of a session and its log *)

Definition buffer_ok (b : EventBuffer) (log : list Event) : Prop :=
  0 < buf_cap b ∧ Z.of_nat (length (buf_events b)) ≤ buf_cap b ∧
  ∃ evicted, log = evicted ++ buf_events b ∧ (log ≠ [] → buf_events b ≠ []).

Record SessionInv (s : Session) (log : list Event) : Prop := {
  si_seq : 0 ≤ ses_seq s < 2 ^ 64;
  si_sorted : StronglySorted seq_lt log;
  si_range : Forall (λ e, 0 < ev_Sequence e ≤ ses_seq s) log;
  si_buffer : match ses_replay s with Some b => buffer_ok b log | None => log = [] end;
}.

Lemma NewEventBuffer_ok c : buffer_ok (NewEventBuffer c) [].
Proof.
  unfold buffer_ok, NewEventBuffer. cbn. destruct (Z.leb_spec c 0); split_and!; try lia; by exists [].
Qed.

Lemma Append_ok ev b log : buffer_ok b log → buffer_ok (Append ev b) (log ++ [ev]).
Proof.
  intros (Hcap & Hlen & evicted & -> & Hne). unfold Append.
  set (d := Z.to_nat _). unfold buffer_ok. cbn -[Z.of_nat].
  destruct (Z.leb_spec (buf_cap b) (Z.of_nat (length (buf_events b)))) as [Hfull|Hroom].
  - assert (1 ≤ d)%nat as Hd by (subst d; destruct (Z.ltb_spec (buf_cap b / 10) 1); lia).
    rewrite length_app, length_drop. cbn. split_and!; [done|lia|].
    exists (evicted ++ take d (buf_events b)). split; [|by destruct (drop d _)].
    by rewrite <-!(assoc_L (++)), (assoc_L (++) (take _ _)), take_drop.
  - rewrite length_app. cbn. split_and!; [done|lia|]. exists evicted.
    split; [by rewrite (assoc_L (++))|]. by destruct (buf_events b).
Qed.

(** The parts of the session the invariant reads. *)
Definition seq_view (s : Session) := (ses_seq s, ses_replay s).
Lemma view_inv s s' log : seq_view s' = seq_view s → SessionInv s log → SessionInv s' log.
Proof. unfold seq_view. intros [= H1 H2] []. split; by rewrite ?H1, ?H2. Qed.

Lemma applyRawStatus_view st r t s : seq_view (applyRawStatusLocked st r t s) = seq_view s.
Proof. unfold applyRawStatusLocked. by repeat case_match. Qed.
Lemma applyCustomEvent_view n v t s : seq_view (applyCustomEventLocked n v t s) = seq_view s.
Proof. unfold applyCustomEventLocked. by repeat case_match; rewrite ?applyRawStatus_view. Qed.
Lemma applyRawEvent_view d t s : seq_view (applyRawEventLocked d t s) = seq_view s.
Proof.
  unfold applyRawEventLocked. by repeat case_match; rewrite ?applyRawStatus_view, ?applyCustomEvent_view.
Qed.

Lemma ensure_inv c s log : SessionInv s log → SessionInv (ensureTransportStateLocked c s).1 log ∧
  ses_seq (ensureTransportStateLocked c s).1 = ses_seq s ∧
  ses_replay (ensureTransportStateLocked c s).1 = Some (ensureTransportStateLocked c s).2.
Proof.
  intros [H1 H2 H3 H4]. unfold ensureTransportStateLocked. destruct (ses_replay s) as [b|] eqn:Hb; cbn.
  { split; [|done]. split; try done. by rewrite Hb. } split; [|done]. subst log. split; try done. cbn. apply NewEventBuffer_ok.
Qed.

Lemma capture_inv id ty d t s log : ses_seq s + 1 < 2 ^ 64 → SessionInv s log →
  SessionInv (CaptureRawEvent id ty d t s).1 (log ++ [(CaptureRawEvent id ty d t s).2]) ∧
  ses_seq (CaptureRawEvent id ty d t s).1 = ses_seq s + 1 ∧
  ev_Sequence (CaptureRawEvent id ty d t s).2 = ses_seq s + 1.
Proof.
  intros Hmax (Hi & Hseq & Hb)%(ensure_inv defaultReplayCapacity). unfold CaptureRawEvent.
  destruct (ensureTransportStateLocked defaultReplayCapacity s) as [s1 b]. cbn in Hi, Hseq, Hb.
  pose proof (applyRawEvent_view d t s1) as Hv. set (s2 := applyRawEventLocked d t s1) in *. clearbody s2.
  unfold seq_view in Hv. injection Hv as Hv1 Hv2. destruct Hi as [H1 H2 H3 H4]. cbn.
  unfold uint64. rewrite Hv1, Z.mod_small by lia. split; [|split; lia]. rewrite Hb in H4.
  split; cbn; [lia| | |].
  - apply StronglySorted_app. split_and!; [|done|repeat constructor].
    intros e e' He ->%list_elem_of_singleton. unfold seq_lt. cbn.
    pose proof (proj1 (Forall_forall _ _) H3 e He). cbn in *. lia.
  - apply Forall_app. split; [|repeat constructor; cbn; lia].
    eapply Forall_impl; [exact H3|]. cbn. lia.
  - rewrite Hv2, Hb. cbn. by apply Append_ok.
Qed.

(** Every call keeps the invariant, and takes at most one sequence number. *)
Lemma session_op_inv op s log : ses_seq s + 1 < 2 ^ 64 → SessionInv s log →
  SessionInv (session_op op s).1 (log ++ (session_op op s).2) ∧
  ses_seq s ≤ ses_seq (session_op op s).1 ≤ ses_seq s + 1 ∧
  (is_NewEvent op = false → ses_seq (session_op op s).1 = ses_seq s + Z.of_nat (length (session_op op s).2)).
Proof.
  intros Hmax Hi. destruct op as [r p now|st now|r now|c|id ty d t|id n t|id ty d now];
    cbn [session_op fst snd is_NewEvent]; rewrite ?app_nil_r.
  - split; [by apply (view_inv s)|]. cbn. lia.
  - unfold SetStatus. cbn. case_match; cbn; (split; [by apply (view_inv s)|lia]).
  - split; [by apply (view_inv s)|]. cbn. lia.
  - apply (ensure_inv c) in Hi as (Hi & Hseq & _). unfold EnsureReplayBuffer. cbn. split; [done|lia].
  - destruct (capture_inv id ty d t s log Hmax Hi) as (Hi' & Hseq & _).
    destruct (CaptureRawEvent id ty d t s) as [s' ev]. cbn in *. split; [done|lia].
  - apply (ensure_inv defaultReplayCapacity) in Hi as (Hi & Hseq & _). unfold PrepareReconnect.
    destruct (ensureTransportStateLocked defaultReplayCapacity s) as [s1 b]. cbn in *.
    destruct (Since n b). cbn. split; [done|lia].
  - cbn. unfold uint64. rewrite Z.mod_small by (destruct Hi; lia).
    split; [|split; [lia|done]]. destruct Hi as [H1 H2 H3 H4]. split; cbn; try done; [lia|].
    eapply Forall_impl; [exact H3|]. cbn. lia.
Qed.

Lemma run_session_snoc ops op s :
  run_session (ops ++ [op]) s =
    ((session_op op (run_session ops s).1).1, (run_session ops s).2 ++ (session_op op (run_session ops s).1).2).
Proof.
  unfold run_session. rewrite foldl_app. cbn. destruct (foldl _ _ ops) as [s' log]. cbn.
  by destruct (session_op op s').
Qed.

Lemma run_session_inv ops id mode now :
  Z.of_nat (length ops) < 2 ^ 64 →
  let '(s, log) := run_session ops (NewSession id mode now) in
  SessionInv s log ∧ ses_seq s ≤ Z.of_nat (length ops) ∧
  (forallb (negb ∘ is_NewEvent) ops = true → ses_seq s = Z.of_nat (length log)).
Proof.
  induction ops as [|op ops IH] using rev_ind; intros Hlen.
  { cbn. split; [|done]. split; cbn; [lia|constructor|constructor|done]. }
  rewrite length_app in Hlen. cbn in Hlen. rewrite run_session_snoc.
  destruct (run_session ops _) as [s log]. cbn in *. destruct IH as (Hi & Hseq & Hcnt); [lia|].
  destruct (session_op_inv op s log) as (Hi' & Hseq' & Hcnt'); [lia|done|].
  split; [done|]. rewrite !length_app, forallb_app. cbn. split; [lia|].
  rewrite andb_true_r. intros [H1 H2]%andb_prop. rewrite Hcnt' by (by destruct op). rewrite Hcnt by done. lia.
Qed.

(** ** What [Since] returns *)

Lemma Since_spec n b log events complete :
  0 ≤ n → buffer_ok b log → StronglySorted seq_lt log → Forall (λ e, 0 < ev_Sequence e < 2 ^ 64) log →
  Since n b = (events, complete) →
  if complete then events = after_seq n (if n =? 0 then buf_events b else log)
  else events = [] ∧ 0 < n ∧ ∃ e es, buf_events b = e :: es ∧ n + 1 < ev_Sequence e.
Proof.
  intros Hn (_ & _ & evicted & Hlog & Hne) Hsort Hrange. unfold Since.
  destruct (buf_events b) as [|e es] eqn:Hb; [|rewrite <-Hb].
  { rewrite app_nil_r in Hlog. intros [= <- <-]. destruct log; [by case_match|]. by destruct Hne. }
  assert (0 < ev_Sequence e < 2 ^ 64) as He.
  { apply (proj1 (Forall_forall _ _) Hrange). subst log. set_solver. }
  unfold uint64. rewrite Z.mod_small by lia.
  destruct (Z.ltb_spec 0 n), (Z.ltb_spec n (ev_Sequence e - 1)); cbn [andb].
  { intros [= <- <-]. split_and!; [done..|]. exists e, es. split; [done|lia]. }
  all: intros Hret.
  all: assert (events = after_seq n (buf_events b) ∧ complete = true) as [-> ->].
  1, 3, 5: rewrite Hlog in Hsort; apply StronglySorted_app_1_r in Hsort; rewrite <-Hb in Hsort;
    rewrite (search_after_spec (length (buf_events b)) (buf_events b) n 0 (length (buf_events b))) by
      (try done; try lia; intros i x Hx ?; apply lookup_lt_Some in Hx; lia);
    destruct (Nat.leb_spec (length (buf_events b)) (search_after (length (buf_events b)) (buf_events b) n 0 (length (buf_events b))));
    simplify_eq; [by rewrite drop_ge|done].
  all: destruct (Z.eqb_spec n 0) as [->|]; [done|]; try lia.
  rewrite Hlog, after_seq_app, Hb, (after_seq_none n evicted); [done|].
  apply Forall_forall. intros x Hx. rewrite Hlog in Hsort.
  pose proof (StronglySorted_app_1_elem_of _ _ _ x e Hsort Hx ltac:(set_solver)) as Hlt.
  unfold seq_lt in Hlt. lia.
Qed.

(** In a strictly increasing list the numbers leave room for their neighbours. *)
Lemma sorted_room l a b i x :
  StronglySorted seq_lt l → Forall (λ e, a < ev_Sequence e ≤ b) l → l !! i = Some x →
  a + 1 + Z.of_nat i ≤ ev_Sequence x ≤ b + 1 + Z.of_nat i - Z.of_nat (length l).
Proof.
  intros Hs. revert a i x. induction Hs as [|y l Hs IH Hy]; intros a i x Hab Hx; [done|].
  apply Forall_cons in Hab as [Hya Hab]. cbn beta in Hya.
  assert (Forall (λ e, ev_Sequence y < ev_Sequence e ≤ b) l) as Hyb.
  { apply Forall_forall. intros e He. pose proof (proj1 (Forall_forall _ _) Hy e He) as H1.
    pose proof (proj1 (Forall_forall _ _) Hab e He). unfold seq_lt in H1. cbn beta in *. lia. }
  destruct i as [|i]; cbn [length].
  - injection Hx as <-. split; [lia|]. destruct l as [|z l]; [cbn [length]; lia|].
    specialize (IH (ev_Sequence y) 0%nat z Hyb eq_refl). lia.
  - specialize (IH (ev_Sequence y) i x Hyb Hx). lia.
Qed.

(** A buffer that starts past the next number has lost that number. *)
Lemma evicted_next log evicted e es n :
  StronglySorted seq_lt log → Forall (λ e, 0 < ev_Sequence e ≤ Z.of_nat (length log)) log →
  log = evicted ++ e :: es → 0 ≤ n → n + 1 < ev_Sequence e →
  ∃ x, x ∈ evicted ∧ ev_Sequence x = n + 1.
Proof.
  intros Hs Hr Hlog Hn He. assert (log !! length evicted = Some e) as Hi.
  { by rewrite Hlog, list_lookup_middle. }
  pose proof (sorted_room _ _ _ _ _ Hs Hr Hi).
  assert (Z.to_nat n < length evicted)%nat as Hlt by lia.
  destruct (lookup_lt_is_Some_2 evicted (Z.to_nat n) Hlt) as [x Hx]. exists x.
  split; [by eapply list_elem_of_lookup_2|].
  assert (log !! Z.to_nat n = Some x) as Hx' by (by rewrite Hlog, lookup_app_l).
  pose proof (sorted_room _ _ _ _ _ Hs Hr Hx'). lia.
Qed.

Lemma LastSeq_log b log : buffer_ok b log → LastSeq b = last_seq log.
Proof.
  intros (_ & _ & evicted & -> & Hne). unfold LastSeq, last_seq.
  destruct (buf_events b) as [|e es] eqn:Hb; [|by rewrite last_app_cons].
  destruct evicted; [done|]. by destruct Hne.
Qed.

(** A reconnect in any state of the invariant. *)
Lemma PrepareReconnect_spec rid n at_ s log s' highWater replay snapshot :
  0 ≤ n → SessionInv s log → PrepareReconnect rid n at_ s = (s', (highWater, replay, snapshot)) →
  SessionInv s' log ∧ ses_seq s' = ses_seq s ∧ highWater = last_seq log ∧
  ∃ b evicted, ses_replay s' = Some b ∧ log = evicted ++ buf_events b ∧
  match snapshot with
  | None => replay = after_seq n (if n =? 0 then buf_events b else log)
  | Some snap => replay = [] ∧ 0 < n ∧ snap = buildSnapshotLocked rid highWater at_ s' ∧
                 ∃ e es, buf_events b = e :: es ∧ n + 1 < ev_Sequence e
  end.
Proof.
  intros Hn Hi. unfold PrepareReconnect. destruct (ensure_inv defaultReplayCapacity s log Hi) as (Hi' & Hs' & Hb).
  destruct (ensureTransportStateLocked defaultReplayCapacity s) as [s1 b]. cbn in Hi', Hs', Hb.
  destruct (Since n b) as [events complete] eqn:Hsince. intros Hret.
  assert (s' = s1) as -> by (by destruct complete; simplify_eq). split; [done|]. split; [done|].
  destruct Hi' as [H1 H2 H3 H4]. rewrite Hb in H4.
  assert (Forall (λ e, 0 < ev_Sequence e < 2 ^ 64) log) as Hrange.
  { eapply Forall_impl; [exact H3|]. cbn. lia. }
  pose proof (Since_spec _ _ _ _ _ Hn H4 H2 Hrange Hsince) as Hspec. pose proof (LastSeq_log _ _ H4) as Hl.
  split; [by destruct complete; simplify_eq|]. exists b. pose proof H4 as (_ & _ & evicted & Hlog & _).
  exists evicted. split_and!; [done..|]. destruct complete; simplify_eq; [done|].
  destruct Hspec as (_ & Hpos & Hes). split_and!; done.
Qed.

(** C22: a client that reconnects with the last number it saw gets exactly the events
    captured after it, or, when some were evicted from the bounded buffer, a snapshot of
    the session at the high-water mark; a new client gets the end of the log.  If every
    event of the session was captured, a snapshot is sent only when the very next event
    the client needs is gone. *)
Theorem reconnect_exact ops id mode now rid lastSeq at_ :
  Z.of_nat (length ops) < 2 ^ 64 → 0 ≤ lastSeq →
  let '(s, log) := run_session ops (NewSession id mode now) in
  let '(s', (highWater, replay, snapshot)) := PrepareReconnect rid lastSeq at_ s in
  highWater = last_seq log ∧ StronglySorted seq_lt log ∧
  match snapshot with
  | None =>
    (0 < lastSeq → replay = after_seq lastSeq log) ∧
    (lastSeq = 0 → ∃ evicted, log = evicted ++ replay ∧ (replay = [] → log = []))
  | Some snap =>
    replay = [] ∧ 0 < lastSeq ∧ snap = buildSnapshotLocked rid highWater at_ s' ∧
    (forallb (negb ∘ is_NewEvent) ops = true →
     ∃ evicted kept x, log = evicted ++ kept ∧ Some kept = buf_All <$> ses_replay s' ∧
                       x ∈ evicted ∧ ev_Sequence x = lastSeq + 1)
  end.
Proof.
  intros Hops Hn. pose proof (run_session_inv ops id mode now Hops) as Hrun.
  destruct (run_session ops _) as [s log]. destruct Hrun as (Hi & Hseq & Hcnt).
  destruct (PrepareReconnect rid lastSeq at_ s) as [s' [[highWater replay] snapshot]] eqn:Hret.
  destruct (PrepareReconnect_spec _ _ _ _ _ _ _ _ _ Hn Hi Hret) as (Hi' & Hs' & -> & b & evicted & Hb & Hlog & Hspec).
  destruct Hi' as [H1 H2 H3 H4]. rewrite Hb in H4. split; [done|]. split; [done|].
  destruct snapshot as [snap|].
  - destruct Hspec as (-> & Hpos & -> & e & es & Hes & Hlt). split_and!; [done..|]. intros Hnew.
    rewrite Hs', (Hcnt Hnew) in H3. destruct (evicted_next log evicted e es lastSeq) as (x & Hx & Hxn); [done| |congruence|done..|].
    { done. }
    exists evicted, (buf_events b), x. by rewrite Hb.
  - subst replay. destruct (Z.eqb_spec lastSeq 0) as [->|]; [|split; [done|lia]].
    split; [lia|]. intros _. exists evicted. rewrite after_seq_all.
    + split; [done|]. intros Hnil. destruct H4 as (_ & _ & ev' & _ & Hne).
      destruct log; [done|]. by destruct Hne.
    + rewrite Hlog in H3. apply Forall_app in H3 as [_ Hr]. eapply Forall_impl; [exact Hr|]. cbn. lia.
Qed.

(** Thirteen captures into a buffer of twelve: the second client is one event late. *)
Definition demo_captures (n : nat) : list SessionOp :=
  OpEnsureReplayBuffer 12 :: ((λ i, OpCapture "evt" "agui.raw" RawNil (Z.of_nat i)) <$> seq 1 n).
Notation demo_session n := (run_session (demo_captures n) (NewSession "ses_1" "core-run" 0)) (only parsing).
Lemma reconnect_exact_witness :
  length (demo_session 13).2 = 13%nat ∧
  (PrepareReconnect "evt_r" 4 20 (demo_session 13).1).2.1.2 = after_seq 4 (demo_session 13).2 ∧
  is_Some (PrepareReconnect "evt_r" 1 20 (demo_session 14).1).2.2.
Proof.
  split; [vm_compute; reflexivity|]. split; [|vm_compute; eauto].
  pose proof (reconnect_exact (demo_captures 13) "ses_1" "core-run" 0 "evt_r" 4 20) as H.
  assert (Hnone : (PrepareReconnect "evt_r" 4 20 (demo_session 13).1).2.2 = None) by (vm_compute; reflexivity).
  revert H Hnone. generalize (demo_session 13). intros [s log]. cbn [fst snd].
  destruct (PrepareReconnect _ _ _ s) as [s' [[hw replay] snap]]. cbn [fst snd]. intros H ->.
  apply H; [vm_compute; reflexivity|discriminate|done].
Defined.
