(* ===== verification/AguiAdapter.v ===== *)
(** * The AG-UI adapter

    src/ext/agui/adapter.go: runtime events of the agent (the [RunEvent]s of
    AgentTypes) become AG-UI protocol events.  A handler fills a batch under the
    adapter's lock, so it is a function of the adapter's state; [emitBatch] keeps the
    order of the batches by holding a second lock until the batch is sent.  The
    readings of the clock during one call are numbered: [now 0], [now 1], ...  The
    counters are not bounded. *)

From S2P Require Import Prelude Errors Usage Messages AgentTypes Json.

(** ** Protocol events

    One constructor per struct; the fields are in the order of the source, without the
    type tag.  Optional fields that are never set are left out. *)
Inductive AGUIEvent :=
| aguiRunStarted (ts : Z) (threadID runID : string)
| aguiRunFinished (ts : Z) (threadID runID : string)
| aguiRunError (ts : Z) (message runID : string)
| aguiStepStarted (ts : Z) (stepName : string)
| aguiStepFinished (ts : Z) (stepName : string)
| aguiTextMessageStart (ts : Z) (messageID role : string)
| aguiTextMessageContent (ts : Z) (messageID delta : string)
| aguiTextMessageEnd (ts : Z) (messageID : string)
| aguiToolCallStart (ts : Z) (toolCallID toolCallName : string)
| aguiToolCallArgs (ts : Z) (toolCallID delta : string)
| aguiToolCallEnd (ts : Z) (toolCallID : string)
| aguiToolCallResult (ts : Z) (messageID toolCallID content role : string)
| aguiReasoningStart (ts : Z) (messageID : string)
| aguiReasoningMessageStart (ts : Z) (messageID role : string)
| aguiReasoningMessageContent (ts : Z) (messageID delta : string)
| aguiReasoningMessageEnd (ts : Z) (messageID : string)
| aguiReasoningEnd (ts : Z) (messageID : string)
| aguiCustom (ts : Z) (name : string) (value : RawMessage).

(** [json.Marshal] of the struct, which starts with its type and timestamp. *)
Definition agui_object (type : string) (ts : Z) (fs : list (res (list (string * json)))) : res json :=
  object (put "type" type :: put "timestamp" ts :: fs).
Definition agui_json (ev : AGUIEvent) : res json :=
  match ev with
  | aguiRunStarted ts t r => agui_object "RUN_STARTED" ts [put "threadId" t; put "runId" r]
  | aguiRunFinished ts t r => agui_object "RUN_FINISHED" ts [put "threadId" t; put "runId" r]
  | aguiRunError ts m r => agui_object "RUN_ERROR" ts [put "message" m; put_omitempty "runId" r]
  | aguiStepStarted ts n => agui_object "STEP_STARTED" ts [put "stepName" n]
  | aguiStepFinished ts n => agui_object "STEP_FINISHED" ts [put "stepName" n]
  | aguiTextMessageStart ts m role => agui_object "TEXT_MESSAGE_START" ts [put "messageId" m; put "role" role]
  | aguiTextMessageContent ts m d => agui_object "TEXT_MESSAGE_CONTENT" ts [put "messageId" m; put "delta" d]
  | aguiTextMessageEnd ts m => agui_object "TEXT_MESSAGE_END" ts [put "messageId" m]
  | aguiToolCallStart ts c n => agui_object "TOOL_CALL_START" ts [put "toolCallId" c; put "toolCallName" n]
  | aguiToolCallArgs ts c d => agui_object "TOOL_CALL_ARGS" ts [put "toolCallId" c; put "delta" d]
  | aguiToolCallEnd ts c => agui_object "TOOL_CALL_END" ts [put "toolCallId" c]
  | aguiToolCallResult ts m c content role =>
    agui_object "TOOL_CALL_RESULT" ts
      [put "messageId" m; put "toolCallId" c; put "content" content; put "role" role]
  | aguiReasoningStart ts m => agui_object "REASONING_START" ts [put "messageId" m]
  | aguiReasoningMessageStart ts m role =>
    agui_object "REASONING_MESSAGE_START" ts [put "messageId" m; put "role" role]
  | aguiReasoningMessageContent ts m d =>
    agui_object "REASONING_MESSAGE_CONTENT" ts [put "messageId" m; put "delta" d]
  | aguiReasoningMessageEnd ts m => agui_object "REASONING_MESSAGE_END" ts [put "messageId" m]
  | aguiReasoningEnd ts m => agui_object "REASONING_END" ts [put "messageId" m]
  | aguiCustom ts n v => agui_object "CUSTOM" ts [put "name" n; put_omitempty "value" v]
  end.

Definition mustMarshal (v : res json) : RawMessage :=
  match v with Ok j => RawJSON j | Err _ => RawJSON (JObject []) end.

(** ** The adapter *)

Record Adapter := MkAdapter {
  ad_threadID : string;
  ad_listeners : list (option nat);
  ad_unsubs : list string;
  ad_activeMessageID : string;
  ad_activeReasoningID : string;
  ad_msgCounter : Z;
  ad_streamBoundaryVersion : Z;
  ad_closed : bool;
}.
#[export] Instance Adapter_eta : RecordEta Adapter := λ a,
  MkAdapter (ad_threadID a) (ad_listeners a) (ad_unsubs a) (ad_activeMessageID a) (ad_activeReasoningID a)
    (ad_msgCounter a) (ad_streamBoundaryVersion a) (ad_closed a).
Definition NewAdapter (threadID : string) : Adapter := MkAdapter threadID [] [] "" "" 0 0 false.

(** Listeners are named; a cancelled one leaves nil at its index. *)
Definition OnEvent (fn : nat) (a : Adapter) : Adapter * nat :=
  (a <| ad_listeners ::= λ l, l ++ [Some fn] |>, length (ad_listeners a)).
Definition OffEvent (idx : nat) (a : Adapter) : Adapter := a <| ad_listeners ::= <[idx := None]> |>.

(** The calls of the listeners one round of [deliverLoop] makes for a batch. *)
Definition deliver_batch (a : Adapter) (batch : list AGUIEvent) : list (nat * AGUIEvent) :=
  ev ← batch; fn ← omap id (ad_listeners a); [(fn, ev)].

(** The event types the adapter subscribes to, in the order of [SubscribeTo], which
    panics ([None]) on an adapter that is subscribed. *)
Definition subscribed_types : list string :=
  ["RunStarted"; "RunCompleted"; "TurnStarted"; "TurnCompleted"; "ToolCalled"; "ToolCompleted"; "ToolFailed";
   "ApprovalRequested"; "ApprovalResolved"; "DeferredRequested"; "RunWaiting"; "DeferredResolved"; "RunResumed"].
Definition SubscribeTo (a : Adapter) : option Adapter :=
  match ad_unsubs a with [] => Some (a <| ad_unsubs := subscribed_types |>) | _ :: _ => None end.
Definition CloseAdapter (a : Adapter) : Adapter := a <| ad_unsubs := [] |> <| ad_closed := true |>.

(** ** Batches *)

Definition fill : Type := Adapter → Adapter * list AGUIEvent.
Definition enqueue_event (ev : AGUIEvent) : fill := λ a, (a, [ev]).
Definition skip_fill : fill := λ a, (a, []).
Definition then_fill (f g : fill) : fill := λ a,
  let '(a, evs) := f a in let '(a, evs') := g a in (a, evs ++ evs').
Notation "f ;> g" := (then_fill f g) (at level 58, right associativity).

(** [nextMessageID], then an event with the new identifier. *)
Definition message_id (a : Adapter) (n : Z) : string := "msg_" +:+ ad_threadID a +:+ "_" +:+ itoa n.
Definition nextMessageID (a : Adapter) : Adapter * string :=
  let n := ad_msgCounter a + 1 in (a <| ad_msgCounter := n |>, message_id a n).

Definition enqueueCloseActiveMessage (ts : Z) : fill := λ a,
  let a := a <| ad_streamBoundaryVersion ::= Z.succ |> in
  let '(a, text) :=
    if negb (String.eqb (ad_activeMessageID a) "")
    then (a <| ad_activeMessageID := "" |>, [aguiTextMessageEnd ts (ad_activeMessageID a)]) else (a, []) in
  if negb (String.eqb (ad_activeReasoningID a) "")
  then (a <| ad_activeReasoningID := "" |>,
        text ++ [aguiReasoningMessageEnd ts (ad_activeReasoningID a); aguiReasoningEnd ts (ad_activeReasoningID a)])
  else (a, text).

Definition EmitTextDelta (now : nat → Z) (messageID delta : string) : fill :=
  (λ a, if negb (String.eqb (ad_activeMessageID a) messageID)
        then (a <| ad_activeMessageID := messageID |>, [aguiTextMessageStart (now 0%nat) messageID "assistant"])
        else (a, [])) ;>
  (if String.eqb delta "" then skip_fill else enqueue_event (aguiTextMessageContent (now 1%nat) messageID delta)).

Definition EmitReasoningDelta (now : nat → Z) (messageID delta : string) : fill :=
  (λ a, if negb (String.eqb (ad_activeReasoningID a) messageID)
        then (a <| ad_activeReasoningID := messageID |>,
              [aguiReasoningStart (now 0%nat) messageID; aguiReasoningMessageStart (now 1%nat) messageID "reasoning"])
        else (a, [])) ;>
  (if String.eqb delta "" then skip_fill
   else enqueue_event (aguiReasoningMessageContent (now 2%nat) messageID delta)).

Definition onRunStarted (now : nat → Z) (runID : string) : fill := λ a,
  (a, [aguiRunStarted (now 0%nat) (ad_threadID a) runID]).
Definition onRunCompleted (now : nat → Z) (runID : string) (success deferred : bool) (err : string) : fill :=
  enqueueCloseActiveMessage (now 0%nat) ;>
  (λ a, (a, [if success || deferred then aguiRunFinished (now 1%nat) (ad_threadID a) runID
             else aguiRunError (now 1%nat) err runID])).
Definition turn_name (n : Z) : string := "turn_" +:+ itoa n.
Definition onTurnStarted (now : nat → Z) (turn : Z) : fill := enqueue_event (aguiStepStarted (now 0%nat) (turn_name turn)).
Definition onTurnCompleted (now : nat → Z) (turn : Z) : fill :=
  enqueueCloseActiveMessage (now 0%nat) ;> enqueue_event (aguiStepFinished (now 1%nat) (turn_name turn)).

Definition onToolCalled (now : nat → Z) (id name args : string) : fill :=
  enqueueCloseActiveMessage (now 0%nat) ;>
  enqueue_event (aguiToolCallStart (now 1%nat) id name) ;>
  (if String.eqb args "" then skip_fill else enqueue_event (aguiToolCallArgs (now 1%nat) id args)) ;>
  enqueue_event (aguiToolCallEnd (now 1%nat) id).
Definition onToolCompleted (now : nat → Z) (id result : string) : fill := λ a,
  let '(a, m) := nextMessageID a in (a, [aguiToolCallResult (now 0%nat) m id result "tool"]).
Definition onToolFailed (now : nat → Z) (id err : string) : fill := λ a,
  let '(a, m) := nextMessageID a in (a, [aguiToolCallResult (now 0%nat) m id ("error: " +:+ err) "tool"]).

Definition custom (ts : Z) (name : string) (fs : list (res (list (string * json)))) : fill :=
  enqueue_event (aguiCustom ts name (mustMarshal (object fs))).
Definition onApprovalRequested (now : nat → Z) (id name args : string) : fill :=
  custom (now 0%nat) "gollem.approval.requested" [put "toolCallId" id; put "toolName" name; put "argsJson" args].
Definition onApprovalResolved (now : nat → Z) (id name : string) (approved : bool) : fill :=
  custom (now 0%nat) "gollem.approval.resolved"
    [put "toolCallId" id; put "toolName" name; Ok [("approved", JBool approved)]].
Definition onDeferredRequested (now : nat → Z) (id name args : string) : fill :=
  custom (now 0%nat) "gollem.deferred.requested" [put "toolCallId" id; put "toolName" name; put "argsJson" args].
Definition onRunWaiting (now : nat → Z) (reason : string) : fill :=
  custom (now 0%nat) "gollem.run.waiting" [put "reason" reason].
Definition onDeferredResolved (now : nat → Z) (id name content : string) (isError : bool) : fill :=
  custom (now 0%nat) "gollem.deferred.resolved"
    [put "toolCallId" id; put "toolName" name; put "content" content; Ok [("isError", JBool isError)]].
Definition onRunResumed (now : nat → Z) (runID : string) : fill :=
  custom (now 0%nat) "gollem.run.resumed" [put "runId" runID].

(** The handler of a published event; the adapter does not subscribe to the others. *)
Definition handler (now : nat → Z) (runID : string) (ev : RunEvent) : fill :=
  match ev with
  | RunStartedEvent _ => onRunStarted now runID
  | RunCompletedEvent success deferred err => onRunCompleted now runID success deferred err
  | TurnStartedEvent n => onTurnStarted now n
  | TurnCompletedEvent n _ _ _ => onTurnCompleted now n
  | ToolCalledEvent id name args => onToolCalled now id name args
  | ToolCompletedEvent id _ result => onToolCompleted now id result
  | ToolFailedEvent id _ err => onToolFailed now id err
  | ApprovalRequestedEvent id name args => onApprovalRequested now id name args
  | ApprovalResolvedEvent id name approved => onApprovalResolved now id name approved
  | DeferredRequestedEvent id name args => onDeferredRequested now id name args
  | RunWaitingEvent reason => onRunWaiting now reason
  | DeferredResolvedEvent id name content isError => onDeferredResolved now id name content isError
  | RunResumedEvent => onRunResumed now runID
  | RetryScheduledEvent _ _ _ _ _ _ | ModelRequestStartedEvent _ _ | ModelResponseCompletedEvent _ _ _ _ _ _
  | ErrorRaisedEvent _ _ => skip_fill
  end.
