(* ===== verification/AguiStream.v ===== *)
(** * Streaming into the AG-UI adapter

    src/ext/agui/stream_consumer.go: [ConsumeStream] turns the parts of a streamed
    model response into text and reasoning messages of the adapter.  It runs in a
    goroutine of its own while the handlers of the adapter run in others, so it is a
    program over the calls it makes to the adapter: between two of them, and inside
    the one that does not hold the emission lock, the handlers may run.  The adapter
    is not nil, so that no message identifier is empty. *)

From S2P Require Import Prelude Errors Usage Messages AgentTypes AutoContext AgentTools AgentLoop Json Serialize Snapshot RunSetup Steer Stream AguiAdapter.

(** Parts that are not text or reasoning are never tracked. *)
Inductive streamPartKind := streamPartKindText | streamPartKindReasoning.
#[export] Instance streamPartKind_eq_dec : EqDecision streamPartKind.
Proof. solve_decision. Defined.

(** ** Programs over the adapter *)

Inductive sprog (A : Type) : Type :=
| SRet (a : A)
| SNextID (k : string → Z → sprog A)                       (* newStreamPartIdentity *)
| SVersion (k : Z → sprog A)                               (* currentStreamBoundaryVersion *)
| SActive (kind : streamPartKind) (id : string) (k : bool → sprog A) (* streamPartStillActive *)
| SDelta (kind : streamPartKind) (id delta : string) (k : sprog A)   (* EmitTextDelta, EmitReasoningDelta *)
| SEnd (kind : streamPartKind) (id : string) (k : sprog A).          (* emitStreamPartEnd *)
Arguments SRet {A} _.
Arguments SNextID {A} _.
Arguments SVersion {A} _.
Arguments SActive {A} _ _ _.
Arguments SDelta {A} _ _ _ _.
Arguments SEnd {A} _ _ _.

Fixpoint sbind {A B} (m : sprog A) (f : A → sprog B) : sprog B :=
  match m with
  | SRet a => f a
  | SNextID k => SNextID (λ id v, sbind (k id v) f)
  | SVersion k => SVersion (λ v, sbind (k v) f)
  | SActive kind id k => SActive kind id (λ b, sbind (k b) f)
  | SDelta kind id d k => SDelta kind id d (sbind k f)
  | SEnd kind id k => SEnd kind id (sbind k f)
  end.
#[export] Instance sprog_ret : MRet sprog := @SRet.
#[export] Instance sprog_bind : MBind sprog := λ A B f m, sbind m f.

(** ** The parts *)

Record streamPartState := MkStreamPart {
  sp_kind : streamPartKind; sp_messageID : string; sp_boundaryVersion : Z; sp_sawStart : bool;
  sp_emitted : bool; sp_closed : bool; sp_queued : bool; sp_pendingDeltas : list string;
}.
#[export] Instance streamPartState_eta : RecordEta streamPartState := λ p,
  MkStreamPart (sp_kind p) (sp_messageID p) (sp_boundaryVersion p) (sp_sawStart p) (sp_emitted p) (sp_closed p)
    (sp_queued p) (sp_pendingDeltas p).
Record streamKindState := MkStreamKind { sk_activeIndex : Z; sk_queue : list Z }.
#[export] Instance streamKindState_eta : RecordEta streamKindState := λ k,
  MkStreamKind (sk_activeIndex k) (sk_queue k).
Definition noActiveStreamPart : Z := -1.

(** The local variables of [ConsumeStream]; the map of kinds has its two entries. *)
Record Consumer := MkConsumer {
  co_parts : gmap Z streamPartState; co_text : streamKindState; co_reasoning : streamKindState;
}.
#[export] Instance Consumer_eta : RecordEta Consumer := λ c, MkConsumer (co_parts c) (co_text c) (co_reasoning c).
Definition NewConsumer : Consumer :=
  MkConsumer ∅ (MkStreamKind noActiveStreamPart []) (MkStreamKind noActiveStreamPart []).

Definition getStreamKindState (kind : streamPartKind) (c : Consumer) : streamKindState :=
  match kind with streamPartKindText => co_text c | streamPartKindReasoning => co_reasoning c end.
Definition set_kind (kind : streamPartKind) (ks : streamKindState) (c : Consumer) : Consumer :=
  match kind with
  | streamPartKindText => c <| co_text := ks |>
  | streamPartKindReasoning => c <| co_reasoning := ks |>
  end.
Definition set_active (kind : streamPartKind) (i : Z) (c : Consumer) : Consumer :=
  set_kind kind ((getStreamKindState kind c) <| sk_activeIndex := i |>) c.
Definition put_part (i : Z) (p : streamPartState) (c : Consumer) : Consumer := c <| co_parts ::= <[i := p]> |>.

(** ** Emitting *)

Fixpoint emit_deltas (kind : streamPartKind) (id : string) (deltas : list string) : sprog unit :=
  match deltas with [] => SRet tt | d :: ds => SDelta kind id d (emit_deltas kind id ds) end.
Definition emitStreamPartBufferedDeltas (p : streamPartState) : sprog streamPartState :=
  match sp_pendingDeltas p with
  | [] => SRet p
  | ds => emit_deltas (sp_kind p) (sp_messageID p) ds ≫= λ _, SRet (p <| sp_pendingDeltas := [] |> <| sp_emitted := true |>)
  end.

Definition emitStreamPartEnd (p : streamPartState) : sprog unit := SEnd (sp_kind p) (sp_messageID p) (SRet tt).
Definition emitEmptyStreamPartLifecycle (p : streamPartState) : sprog unit :=
  SDelta (sp_kind p) (sp_messageID p) "" (emitStreamPartEnd p).
Definition finalizeStreamPart (p : streamPartState) : sprog unit :=
  if sp_emitted p then emitStreamPartEnd p
  else if sp_sawStart p then emitEmptyStreamPartLifecycle p
  else SRet tt.

(** ** Queueing *)

Fixpoint dequeueNextStreamPart (parts : gmap Z streamPartState) (kind : streamPartKind) (queue : list Z)
    : list Z * option (Z * streamPartState) :=
  match queue with
  | [] => ([], None)
  | i :: queue =>
    match parts !! i with
    | Some p => if bool_decide (sp_kind p = kind) then (queue, Some (i, p <| sp_queued := false |>))
                else dequeueNextStreamPart parts kind queue
    | None => dequeueNextStreamPart parts kind queue
    end
  end.

(** The loop of [advanceStreamKind].  A round without an active part takes one from the
    queue, so the queue and two rounds bound the loop. *)
Fixpoint advance_loop (fuel : nat) (kind : streamPartKind) (c : Consumer) : sprog Consumer :=
  match fuel with
  | O => SRet c
  | S fuel =>
    let ks := getStreamKindState kind c in
    let start (c : Consumer) : sprog Consumer :=
      let i := sk_activeIndex (getStreamKindState kind c) in
      match co_parts c !! i with
      | Some p =>
        if bool_decide (sp_kind p = kind) then
          p ← emitStreamPartBufferedDeltas p;
          let c := put_part i p c in
          if negb (sp_closed p) then SRet c
          else
            finalizeStreamPart p ≫= λ _,
            advance_loop fuel kind (set_active kind noActiveStreamPart (c <| co_parts ::= delete i |>))
        else advance_loop fuel kind (set_active kind noActiveStreamPart c)
      | None => advance_loop fuel kind (set_active kind noActiveStreamPart c)
      end in
    if sk_activeIndex ks =? noActiveStreamPart then
      match dequeueNextStreamPart (co_parts c) kind (sk_queue ks) with
      | (queue, None) => SRet (set_kind kind (ks <| sk_queue := queue |>) c)
      | (queue, Some (i, p)) => start (put_part i p (set_kind kind (MkStreamKind i queue) c))
      end
    else start c
  end.
Definition advanceStreamKind (kind : streamPartKind) (c : Consumer) : sprog Consumer :=
  advance_loop (length (sk_queue (getStreamKindState kind c)) + 2) kind c.

Definition suppressStreamPartKind (kind : streamPartKind) (closeActive : bool) (c : Consumer) : sprog Consumer :=
  let i := sk_activeIndex (getStreamKindState kind c) in
  (if closeActive && negb (i =? noActiveStreamPart) then
     match co_parts c !! i with
     | Some p => if bool_decide (sp_kind p = kind) then finalizeStreamPart (p <| sp_closed := true |>) else SRet tt
     | None => SRet tt
     end
   else SRet tt) ≫= λ _,
  SRet (set_kind kind (MkStreamKind noActiveStreamPart [])
          (c <| co_parts ::= filter (λ '(_, p), sp_kind p ≠ kind) |>)).
Definition suppressRemainingStreamParts (c : Consumer) : sprog Consumer :=
  suppressStreamPartKind streamPartKindText true c ≫= suppressStreamPartKind streamPartKindReasoning true.

(** A fresh part: active if no part of its kind is, else queued. *)
Definition add_part (index : Z) (kind : streamPartKind) (messageID : string) (version : Z) (c : Consumer) : Consumer :=
  let p := MkStreamPart kind messageID version false false false false [] in
  let ks := getStreamKindState kind c in
  if sk_activeIndex ks =? noActiveStreamPart then
    set_kind kind (ks <| sk_activeIndex := index |>) (put_part index p c)
  else if negb (sk_activeIndex ks =? index) then
    set_kind kind (ks <| sk_queue ::= λ q, q ++ [index] |>) (put_part index (p <| sp_queued := true |>) c)
  else put_part index p c.
Definition ensureStreamPart (index : Z) (kind : streamPartKind) (c : Consumer) : sprog Consumer :=
  let fresh (c : Consumer) := SNextID (λ id version, SRet (add_part index kind id version c)) in
  match co_parts c !! index with
  | Some p => if bool_decide (sp_kind p = kind) then SRet c else suppressRemainingStreamParts c ≫= fresh
  | None => fresh c
  end.

(** The part at an index, which is there, is changed. *)
Definition alter_part (f : streamPartState → streamPartState) (index : Z) (c : Consumer) : Consumer :=
  c <| co_parts ::= alter f index |>.

Definition appendStreamPartDelta (index : Z) (kind : streamPartKind) (delta : string) (c : Consumer) : sprog Consumer :=
  c ← ensureStreamPart index kind c;
  advanceStreamKind kind
    (if String.eqb delta "" then c else alter_part (λ p, p <| sp_pendingDeltas ::= λ l, l ++ [delta] |>) index c).

Definition close_part (p : streamPartState) : streamPartState := p <| sp_closed := true |>.
Definition closeStreamPart (index : Z) (c : Consumer) : sprog Consumer :=
  match co_parts c !! index with
  | None => SRet c
  | Some p => advanceStreamKind (sp_kind p) (alter_part close_part index c)
  end.
Definition closeAllStreamParts (c : Consumer) : sprog Consumer :=
  advanceStreamKind streamPartKindText (c <| co_parts ::= fmap close_part |>) ≫=
  advanceStreamKind streamPartKindReasoning.

(** ** Following the boundaries the handlers set *)

Definition streamPartKindCrossedBoundary (parts : gmap Z streamPartState) (kind : streamPartKind) (version : Z) : bool :=
  existsb (λ p, bool_decide (sp_kind p = kind) && negb (sp_boundaryVersion p =? version)) (map_to_list parts).*2.

Definition sync_kind (version : Z) (kind : streamPartKind) (c : Consumer) : sprog Consumer :=
  if streamPartKindCrossedBoundary (co_parts c) kind version then suppressStreamPartKind kind false c
  else
    let i := sk_activeIndex (getStreamKindState kind c) in
    if i =? noActiveStreamPart then SRet c
    else match co_parts c !! i with
    | None => SRet (set_active kind noActiveStreamPart c)
    | Some p =>
      if negb (sp_emitted p) then SRet c
      else SActive (sp_kind p) (sp_messageID p) (λ still, if still then SRet c else suppressStreamPartKind kind false c)
    end.
Definition syncStreamPartsWithAdapter (c : Consumer) : sprog Consumer :=
  if bool_decide (co_parts c = ∅) then SRet c
  else SVersion (λ version, sync_kind version streamPartKindText c ≫= sync_kind version streamPartKindReasoning).

(** ** The loop over the stream *)

Definition start_part (index : Z) (kind : streamPartKind) (content : string) (c : Consumer) : sprog Consumer :=
  c ← ensureStreamPart index kind c;
  let c := alter_part (λ p, p <| sp_sawStart := true |>) index c in
  if String.eqb content "" then SRet c else appendStreamPartDelta index kind content c.

Definition consume_event (ev : StreamEvent) (c : Consumer) : sprog Consumer :=
  c ← syncStreamPartsWithAdapter c;
  match ev with
  | PartStartEvent i (TextPart content) => start_part i streamPartKindText content c
  | PartStartEvent i (ThinkingPart content _) => start_part i streamPartKindReasoning content c
  | PartStartEvent _ _ => SRet c
  | PartDeltaEvent i (TextPartDelta d) => appendStreamPartDelta i streamPartKindText d c
  | PartDeltaEvent i (ThinkingPartDelta d) => appendStreamPartDelta i streamPartKindReasoning d c
  | PartDeltaEvent _ _ => SRet c
  | PartEndEvent i => closeStreamPart i c
  end.

(** The iterator yields events, nil events or an error, which ends the loop. *)
Fixpoint consume_loop (events : list (res (option StreamEvent))) (c : Consumer) : sprog (option error) :=
  match events with
  | [] => (syncStreamPartsWithAdapter c ≫= closeAllStreamParts) ≫= λ _, SRet None
  | Err e :: _ => closeAllStreamParts c ≫= λ _, SRet (Some e)
  | Ok None :: events => consume_loop events c
  | Ok (Some ev) :: events => consume_event ev c ≫= consume_loop events
  end.
Definition ConsumeStream (events : list (res (option StreamEvent))) : sprog (option error) :=
  consume_loop events NewConsumer.

(** ** Running beside the handlers

    [sh_pending] is the batch of the handler that holds the emission lock and has not
    sent it yet; [sh_sent] is everything submitted, in order, and [sh_out] the part of
    it submitted before the adapter was closed, which is what listeners get. *)
Record Shared := MkShared {
  sh_adapter : Adapter; sh_pending : option (list AGUIEvent); sh_sent : list AGUIEvent; sh_out : list AGUIEvent;
}.
#[export] Instance Shared_eta : RecordEta Shared := λ s,
  MkShared (sh_adapter s) (sh_pending s) (sh_sent s) (sh_out s).

Definition send_batch (batch : list AGUIEvent) (s : Shared) : Shared :=
  let s := s <| sh_sent ::= λ l, l ++ batch |> in
  if ad_closed (sh_adapter s) then s else s <| sh_out ::= λ l, l ++ batch |>.

(** What other goroutines do: a handler fills its batch, which waits while another
    handler holds the emission lock; it sends; the adapter is closed. *)
Inductive EnvStep :=
| HBuild (now : nat → Z) (runID : string) (ev : RunEvent)
| HSend
| HClose.
Definition release_emit (s : Shared) : Shared :=
  match sh_pending s with Some batch => send_batch batch (s <| sh_pending := None |>) | None => s end.
Definition env_step (e : EnvStep) (s : Shared) : Shared :=
  match e with
  | HBuild now runID ev =>
    match sh_pending s with
    | Some _ => s
    | None => let '(a, batch) := handler now runID ev (sh_adapter s) in
              s <| sh_adapter := a |> <| sh_pending := Some batch |>
    end
  | HSend => release_emit s
  | HClose => s <| sh_adapter ::= CloseAdapter |>
  end.
Definition env_steps (es : list EnvStep) (s : Shared) : Shared := foldl (λ s e, env_step e s) s es.

(** The steps of the others before a call, and the clock of the call. *)
Record Slice := MkSlice { sl_env : list EnvStep; sl_now : nat → Z }.
Definition next_slice (sched : list Slice) : Slice * list Slice :=
  match sched with [] => (MkSlice [] (λ _, 0), []) | sl :: sched => (sl, sched) end.

Definition emit_delta (kind : streamPartKind) (now : nat → Z) (id delta : string) : fill :=
  match kind with
  | streamPartKindText => EmitTextDelta now id delta
  | streamPartKindReasoning => EmitReasoningDelta now id delta
  end.
(** [emitBatch] first waits for the emission lock. *)
Definition emitBatch (f : fill) (s : Shared) : Shared :=
  let s := release_emit s in
  let '(a, batch) := f (sh_adapter s) in send_batch batch (s <| sh_adapter := a |>).
(** The part of [emitStreamPartEnd] under the adapter's lock. *)
Definition end_fill (kind : streamPartKind) (ts : Z) (id : string) : fill := λ a,
  match kind with
  | streamPartKindText =>
    if negb (String.eqb (ad_activeMessageID a) id) then (a, [])
    else (a <| ad_activeMessageID := "" |>, [aguiTextMessageEnd ts id])
  | streamPartKindReasoning =>
    if negb (String.eqb (ad_activeReasoningID a) id) then (a, [])
    else (a <| ad_activeReasoningID := "" |>, [aguiReasoningMessageEnd ts id; aguiReasoningEnd ts id])
  end.
Definition active_id (kind : streamPartKind) (a : Adapter) : string :=
  match kind with streamPartKindText => ad_activeMessageID a | streamPartKindReasoning => ad_activeReasoningID a end.

Fixpoint run_consumer {A} (p : sprog A) (sched : list Slice) (s : Shared) : Shared * A :=
  match p with
  | SRet a => (s, a)
  | SNextID k =>
    let '(sl, sched) := next_slice sched in let s := env_steps (sl_env sl) s in
    let '(a, id) := nextMessageID (sh_adapter s) in
    run_consumer (k id (ad_streamBoundaryVersion a)) sched (s <| sh_adapter := a |>)
  | SVersion k =>
    let '(sl, sched) := next_slice sched in let s := env_steps (sl_env sl) s in
    run_consumer (k (ad_streamBoundaryVersion (sh_adapter s))) sched s
  | SActive kind id k =>
    let '(sl, sched) := next_slice sched in let s := env_steps (sl_env sl) s in
    run_consumer (k (String.eqb (active_id kind (sh_adapter s)) id)) sched s
  | SDelta kind id delta k =>
    let '(sl, sched) := next_slice sched in let s := env_steps (sl_env sl) s in
    run_consumer k sched (emitBatch (emit_delta kind (sl_now sl) id delta) s)
  | SEnd kind id k =>
    let '(sl, sched) := next_slice sched in let s := env_steps (sl_env sl) s in
    let '(a, batch) := end_fill kind (sl_now sl 0%nat) id (sh_adapter s) in
    let s := s <| sh_adapter := a |> in
    let '(sl, sched) := next_slice sched in let s := env_steps (sl_env sl) s in
    run_consumer k sched (send_batch batch s)
  end.

Definition shared_start (threadID : string) : Shared := MkShared (NewAdapter threadID) None [] [].
