(* ===== verification/AguiStreamSafety.v ===== *)
(** * Messages of the AG-UI stream are bracketed

    [messages_bracketed]: whatever the handlers do while [ConsumeStream] runs, every
    text and reasoning message is started before it gets content, gets none after its
    end, and is not started while it is open, and the events of a tool call are not
    torn apart.  The proof is rely-guarantee: an invariant of the consumer and the
    shared state that every step of the handlers keeps, and a logic for programs over
    the adapter in which it is assumed before every call. *)

From S2P Require Import Prelude Errors Usage Messages AgentTypes AutoContext AgentTools AgentLoop Json Serialize Snapshot RunSetup Steer Stream AguiAdapter AguiStream.

(** ** The protocol of one message *)

Inductive phase := PClosed | POpening | POpen | PClosing.
#[export] Instance phase_eq_dec : EqDecision phase.
Proof. solve_decision. Defined.

(** The phase of a message after an event about it; [None] is a violation. *)
Definition text_event (ev : AGUIEvent) (ph : phase) : option (string * option phase) :=
  match ev with
  | aguiTextMessageStart _ m _ => Some (m, match ph with PClosed => Some POpen | _ => None end)
  | aguiTextMessageContent _ m _ => Some (m, match ph with POpen => Some POpen | _ => None end)
  | aguiTextMessageEnd _ m => Some (m, match ph with POpen => Some PClosed | _ => None end)
  | _ => None
  end.
Definition reasoning_event (ev : AGUIEvent) (ph : phase) : option (string * option phase) :=
  match ev with
  | aguiReasoningStart _ m => Some (m, match ph with PClosed => Some POpening | _ => None end)
  | aguiReasoningMessageStart _ m _ => Some (m, match ph with POpening => Some POpen | _ => None end)
  | aguiReasoningMessageContent _ m _ => Some (m, match ph with POpen => Some POpen | _ => None end)
  | aguiReasoningMessageEnd _ m => Some (m, match ph with POpen => Some PClosing | _ => None end)
  | aguiReasoningEnd _ m => Some (m, match ph with PClosing => Some PClosed | _ => None end)
  | _ => None
  end.
Definition message_event (kind : streamPartKind) : AGUIEvent → phase → option (string * option phase) :=
  match kind with streamPartKindText => text_event | streamPartKindReasoning => reasoning_event end.
Definition message_step (kind : streamPartKind) (m : string) (ph : option phase) (ev : AGUIEvent) : option phase :=
  ph ← ph;
  match message_event kind ev ph with
  | Some (m', next) => if String.eqb m' m then next else Some ph
  | None => Some ph
  end.
Definition phase_from (kind : streamPartKind) (m : string) (ph : option phase) (l : list AGUIEvent) : option phase :=
  foldl (message_step kind m) ph l.
Definition phase_of (kind : streamPartKind) (m : string) (l : list AGUIEvent) : option phase :=
  phase_from kind m (Some PClosed) l.

(** Tool calls: start, arguments and end follow one another. *)
Definition tool_step (st : option (option (string * bool))) (ev : AGUIEvent) : option (option (string * bool)) :=
  st ← st;
  match ev, st with
  | aguiToolCallStart _ id _, None => Some (Some (id, false))
  | aguiToolCallArgs _ id _, Some (id', false) => if String.eqb id id' then Some (Some (id, true)) else None
  | aguiToolCallEnd _ id, Some (id', _) => if String.eqb id id' then Some None else None
  | (aguiToolCallStart _ _ _ | aguiToolCallArgs _ _ _ | aguiToolCallEnd _ _), _ => None
  | _, None => Some None
  | _, Some _ => None
  end.
Definition tools_from (st : option (option (string * bool))) (l : list AGUIEvent) := foldl tool_step st l.
Definition tools_done (l : list AGUIEvent) : Prop := tools_from (Some None) l = Some None.

(** The stream a client may see. *)
Definition protocol_ok (l : list AGUIEvent) : Prop :=
  (∀ kind m, is_Some (phase_of kind m l)) ∧ is_Some (tools_from (Some None) l).

Lemma phase_from_app kind m ph l l' : phase_from kind m ph (l ++ l') = phase_from kind m (phase_from kind m ph l) l'.
Proof. apply foldl_app. Qed.
Lemma tools_from_app st l l' : tools_from st (l ++ l') = tools_from (tools_from st l) l'.
Proof. apply foldl_app. Qed.
Lemma phase_from_None kind m l : phase_from kind m None l = None.
Proof. by induction l. Qed.
Lemma tools_from_None l : tools_from None l = None.
Proof. by induction l. Qed.
Lemma tools_done_app l l' : tools_done l → tools_done l' → tools_done (l ++ l').
Proof. unfold tools_done. intros H H'. by rewrite tools_from_app, H. Qed.

Lemma protocol_prefix l l' : protocol_ok (l ++ l') → protocol_ok l.
Proof.
  intros [Hm Ht]. split.
  - intros kind m. specialize (Hm kind m). unfold phase_of in *. rewrite phase_from_app in Hm.
    destruct (phase_from kind m (Some PClosed) l); [done|]. rewrite phase_from_None in Hm. by destruct Hm.
  - rewrite tools_from_app in Ht. destruct (tools_from (Some None) l); [done|].
    rewrite tools_from_None in Ht. by destruct Ht.
Qed.

(** Events that are not about a message. *)
Definition quiet (kind : streamPartKind) (m : string) (l : list AGUIEvent) : Prop :=
  ∀ ph, phase_from kind m (Some ph) l = Some ph.
Definition closes (kind : streamPartKind) (m : string) (l : list AGUIEvent) : Prop :=
  phase_from kind m (Some POpen) l = Some PClosed.

Lemma quiet_from kind m l ph : quiet kind m l → phase_from kind m ph l = ph.
Proof. destruct ph; [done|]. intros _. apply phase_from_None. Qed.
Lemma quiet_nil kind m : quiet kind m [].
Proof. done. Qed.
Lemma quiet_app kind m l l' : quiet kind m l → quiet kind m l' → quiet kind m (l ++ l').
Proof. intros H H' ph. rewrite phase_from_app, H. apply H'. Qed.

(** Two batches of which one is quiet commute. *)
Lemma phase_swap kind m l l1 l2 : quiet kind m l1 ∨ quiet kind m l2 →
  phase_of kind m (l ++ l1 ++ l2) = phase_of kind m (l ++ l2 ++ l1).
Proof.
  intros H. unfold phase_of. rewrite !phase_from_app.
  destruct H as [H|H]; rewrite !(quiet_from kind m _ _ H); done.
Qed.

(** ** What a handler does to the messages

    It leaves them alone, or ends the active ones. *)
Record handled (a a' : Adapter) (b : list AGUIEvent) : Prop := {
  h_thread : ad_threadID a' = ad_threadID a;
  h_counter : ad_msgCounter a ≤ ad_msgCounter a';
  h_closed : ad_closed a' = ad_closed a;
  h_tools : tools_done b;
  h_messages :
    (∀ kind, active_id kind a' = active_id kind a) ∧ (∀ kind m, quiet kind m b) ∨
    (∀ kind, active_id kind a' = "") ∧
    (∀ kind m, if bool_decide (active_id kind a = m ∧ m ≠ "") then closes kind m b else quiet kind m b);
}.

Lemma string_neq_eqb s s' : s ≠ s' → String.eqb s s' = false.
Proof. apply String.eqb_neq. Qed.

Lemma close_active_handled ts a :
  handled a (enqueueCloseActiveMessage ts a).1 (enqueueCloseActiveMessage ts a).2.
Proof.
  destruct a as [th ls un t r n v cl]. unfold enqueueCloseActiveMessage. cbn.
  destruct (String.eqb_spec t "") as [->|Ht]; cbn; destruct (String.eqb_spec r "") as [->|Hr]; cbn;
    split; try done; try apply Z.le_refl; right; (split; [by intros []|]).
  all: intros [] m; cbn; case_bool_decide as Hm; unfold closes, quiet, phase_from; cbn; try naive_solver.
  all: try (destruct Hm as [<- Hm]; by rewrite ?String.eqb_refl; cbn; rewrite ?String.eqb_refl).
  all: intros ph; cbn; rewrite ?string_neq_eqb by naive_solver; done.
Qed.

(** A batch without message events after one that ended them. *)
Lemma handled_then a a' b a'' b' :
  handled a a' b → ad_threadID a'' = ad_threadID a' → ad_msgCounter a' ≤ ad_msgCounter a'' →
  ad_closed a'' = ad_closed a' → (∀ kind, active_id kind a'' = active_id kind a') →
  (∀ kind m, quiet kind m b') → tools_done b' → handled a a'' (b ++ b').
Proof.
  intros [H1 H2 H3 H4 H5] E1 E2 E3 E4 Hq Ht. split; try congruence; try lia; [by apply tools_done_app|].
  destruct H5 as [[Ha Hb]|[Ha Hb]]; [left|right]; (split; [intros kind; by rewrite E4|]); intros kind m.
  - by apply quiet_app.
  - specialize (Hb kind m). case_bool_decide; [|by apply quiet_app].
    unfold closes in *. rewrite phase_from_app, Hb. apply Hq.
Qed.

Lemma handled_refl a : handled a a [].
Proof. split; try done. by left. Qed.

Lemma tool_batch_done ts id name (args : string) :
  tools_done ([aguiToolCallStart ts id name] ++
              ((if String.eqb args "" then [] else [aguiToolCallArgs ts id args]) ++ [aguiToolCallEnd ts id])).
Proof. unfold tools_done, tools_from. destruct (String.eqb args ""); cbn; by rewrite ?String.eqb_refl; cbn; rewrite ?String.eqb_refl. Qed.

(** The goals of [handled_then] for events that are not about messages. *)
Ltac no_messages := first [done | apply Z.le_refl | cbn; lia | by intros [] | intros [] ? ?; reflexivity | reflexivity].

Lemma handler_handled now runID ev a : handled a (handler now runID ev a).1 (handler now runID ev a).2.
Proof.
  destruct ev; cbn [handler]; try (rewrite <-(app_nil_l (snd _)); apply (handled_then a a []);
    [apply handled_refl|no_messages..]).
  - (* ToolCalled *)
    unfold onToolCalled, then_fill. pose proof (close_active_handled (now 0%nat) a) as H.
    destruct (enqueueCloseActiveMessage (now 0%nat) a) as [a' b]. cbn in H.
    pose proof (tool_batch_done (now 1%nat) toolCallID toolName argsJSON) as Ht.
    destruct (String.eqb argsJSON ""); cbn -[String.eqb] in *; eapply handled_then; no_messages.
  - (* TurnCompleted *)
    unfold onTurnCompleted, then_fill. pose proof (close_active_handled (now 0%nat) a) as H.
    destruct (enqueueCloseActiveMessage (now 0%nat) a) as [a' b]. cbn in *.
    eapply handled_then; no_messages.
  - (* RunCompleted *)
    unfold onRunCompleted, then_fill. pose proof (close_active_handled (now 0%nat) a) as H.
    destruct (enqueueCloseActiveMessage (now 0%nat) a) as [a' b]. cbn in *.
    destruct (success || deferred); eapply handled_then; no_messages.
Qed.

Lemma handled_quiet a a' b kind m : handled a a' b →
  quiet kind m b ∨ (active_id kind a = m ∧ m ≠ "" ∧ closes kind m b ∧ active_id kind a' = "").
Proof.
  intros [_ _ _ _ [[_ Hq]|[Ha Hc]]]; [by left|]. specialize (Hc kind m).
  case_bool_decide; [right|by left]. naive_solver.
Qed.
Lemma handled_active a a' b kind : handled a a' b → active_id kind a' ≠ "" →
  active_id kind a' = active_id kind a ∧ ∀ m, quiet kind m b.
Proof. intros [_ _ _ _ [[Ha Hq]|[Ha _]]] Hne; [by split|]. by destruct Hne. Qed.

(** ** The invariant *)

#[local] Arguments phase_of : simpl never.
#[local] Arguments phase_from : simpl never.
#[local] Arguments tools_done : simpl never.

Definition known (a : Adapter) (m : string) : Prop := ∃ n, 0 < n ≤ ad_msgCounter a ∧ m = message_id a n.
Lemma message_id_nonempty a n : message_id a n ≠ "".
Proof. done. Qed.
Lemma message_id_inj a n n' : message_id a n = message_id a n' → n = n'.
Proof.
  unfold message_id. intros H. cbn in H. by simplify_eq.
Qed.

Definition pending_batch (s : Shared) : list AGUIEvent := default [] (sh_pending s).
(** Everything submitted or about to be: [own] is the batch the consumer has built and
    not sent. *)
Definition line (s : Shared) (own : list AGUIEvent) : list AGUIEvent := sh_sent s ++ pending_batch s ++ own.
Notation phase_in kind m s own := (phase_of kind m (line s own)).

Record SharedInv (s : Shared) (own : list AGUIEvent) : Prop := {
  sv_phase kind m : phase_in kind m s own = Some PClosed ∨ phase_in kind m s own = Some POpen;
  sv_active kind : active_id kind (sh_adapter s) ≠ "" →
    phase_in kind (active_id kind (sh_adapter s)) s own = Some POpen;
  sv_known kind m : phase_in kind m s own = Some POpen → known (sh_adapter s) m;
  sv_quiet kind : active_id kind (sh_adapter s) ≠ "" →
    quiet kind (active_id kind (sh_adapter s)) (pending_batch s) ∧ quiet kind (active_id kind (sh_adapter s)) own;
  sv_apart kind m : quiet kind m (pending_batch s) ∨ quiet kind m own;
  sv_tools : tools_done (sh_sent s) ∧ tools_done (pending_batch s) ∧ tools_done own;
  sv_out : sh_out s `prefix_of` sh_sent s ∧ (ad_closed (sh_adapter s) = false → sh_out s = sh_sent s);
  sv_counter : 0 ≤ ad_msgCounter (sh_adapter s);
}.

Record PartsInv (c : Consumer) (s : Shared) (own : list AGUIEvent) : Prop := {
  pv_index i p : co_parts c !! i = Some p → 0 ≤ i;
  pv_known i p : co_parts c !! i = Some p → known (sh_adapter s) (sp_messageID p);
  pv_distinct i j p q :
    co_parts c !! i = Some p → co_parts c !! j = Some q → sp_messageID p = sp_messageID q → i = j;
  pv_open i p : co_parts c !! i = Some p → phase_in (sp_kind p) (sp_messageID p) s own = Some POpen →
    i = sk_activeIndex (getStreamKindState (sp_kind p) c) ∧
    active_id (sp_kind p) (sh_adapter s) = sp_messageID p;
}.

Lemma known_grows a a' m : ad_threadID a' = ad_threadID a → ad_msgCounter a ≤ ad_msgCounter a' → known a m → known a' m.
Proof. intros Ht Hc (n & Hn & ->). exists n. split; [lia|]. unfold message_id. by rewrite Ht. Qed.
Lemma known_nonempty a m : known a m → m ≠ "".
Proof. intros (n & _ & ->). apply message_id_nonempty. Qed.

(** A handler's batch enters the line: the active messages it ends are closed, the
    phase of every other message stays. *)
Lemma handled_phase s own a' b kind m :
  SharedInv s own → sh_pending s = None → handled (sh_adapter s) a' b →
  quiet kind m b ∧ phase_of kind m (sh_sent s ++ b ++ own) = phase_in kind m s own ∨
  (active_id kind (sh_adapter s) = m ∧ m ≠ "" ∧ active_id kind a' = "" ∧
   phase_of kind m (sh_sent s ++ b ++ own) = Some PClosed).
Proof.
  intros Hi Hp Hh. destruct (handled_quiet _ _ _ kind m Hh) as [Hq|(Ha & Hm & Hc & Ha')].
  - left. split; [done|]. unfold line, pending_batch. rewrite Hp. cbn. unfold phase_of.
    by rewrite !phase_from_app, (quiet_from kind m b).
  - right. split_and!; [done..|]. destruct (sv_quiet s own Hi kind) as [_ Hq]; [by rewrite Ha|].
    pose proof (sv_active s own Hi kind ltac:(by rewrite Ha)) as Ho. rewrite Ha in Hq, Ho.
    unfold line, pending_batch in Ho. rewrite Hp in Ho. cbn in Ho. unfold phase_of in *.
    rewrite !phase_from_app in *. rewrite (quiet_from kind m own) in * by done. by rewrite Ho.
Qed.

(** A step that opens no message and keeps the open ones active keeps the parts. *)
Lemma parts_transfer c s s' own own' :
  PartsInv c s own → (∀ m, known (sh_adapter s) m → known (sh_adapter s') m) →
  (∀ kind m, known (sh_adapter s) m → phase_in kind m s' own' = Some POpen →
     phase_in kind m s own = Some POpen ∧
     (active_id kind (sh_adapter s) = m → active_id kind (sh_adapter s') = m)) →
  PartsInv c s' own'.
Proof.
  intros [H1 H2 H3 H4] Hk Ho. split; eauto. intros i p Hp Hopen.
  destruct (Ho _ _ (H2 _ _ Hp) Hopen) as [Hb Ha]. destruct (H4 _ _ Hp Hb) as [Hi Hact]. auto.
Qed.

Lemma build_inv s own a' b : SharedInv s own → sh_pending s = None → handled (sh_adapter s) a' b →
  let s' := s <| sh_adapter := a' |> <| sh_pending := Some b |> in
  SharedInv s' own ∧ ∀ c, PartsInv c s own → PartsInv c s' own.
Proof.
  intros Hi Hp Hh. pose proof Hh as [E1 E2 E3 E4 _].
  assert (Hphase : ∀ kind m, quiet kind m b ∧ phase_of kind m (sh_sent s ++ b ++ own) = phase_in kind m s own ∨
    (active_id kind (sh_adapter s) = m ∧ m ≠ "" ∧ active_id kind a' = "" ∧
     phase_of kind m (sh_sent s ++ b ++ own) = Some PClosed)).
  { intros. by apply handled_phase. }
  assert (Hgrow : ∀ m, known (sh_adapter s) m → known a' m) by (intros m; by apply known_grows).
  cbn. split.
  - split; unfold line, pending_batch; cbn.
    + intros kind m. destruct (Hphase kind m) as [[_ ->]|(_ & _ & _ & ->)]; [apply (sv_phase s own Hi)|by left].
    + intros kind Hne. destruct (handled_active _ _ _ kind Hh Hne) as [Ha Hq]. rewrite Ha in *.
      destruct (Hphase kind (active_id kind (sh_adapter s))) as [[_ ->]|(_ & _ & Hx & _)]; [by apply (sv_active s own Hi)|].
      by rewrite Ha in Hx.
    + intros kind m Ho. apply Hgrow. destruct (Hphase kind m) as [[_ E]|(_ & _ & _ & E)]; rewrite E in Ho; [|done].
      by apply (sv_known s own Hi) in Ho.
    + intros kind Hne. destruct (handled_active _ _ _ kind Hh Hne) as [Ha Hq]. rewrite Ha in *.
      split; [done|]. by apply (sv_quiet s own Hi).
    + intros kind m. destruct (Hphase kind m) as [[Hq _]|(Ha & Hm & _ & _)]; [by left|right].
      destruct (sv_quiet s own Hi kind) as [_ Hq]; [by rewrite Ha|by rewrite Ha in Hq].
    + destruct (sv_tools s own Hi) as (? & _ & ?). done.
    + rewrite E3. apply (sv_out s own Hi).
    + pose proof (sv_counter s own Hi). lia.
  - intros c Hc. apply (parts_transfer c s _ own own Hc); [exact Hgrow|]. unfold line, pending_batch. cbn.
    intros kind m Hk Ho. destruct (Hphase kind m) as [[_ E]|(_ & _ & _ & E)]; rewrite E in Ho; [|done].
    split; [done|]. intros Ha. subst m. destruct (String.eqb_spec (active_id kind a') "") as [H0|Hne].
    + destruct (h_messages _ _ _ Hh) as [[Hsame _]|[_ Hc']]; [by rewrite Hsame|].
      specialize (Hc' kind (active_id kind (sh_adapter s))). pose proof (known_nonempty _ _ Hk).
      rewrite bool_decide_eq_true_2 in Hc' by done.
      destruct (Hphase kind (active_id kind (sh_adapter s))) as [[Hq _]|(_ & _ & _ & E')]; [|by rewrite E' in E; rewrite <-E in Ho].
      exfalso. specialize (Hq POpen). unfold closes in Hc'. by rewrite Hc' in Hq.
    + by apply (handled_active _ _ _ kind Hh).
Qed.

(** Sending a batch of the line: the handler's, or the consumer's. *)
Lemma send_out batch s l :
  sh_out s `prefix_of` sh_sent s ∧ (ad_closed (sh_adapter s) = false → sh_out s = sh_sent s) →
  l = sh_sent s ++ batch →
  sh_out (send_batch batch s) `prefix_of` l ∧
  (ad_closed (sh_adapter s) = false → sh_out (send_batch batch s) = l).
Proof.
  intros [[k Hk] Ho] ->. unfold send_batch. cbn. destruct (ad_closed (sh_adapter s)); cbn.
  - split; [|done]. exists (k ++ batch). by rewrite Hk, (assoc_L (++)).
  - by rewrite Ho.
Qed.
Lemma send_batch_adapter batch s : sh_adapter (send_batch batch s) = sh_adapter s.
Proof. unfold send_batch. cbn. by destruct (ad_closed _). Qed.
Lemma send_batch_sent batch s : sh_sent (send_batch batch s) = sh_sent s ++ batch.
Proof. unfold send_batch. cbn. by destruct (ad_closed _). Qed.
Lemma send_batch_pending batch s : sh_pending (send_batch batch s) = sh_pending s.
Proof. unfold send_batch. cbn. by destruct (ad_closed _). Qed.

(** Two states with the same adapter, and lines that agree message by message. *)
Lemma same_line s s' own own' :
  sh_adapter s' = sh_adapter s → (∀ kind m, phase_in kind m s' own' = phase_in kind m s own) →
  ∀ c, PartsInv c s own → PartsInv c s' own'.
Proof. intros Ha Hl c Hc. apply (parts_transfer c s s' own own' Hc); rewrite Ha; [done|]. intros. by rewrite <-Hl. Qed.

Lemma release_inv s own : SharedInv s own →
  SharedInv (release_emit s) own ∧ ∀ c, PartsInv c s own → PartsInv c (release_emit s) own.
Proof.
  intros Hi. unfold release_emit. destruct (sh_pending s) as [b|] eqn:Hp; [|done].
  set (s' := send_batch _ _).
  assert (sh_adapter s' = sh_adapter s) as Ha by (unfold s'; by rewrite send_batch_adapter).
  assert (sh_sent s' = sh_sent s ++ b) as Hs by (unfold s'; by rewrite send_batch_sent).
  assert (pending_batch s' = []) as Hp' by (unfold pending_batch, s'; by rewrite send_batch_pending).
  assert (Hl : ∀ own, line s' own = line s own).
  { intros o. unfold line. rewrite Hp', Hs. unfold pending_batch. rewrite Hp. cbn. by rewrite <-(assoc_L (++)). }
  split; [|by apply same_line; [|intros; rewrite Hl]]. destruct Hi as [H1 H2 H3 H4 H5 H6 H7 H8].
  split; intros; rewrite ?Hl, ?Ha, ?Hp', ?Hs in *; eauto.
  - split; [apply quiet_nil|by apply H4].
  - left. apply quiet_nil.
  - destruct H6 as (? & Ht & ?). unfold pending_batch in Ht. rewrite Hp in Ht. split_and!; [by apply tools_done_app|done..].
  - exact (send_out b (MkShared (sh_adapter s) None (sh_sent s) (sh_out s)) _ H7 eq_refl).
Qed.

Lemma env_step_inv e s own : SharedInv s own →
  SharedInv (env_step e s) own ∧ ∀ c, PartsInv c s own → PartsInv c (env_step e s) own.
Proof.
  intros Hi. destruct e as [now runID ev| |]; cbn.
  - destruct (sh_pending s) eqn:Hp; [done|]. pose proof (handler_handled now runID ev (sh_adapter s)) as Hh.
    destruct (handler now runID ev (sh_adapter s)) as [a' b]. by apply build_inv.
  - by apply release_inv.
  - assert (Hact : ∀ kind, active_id kind (CloseAdapter (sh_adapter s)) = active_id kind (sh_adapter s)) by (by intros []).
    split.
    + destruct Hi as [H1 H2 H3 H4 H5 H6 [H7 _] H8]. split; cbn; try done; intros kind; rewrite Hact; auto.
    + intros c Hc. apply (parts_transfer c s _ own own Hc); [done|]. cbn. intros kind m _ Ho. by rewrite Hact.
Qed.

(** ** A logic for programs over the adapter

    [cwp E p Q s]: from [s], however the others run in between with steps in [E], the
    program ends with a result and a state in [Q]. *)
Definition cwp (E : EnvStep → Prop) {A} (p : sprog A) (Q : A → Shared → Prop) (s : Shared) : Prop :=
  ∀ sched, Forall (λ sl, Forall E (sl_env sl)) sched →
           Q (run_consumer p sched s).2 (run_consumer p sched s).1.
Definition env_reach (E : EnvStep → Prop) (s s' : Shared) : Prop := ∃ es, Forall E es ∧ s' = env_steps es s.

Section logic.
Context {E : EnvStep → Prop}.
Notation slice_ok := (λ sl, Forall E (sl_env sl)).

Lemma next_slice_ok sched : Forall slice_ok sched →
  Forall E (sl_env (next_slice sched).1) ∧ Forall slice_ok (next_slice sched).2.
Proof. destruct 1; [by split; constructor|done]. Qed.

(** The first call of a program, and the programs after it. *)
Definition after_call {A} (p : sprog A) (s s' : Shared) (p' : sprog A) (s2 : Shared) : Prop :=
  match p with
  | SRet _ => False
  | SNextID k =>
    p' = k (nextMessageID (sh_adapter s')).2 (ad_streamBoundaryVersion (nextMessageID (sh_adapter s')).1) ∧
    s2 = s' <| sh_adapter := (nextMessageID (sh_adapter s')).1 |>
  | SVersion k => p' = k (ad_streamBoundaryVersion (sh_adapter s')) ∧ s2 = s'
  | SActive kind id k => p' = k (String.eqb (active_id kind (sh_adapter s')) id) ∧ s2 = s'
  | SDelta kind id d k => p' = k ∧ ∃ now, s2 = emitBatch (emit_delta kind now id d) s'
  | SEnd kind id k => p' = k ∧ ∃ ts s'',
      env_reach E (s' <| sh_adapter := (end_fill kind ts id (sh_adapter s')).1 |>) s'' ∧
      s2 = send_batch (end_fill kind ts id (sh_adapter s')).2 s''
  end.

Lemma cwp_ret {A} (a : A) Q s : cwp E (SRet a) Q s ↔ Q a s.
Proof. split; [intros H; by apply (H [])|by intros H sched _]. Qed.

Lemma cwp_call {A} (p : sprog A) Q s : (∀ a, p ≠ SRet a) →
  cwp E p Q s ↔ ∀ s' p' s2, env_reach E s s' → after_call p s s' p' s2 → cwp E p' Q s2.
Proof.
  intros Hp. split.
  - intros H s' p' s2 (es & Hes & ->) Hc sched Hs.
    destruct p as [a|k|k|kind id k|kind id d k|kind id k]; cbn in Hc; [by destruct (Hp a)|..].
    + destruct Hc as [-> ->]. exact (H (MkSlice es (λ _, 0) :: sched) ltac:(by constructor)).
    + destruct Hc as [-> ->]. exact (H (MkSlice es (λ _, 0) :: sched) ltac:(by constructor)).
    + destruct Hc as [-> ->]. exact (H (MkSlice es (λ _, 0) :: sched) ltac:(by constructor)).
    + destruct Hc as [-> [now ->]]. exact (H (MkSlice es now :: sched) ltac:(by constructor)).
    + destruct Hc as [-> (ts & s'' & (es' & Hes' & ->) & ->)].
      specialize (H (MkSlice es (λ _, ts) :: MkSlice es' (λ _, 0) :: sched)
        ltac:(by constructor; [|constructor])). revert H.
      cbn [run_consumer next_slice sl_env sl_now]. by destruct (end_fill kind ts id (sh_adapter (env_steps es s))).
  - intros H sched Hs. pose proof (next_slice_ok sched Hs) as [Hes Hs'].
    destruct p as [a|k|k|kind id k|kind id d k|kind id k]; cbn; [by destruct (Hp a)|..];
      destruct (next_slice sched) as [sl sched'] eqn:Hsl; cbn in Hes, Hs';
      (assert (env_reach E s (env_steps (sl_env sl) s)) as Hr by (by exists (sl_env sl))).
    + by apply (H _ _ _ Hr (conj eq_refl eq_refl)).
    + by apply (H _ _ _ Hr (conj eq_refl eq_refl)).
    + by apply (H _ _ _ Hr (conj eq_refl eq_refl)).
    + apply (H _ _ _ Hr); [|done]. by split; [|exists (sl_now sl)].
    + pose proof (next_slice_ok sched' Hs') as [Hes2 Hs2].
      destruct (next_slice sched') as [sl2 sched2]. cbn in Hes2, Hs2.
      specialize (H _ k (send_batch (end_fill kind (sl_now sl 0%nat) id (sh_adapter (env_steps (sl_env sl) s))).2
        (env_steps (sl_env sl2) ((env_steps (sl_env sl) s)
           <| sh_adapter := (end_fill kind (sl_now sl 0%nat) id (sh_adapter (env_steps (sl_env sl) s))).1 |>))) Hr).
      destruct (end_fill kind (sl_now sl 0%nat) id (sh_adapter (env_steps (sl_env sl) s))) as [a b] eqn:Hf.
      apply H; [|done]. split; [done|]. exists (sl_now sl 0%nat). rewrite Hf. cbn. eexists. split; [|done].
      by exists (sl_env sl2).
Qed.

Lemma cwp_bind {A B} (m : sprog A) (f : A → sprog B) Q s : cwp E m (λ a s, cwp E (f a) Q s) s → cwp E (m ≫= f) Q s.
Proof.
  unfold mbind, sprog_bind. revert s. induction m as [a|k IH|k IH|kind id k IH|kind id d k IH|kind id k IH];
    intros s; [by rewrite cwp_ret|..]; intros H; cbn [sbind]; rewrite cwp_call in H by done;
    apply cwp_call; [done| |done| |done| |done| |done|]; intros s' p' s2 Hr Hc; cbn in Hc.
  - destruct Hc as [-> ->]. apply IH. by apply (H s').
  - destruct Hc as [-> ->]. apply IH. by apply (H s').
  - destruct Hc as [-> ->]. apply IH. by apply (H s').
  - destruct Hc as [-> Hc]. apply IH. by apply (H s').
  - destruct Hc as [-> Hc]. apply IH. by apply (H s').
Qed.

Lemma cwp_mono {A} (p : sprog A) (Q Q' : A → Shared → Prop) s :
  cwp E p Q s → (∀ a s, Q a s → Q' a s) → cwp E p Q' s.
Proof. intros H HQ sched Hs. by apply HQ, H. Qed.
End logic.

(** ** The calls keep the invariant *)

Definition StreamInv (c : Consumer) (s : Shared) : Prop := SharedInv s [] ∧ PartsInv c s [].

Lemma env_reach_inv E s s' own : env_reach E s s' → SharedInv s own →
  SharedInv s' own ∧ ∀ c, PartsInv c s own → PartsInv c s' own.
Proof.
  intros (es & _ & ->). unfold env_steps. revert s. induction es as [|e es IH]; intros s Hi; [done|]. cbn.
  apply (env_step_inv e) in Hi as [Hi Hc]. destruct (IH _ Hi) as [Hi' Hc']. auto.
Qed.
Lemma env_reach_Inv E c s s' : env_reach E s s' → StreamInv c s → StreamInv c s'.
Proof. intros Hr [Hi Hc]. destruct (env_reach_inv _ _ _ _ Hr Hi). by split; auto. Qed.

(** What one delta does to the adapter and the messages. *)
Record delta_spec (kind : streamPartKind) (id : string) (a a' : Adapter) (b : list AGUIEvent) : Prop := {
  ds_thread : ad_threadID a' = ad_threadID a;
  ds_counter : ad_msgCounter a' = ad_msgCounter a;
  ds_closed : ad_closed a' = ad_closed a;
  ds_active k : active_id k a' = if bool_decide (k = kind) then id else active_id k a;
  ds_tools : tools_done b;
  ds_quiet k m : ¬ (k = kind ∧ m = id) → quiet k m b;
  ds_phase : phase_from kind id (Some (if String.eqb (active_id kind a) id then POpen else PClosed)) b = Some POpen;
}.
Lemma emit_delta_spec kind now id d a :
  delta_spec kind id a (emit_delta kind now id d a).1 (emit_delta kind now id d a).2.
Proof.
  destruct kind; cbn; unfold EmitTextDelta, EmitReasoningDelta, then_fill;
    [destruct (String.eqb_spec (ad_activeMessageID a) id) as [Ha|Ha]
    |destruct (String.eqb_spec (ad_activeReasoningID a) id) as [Ha|Ha]];
    cbn; destruct (String.eqb d ""); cbn; split; try done.
  all: try (intros []; cbn; by rewrite ?Ha).
  all: try (cbn; rewrite ?Ha, ?String.eqb_refl, ?(string_neq_eqb _ _ Ha); unfold phase_from; cbn;
    rewrite ?String.eqb_refl; cbn; rewrite ?String.eqb_refl; cbn; by rewrite ?String.eqb_refl).
  all: intros [] m Hm ph; unfold phase_from; cbn; rewrite ?string_neq_eqb by naive_solver; cbn;
    rewrite ?string_neq_eqb by naive_solver; cbn; by rewrite ?string_neq_eqb by naive_solver.
Qed.

Lemma quiet_phase kind m l b : quiet kind m b → phase_of kind m (l ++ b) = phase_of kind m l.
Proof. intros H. unfold phase_of. by rewrite phase_from_app, (quiet_from _ _ _ _ H). Qed.

(** A delta for the part the consumer has made active. *)
Lemma delta_inv c s now d i p :
  StreamInv c s → co_parts c !! i = Some p → i = sk_activeIndex (getStreamKindState (sp_kind p) c) →
  StreamInv c (emitBatch (emit_delta (sp_kind p) now (sp_messageID p) d) s).
Proof.
  intros [Hi Hc] Hp Hact. unfold emitBatch. destruct (release_inv s [] Hi) as [Hi' Hc']. specialize (Hc' c Hc).
  assert (pending_batch (release_emit s) = []) as Hpend.
  { unfold pending_batch, release_emit. destruct (sh_pending s) eqn:E; [by rewrite send_batch_pending|by rewrite E]. }
  set (s1 := release_emit s) in *. clearbody s1. clear s Hi Hc.
  pose proof (emit_delta_spec (sp_kind p) now (sp_messageID p) d (sh_adapter s1)) as Hd.
  destruct (emit_delta _ _ _ _ _) as [a b]. cbn in Hd. destruct Hd as [E1 E2 E3 E4 E5 E6 E7].
  set (K := sp_kind p) in *. set (m0 := sp_messageID p) in *.
  assert (Hadapter : sh_adapter (send_batch b (s1 <| sh_adapter := a |>)) = a) by (by rewrite send_batch_adapter).
  assert (Hline : line (send_batch b (s1 <| sh_adapter := a |>)) [] = line s1 [] ++ b).
  { unfold line. rewrite send_batch_sent. unfold pending_batch in *. rewrite send_batch_pending. cbn. rewrite Hpend.
    by rewrite !app_nil_r. }
  assert (Hknown : ∀ m, known (sh_adapter s1) m → known a m).
  { intros m. apply known_grows; [done|lia]. }
  assert (H0 : phase_of K m0 (line s1 [] ++ b) = Some POpen).
  { unfold phase_of. rewrite phase_from_app. fold (phase_of K m0 (line s1 [])).
    destruct (String.eqb_spec (active_id K (sh_adapter s1)) m0) as [Ha|Ha].
    - rewrite <-Ha at 2. rewrite (sv_active s1 [] Hi' K); [done|]. rewrite Ha.
      by apply known_nonempty with (sh_adapter s1), (pv_known c s1 [] Hc' i).
    - destruct (sv_phase s1 [] Hi' K m0) as [->|Ho]; [done|]. destruct Ha.
      by apply (pv_open c s1 [] Hc' i p Hp). }
  assert (Hother : ∀ k m, ¬ (k = K ∧ m = m0) → phase_of k m (line s1 [] ++ b) = phase_in k m s1 []).
  { intros k m Hkm. apply quiet_phase. by apply E6. }
  split.
  - split; rewrite ?Hadapter, ?Hline.
    + intros k m. destruct (decide (k = K ∧ m = m0)) as [[-> ->]|Hkm]; [by right|]. rewrite Hother by done.
      apply (sv_phase s1 [] Hi').
    + intros k. rewrite E4. case_bool_decide as Hk; [by rewrite Hk|]. intros Hne. rewrite Hother by naive_solver.
      by apply (sv_active s1 [] Hi').
    + intros k m Ho. apply Hknown. destruct (decide (k = K ∧ m = m0)) as [[-> ->]|Hkm].
      * by apply (pv_known c s1 [] Hc' i).
      * rewrite Hother in Ho by done. by apply (sv_known s1 [] Hi' k).
    + intros k _. split; [|apply quiet_nil]. unfold pending_batch in *. rewrite send_batch_pending. cbn. rewrite Hpend. apply quiet_nil.
    + intros k m. right. apply quiet_nil.
    + destruct (sv_tools s1 [] Hi') as (H1 & H2 & H3). rewrite send_batch_sent. split_and!; [by apply tools_done_app| |done].
      unfold pending_batch in *. by rewrite send_batch_pending.
    + rewrite send_batch_sent. rewrite E3. rewrite <-E3.
      apply (send_out b (MkShared a (sh_pending s1) (sh_sent s1) (sh_out s1))); [|done]. cbn. rewrite E3.
      apply (sv_out s1 [] Hi').
    + rewrite E2. apply (sv_counter s1 [] Hi').
  - destruct Hc' as [P1 P2 P3 P4]. split; rewrite ?Hadapter, ?Hline; eauto.
    intros j q Hq Ho. destruct (decide (sp_kind q = K ∧ sp_messageID q = m0)) as [[HK Hm]|Hkm].
    + assert (j = i) as -> by (by apply (P3 j i q p)). simplify_eq. split; [done|].
      rewrite E4, bool_decide_eq_true_2 by done. done.
    + rewrite Hother in Ho by done. destruct (P4 j q Hq Ho) as [Hj Hqa]. split; [done|].
      rewrite E4. case_bool_decide as Hk; [|done]. exfalso. apply Hkm. split; [done|].
      rewrite Hk in Hj. assert (j = i) as -> by congruence. by simplify_eq.
Qed.

(** What the end of a part does under the adapter's lock: nothing, or it ends the
    active message. *)
Lemma end_fill_spec kind ts id a :
  end_fill kind ts id a = (a, []) ∨
  (active_id kind a = id ∧
   let '(a', b) := end_fill kind ts id a in
   ad_threadID a' = ad_threadID a ∧ ad_msgCounter a' = ad_msgCounter a ∧ ad_closed a' = ad_closed a ∧
   (∀ k, active_id k a' = if bool_decide (k = kind) then "" else active_id k a) ∧
   tools_done b ∧ (∀ k m, ¬ (k = kind ∧ m = id) → quiet k m b) ∧ closes kind id b).
Proof.
  destruct kind; cbn;
    [destruct (String.eqb_spec (ad_activeMessageID a) id) as [Ha|Ha]
    |destruct (String.eqb_spec (ad_activeReasoningID a) id) as [Ha|Ha]]; cbn; [right|by left|right|by left].
  all: split_and!; try done; [by intros []| |unfold closes, phase_from; cbn; rewrite ?String.eqb_refl; cbn;
    by rewrite ?String.eqb_refl].
  all: intros [] m Hm ph; unfold phase_from; cbn; rewrite ?string_neq_eqb by naive_solver; cbn;
    by rewrite ?string_neq_eqb by naive_solver.
Qed.

Lemma end_build_inv c s kind ts id : id ≠ "" → StreamInv c s →
  let s' := s <| sh_adapter := (end_fill kind ts id (sh_adapter s)).1 |> in
  SharedInv s' (end_fill kind ts id (sh_adapter s)).2 ∧ PartsInv c s' (end_fill kind ts id (sh_adapter s)).2.
Proof.
  intros Hid [Hi Hc]. destruct (end_fill_spec kind ts id (sh_adapter s)) as [Heq|[Ha Hf]].
  { rewrite Heq. cbn. split; [by destruct Hi|by destruct Hc]. }
  destruct (end_fill kind ts id (sh_adapter s)) as [a b]. destruct Hf as (E1 & E2 & E3 & E4 & E5 & E6 & E7). cbn.
  assert (Hline : line (s <| sh_adapter := a |>) b = line s [] ++ b).
  { unfold line, pending_batch. cbn. by rewrite app_nil_r, (assoc_L (++)). }
  cbn in Hline.
  assert (Hknown : ∀ m, known (sh_adapter s) m → known a m) by (intros m; apply known_grows; [done|lia]).
  assert (H0 : phase_of kind id (line s [] ++ b) = Some PClosed).
  { unfold phase_of. rewrite phase_from_app. fold (phase_of kind id (line s [])).
    rewrite <-Ha at 2. by rewrite (sv_active s [] Hi kind) by (by rewrite Ha). }
  assert (Hother : ∀ k m, ¬ (k = kind ∧ m = id) → phase_of k m (line s [] ++ b) = phase_in k m s []).
  { intros k m Hkm. apply quiet_phase. by apply E6. }
  split.
  - split; cbn; rewrite ?Hline.
    + intros k m. destruct (decide (k = kind ∧ m = id)) as [[-> ->]|Hkm]; [by left|]. rewrite Hother by done.
      apply (sv_phase s [] Hi).
    + intros k. rewrite E4. case_bool_decide as Hk; [done|]. intros Hne. rewrite Hother by naive_solver.
      by apply (sv_active s [] Hi).
    + intros k m Ho. apply Hknown. destruct (decide (k = kind ∧ m = id)) as [[-> ->]|Hkm]; [by rewrite H0 in Ho|].
      rewrite Hother in Ho by done. by apply (sv_known s [] Hi k).
    + intros k. rewrite E4. case_bool_decide as Hk; [done|]. intros Hne. split; [by apply (sv_quiet s [] Hi k)|].
      apply E6. naive_solver.
    + intros k m. destruct (decide (k = kind ∧ m = id)) as [[-> ->]|Hkm]; [left|right; by apply E6].
      rewrite <-Ha. apply (sv_quiet s [] Hi). by rewrite Ha.
    + destruct (sv_tools s [] Hi) as (? & ? & _). done.
    + rewrite E3. apply (sv_out s [] Hi).
    + rewrite E2. apply (sv_counter s [] Hi).
  - apply (parts_transfer c s _ [] b Hc); [done|]. cbn. rewrite Hline. intros k m _ Ho.
    destruct (decide (k = kind ∧ m = id)) as [[-> ->]|Hkm]; [by rewrite H0 in Ho|].
    rewrite Hother in Ho by done. split; [done|]. rewrite E4. case_bool_decide as Hk; [|done].
    subst k. naive_solver.
Qed.

(** The consumer's batch is sent, before or after that of a handler. *)
Lemma send_own_inv c s own : SharedInv s own → PartsInv c s own → StreamInv c (send_batch own s).
Proof.
  intros Hi Hc.
  assert (Hphase : ∀ k m, phase_in k m (send_batch own s) [] = phase_in k m s own).
  { intros k m. unfold line. rewrite send_batch_sent, app_nil_r, <-(assoc_L (++)). unfold pending_batch.
    rewrite send_batch_pending. apply phase_swap. destruct (sv_apart s own Hi k m); auto. }
  assert (Ha := send_batch_adapter own s).
  split; [|by apply (same_line s _ own [] Ha Hphase c)].
  split; rewrite ?Ha; try (intros *; rewrite ?Hphase).
  - apply (sv_phase s own Hi).
  - apply (sv_active s own Hi).
  - apply (sv_known s own Hi).
  - intros Hne. split; [|apply quiet_nil]. unfold pending_batch. rewrite send_batch_pending.
    by apply (sv_quiet s own Hi).
  - right. apply quiet_nil.
  - destruct (sv_tools s own Hi) as (? & ? & ?). rewrite send_batch_sent. unfold pending_batch.
    rewrite send_batch_pending. split_and!; [by apply tools_done_app|done..].
  - rewrite send_batch_sent. by apply send_out; [apply (sv_out s own Hi)|].
  - apply (sv_counter s own Hi).
Qed.

(** A fresh identifier: no part has it and no message with it is open. *)
Definition fresh (c : Consumer) (s : Shared) (id : string) : Prop :=
  known (sh_adapter s) id ∧ (∀ i p, co_parts c !! i = Some p → sp_messageID p ≠ id) ∧
  (∀ kind, phase_in kind id s [] = Some PClosed).
Lemma next_id_inv c s : StreamInv c s →
  let s' := s <| sh_adapter := (nextMessageID (sh_adapter s)).1 |> in
  StreamInv c s' ∧ fresh c s' (nextMessageID (sh_adapter s)).2.
Proof.
  intros [Hi Hc]. pose proof (sv_counter s [] Hi) as Hpos. cbn. set (n := ad_msgCounter (sh_adapter s) + 1).
  assert (Hnew : ∀ m, known (sh_adapter s) m → m ≠ message_id (sh_adapter s) n).
  { intros m (n' & Hn & ->) ?%message_id_inj. lia. }
  assert (Hk : ∀ m, known (sh_adapter s) m → known ((sh_adapter s) <| ad_msgCounter := n |>) m).
  { intros m. apply known_grows; [done|cbn; lia]. }
  split; [split|].
  - destruct Hi as [H1 H2 H3 H4 H5 H6 H7 H8]. split; cbn; try done; [|lia].
    intros kind m Ho. by apply Hk, (H3 kind).
  - apply (parts_transfer c s _ [] [] Hc); [done|]. cbn. intros kind m _ Ho. by destruct kind.
  - split_and!.
    + exists n. cbn. split; [lia|done].
    + intros i p Hp. apply Hnew. by apply (pv_known c s [] Hc i).
    + intros kind. destruct (sv_phase s [] Hi kind (message_id (sh_adapter s) n)) as [|Ho]; [done|].
      apply (sv_known s [] Hi) in Ho. by apply Hnew in Ho.
Qed.

(** ** The consumer's own steps *)

Lemma get_set_kind kind kind' ks c :
  getStreamKindState kind' (set_kind kind ks c) = if bool_decide (kind' = kind) then ks else getStreamKindState kind' c.
Proof. by destruct kind, kind'. Qed.
Lemma parts_set_kind kind ks c : co_parts (set_kind kind ks c) = co_parts c.
Proof. by destruct kind. Qed.
Lemma get_parts kind f c : getStreamKindState kind (c <| co_parts ::= f |>) = getStreamKindState kind c.
Proof. by destruct kind. Qed.
Notation active_index kind c := (sk_activeIndex (getStreamKindState kind c)).

(** The parts keep their identity, and an active index moves only off an index without
    a part of its kind. *)
Lemma StreamInv_change c c' s :
  StreamInv c s →
  (∀ i p', co_parts c' !! i = Some p' →
     ∃ p, co_parts c !! i = Some p ∧ sp_messageID p' = sp_messageID p ∧ sp_kind p' = sp_kind p) →
  (∀ kind, active_index kind c' = active_index kind c ∨
     ∀ p', co_parts c' !! active_index kind c = Some p' → sp_kind p' ≠ kind) →
  StreamInv c' s.
Proof.
  intros [Hi [P1 P2 P3 P4]] Hsub Hact. split; [done|]. split.
  - intros i p' (p & Hp & _)%Hsub. eauto.
  - intros i p' (p & Hp & -> & _)%Hsub. eauto.
  - intros i j p' q' (p & Hp & -> & _)%Hsub (q & Hq & -> & _)%Hsub. eauto.
  - intros i p' Hp' Ho. destruct (Hsub i p' Hp') as (p & Hp & Hid & Hk). rewrite Hid, Hk in *.
    destruct (P4 i p Hp Ho) as [-> Ha]. split; [|done].
    destruct (Hact (sp_kind p)) as [->|Hno]; [done|]. by destruct (Hno _ Hp').
Qed.

(** A change of flags and queues. *)
Lemma Inv_same c c' s :
  StreamInv c s →
  (∀ i p', co_parts c' !! i = Some p' →
     ∃ p, co_parts c !! i = Some p ∧ sp_messageID p' = sp_messageID p ∧ sp_kind p' = sp_kind p) →
  (∀ kind, active_index kind c' = active_index kind c) → StreamInv c' s.
Proof. intros Hi Hsub Hact. apply (StreamInv_change c); auto. Qed.

Lemma Inv_put c s i p p' : StreamInv c s → co_parts c !! i = Some p →
  sp_messageID p' = sp_messageID p → sp_kind p' = sp_kind p → StreamInv (put_part i p' c) s.
Proof.
  intros Hi Hp Hid Hk. apply (Inv_same c); [done| |intros kind; unfold put_part; by rewrite get_parts].
  intros j q. cbn. destruct (decide (j = i)) as [->|Hj].
  - rewrite lookup_insert_eq. intros [= <-]. eauto.
  - rewrite lookup_insert_ne by done. eauto.
Qed.

Lemma Inv_unset c s kind : StreamInv c s →
  (∀ p, co_parts c !! active_index kind c = Some p → sp_kind p ≠ kind) →
  StreamInv (set_active kind noActiveStreamPart c) s.
Proof.
  intros Hi Hno. apply (StreamInv_change c); [done|intros i p'; unfold set_active; rewrite parts_set_kind; eauto|].
  intros kind'. unfold set_active. rewrite get_set_kind, parts_set_kind. case_bool_decide; [subst|]; auto.
Qed.

Lemma Inv_drop c s kind i : StreamInv c s → i = active_index kind c →
  StreamInv (set_active kind noActiveStreamPart (c <| co_parts ::= delete i |>)) s.
Proof.
  intros Hi ->. apply (StreamInv_change c); [done|..].
  - intros i p'. unfold set_active. rewrite parts_set_kind. cbn. rewrite lookup_delete_Some. naive_solver.
  - intros kind'. unfold set_active. rewrite get_set_kind, parts_set_kind. case_bool_decide; [|left; by rewrite get_parts].
    subst. right. intros p'. cbn. by rewrite lookup_delete_eq.
Qed.

Lemma Inv_suppress c s kind : StreamInv c s →
  StreamInv (set_kind kind (MkStreamKind noActiveStreamPart []) (c <| co_parts ::= filter (λ '(_, p), sp_kind p ≠ kind) |>)) s.
Proof.
  intros Hi. apply (StreamInv_change c); [done|..].
  - intros i p'. rewrite parts_set_kind. cbn. rewrite map_lookup_filter_Some. naive_solver.
  - intros kind'. rewrite get_set_kind, parts_set_kind. case_bool_decide; [|left; by rewrite get_parts].
    subst. right. intros p'. cbn. rewrite map_lookup_filter_Some. naive_solver.
Qed.

Lemma dequeue_spec parts kind queue q' i p :
  dequeueNextStreamPart parts kind queue = (q', Some (i, p)) →
  ∃ p0, parts !! i = Some p0 ∧ p = p0 <| sp_queued := false |> ∧ sp_kind p0 = kind.
Proof.
  induction queue as [|j queue IH]; cbn; [done|]. destruct (parts !! j) as [p0|] eqn:Hj; [|done].
  case_bool_decide; [|done]. intros [= <- <- <-]. eauto.
Qed.

Lemma Inv_dequeue c s kind queue i p : StreamInv c s → active_index kind c = noActiveStreamPart →
  dequeueNextStreamPart (co_parts c) kind (sk_queue (getStreamKindState kind c)) = (queue, Some (i, p)) →
  StreamInv (put_part i p (set_kind kind (MkStreamKind i queue) c)) s.
Proof.
  intros Hi Hno (p0 & Hp & -> & Hk)%dequeue_spec.
  apply (Inv_put _ s i p0); [|by rewrite parts_set_kind|done..].
  apply (StreamInv_change c); [done|intros j q; rewrite parts_set_kind; eauto|].
  intros kind'. rewrite get_set_kind, parts_set_kind. case_bool_decide; [|by left]. subst kind'. right.
  intros q Hq. rewrite Hno in Hq. destruct Hi as [_ Hc]. by apply (pv_index c s [] Hc) in Hq.
Qed.

Lemma add_part_spec index kind id version c :
  (∃ p, co_parts (add_part index kind id version c) = <[index := p]> (co_parts c) ∧
        sp_kind p = kind ∧ sp_messageID p = id) ∧
  ∀ k, active_index k (add_part index kind id version c) = active_index k c ∨ active_index k c = noActiveStreamPart.
Proof.
  unfold add_part. destruct (Z.eqb_spec (active_index kind c) noActiveStreamPart) as [Hna|];
    [|destruct (negb _)]; (split; [rewrite ?parts_set_kind; eexists; split; [reflexivity|done]|]).
  all: intros k; rewrite ?get_set_kind; try case_bool_decide; subst; auto.
  all: left; unfold put_part; cbn; by rewrite ?get_parts.
Qed.

Lemma Inv_add c s index kind id version : StreamInv c s → fresh c s id → 0 ≤ index → co_parts c !! index = None →
  StreamInv (add_part index kind id version c) s.
Proof.
  intros [Hi [P1 P2 P3 P4]] (Hk & Hnew & Hcl) Hpos Hno. split; [done|].
  destruct (add_part_spec index kind id version c) as [(p & Hparts & Hpk & Hpid) Hact].
  set (c' := add_part index kind id version c) in *. clearbody c'.
  assert (Hold : ∀ i q, co_parts c' !! i = Some q → (i = index ∧ q = p) ∨ co_parts c !! i = Some q).
  { intros i q. rewrite Hparts, lookup_insert_Some. naive_solver. }
  split.
  - intros i q [[-> _]|Hq]%Hold; eauto.
  - intros i q [[_ ->]|Hq]%Hold; [by rewrite Hpid|eauto].
  - intros i j q r [[-> ->]|Hq]%Hold [[-> ->]|Hr]%Hold; [done|..|eauto]; rewrite Hpid; intros E.
    + by destruct (Hnew j r Hr).
    + by destruct (Hnew i q Hq).
  - intros i q [[-> ->]|Hq]%Hold Ho; [by rewrite Hpid, Hcl in Ho|].
    destruct (P4 i q Hq Ho) as [Hia Ha]. split; [|done].
    destruct (Hact (sp_kind q)) as [->|Hx]; [done|]. rewrite Hx in Hia. subst i. by apply P1 in Hq.
Qed.

(** ** The program keeps the invariant, whatever the handlers do *)

Section consumer.
Context {E : EnvStep → Prop}.
Notation keeps p s := (cwp E p StreamInv s).

Lemma cwp_delta {A} (k : sprog A) Q c s kind id d i p :
  StreamInv c s → co_parts c !! i = Some p → kind = sp_kind p → id = sp_messageID p → i = active_index (sp_kind p) c →
  (∀ s', StreamInv c s' → cwp E k Q s') → cwp E (SDelta kind id d k) Q s.
Proof.
  intros Hi Hp -> -> Ha Hk. apply cwp_call; [done|]. intros s' p' s2 Hr%(env_reach_Inv E c); [|done].
  cbn. intros [-> [now ->]]. apply Hk. by apply (delta_inv c s' now d i p).
Qed.
Lemma cwp_end {A} (k : sprog A) Q c s kind id :
  StreamInv c s → id ≠ "" → (∀ s', StreamInv c s' → cwp E k Q s') → cwp E (SEnd kind id k) Q s.
Proof.
  intros Hi Hid Hk. apply cwp_call; [done|]. intros s' p' s2 Hr%(env_reach_Inv E c); [|done].
  cbn. intros [-> (ts & s'' & Hr' & ->)]. apply Hk.
  destruct (end_build_inv c s' kind ts id Hid Hr) as [Hb Hc].
  destruct (env_reach_inv _ _ _ _ Hr' Hb) as [Hb' Hc']. apply send_own_inv; auto.
Qed.
Lemma cwp_version {A} (k : Z → sprog A) Q c s : StreamInv c s → (∀ s' v, StreamInv c s' → cwp E (k v) Q s') → cwp E (SVersion k) Q s.
Proof.
  intros Hi Hk. apply cwp_call; [done|]. intros s' p' s2 Hr%(env_reach_Inv E c); [|done]. cbn. intros [-> ->]. auto.
Qed.
Lemma cwp_active {A} (k : bool → sprog A) Q c s kind id :
  StreamInv c s → (∀ s' b, StreamInv c s' → cwp E (k b) Q s') → cwp E (SActive kind id k) Q s.
Proof.
  intros Hi Hk. apply cwp_call; [done|]. intros s' p' s2 Hr%(env_reach_Inv E c); [|done]. cbn. intros [-> ->]. auto.
Qed.
Lemma cwp_next_id {A} (k : string → Z → sprog A) Q c s :
  StreamInv c s → (∀ s' id v, StreamInv c s' → fresh c s' id → cwp E (k id v) Q s') → cwp E (SNextID k) Q s.
Proof.
  intros Hi Hk. apply cwp_call; [done|]. intros s' p' s2 Hr%(env_reach_Inv E c); [|done].
  intros [-> ->]. destruct (next_id_inv c s' Hr). by apply Hk.
Qed.

(** A part of the map has an identifier. *)
Lemma part_id c s i p : StreamInv c s → co_parts c !! i = Some p → sp_messageID p ≠ "".
Proof. intros [_ Hc] Hp. by eapply known_nonempty, (pv_known c s []). Qed.

Lemma cwp_emit_deltas c s i p ds :
  StreamInv c s → co_parts c !! i = Some p → i = active_index (sp_kind p) c →
  cwp E (emit_deltas (sp_kind p) (sp_messageID p) ds) (λ _ s, StreamInv c s) s.
Proof.
  intros Hi Hp Ha. revert s Hi. induction ds as [|d ds IH]; intros s Hi; cbn; [by apply cwp_ret|].
  eapply cwp_delta; eauto.
Qed.

Lemma cwp_buffered c s i p :
  StreamInv c s → co_parts c !! i = Some p → i = active_index (sp_kind p) c →
  cwp E (emitStreamPartBufferedDeltas p)
    (λ p' s, StreamInv c s ∧ sp_messageID p' = sp_messageID p ∧ sp_kind p' = sp_kind p) s.
Proof.
  intros Hi Hp Ha. unfold emitStreamPartBufferedDeltas. destruct (sp_pendingDeltas p); [by apply cwp_ret|].
  apply cwp_bind. eapply cwp_mono; [by eapply cwp_emit_deltas|]. intros ? s' Hi'. by apply cwp_ret.
Qed.

Lemma cwp_finalize c s i p p' :
  StreamInv c s → co_parts c !! i = Some p → i = active_index (sp_kind p) c →
  sp_messageID p' = sp_messageID p → sp_kind p' = sp_kind p →
  cwp E (finalizeStreamPart p') (λ _ s, StreamInv c s) s.
Proof.
  intros Hi Hp Ha Hid Hk. pose proof (part_id c s i p Hi Hp) as Hne.
  assert (Hend : ∀ s, StreamInv c s → cwp E (emitStreamPartEnd p') (λ _ s, StreamInv c s) s).
  { intros s' Hi'. unfold emitStreamPartEnd. rewrite Hid. eapply cwp_end; [done..|]. intros. by apply cwp_ret. }
  unfold finalizeStreamPart. destruct (sp_emitted p'); [auto|]. destruct (sp_sawStart p'); [|by apply cwp_ret].
  unfold emitEmptyStreamPartLifecycle. eapply cwp_delta; eauto.
Qed.

Lemma cwp_advance fuel kind c s : StreamInv c s → keeps (advance_loop fuel kind c) s.
Proof.
  revert c s. induction fuel as [|fuel IH]; intros c s Hi; [by apply cwp_ret|]. cbn [advance_loop]. cbv zeta.
  assert (Hstart : ∀ c, StreamInv c s → keeps
    match co_parts c !! active_index kind c with
    | Some p =>
      if bool_decide (sp_kind p = kind) then
        p ← emitStreamPartBufferedDeltas p;
        if negb (sp_closed p) then SRet (put_part (active_index kind c) p c)
        else finalizeStreamPart p ≫= λ _, advance_loop fuel kind
               (set_active kind noActiveStreamPart ((put_part (active_index kind c) p c) <| co_parts ::= delete (active_index kind c) |>))
      else advance_loop fuel kind (set_active kind noActiveStreamPart c)
    | None => advance_loop fuel kind (set_active kind noActiveStreamPart c)
    end s).
  { clear c Hi. intros c Hi. destruct (co_parts c !! active_index kind c) as [p|] eqn:Hp.
    2: { apply IH, Inv_unset; [done|]. by rewrite Hp. }
    case_bool_decide as Hk; [|apply IH, Inv_unset; [done|]; intros p'; rewrite Hp; by intros [= <-]].
    subst kind. apply cwp_bind. eapply cwp_mono; [by eapply cwp_buffered|]. intros p' s' (Hi' & Hid & Hk).
    pose proof (Inv_put c s' _ p p' Hi' Hp Hid Hk) as Hput. cbv zeta.
    destruct (negb (sp_closed p')); [by apply cwp_ret|]. apply cwp_bind.
    assert (active_index (sp_kind p) (put_part (active_index (sp_kind p) c) p' c) = active_index (sp_kind p) c) as Hsame
      by (unfold put_part; by rewrite get_parts).
    eapply cwp_mono; [eapply (cwp_finalize _ s' (active_index (sp_kind p) c) p' p'); [done| | |done..]|].
    - cbn. by rewrite lookup_insert_eq.
    - by rewrite Hk, Hsame.
    - intros ? s2 Hi2. apply IH. by apply Inv_drop. }
  destruct (Z.eqb_spec (active_index kind c) noActiveStreamPart) as [Hna|]; [|by apply Hstart].
  destruct (dequeueNextStreamPart _ _ _) as [queue [[i p]|]] eqn:Hd.
  - apply Hstart. by apply Inv_dequeue.
  - apply cwp_ret. apply (Inv_same c); [done|intros j q; rewrite parts_set_kind; eauto|].
    intros k. rewrite get_set_kind. case_bool_decide; by subst.
Qed.

Lemma cwp_suppress kind closeActive c s : StreamInv c s →
  cwp E (suppressStreamPartKind kind closeActive c)
    (λ c' s, StreamInv c' s ∧ ∀ i p, co_parts c' !! i = Some p → sp_kind p ≠ kind ∧ co_parts c !! i = Some p) s.
Proof.
  intros Hi. unfold suppressStreamPartKind. apply cwp_bind.
  apply (cwp_mono _ (λ _ s, StreamInv c s)).
  - destruct (closeActive && _); [|by apply cwp_ret].
    destruct (co_parts c !! active_index kind c) as [p|] eqn:Hp; [|by apply cwp_ret].
    case_bool_decide as Hk; [|by apply cwp_ret]. subst kind. by eapply cwp_finalize.
  - intros ? s' Hi'. apply cwp_ret. split; [by apply Inv_suppress|].
    intros i p. rewrite parts_set_kind. cbn. rewrite map_lookup_filter_Some. naive_solver.
Qed.

Lemma cwp_ensure index kind c s : StreamInv c s → 0 ≤ index → keeps (ensureStreamPart index kind c) s.
Proof.
  intros Hi Hpos. unfold ensureStreamPart.
  assert (Hfresh : ∀ c s, StreamInv c s → co_parts c !! index = None →
    keeps (SNextID (λ id version, SRet (add_part index kind id version c))) s).
  { intros c' s' Hi' Hno. eapply cwp_next_id; [done|]. intros. apply cwp_ret. by apply Inv_add. }
  destruct (co_parts c !! index) as [p|] eqn:Hp; [|by apply Hfresh].
  case_bool_decide; [by apply cwp_ret|]. apply cwp_bind. unfold suppressRemainingStreamParts. apply cwp_bind.
  eapply cwp_mono; [by apply cwp_suppress|]. intros c1 s1 [Hi1 H1].
  eapply cwp_mono; [by apply cwp_suppress|]. intros c2 s2 [Hi2 H2]. apply Hfresh; [done|].
  destruct (co_parts c2 !! index) as [q|] eqn:Hq; [|done]. exfalso.
  apply H2 in Hq as [Hq1 Hq]. apply H1 in Hq as [Hq2 _]. by destruct (sp_kind q).
Qed.

Lemma Inv_alter f index c s :
  StreamInv c s → (∀ p, sp_messageID (f p) = sp_messageID p ∧ sp_kind (f p) = sp_kind p) → StreamInv (alter_part f index c) s.
Proof.
  intros Hi Hf. apply (Inv_same c); [done| |intros kind; unfold alter_part; by rewrite get_parts].
  intros i p'. cbn. rewrite lookup_alter_Some. intros [(-> & p & Hp & ->)|[_ Hp]]; [|eauto].
  exists p. by destruct (Hf p).
Qed.
Lemma Inv_fmap f c s :
  StreamInv c s → (∀ p, sp_messageID (f p) = sp_messageID p ∧ sp_kind (f p) = sp_kind p) →
  StreamInv (c <| co_parts ::= fmap f |>) s.
Proof.
  intros Hi Hf. apply (Inv_same c); [done| |intros kind; by rewrite get_parts].
  intros i p'. cbn. rewrite lookup_fmap_Some. intros (p & <- & Hp). exists p. by destruct (Hf p).
Qed.

Lemma cwp_append index kind d c s : StreamInv c s → 0 ≤ index → keeps (appendStreamPartDelta index kind d c) s.
Proof.
  intros Hi Hpos. unfold appendStreamPartDelta. apply cwp_bind. eapply cwp_mono; [by apply cwp_ensure|].
  intros c' s' Hi'. apply cwp_advance. destruct (String.eqb d ""); [done|]. by apply Inv_alter.
Qed.
Lemma cwp_start index kind content c s : StreamInv c s → 0 ≤ index → keeps (start_part index kind content c) s.
Proof.
  intros Hi Hpos. unfold start_part. apply cwp_bind. eapply cwp_mono; [by apply cwp_ensure|]. intros c' s' Hi'. cbv zeta.
  destruct (String.eqb content ""); [apply cwp_ret|apply cwp_append; [|done]]; by apply Inv_alter.
Qed.
Lemma cwp_close index c s : StreamInv c s → keeps (closeStreamPart index c) s.
Proof.
  intros Hi. unfold closeStreamPart. destruct (co_parts c !! index); [|by apply cwp_ret].
  apply cwp_advance. by apply Inv_alter.
Qed.
Lemma cwp_close_all c s : StreamInv c s → keeps (closeAllStreamParts c) s.
Proof.
  intros Hi. unfold closeAllStreamParts. apply cwp_bind.
  eapply cwp_mono; [apply cwp_advance; by apply Inv_fmap|]. intros. by apply cwp_advance.
Qed.

Lemma cwp_sync_kind version kind c s : StreamInv c s → keeps (sync_kind version kind c) s.
Proof.
  intros Hi. unfold sync_kind.
  assert (Hsup : ∀ s, StreamInv c s → keeps (suppressStreamPartKind kind false c) s).
  { intros s' Hi'. eapply cwp_mono; [by apply cwp_suppress|]. by intros ? ? []. }
  destruct (streamPartKindCrossedBoundary _ _ _); [auto|].
  destruct (_ =? noActiveStreamPart); [by apply cwp_ret|].
  destruct (co_parts c !! active_index kind c) as [p|] eqn:Hp.
  - destruct (negb _); [by apply cwp_ret|]. eapply cwp_active; [done|]. intros s' []; [by apply cwp_ret|auto].
  - apply cwp_ret, Inv_unset; [done|]. by rewrite Hp.
Qed.
Lemma cwp_sync c s : StreamInv c s → keeps (syncStreamPartsWithAdapter c) s.
Proof.
  intros Hi. unfold syncStreamPartsWithAdapter. case_bool_decide; [by apply cwp_ret|].
  eapply cwp_version; [done|]. intros s' v Hi'. apply cwp_bind.
  eapply cwp_mono; [by apply cwp_sync_kind|]. intros. by apply cwp_sync_kind.
Qed.

(** Part indices are not negative. *)
Definition event_index (ev : StreamEvent) : Z :=
  match ev with PartStartEvent i _ | PartDeltaEvent i _ | PartEndEvent i => i end.
Definition indices_ok (events : list (res (option StreamEvent))) : Prop :=
  Forall (λ r, match r with Ok (Some ev) => 0 ≤ event_index ev | _ => True end) events.

Lemma cwp_event ev c s : StreamInv c s → 0 ≤ event_index ev → keeps (consume_event ev c) s.
Proof.
  intros Hi Hpos. unfold consume_event. apply cwp_bind. eapply cwp_mono; [by apply cwp_sync|]. intros c' s' Hi'.
  destruct ev as [i []|i []|i]; cbn in Hpos;
    [by apply cwp_start|by apply cwp_ret|by apply cwp_start|by apply cwp_ret|by apply cwp_append|by apply cwp_ret
    |by apply cwp_append|by apply cwp_close].
Qed.

Lemma cwp_consume events c s : StreamInv c s → indices_ok events → cwp E (consume_loop events c) (λ _ s, SharedInv s []) s.
Proof.
  intros Hi Hev. revert c s Hi. induction Hev as [|[[ev|]|e] events Hpos _ IH]; intros c s Hi; cbn [consume_loop].
  - apply cwp_bind, cwp_bind. eapply cwp_mono; [by apply cwp_sync|]. intros c1 s1 H1.
    eapply cwp_mono; [by apply cwp_close_all|]. intros c2 s2 [H2 _]. by apply cwp_ret.
  - apply cwp_bind. eapply cwp_mono; [by apply cwp_event|]. auto.
  - auto.
  - apply cwp_bind. eapply cwp_mono; [by apply cwp_close_all|]. intros c2 s2 [H2 _]. by apply cwp_ret.
Qed.
End consumer.

Lemma start_inv threadID : StreamInv NewConsumer (shared_start threadID).
Proof. split; split; try done; try (by left); try (by intros []). Qed.

(** ** The theorem *)

Lemma shared_protocol s : SharedInv s [] → protocol_ok (sh_out s).
Proof.
  intros Hi. destruct (sv_out s [] Hi) as [[l Hl] _].
  apply (protocol_prefix (sh_out s) (l ++ pending_batch s)). rewrite (assoc_L (++)), <-Hl. split.
  - intros kind m. pose proof (sv_phase s [] Hi kind m) as Hp. unfold line in Hp. rewrite app_nil_r in Hp.
    destruct Hp as [->| ->]; eauto.
  - destruct (sv_tools s [] Hi) as (H1 & H2 & _). eexists. exact (tools_done_app _ _ H1 H2).
Qed.

(** Streams consumed one after another on an adapter, each beside its own schedule of
    the handlers, which also run before each of them and at the end. *)
Definition consume_streams (threadID : string)
    (streams : list (list EnvStep * list (res (option StreamEvent)) * list Slice)) (rest : list EnvStep) : Shared :=
  env_steps rest
    (foldl (λ s '(before, events, sched), (run_consumer (ConsumeStream events) sched (env_steps before s)).1)
       (shared_start threadID) streams).

Lemma consume_streams_inv threadID streams rest :
  Forall (λ st, indices_ok st.1.2) streams → SharedInv (consume_streams threadID streams rest) [].
Proof.
  intros Hst. unfold consume_streams.
  assert (Henv : ∀ es s, SharedInv s [] → SharedInv (env_steps es s) []).
  { intros es s Hi. by apply (env_reach_inv (λ _, True) s); [exists es; split; [by apply Forall_true|]|]. }
  apply Henv. clear rest. induction streams as [|[[before events] sched] streams IH] using rev_ind.
  { apply (start_inv threadID). }
  apply Forall_app in Hst as [Hst H1]. rewrite Forall_singleton in H1. cbn in H1. rewrite foldl_app. cbn.
  set (s := foldl _ _ streams) in *. specialize (IH Hst). clearbody s.
  refine (cwp_consume (E := λ _, True) events NewConsumer (env_steps before s) _ H1 sched _).
  - split; [by apply Henv|]. by split.
  - apply Forall_true. intros sl. by apply Forall_true.
Qed.

(** C17: under every interleaving of the stream consumer with the handlers of the adapter,
    the events that reach the listeners keep the AG-UI protocol: text and reasoning
    messages start before their content, have none after their end and are not started
    while open; the start, arguments and end of a tool call are adjacent. *)
Theorem messages_bracketed threadID streams rest :
  Forall (λ st, indices_ok st.1.2) streams → protocol_ok (sh_out (consume_streams threadID streams rest)).
Proof. intros Hst. by apply shared_protocol, consume_streams_inv. Qed.

(** A tool call that ends the message between the check of the boundary and the delta:
    the message is opened again under its identifier. *)
Definition ticks : nat → Z := λ _, 0.
Definition race_stream : list (res (option StreamEvent)) :=
  [Ok (Some (PartStartEvent 0 (TextPart "a"))); Ok (Some (PartDeltaEvent 0 (TextPartDelta "b")));
   Ok (Some (PartStartEvent 1 (TextPart "c")))].
Definition race_schedule : list Slice :=
  [MkSlice [] ticks; MkSlice [] ticks; MkSlice [] ticks; MkSlice [] ticks;
   MkSlice [HBuild ticks "run" (ToolCalledEvent "call" "tool" ""); HSend] ticks].
Definition race_result : Shared :=
  consume_streams "t" [([], race_stream, race_schedule)]
    [HBuild ticks "run" (RunCompletedEvent true false ""); HSend].

(** The first message gets content after its end, and its second start has no end,
    even after the run is completed. *)
Lemma race_reopens_message :
  sh_out race_result =
    [aguiTextMessageStart 0 "msg_t_1" "assistant"; aguiTextMessageContent 0 "msg_t_1" "a";
     aguiTextMessageEnd 0 "msg_t_1"; aguiToolCallStart 0 "call" "tool"; aguiToolCallEnd 0 "call";
     aguiTextMessageStart 0 "msg_t_1" "assistant"; aguiTextMessageContent 0 "msg_t_1" "b";
     aguiTextMessageStart 0 "msg_t_2" "assistant"; aguiTextMessageContent 0 "msg_t_2" "c";
     aguiTextMessageEnd 0 "msg_t_2"; aguiRunFinished 0 "t" "run"] ∧
  phase_of streamPartKindText "msg_t_1" (sh_out race_result) = Some POpen.
Proof. by vm_compute. Qed.

Lemma messages_bracketed_witness :
  Forall (λ st : list EnvStep * list (res (option StreamEvent)) * list Slice, indices_ok st.1.2)
    [([], race_stream, race_schedule)] ∧ protocol_ok (sh_out race_result).
Proof.
  assert (Forall (λ st : list EnvStep * list (res (option StreamEvent)) * list Slice, indices_ok st.1.2)
    [([], race_stream, race_schedule)]) as H.
  { constructor; [|constructor]. repeat constructor; cbn; lia. }
  split; [exact H|]. exact (messages_bracketed "t" [([], race_stream, race_schedule)] _ H).
Defined.
