(* ===== verification/AguiSse.v ===== *)
(** * The AG-UI event stream over HTTP

    src/ext/agui/transport/sse.go.  The adapter's delivery goroutine calls [capture]
    for one protocol event after another; every HTTP request is served by a goroutine
    that attaches a live listener, replays and then forwards.  The state is the shared
    [streamState], the capture in flight and the requests; an action is one step of one
    of the goroutines, so that a list of actions is an interleaving. *)

From S2P Require Import Prelude Errors Json TimeText OrchJson AguiSession AguiReplay.

(** ** Shared state *)

Record liveListener := MkLiveListener { ll_ch : list Event; ll_done : bool }.
#[export] Instance liveListener_eta : RecordEta liveListener := λ l, MkLiveListener (ll_ch l) (ll_done l).
Definition live_capacity : nat := 256.

(** [st_listeners] are the registered identifiers; [st_chans] the listener objects,
    which outlive their registration in the list a capture has copied. *)
Record streamState := MkStreamState {
  st_session : Session; st_nextListenerID : Z; st_listeners : gset Z; st_chans : gmap Z liveListener;
}.
#[export] Instance streamState_eta : RecordEta streamState := λ s,
  MkStreamState (st_session s) (st_nextListenerID s) (st_listeners s) (st_chans s).
Definition newStreamState (session : Session) (replayCapacity : Z) : streamState :=
  MkStreamState (EnsureReplayBuffer replayCapacity session) 0 ∅ ∅.

(** [capture] under the lock: the event, and the listeners it is offered to. *)
Definition rawAGUIEventType : string := "agui.raw".
Definition capture_locked (id : string) (data : RawMessage) (now : Time) (s : streamState)
    : streamState * Event * list Z :=
  let '(session, ev) := CaptureRawEvent id rawAGUIEventType data now (st_session s) in
  (s <| st_session := session |>, ev, elements (st_listeners s)).

(** The select of [capture] for one listener: the event is queued if there is room; when
    the listener is also done either case may be taken; without room the frame is
    skipped.  The flag says whether it was queued. *)
Definition offer (prefer_send : bool) (ev : Event) (l : liveListener) : liveListener * bool :=
  if (length (ll_ch l) <? live_capacity)%nat && (negb (ll_done l) || prefer_send)
  then (l <| ll_ch ::= λ q, q ++ [ev] |>, true) else (l, false).

Definition attachAndPrepareReplay (id : string) (lastSeq : Z) (now : Time) (s : streamState)
    : streamState * (Z * Z * list Event * option Event) :=
  let listenerID := uint64 (st_nextListenerID s + 1) in
  let '(session, (highWater, replay, snapshot)) := PrepareReconnect id lastSeq now (st_session s) in
  (MkStreamState session listenerID ({[listenerID]} ∪ st_listeners s)
     (<[listenerID := MkLiveListener [] false]> (st_chans s)),
   match snapshot with
   | Some snap => (listenerID, highWater, [], Some snap)
   | None => (listenerID, highWater, filter (λ ev, ev_Sequence ev ≤ highWater) replay, None)
   end).

Definition removeListener (listenerID : Z) (s : streamState) : streamState :=
  if bool_decide (listenerID ∈ st_listeners s) then
    s <| st_listeners ::= λ ls, ls ∖ {[listenerID]} |>
      <| st_chans ::= alter (λ l, l <| ll_done := true |>) listenerID |>
  else s.

(** ** Requests

    A request writes its snapshot or replay ([rq_todo]), drains what is queued, then
    forwards live events, until the client goes away or a write fails. *)
Inductive RequestPhase := RReplay (todo : list Event) | RDrain | RLive | RGone.
Record Request := MkRequest {
  rq_lastSeq : Z; rq_highWater : Z; rq_phase : RequestPhase; rq_written : list Event;
  rq_hist : list Event;        (* snapshot or replay the request began with *)
  rq_missed : bool;            (* a live frame was skipped *)
}.
#[export] Instance Request_eta : RecordEta Request := λ r,
  MkRequest (rq_lastSeq r) (rq_highWater r) (rq_phase r) (rq_written r) (rq_hist r) (rq_missed r).

Record SseState := MkSseState {
  sse_stream : streamState;
  sse_flight : option (Event * list Z);
  sse_requests : gmap Z Request;
  sse_log : list Event;        (* every captured event *)
}.
#[export] Instance SseState_eta : RecordEta SseState := λ s,
  MkSseState (sse_stream s) (sse_flight s) (sse_requests s) (sse_log s).

Inductive SseAction :=
| ACapture (id : string) (data : RawMessage) (now : Time)
| AOffer (prefer_send : bool)
| AConnect (id : string) (lastSeq : Z) (now : Time)
| AWrite (rid : Z)                      (* one event of the snapshot or replay *)
| AReplayed (rid : Z)                   (* the replay is written *)
| AReceive (rid : Z)                    (* one event from the live channel *)
| ADrained (rid : Z)                    (* the live channel was empty *)
| ADisconnect (rid : Z)                 (* the context ends or a write fails *)
| ASetStatus (status : string) (now : Time).

Definition with_request (rid : Z) (f : Request → option Request) (s : SseState) : option SseState :=
  r ← sse_requests s !! rid; r ← f r; Some (s <| sse_requests ::= <[rid := r]> |>).

(** The event that [serveHTTP] and [drainQueued] take from the channel. *)
Definition receive (ev : Event) (r : Request) : Request :=
  if ev_Sequence ev <=? rq_highWater r then r else r <| rq_written ::= λ l, l ++ [ev] |>.

Definition sse_act (a : SseAction) (s : SseState) : option SseState :=
  match a with
  | ACapture id data now =>
    match sse_flight s with
    | Some _ => None
    | None =>
      let '(st, ev, ls) := capture_locked id data now (sse_stream s) in
      Some (MkSseState st (Some (ev, ls)) (sse_requests s) (sse_log s ++ [ev]))
    end
  | AOffer prefer_send =>
    match sse_flight s with
    | None => None
    | Some (_, []) => Some (s <| sse_flight := None |>)
    | Some (ev, l :: ls) =>
      c ← st_chans (sse_stream s) !! l;
      let '(c, sent) := offer prefer_send ev c in
      Some (MkSseState ((sse_stream s) <| st_chans ::= <[l := c]> |>) (Some (ev, ls))
              (alter (λ r, if sent then r else r <| rq_missed := true |>) l (sse_requests s)) (sse_log s))
    end
  | AConnect id lastSeq now =>
    let '(st, (rid, highWater, replay, snapshot)) := attachAndPrepareReplay id lastSeq now (sse_stream s) in
    let todo := match snapshot with Some snap => snap :: replay | None => replay end in
    let highWater := match snapshot with Some snap => ev_Sequence snap | None => highWater end in
    Some (s <| sse_stream := st |>
            <| sse_requests ::= <[rid := MkRequest lastSeq highWater (RReplay todo) [] todo false]> |>)
  | AWrite rid => with_request rid (λ r,
      match rq_phase r with
      | RReplay (ev :: todo) => Some (r <| rq_written ::= λ l, l ++ [ev] |> <| rq_phase := RReplay todo |>)
      | _ => None
      end) s
  | AReplayed rid => with_request rid (λ r,
      match rq_phase r with RReplay [] => Some (r <| rq_phase := RDrain |>) | _ => None end) s
  | AReceive rid =>
    c ← st_chans (sse_stream s) !! rid;
    match ll_ch c with
    | [] => None
    | ev :: q =>
      s ← with_request rid (λ r,
        match rq_phase r with RDrain | RLive => Some (receive ev r) | _ => None end) s;
      Some (s <| sse_stream ::= λ st, st <| st_chans ::= <[rid := c <| ll_ch := q |>]> |> |>)
    end
  | ADrained rid =>
    c ← st_chans (sse_stream s) !! rid;
    match ll_ch c with
    | [] => with_request rid (λ r, match rq_phase r with RDrain => Some (r <| rq_phase := RLive |>) | _ => None end) s
    | _ :: _ => None
    end
  | ADisconnect rid =>
    s ← with_request rid (λ r, match rq_phase r with RGone => None | _ => Some (r <| rq_phase := RGone |>) end) s;
    Some (s <| sse_stream ::= removeListener rid |>)
  | ASetStatus status now => Some (s <| sse_stream ::= λ st, st <| st_session ::= SetStatus status now |> |>)
  end.

Fixpoint sse_run (acts : list SseAction) (s : SseState) : option SseState :=
  match acts with [] => Some s | a :: acts => s ← sse_act a s; sse_run acts s end.
Definition sse_start (session : Session) (replayCapacity : Z) : SseState :=
  MkSseState (newStreamState session replayCapacity) None ∅ [].

(** ** The resume cursor and the frames *)

(** [strconv.ParseUint(s, 10, 64)]: decimal digits whose value fits. *)
Fixpoint parse_decimal (acc : Z) (s : string) : option Z :=
  match s with
  | EmptyString => Some acc
  | String a s => d ← digit_value a; parse_decimal (acc * 10 + d) s
  end.
Definition ParseUint (s : string) : res Z :=
  if String.eqb s "" then Err (ENew "strconv.ParseUint: parsing: invalid syntax")
  else match parse_decimal 0 s with
  | Some n => if n <? 2 ^ 64 then Ok n else Err (ENew "strconv.ParseUint: parsing: value out of range")
  | None => Err (ENew "strconv.ParseUint: parsing: invalid syntax")
  end.

(** [parseResumeCursor] takes the header, then the query parameter. *)
Definition parseResumeCursor (header query : string) : res Z :=
  if negb (String.eqb (TrimSpace header) "") then
    match ParseUint (TrimSpace header) with
    | Ok n => Ok n | Err e => Err (EWrap "invalid Last-Event-ID: " e "")
    end
  else if negb (String.eqb (TrimSpace query) "") then
    match ParseUint (TrimSpace query) with
    | Ok n => Ok n | Err e => Err (EWrap "invalid last_seq: " e "")
    end
  else Ok 0.

Section frames.
(** [json.Marshal] of an event, and the bytes of a raw message. *)
Context (marshal_event : Event → res string) (raw_bytes : RawMessage → string).

Definition eventPayload (ev : Event) : res string :=
  if String.eqb (ev_Type ev) rawAGUIEventType then
    Ok (if String.eqb (raw_bytes (ev_Data ev)) "" then "{}" else raw_bytes (ev_Data ev))
  else marshal_event ev.

Definition newline : Ascii.ascii := Ascii.ascii_of_nat 10.
Definition carriage : Ascii.ascii := Ascii.ascii_of_nat 13.
(** The two replacements: CR LF and CR become LF. *)
Fixpoint normalise_lines (l : list Ascii.ascii) : list Ascii.ascii :=
  match l with
  | [] => []
  | c :: t =>
    if Ascii.eqb c carriage then
      newline :: match t with
                 | d :: t' => if Ascii.eqb d newline then normalise_lines t' else normalise_lines t
                 | [] => []
                 end
    else c :: normalise_lines t
  end.
(** [strings.Split(body, "\n")]. *)
Fixpoint split_lines (l : list Ascii.ascii) : list (list Ascii.ascii) :=
  match l with
  | [] => [[]]
  | c :: t =>
    if Ascii.eqb c newline then [] :: split_lines t
    else match split_lines t with line :: lines => (c :: line) :: lines | [] => [[c]] end
  end.
Definition chars (s : string) : list Ascii.ascii := String.list_ascii_of_string s.
Definition sse_frame (seq : Z) (payload : string) : list Ascii.ascii :=
  chars ("id: " +:+ itoa seq) ++ [newline] ++
  (line ← split_lines (normalise_lines (chars payload)); chars "data: " ++ line ++ [newline]) ++ [newline].
Definition writeSSE (ev : Event) : res (list Ascii.ascii) := sse_frame (ev_Sequence ev) <$> eventPayload ev.
End frames.
