(* ===== verification/AguiSseSafety.v ===== *)
(** * What a client of the event stream is sent

    [sse_stream_exact]: in every interleaving, a request is written events with
    increasing sequence numbers, and unless a live frame was skipped, what it was
    written and what is on the way to it is exactly the part of the log after its
    cursor, after a snapshot if that part was evicted. *)

From S2P Require Import Prelude Errors Json TimeText OrchJson AguiSession AguiReplay AguiSse.

(** ** The invariant *)

(** What a request starts with, for the log at the time it was attached. *)
Definition history_ok (lastSeq : Z) (log0 hist : list Event) : Prop :=
  (0 < lastSeq ∧ ∃ snap, hist = [snap] ∧ ev_Sequence snap = last_seq log0 ∧ ev_Type snap = "session.snapshot") ∨
  (0 < lastSeq ∧ hist = after_seq lastSeq log0) ∨
  (lastSeq = 0 ∧ hist `suffix_of` log0).

Definition in_flight (rid : Z) (flight : option (Event * list Z)) : list Event :=
  match flight with Some (ev, ls) => if bool_decide (rid ∈ ls) then [ev] else [] | None => [] end.
Definition queued (rid : Z) (chans : gmap Z liveListener) : list Event :=
  match chans !! rid with Some c => ll_ch c | None => [] end.

(** [log1] is what was captured since the request was attached. *)
Record request_ok (log : list Event) (on_the_way : list Event) (r : Request)
    (log0 log1 received : list Event) : Prop := {
  ro_log : log = log0 ++ log1;
  ro_high : rq_highWater r = last_seq log0;
  ro_hist : history_ok (rq_lastSeq r) log0 (rq_hist r);
  ro_written :
    match rq_phase r with
    | RReplay todo => received = [] ∧ rq_written r ++ todo = rq_hist r
    | RDrain | RLive => rq_written r = rq_hist r ++ received
    | RGone => ∃ todo, rq_written r ++ todo = rq_hist r ++ received
    end;
  ro_live : (received ++ on_the_way) `sublist_of` log1;
  ro_exact : rq_missed r = false → rq_phase r ≠ RGone → received ++ on_the_way = log1;
}.

Record SseInv (n : Z) (s : SseState) : Prop := {
  in_session : SessionInv (st_session (sse_stream s)) (sse_log s);
  in_seq : ses_seq (st_session (sse_stream s)) ≤ n;
  in_next : 0 ≤ st_nextListenerID (sse_stream s) ≤ n;
  in_ids rid r : sse_requests s !! rid = Some r → 0 < rid ≤ st_nextListenerID (sse_stream s);
  in_listeners rid : rid ∈ st_listeners (sse_stream s) ↔
    ∃ r, sse_requests s !! rid = Some r ∧ rq_phase r ≠ RGone;
  in_chans rid : is_Some (st_chans (sse_stream s) !! rid) ↔ is_Some (sse_requests s !! rid);
  in_flight_ok ev ls : sse_flight s = Some (ev, ls) →
    NoDup ls ∧ ∀ l, l ∈ ls → is_Some (sse_requests s !! l);
  in_requests rid r : sse_requests s !! rid = Some r → ∃ log0 log1 received,
    request_ok (sse_log s) (queued rid (st_chans (sse_stream s)) ++ in_flight rid (sse_flight s)) r log0 log1 received;
}.

(** ** Log arithmetic *)

Lemma last_seq_bound log : StronglySorted seq_lt log → Forall (λ e, ev_Sequence e ≤ last_seq log) log.
Proof.
  intros Hs. destruct log as [|e log _] using rev_ind; [constructor|].
  unfold last_seq. rewrite last_snoc. cbn. apply Forall_app. split; [|by repeat constructor].
  apply Forall_forall. intros x Hx.
  pose proof (StronglySorted_app_1_elem_of _ _ _ x e Hs Hx ltac:(set_solver)) as H. unfold seq_lt in H. lia.
Qed.
Lemma later_seq log0 log1 : StronglySorted seq_lt (log0 ++ log1) → Forall (λ e, 0 < ev_Sequence e) (log0 ++ log1) →
  Forall (λ e, last_seq log0 < ev_Sequence e) log1.
Proof.
  intros Hs Hpos. apply Forall_forall. intros x Hx. unfold last_seq.
  destruct log0 as [|e log0 _] using rev_ind.
  - cbn. by apply (proj1 (Forall_forall _ _) Hpos).
  - rewrite last_snoc. cbn. exact (StronglySorted_app_1_elem_of _ _ _ e x Hs ltac:(set_solver) Hx).
Qed.

Lemma sorted_sublist {A} (R : relation A) l k : l `sublist_of` k → StronglySorted R k → StronglySorted R l.
Proof.
  induction 1 as [|x l k Hs IH|x l k _ IH]; [done|..]; rewrite ?StronglySorted_cons; intros [Hx Hk]; [|auto].
  split; [|auto]. apply Forall_forall. intros y Hy. apply (proj1 (Forall_forall _ _) Hx).
  by eapply elem_of_submseteq, sublist_submseteq.
Qed.

Lemma SessionInv_pos s log : SessionInv s log → Forall (λ e, 0 < ev_Sequence e) log.
Proof. intros [_ _ H _]. eapply Forall_impl; [exact H|]. cbn. lia. Qed.

(** ** Actions *)

Lemma sublist_snoc (l k : list Event) e : l `sublist_of` k → (l ++ [e]) `sublist_of` (k ++ [e]).
Proof. intros. by apply sublist_app. Qed.

Lemma insert_keeps {A} (m : gmap Z A) k v l : is_Some (m !! l) → is_Some (<[k := v]> m !! l).
Proof. intros. rewrite lookup_insert_is_Some. destruct (decide (k = l)); auto. Qed.
Lemma insert_known {A} (m : gmap Z A) k v l : is_Some (m !! k) → is_Some (<[k := v]> m !! l) ↔ is_Some (m !! l).
Proof. intros Hk. split; [|apply insert_keeps]. rewrite lookup_insert_is_Some. by intros [<-|[_ ?]]. Qed.

(** A capture: it is on the way to the registered requests. *)
Lemma capture_ok id data now n s s' : n + 1 < 2 ^ 64 → SseInv n s →
  sse_act (ACapture id data now) s = Some s' → SseInv (n + 1) s'.
Proof.
  intros Hn [I1 I2 I3 I4 I5 I6 I7 I8]. cbn. destruct (sse_flight s) eqn:Hf; [done|]. unfold capture_locked.
  destruct (capture_inv id rawAGUIEventType data now (st_session (sse_stream s)) (sse_log s)) as (Hi & Hseq & _); [lia|done|].
  destruct (CaptureRawEvent _ _ _ _ _) as [session ev]. cbn in Hi, Hseq. intros [= <-].
  split; cbn; try done; [lia|lia|..].
  - intros ev' ls [= <- <-]. split; [apply NoDup_elements|]. intros l Hl%elem_of_elements%I5. naive_solver.
  - intros rid r Hr. destruct (I8 rid r Hr) as (log0 & log1 & rec & [R1 R2 R3 R4 R5 R6]).
    cbn in R5, R6. rewrite app_nil_r in R5, R6.
    exists log0, (log1 ++ [ev]), rec. split; try done.
    + by rewrite R1, (assoc_L (++)).
    + case_bool_decide.
      * rewrite (assoc_L (++)). by apply sublist_snoc.
      * rewrite app_nil_r. by apply sublist_inserts_r.
    + intros Hm Hg. rewrite bool_decide_eq_true_2 by (apply elem_of_elements, I5; eauto).
      rewrite (assoc_L (++)). by rewrite R6.
Qed.

Lemma offer_ok prefer n s s' : SseInv n s → sse_act (AOffer prefer) s = Some s' → SseInv n s'.
Proof.
  intros [I1 I2 I3 I4 I5 I6 I7 I8]. cbn. destruct (sse_flight s) as [[ev [|l ls]]|] eqn:Hf; [| |done].
  { intros [= <-]. by split. }
  destruct (I7 ev (l :: ls) eq_refl) as [[Hl Hnd]%NoDup_cons Hls].
  destruct (st_chans (sse_stream s) !! l) as [c|] eqn:Hc; [|done]. cbn.
  destruct (offer prefer ev c) as [c' sent] eqn:Ho. intros [= <-].
  assert (Hch : ll_ch c' = ll_ch c ++ if sent then [ev] else []).
  { unfold offer in Ho. destruct (_ && _); simplify_eq; by rewrite ?app_nil_r. }
  set (f := λ r, if sent then r else r <| rq_missed := true |>).
  assert (Hreq : ∀ rid r', alter f l (sse_requests s) !! rid = Some r' →
    ∃ r, sse_requests s !! rid = Some r ∧ r' = if bool_decide (rid = l) then f r else r).
  { intros rid r'. rewrite lookup_alter_Some. case_bool_decide; naive_solver. }
  assert (Hphase : ∀ r, rq_phase (f r) = rq_phase r) by (intros r; unfold f; by destruct sent).
  split; cbn; try done.
  - intros rid r' (r & Hr & _)%Hreq. eauto.
  - intros rid. rewrite I5. split.
    + intros (r & Hr & Hg). destruct (decide (l = rid)) as [<-|].
      * exists (f r). rewrite lookup_alter_eq, Hr, Hphase. done.
      * exists r. by rewrite lookup_alter_ne.
    + intros (r' & (r & Hr & ->)%Hreq & Hg). exists r. split; [done|]. by case_bool_decide; [rewrite Hphase in Hg|].
  - intros rid. rewrite lookup_alter_is_Some, <-I6. by apply insert_known.
  - intros ev' ls' [= <- <-]. split; [done|]. intros l' Hl'. rewrite lookup_alter_is_Some. apply Hls. set_solver.
  - intros rid r' (r & Hr & ->)%Hreq. destruct (I8 rid r Hr) as (log0 & log1 & rec & [R1 R2 R3 R4 R5 R6]).
    exists log0, log1, rec. unfold queued in *.
    destruct (decide (rid = l)) as [->|Hrl]; [rewrite (bool_decide_eq_true_2 (l = l)) by done
      |rewrite (bool_decide_eq_false_2 (rid = l)) by done].
    + rewrite lookup_insert_eq. rewrite Hc in R5, R6. cbn in R5, R6 |- *. rewrite Hch.
      rewrite bool_decide_eq_true_2 in R5, R6 by set_solver. rewrite bool_decide_eq_false_2 by done.
      rewrite app_nil_r. unfold f. destruct sent; [by split|]. rewrite app_nil_r.
      split; try done. cbn. etrans; [|exact R5]. rewrite (assoc_L (++)). by apply sublist_inserts_r.
    + rewrite lookup_insert_ne by done. cbn in R5, R6 |- *.
      assert (bool_decide (rid ∈ l :: ls) = bool_decide (rid ∈ ls)) as Hb.
      { apply bool_decide_ext. set_solver. }
      rewrite Hb in R5, R6. by split.
Qed.

(** A request moves on: its identity stays, and whether it is connected. *)
Lemma request_step_ok rid r r' n s : SseInv n s → sse_requests s !! rid = Some r →
  (rq_phase r' = RGone ↔ rq_phase r = RGone) →
  (∀ log0 log1 received,
    request_ok (sse_log s) (queued rid (st_chans (sse_stream s)) ++ in_flight rid (sse_flight s)) r log0 log1 received →
    request_ok (sse_log s) (queued rid (st_chans (sse_stream s)) ++ in_flight rid (sse_flight s)) r' log0 log1 received) →
  SseInv n (s <| sse_requests ::= <[rid := r']> |>).
Proof.
  intros [I1 I2 I3 I4 I5 I6 I7 I8] Hr Hg Hok. split; cbn; try done.
  - intros rid' q. destruct (decide (rid' = rid)) as [->|]; [eauto|]. rewrite lookup_insert_ne by done. eauto.
  - intros rid'. rewrite I5. destruct (decide (rid' = rid)) as [->|].
    + rewrite lookup_insert_eq. naive_solver.
    + by rewrite lookup_insert_ne by done.
  - intros rid'. rewrite I6. symmetry. apply insert_known. eauto.
  - intros ev ls Hf. destruct (I7 ev ls Hf) as [Hnd Hls]. split; [done|]. intros l Hl. by apply insert_keeps, Hls.
  - intros rid' q. destruct (decide (rid' = rid)) as [->|]; [|rewrite lookup_insert_ne by done; apply I8].
    rewrite lookup_insert_eq. intros [= <-]. destruct (I8 rid r Hr) as (log0 & log1 & rec & H). eauto.
Qed.

Lemma with_request_Some rid f s s' : with_request rid f s = Some s' ↔
  ∃ r r', sse_requests s !! rid = Some r ∧ f r = Some r' ∧ s' = s <| sse_requests ::= <[rid := r']> |>.
Proof.
  unfold with_request. destruct (sse_requests s !! rid) as [r|]; cbn; [|naive_solver].
  destruct (f r) as [r'|] eqn:E; cbn; naive_solver.
Qed.

Lemma write_ok rid n s s' : SseInv n s → sse_act (AWrite rid) s = Some s' → SseInv n s'.
Proof.
  intros Hi. cbn. intros (r & r' & Hr & Hf & ->)%with_request_Some.
  destruct (rq_phase r) as [[|ev todo]| | |] eqn:Hp; simplify_eq.
  apply (request_step_ok rid r); [done|done|by rewrite Hp|].
  intros log0 log1 rec [R1 R2 R3 R4 R5 R6]. rewrite Hp in R4, R6. split; cbn; try done.
  - destruct R4 as [-> R4]. by rewrite <-(assoc_L (++)).
  - intros Hm _. by apply R6.
Qed.
Lemma replayed_ok rid n s s' : SseInv n s → sse_act (AReplayed rid) s = Some s' → SseInv n s'.
Proof.
  intros Hi. cbn. intros (r & r' & Hr & Hf & ->)%with_request_Some.
  destruct (rq_phase r) as [[|ev todo]| | |] eqn:Hp; simplify_eq.
  apply (request_step_ok rid r); [done|done|by rewrite Hp|].
  intros log0 log1 rec [R1 R2 R3 R4 R5 R6]. rewrite Hp in R4, R6. split; cbn; try done.
  - destruct R4 as [-> R4]. by rewrite app_nil_r in *.
  - intros Hm _. by apply R6.
Qed.
Lemma drained_ok rid n s s' : SseInv n s → sse_act (ADrained rid) s = Some s' → SseInv n s'.
Proof.
  intros Hi. cbn. destruct (st_chans (sse_stream s) !! rid) as [c|]; [|done]. cbn.
  destruct (ll_ch c); [|done]. intros (r & r' & Hr & Hf & ->)%with_request_Some.
  destruct (rq_phase r) as [| | |] eqn:Hp; simplify_eq.
  apply (request_step_ok rid r); [done|done|by rewrite Hp|].
  intros log0 log1 rec [R1 R2 R3 R4 R5 R6]. rewrite Hp in R4, R6. split; cbn; try done.
  intros Hm _. by apply R6.
Qed.

(** What [attachAndPrepareReplay] hands out is a history for the log. *)
Lemma attach_history id lastSeq now st log st' rid highWater replay snapshot :
  0 ≤ lastSeq → SessionInv (st_session st) log →
  attachAndPrepareReplay id lastSeq now st = (st', (rid, highWater, replay, snapshot)) →
  SessionInv (st_session st') log ∧ ses_seq (st_session st') = ses_seq (st_session st) ∧
  rid = uint64 (st_nextListenerID st + 1) ∧ st_nextListenerID st' = rid ∧
  st_listeners st' = {[rid]} ∪ st_listeners st ∧ st_chans st' = <[rid := MkLiveListener [] false]> (st_chans st) ∧
  (match snapshot with Some snap => ev_Sequence snap | None => highWater end) = last_seq log ∧
  history_ok lastSeq log (match snapshot with Some snap => snap :: replay | None => replay end).
Proof.
  intros Hn Hi. unfold attachAndPrepareReplay.
  destruct (PrepareReconnect id lastSeq now (st_session st)) as [session [[hw rep] snap]] eqn:Hp.
  destruct (PrepareReconnect_spec _ _ _ _ _ _ _ _ _ Hn Hi Hp) as (Hi' & Hs & -> & b & evicted & Hb & Hlog & Hspec).
  intros [= <- Hret]. cbn. destruct snap as [snap|]; injection Hret as <- <- <- <-.
  - destruct Hspec as (-> & Hpos & -> & _). split_and!; try done. left. split; [done|]. eexists. by split_and!.
  - subst rep. split_and!; try done. rewrite filter_all.
    + destruct (Z.eqb_spec lastSeq 0) as [->|]; right; [right|left; split; [lia|done]]. split; [done|].
      exists evicted. rewrite Hlog at 1. f_equal. symmetry. apply after_seq_all.
      apply SessionInv_pos in Hi'. rewrite Hlog in Hi'. by apply Forall_app in Hi' as [_ ?].
    + pose proof (last_seq_bound log (si_sorted _ _ Hi')) as Hb'. apply Forall_filter.
      destruct (lastSeq =? 0); [|done]. set (m := last_seq log) in *. clearbody m. rewrite Hlog in Hb'.
      by apply Forall_app in Hb' as [_ ?].
Qed.

Lemma connect_ok id lastSeq now n s s' : 0 ≤ lastSeq → n + 1 < 2 ^ 64 → SseInv n s →
  sse_act (AConnect id lastSeq now) s = Some s' → SseInv (n + 1) s'.
Proof.
  intros Hlast Hn Hi. destruct Hi as [I1 I2 I3 I4 I5 I6 I7 I8]. cbn.
  destruct (attachAndPrepareReplay id lastSeq now (sse_stream s)) as [st [[[rid hw] replay] snap]] eqn:Ha.
  destruct (attach_history _ _ _ _ _ _ _ _ _ _ Hlast I1 Ha) as (J1 & J2 & Hrid & J3 & J4 & J5 & J6 & J7).
  unfold uint64 in Hrid. rewrite Z.mod_small in Hrid by lia. intros [= <-].
  assert (Hnone : sse_requests s !! rid = None).
  { destruct (sse_requests s !! rid) as [r|] eqn:Hr; [|done]. apply I4 in Hr. lia. }
  assert (Hfl : in_flight rid (sse_flight s) = []).
  { destruct (sse_flight s) as [[ev ls]|] eqn:Hf; [|done]. cbn. rewrite bool_decide_eq_false_2; [done|].
    intros Hin. apply (I7 ev ls eq_refl) in Hin. rewrite Hnone in Hin. by destruct Hin. }
  split; cbn; rewrite ?J2, ?J3, ?J4, ?J5; try done; [lia|lia|..].
  - intros rid' r. destruct (decide (rid' = rid)) as [->|]; [lia|]. rewrite lookup_insert_ne by done.
    intros Hr%I4. lia.
  - intros rid'. rewrite elem_of_union, elem_of_singleton, I5. destruct (decide (rid' = rid)) as [->|].
    + rewrite lookup_insert_eq. split; [|by left]. intros _. by eexists.
    + rewrite lookup_insert_ne by done. naive_solver.
  - intros rid'. rewrite !lookup_insert_is_Some, I6. done.
  - intros ev ls Hf. destruct (I7 ev ls Hf) as [Hnd Hls]. split; [done|]. intros l Hl.
    by apply insert_keeps, Hls.
  - intros rid' r. destruct (decide (rid' = rid)) as [->|].
    + rewrite lookup_insert_eq. intros [= <-]. exists (sse_log s), [], []. unfold queued. rewrite lookup_insert_eq, Hfl.
      split; cbn; try done. by rewrite app_nil_r.
    + rewrite lookup_insert_ne by done. unfold queued. rewrite lookup_insert_ne by done. apply I8.
Qed.

Lemma receive_ok rid n s s' : SseInv n s → sse_act (AReceive rid) s = Some s' → SseInv n s'.
Proof.
  intros Hi. cbn. destruct (st_chans (sse_stream s) !! rid) as [c|] eqn:Hc; [|done]. cbn.
  destruct (ll_ch c) as [|ev q] eqn:Hq; [done|].
  destruct (with_request rid _ s) as [s1|] eqn:Hw; [|done]. cbn. intros [= <-].
  apply with_request_Some in Hw as (r & r' & Hr & Hf & ->).
  assert ((rq_phase r = RDrain ∨ rq_phase r = RLive) ∧ r' = receive ev r) as [Hph ->]
    by (destruct (rq_phase r); simplify_eq; auto).
  destruct Hi as [I1 I2 I3 I4 I5 I6 I7 I8].
  destruct (I8 rid r Hr) as (log0 & log1 & rec & [R1 R2 R3 R4 R5 R6]).
  assert (Hev : rq_highWater r < ev_Sequence ev).
  { rewrite R2. pose proof (later_seq log0 log1) as Hl. rewrite <-R1 in Hl.
    specialize (Hl (si_sorted _ _ I1) (SessionInv_pos _ _ I1)). apply (proj1 (Forall_forall _ _) Hl).
    eapply elem_of_submseteq; [|apply sublist_submseteq, R5]. unfold queued. rewrite Hc, Hq. set_solver. }
  assert (receive ev r = r <| rq_written ::= λ l, l ++ [ev] |>) as ->.
  { unfold receive. by destruct (Z.leb_spec (ev_Sequence ev) (rq_highWater r)); [lia|]. }
  split; cbn; try done.
  - intros rid' q'. destruct (decide (rid' = rid)) as [->|]; [eauto|]. rewrite lookup_insert_ne by done. eauto.
  - intros rid'. rewrite I5. destruct (decide (rid' = rid)) as [->|].
    + rewrite lookup_insert_eq. split; intros (q' & Hq' & Hg); simplify_eq; eauto.
    + by rewrite lookup_insert_ne by done.
  - intros rid'. rewrite !lookup_insert_is_Some, I6. done.
  - intros ev' ls Hfl. destruct (I7 ev' ls Hfl) as [Hnd Hls]. split; [done|]. intros l Hl.
    by apply insert_keeps, Hls.
  - intros rid' q'. unfold queued. destruct (decide (rid' = rid)) as [->|].
    2: { rewrite !lookup_insert_ne by done. apply I8. }
    rewrite !lookup_insert_eq. intros [= <-]. cbn. exists log0, log1, (rec ++ [ev]).
    unfold queued in R5, R6. rewrite Hc, Hq in R5, R6. split; cbn; rewrite <-?(assoc_L (++)); try done.
    destruct Hph as [Hp|Hp]; rewrite Hp in *; by rewrite R4, (assoc_L (++)).
Qed.

Lemma disconnect_ok rid n s s' : SseInv n s → sse_act (ADisconnect rid) s = Some s' → SseInv n s'.
Proof.
  intros Hi. cbn. destruct (with_request rid _ s) as [s1|] eqn:Hw; [|done]. cbn. intros [= <-].
  apply with_request_Some in Hw as (r & r' & Hr & Hf & ->).
  assert (rq_phase r ≠ RGone ∧ r' = r <| rq_phase := RGone |>) as [Hg ->] by (destruct (rq_phase r); by simplify_eq).
  destruct Hi as [I1 I2 I3 I4 I5 I6 I7 I8]. cbn. unfold removeListener.
  rewrite bool_decide_eq_true_2 by (apply I5; eauto).
  assert (Hq : ∀ l, queued l (alter (λ c, c <| ll_done := true |>) rid (st_chans (sse_stream s))) =
                    queued l (st_chans (sse_stream s))).
  { intros l. unfold queued. destruct (decide (rid = l)) as [<-|].
    - rewrite lookup_alter_eq. by destruct (st_chans (sse_stream s) !! rid).
    - by rewrite lookup_alter_ne. }
  split; cbn; try done.
  - intros rid' q'. destruct (decide (rid' = rid)) as [->|]; [eauto|]. rewrite lookup_insert_ne by done. eauto.
  - intros rid'. rewrite elem_of_difference, elem_of_singleton, I5. destruct (decide (rid' = rid)) as [->|].
    + rewrite lookup_insert_eq. split; [naive_solver|]. intros (q' & [= <-] & Hx). by destruct Hx.
    + rewrite lookup_insert_ne by done. naive_solver.
  - intros rid'. rewrite lookup_alter_is_Some, I6. symmetry. apply insert_known. eauto.
  - intros ev' ls Hfl. destruct (I7 ev' ls Hfl) as [Hnd Hls]. split; [done|]. intros l Hl.
    by apply insert_keeps, Hls.
  - intros rid' q'. rewrite Hq. destruct (decide (rid' = rid)) as [->|].
    2: { rewrite lookup_insert_ne by done. apply I8. }
    rewrite lookup_insert_eq. intros [= <-]. destruct (I8 rid r Hr) as (log0 & log1 & rec & [R1 R2 R3 R4 R5 R6]).
    exists log0, log1, rec. split; cbn; try done. destruct (rq_phase r) as [todo| | |]; [|exists []..|done].
    + destruct R4 as [-> R4]. exists todo. by rewrite app_nil_r.
    + by rewrite app_nil_r.
    + by rewrite app_nil_r.
Qed.

Lemma set_status_ok status now n s s' : SseInv n s → sse_act (ASetStatus status now) s = Some s' → SseInv n s'.
Proof.
  intros [I1 I2 I3 I4 I5 I6 I7 I8] [= <-].
  assert (seq_view (SetStatus status now (st_session (sse_stream s))) = seq_view (st_session (sse_stream s))) as Hv
    by (unfold SetStatus; by destruct (negb _)).
  split; cbn; try done; [by eapply view_inv|]. unfold seq_view in Hv. injection Hv as -> _. done.
Qed.

(** ** Runs *)

Definition cursor_ok (a : SseAction) : Prop := match a with AConnect _ lastSeq _ => 0 ≤ lastSeq | _ => True end.

Lemma SseInv_mono n n' s : n ≤ n' → SseInv n s → SseInv n' s.
Proof. intros Hn [? ? ? ? ? ? ? ?]. split; try done; lia. Qed.

Lemma sse_act_ok a n s s' : cursor_ok a → n + 1 < 2 ^ 64 → SseInv n s → sse_act a s = Some s' → SseInv (n + 1) s'.
Proof.
  intros Hc Hn Hi Ha. destruct a; [by eapply capture_ok| |by eapply connect_ok|..];
    (apply (SseInv_mono n); [lia|]).
  - by eapply offer_ok.
  - by eapply write_ok.
  - by eapply replayed_ok.
  - by eapply receive_ok.
  - by eapply drained_ok.
  - by eapply disconnect_ok.
  - by eapply set_status_ok.
Qed.

Lemma sse_run_ok acts n s s' : Forall cursor_ok acts → n + Z.of_nat (length acts) < 2 ^ 64 → SseInv n s →
  sse_run acts s = Some s' → SseInv (n + Z.of_nat (length acts)) s'.
Proof.
  intros Hc. revert n s. induction Hc as [|a acts Ha _ IH]; intros n s Hn Hi; cbn [sse_run length].
  - intros [= <-]. by rewrite Z.add_0_r.
  - destruct (sse_act a s) as [s1|] eqn:E; [|done]. cbn. intros Hr. cbn [length] in Hn.
    apply (SseInv_mono (n + 1 + Z.of_nat (length acts))); [lia|].
    apply (IH (n + 1) s1); [lia| |done]. eapply sse_act_ok; [done| |done..]. lia.
Qed.

Lemma sse_start_ok id mode now capacity : SseInv 0 (sse_start (NewSession id mode now) capacity).
Proof.
  assert (SessionInv (NewSession id mode now) []) as Hi by (split; cbn; [lia|constructor|constructor|done]).
  destruct (ensure_inv capacity _ _ Hi) as (Hi' & Hs & _).
  split; try done.
  - intros rid. split; [cbn; set_solver|]. intros (r & Hr & _). cbn in Hr. by rewrite lookup_empty in Hr.
  - intros rid. cbn. by rewrite !lookup_empty.
Qed.

(** The history and the events after its high-water mark, in order. *)
Definition promised (r : Request) (log : list Event) : list Event := rq_hist r ++ after_seq (rq_highWater r) log.
(** Nothing is on the way to the request. *)
Definition idle (rid : Z) (r : Request) (s : SseState) : Prop :=
  (rq_phase r = RDrain ∨ rq_phase r = RLive) ∧ queued rid (st_chans (sse_stream s)) = [] ∧
  in_flight rid (sse_flight s) = [].

Lemma promised_spec log0 log1 r : StronglySorted seq_lt (log0 ++ log1) → Forall (λ e, 0 < ev_Sequence e) (log0 ++ log1) →
  rq_highWater r = last_seq log0 → history_ok (rq_lastSeq r) log0 (rq_hist r) →
  after_seq (rq_highWater r) (log0 ++ log1) = log1 ∧ StronglySorted seq_lt (rq_hist r ++ log1).
Proof.
  intros Hs Hpos Hh Hist. pose proof (later_seq _ _ Hs Hpos) as Hl. pose proof Hs as Hs'.
  apply StronglySorted_app in Hs' as (Hlt & Hs0 & Hs1). pose proof (last_seq_bound _ Hs0) as Hb.
  split; [by rewrite after_seq_app, Hh, after_seq_none, after_seq_all|].
  destruct Hist as [(_ & snap & -> & Hsnap & _)|[[_ ->]|[_ [k Hk]]]].
  - apply StronglySorted_app. split_and!; [|repeat constructor|done].
    intros x y ->%list_elem_of_singleton Hy. unfold seq_lt. rewrite Hsnap. by apply (proj1 (Forall_forall _ _) Hl).
  - assert (after_seq (rq_lastSeq r) log0 `sublist_of` log0) as Hsub by apply sublist_filter.
    apply StronglySorted_app. split_and!; [|by eapply sorted_sublist|done].
    intros x y Hx Hy. apply Hlt; [|done]. by eapply elem_of_submseteq, sublist_submseteq.
  - rewrite Hk in Hlt, Hs0. apply StronglySorted_app. split_and!; [|by eapply StronglySorted_app_1_r|done].
    intros x y Hx Hy. apply Hlt; [set_solver|done].
Qed.

(** C16: in every interleaving of captures, requests and disconnections, a request is written
    events with increasing sequence numbers, all of them promised: the events after its
    cursor, or a snapshot at the high-water mark and the events after that.  A request
    that missed no live frame has been written a prefix of the promise, and all of it
    when nothing is on the way. *)
Theorem sse_stream_exact acts id mode now capacity s rid r :
  Z.of_nat (length acts) < 2 ^ 64 → Forall cursor_ok acts →
  sse_run acts (sse_start (NewSession id mode now) capacity) = Some s → sse_requests s !! rid = Some r →
  StronglySorted seq_lt (rq_written r) ∧ rq_written r `sublist_of` promised r (sse_log s) ∧
  (rq_missed r = false → rq_phase r ≠ RGone →
     rq_written r `prefix_of` promised r (sse_log s) ∧
     (idle rid r s → rq_written r = promised r (sse_log s))) ∧
  ((∃ snap, rq_hist r = [snap] ∧ ev_Sequence snap = rq_highWater r ∧ ev_Type snap = "session.snapshot") ∨
   (rq_lastSeq r = 0 ∧ promised r (sse_log s) `suffix_of` sse_log s) ∨
   (0 < rq_lastSeq r ∧ (rq_lastSeq r ≤ rq_highWater r → promised r (sse_log s) = after_seq (rq_lastSeq r) (sse_log s)))).
Proof.
  intros Hlen Hc Hrun Hr. pose proof (sse_run_ok acts 0 _ s Hc ltac:(lia) (sse_start_ok id mode now capacity) Hrun) as Hi.
  destruct (in_requests _ _ Hi rid r Hr) as (log0 & log1 & rec & [R1 R2 R3 R4 R5 R6]).
  pose proof (si_sorted _ _ (in_session _ _ Hi)) as Hs. pose proof (SessionInv_pos _ _ (in_session _ _ Hi)) as Hpos.
  rewrite R1 in Hs, Hpos. destruct (promised_spec log0 log1 r Hs Hpos R2 R3) as [Haft Hsort].
  unfold promised. rewrite R1, Haft.
  assert (Hrec : rec `sublist_of` log1) by (etrans; [|exact R5]; by apply sublist_inserts_r).
  assert (Hsub : rq_written r `sublist_of` rq_hist r ++ log1).
  { destruct (rq_phase r) as [todo| | |].
    - destruct R4 as [_ <-]. by do 2 apply sublist_inserts_r.
    - rewrite R4. by apply sublist_app.
    - rewrite R4. by apply sublist_app.
    - destruct R4 as [todo R4]. etrans; [|by apply sublist_app]. rewrite <-R4. by apply sublist_inserts_r. }
  split; [by eapply sorted_sublist|]. split; [done|]. split.
  - intros Hm Hg. specialize (R6 Hm Hg). rewrite <-R6. unfold idle. split.
    + destruct (rq_phase r) as [todo| | |]; [|rewrite R4; apply prefix_app, prefix_app_r; done..|done].
      destruct R4 as [_ <-]. by do 2 apply prefix_app_r.
    + intros (Hph & -> & ->). rewrite !app_nil_r. by destruct Hph as [Hp|Hp]; rewrite Hp in R4.
  - destruct R3 as [(_ & snap & ? & ? & ?)|[[Hp ->]|[H0 [k Hk]]]]; [left|right; right|right; left].
    + exists snap. by rewrite R2.
    + split; [done|]. intros Hle. rewrite after_seq_app. f_equal. symmetry. apply after_seq_all.
      eapply Forall_impl; [apply (later_seq log0 log1); done|]. cbn. lia.
    + split; [done|]. exists k. by rewrite Hk, (assoc_L (++)).
Qed.

(** A client connects, two events are captured and written. *)
Definition demo_capture : SseAction := ACapture "evt" RawNil 0.
Definition demo_acts : list SseAction :=
  [demo_capture; AOffer true; AConnect "evt" 0 0; AWrite 1; AReplayed 1; ADrained 1;
   demo_capture; AOffer true; AOffer true; AReceive 1].
Notation demo_start := (sse_start (NewSession "ses" "core-run" 0) 100) (only parsing).
Lemma sse_stream_exact_witness :
  ∃ s r, sse_run demo_acts demo_start = Some s ∧ sse_requests s !! 1 = Some r ∧
    idle 1 r s ∧ ev_Sequence <$> rq_written r = [1; 2] ∧ rq_written r = promised r (sse_log s).
Proof.
  pose proof (sse_stream_exact demo_acts "ses" "core-run" 0 100) as H.
  destruct (sse_run demo_acts demo_start) as [s|] eqn:E; [|by vm_compute in E].
  assert (∃ r, sse_requests s !! 1 = Some r ∧ idle 1 r s ∧ ev_Sequence <$> rq_written r = [1; 2] ∧
    rq_missed r = false ∧ rq_phase r ≠ RGone) as (r & Hr & Hidle & Hw & Hm & Hg).
  { vm_compute in E. injection E as <-. eexists. split; [vm_compute; reflexivity|].
    split; [split; [by right|by vm_compute]|]. by vm_compute. }
  exists s, r. split_and!; [done..|].
  assert (Hlen : Z.of_nat (length demo_acts) < 2 ^ 64) by (vm_compute; reflexivity).
  assert (Hcur : Forall cursor_ok demo_acts) by (repeat constructor; done).
  destruct (H s 1 r Hlen Hcur eq_refl Hr) as (_ & _ & Hx & _). by apply Hx.
Defined.

(** ** A frame that was skipped

    The channel of a slow client is full, one frame is skipped, and the client goes on
    with the next one.  The last sequence number it has seen is now past the frame, so
    that a reconnect does not bring it back. *)
Definition slow_acts : list SseAction :=
  [AConnect "evt" 0 0; AReplayed 1] ++ mjoin (replicate 257 [demo_capture; AOffer true; AOffer true]) ++
  replicate 256 (AReceive 1) ++ [demo_capture; AOffer true; AOffer true; AReceive 1; ADisconnect 1] ++
  [AConnect "evt" 258 0; AReplayed 2].

Lemma skipped_frame_is_lost :
  ∃ s r1 r2, sse_run slow_acts demo_start = Some s ∧ length (sse_log s) = 258%nat ∧
    sse_requests s !! 1 = Some r1 ∧ rq_missed r1 = true ∧
    ev_Sequence <$> rq_written r1 = (Z.of_nat <$> seq 1 256) ++ [258] ∧
    sse_requests s !! 2 = Some r2 ∧ rq_lastSeq r2 = 258 ∧ idle 2 r2 s ∧ rq_written r2 = [].
Proof.
  destruct (sse_run slow_acts demo_start) as [s|] eqn:E; [|by vm_compute in E].
  exists s. vm_compute in E. injection E as <-. eexists _, _. split; [done|].
  split; [by vm_compute|]. split; [vm_compute; reflexivity|]. split; [done|]. split; [by vm_compute|].
  split; [vm_compute; reflexivity|]. split; [done|]. split; [|done]. split; [by left|by vm_compute].
Qed.
