(* ===== verification/AguiFrame.v ===== *)
(** * Frames of the event stream read back

    A reader of the text/event-stream format: lines end at CR LF, CR or LF; of those up
    to the first empty one, [data] lines add to the data and an [id] line sets the
    identifier.
    [sse_frame_roundtrip] says that what [writeSSE] writes is read back as the sequence
    number and the payload with its line ends normalised. *)

From S2P Require Import Prelude Errors Json TimeText OrchJson AguiSession AguiSse.

Fixpoint strip_chars (p l : list Ascii.ascii) : option (list Ascii.ascii) :=
  match p, l with
  | [], _ => Some l
  | a :: p, b :: l => if Ascii.eqb a b then strip_chars p l else None
  | _ :: _, [] => None
  end.
(** The identifier and the data, in which every line is ended. *)
Fixpoint read_fields (lines : list (list Ascii.ascii)) (id data : list Ascii.ascii) : list Ascii.ascii * list Ascii.ascii :=
  match lines with
  | [] => (id, data)
  | line :: lines =>
    match line with
    | [] => (id, data)
    | _ :: _ =>
      match strip_chars (chars "id: ") line, strip_chars (chars "data: ") line with
      | Some v, _ => read_fields lines v data
      | None, Some v => read_fields lines id (data ++ v ++ [newline])
      | None, None => read_fields lines id data
      end
    end
  end.
(** The last line end is not part of the data. *)
Definition read_frame (frame : list Ascii.ascii) : list Ascii.ascii * list Ascii.ascii :=
  let '(id, data) := read_fields (split_lines (normalise_lines frame)) [] [] in (id, take (length data - 1) data).

Lemma strip_chars_app p l : strip_chars p (p ++ l) = Some l.
Proof. induction p as [|a p IH]; [done|]. cbn. by rewrite Ascii.eqb_refl. Qed.

Lemma split_lines_cons line rest : newline ∉ line → split_lines (line ++ newline :: rest) = line :: split_lines rest.
Proof.
  induction line as [|c line IH]; intros Hn; [done|].
  cbn -[newline]. destruct (Ascii.eqb_spec c newline) as [->|]; [set_solver|]. by rewrite IH by set_solver.
Qed.
Lemma split_lines_no_newline l : Forall (λ line, newline ∉ line) (split_lines l).
Proof.
  induction l as [|c l IH]; cbn -[newline]; [repeat constructor; set_solver|].
  destruct (Ascii.eqb_spec c newline) as [->|Hc]; [constructor; [set_solver|done]|].
  destruct (split_lines l) as [|line lines]; [repeat constructor; set_solver|].
  apply Forall_cons in IH as [H1 H2]. constructor; [set_solver|done].
Qed.
Lemma split_lines_nonempty l : split_lines l ≠ [].
Proof. destruct l as [|c l]; [done|]. cbn -[newline]. destruct (Ascii.eqb c newline); [done|]. by destruct (split_lines l). Qed.

(** Joining the lines with line ends gives the text back, with one at the end. *)
Lemma join_lines l : (line ← split_lines l; line ++ [newline]) = l ++ [newline].
Proof.
  induction l as [|c l IH]; [done|]. cbn -[newline].
  destruct (Ascii.eqb_spec c newline) as [->|Hc]; [by rewrite <-IH|].
  pose proof (split_lines_nonempty l). destruct (split_lines l) as [|line lines]; [done|].
  cbn -[newline] in *. by rewrite <-IH.
Qed.

(** The data lines of a frame. *)
Lemma split_data lines rest : Forall (λ line, newline ∉ line) lines →
  split_lines ((line ← lines; chars "data: " ++ line ++ [newline]) ++ rest) =
    ((λ line, chars "data: " ++ line) <$> lines) ++ split_lines rest.
Proof.
  induction 1 as [|line lines Hl _ IH]; [done|].
  assert (newline ∉ chars "data: " ++ line) as Hn by (rewrite elem_of_app; intros [H|H]; [vm_compute in H; set_solver|done]).
  change (((chars "data: " ++ line ++ [newline]) ++ (line ← lines; chars "data: " ++ line ++ [newline])) ++ rest)
    with ((line ← line :: lines; chars "data: " ++ line ++ [newline]) ++ rest).
  rewrite bind_cons, <-!(assoc_L (++)), (assoc_L (++) (chars "data: ")).
  cbn [app]. rewrite split_lines_cons by done. rewrite IH. done.
Qed.
Lemma read_data lines rest id data :
  read_fields (((λ line, chars "data: " ++ line) <$> lines) ++ [] :: rest) id data =
    (id, data ++ (line ← lines; line ++ [newline])).
Proof.
  revert data. induction lines as [|line lines IH]; intros data; [by rewrite app_nil_r|].
  change (read_fields (((λ line, chars "data: " ++ line) <$> lines) ++ [] :: rest) id (data ++ line ++ [newline]) =
    (id, data ++ (line ++ [newline]) ++ (line ← lines; line ++ [newline]))).
  rewrite IH. f_equal. by rewrite !(assoc_L (++)).
Qed.

(** Numbers are digits. *)
Definition digit_free (c : Ascii.ascii) : Prop := (∀ x, pretty_N_char x ≠ c) ∧ Ascii.Ascii true false true true false true false false ≠ c.
Lemma pretty_N_go_free c x s : digit_free c → c ∉ chars s → c ∉ chars (pretty_N_go x s).
Proof.
  intros [Hc _]. revert s. induction (N.lt_wf_0 x) as [x _ IH]; intros s Hs.
  assert (x = 0 ∨ 0 < x)%N as [->|Hx] by lia; [by rewrite pretty_N_go_0|].
  rewrite pretty_N_go_step by done. apply IH; [by apply N.div_lt|].
  apply not_elem_of_cons. split; [exact (not_eq_sym (Hc _))|done].
Qed.
Lemma itoa_free c n : digit_free c → c ∉ chars (itoa n).
Proof.
  intros Hc. unfold itoa, pretty, pretty_Z. destruct n as [|p|p].
  - apply not_elem_of_cons. split; [exact (not_eq_sym (proj1 Hc 0%N))|set_solver].
  - apply pretty_N_go_free; [done|set_solver].
  - apply not_elem_of_cons. split; [exact (not_eq_sym (proj2 Hc))|]. apply pretty_N_go_free; [done|set_solver].
Qed.
Lemma newline_digit_free : digit_free newline.
Proof. split; [intros x; unfold pretty_N_char; by repeat case_match|done]. Qed.
Lemma carriage_digit_free : digit_free carriage.
Proof. split; [intros x; unfold pretty_N_char; by repeat case_match|done]. Qed.

(** Normalised text has no CR, and text without CR is normalised. *)
Lemma normalise_no_carriage l : carriage ∉ normalise_lines l.
Proof.
  remember (length l) as n eqn:Hn. revert l Hn. induction (lt_wf n) as [n _ IH]. intros [|c t] ->; [cbn; set_solver|].
  assert (Hrec : ∀ t', (length t' ≤ length t)%nat → carriage ∉ normalise_lines t') by (intros t' Ht; apply (IH (length t')); [cbn; lia|done]).
  cbn [normalise_lines]. destruct (Ascii.eqb_spec c carriage) as [->|Hc].
  - apply not_elem_of_cons. split; [done|]. destruct t as [|d t']; [set_solver|].
    destruct (Ascii.eqb d newline); apply Hrec; cbn; lia.
  - apply not_elem_of_cons. split; [done|by apply Hrec].
Qed.
Lemma normalise_id l : carriage ∉ l → normalise_lines l = l.
Proof.
  induction l as [|c l IH]; [done|]. intros [Hc Hl]%not_elem_of_cons. cbn [normalise_lines].
  destruct (Ascii.eqb_spec c carriage) as [->|_]; [done|]. by rewrite IH.
Qed.
Lemma split_lines_elem c l line : line ∈ split_lines l → c ∈ line → c ∈ l.
Proof.
  revert line. induction l as [|d l IH]; intros line Hin Hc; cbn -[newline] in Hin;
    [apply list_elem_of_singleton in Hin as ->; by apply elem_of_nil in Hc|].
  apply elem_of_cons. destruct (Ascii.eqb d newline).
  { apply elem_of_cons in Hin as [->|Hin]; [by apply elem_of_nil in Hc|right; by eapply IH]. }
  destruct (split_lines l) as [|line0 lines].
  { apply list_elem_of_singleton in Hin as ->. apply list_elem_of_singleton in Hc. by left. }
  apply elem_of_cons in Hin as [->|Hin]; [|right; by eapply IH; [right|]].
  apply elem_of_cons in Hc as [->|Hc]; [by left|right]. by eapply IH; [left|].
Qed.
Lemma frame_no_carriage seq payload : carriage ∉ sse_frame seq payload.
Proof.
  assert (carriage ≠ newline) as Hnl by done.
  unfold sse_frame. change (chars ("id: " +:+ itoa seq)) with (chars "id: " ++ chars (itoa seq)).
  rewrite !elem_of_app, list_elem_of_bind, !list_elem_of_singleton.
  intros [[H|H]|[H|[(line & H & Hin)|H]]]; try done; [vm_compute in H; set_solver|by destruct (itoa_free _ _ carriage_digit_free H)|].
  rewrite !elem_of_app, list_elem_of_singleton in H. destruct H as [H|[H|H]]; [vm_compute in H; set_solver| |done].
  apply (normalise_no_carriage (chars payload)). by eapply split_lines_elem.
Qed.

(** C23: a client reads back the sequence number and the payload, whose line ends are
    normalised, from the frame of an event. *)
Theorem sse_frame_roundtrip seq payload :
  read_frame (sse_frame seq payload) = (chars (itoa seq), normalise_lines (chars payload)).
Proof.
  unfold read_frame. rewrite normalise_id by apply frame_no_carriage. unfold sse_frame. set (body := normalise_lines (chars payload)).
  assert (newline ∉ chars ("id: " +:+ itoa seq)) as Hid.
  { change (chars ("id: " +:+ itoa seq)) with (chars "id: " ++ chars (itoa seq)). rewrite elem_of_app.
    intros [H|H]; [vm_compute in H; set_solver|by destruct (itoa_free _ _ newline_digit_free H)]. }
  cbn [app]. rewrite split_lines_cons by done. rewrite split_data by apply split_lines_no_newline.
  change (split_lines [newline]) with ([] :: [[] : list Ascii.ascii]).
  change (chars ("id: " +:+ itoa seq)) with (chars "id: " ++ chars (itoa seq)).
  cbn [read_fields]. change (chars "id: " ++ chars (itoa seq)) with
    (Ascii.ascii_of_nat 105 :: chars "d: " ++ chars (itoa seq)) at 1.
  cbv iota. rewrite strip_chars_app, read_data, join_lines. cbn [app].
  by rewrite length_app, Nat.add_sub, take_app_length.
Qed.
