(* ===== verification/AguiApproval.v ===== *)
(** * The approval bridge

    src/ext/agui/approval.go.  A call of the approval function blocks the agent until
    [Resolve] is called for its tool call or its context ends.  The calls of both run in
    goroutines of their own: the state is the map of the bridge, the pending approvals
    it points to, and where each call stands; an action is one step of one call. *)

From S2P Require Import Prelude Errors.

Record ApprovalResult := MkApprovalResult { ar_Approved : bool; ar_Message : string }.

(** A pending approval: its channel of capacity one, with the call of [Resolve] that
    sent the result, and whether [done] is closed. *)
Record pendingApproval := MkPending { pa_ch : option (nat * ApprovalResult); pa_done : bool }.
#[export] Instance pendingApproval_eta : RecordEta pendingApproval := λ p, MkPending (pa_ch p) (pa_done p).

(** A call of the approval function: it waits in the select, has left it, has closed
    [done], or has returned. *)
Inductive WaitPhase :=
| WWaiting
| WLeaving (r : res bool)
| WClosed (r : res bool)
| WReturned (r : res bool).
(** [w_from] is the call of [Resolve] whose result was received. *)
Record Waiter := MkWaiter { w_toolCallID : string; w_phase : WaitPhase; w_from : option nat }.
#[export] Instance Waiter_eta : RecordEta Waiter := λ w, MkWaiter (w_toolCallID w) (w_phase w) (w_from w).

(** A call of [Resolve]: it found a pending approval, has sent, or has returned. *)
Inductive ResolvePhase :=
| RFound (pa : nat)
| RSent (pa : nat)
| RReturned (delivered : bool).
Record Resolver := MkResolver { rv_toolCallID : string; rv_result : ApprovalResult; rv_phase : ResolvePhase }.
#[export] Instance Resolver_eta : RecordEta Resolver := λ r,
  MkResolver (rv_toolCallID r) (rv_result r) (rv_phase r).

(** The pending approval of a call is named by the call. *)
Record Bridge := MkBridge {
  br_pending : gmap string nat;
  br_approvals : gmap nat pendingApproval;
  br_waiters : gmap nat Waiter;
  br_resolvers : gmap nat Resolver;
  br_requests : list string;          (* calls of OnRequest *)
}.
#[export] Instance Bridge_eta : RecordEta Bridge := λ b,
  MkBridge (br_pending b) (br_approvals b) (br_waiters b) (br_resolvers b) (br_requests b).
Definition NewApprovalBridge : Bridge := MkBridge ∅ ∅ ∅ ∅ [].

Definition ErrNoToolCallID : error := ENew "agui: no tool call ID in context for approval".
Definition ErrCanceled : error := ESentinel "context canceled".

Inductive BridgeAction :=
| WRequest (w : nat) (toolCallID : string)        (* the call starts: registered, OnRequest called *)
| WReceive (w : nat)                              (* the select takes the result *)
| WCancel (w : nat)                               (* the select takes the end of the context *)
| WCloseDone (w : nat)                            (* deferred: close(done) *)
| WRemove (w : nat)                               (* deferred: delete from the map *)
| RLookup (r : nat) (toolCallID : string) (approved : bool) (message : string)
| RSend (r : nat)                                 (* the select sends the result *)
| RDone (r : nat).                                (* done is seen closed, in the select or after the send *)

Definition bridge_act (a : BridgeAction) (b : Bridge) : option Bridge :=
  match a with
  | WRequest w id =>
    match br_waiters b !! w with
    | Some _ => None
    | None =>
      if String.eqb id "" then
        Some (b <| br_waiters ::= <[w := MkWaiter id (WReturned (Err ErrNoToolCallID)) None]> |>)
      else
        Some (b <| br_approvals ::= <[w := MkPending None false]> |>
                <| br_pending ::= <[id := w]> |>
                <| br_requests ::= λ l, l ++ [id] |>
                <| br_waiters ::= <[w := MkWaiter id WWaiting None]> |>)
    end
  | WReceive w =>
    wt ← br_waiters b !! w; pa ← br_approvals b !! w;
    match w_phase wt, pa_ch pa with
    | WWaiting, Some (r, res) =>
      Some (b <| br_approvals ::= <[w := pa <| pa_ch := None |>]> |>
              <| br_waiters ::= <[w := wt <| w_phase := WLeaving (Ok (ar_Approved res)) |> <| w_from := Some r |>]> |>)
    | _, _ => None
    end
  | WCancel w =>
    wt ← br_waiters b !! w;
    match w_phase wt with
    | WWaiting => Some (b <| br_waiters ::= <[w := wt <| w_phase := WLeaving (Err ErrCanceled) |>]> |>)
    | _ => None
    end
  | WCloseDone w =>
    wt ← br_waiters b !! w; pa ← br_approvals b !! w;
    match w_phase wt with
    | WLeaving r =>
      Some (b <| br_approvals ::= <[w := pa <| pa_done := true |>]> |>
              <| br_waiters ::= <[w := wt <| w_phase := WClosed r |>]> |>)
    | _ => None
    end
  | WRemove w =>
    wt ← br_waiters b !! w;
    match w_phase wt with
    | WClosed r =>
      Some (b <| br_pending ::= delete (w_toolCallID wt) |>
              <| br_waiters ::= <[w := wt <| w_phase := WReturned r |>]> |>)
    | _ => None
    end
  | RLookup r id approved message =>
    match br_resolvers b !! r with
    | Some _ => None
    | None =>
      let phase := match br_pending b !! id with Some pa => RFound pa | None => RReturned false end in
      Some (b <| br_resolvers ::= <[r := MkResolver id (MkApprovalResult approved message) phase]> |>)
    end
  | RSend r =>
    rv ← br_resolvers b !! r;
    match rv_phase rv with
    | RFound p =>
      pa ← br_approvals b !! p;
      match pa_ch pa with
      | Some _ => None
      | None =>
        Some (b <| br_approvals ::= <[p := pa <| pa_ch := Some (r, rv_result rv) |>]> |>
                <| br_resolvers ::= <[r := rv <| rv_phase := RSent p |>]> |>)
      end
    | _ => None
    end
  | RDone r =>
    rv ← br_resolvers b !! r;
    match rv_phase rv with
    | RFound p =>
      pa ← br_approvals b !! p;
      if pa_done pa then Some (b <| br_resolvers ::= <[r := rv <| rv_phase := RReturned false |>]> |>) else None
    | RSent p =>
      pa ← br_approvals b !! p;
      if pa_done pa then Some (b <| br_resolvers ::= <[r := rv <| rv_phase := RReturned true |>]> |>) else None
    | RReturned _ => None
    end
  end.

Definition bridge_run (acts : list BridgeAction) : option Bridge :=
  foldl (λ b a, b ← b; bridge_act a b) (Some NewApprovalBridge) acts.

Definition PendingCount (b : Bridge) : nat := size (br_pending b).
Definition PendingIDs (b : Bridge) : list string := (map_to_list (br_pending b)).*1.

(** ** The invariant *)

Definition outcome (p : WaitPhase) : option (res bool) :=
  match p with WWaiting => None | WLeaving r | WClosed r | WReturned r => Some r end.

(** A result that was received came from a call of [Resolve] for the same tool call. *)
Definition sent_by (b : Bridge) (id : string) (r : nat) (res : ApprovalResult) : Prop :=
  ∃ rv, br_resolvers b !! r = Some rv ∧ rv_toolCallID rv = id ∧ rv_result rv = res ∧ rv_phase rv ≠ RReturned false ∧
        ∀ p, rv_phase rv ≠ RFound p.

Record BridgeInv (b : Bridge) : Prop := {
  bi_pending id w : br_pending b !! id = Some w →
    ∃ wt, br_waiters b !! w = Some wt ∧ w_toolCallID wt = id ∧ id ≠ "" ∧ is_Some (br_approvals b !! w) ∧
          ∀ r, w_phase wt ≠ WReturned r;
  bi_approvals w pa : br_approvals b !! w = Some pa → ∃ wt, br_waiters b !! w = Some wt ∧
    (pa_done pa = true ↔ match w_phase wt with WClosed _ | WReturned _ => True | _ => False end) ∧
    ∀ r res, pa_ch pa = Some (r, res) → sent_by b (w_toolCallID wt) r res;
  bi_waiting w wt : br_waiters b !! w = Some wt → w_toolCallID wt ≠ "" → is_Some (br_approvals b !! w);
  bi_answer w wt : br_waiters b !! w = Some wt →
    match outcome (w_phase wt) with
    | Some (Ok a) => w_toolCallID wt ≠ "" ∧ ∃ r res, w_from wt = Some r ∧ ar_Approved res = a ∧ sent_by b (w_toolCallID wt) r res
    | Some (Err e) => (e = ErrCanceled ∧ w_toolCallID wt ≠ "") ∨
                      (w_toolCallID wt = "" ∧ w_phase wt = WReturned (Err ErrNoToolCallID))
    | None => w_toolCallID wt ≠ ""
    end;
  bi_resolvers r rv p : br_resolvers b !! r = Some rv → rv_phase rv = RFound p ∨ rv_phase rv = RSent p →
    ∃ wt, br_waiters b !! p = Some wt ∧ w_toolCallID wt = rv_toolCallID rv ∧ is_Some (br_approvals b !! p);
  bi_sent r rv p wt pa : br_resolvers b !! r = Some rv → rv_phase rv = RSent p →
    br_waiters b !! p = Some wt → br_approvals b !! p = Some pa → w_phase wt = WWaiting → pa_ch pa ≠ None;
}.

(** The answer of a waiter in a phase. *)
Definition answer_ok (b : Bridge) (wt : Waiter) : Prop :=
  match outcome (w_phase wt) with
  | Some (Ok a) => w_toolCallID wt ≠ "" ∧ ∃ r res, w_from wt = Some r ∧ ar_Approved res = a ∧ sent_by b (w_toolCallID wt) r res
  | Some (Err e) => (e = ErrCanceled ∧ w_toolCallID wt ≠ "") ∨
                    (w_toolCallID wt = "" ∧ w_phase wt = WReturned (Err ErrNoToolCallID))
  | None => w_toolCallID wt ≠ ""
  end.
Definition closed_phase (p : WaitPhase) : Prop := match p with WClosed _ | WReturned _ => True | _ => False end.

(** A waiter moves on. *)
Lemma waiter_step b w wt wt' pa pa' pend :
  BridgeInv b → br_waiters b !! w = Some wt → br_approvals b !! w = Some pa →
  w_toolCallID wt' = w_toolCallID wt → answer_ok b wt' → w_phase wt' ≠ WWaiting →
  (pa_done pa' = true ↔ closed_phase (w_phase wt')) → (∀ x, pa_ch pa' = Some x → pa_ch pa = Some x) →
  (∀ id v, pend !! id = Some v → br_pending b !! id = Some v ∧ (v = w → ∀ r, w_phase wt' ≠ WReturned r)) →
  BridgeInv (b <| br_pending := pend |> <| br_approvals ::= <[w := pa']> |> <| br_waiters ::= <[w := wt']> |>).
Proof.
  intros [B1 B2 B3 B4 B5 B6] Hw Hpa Hid Hans Hwait Hdone Hch Hpend. split; cbn.
  - intros id v Hv. destruct (Hpend id v Hv) as [Hb Hr]. destruct (B1 id v Hb) as (u & Hu & Huid & Hne & Hap & Hret).
    destruct (decide (w = v)) as [<-|Hwv].
    + exists wt'. rewrite !lookup_insert_eq. simplify_eq. split_and!; try done. by apply Hr.
    + exists u. by rewrite !lookup_insert_ne.
  - intros v p. destruct (decide (w = v)) as [<-|Hwv].
    + rewrite !lookup_insert_eq. intros [= <-]. exists wt'. split; [done|]. split; [exact Hdone|].
      intros r res Hr. destruct (B2 w pa Hpa) as (u & Hu & _ & Hsent). simplify_eq. rewrite Hid. by apply Hsent, Hch.
    + rewrite !lookup_insert_ne by done. apply B2.
  - intros v u. destruct (decide (w = v)) as [<-|Hwv].
    + rewrite !lookup_insert_eq. eauto.
    + rewrite !lookup_insert_ne by done. apply B3.
  - intros v u. destruct (decide (w = v)) as [<-|Hwv].
    + rewrite lookup_insert_eq. intros [= <-]. exact Hans.
    + rewrite lookup_insert_ne by done. apply B4.
  - intros r rv p Hr Hph. destruct (B5 r rv p Hr Hph) as (u & Hu & Huid & Hap).
    destruct (decide (w = p)) as [<-|Hwp].
    + exists wt'. rewrite !lookup_insert_eq. simplify_eq. split_and!; [done|congruence|done].
    + exists u. by rewrite !lookup_insert_ne.
  - intros r rv p u q Hr Hph. destruct (decide (w = p)) as [<-|Hwp].
    + rewrite !lookup_insert_eq. by intros [= <-].
    + rewrite !lookup_insert_ne by done. eauto.
Qed.

(** A call of [Resolve] moves on. *)
Lemma resolver_step b r rv' apps :
  BridgeInv b →
  (∀ id x res, sent_by b id x res → sent_by (b <| br_resolvers ::= <[r := rv']> |>) id x res) →
  (∀ w pa, apps !! w = Some pa → ∃ pa0, br_approvals b !! w = Some pa0 ∧ pa_done pa = pa_done pa0 ∧
     (pa_ch pa0 ≠ None → pa_ch pa ≠ None) ∧ ∀ x res, pa_ch pa = Some (x, res) → pa_ch pa0 = Some (x, res) ∨
       ∃ wt, br_waiters b !! w = Some wt ∧ sent_by (b <| br_resolvers ::= <[r := rv']> |>) (w_toolCallID wt) x res) →
  (∀ w, is_Some (br_approvals b !! w) → is_Some (apps !! w)) →
  (∀ p, rv_phase rv' = RFound p ∨ rv_phase rv' = RSent p →
     ∃ wt, br_waiters b !! p = Some wt ∧ w_toolCallID wt = rv_toolCallID rv' ∧ is_Some (br_approvals b !! p)) →
  (∀ p pa, rv_phase rv' = RSent p → apps !! p = Some pa → pa_ch pa ≠ None) →
  BridgeInv (b <| br_approvals := apps |> <| br_resolvers ::= <[r := rv']> |>).
Proof.
  intros [B1 B2 B3 B4 B5 B6] Hsent Hsub Hsup Hrv Hfull. split; cbn.
  - intros id w Hw. destruct (B1 id w Hw) as (wt & ? & ? & ? & ? & ?). exists wt. split_and!; auto.
  - intros w pa Hpa. destruct (Hsub w pa Hpa) as (pa0 & H0 & Hd & _ & Hc). destruct (B2 w pa0 H0) as (wt & Hw & Hdone & Hs).
    exists wt. split; [done|]. split; [by rewrite Hd|]. intros x res Hx.
    destruct (Hc x res Hx) as [Hx0|(wt2 & Hw2 & Hs2)]; [by apply Hsent, Hs|]. by simplify_eq.
  - intros w wt Hw Hid. eauto.
  - intros w wt Hw. specialize (B4 w wt Hw). destruct (outcome (w_phase wt)) as [[a|e]|]; [|done|done].
    destruct B4 as (Hne & x & res & Hx & Ha & Hs). split; [done|]. exists x, res. split_and!; [done..|]. by apply Hsent.
  - intros x rv p. destruct (decide (r = x)) as [<-|].
    + rewrite lookup_insert_eq. intros [= <-] Hph. destruct (Hrv p Hph) as (wt & ? & ? & ?). exists wt. split_and!; auto.
    + rewrite lookup_insert_ne by done. intros Hx Hph. destruct (B5 x rv p Hx Hph) as (wt & ? & ? & ?).
      exists wt. split_and!; auto.
  - intros x rv p wt pa. destruct (decide (r = x)) as [<-|].
    + rewrite lookup_insert_eq. intros [= <-]. eauto.
    + rewrite lookup_insert_ne by done. intros Hx Hph Hw Hpa Hwait.
      destruct (Hsub p pa Hpa) as (pa0 & H0 & _ & Hk & _). eauto.
Qed.

(** Moving a resolver that has not sent, or one that has and is acknowledged, keeps what
    was sent. *)
Lemma sent_by_update b r rv' id x res :
  (∀ rv, br_resolvers b !! r = Some rv →
     (∃ p, rv_phase rv = RFound p) ∨ rv_phase rv = RReturned false ∨
     (rv_toolCallID rv' = rv_toolCallID rv ∧ rv_result rv' = rv_result rv ∧
      rv_phase rv' ≠ RReturned false ∧ ∀ p, rv_phase rv' ≠ RFound p)) →
  sent_by b id x res → sent_by (b <| br_resolvers ::= <[r := rv']> |>) id x res.
Proof.
  intros Hr (rv & Hrv & Hid & Hres & Hnf & Hnp). unfold sent_by. cbn.
  destruct (decide (r = x)) as [<-|]; [|exists rv; by rewrite lookup_insert_ne].
  exists rv'. rewrite lookup_insert_eq. destruct (Hr rv Hrv) as [[p Hp]|[Hp|(E1 & E2 & E3 & E4)]].
  - by destruct (Hnp p).
  - done.
  - split_and!; congruence.
Qed.

Lemma bridge_request_ok w id b b' : BridgeInv b → bridge_act (WRequest w id) b = Some b' → BridgeInv b'.
Proof.
  intros [B1 B2 B3 B4 B5 B6] Ha. cbn in Ha. destruct (br_waiters b !! w) eqn:Hw; [done|].
  assert (br_approvals b !! w = None) as Hnone.
  { destruct (br_approvals b !! w) as [pa|] eqn:E; [|done]. destruct (B2 w pa E) as (wt & Hwt & _). congruence. }
  destruct (String.eqb_spec id "") as [->|Hne]; injection Ha as <-; split; cbn.
  - intros id v Hv. destruct (B1 id v Hv) as (u & Hu & ?). exists u. by rewrite lookup_insert_ne by congruence.
  - intros v p Hp. destruct (B2 v p Hp) as (u & Hu & ?). exists u. by rewrite lookup_insert_ne by congruence.
  - intros v u. destruct (decide (w = v)) as [<-|]; [rewrite lookup_insert_eq; by intros [= <-]|].
    rewrite lookup_insert_ne by done. apply B3.
  - intros v u. destruct (decide (w = v)) as [<-|]; [rewrite lookup_insert_eq; intros [= <-]; by right|].
    rewrite lookup_insert_ne by done. apply B4.
  - intros r rv p Hr Hph. destruct (B5 r rv p Hr Hph) as (u & Hu & ?). exists u. by rewrite lookup_insert_ne by congruence.
  - intros r rv p u q Hr Hph. destruct (B5 r rv p Hr (or_intror Hph)) as (u' & Hu & _).
    rewrite lookup_insert_ne by congruence. eauto.
  - intros id' v. destruct (decide (id = id')) as [<-|].
    + rewrite lookup_insert_eq. intros [= <-]. rewrite !lookup_insert_eq. eexists. by split_and!.
    + rewrite lookup_insert_ne by done. intros Hv. destruct (B1 id' v Hv) as (u & Hu & H1 & H2 & H3 & H4).
      exists u. rewrite !lookup_insert_ne by congruence. by split_and!.
  - intros v p. destruct (decide (w = v)) as [<-|].
    + rewrite !lookup_insert_eq. intros [= <-]. eexists. split; [done|]. by split.
    + rewrite !lookup_insert_ne by done. apply B2.
  - intros v u. destruct (decide (w = v)) as [<-|]; [rewrite !lookup_insert_eq; eauto|].
    rewrite !lookup_insert_ne by done. apply B3.
  - intros v u. destruct (decide (w = v)) as [<-|]; [rewrite lookup_insert_eq; by intros [= <-]|].
    rewrite lookup_insert_ne by done. apply B4.
  - intros r rv p Hr Hph. destruct (B5 r rv p Hr Hph) as (u & Hu & H1 & H2). exists u.
    rewrite !lookup_insert_ne by congruence. by split_and!.
  - intros r rv p u q Hr Hph. destruct (B5 r rv p Hr (or_intror Hph)) as (u' & Hu & _).
    rewrite !lookup_insert_ne by congruence. eauto.
Qed.

(** A waiter before its return has its pending approval. *)
Lemma waiter_pending b w wt : BridgeInv b → br_waiters b !! w = Some wt → (∀ r, w_phase wt ≠ WReturned r) →
  w_toolCallID wt ≠ "" ∧ answer_ok b wt ∧ ∃ pa, br_approvals b !! w = Some pa ∧
    (pa_done pa = true ↔ closed_phase (w_phase wt)) ∧
    ∀ r res, pa_ch pa = Some (r, res) → sent_by b (w_toolCallID wt) r res.
Proof.
  intros Hi Hw Hret. pose proof (bi_answer b Hi w wt Hw) as Hans.
  assert (w_toolCallID wt ≠ "") as Hne.
  { destruct (w_phase wt) as [|[a|e]|[a|e]|[a|e]] eqn:E; cbn in Hans; try naive_solver; by destruct (Hret (Ok a)). }
  split; [done|]. split; [done|]. destruct (bi_waiting b Hi w wt Hw Hne) as [pa Hpa].
  destruct (bi_approvals b Hi w pa Hpa) as (u & Hu & Hd & Hs). simplify_eq. eauto.
Qed.

Lemma receive_result_ok w b b' : BridgeInv b → bridge_act (WReceive w) b = Some b' → BridgeInv b'.
Proof.
  intros Hi Ha. cbn in Ha. destruct (br_waiters b !! w) as [wt|] eqn:Hw; [|done]. cbn in Ha.
  destruct (br_approvals b !! w) as [pa|] eqn:Hpa; [|done]. cbn in Ha.
  destruct (w_phase wt) eqn:Hph; try done. destruct (pa_ch pa) as [[r res]|] eqn:Hch; [|done]. injection Ha as <-.
  destruct (waiter_pending b w wt Hi Hw) as (Hne & _ & pa' & Hpa' & Hd & Hs); [by rewrite Hph|]. simplify_eq.
  rewrite Hph in Hd. refine (waiter_step b w wt _ pa _ (br_pending b) Hi Hw Hpa _ _ _ _ _ _); try done.
  split; [done|]. exists r, res. split_and!; [done..|]. by apply Hs.
Qed.
Lemma cancel_ok w b b' : BridgeInv b → bridge_act (WCancel w) b = Some b' → BridgeInv b'.
Proof.
  intros Hi Ha. cbn in Ha. destruct (br_waiters b !! w) as [wt|] eqn:Hw; [|done]. cbn in Ha.
  destruct (w_phase wt) eqn:Hph; try done. injection Ha as <-.
  destruct (waiter_pending b w wt Hi Hw) as (Hne & _ & pa & Hpa & Hd & Hs); [by rewrite Hph|]. rewrite Hph in Hd.
  pose proof (waiter_step b w wt (wt <| w_phase := WLeaving (Err ErrCanceled) |>) pa pa (br_pending b) Hi Hw Hpa) as H.
  cbn in H. rewrite (insert_id (br_approvals b)) in H by done. apply H; try done. by left.
Qed.
Lemma close_done_ok w b b' : BridgeInv b → bridge_act (WCloseDone w) b = Some b' → BridgeInv b'.
Proof.
  intros Hi Ha. cbn in Ha. destruct (br_waiters b !! w) as [wt|] eqn:Hw; [|done]. cbn in Ha.
  destruct (br_approvals b !! w) as [pa|] eqn:Hpa; [|done]. cbn in Ha. destruct (w_phase wt) eqn:Hph; try done.
  injection Ha as <-. destruct (waiter_pending b w wt Hi Hw) as (Hne & Hans & _); [by rewrite Hph|].
  refine (waiter_step b w wt _ pa _ (br_pending b) Hi Hw Hpa _ _ _ _ _ _); try done.
  unfold answer_ok in *. rewrite Hph in Hans. cbn in Hans |- *. destruct r; [done|]. by left; destruct Hans as [|[]].
Qed.
Lemma remove_ok w b b' : BridgeInv b → bridge_act (WRemove w) b = Some b' → BridgeInv b'.
Proof.
  intros Hi Ha. cbn in Ha. destruct (br_waiters b !! w) as [wt|] eqn:Hw; [|done]. cbn in Ha.
  destruct (w_phase wt) eqn:Hph; try done. injection Ha as <-.
  destruct (waiter_pending b w wt Hi Hw) as (Hne & Hans & pa & Hpa & Hd & _); [by rewrite Hph|]. rewrite Hph in Hd.
  pose proof (waiter_step b w wt (wt <| w_phase := WReturned r |>) pa pa (delete (w_toolCallID wt) (br_pending b)) Hi Hw Hpa) as H.
  cbn in H. rewrite (insert_id (br_approvals b)) in H by done. apply H; try done.
  - unfold answer_ok in *. rewrite Hph in Hans. cbn in Hans |- *. destruct r; [done|]. by left; destruct Hans as [|[]].
  - intros id v [Hid Hv]%lookup_delete_Some. split; [done|]. intros ->.
    destruct (bi_pending b Hi id w Hv) as (u & Hu & Huid & _). simplify_eq.
Qed.

Lemma lookup_ok r id ap m b b' : BridgeInv b → bridge_act (RLookup r id ap m) b = Some b' → BridgeInv b'.
Proof.
  intros Hi Ha. cbn in Ha. destruct (br_resolvers b !! r) eqn:Hr; [done|]. injection Ha as <-.
  refine (resolver_step b r _ (br_approvals b) Hi _ _ _ _ _).
  - intros id' x res. apply sent_by_update. by rewrite Hr.
  - intros w pa Hpa. exists pa. split_and!; [done..|]. by left.
  - done.
  - intros p Hp. cbn in Hp |- *. destruct (br_pending b !! id) as [w|] eqn:Hw; [|by destruct Hp].
    destruct Hp; simplify_eq. destruct (bi_pending b Hi id p Hw) as (wt & ? & ? & _ & ? & _). eauto.
  - intros p pa. cbn. by destruct (br_pending b !! id).
Qed.
Lemma send_ok r b b' : BridgeInv b → bridge_act (RSend r) b = Some b' → BridgeInv b'.
Proof.
  intros Hi Ha. cbn in Ha. destruct (br_resolvers b !! r) as [rv|] eqn:Hr; [|done]. cbn in Ha.
  destruct (rv_phase rv) as [p| |] eqn:Hph; try done. destruct (br_approvals b !! p) as [pa|] eqn:Hpa; [|done].
  cbn in Ha. destruct (pa_ch pa) eqn:Hch; [done|]. injection Ha as <-.
  destruct (bi_resolvers b Hi r rv p Hr (or_introl Hph)) as (wt & Hw & Hid & Hap).
  refine (resolver_step b r _ (<[p := _]> (br_approvals b)) Hi _ _ _ _ _).
  - intros id' x res. apply sent_by_update. intros rv0. rewrite Hr. intros [= <-]. left. eauto.
  - intros w pa'. destruct (decide (p = w)) as [<-|].
    + rewrite lookup_insert_eq. intros [= <-]. exists pa. split_and!; [done..|]. cbn. intros x res [= <- <-]. right.
      exists wt. split; [done|]. unfold sent_by. cbn. rewrite lookup_insert_eq. eexists. by split_and!.
    + rewrite lookup_insert_ne by done. intros Hp. exists pa'. split_and!; [done..|]. by left.
  - intros w Hsome. rewrite lookup_insert_is_Some. destruct (decide (p = w)); auto.
  - intros q [Hq|Hq]; [done|]. injection Hq as <-. eauto.
  - intros q pa' [= <-]. rewrite lookup_insert_eq. by intros [= <-].
Qed.
Lemma done_ok r b b' : BridgeInv b → bridge_act (RDone r) b = Some b' → BridgeInv b'.
Proof.
  intros Hi Ha. cbn in Ha. destruct (br_resolvers b !! r) as [rv|] eqn:Hr; [|done]. cbn in Ha.
  assert (∃ p ok, (rv_phase rv = RFound p ∧ ok = false ∨ rv_phase rv = RSent p ∧ ok = true) ∧
    b' = b <| br_resolvers ::= <[r := rv <| rv_phase := RReturned ok |>]> |>) as (p & ok & Hph & ->).
  { destruct (rv_phase rv) as [p|p|]; [| |done]; destruct (br_approvals b !! p) as [pa|]; try done; cbn in Ha;
      destruct (pa_done pa); simplify_eq; eauto 6. }
  refine (resolver_step b r _ (br_approvals b) Hi _ _ _ _ _).
  - intros id' x res. apply sent_by_update. intros rv0. rewrite Hr. intros [= <-].
    destruct Hph as [[Hph ->]|[Hph ->]]; [left; eauto|]. right. right. by split_and!.
  - intros w pa Hpa. exists pa. split_and!; [done..|]. by left.
  - done.
  - intros q [Hq|Hq]; done.
  - done.
Qed.

Lemma bridge_inv acts b : bridge_run acts = Some b → BridgeInv b.
Proof.
  revert b. unfold bridge_run. induction acts as [|a acts IH] using rev_ind; intros b.
  { cbn. intros [= <-]. split; cbn; intros *; by rewrite lookup_empty. }
  rewrite foldl_app. cbn. destruct (foldl _ _ acts) as [b0|]; [|done]. cbn. specialize (IH b0 eq_refl). intros Ha.
  destruct a; [by eapply bridge_request_ok|by eapply receive_result_ok|by eapply cancel_ok|by eapply close_done_ok
    |by eapply remove_ok|by eapply lookup_ok|by eapply send_ok|by eapply done_ok].
Qed.

(** C19: whatever the interleaving of the calls: a call of the approval function that returns
    a decision returns the one of a [Resolve] for its tool call, which does not report
    that nothing was delivered; it fails only if its context ended or has no tool call;
    and a [Resolve] that has sent its result and waits for the acknowledgement gets it:
    it can return, or the waiter can go on by itself. *)
Theorem approvals_are_resolved acts b : bridge_run acts = Some b →
  (∀ w wt a, br_waiters b !! w = Some wt → w_phase wt = WReturned (Ok a) →
     ∃ r rv, w_from wt = Some r ∧ br_resolvers b !! r = Some rv ∧ rv_toolCallID rv = w_toolCallID wt ∧
             ar_Approved (rv_result rv) = a ∧ rv_phase rv ≠ RReturned false) ∧
  (∀ w wt e, br_waiters b !! w = Some wt → w_phase wt = WReturned (Err e) →
     e = ErrCanceled ∨ (e = ErrNoToolCallID ∧ w_toolCallID wt = "")) ∧
  (∀ r rv p, br_resolvers b !! r = Some rv → rv_phase rv = RSent p →
     is_Some (bridge_act (RDone r) b) ∨ is_Some (bridge_act (WReceive p) b) ∨ is_Some (bridge_act (WCloseDone p) b)).
Proof.
  intros Hi%bridge_inv. split_and!.
  - intros w wt a Hw Hp. pose proof (bi_answer b Hi w wt Hw) as H. rewrite Hp in H. cbn in H.
    destruct H as (_ & r & res & Hf & Ha & rv & Hr & Hid & Hres & Hph & _). exists r, rv. split_and!; congruence.
  - intros w wt e Hw Hp. pose proof (bi_answer b Hi w wt Hw) as H. rewrite Hp in H. cbn in H. naive_solver.
  - intros r rv p Hr Hp. destruct (bi_resolvers b Hi r rv p Hr (or_intror Hp)) as (wt & Hw & Hid & pa & Hpa).
    destruct (bi_approvals b Hi p pa Hpa) as (u & Hu & Hd & _). simplify_eq. cbn. rewrite Hr, Hw, Hpa. cbn. rewrite Hp, Hpa. cbn.
    destruct (w_phase wt) eqn:Hph.
    + right; left. pose proof (bi_sent b Hi r rv p wt pa Hr Hp Hw Hpa Hph) as Hf. by destruct (pa_ch pa) as [[]|].
    + right; right. eauto.
    + left. rewrite (proj2 Hd I). eauto.
    + left. rewrite (proj2 Hd I). eauto.
Qed.

(** Two operators answer the same request: the second result enters the channel after the
    first was taken and before [done] is closed, and both calls report delivery. *)
Definition both_acts : list BridgeAction :=
  [WRequest 0 "call"; RLookup 0 "call" true ""; RLookup 1 "call" false "no"; RSend 0; WReceive 0; RSend 1;
   WCloseDone 0; WRemove 0; RDone 0; RDone 1].
Lemma both_resolves_delivered : ∃ b w r0 r1, bridge_run both_acts = Some b ∧
  br_waiters b !! 0%nat = Some w ∧ w_phase w = WReturned (Ok true) ∧
  br_resolvers b !! 0%nat = Some r0 ∧ rv_phase r0 = RReturned true ∧
  br_resolvers b !! 1%nat = Some r1 ∧ ar_Approved (rv_result r1) = false ∧ rv_phase r1 = RReturned true.
Proof. eexists _, _, _, _. by vm_compute. Qed.
(** A result is sent to a waiter whose context then wins the select: the call reports
    delivery, and the tool call fails. *)
Definition cancelled_acts : list BridgeAction :=
  [WRequest 0 "call"; RLookup 0 "call" true ""; RSend 0; WCancel 0; WCloseDone 0; WRemove 0; RDone 0].
Lemma cancelled_resolve_delivered : ∃ b w r0, bridge_run cancelled_acts = Some b ∧
  br_waiters b !! 0%nat = Some w ∧ w_phase w = WReturned (Err ErrCanceled) ∧
  br_resolvers b !! 0%nat = Some r0 ∧ rv_phase r0 = RReturned true.
Proof. eexists _, _, _. by vm_compute. Qed.

Lemma approvals_are_resolved_witness : ∃ b w r rv, bridge_run both_acts = Some b ∧
  br_waiters b !! 0%nat = Some w ∧ w_phase w = WReturned (Ok true) ∧
  w_from w = Some r ∧ br_resolvers b !! r = Some rv ∧ ar_Approved (rv_result rv) = true.
Proof.
  destruct (bridge_run both_acts) as [b|] eqn:E; [|by vm_compute in E].
  destruct (approvals_are_resolved both_acts b E) as [H _].
  destruct (br_waiters b !! 0%nat) as [w|] eqn:Hw; [|vm_compute in E; injection E as <-; by vm_compute in Hw].
  assert (w_phase w = WReturned (Ok true)) as Hp.
  { vm_compute in E. injection E as <-. vm_compute in Hw. injection Hw as <-. reflexivity. }
  destruct (H 0%nat w true Hw Hp) as (r & rv & H1 & H2 & _ & H3 & _). exists b, w, r, rv. repeat split; assumption.
Defined.
