(* ===== verification/AguiEnvelope.v ===== *)
(** * Protocol events read from their JSON

    The session reads an envelope (type, run, name, value, timestamp) from the JSON of
    an AG-UI event.  [envelope_roundtrip] says which envelope each event of the adapter
    gives, and the other lemmas what the payloads of the custom events give. *)

From S2P Require Import Prelude Errors Usage Messages AgentTypes Json TimeText OrchJson AguiSession AguiAdapter.

Definition event_time (ev : AGUIEvent) : Z :=
  match ev with
  | aguiRunStarted ts _ _ | aguiRunFinished ts _ _ | aguiRunError ts _ _ | aguiStepStarted ts _
  | aguiStepFinished ts _ | aguiTextMessageStart ts _ _ | aguiTextMessageContent ts _ _ | aguiTextMessageEnd ts _
  | aguiToolCallStart ts _ _ | aguiToolCallArgs ts _ _ | aguiToolCallEnd ts _ | aguiToolCallResult ts _ _ _ _
  | aguiReasoningStart ts _ | aguiReasoningMessageStart ts _ _ | aguiReasoningMessageContent ts _ _
  | aguiReasoningMessageEnd ts _ | aguiReasoningEnd ts _ | aguiCustom ts _ _ => ts
  end.

(** The envelope the session reads from an event: its type, run, name and value. *)
Definition envelope (ev : AGUIEvent) : string * string * string * RawMessage :=
  match ev with
  | aguiRunStarted _ _ r => ("RUN_STARTED", coerce_utf8 (coerce_utf8 r), "", RawNil)
  | aguiRunFinished _ _ r => ("RUN_FINISHED", coerce_utf8 (coerce_utf8 r), "", RawNil)
  | aguiRunError _ _ r => ("RUN_ERROR", if String.eqb r "" then "" else coerce_utf8 (coerce_utf8 r), "", RawNil)
  | aguiStepStarted _ _ => ("STEP_STARTED", "", "", RawNil)
  | aguiStepFinished _ _ => ("STEP_FINISHED", "", "", RawNil)
  | aguiTextMessageStart _ _ _ => ("TEXT_MESSAGE_START", "", "", RawNil)
  | aguiTextMessageContent _ _ _ => ("TEXT_MESSAGE_CONTENT", "", "", RawNil)
  | aguiTextMessageEnd _ _ => ("TEXT_MESSAGE_END", "", "", RawNil)
  | aguiToolCallStart _ _ _ => ("TOOL_CALL_START", "", "", RawNil)
  | aguiToolCallArgs _ _ _ => ("TOOL_CALL_ARGS", "", "", RawNil)
  | aguiToolCallEnd _ _ => ("TOOL_CALL_END", "", "", RawNil)
  | aguiToolCallResult _ _ _ _ _ => ("TOOL_CALL_RESULT", "", "", RawNil)
  | aguiReasoningStart _ _ => ("REASONING_START", "", "", RawNil)
  | aguiReasoningMessageStart _ _ _ => ("REASONING_MESSAGE_START", "", "", RawNil)
  | aguiReasoningMessageContent _ _ _ => ("REASONING_MESSAGE_CONTENT", "", "", RawNil)
  | aguiReasoningMessageEnd _ _ => ("REASONING_MESSAGE_END", "", "", RawNil)
  | aguiReasoningEnd _ _ => ("REASONING_END", "", "", RawNil)
  | aguiCustom _ n v => ("CUSTOM", "", coerce_utf8 (coerce_utf8 n), v)
  end.
Definition value_ok (ev : AGUIEvent) : bool :=
  match ev with aguiCustom _ _ (RawInvalid _) => false | _ => true end.

(** Fields are found by the names alone. *)
Definition lacks (k : string) (keys : list string) : bool := forallb (λ k', negb (same_key k k')) keys.
Lemma get_key_lacks k l : lacks k l.*1 = true → get_key k l = None.
Proof.
  induction l as [|e l IH] using rev_ind; [done|]. unfold lacks, get_key in *. rewrite fmap_app, forallb_app, foldl_app. cbn.
  rewrite andb_true_r. intros [H1 H2]%andb_prop. rewrite IH by done. by destruct (same_key k e.1).
Qed.
Lemma field_lacks `{Json A} k l : lacks k l.*1 = true → field l k = Ok (json_zero (A := A)).
Proof. intros Hl. unfold field. by rewrite get_key_lacks. Qed.
Lemma field_last `{Json A} k j l l' : lacks k l'.*1 = true → field (A := A) (l ++ (k, j) :: l') k = unmarshal j.
Proof.
  intros Hl. unfold field. rewrite get_key_app. change ((k, j) :: l') with ([(k, j)] ++ l').
  rewrite get_key_app, (get_key_lacks k l') by done. unfold get_key. cbn. by rewrite same_key_refl.
Qed.

(** An event object: its type and timestamp, then fields of other names. *)
Lemma unmarshal_object ty ts l :
  ValidString ty = true → int64_ok ts = true → lacks "type" l.*1 = true → lacks "timestamp" l.*1 = true →
  lacks "runId" ["type"; "timestamp"] = true → lacks "name" ["type"; "timestamp"] = true →
  lacks "value" ["type"; "timestamp"] = true → lacks "type" ["timestamp"] = true →
  unmarshal_envelope (JObject (("type", JString (coerce_utf8 ty)) :: ("timestamp", JNum ts) :: l)) =
    (x2 ← field l "runId"; x3 ← field l "name"; x4 ← field l "value"; Ok (MkRawAGUIEnvelope ty x2 x3 x4 ts)).
Proof.
  intros Hty Hts H1 H2 H3 H4 H5 H6. rewrite coerce_valid by done.
  set (o := ("type", JString ty) :: ("timestamp", JNum ts) :: l). unfold unmarshal_envelope, mbind, res_bind. cbn [fields].
  assert (field o "type" = Ok ty) as ->.
  { transitivity (unmarshal (A := string) (JString ty)); [|cbn; by rewrite coerce_valid].
    apply (field_last "type" (JString ty) [] (("timestamp", JNum ts) :: l)).
    change ((("timestamp", JNum ts) :: l).*1) with (["timestamp"] ++ l.*1). unfold lacks in *. by rewrite forallb_app, H6, H1. }
  assert (field o "timestamp" = Ok ts) as ->.
  { transitivity (unmarshal (A := Z) (JNum ts)); [|cbn; by rewrite Hts].
    by apply (field_last "timestamp" (JNum ts) [("type", JString ty)] l). }
  assert (∀ A `(Json A) k, lacks k ["type"; "timestamp"] = true → field (A := A) o k = field l k) as Hskip.
  { intros A JA k Hk. unfold field, o. change (_ :: _ :: l) with ([("type", JString ty); ("timestamp", JNum ts)] ++ l).
    rewrite get_key_app, (get_key_lacks k [_; _]) by done. by destruct (get_key k l). }
  by rewrite !Hskip.
Qed.

Ltac keys := vm_compute; reflexivity.
Ltac read_absent := repeat match goal with |- context [field ?l ?k] => rewrite (field_lacks k l) by keys end.

Lemma envelope_roundtrip ev : int64_ok (event_time ev) = true → value_ok ev = true →
  ∃ j, agui_json ev = Ok j ∧
    unmarshal_envelope j = Ok (let '(ty, run, name, value) := envelope ev in
                               MkRawAGUIEnvelope ty run name value (event_time ev)).
Proof.
  intros Hts Hv.
  destruct ev as [| |ts m r|ts n|ts n| | | | | | | | | | | | |ts n v]; cbn [event_time] in Hts.
  3: destruct r as [|c r].
  all: try (destruct v; [| |done]).
  all: eexists; (split; [unfold agui_json, agui_object, put_omitempty; cbn -[coerce_utf8 itoa]; reflexivity|]);
    rewrite unmarshal_object by first [done|keys]; cbn [envelope event_time].
  all: read_absent; try reflexivity.
  all: unfold mbind, res_bind, field, get_key; cbn -[coerce_utf8]; reflexivity.
Qed.

(** The payloads of the custom events. *)
Lemma requested_roundtrip id name args :
  ValidString id = true → ValidString name = true → ValidString args = true →
  decode_raw unmarshal_requested
    (mustMarshal (object [put "toolCallId" id; put "toolName" name; put "argsJson" args])) = Ok (id, name, args).
Proof.
  intros H1 H2 H3. unfold put. cbn -[coerce_utf8]. unfold unmarshal_requested. cbn [fields].
  rewrite !coerce_valid by done.
  assert (field [("toolCallId", JString id); ("toolName", JString name); ("argsJson", JString args)] "toolCallId" = Ok id) as E1.
  { etransitivity; [apply (field_last "toolCallId" _ []); keys|]. cbn. by rewrite coerce_valid. }
  assert (field [("toolCallId", JString id); ("toolName", JString name); ("argsJson", JString args)] "toolName" = Ok name) as E2.
  { etransitivity; [apply (field_last "toolName" _ [_]); keys|]. cbn. by rewrite coerce_valid. }
  assert (field [("toolCallId", JString id); ("toolName", JString name); ("argsJson", JString args)] "argsJson" = Ok args) as E3.
  { etransitivity; [apply (field_last "argsJson" _ [_; _]); keys|]. cbn. by rewrite coerce_valid. }
  unfold mbind, res_bind. by rewrite E1, E2, E3.
Qed.
Lemma first_roundtrip key s l : ValidString s = true → lacks key l.*1 = true →
  (o ← fields (JObject ((key, JString (coerce_utf8 s)) :: l)); field o key) = Ok s.
Proof.
  intros Hs Hl. cbn [fields]. unfold mbind, res_bind. etransitivity; [by apply (field_last key _ [])|].
  cbn. by rewrite (coerce_valid s), coerce_valid.
Qed.

