(* ===== verification/AguiTrack.v ===== *)
(** * A session follows its run

    The runtime events of a run go through the handlers of the adapter, as JSON, into
    the session that captures them.  [session_follows_run] says what the session then
    holds: exactly the approvals and external inputs the run asked for and has not been
    given, and the status of the last event that has one. *)

From S2P Require Import Prelude Errors Usage Messages AgentTypes Json TimeText OrchJson AguiSession AguiAdapter AguiEnvelope.

(** ** The path of an event *)

(** A published event, with the clock of its handler and of the capture. *)
Record Published := MkPublished { pb_event : RunEvent; pb_now : nat → Z; pb_id : string; pb_captured : Time }.

Definition capture_event (id : string) (at_ : Time) (s : Session) (ev : AGUIEvent) : Session :=
  match agui_json ev with
  | Ok j => (CaptureRawEvent id "agui.raw" (RawJSON j) at_ s).1
  | Err _ => s
  end.
Definition publish_event (runID : string) (st : Adapter * Session) (p : Published) : Adapter * Session :=
  let '(a, batch) := handler (pb_now p) runID (pb_event p) st.1 in
  (a, foldl (capture_event (pb_id p) (pb_captured p)) st.2 batch).
Definition follow (runID : string) (ps : list Published) (st : Adapter * Session) : Adapter * Session :=
  foldl (publish_event runID) st ps.

(** ** What the session should hold *)

(** Requested and not resolved since, with the tool and its arguments. *)
Definition approval_spec (m : gmap string (string * string)) (ev : RunEvent) : gmap string (string * string) :=
  match ev with
  | ApprovalRequestedEvent id name args => if String.eqb id "" then m else <[id := (name, args)]> m
  | ApprovalResolvedEvent id _ _ => if String.eqb id "" then m else delete id m
  | _ => m
  end.
Definition input_spec (m : gmap string (string * string)) (ev : RunEvent) : gmap string (string * string) :=
  match ev with
  | DeferredRequestedEvent id name args => if String.eqb id "" then m else <[id := (name, args)]> m
  | DeferredResolvedEvent id _ _ _ => if String.eqb id "" then m else delete id m
  | _ => m
  end.
(** The status and the waiting reason after an event. *)
Definition status_spec (st : string * string) (ev : RunEvent) : string * string :=
  match ev with
  | RunStartedEvent _ | RunResumedEvent => (SessionStatusRunning, "")
  | RunWaitingEvent reason => (SessionStatusWaiting, reason)
  | RunCompletedEvent success deferred _ =>
    (if success || deferred then SessionStatusCompleted else SessionStatusFailed, "")
  | _ => st
  end.

(** ** What one event changes *)

(** What the snapshot shows of the requests and the status. *)
Definition approvals_view (s : Session) : gmap string (string * string) :=
  (λ p, (pas_ToolName p, pas_ArgsJSON p)) <$> ses_pendingApprovals s.
Definition inputs_view (s : Session) : gmap string (string * string) :=
  (λ p, (pei_ToolName p, pei_ArgsJSON p)) <$> ses_pendingExternalInputs s.
Record view := MkView {
  v_approvals : gmap string (string * string); v_inputs : gmap string (string * string);
  v_status : string * string; v_statusAt : Time;
}.
Definition view_of (s : Session) : view :=
  MkView (approvals_view s) (inputs_view s) (ses_Status s, ses_WaitingReason s) (ses_statusAt s).

Lemma capture_view id ty d at_ s :
  ∃ s1, view_of s1 = view_of s ∧ view_of (CaptureRawEvent id ty d at_ s).1 = view_of (applyRawEventLocked d at_ s1).
Proof.
  unfold CaptureRawEvent, ensureTransportStateLocked. destruct (ses_replay s) as [b|].
  - by exists s.
  - eexists (s <| ses_replay := Some _ |>). done.
Qed.

(** A status that is not older than the current one is taken. *)
Definition set_status (status reason : string) (t : Time) (v : view) : view :=
  MkView (v_approvals v) (v_inputs v) (status, reason) t.
Lemma applyRawStatus_not_stale status reason t s : ses_statusAt s ≤ t → 
  (String.eqb status SessionStatusWaiting = false → reason = "") →
  view_of (applyRawStatusLocked status reason t s) = set_status status reason t (view_of s).
Proof.
  intros Ht Hr. unfold applyRawStatusLocked, Before. rewrite (proj2 (Z.ltb_ge t (ses_statusAt s))) by done.
  rewrite andb_false_r. destruct (String.eqb status SessionStatusWaiting); [done|]. by rewrite Hr.
Qed.

(** The time an event occurred, for the session. *)
Definition occurred (ev : AGUIEvent) : Time := UnixMilli (event_time ev).

(** The bookkeeping before the switch does not show. *)
Lemma applyRawEvent_switch ev j at_ s ty run name value :
  0 < event_time ev → envelope ev = (ty, run, name, value) →
  unmarshal_envelope j = Ok (MkRawAGUIEnvelope ty run name value (event_time ev)) →
  ∃ s1, view_of s1 = view_of s ∧
    applyRawEventLocked (RawJSON j) at_ s =
      if String.eqb ty "RUN_STARTED" then applyRawStatusLocked SessionStatusRunning "" (occurred ev) s1
      else if String.eqb ty "RUN_FINISHED" then applyRawStatusLocked SessionStatusCompleted "" (occurred ev) s1
      else if String.eqb ty "RUN_ERROR" then applyRawStatusLocked SessionStatusFailed "" (occurred ev) s1
      else if String.eqb ty "CUSTOM" then applyCustomEventLocked name value (occurred ev) s1
      else s1.
Proof.
  intros Hts _ Hj. unfold applyRawEventLocked. cbn [decode_raw]. rewrite Hj. cbn [raw_Timestamp raw_RunID raw_Type raw_Name raw_Value].
  rewrite (proj2 (Z.ltb_lt 0 (event_time ev))) by done. eexists. split; [|reflexivity]. by repeat case_match.
Qed.

Definition inert (ev : AGUIEvent) : bool :=
  match ev with
  | aguiRunStarted _ _ _ | aguiRunFinished _ _ _ | aguiRunError _ _ _ | aguiCustom _ _ _ => false
  | _ => true
  end.

(** The captured event goes through the switch of the session. *)
Lemma capture_switch id at_ s ev ty run name value :
  0 < event_time ev → int64_ok (event_time ev) = true → value_ok ev = true → envelope ev = (ty, run, name, value) →
  ∃ s1, view_of s1 = view_of s ∧
    view_of (capture_event id at_ s ev) = view_of
      (if String.eqb ty "RUN_STARTED" then applyRawStatusLocked SessionStatusRunning "" (occurred ev) s1
       else if String.eqb ty "RUN_FINISHED" then applyRawStatusLocked SessionStatusCompleted "" (occurred ev) s1
       else if String.eqb ty "RUN_ERROR" then applyRawStatusLocked SessionStatusFailed "" (occurred ev) s1
       else if String.eqb ty "CUSTOM" then applyCustomEventLocked name value (occurred ev) s1
       else s1).
Proof.
  intros Hpos Hts Hv He. destruct (envelope_roundtrip ev Hts Hv) as (j & Hj & Hu). rewrite He in Hu.
  unfold capture_event. rewrite Hj. destruct (capture_view id "agui.raw" (RawJSON j) at_ s) as (s1 & H1 & ->).
  destruct (applyRawEvent_switch ev j at_ s1 ty run name value Hpos He Hu) as (s2 & H2 & ->).
  exists s2. split; [congruence|done].
Qed.

Lemma inert_view id at_ s ev :
  0 < event_time ev → int64_ok (event_time ev) = true → inert ev = true → view_of (capture_event id at_ s ev) = view_of s.
Proof.
  intros Hpos Hts Hi. destruct (envelope ev) as [[[ty run] name] value] eqn:He.
  destruct (capture_switch id at_ s ev ty run name value) as (s1 & H1 & ->); [done..|by destruct ev|done|].
  destruct ev; try done; cbn in He; injection He as <- <- <- <-; exact H1.
Qed.

Lemma inert_views id at_ s evs :
  Forall (λ ev, 0 < event_time ev ∧ int64_ok (event_time ev) = true ∧ inert ev = true) evs →
  view_of (foldl (capture_event id at_) s evs) = view_of s.
Proof.
  intros H. revert s. induction H as [|ev evs (H1 & H2 & H3) _ IH]; intros s; [done|]. cbn. rewrite IH. by apply inert_view.
Qed.

(** *** The custom events *)

Definition raw_ok (value : RawMessage) : Prop := ∀ t, value ≠ RawInvalid t.
Lemma mustMarshal_ok v : raw_ok (mustMarshal v).
Proof. by destruct v. Qed.

Lemma capture_custom id at_ s ts name value :
  0 < ts → int64_ok ts = true → raw_ok value → ValidString name = true →
  ∃ s1, view_of s1 = view_of s ∧
    view_of (capture_event id at_ s (aguiCustom ts name value)) = view_of (applyCustomEventLocked name value (UnixMilli ts) s1).
Proof.
  intros Hpos Hts Hv Hn.
  destruct (capture_switch id at_ s (aguiCustom ts name value) "CUSTOM" "" name value) as (s1 & Hs & ->); [done|done| | |by exists s1].
  - destruct value; try done. by destruct (Hv text).
  - cbn -[coerce_utf8]. by rewrite !(coerce_valid name Hn).
Qed.

(** A custom event with the given name and payload reaches the session as [s1]. *)
Ltac through_custom :=
  lazymatch goal with |- context [capture_event ?id ?at_ ?s (aguiCustom ?ts ?name ?value)] =>
    destruct (capture_custom id at_ s ts name value) as (s1 & Hs & ->);
      [done|done|apply mustMarshal_ok|by vm_compute|]
  end;
  unfold applyCustomEventLocked; cbn [String.eqb Ascii.eqb Bool.eqb].
Ltac same_view Hs :=
  let E1 := fresh in let E2 := fresh in let E3 := fresh in let E4 := fresh in let E5 := fresh in
  injection Hs as E1 E2 E3 E4 E5; cbn [v_status view_of]; rewrite <-E1, <-E2, <-E3, <-E4, <-E5.

Section custom.
Context (id : string) (at_ : Time) (s : Session) (now : nat → Z) (a : Adapter).
Context (Hpos : 0 < now 0%nat) (Hts : int64_ok (now 0%nat) = true).
Notation cap f := (view_of (foldl (capture_event id at_) s (f a).2)).

Lemma approval_requested_view call tool args :
  ValidString call = true → ValidString tool = true → ValidString args = true →
  cap (onApprovalRequested now call tool args) =
  MkView (if String.eqb call "" then approvals_view s else <[call := (tool, args)]> (approvals_view s))
    (inputs_view s) (v_status (view_of s)) (ses_statusAt s).
Proof.
  intros H1 H2 H3. cbn [onApprovalRequested custom enqueue_event snd foldl].
  through_custom. rewrite requested_roundtrip by done.
  same_view Hs. destruct (String.eqb call ""); [done|].
  unfold view_of, approvals_view. cbn. by rewrite fmap_insert.
Qed.
Lemma deferred_requested_view call tool args :
  ValidString call = true → ValidString tool = true → ValidString args = true →
  cap (onDeferredRequested now call tool args) =
  MkView (approvals_view s)
    (if String.eqb call "" then inputs_view s else <[call := (tool, args)]> (inputs_view s))
    (v_status (view_of s)) (ses_statusAt s).
Proof.
  intros H1 H2 H3. cbn [onDeferredRequested custom enqueue_event snd foldl].
  through_custom. rewrite requested_roundtrip by done.
  same_view Hs. destruct (String.eqb call ""); [done|].
  unfold view_of, inputs_view. cbn. by rewrite fmap_insert.
Qed.

Lemma approval_resolved_view call tool approved : ValidString call = true →
  cap (onApprovalResolved now call tool approved) =
  MkView (if String.eqb call "" then approvals_view s else delete call (approvals_view s)) (inputs_view s)
    (v_status (view_of s)) (ses_statusAt s).
Proof.
  intros H1. cbn [onApprovalResolved custom enqueue_event snd foldl].
  through_custom.
  assert (decode_raw unmarshal_resolved
    (mustMarshal (object [put "toolCallId" call; put "toolName" tool; Ok [("approved", JBool approved)]])) = Ok call) as ->.
  { unfold put. cbn -[coerce_utf8]. apply first_roundtrip; [done|keys]. }
  same_view Hs. destruct (String.eqb call ""); [done|].
  unfold view_of, approvals_view. cbn. by rewrite fmap_delete.
Qed.
Lemma deferred_resolved_view call tool content isError : ValidString call = true →
  cap (onDeferredResolved now call tool content isError) =
  MkView (approvals_view s) (if String.eqb call "" then inputs_view s else delete call (inputs_view s))
    (v_status (view_of s)) (ses_statusAt s).
Proof.
  intros H1. cbn [onDeferredResolved custom enqueue_event snd foldl].
  through_custom.
  assert (decode_raw unmarshal_resolved
    (mustMarshal (object [put "toolCallId" call; put "toolName" tool; put "content" content; Ok [("isError", JBool isError)]])) = Ok call) as ->.
  { unfold put. cbn -[coerce_utf8]. apply first_roundtrip; [done|keys]. }
  same_view Hs. destruct (String.eqb call ""); [done|].
  unfold view_of, inputs_view. cbn. by rewrite fmap_delete.
Qed.
Lemma run_waiting_view reason : ValidString reason = true → ses_statusAt s ≤ UnixMilli (now 0%nat) →
  cap (onRunWaiting now reason) = set_status SessionStatusWaiting reason (UnixMilli (now 0%nat)) (view_of s).
Proof.
  intros H1 Ht. cbn [onRunWaiting custom enqueue_event snd foldl].
  through_custom.
  assert (decode_raw unmarshal_waiting (mustMarshal (object [put "reason" reason])) = Ok reason) as ->.
  { unfold put. cbn -[coerce_utf8]. apply first_roundtrip; [done|keys]. }
  rewrite <-Hs. apply applyRawStatus_not_stale; [|done]. injection Hs as _ _ _ _ ->. done.
Qed.
Lemma run_resumed_view runID : ses_statusAt s ≤ UnixMilli (now 0%nat) →
  cap (onRunResumed now runID) = set_status SessionStatusRunning "" (UnixMilli (now 0%nat)) (view_of s).
Proof.
  intros Ht. cbn [onRunResumed custom enqueue_event snd foldl].
  through_custom.
  rewrite <-Hs. apply applyRawStatus_not_stale; [|done]. injection Hs as _ _ _ _ ->. done.
Qed.
End custom.

(** *** The events of the run itself *)

Lemma run_status_view id at_ s ev status ty run :
  0 < event_time ev → int64_ok (event_time ev) = true → ses_statusAt s ≤ occurred ev →
  value_ok ev = true → envelope ev = (ty, run, "", RawNil) →
  (ty, status) ∈ [("RUN_STARTED", SessionStatusRunning); ("RUN_FINISHED", SessionStatusCompleted);
                  ("RUN_ERROR", SessionStatusFailed)] →
  view_of (capture_event id at_ s ev) = set_status status "" (occurred ev) (view_of s).
Proof.
  intros Hpos Hts Ht Hv He Hin. destruct (capture_switch id at_ s ev ty run "" RawNil Hpos Hts Hv He) as (s1 & Hs & ->).
  rewrite <-Hs. injection Hs as _ _ _ _ Hat. rewrite <-Hat in Ht.
  rewrite !elem_of_cons, elem_of_nil in Hin. destruct Hin as [[= -> ->]|[[= -> ->]|[[= -> ->]|[]]]];
    by apply applyRawStatus_not_stale.
Qed.

(** ** A whole run *)

(** The texts the session reads from an event. *)
Definition event_texts (ev : RunEvent) : list string :=
  match ev with
  | ApprovalRequestedEvent id name args | DeferredRequestedEvent id name args => [id; name; args]
  | ApprovalResolvedEvent id _ _ | DeferredResolvedEvent id _ _ _ => [id]
  | RunWaitingEvent reason => [reason]
  | _ => []
  end.
Definition texts_ok (p : Published) : Prop := Forall (λ t, ValidString t = true) (event_texts (pb_event p)).
(** The clock does not run backwards from one handler to the next. *)
Fixpoint times_ok (lo : Z) (ps : list Published) : Prop :=
  match ps with
  | [] => True
  | p :: ps => ∃ hi, (∀ i, 0 < pb_now p i ∧ lo ≤ pb_now p i ≤ hi) ∧ hi < 2 ^ 63 ∧ times_ok hi ps
  end.

Definition spec_view (ev : RunEvent) (hi : Z) (v v' : view) : Prop :=
  v_approvals v' = approval_spec (v_approvals v) ev ∧ v_inputs v' = input_spec (v_inputs v) ev ∧
  v_status v' = status_spec (v_status v) ev ∧ v_statusAt v' ≤ UnixMilli hi.

Lemma UnixMilli_mono t t' : t ≤ t' → UnixMilli t ≤ UnixMilli t'.
Proof. unfold UnixMilli. lia. Qed.
Lemma close_active_inert now a :
  Forall (λ ev, event_time ev = now ∧ inert ev = true) (enqueueCloseActiveMessage now a).2.
Proof. unfold enqueueCloseActiveMessage. cbn. repeat case_match; simplify_eq; repeat constructor. Qed.

(** The events of a batch that the session only records. *)
Definition recorded (now : nat → Z) (evs : list AGUIEvent) : Prop :=
  Forall (λ e, (∃ i, event_time e = now i) ∧ inert e = true) evs.
Lemma close_active_recorded now i a : recorded now (enqueueCloseActiveMessage (now i) a).2.
Proof. eapply Forall_impl; [apply close_active_inert|]. cbn. intros e [-> ?]. eauto. Qed.

Section publish.
Context (now : nat → Z) (lo hi : Z) (s : Session) (id : string) (at_ : Time).
Context (Hnow : ∀ i, 0 < now i ∧ lo ≤ now i ≤ hi) (Hhi : hi < 2 ^ 63) (Hat : ses_statusAt s ≤ UnixMilli lo).
Notation cap evs := (view_of (foldl (capture_event id at_) s evs)).

Lemma now_int64 i : int64_ok (now i) = true.
Proof. unfold int64_ok. destruct (Hnow i). apply andb_true_intro. split; [apply Z.leb_le|apply Z.ltb_lt]; lia. Qed.
Lemma status_before i : ses_statusAt s ≤ UnixMilli (now i).
Proof. etrans; [exact Hat|]. apply UnixMilli_mono. destruct (Hnow i). lia. Qed.
Lemma before_hi i : UnixMilli (now i) ≤ UnixMilli hi.
Proof. apply UnixMilli_mono. destruct (Hnow i). lia. Qed.
Lemma status_hi : ses_statusAt s ≤ UnixMilli hi.
Proof. etrans; [apply (status_before 0%nat)|apply before_hi]. Qed.

Lemma recorded_view evs : recorded now evs → cap evs = view_of s.
Proof.
  intros He. apply inert_views. eapply Forall_impl; [exact He|]. cbn. intros e [[i Hi] ?]. rewrite Hi.
  destruct (Hnow i). split; [done|]. split; [apply now_int64|done].
Qed.
Lemma recorded_spec ev evs :
  recorded now evs → approval_spec (approvals_view s) ev = approvals_view s →
  input_spec (inputs_view s) ev = inputs_view s → status_spec (v_status (view_of s)) ev = v_status (view_of s) →
  spec_view ev hi (view_of s) (cap evs).
Proof. intros He H1 H2 H3. rewrite recorded_view by done. split_and!; [done..|]. apply status_hi. Qed.

Lemma completed_view runID success deferred err a :
  spec_view (RunCompletedEvent success deferred err) hi (view_of s)
    (cap (onRunCompleted now runID success deferred err a).2).
Proof.
  unfold onRunCompleted, then_fill. pose proof (close_active_recorded now 0 a) as Hc.
  destruct (enqueueCloseActiveMessage (now 0%nat) a) as [a' b]. cbn [snd] in *. rewrite foldl_app. cbn [foldl].
  pose proof (recorded_view b Hc) as Hv. set (s1 := foldl _ s b) in *. clearbody s1.
  assert (ses_statusAt s1 ≤ UnixMilli (now 1%nat)) as Ht.
  { injection Hv as _ _ _ _ ->. apply status_before. }
  destruct (success || deferred) eqn:E.
  - rewrite (run_status_view id at_ s1 _ SessionStatusCompleted "RUN_FINISHED" (coerce_utf8 (coerce_utf8 runID)));
      [|apply Hnow|apply now_int64|done|done|done|set_solver].
    rewrite Hv. split_and!; [done..|cbn; by rewrite E|]. apply before_hi.
  - rewrite (run_status_view id at_ s1 _ SessionStatusFailed "RUN_ERROR"
      (if String.eqb runID "" then "" else coerce_utf8 (coerce_utf8 runID)));
      [|apply Hnow|apply now_int64|done|done|done|set_solver].
    rewrite Hv. split_and!; [done..|cbn; by rewrite E|]. apply before_hi.
Qed.

Lemma publish_spec runID ev a : Forall (λ t, ValidString t = true) (event_texts ev) →
  spec_view ev hi (view_of s) (cap (handler now runID ev a).2).
Proof.
  intros Htx. pose proof (proj1 (Hnow 0%nat)) as Hpos. pose proof (now_int64 0) as Hts.
  pose proof (status_before 0) as Hle. pose proof (before_hi 0) as Hb. pose proof status_hi as Hh.
  destruct ev as [call tool args|call tool res|call tool err|call tool args|call tool ok|reason| | | | | | |call tool args
    |call tool content isError|prompt| |success deferred err]; cbn [handler event_texts] in *;
    rewrite ?Forall_cons in Htx.
  - apply recorded_spec; [|done..]. unfold onToolCalled, then_fill. pose proof (close_active_recorded now 0 a) as Hc.
    destruct (enqueueCloseActiveMessage (now 0%nat) a) as [a' b]. destruct (String.eqb args ""); cbn in *;
      apply Forall_app; (split; [done|]); repeat constructor; cbn; eauto.
  - apply recorded_spec; [|done..]. repeat constructor; cbn; eauto.
  - apply recorded_spec; [|done..]. repeat constructor; cbn; eauto.
  - destruct Htx as (H1 & H2 & H3 & _).
    rewrite (approval_requested_view id at_ s now a Hpos Hts call tool args H1 H2 H3).
    by split_and!.
  - destruct Htx as (H1 & _).
    rewrite (approval_resolved_view id at_ s now a Hpos Hts call tool ok H1).
    by split_and!.
  - destruct Htx as (H1 & _).
    rewrite (run_waiting_view id at_ s now a Hpos Hts reason H1 Hle). by split_and!.
  - rewrite (run_resumed_view id at_ s now a Hpos Hts runID Hle). by split_and!.
  - apply recorded_spec; [constructor|done..].
  - apply recorded_spec; [|done..]. repeat constructor; cbn; eauto.
  - apply recorded_spec; [|done..]. unfold onTurnCompleted, then_fill. pose proof (close_active_recorded now 0 a) as Hc.
    destruct (enqueueCloseActiveMessage (now 0%nat) a) as [a' b]. cbn in *. apply Forall_app.
    split; [done|]. repeat constructor; cbn; eauto.
  - apply recorded_spec; [constructor|done..].
  - apply recorded_spec; [constructor|done..].
  - destruct Htx as (H1 & H2 & H3 & _).
    rewrite (deferred_requested_view id at_ s now a Hpos Hts call tool args H1 H2 H3).
    by split_and!.
  - destruct Htx as (H1 & _).
    rewrite (deferred_resolved_view id at_ s now a Hpos Hts call tool content isError H1). by split_and!.
  - cbn [onRunStarted snd foldl].
    rewrite (run_status_view id at_ s _ SessionStatusRunning "RUN_STARTED" (coerce_utf8 (coerce_utf8 runID)));
      [|done|done|done|done|done|set_solver]. by split_and!.
  - apply recorded_spec; [constructor|done..].
  - apply completed_view.
Qed.
End publish.

Lemma follow_spec runID ps a s lo :
  times_ok lo ps → Forall texts_ok ps → ses_statusAt s ≤ UnixMilli lo →
  let s' := (follow runID ps (a, s)).2 in let evs := pb_event <$> ps in
  approvals_view s' = foldl approval_spec (approvals_view s) evs ∧
  inputs_view s' = foldl input_spec (inputs_view s) evs ∧
  (ses_Status s', ses_WaitingReason s') = foldl status_spec (ses_Status s, ses_WaitingReason s) evs.
Proof.
  intros Ht Htx. revert a s lo Ht. induction Htx as [|p ps Hp _ IH]; intros a s lo Ht Hat; [done|].
  destruct Ht as (hi & Hnow & Hhi & Ht). cbn [follow foldl fmap list_fmap].
  pose proof (publish_spec (pb_now p) lo hi s (pb_id p) (pb_captured p) Hnow Hhi Hat runID (pb_event p) a Hp) as Hspec.
  unfold publish_event. cbn [fst snd]. destruct (handler (pb_now p) runID (pb_event p) a) as [a' b]. cbn [snd] in Hspec.
  set (s1 := foldl _ s b) in *. clearbody s1. destruct Hspec as (H1 & H2 & H3 & H4). cbn in H1, H2, H3, H4.
  destruct (IH a' s1 hi Ht H4) as (E1 & E2 & E3). rewrite H1 in E1. rewrite H2 in E2. rewrite H3 in E3. by split_and!.
Qed.

(** C18: after any run whose clock does not go back, the session that captured its AG-UI
    events holds exactly the approvals and the external inputs that were requested and
    not resolved since, with their tools and arguments, and the status and waiting
    reason of the last event that sets them. *)
Theorem session_follows_run threadID runID ps sid mode now :
  times_ok 0 ps → Forall texts_ok ps →
  let s := (follow runID ps (NewAdapter threadID, NewSession sid mode now)).2 in let evs := pb_event <$> ps in
  approvals_view s = foldl approval_spec ∅ evs ∧
  inputs_view s = foldl input_spec ∅ evs ∧
  (ses_Status s, ses_WaitingReason s) = foldl status_spec (SessionStatusStarting, "") evs.
Proof.
  intros Ht Htx. pose proof (follow_spec runID ps (NewAdapter threadID) (NewSession sid mode now) 0 Ht Htx) as H.
  apply H. by vm_compute.
Qed.

(** A run that defers a tool call: it waits, then its end is published. *)
Definition deferred_run : list Published :=
  (λ '(i, ev), MkPublished ev (λ _, i) "evt" 0) <$>
    [(1, RunStartedEvent "prompt"); (2, ToolCalledEvent "call" "tool" "{}");
     (3, DeferredRequestedEvent "call" "tool" "{}"); (4, RunWaitingEvent "deferred");
     (5, RunCompletedEvent false true "deferred")].
Lemma deferred_run_ok : times_ok 0 deferred_run ∧ Forall texts_ok deferred_run.
Proof.
  split.
  - cbn. do 5 (eexists; split; [intros _; split; [lia|split; [lia|apply Z.le_refl]]|split; [lia|]]). done.
  - repeat constructor.
Qed.
Lemma session_follows_run_witness :
  let s := (follow "run" deferred_run (NewAdapter "t", NewSession "ses" "core-run" 0)).2 in
  inputs_view s = {["call" := ("tool", "{}")]} ∧ ses_Status s = SessionStatusCompleted ∧ ses_WaitingReason s = "".
Proof.
  destruct deferred_run_ok as [Ht Htx].
  destruct (session_follows_run "t" "run" deferred_run "ses" "core-run" 0 Ht Htx) as (_ & H2 & H3). cbv zeta.
  set (s := (follow _ _ _).2) in *. clearbody s. rewrite H2. split; [by vm_compute|].
  assert (foldl status_spec (SessionStatusStarting, "") (pb_event <$> deferred_run) = (SessionStatusCompleted, "")) as E
    by (vm_compute; reflexivity).
  rewrite E in H3. injection H3 as -> ->. by split.
Defined.
(** The session of a run that waits for an external input is reported as completed,
    without a waiting reason. *)
Lemma deferred_run_is_reported_completed :
  let s := (follow "run" deferred_run (NewAdapter "t", NewSession "ses" "core-run" 0)).2 in
  (inputs_view s !! "call", ses_Status s, ses_WaitingReason s) = (Some ("tool", "{}"), "completed", "").
Proof. by vm_compute. Qed.
