(* ===== verification/AguiAction.v ===== *)
(** * Actions sent to an AG-UI session

    src/ext/agui/action.go and src/ext/agui/transport/action.go: the decoding of an
    action from a form, the lookup of the session, its bridge and its cancel function,
    and the response.  Bridges, cancel functions and sessions are named; [resolve] is
    what the call of [Resolve] on a bridge returns (AguiApproval).  A request makes its
    effects in order. *)

From S2P Require Import Prelude Errors Usage Messages AgentTypes AutoContext AgentTools AgentLoop ModelUtil Json TimeText OrchJson AguiSession AguiReplay AguiSse.

Record Action := MkAction {
  act_Type : string; act_SessionID : string; act_ToolCallID : string; act_ToolName : string;
  act_Approved : option bool; act_Content : string; act_IsError : bool; act_Message : string; act_LastSeq : Z;
}.
#[export] Instance Action_eta : RecordEta Action := λ a,
  MkAction (act_Type a) (act_SessionID a) (act_ToolCallID a) (act_ToolName a) (act_Approved a) (act_Content a)
    (act_IsError a) (act_Message a) (act_LastSeq a).

Definition ActionApproveToolCall : string := "approve_tool_call".
Definition ActionDenyToolCall : string := "deny_tool_call".
Definition ActionAbortSession : string := "abort_session".

(** ** Forms

    [FormValue] is the value of a key, empty if it is absent. *)
Section form.
Context (FormValue : string → string).

Fixpoint firstNonEmptyFormValue (keys : list string) : string :=
  match keys with
  | [] => ""
  | k :: keys =>
    if negb (String.eqb (TrimSpace (FormValue k)) "") then TrimSpace (FormValue k) else firstNonEmptyFormValue keys
  end.

Definition normalizeFormActionType (value : string) : string :=
  let v := ToLower (TrimSpace value) in
  if bool_decide (v ∈ [ActionApproveToolCall; "approve"; "approved"]) then ActionApproveToolCall
  else if bool_decide (v ∈ [ActionDenyToolCall; "deny"; "denied"; "reject"; "rejected"]) then ActionDenyToolCall
  else if bool_decide (v ∈ [ActionAbortSession; "abort"; "aborted"; "cancel"; "cancelled"; "canceled"])
  then ActionAbortSession
  else "".

Definition parseFormActionType : string :=
  if negb (String.eqb (TrimSpace (FormValue "type")) "") then TrimSpace (FormValue "type")
  else
    let normalized := normalizeFormActionType (firstNonEmptyFormValue ["decision"; "action"]) in
    if negb (String.eqb normalized "") then normalized
    else if negb (String.eqb (firstNonEmptyFormValue ["approve"]) "") then ActionApproveToolCall
    else if negb (String.eqb (firstNonEmptyFormValue ["deny"; "reject"]) "") then ActionDenyToolCall
    else if negb (String.eqb (firstNonEmptyFormValue ["abort"; "abort_session"]) "") then ActionAbortSession
    else "".

(** [strconv.ParseBool]. *)
Definition ParseBool (s : string) : option bool :=
  if bool_decide (s ∈ ["1"; "t"; "T"; "true"; "TRUE"; "True"]) then Some true
  else if bool_decide (s ∈ ["0"; "f"; "F"; "false"; "FALSE"; "False"]) then Some false
  else None.

Definition parseOptionalBoolFormValue (key : string) : res (option bool) :=
  let value := TrimSpace (FormValue key) in
  if String.eqb value "" then Ok None
  else match ParseBool value with
  | Some b => Ok (Some b)
  | None => Err (ENew ("invalid form body: " +:+ key +:+ " must be a boolean"))
  end.
Definition parseOptionalUint64FormValue (key : string) : res (option Z) :=
  let value := TrimSpace (FormValue key) in
  if String.eqb value "" then Ok None
  else match ParseUint value with
  | Ok n => Ok (Some n)
  | Err _ => Err (ENew ("invalid form body: " +:+ key +:+ " must be an unsigned integer"))
  end.

Definition decodeFormAction : res Action :=
  let action := MkAction parseFormActionType (FormValue "session_id") (FormValue "tool_call_id")
    (FormValue "tool_name") None (FormValue "content") false (firstNonEmptyFormValue ["message"; "reason"]) 0 in
  approved ← parseOptionalBoolFormValue "approved";
  let action := action <| act_Approved := approved |> in
  let action := match approved with
    | Some b => if String.eqb (act_Type action) "" then
                  action <| act_Type := if b then ActionApproveToolCall else ActionDenyToolCall |> else action
    | None => action
    end in
  isError ← parseOptionalBoolFormValue "is_error";
  let action := action <| act_IsError := default false isError |> in
  lastSeq ← parseOptionalUint64FormValue "last_seq";
  Ok (action <| act_LastSeq := default 0 lastSeq |>).
End form.

(** ** The handler *)

Record SessionRuntime := MkSessionRuntime {
  rt_Session : option nat; rt_ApprovalBridge : option nat; rt_Cancel : option nat;
}.
(** A nil map and an absent registry are [None]; a stored pointer may be nil. *)
Record ActionHandlerConfig := MkActionHandlerConfig {
  cfg_Sessions : option (gmap string (option SessionRuntime));
  cfg_Runtimes : option (gmap string (option SessionRuntime));
  cfg_ApprovalBridge : option nat;
  cfg_ApprovalBridges : gmap string (option nat);
  cfg_Cancels : option (gmap string (option nat));
  cfg_CancelFuncs : gmap string (option nat);
}.

(** [Some None]: the session is known but has no runtime. *)
Definition runtimeForSession (cfg : ActionHandlerConfig) (sessionID : string) : option (option SessionRuntime) :=
  match cfg_Sessions cfg with
  | Some m => m !! sessionID
  | None =>
    match cfg_Runtimes cfg with
    | Some m => m !! sessionID
    | None =>
      if bool_decide (is_Some (cfg_ApprovalBridges cfg !! sessionID)) then Some None
      else if bool_decide (is_Some (cfg_CancelFuncs cfg !! sessionID)) then Some None
      else match cfg_Cancels cfg with
      | Some m => if bool_decide (is_Some (m !! sessionID)) then Some None else None
      | None => None
      end
    end
  end.

Definition approvalBridgeForSession (cfg : ActionHandlerConfig) (sessionID : string) (runtime : option SessionRuntime)
    : option nat :=
  match runtime ≫= rt_ApprovalBridge with
  | Some b => Some b
  | None =>
    match cfg_ApprovalBridges cfg !! sessionID with
    | Some b => b
    | None => if runtime then cfg_ApprovalBridge cfg else None
    end
  end.
Definition cancelForSession (cfg : ActionHandlerConfig) (sessionID : string) (runtime : option SessionRuntime)
    : option nat :=
  match runtime ≫= rt_Cancel with
  | Some c => Some c
  | None =>
    match cfg_CancelFuncs cfg !! sessionID with
    | Some c => c
    | None => match cfg_Cancels cfg with Some m => mjoin (m !! sessionID) | None => None end
    end
  end.

Inductive ActionEffect :=
| EResolve (bridge : nat) (toolCallID : string) (approved : bool) (message : string)
| ECancel (cancel : nat)
| ESetAborted (session : nat).
Inductive ActionResponse :=
| RSuccess (action sessionID toolCallID message : string)
| RError (status : Z) (message : string).

Section serve.
Context (cfg : ActionHandlerConfig) (resolve : nat → string → bool → string → bool).

Definition unknown_session (a : Action) : ActionResponse := RError 404 ("unknown session: " +:+ act_SessionID a).
Definition unknown_tool_call (a : Action) : ActionResponse := RError 404 ("unknown tool call: " +:+ act_ToolCallID a).

Definition handleApproval (a : Action) (approved : bool) : ActionResponse * list ActionEffect :=
  if String.eqb (act_ToolCallID a) "" then (RError 400 "tool_call_id is required", [])
  else match runtimeForSession cfg (act_SessionID a) with
  | None => (unknown_session a, [])
  | Some runtime =>
    match approvalBridgeForSession cfg (act_SessionID a) runtime with
    | None => (unknown_tool_call a, [])
    | Some b =>
      let effect := EResolve b (act_ToolCallID a) approved (act_Message a) in
      if negb (resolve b (act_ToolCallID a) approved (act_Message a)) then (unknown_tool_call a, [effect])
      else (RSuccess (act_Type a) (act_SessionID a) (act_ToolCallID a) (act_Message a), [effect])
    end
  end.

Definition handleAbort (a : Action) : ActionResponse * list ActionEffect :=
  match runtimeForSession cfg (act_SessionID a) with
  | None => (unknown_session a, [])
  | Some runtime =>
    match cancelForSession cfg (act_SessionID a) runtime with
    | None => (unknown_session a, [])
    | Some c =>
      (RSuccess (act_Type a) (act_SessionID a) "" "session aborted",
       ECancel c :: match runtime ≫= rt_Session with Some s => [ESetAborted s] | None => [] end)
    end
  end.

(** [ServeHTTP] after the request was decoded. *)
Definition ServeAction (post : bool) (decoded : res Action) : ActionResponse * list ActionEffect :=
  if negb post then (RError 405 "method not allowed", [])
  else match decoded with
  | Err e => (RError 400 (Error e), [])
  | Ok a =>
    if String.eqb (act_Type a) "" then (RError 400 "type is required", [])
    else if String.eqb (act_SessionID a) "" then (RError 400 "session_id is required", [])
    else if String.eqb (act_Type a) ActionApproveToolCall then handleApproval a true
    else if String.eqb (act_Type a) ActionDenyToolCall then handleApproval a false
    else if String.eqb (act_Type a) ActionAbortSession then handleAbort a
    else (RError 400 ("unsupported action type: " +:+ act_Type a), [])
  end.

(** ** What a request does *)

(** A request has no effect unless it names a known session, and its effects are those
    of its action: a decision about its own tool call with the decision of its type, or
    the abort of its session.  It succeeds exactly if the bridge took the decision, or
    there was something to abort. *)
Theorem action_does_what_it_says post decoded r effects :
  ServeAction post decoded = (r, effects) →
  match effects with
  | [] => ∃ (status : Z) (text : string), r = RError status text
  | EResolve b id approved msg :: rest =>
    ∃ a, decoded = Ok a ∧ post = true ∧ rest = [] ∧ id = act_ToolCallID a ∧ id ≠ "" ∧ msg = act_Message a ∧
      act_Type a = (if approved then ActionApproveToolCall else ActionDenyToolCall) ∧
      (∃ runtime : option SessionRuntime, runtimeForSession cfg (act_SessionID a) = Some runtime ∧
                  approvalBridgeForSession cfg (act_SessionID a) runtime = Some b) ∧
      r = if resolve b id approved msg then RSuccess (act_Type a) (act_SessionID a) id msg else unknown_tool_call a
  | ECancel c :: rest =>
    ∃ a, decoded = Ok a ∧ post = true ∧ act_Type a = ActionAbortSession ∧
      (∃ runtime : option SessionRuntime, runtimeForSession cfg (act_SessionID a) = Some runtime ∧
                  cancelForSession cfg (act_SessionID a) runtime = Some c ∧
                  rest = match runtime ≫= rt_Session with Some s => [ESetAborted s] | None => [] end) ∧
      r = RSuccess (act_Type a) (act_SessionID a) "" "session aborted"
  | ESetAborted _ :: _ => False
  end.
Proof.
  unfold ServeAction. destruct post; cbn [negb]; [|intros [= <- <-]; eauto]. destruct decoded as [a|e]; [|intros [= <- <-]; eauto].
  destruct (String.eqb (act_Type a) ""); [intros [= <- <-]; eauto|].
  destruct (String.eqb (act_SessionID a) ""); [intros [= <- <-]; eauto|].
  assert (Happ : ∀ approved : bool, act_Type a = (if approved then ActionApproveToolCall else ActionDenyToolCall) →
    handleApproval a approved = (r, effects) → match effects with
    | [] => ∃ (status : Z) (text : string), r = RError status text
    | EResolve b id ap msg :: rest => ap = approved ∧ rest = [] ∧ id = act_ToolCallID a ∧ id ≠ "" ∧ msg = act_Message a ∧
      (∃ runtime : option SessionRuntime, runtimeForSession cfg (act_SessionID a) = Some runtime ∧
                  approvalBridgeForSession cfg (act_SessionID a) runtime = Some b) ∧
      r = if resolve b id ap msg then RSuccess (act_Type a) (act_SessionID a) id msg else unknown_tool_call a
    | _ => False end).
  { intros approved _. unfold handleApproval. destruct (String.eqb_spec (act_ToolCallID a) ""); [intros [= <- <-]; eauto|].
    destruct (runtimeForSession cfg (act_SessionID a)) as [rt|]; [|intros [= <- <-]; unfold unknown_session; eauto].
    destruct (approvalBridgeForSession cfg (act_SessionID a) rt) as [b|] eqn:Hb; [|intros [= <- <-]; unfold unknown_tool_call; eauto].
    destruct (resolve b (act_ToolCallID a) approved (act_Message a)) eqn:Hr; cbn [negb]; intros [= <- <-];
      rewrite Hr; split_and!; eauto. }
  destruct (String.eqb_spec (act_Type a) ActionApproveToolCall) as [Ht|]; [|
    destruct (String.eqb_spec (act_Type a) ActionDenyToolCall) as [Ht|]; [|
    destruct (String.eqb_spec (act_Type a) ActionAbortSession) as [Ht|]; [|intros [= <- <-]; eauto]]].
  - intros H. specialize (Happ true Ht H). destruct effects as [|[b id ap msg| |] rest]; [done| |done..].
    destruct Happ as (-> & ? & ? & ? & ? & ? & ?). exists a. by split_and!.
  - intros H. specialize (Happ false Ht H). destruct effects as [|[b id ap msg| |] rest]; [done| |done..].
    destruct Happ as (-> & ? & ? & ? & ? & ? & ?). exists a. by split_and!.
  - unfold handleAbort. destruct (runtimeForSession cfg (act_SessionID a)) as [rt|] eqn:Hrt; [|intros [= <- <-]; unfold unknown_session; eauto].
    destruct (cancelForSession cfg (act_SessionID a) rt) as [c|] eqn:Hc; [|intros [= <- <-]; unfold unknown_session; eauto].
    intros [= <- <-]. exists a. split_and!; [done..| |done]. exists rt. by split_and!.
Qed.
End serve.

(** The action of the approval form of the reference client, on a handler that keeps a
    bridge per session. *)
Definition demo_form (key : string) : string :=
  if String.eqb key "decision" then " Approved " else if String.eqb key "session_id" then "s1"
  else if String.eqb key "tool_call_id" then "call_1" else "".
Definition demo_handler : ActionHandlerConfig := MkActionHandlerConfig None None None {[ "s1" := Some 7%nat ]} None ∅.

Lemma action_does_what_it_says_witness :
  ∃ a : Action, decodeFormAction demo_form = Ok a ∧ act_Type a = ActionApproveToolCall ∧
    RSuccess ActionApproveToolCall "s1" "call_1" "" = RSuccess (act_Type a) (act_SessionID a) (act_ToolCallID a) (act_Message a).
Proof.
  destruct (action_does_what_it_says demo_handler (λ _ _ _ _, true) true (decodeFormAction demo_form)
    (RSuccess ActionApproveToolCall "s1" "call_1" "") [EResolve 7 "call_1" true ""] ltac:(vm_compute; reflexivity))
    as (a & Ha & _ & _ & Hid & _ & Hm & Ht & _ & Hr). exists a. split_and!; [done..|].
  etransitivity; [exact Hr|]. by rewrite Hid, Hm.
Defined.
