(* ===== verification/Orchestration.v ===== *)
(** * Chains, handoffs and pipelines of agents

    src/core/orchestration: the filters applied to a history at a handoff
    (handoff_filter.go), [ChainRun] and its variants (chain.go), the handoff pipeline
    (multiagent.go) and string pipelines (pipeline.go).

    An agent enters as its [Run] method; [RunLaws] is what the theorems rely on, and
    [agent_laws] discharges it for every agent of RunSetup with a request limit.  The
    options of a run are functions on its configuration, as in the code. *)

From S2P Require Import Prelude Errors Usage Messages AgentTypes AutoContext AgentTools AgentToolsSafety AgentLoop AgentTurn AgentSafety AutoContextSafety Json Serialize Snapshot RunSetup RunSafety History.

(** ** Filters *)

Definition newline_string : string := byte_string [10%nat].

Section filters.
Context {W : Type}.

(** [None] is Go's panic on a slice out of range. *)
Definition HandoffFilter : Type := list ModelMessage → W → W * option (res (list ModelMessage)).

Definition is_system (p : RequestPart) : bool := match p with SystemPromptPart _ => true | _ => false end.
Definition strip_message (m : ModelMessage) : ModelMessage :=
  match m with
  | ModelRequest ps =>
    match filter (λ p, is_system p = false) ps with
    | [] => ModelRequest [UserPromptPart "[system context removed during handoff]"]
    | filtered => ModelRequest filtered
    end
  | Response _ => m
  end.
Definition StripSystemPrompts : HandoffFilter := λ msgs w, (w, Some (Ok (strip_message <$> msgs))).

Definition KeepLastN (n : Z) : HandoffFilter := λ msgs w,
  let len := Z.of_nat (length msgs) in
  (w, if len <=? n then Some (Ok msgs)
      else if n <? 0 then None
      else Some (Ok (drop (Z.to_nat (len - n)) msgs))).

Definition conversation_line (m : ModelMessage) : string :=
  match m with
  | ModelRequest ps => String.concat "" (omap (λ p, match p with
      | UserPromptPart c => Some ("User: " +:+ c +:+ newline_string) | _ => None end) ps)
  | Response r => if String.eqb (TextContent r) "" then "" else "Assistant: " +:+ TextContent r +:+ newline_string
  end.
Definition SummarizeHistory (summarizer : Model W) : HandoffFilter := λ msgs w,
  let content := String.concat "" (conversation_line <$> msgs) in
  if String.eqb content "" then (w, Some (Ok msgs))
  else
    match Request summarizer
            [ModelRequest [UserPromptPart ("Summarize this conversation concisely:" +:+ newline_string +:+ content)]]
            None (MkModelRequestParameters [] (OutputModeOther "") [] None true) w with
    | (w, Err e) => (w, Some (Err (EWrap "summarize history: " e "")))
    | (w, Ok resp) => (w, Some (Ok [ModelRequest [SystemPromptPart ("[Conversation Summary] " +:+ TextContent resp)]]))
    end.

Fixpoint ChainFilters (filters : list HandoffFilter) : HandoffFilter := λ msgs w,
  match filters with
  | [] => (w, Some (Ok msgs))
  | f :: filters =>
    match f msgs w with
    | (w, Some (Ok msgs)) => ChainFilters filters msgs w
    | (w, other) => (w, other)
    end
  end.
End filters.
Arguments HandoffFilter : clear implicits.

(** ** Chains and handoffs *)

(** The [Run] method of an agent; [None] is a run out of fuel. *)
Definition AgentRunFn (W T : Type) : Type := runConfig → string → prog W (option (RunResult T + RunError)).
Definition RunOption : Type := runConfig → runConfig.
Definition empty_config : runConfig := MkRunConfig None None [] None [] [] ∅.
Definition apply_options (opts : list RunOption) : runConfig := foldl (λ c o, o c) empty_config opts.
Definition WithMessages (msgs : list ModelMessage) : RunOption := λ c,
  MkRunConfig (cfg_modelSettings c) (cfg_usageLimits c) msgs (cfg_snapshot c) (cfg_initialRequestParts c)
    (cfg_deferredResults c) (cfg_toolState c).

(** The error of a run returned as it is or wrapped, another error, or a panic. *)
Inductive ChainError :=
| CRun (e : RunError)
| CWrapRun (prefix : string) (e : RunError)
| CErr (e : error)
| CPanic.

Section chain.
Context {W A B : Type}.
Context (first : AgentRunFn W A) (second : AgentRunFn W B) (transform : A → string).
Local Open Scope prog_scope.

Definition with_usage {T} (u : RunUsage) (r : RunResult T) : RunResult T :=
  MkRunResult (Output r) (res_Messages r) u (res_RunID T r).

Definition ChainRun (prompt : string) (opts : list RunOption) : prog W (option (RunResult B + ChainError)) :=
  r1 <- first (apply_options opts) prompt;;
  match r1 with
  | None => Ret None
  | Some (inr e) => Ret (Some (inr (CRun e)))
  | Some (inl r1) =>
    r2 <- second (apply_options opts) (transform (Output r1));;
    match r2 with
    | None => Ret None
    | Some (inr e) => Ret (Some (inr (CRun e)))
    | Some (inl r2) => Ret (Some (inl (with_usage (IncrRun (res_Usage r2) (res_Usage r1)) r2)))
    end
  end.

Record ChainRunResult := MkChainRunResult { Intermediate : A; Final : B; TotalUsage : RunUsage }.
Definition ChainRunFull (prompt : string) (opts : list RunOption) : prog W (option (ChainRunResult + ChainError)) :=
  r1 <- first (apply_options opts) prompt;;
  match r1 with
  | None => Ret None
  | Some (inr e) => Ret (Some (inr (CRun e)))
  | Some (inl r1) =>
    r2 <- second (apply_options opts) (transform (Output r1));;
    match r2 with
    | None => Ret None
    | Some (inr e) => Ret (Some (inr (CRun e)))
    | Some (inl r2) =>
      Ret (Some (inl (MkChainRunResult (Output r1) (Output r2) (IncrRun (res_Usage r1) (res_Usage r2)))))
    end
  end.

Definition ChainRunWithFilter (filter : HandoffFilter W) (prompt : string) (opts : list RunOption)
    : prog W (option (RunResult B + ChainError)) :=
  r1 <- first (apply_options opts) prompt;;
  match r1 with
  | None => Ret None
  | Some (inr e) => Ret (Some (inr (CRun e)))
  | Some (inl r1) =>
    filtered <- callback (filter (res_Messages r1));;
    match filtered with
    | None => Ret (Some (inr CPanic))
    | Some (Err e) => Ret (Some (inr (CErr (EWrap "handoff filter: " e ""))))
    | Some (Ok msgs) =>
      r2 <- second (apply_options (WithMessages msgs :: opts)) (transform (Output r1));;
      match r2 with
      | None => Ret None
      | Some (inr e) => Ret (Some (inr (CRun e)))
      | Some (inl r2) => Ret (Some (inl (with_usage (IncrRun (res_Usage r2) (res_Usage r1)) r2)))
      end
    end
  end.
End chain.

Section handoff.
Context {W T : Type}.
Local Open Scope prog_scope.

Record handoffStep := MkHandoffStep {
  hs_name : string; hs_agent : AgentRunFn W T; hs_promptFn : T → string; hs_filter : option (HandoffFilter W);
}.
Definition AddStep (name : string) (agent : AgentRunFn W T) (promptFn : T → string) (h : list handoffStep)
    : list handoffStep := h ++ [MkHandoffStep name agent promptFn None].
Definition AddStepWithFilter (name : string) (agent : AgentRunFn W T) (promptFn : T → string)
    (filter : HandoffFilter W) (h : list handoffStep) : list handoffStep :=
  h ++ [MkHandoffStep name agent promptFn (Some filter)].

(** The history handed to a step, or why there is none. *)
Definition handoff_messages (step : handoffStep) (msgs : list ModelMessage)
    : prog W (list ModelMessage + ChainError) :=
  match hs_filter step with
  | None => Ret (inl msgs)
  | Some f =>
    filtered <- callback (f msgs);;
    Ret match filtered with
        | None => inr CPanic
        | Some (Err e) => inr (CErr (EWrap ("handoff step " +:+ go_quote (hs_name step) +:+ " filter: ") e ""))
        | Some (Ok msgs) => inl msgs
        end
  end.

Definition step_failed (step : handoffStep) (e : RunError) : ChainError :=
  CWrapRun ("handoff step " +:+ go_quote (hs_name step) +:+ " failed: ") e.

(** The steps after the first, each with the result before it. *)
Fixpoint handoff_rest (steps : list handoffStep) (last : RunResult T) (total : RunUsage)
    : prog W (option (RunResult T + ChainError)) :=
  match steps with
  | [] => Ret (Some (inl (with_usage total last)))
  | step :: steps =>
    msgs <- handoff_messages step (res_Messages last);;
    match msgs with
    | inr e => Ret (Some (inr e))
    | inl msgs =>
      r <- hs_agent step (apply_options [WithMessages msgs]) (hs_promptFn step (Output last));;
      match r with
      | None => Ret None
      | Some (inr e) => Ret (Some (inr (step_failed step e)))
      | Some (inl r) => handoff_rest steps r (IncrRun total (res_Usage r))
      end
    end
  end.
Definition Handoff_Run (steps : list handoffStep) (initialPrompt : string)
    : prog W (option (RunResult T + ChainError)) :=
  match steps with
  | [] => Ret (Some (inr (CErr (ENew "handoff pipeline has no steps"))))
  | step :: steps =>
    r <- hs_agent step (apply_options []) initialPrompt;;
    match r with
    | None => Ret None
    | Some (inr e) => Ret (Some (inr (step_failed step e)))
    | Some (inl r) => handoff_rest steps r (IncrRun zero_run_usage (res_Usage r))
    end
  end.
End handoff.
Arguments handoffStep : clear implicits.

(** ** Pipelines of strings *)

Section pipeline.
Context {W : Type}.
Local Open Scope prog_scope.

Definition PipelineStep : Type := string → prog W (option (string + ChainError)).

(** [ctx.Err()] is read before every step. *)
Fixpoint Pipeline_Run (ctx_Err : W → option error) (steps : list PipelineStep) (input : string)
    : prog W (option (string + ChainError)) :=
  match steps with
  | [] => Ret (Some (inl input))
  | step :: steps =>
    cancelled <- callback (λ w, (w, ctx_Err w));;
    match cancelled with
    | Some e => Ret (Some (inr (CErr e)))
    | None =>
      r <- step input;;
      match r with
      | Some (inl output) => Pipeline_Run ctx_Err steps output
      | other => Ret other
      end
    end
  end.
Definition Then (step : PipelineStep) (p : list PipelineStep) : list PipelineStep := p ++ [step].

Definition AgentStep (agent : AgentRunFn W string) : PipelineStep := λ input,
  r <- agent (apply_options []) input;;
  Ret match r with
      | None => None
      | Some (inr e) => Some (inr (CRun e))
      | Some (inl r) => Some (inl (Output r))
      end.
Definition TransformStep (fn : string → string) : PipelineStep := λ input, Ret (Some (inl (fn input))).
Definition ConditionalStep (predicate : string → bool) (ifTrue ifFalse : PipelineStep) : PipelineStep := λ input,
  if predicate input then ifTrue input else ifFalse input.

(** The steps run one after another in the order [order]; each fills its own slot. *)
Fixpoint run_parallel (order : list nat) (steps : list PipelineStep) (input : string)
    (slots : gmap nat (option (string + ChainError))) : prog W (gmap nat (option (string + ChainError))) :=
  match order with
  | [] => Ret slots
  | i :: order =>
    match steps !! i with
    | None => run_parallel order steps input slots
    | Some step => r <- step input;; run_parallel order steps input (<[i := r]> slots)
    end
  end.
(** The first error by position, else the results joined by line ends. *)
Fixpoint join_slots (l : list (option (string + ChainError))) (acc : list string) : option (string + ChainError) :=
  match l with
  | [] => Some (inl (String.concat newline_string (rev acc)))
  | None :: _ => None
  | Some (inr e) :: _ => Some (inr e)
  | Some (inl r) :: l => join_slots l (r :: acc)
  end.
Definition ParallelSteps (order : list nat) (steps : list PipelineStep) : PipelineStep := λ input,
  slots <- run_parallel order steps input ∅;;
  Ret (join_slots ((λ i, mjoin (slots !! i)) <$> seq 0 (length steps)) []).
End pipeline.
Arguments PipelineStep : clear implicits.

(** ** What the filters keep *)

Lemma strip_answers (ps : list RequestPart) : omap answers (filter (λ p, is_system p = false) ps) = omap answers ps.
Proof.
  induction ps as [|p ps IH]; [done|]. rewrite filter_cons.
  destruct p; cbn [is_system]; case_decide; try done; cbn; rewrite IH; done.
Qed.
Lemma strip_request (ps : list RequestPart) : ∃ ps' : list RequestPart, strip_message (ModelRequest ps) = ModelRequest ps' ∧
  omap answers ps' = omap answers ps ∧ Forall (λ p, is_system p = false) ps' ∧ ps' ≠ [].
Proof.
  cbn. pose proof (strip_answers ps) as Ha. 
  assert (Forall (λ p, is_system p = false) (filter (λ p, is_system p = false) ps)) as Hf
    by (apply Forall_forall; intros p [Hs _]%list_elem_of_filter; exact Hs).
  destruct (filter (λ p, is_system p = false) ps) as [|p ps']; eexists; (split; [done|]); split_and!; try done.
  by repeat constructor.
Qed.
Lemma strip_paired msgs : paired msgs → paired (strip_message <$> msgs).
Proof.
  induction msgs as [|[ps|r] msgs IH]; [done|..]; rewrite fmap_cons.
  - destruct (strip_request ps) as (ps' & -> & _). exact IH.
  - intros [Hr Hm]. split; [|by apply IH]. destruct Hr as [|Hr]; [by left|right].
    destruct msgs as [|[ps|] msgs]; try done. rewrite fmap_cons.
    destruct (strip_request ps) as (ps' & -> & Hps & _). by rewrite Hps.
Qed.
Lemma strip_alternating b msgs : alternating b msgs → alternating b (strip_message <$> msgs).
Proof.
  revert b. induction msgs as [|m msgs IH]; intros b; [done|]. intros [Hm Hr]. split; [|by apply IH].
  destruct m as [ps|]; [|done]. by destruct (strip_request ps) as (ps' & -> & _).
Qed.
Lemma strip_linked calls msgs : linked calls msgs → linked calls (strip_message <$> msgs).
Proof.
  revert calls. induction msgs as [|[ps|r] msgs IH]; intros calls; [done|..]; rewrite fmap_cons.
  - destruct (strip_request ps) as (ps' & -> & Hps & _). cbn. rewrite Hps. intros [? ?]. split; [done|by apply IH].
  - cbn. apply IH.
Qed.

(** Stripping the system prompts leaves a history a provider accepts, of the same length,
    with none of them and no empty request. *)
Theorem StripSystemPrompts_valid {W} msgs (w : W) : valid_history msgs → ∃ out,
  StripSystemPrompts msgs w = (w, Some (Ok out)) ∧ valid_history out ∧ length out = length msgs ∧
  ∀ ps, ModelRequest ps ∈ out → ps ≠ [] ∧ Forall (λ p, is_system p = false) ps.
Proof.
  intros (Ha & Hp & Hl). eexists. split; [done|]. split_and!.
  - split_and!; [by apply strip_alternating|by apply strip_paired|by apply strip_linked].
  - by rewrite length_fmap.
  - intros ps ([qs|] & Hm & _)%list_elem_of_fmap; [|done]. destruct (strip_request qs) as (ps' & E & _ & Hs & Hne).
    rewrite E in Hm. by injection Hm as ->.
Qed.

(** A filter that does not panic, and one that keeps every call answered. *)
Definition filter_total {W} (f : HandoffFilter W) : Prop := ∀ msgs w, ∃ w' out, f msgs w = (w', Some out).
Definition filter_paired {W} (f : HandoffFilter W) : Prop := ∀ msgs w w' msgs',
  paired msgs → f msgs w = (w', Some (Ok msgs')) → paired msgs'.

(** The ready-made filters are both; [KeepLastN] of a negative number panics. *)
Lemma StripSystemPrompts_ok {W} : filter_total (W := W) StripSystemPrompts ∧ filter_paired (W := W) StripSystemPrompts.
Proof. split; [intros msgs w; by eexists _, _|]. intros msgs w w' ? Hp [= _ <-]. by apply strip_paired. Qed.
Lemma KeepLastN_ok {W} n : 0 ≤ n → filter_total (W := W) (KeepLastN n) ∧ filter_paired (W := W) (KeepLastN n).
Proof.
  intros Hn. unfold KeepLastN.
  split; intros msgs w; [destruct (_ <=? n); [by eexists _, _|]; destruct (Z.ltb_spec n 0); [lia|]; by eexists _, _|].
  intros w' ms Hp. destruct (_ <=? n); [by intros [= _ <-]|]. destruct (Z.ltb_spec n 0); [lia|].
  intros [= _ <-]. by apply paired_drop.
Qed.
Lemma SummarizeHistory_ok {W} (m : Model W) : filter_total (SummarizeHistory m) ∧ filter_paired (SummarizeHistory m).
Proof.
  unfold SummarizeHistory. split; intros msgs w.
  - destruct (String.eqb _ ""); [by eexists _, _|]. destruct (Request m _ _ _ w) as [w' [resp|e]]; by eexists _, _.
  - intros w' ms Hp. destruct (String.eqb _ ""); [by intros [= _ <-]|].
    destruct (Request m _ _ _ w) as [w1 [resp|e]]; [|done]. by intros [= _ <-].
Qed.
Lemma ChainFilters_ok {W} (fs : list (HandoffFilter W)) :
  (Forall filter_total fs → filter_total (ChainFilters fs)) ∧
  (Forall filter_paired fs → filter_paired (ChainFilters fs)).
Proof.
  split; induction 1 as [|f fs Hf _ IH]; intros msgs w; cbn.
  - by eexists _, _.
  - destruct (Hf msgs w) as (w' & [out|e] & E); rewrite E; [apply IH|by eexists _, _].
  - intros w' ms Hp. by intros [= _ <-].
  - intros w' ms Hp. specialize (Hf msgs w). destruct (f msgs w) as [w1 [[out|e]|]]; [|done..]. by apply IH, (Hf w1).
Qed.

(** ** Runs of agents *)

(** A run ends, and makes at most [n] requests when it succeeds. *)
Class RunEnds {W T} (agent : AgentRunFn W T) (n : Z) : Prop :=
  run_ends : ∀ cfg prompt s, cfg_snapshot cfg = None → cfg_usageLimits cfg = None →
    ∃ s' out, run (agent cfg prompt) s = (s', Some out) ∧ ∀ r, out = inl r → Requests (res_Usage r) ≤ n.
(** A run that continues a paired history returns one. *)
Definition run_pairs {W T} (agent : AgentRunFn W T) : Prop :=
  ∀ cfg prompt s s' r, cfg_snapshot cfg = None → cfg_deferredResults cfg = [] →
    paired (cfg_messages cfg) → run (agent cfg prompt) s = (s', Some (inl r)) → paired (res_Messages r).

Section laws.
Context {W T : Type}.
Context (json_marshal : ToolValue → res string).
Context (json_object_ok : string → bool).
Context (unmarshal_wrapper : string → res (gmap string string)).
Context (unmarshal_T : string → res T).
Context (string_as_T : string → option T).
Context (type_name_T : string).
Context (ctx_Err : W → option error).

(** The [Run] method of an agent of RunSetup. *)
Definition agent_run (a : Agent W T) (su : AgentSetup W) (fuel : nat) (parent rid : string) (now : Timestamp)
    : AgentRunFn W T := λ cfg prompt,
  Run json_marshal json_object_ok unmarshal_wrapper unmarshal_T string_as_T type_name_T ctx_Err a su fuel cfg
    parent rid now prompt.

Lemma agent_run_ends a su fuel parent rid now n :
  RequestLimit (agent_usageLimits su) = Some n → Z.max 0 n < Z.of_nat fuel →
  RunEnds (agent_run a su fuel parent rid now) (Z.max n 0).
Proof.
  intros Hlim Hfuel cfg prompt s Hsn Hu. unfold agent_run.
  assert (prior_requests cfg = 0) as Hq by (unfold prior_requests; by rewrite Hsn).
  destruct (Run_ends json_marshal json_object_ok unmarshal_wrapper unmarshal_T string_as_T type_name_T ctx_Err a su
    cfg parent rid now prompt n fuel s) as (s' & out & Hrun & Hb); [by unfold run_limits; rewrite Hu|rewrite Hq; lia|].
  exists s', out. split; [done|]. intros r ->. rewrite Hq in Hb.
  apply run_Run in Hrun as [[e ?]|(s1 & p & s2 & _ & Hloop & Hs)]; [done|].
  apply runLoop_usage in Hloop. by rewrite Hloop, <-Hs.
Qed.
Lemma agent_run_pairs a su fuel parent rid now :
  processes_all a → runConditions a = [] → autoContext a = None → run_pairs (agent_run a su fuel parent rid now).
Proof.
  intros Hall Hc Ha cfg prompt s s' r Hsn Hd Hp Hrun. unfold agent_run in Hrun.
  pose proof (Run_paired json_marshal json_object_ok unmarshal_wrapper unmarshal_T string_as_T type_name_T ctx_Err a su
    cfg parent rid now prompt fuel s s' (inl r) Ha) as H. apply H; [|done..].
  unfold resumed_history, given_history. rewrite Hd. cbn. by destruct (cfg_messages cfg); [rewrite Hsn|].
Qed.

(** ** The handoff *)

Implicit Types (step : handoffStep W T) (steps : list (handoffStep W T)).

(** A step of an agent with the request limit [n] of its own, whose filter, if any, does
    not panic. *)
Definition limited_step step (n : Z) : Prop :=
  (∃ a su fuel parent rid now, hs_agent step = agent_run a su fuel parent rid now ∧
     RequestLimit (agent_usageLimits su) = Some n ∧ Z.max 0 n < Z.of_nat fuel) ∧
  match hs_filter step with Some f => filter_total f | None => True end.
(** A step of an agent with the exhaustive strategy or without output tools, without run
    conditions and auto-context, whose filter, if any, keeps calls answered. *)
Definition pairing_step step : Prop :=
  (∃ a su fuel parent rid now, hs_agent step = agent_run a su fuel parent rid now ∧
     processes_all a ∧ runConditions a = [] ∧ autoContext a = None) ∧
  match hs_filter step with Some f => filter_paired f | None => True end.

Definition request_bound (bounds : list Z) : Z := foldr Z.add 0 ((λ n, Z.max n 0) <$> bounds).

(** The error of a pipeline names the step it is from. *)
Definition step_error steps (e : ChainError) : Prop :=
  ∃ step, step ∈ steps ∧
    ((∃ e', e = CErr (EWrap ("handoff step " +:+ go_quote (hs_name step) +:+ " filter: ") e' "")) ∨
     (∃ e', e = step_failed step e')).
Definition handoff_post steps (ok : Prop) (bound : Z) (out : RunResult T + ChainError) : Prop :=
  match out with
  | inl r => Requests (res_Usage r) ≤ bound ∧ (ok → paired (res_Messages r))
  | inr e => step_error steps e
  end.

Lemma limited_step_ends step n : limited_step step n → RunEnds (hs_agent step) (Z.max n 0).
Proof. intros [(a & su & fuel & parent & rid & now & -> & Hl & Hf) _]. by apply agent_run_ends. Qed.
Lemma pairing_step_pairs step : pairing_step step → run_pairs (hs_agent step).
Proof. intros [(a & su & fuel & parent & rid & now & -> & H1 & H2 & H3) _]. by apply agent_run_pairs. Qed.

Lemma handoff_messages_ok step n msgs s : limited_step step n →
  ∃ s' out, run (handoff_messages step msgs) s = (s', out) ∧
    match out with
    | inl msgs' => pairing_step step → paired msgs → paired msgs'
    | inr e => step_error [step] e
    end.
Proof.
  intros [_ Hf]. unfold handoff_messages. unfold pairing_step. destruct (hs_filter step) as [f|]; [|eexists _, _; split; [done|]; by intros _ ?].
  rewrite run_bind. cbn. destruct (Hf msgs (world s)) as (w' & [out|e] & E); rewrite E; eexists _, _; (split; [done|]).
  - intros [_ Hp] Hm. by eapply Hp.
  - exists step. split; [set_solver|]. left. by eexists.
Qed.
Lemma step_error_mono steps steps' e : steps ⊆ steps' → step_error steps e → step_error steps' e.
Proof. intros Hs (step & Hin & He). exists step. split; [set_solver|done]. Qed.
Lemma handoff_post_mono steps steps' (ok ok' : Prop) b b' out :
  steps ⊆ steps' → (ok' → ok) → b ≤ b' → handoff_post steps ok b out → handoff_post steps' ok' b' out.
Proof.
  intros Hs Hok Hb. destruct out as [r|e]; cbn; [|by apply step_error_mono]. intros [? ?]. split; [lia|auto].
Qed.

Lemma handoff_rest_ok steps bounds (ok : Prop) last total b s :
  Forall2 limited_step steps bounds → (ok → paired (res_Messages last)) → Requests total ≤ b →
  ∃ s' out, run (handoff_rest steps last total) s = (s', Some out) ∧
    handoff_post steps (ok ∧ Forall pairing_step steps) (b + request_bound bounds) out.
Proof.
  intros Hok. revert ok last total b s. induction Hok as [|step n steps bounds Hl _ IH]; intros ok last total b s Hp Hb.
  { eexists _, _. split; [done|]. cbn. split; [lia|]. intros [? _]. auto. }
  cbn [handoff_rest]. rewrite run_bind.
  destruct (handoff_messages_ok step n (res_Messages last) s Hl) as (s1 & [msgs|e] & -> & Hm).
  2: { eexists _, _. split; [done|]. eapply step_error_mono; [|done]. set_solver. }
  rewrite run_bind. destruct (limited_step_ends _ _ Hl (apply_options [WithMessages msgs]) (hs_promptFn step (Output last)) s1)
    as (s2 & [r|e] & E & Hn); [done..| |]; rewrite E.
  - destruct (IH (ok ∧ pairing_step step) r (IncrRun total (res_Usage r)) (b + Z.max n 0) s2) as (s' & out & E' & Ho).
    { intros [Ho Hst]. apply (pairing_step_pairs _ Hst (apply_options [WithMessages msgs]) (hs_promptFn step (Output last)) s1 s2); [done|done| |done].
      exact (Hm Hst (Hp Ho)). }
    { cbn. specialize (Hn r eq_refl). lia. }
    exists s', out. split; [done|]. revert Ho. apply handoff_post_mono; [set_solver| |unfold request_bound; cbn; lia].
    rewrite Forall_cons. tauto.
  - eexists _, _. split; [done|]. exists step. split; [set_solver|]. right. by eexists.
Qed.

(** C20: a handoff pipeline of agents that each have a request limit of their own, with
    filters that do not panic, ends; its result counts at most as many requests as all
    its agents may make together; its error names the step that failed.  If moreover
    every agent has the exhaustive strategy or no output tools and neither run
    conditions nor auto-context, and the filters keep calls answered, every tool call of
    the result's history is answered. *)
Theorem handoff_correct steps bounds prompt s :
  steps ≠ [] → Forall2 limited_step steps bounds →
  ∃ s' out, run (Handoff_Run steps prompt) s = (s', Some out) ∧
    match out with
    | inl r => Requests (res_Usage r) ≤ request_bound bounds ∧
        (Forall pairing_step steps → paired (res_Messages r))
    | inr e => step_error steps e
    end.
Proof.
  intros Hne Hok. destruct Hok as [|step n steps bounds Hl Hok]; [done|]. cbn [Handoff_Run].
  rewrite run_bind. destruct (limited_step_ends _ _ Hl (apply_options []) prompt s) as (s1 & [r|e] & E & Hn);
    [done..| |]; rewrite E.
  - destruct (handoff_rest_ok steps bounds (pairing_step step) r (IncrRun zero_run_usage (res_Usage r)) (Z.max n 0) s1 Hok)
      as (s' & out & E' & Ho).
    { intros Hst. by apply (pairing_step_pairs _ Hst (apply_options []) prompt s s1). }
    { cbn. specialize (Hn r eq_refl). lia. }
    exists s', out. split; [done|]. apply (handoff_post_mono steps (step :: steps) _ (Forall pairing_step (step :: steps))
      _ (request_bound (n :: bounds))) in Ho; [done|set_solver|by rewrite Forall_cons|unfold request_bound; cbn; lia].
  - eexists _, _. split; [done|]. exists step. split; [set_solver|]. right. by eexists.
Qed.
End laws.

(** ** Chains are handoffs *)

Lemma add_details_comm d d' : add_details d d' = add_details d' d.
Proof.
  unfold add_details. apply map_eq. intros k. rewrite !lookup_union_with.
  destruct (d !! k), (d' !! k); cbn; try done. by rewrite Z.add_comm.
Qed.
Lemma add_details_empty d : add_details ∅ d = d.
Proof. unfold add_details. apply map_eq. intros k. rewrite lookup_union_with, lookup_empty. by destruct (d !! k). Qed.
Lemma Usage_Incr_comm u u' : Usage_Incr u u' = Usage_Incr u' u.
Proof.
  unfold Usage_Incr. f_equal; [lia..|]. case_bool_decide as H1; case_bool_decide as H2; rewrite ?H1, ?H2; try done.
  - by rewrite add_details_empty.
  - by rewrite add_details_empty.
  - apply add_details_comm.
Qed.
Lemma IncrRun_zero u : IncrRun zero_run_usage u = u.
Proof.
  destruct u as [[i o cw cr d] r t]. unfold IncrRun, Usage_Incr. cbn. f_equal.
  case_bool_decide as He; [by rewrite He|]. by rewrite add_details_empty.
Qed.
Lemma IncrRun_comm u u' : IncrRun u u' = IncrRun u' u.
Proof. unfold IncrRun. f_equal; [apply Usage_Incr_comm|lia..]. Qed.

(** [ChainRunWithFilter] without options is a handoff of two steps: it leaves the same
    state and returns the same output, history and usage, or fails where the handoff
    does. *)
Theorem chain_is_handoff {W T} (first second : AgentRunFn W T) transform filter n1 n2 p1 prompt s :
  let '(s1, out1) := run (ChainRunWithFilter first second transform filter prompt []) s in
  let '(s2, out2) := run (Handoff_Run [MkHandoffStep n1 first p1 None; MkHandoffStep n2 second transform (Some filter)] prompt) s in
  s1 = s2 ∧ match out1, out2 with
            | Some (inl r1), Some (inl r2) => r1 = r2
            | Some (inr _), Some (inr _) | None, None => True
            | _, _ => False
            end.
Proof.
  unfold ChainRunWithFilter. cbn [Handoff_Run handoff_rest hs_agent hs_promptFn]. rewrite !run_bind.
  destruct (run (first _ prompt) s) as [s1 [[r1|e]|]]; [|by split..].
  rewrite !run_bind. unfold handoff_messages. cbn [hs_filter]. rewrite run_bind. unfold callback, act. cbn [run].
  destruct (filter (res_Messages r1) (world s1)) as [w [[msgs|e]|]]; cbn [run]; [|by split..].
  rewrite !run_bind. set (s2 := s1 <| world := w |>).
  destruct (run (second _ _) s2) as [s3 [[r2|e]|]]; [|by split..]. cbn [run]. split; [done|].
  by rewrite IncrRun_zero, IncrRun_comm.
Qed.

(** ** Pipelines *)

(** A pipeline is the sequence of its parts. *)
Lemma Pipeline_app {W} (ctx_Err : W → option error) p q input :
  ∀ s, run (Pipeline_Run ctx_Err (p ++ q) input) s =
    run (bind (Pipeline_Run ctx_Err p input) (λ r, match r with
      | Some (inl output) => Pipeline_Run ctx_Err q output | other => Ret other end)) s.
Proof.
  revert input. induction p as [|step p IH]; intros input s; [done|]. cbn [Pipeline_Run app].
  rewrite !run_bind. destruct (run (callback _) s) as [s1 [e|]]; [done|].
  rewrite !run_bind. destruct (run (step input) s1) as [s2 [[output|e]|]]; [|done..]. by rewrite IH, run_bind.
Qed.

Lemma run_parallel_slots {W} order steps input slots vals (s : St W) :
  Forall2 (λ (step : PipelineStep W) v, ∀ s, (run (step input) s).2 = v) steps vals →
  ∀ i, (run (run_parallel order steps input slots) s).2 !! i =
    if bool_decide (i ∈ order) then match vals !! i with Some v => Some v | None => slots !! i end else slots !! i.
Proof.
  intros Hv i. revert slots s. induction order as [|j order IH]; intros slots s; [by cbn|]. cbn [run_parallel].
  destruct (steps !! j) as [step|] eqn:Ej.
  - rewrite run_bind. destruct (Forall2_lookup_l _ _ _ _ _ Hv Ej) as (v & Evj & Hs). specialize (Hs s).
    destruct (run (step input) s) as [s' r]. cbn in Hs. subst r. rewrite IH.
    destruct (decide (i = j)) as [->|Hij].
    + rewrite lookup_insert_eq, (bool_decide_eq_true_2 (j ∈ j :: order)) by set_solver. rewrite Evj. by case_bool_decide.
    + rewrite lookup_insert_ne by done. by rewrite (bool_decide_ext (i ∈ j :: order) (i ∈ order)) by set_solver.
  - rewrite IH. assert (vals !! j = None) as Hj.
    { apply lookup_ge_None. rewrite <-(Forall2_length _ _ _ Hv). by apply lookup_ge_None. }
    destruct (decide (i = j)) as [->|Hij]; [rewrite Hj; by repeat case_bool_decide|].
    by rewrite (bool_decide_ext (i ∈ j :: order) (i ∈ order)) by set_solver.
Qed.

(** In whatever order parallel steps run, their results are joined in the order of the
    steps, and the error is that of the first step that failed. *)
Theorem ParallelSteps_ordered {W} order steps input vals (s : St W) :
  order ≡ₚ seq 0 (length steps) →
  Forall2 (λ (step : PipelineStep W) v, ∀ s, (run (step input) s).2 = v) steps vals →
  (run (ParallelSteps order steps input) s).2 = join_slots vals [].
Proof.
  intros Ho Hv. unfold ParallelSteps. rewrite run_bind. pose proof (run_parallel_slots order steps input ∅ vals s Hv) as Hs.
  destruct (run (run_parallel order steps input ∅) s) as [s' slots]. cbn in Hs |- *. f_equal.
  pose proof (Forall2_length _ _ _ Hv) as Hlen. apply list_eq. intros i. rewrite list_lookup_fmap.
  destruct (decide (i < length steps)%nat) as [Hi|Hi].
  - rewrite lookup_seq_lt by done. cbn. rewrite Hs, bool_decide_eq_true_2 by (rewrite Ho; apply elem_of_seq; lia).
    destruct (lookup_lt_is_Some_2 vals i) as [v Ev]; [lia|]. by rewrite Ev.
  - rewrite lookup_seq_ge by lia. symmetry. apply lookup_ge_None. lia.
Qed.

(** ** An agent as a tool *)

Section agent_tool.
Context {W T : Type}.
(** The decoded prompt of the arguments, the run of the inner agent on the world, and its
    output as the value of the tool. *)
Context (unmarshal_prompt : string → res string) (run_inner : string → W → W * (RunResult T + RunError)).
Context (output_value : T → ToolValue).

Definition AgentTool_handler (name : string) : ToolHandler W := λ _ _ argsJSON w,
  match (if String.eqb argsJSON "" || String.eqb argsJSON "{}" then Ok "" else unmarshal_prompt argsJSON) with
  | Err e => (w, HErr (EWrap "failed to unmarshal tool arguments: " e ""))
  | Ok prompt =>
    match run_inner prompt w with
    | (w, inl r) => (w, HOk (output_value (Output r)))
    | (w, inr (RunFailed e)) => (w, HErr (EWrap ("inner agent " +:+ go_quote name +:+ " failed: ") e ""))
    | (w, inr e) => (w, HErr (ENew ("inner agent " +:+ go_quote name +:+ " failed: " +:+ RunError_Error e)))
    end
  end.
End agent_tool.

(** ** Examples *)

Module Chains.
Definition setup : AgentSetup nat :=
  MkAgentSetup ["be brief"] [] None [] None (MkUsageLimits (Some 5) None None None None) [].
Definition runs (a : Agent nat string) (rid : string) : AgentRunFn nat string :=
  agent_run Demo.marshal (λ _, true) Scripts.no_json Scripts.parse Some "string" Demo.no_cancel a setup 6 "" rid (At 1).
(** Two agents play one script: the first calls two tools and answers, then the second. *)
Definition script : list ModelResponse :=
  [Scripts.two_calls; Scripts.response [TextPart "draft"]; Scripts.two_calls; Scripts.response [TextPart "final"]].
Definition writer : Agent nat string :=
  Scripts.agent [Scripts.tool "a" (HOk (VString "ok")); Scripts.tool "b" (HOk (VString "ok"))]
    EndStrategyEarly [] 0 (Scripts.scripted script) Scripts.text_schema.
Definition steps : list (handoffStep nat string) :=
  [MkHandoffStep "draft" (runs writer "run-1") id None;
   MkHandoffStep "review" (runs writer "run-2") (λ o, "review " +:+ o)
     (Some (ChainFilters [StripSystemPrompts; KeepLastN 3]))].

(** An agent whose tool is another agent; both play the same script. *)
Definition nested : list ModelResponse :=
  [Scripts.response [CallPart (Demo.call "ask" "1")]; Scripts.two_calls; Scripts.response [TextPart "inner"];
   Scripts.response [TextPart "outer"]].
Definition inner : Agent nat string :=
  Scripts.agent [Scripts.tool "a" (HOk (VString "ok")); Scripts.tool "b" (HOk (VString "ok"))]
    EndStrategyEarly [] 0 (Scripts.scripted nested) Scripts.text_schema.
Definition run_inner (prompt : string) (w : nat) : nat * (RunResult string + RunError) :=
  let '(s, out) := run (runs inner "inner" empty_config prompt) (Scripts.start <| world := w |>) in
  (world s, match out with Some out => out | None => inr (RunFailed (ENew "out of fuel")) end).
Definition outer : Agent nat string :=
  Scripts.agent [MkTool (Demo.def "ask" true) (AgentTool_handler Ok run_inner VString "ask") None false None None 0]
    EndStrategyEarly [] 0 (Scripts.scripted nested) Scripts.text_schema.
End Chains.

Definition Chains_run := agent_run Demo.marshal (λ _, true) Scripts.no_json Scripts.parse Some "string" Demo.no_cancel.
Lemma Chains_limited rid : ∃ a su fuel parent rid' now,
  Chains.runs Chains.writer rid = Chains_run a su fuel parent rid' now ∧
  RequestLimit (agent_usageLimits su) = Some 5 ∧ Z.max 0 5 < Z.of_nat fuel.
Proof. by exists Chains.writer, Chains.setup, 6%nat, "", rid, (At 1). Qed.
Lemma Chains_pairing rid : ∃ a su fuel parent rid' now,
  Chains.runs Chains.writer rid = Chains_run a su fuel parent rid' now ∧
  processes_all a ∧ runConditions a = [] ∧ autoContext a = None.
Proof. exists Chains.writer, Chains.setup, 6%nat, "", rid, (At 1). split_and!; [done|by right|done|done]. Qed.

(** A handoff with a stripped and shortened history. *)
Lemma handoff_correct_witness :
  ∃ s' r, run (Handoff_Run Chains.steps "go") Scripts.start = (s', Some (inl r)) ∧
    Output r = "final" ∧ paired (res_Messages r) ∧ Requests (res_Usage r) ≤ 10.
Proof.
  destruct (handoff_correct Demo.marshal (λ _, true) Scripts.no_json Scripts.parse Some "string" Demo.no_cancel
    Chains.steps [5; 5] "go" Scripts.start) as (s' & out & E & Ho); [done| |].
  - apply Forall2_cons. split; [split; [apply (Chains_limited "run-1")|exact I]|].
    apply Forall2_cons. split; [|apply Forall2_nil_2]. split; [apply (Chains_limited "run-2")|].
    apply ChainFilters_ok. constructor; [apply StripSystemPrompts_ok|]. constructor; [by apply KeepLastN_ok|constructor].
  - assert (Hf : match (run (Handoff_Run Chains.steps "go") Scripts.start).2 with
        | Some (inl r) => Output r = "final" | _ => False end) by (vm_compute; reflexivity).
    rewrite E in Hf. destruct out as [r|e]; [|exact (False_ind _ Hf)]. exists s', r.
    split; [exact E|]. split; [exact Hf|]. destruct Ho as [Hb Hp]. split; [|exact Hb]. apply Hp.
    apply Forall_cons. split; [split; [apply (Chains_pairing "run-1")|exact I]|].
    apply Forall_cons. split; [|apply Forall_nil_2]. split; [apply (Chains_pairing "run-2")|].
    apply ChainFilters_ok. constructor; [apply StripSystemPrompts_ok|]. constructor; [by apply KeepLastN_ok|constructor].
Defined.

(** The requests of an agent that runs as a tool are not counted in the usage of the
    agent that calls it: four requests were made, two are reported. *)
Lemma inner_usage_not_counted :
  match run (Chains.runs Chains.outer "run-1" empty_config "go") Scripts.start with
  | (s, Some (inl r)) => world s = 4%nat ∧ Output r = "outer" ∧ Requests (res_Usage r) = 2
  | _ => False
  end.
Proof. vm_compute. done. Qed.
