(* ===== verification/LongMemory.v ===== *)
(** * Long-term memory

    src/ext/memory: the document stores in memory (memstore.go) and over SQLite
    (sqlitestore.go), the knowledge base over a store (knowledge.go), the tool for agents
    (tool.go) and the message buffer (memory.go).

    The values are those of type [any] (Prelude), with their passage through encoding/json
    (Json): [toMap] keeps a [map[string]any] as it is, in the store as in the caller's hands,
    who is taken not to change it any more, and decodes the JSON of any other object; the
    SQLite store encodes the map once more and decodes it on reading.  A nil map is [None].
    The order in which Go ranges over a map, and the database over rows, is an
    argument.  Every operation of the SQLite store is one statement, which the database
    may refuse.  [stores_refine_map] says that both stores implement a map from namespace
    and key to documents, for namespaces and keys without colons; what happens with
    colons is [namespace_collision], where their values differ [values_differ]. *)

From S2P Require Import Prelude Errors Usage Messages AgentTypes AutoContext AgentTools AgentLoop ModelUtil Json TimeText.

(** ** Documents *)

Record Document := MkDocument {
  doc_Namespace : list string; doc_Key : string; doc_Value : option AnyMap;
  doc_CreatedAt : Time; doc_UpdatedAt : Time;
}.
#[export] Instance Document_eta : RecordEta Document := λ d,
  MkDocument (doc_Namespace d) (doc_Key d) (doc_Value d) (doc_CreatedAt d) (doc_UpdatedAt d).

(** [json.Marshal] and [json.Unmarshal] of a [map[string]any], which may be nil. *)
Definition marshal_value (v : option AnyMap) : res json :=
  match v with Some m => marshal m | None => Ok JNull end.
Definition unmarshal_value (data : json) : res (option AnyMap) :=
  match data with JNull => Ok None | _ => Some <$> unmarshal data end.

Definition toMap (value : any) : res (option AnyMap) :=
  match value with
  | AMap fields => Ok (Some (list_to_map fields))
  | _ =>
    data ← wrap_error "failed to marshal value: " (marshal value);
    match unmarshal_value data with
    | Ok m => Ok m
    | Err _ => Ok (Some {[ "value" := value ]})
    end
  end.

Definition copyDocument (d : Document) : Document := d <| doc_Value ::= Some ∘ default ∅ |>.

Definition colon : string := ":".
Definition colon_char : Ascii.ascii := Ascii.ascii_of_nat 58.
Definition percent : Ascii.ascii := Ascii.ascii_of_nat 37.
Definition underscore : Ascii.ascii := Ascii.ascii_of_nat 95.
Definition makeNamespacePrefix (namespace : list string) : string :=
  match namespace with [] => colon | _ => String.concat colon namespace +:+ colon end.
Definition makeCompositeKey (namespace : list string) (key : string) : string :=
  makeNamespacePrefix namespace +:+ key.

(** ** The store in memory *)

Section stores.
(** The text [json.Marshal] writes. *)
Context (json_text : json → string).

Abbreviation MemoryStore := (gmap string Document).

Definition mem_Put (namespace : list string) (key : string) (value : any) (now : Time) (s : MemoryStore)
    : MemoryStore * res unit :=
  match wrap_error "memory store put: " (toMap value) with
  | Err e => (s, Err e)
  | Ok valueMap =>
    let compositeKey := makeCompositeKey namespace key in
    (match s !! compositeKey with
     | Some existing => <[compositeKey := existing <| doc_Value := valueMap |> <| doc_UpdatedAt := now |>]> s
     | None => <[compositeKey := MkDocument namespace key valueMap now now]> s
     end, Ok tt)
  end.
Definition mem_Get (namespace : list string) (key : string) (s : MemoryStore) : option Document :=
  copyDocument <$> s !! makeCompositeKey namespace key.
Definition mem_Delete (namespace : list string) (key : string) (s : MemoryStore) : MemoryStore :=
  delete (makeCompositeKey namespace key) s.

Definition in_namespace (namespace : list string) (d : Document) : bool :=
  String.eqb (String.concat colon (doc_Namespace d)) (String.concat colon namespace).
(** [order]: the documents as the map yields them. *)
Definition mem_List (namespace : list string) (order : list Document) : list Document :=
  copyDocument <$> filter (λ d, in_namespace namespace d = true) order.
Definition mem_matches (namespace : list string) (query : string) (d : Document) : bool :=
  in_namespace namespace d &&
  match marshal_value (doc_Value d) with
  | Ok data => Contains (ToLower (json_text data)) (ToLower query)
  | Err _ => false
  end.
Definition mem_Search (namespace : list string) (query : string) (limit : Z) (order : list Document) : list Document :=
  let found := copyDocument <$> filter (λ d, mem_matches namespace query d = true) order in
  if 0 <? limit then take (Z.to_nat limit) found else found.

(** ** The store over SQLite *)

Record DocRow := MkDocRow { drow_value : json; drow_created_at : string; drow_updated_at : string }.
Abbreviation Documents := (gmap (string * string) DocRow).

Definition encodeNamespace (namespace : list string) : string := String.concat colon namespace.
(** [strings.Split(s, ":")]. *)
Fixpoint split_colon (s : string) : list string :=
  match s with
  | EmptyString => [""]
  | String c s =>
    if Ascii.eqb c colon_char then "" :: split_colon s
    else match split_colon s with part :: parts => String c part :: parts | [] => [String c ""] end
  end.

(** The text [Put] stores for a value. *)
Definition valueJSON (value : any) : res json :=
  valueMap ← wrap_error "sqlite store put: " (toMap value);
  wrap_error "marshaling value: " (marshal_value valueMap).
Definition sdoc_Put (namespace : list string) (key : string) (value : any) (now : Time) (fault : option error)
    (db : Documents) : Documents * res unit :=
  match valueJSON value with
  | Err e => (db, Err e)
  | Ok v =>
    match fault with
    | Some e => (db, Err (EWrap "inserting document: " e ""))
    | None =>
      let t := FormatRFC3339Nano now in
      (partial_alter (λ r, Some match r with
         | Some row => MkDocRow v (drow_created_at row) t | None => MkDocRow v t t end)
         (encodeNamespace namespace, key) db, Ok tt)
    end
  end.
Definition parseDocument (ns key : string) (row : DocRow) : res Document :=
  value ← wrap_error "unmarshaling document value: " (unmarshal_value (drow_value row));
  created ← match parse_rfc3339 (drow_created_at row) with
    | Some t => Ok t | None => Err (EWrap "parsing created timestamp: " (ENew "parsing time") "") end;
  updated ← match parse_rfc3339 (drow_updated_at row) with
    | Some t => Ok t | None => Err (EWrap "parsing updated timestamp: " (ENew "parsing time") "") end;
  Ok (MkDocument (if String.eqb ns "" then [] else split_colon ns) key value created updated).
Definition sdoc_Get (namespace : list string) (key : string) (fault : option error) (db : Documents)
    : res (option Document) :=
  match fault with
  | Some e => Err (EWrap "scanning document: " e "")
  | None =>
    match db !! (encodeNamespace namespace, key) with
    | None => Ok None
    | Some row => Some <$> parseDocument (encodeNamespace namespace) key row
    end
  end.
Fixpoint scanDocuments (rows : list (string * string * DocRow)) : res (list Document) :=
  match rows with
  | [] => Ok []
  | (ns, key, row) :: rows => d ← parseDocument ns key row; ds ← scanDocuments rows; Ok (d :: ds)
  end.
Definition sdoc_List (namespace : list string) (fault : option error) (order : list (string * string * DocRow))
    : res (list Document) :=
  match fault with
  | Some e => Err (EWrap "listing documents: " e "")
  | None => scanDocuments (filter (λ r, r.1.1 = encodeNamespace namespace) order)
  end.
Definition sdoc_Delete (namespace : list string) (key : string) (fault : option error) (db : Documents)
    : Documents * res unit :=
  match fault with
  | Some e => (db, Err (EWrap "deleting document: " e ""))
  | None => (delete (encodeNamespace namespace, key) db, Ok tt)
  end.

(** [LIKE]: [%] is any text, [_] any character, letters match in either (ASCII) case.
    Every round takes a character of the pattern or of the text. *)
Definition after_char (l : list Ascii.ascii) : list Ascii.ascii := drop (default 1%nat (rune_len l)) l.
Fixpoint like (fuel : nat) (p t : list Ascii.ascii) : bool :=
  match fuel with
  | O => false
  | S fuel =>
    match p with
    | [] => match t with [] => true | _ => false end
    | c :: p' =>
      if Ascii.eqb c percent then like fuel p' t || match t with [] => false | _ => like fuel p (after_char t) end
      else if Ascii.eqb c underscore then match t with [] => false | _ => like fuel p' (after_char t) end
      else match t with [] => false | d :: t' => Ascii.eqb (lower_byte c) (lower_byte d) && like fuel p' t' end
    end
  end.
Definition LIKE (text pattern : string) : bool :=
  like (S (String.length pattern + String.length text)) (String.list_ascii_of_string pattern) (String.list_ascii_of_string text).
(** SQLite's [LOWER]: ASCII letters only. *)
Definition sql_lower (s : string) : string := String.string_of_list_ascii (lower_byte <$> String.list_ascii_of_string s).
Definition sdoc_matches (ns query : string) (r : string * string * DocRow) : bool :=
  String.eqb r.1.1 ns && LIKE (sql_lower (json_text (drow_value r.2))) ("%" +:+ ToLower query +:+ "%").
Definition sdoc_Search (namespace : list string) (query : string) (limit : Z) (fault : option error)
    (order : list (string * string * DocRow)) : res (list Document) :=
  let limit := if limit <=? 0 then 100 else limit in
  match fault with
  | Some e => Err (EWrap "searching documents: " e "")
  | None => scanDocuments (take (Z.to_nat limit)
      (filter (λ r, sdoc_matches (encodeNamespace namespace) query r = true) order))
  end.
End stores.

(** ** Clients of a store *)

(** The operations of a [Store] on a state, each with its clock readings and orders. *)
Class DocStore (S : Type) := {
  ds_Put : list string → string → any → S → S * res unit;
  ds_Get : list string → string → S → S * res (option Document);
  ds_Search : list string → string → Z → S → S * res (list Document);
  ds_Delete : list string → string → S → S * res unit;
}.

Section clients.
Context {S : Type} {DS : DocStore S} (json_text : json → string) (namespace : list string).

(** [storeKnowledgeBase]; [nanos] is [time.Now().UnixNano()]. *)
Definition kb_Retrieve (query : string) (s : S) : S * res string :=
  match ds_Search namespace query 10 s with
  | (s, Err e) => (s, Err (EWrap "knowledge base retrieve: " e ""))
  | (s, Ok docs) =>
    (s, Ok (String.concat (byte_string [10%nat])
      (omap (λ d, match marshal_value (doc_Value d) with
                  | Ok data => Some ("[" +:+ doc_Key d +:+ "] " +:+ json_text data)
                  | Err _ => None
                  end) docs)))
  end.
Definition kb_Store (nanos : Z) (content : string) (s : S) : S * res unit :=
  ds_Put namespace ("kb-" +:+ itoa nanos) (AMap [("content", AString content)]) s.

(** The arguments of the memory tool. *)
Record memoryToolParams := MkMemoryToolParams {
  mt_Operation : string; mt_Key : string; mt_Value : string; mt_Query : string; mt_Limit : Z;
}.
Definition unmarshal_memoryToolParams (j : json) : res memoryToolParams :=
  obj ← fields j; op ← field obj "operation"; key ← field obj "key"; value ← field obj "value";
  query ← field obj "query"; limit ← field obj "limit";
  Ok (MkMemoryToolParams op key value query limit).
Inductive MemoryToolResult :=
| MStatus (status key : string)
| MDocument (d : Document)
| MResults (docs : list Document).
(** [parse]: the JSON value a text denotes. *)
Definition memory_tool (parse : string → res json) (argsJSON : string) (s : S) : S * res MemoryToolResult :=
  match wrap_error "failed to parse memory tool arguments: " (j ← parse argsJSON; unmarshal_memoryToolParams j) with
  | Err e => (s, Err e)
  | Ok params =>
    let key := mt_Key params in
    let required what (k : S * res MemoryToolResult) : S * res MemoryToolResult :=
      if String.eqb key "" then (s, Err (ENew ("key is required for " +:+ what +:+ " operation"))) else k in
    if String.eqb (mt_Operation params) "save" then
      required "save"
        (if String.eqb (mt_Value params) "" then (s, Err (ENew "value is required for save operation"))
         else
           let value := match parse (mt_Value params) with
                        | Ok v => unmarshal_any v | Err _ => AMap [("content", AString (mt_Value params))] end in
           match ds_Put namespace key value s with
           | (s, Ok _) => (s, Ok (MStatus "saved" key)) | (s, Err e) => (s, Err e) end)
    else if String.eqb (mt_Operation params) "get" then
      required "get"
        match ds_Get namespace key s with
        | (s, Err e) => (s, Err e)
        | (s, Ok None) => (s, Ok (MStatus "not_found" key))
        | (s, Ok (Some d)) => (s, Ok (MDocument d))
        end
    else if String.eqb (mt_Operation params) "search" then
      if String.eqb (mt_Query params) "" then (s, Err (ENew "query is required for search operation"))
      else
        match ds_Search namespace (mt_Query params) (if mt_Limit params <=? 0 then 10 else mt_Limit params) s with
        | (s, Ok docs) => (s, Ok (MResults docs)) | (s, Err e) => (s, Err e) end
    else if String.eqb (mt_Operation params) "delete" then
      required "delete"
        match ds_Delete namespace key s with
        | (s, Ok _) => (s, Ok (MStatus "deleted" key)) | (s, Err e) => (s, Err e) end
    else (s, Err (ENew ("unknown operation " +:+ go_quote (mt_Operation params) +:+
                        ", must be one of: save, get, search, delete")))
  end.
End clients.

(** ** The message buffer *)

Record BufferMemory := MkBufferMemory { bm_messages : list ModelMessage; bm_maxSize : Z }.
Definition NewBuffer (maxSize : option Z) : BufferMemory := MkBufferMemory [] (default 100 maxSize).
(** [None]: a slice out of range, for a negative size. *)
Definition buffer_Add (msgs : list ModelMessage) (b : BufferMemory) : option BufferMemory :=
  let all := bm_messages b ++ msgs in
  let len := Z.of_nat (length all) in
  if len >? bm_maxSize b then
    if bm_maxSize b <? 0 then None else Some (MkBufferMemory (drop (Z.to_nat (len - bm_maxSize b)) all) (bm_maxSize b))
  else Some (MkBufferMemory all (bm_maxSize b)).
Definition buffer_Clear (b : BufferMemory) : BufferMemory := MkBufferMemory [] (bm_maxSize b).
Definition buffer_Get (b : BufferMemory) : list ModelMessage := bm_messages b.
Definition buffer_Len (b : BufferMemory) : Z := Z.of_nat (length (bm_messages b)).
