(* ===== verification/LongMemorySafety.v ===== *)
(** * What the document stores promise

    Both stores of LongMemory refine a map from namespace and key to documents
    ([stores_refine_map]); a search of the SQLite store finds the documents whose text
    contains the query, when the query has no wildcards ([like_substring]); the buffer
    keeps the last messages ([buffer_keeps_last]). *)

From S2P Require Import Prelude Errors Usage Messages AgentTypes AutoContext AgentTools AgentLoop ModelUtil Json TimeText LongMemory.

Local Abbreviation bytes := String.list_ascii_of_string.

(** ** Names without colons *)

Definition colon_free (s : string) : Prop := colon_char ∉ bytes s.
(** An empty namespace and one empty part are the same text. *)
Definition namespace_ok (ns : list string) : Prop := ns ≠ [""] ∧ Forall colon_free ns.
Definition name_ok (ns : list string) (key : string) : Prop := namespace_ok ns ∧ colon_free key.

Lemma split_colon_one s : colon_free s → split_colon s = [s].
Proof.
  induction s as [|c s IH]; intros Hs; [done|]. unfold colon_free in *. cbn [String.list_ascii_of_string] in Hs.
  apply not_elem_of_cons in Hs as [Hc Hs]. cbn. destruct (Ascii.eqb_spec c colon_char) as [->|_]; [done|]. by rewrite IH.
Qed.
Lemma split_colon_cons a s : colon_free a → split_colon (a +:+ colon +:+ s) = a :: split_colon s.
Proof.
  induction a as [|c a IH]; intros Ha; [done|]. unfold colon_free in *. cbn [String.list_ascii_of_string] in Ha.
  apply not_elem_of_cons in Ha as [Hc Ha]. rewrite append_cons. cbn [split_colon].
  destruct (Ascii.eqb_spec c colon_char) as [->|_]; [done|]. by rewrite IH.
Qed.
Lemma split_concat ns : ns ≠ [] → Forall colon_free ns → split_colon (String.concat colon ns) = ns.
Proof.
  intros Hne Hf. induction Hf as [|p ns Hp _ IH]; [done|]. destruct ns as [|q ns]; [by apply split_colon_one|].
  change (String.concat colon (p :: q :: ns)) with (p +:+ colon +:+ String.concat colon (q :: ns)).
  rewrite split_colon_cons by done. by rewrite IH.
Qed.
Lemma split_composite ns key : Forall colon_free ns → colon_free key →
  split_colon (makeCompositeKey ns key) = match ns with [] => [""] | _ => ns end ++ [key].
Proof.
  intros Hns Hk. unfold makeCompositeKey, makeNamespacePrefix. destruct ns as [|p ns].
  { change (colon +:+ key) with ("" +:+ colon +:+ key). rewrite split_colon_cons by (unfold colon_free; cbn; set_solver).
    by rewrite split_colon_one. }
  rewrite string_app_assoc. revert p Hns. induction ns as [|q ns IH]; intros p [Hp Hns]%Forall_cons.
  - cbn [String.concat]. rewrite split_colon_cons by done. by rewrite split_colon_one.
  - change (String.concat colon (p :: q :: ns)) with (p +:+ colon +:+ String.concat colon (q :: ns)).
    rewrite !string_app_assoc, split_colon_cons by done. cbn [app]. f_equal. by apply IH.
Qed.

(** The text of a namespace, and the composite key, determine it. *)
Lemma encodeNamespace_inj ns ns' : namespace_ok ns → namespace_ok ns' → encodeNamespace ns = encodeNamespace ns' → ns = ns'.
Proof.
  intros [H1 F1] [H2 F2] E. unfold encodeNamespace in E.
  destruct (decide (ns = [])) as [->|N1], (decide (ns' = [])) as [->|N2]; [done|..].
  - apply (f_equal split_colon) in E. rewrite (split_concat ns') in E by done. by cbn in E; subst.
  - apply (f_equal split_colon) in E. rewrite (split_concat ns) in E by done. by cbn in E; subst.
  - apply (f_equal split_colon) in E. by rewrite !split_concat in E.
Qed.
Lemma composite_inj ns key ns' key' : name_ok ns key → name_ok ns' key' →
  makeCompositeKey ns key = makeCompositeKey ns' key' → ns = ns' ∧ key = key'.
Proof.
  intros [[H1 F1] K1] [[H2 F2] K2] E%(f_equal split_colon). rewrite !split_composite in E by done.
  apply app_inj_tail in E as [E ->]. split; [|done]. destruct ns, ns'; try done.
Qed.

(** ** What the stores keep of a value *)

(** In memory the map that [toMap] makes of it; in the table its JSON form. *)
Definition mem_keep (value : any) : res (option AnyMap) := toMap value.
Definition sql_keep (value : any) : res (option AnyMap) := data ← valueJSON value; unmarshal_value data.

(** What [Put] stored can be read. *)
Lemma valueJSON_reads value data : valueJSON value = Ok data → ∃ v, unmarshal_value data = Ok v ∧ sql_keep value = Ok v.
Proof.
  intros Hd. unfold sql_keep. rewrite Hd. enough (∃ v, unmarshal_value data = Ok v) as [v Hv] by (exists v; done).
  unfold valueJSON in Hd. apply res_bind_ok in Hd as ([m|] & _ & Hm); [|cbn in Hm; injection Hm as <-; by exists None].
  destruct (marshal m) as [j|] eqn:Ej; cbn -[marshal] in Hm; rewrite Ej in Hm; [|done]. injection Hm as <-.
  destruct (map_unmarshals m j Ej) as [m' Hm']. exists (Some m').
  destruct j; cbn [unmarshal_value]; rewrite ?Hm'; try done; by apply marshal_map_object in Ej.
Qed.
Lemma sql_keep_fails value e : valueJSON value = Err e → sql_keep value = Err e.
Proof. unfold sql_keep. by intros ->. Qed.

(** A map of values that survive JSON is kept as it is by both. *)
Lemma keeps_agree fields : any_ok (AMap fields) = true →
  mem_keep (AMap fields) = Ok (Some (list_to_map fields)) ∧ sql_keep (AMap fields) = Ok (Some (list_to_map fields)).
Proof.
  intros Hf. split; [done|]. unfold sql_keep, valueJSON. cbn [toMap wrap_error mbind res_bind marshal_value].
  assert (json_ok (list_to_map fields : AnyMap) = true) as Hok.
  { cbn in Hf. apply andb_prop in Hf as [_ Hf]. apply forallb_forall. intros [k v] Hkv%list_elem_of_In%elem_of_map_to_list.
    apply elem_of_list_to_map_2, list_elem_of_In in Hkv. exact (proj1 (forallb_forall _ _) Hf _ Hkv). }
  destruct (json_roundtrip _ Hok) as (j & Hj & Hu). rewrite Hj. cbn [wrap_error mbind res_bind].
  destruct j; cbn [unmarshal_value]; rewrite ?Hu; try done; by apply marshal_map_object in Hj.
Qed.

(** ** The map *)

Definition Entry : Type := option AnyMap * Time * Time.
Abbreviation DocMap := (gmap (list string * string) Entry).
Inductive DocOp :=
| DocPut (ns : list string) (key : string) (value : any) (now : Time)
| DocDelete (ns : list string) (key : string).
(** A value that cannot be kept is refused. *)
Definition spec_op (keep : any → res (option AnyMap)) (op : DocOp) (m : DocMap) : DocMap :=
  match op with
  | DocPut ns key value now =>
    match keep value with
    | Ok v => <[(ns, key) := (v, match m !! (ns, key) with Some (_, created, _) => created | None => now end, now)]> m
    | Err _ => m
    end
  | DocDelete ns key => delete (ns, key) m
  end.
Definition mem_op (op : DocOp) (s : gmap string Document) : gmap string Document :=
  match op with
  | DocPut ns key value now => (mem_Put ns key value now s).1
  | DocDelete ns key => mem_Delete ns key s
  end.
Definition sdoc_op (op : DocOp) (db : gmap (string * string) DocRow) : gmap (string * string) DocRow :=
  match op with
  | DocPut ns key value now => (sdoc_Put ns key value now None db).1
  | DocDelete ns key => (sdoc_Delete ns key None db).1
  end.
Definition doc_op_ok (op : DocOp) : Prop :=
  match op with
  | DocPut ns key _ now => name_ok ns key ∧ time_encodes now = true
  | DocDelete ns key => name_ok ns key
  end.
Definition run_docs {A} (f : DocOp → A → A) (ops : list DocOp) (s : A) : A := foldl (λ s op, f op s) s ops.

Definition entry_doc (ns : list string) (key : string) (x : Entry) : Document :=
  MkDocument ns key x.1.1 x.1.2 x.2.
(** A row is read as an entry. *)
Definition row_holds (x : Entry) (row : DocRow) : Prop :=
  unmarshal_value (drow_value row) = Ok x.1.1 ∧ drow_created_at row = FormatRFC3339Nano x.1.2 ∧
  drow_updated_at row = FormatRFC3339Nano x.2.

(** Every entry has a proper name and times that can be written. *)
Definition entries_ok (m : DocMap) : Prop :=
  ∀ ns key x, m !! (ns, key) = Some x → name_ok ns key ∧ time_encodes x.1.2 = true ∧ time_encodes x.2 = true.
Lemma spec_entries_ok keep op m : doc_op_ok op → entries_ok m → entries_ok (spec_op keep op m).
Proof.
  intros Hop Hm ns key x. destruct op as [ns' key' v now|ns' key']; cbn.
  - destruct (keep v); [|apply Hm]. destruct Hop as [Hn Ht].
    intros [[[= <- <-] <-]|[_ ?]]%lookup_insert_Some; [|by apply Hm]. split_and!; [done| |done]. cbn.
    destruct (m !! (ns', key')) as [[[v0 c] u]|] eqn:E; [|done]. by destruct (Hm _ _ _ E) as (_ & ? & _).
  - intros [_ ?]%lookup_delete_Some. by apply Hm.
Qed.

(** *** The store in memory holds a map *)

Record MemHolds (m : DocMap) (s : gmap string Document) : Prop := MkMemHolds {
  hm_names : entries_ok m;
  hm_docs : ∀ k d, s !! k = Some d ↔ ∃ ns key x, m !! (ns, key) = Some x ∧ k = makeCompositeKey ns key ∧ d = entry_doc ns key x;
}.
Lemma mem_lookup m s ns key : MemHolds m s → name_ok ns key → s !! makeCompositeKey ns key = entry_doc ns key <$> m !! (ns, key).
Proof.
  intros H Hn. destruct (m !! (ns, key)) as [x|] eqn:E; cbn.
  - apply (hm_docs _ _ H). by exists ns, key, x.
  - destruct (s !! makeCompositeKey ns key) as [d|] eqn:Es; [|done].
    apply (hm_docs _ _ H) in Es as (ns' & key' & x & Em & Ek & _).
    apply composite_inj in Ek as [<- <-]; [congruence|done|by eapply (hm_names _ _ H)].
Qed.
Lemma mem_insert m s ns key x : MemHolds m s → name_ok ns key → entries_ok (<[(ns, key) := x]> m) →
  MemHolds (<[(ns, key) := x]> m) (<[makeCompositeKey ns key := entry_doc ns key x]> s).
Proof.
  intros H Hn Hok. split; [done|]. intros k d. rewrite lookup_insert_Some. split.
  - intros [[<- <-]|[Hk (ns' & key' & x' & Em & -> & ->)%(hm_docs _ _ H)]].
    + exists ns, key, x. by rewrite lookup_insert_eq.
    + exists ns', key', x'. rewrite lookup_insert_ne by congruence. done.
  - intros (ns' & key' & x' & Em & -> & ->). rewrite lookup_insert_Some in Em. destruct Em as [[[= <- <-] <-]|[Hne Em]]; [by left|].
    right. split; [|apply (hm_docs _ _ H); by exists ns', key', x'].
    intros Ek. apply composite_inj in Ek as [-> ->]; [done..|]. by eapply (hm_names _ _ H).
Qed.
Lemma mem_delete m s ns key : MemHolds m s → name_ok ns key →
  MemHolds (delete (ns, key) m) (delete (makeCompositeKey ns key) s).
Proof.
  intros H Hn. split; [intros ns' key' x' [_ ?]%lookup_delete_Some; by apply (hm_names _ _ H)|].
  intros k d. rewrite lookup_delete_Some. split.
  - intros [Hk (ns' & key' & x' & Em & -> & ->)%(hm_docs _ _ H)]. exists ns', key', x'.
    rewrite lookup_delete_ne by congruence. done.
  - intros (ns' & key' & x' & Em & -> & ->). apply lookup_delete_Some in Em as [Hne Em].
    split; [|apply (hm_docs _ _ H); by exists ns', key', x'].
    intros Ek. apply composite_inj in Ek as [-> ->]; [done..|]. by eapply (hm_names _ _ H).
Qed.
Lemma mem_step m s op : MemHolds m s → doc_op_ok op → MemHolds (spec_op mem_keep op m) (mem_op op s).
Proof.
  intros H Hop. pose proof (spec_entries_ok mem_keep op m Hop (hm_names _ _ H)) as Hok.
  destruct op as [ns key v now|ns key]; cbn in Hok |- *; [|by apply mem_delete]. destruct Hop as [Hn _].
  unfold mem_Put. unfold mem_keep in *. destruct (toMap v) as [vm|]; [|done]. cbn.
  rewrite (mem_lookup m) by done. destruct (m !! (ns, key)) as [[[v0 c] u]|]; cbn; by apply (mem_insert _ _ _ _ (vm, _, now)).
Qed.

(** *** The table holds a map *)

Record SqlHolds (m : DocMap) (db : gmap (string * string) DocRow) : Prop := MkSqlHolds {
  hq_names : entries_ok m;
  hq_row : ∀ ns key x, m !! (ns, key) = Some x → ∃ row, db !! (encodeNamespace ns, key) = Some row ∧ row_holds x row;
  hq_entry : ∀ n key row, db !! (n, key) = Some row → ∃ ns x, m !! (ns, key) = Some x ∧ n = encodeNamespace ns;
}.
Lemma sql_lookup m db ns key : SqlHolds m db → name_ok ns key →
  match m !! (ns, key) with
  | Some x => ∃ row, db !! (encodeNamespace ns, key) = Some row ∧ row_holds x row
  | None => db !! (encodeNamespace ns, key) = None
  end.
Proof.
  intros H Hn. destruct (m !! (ns, key)) as [x|] eqn:E; [by apply (hq_row _ _ H)|].
  destruct (db !! (encodeNamespace ns, key)) as [row|] eqn:Es; [|done].
  apply (hq_entry _ _ H) in Es as (ns' & x & Em & Ek).
  apply encodeNamespace_inj in Ek as <-; [congruence|apply Hn|by eapply (hq_names _ _ H)].
Qed.
Lemma sql_insert m db ns key x row : SqlHolds m db → name_ok ns key → entries_ok (<[(ns, key) := x]> m) → row_holds x row →
  SqlHolds (<[(ns, key) := x]> m) (<[(encodeNamespace ns, key) := row]> db).
Proof.
  intros H Hn Hok Hrow. split; [done|..].
  - intros ns' key' x'. rewrite lookup_insert_Some. intros [[[= <- <-] <-]|[Hne E]].
    + exists row. by rewrite lookup_insert_eq.
    + destruct (hq_row _ _ H _ _ _ E) as (row' & Hr' & Hx'). exists row'. split; [|done].
      rewrite lookup_insert_ne; [done|]. intros [= Ek <-].
      apply encodeNamespace_inj in Ek as <-; [done|apply Hn|by eapply (hq_names _ _ H)].
  - intros n k r. rewrite lookup_insert_Some. intros [[[= <- <-] <-]|[Hne E]].
    + exists ns, x. by rewrite lookup_insert_eq.
    + destruct (hq_entry _ _ H _ _ _ E) as (ns' & x' & Em & ->).
      destruct (decide ((ns', k) = (ns, key))) as [[= -> ->]|Hd]; [done|].
      exists ns', x'. by rewrite lookup_insert_ne.
Qed.
Lemma sql_delete m db ns key : SqlHolds m db → name_ok ns key →
  SqlHolds (delete (ns, key) m) (delete (encodeNamespace ns, key) db).
Proof.
  intros H Hn. split.
  - intros ns' key' x' [_ ?]%lookup_delete_Some. by apply (hq_names _ _ H).
  - intros ns' key' x' [Hne E]%lookup_delete_Some. destruct (hq_row _ _ H _ _ _ E) as (row' & Hr' & Hx').
    exists row'. split; [|done]. rewrite lookup_delete_ne; [done|]. intros [= Ek <-].
    apply encodeNamespace_inj in Ek as <-; [done|apply Hn|by eapply (hq_names _ _ H)].
  - intros n k r [Hne E]%lookup_delete_Some. destruct (hq_entry _ _ H _ _ _ E) as (ns' & x' & Em & ->).
    exists ns', x'. split; [|done]. rewrite lookup_delete_ne; [done|]. by intros [= <- <-].
Qed.
Lemma sql_step m db op : SqlHolds m db → doc_op_ok op → SqlHolds (spec_op sql_keep op m) (sdoc_op op db).
Proof.
  intros H Hop. pose proof (spec_entries_ok sql_keep op m Hop (hq_names _ _ H)) as Hok.
  destruct op as [ns key v now|ns key]; cbn in Hok |- *; [|by apply sql_delete]. destruct Hop as [Hn _].
  unfold sdoc_Put. destruct (valueJSON v) as [data|e] eqn:Ed; [|by rewrite (sql_keep_fails v e Ed)].
  destruct (valueJSON_reads v data Ed) as (vm & Hu & Hk). rewrite Hk in Hok |- *. cbn.
  pose proof (sql_lookup m db ns key H Hn) as Hl. set (t := FormatRFC3339Nano now).
  assert (∃ row, partial_alter (λ r, Some match r with
      | Some row => MkDocRow data (drow_created_at row) t | None => MkDocRow data t t end) (encodeNamespace ns, key) db =
    <[(encodeNamespace ns, key) := row]> db ∧
    row_holds (vm, match m !! (ns, key) with Some (_, c, _) => c | None => now end, now) row) as (row & -> & Hrow);
    [|by apply sql_insert].
  destruct (m !! (ns, key)) as [[[v0 c] u]|].
  - destruct Hl as (row & Hr & _ & Hc & _). eexists. split.
    + unfold insert, map_insert. apply partial_alter_ext. intros r <-. by rewrite Hr.
    + by split_and!.
  - eexists. split.
    + unfold insert, map_insert. apply partial_alter_ext. intros r <-. by rewrite Hl.
    + by split_and!.
Qed.

Lemma holds_run ops : Forall doc_op_ok ops →
  MemHolds (run_docs (spec_op mem_keep) ops ∅) (run_docs mem_op ops ∅) ∧
  SqlHolds (run_docs (spec_op sql_keep) ops ∅) (run_docs sdoc_op ops ∅).
Proof.
  induction ops as [|op ops IH] using rev_ind; intros Hops.
  { split; split; cbn; intros *; rewrite ?lookup_empty; try done; (split; [done|]); naive_solver. }
  apply Forall_app in Hops as [Hops Hop]. rewrite Forall_singleton in Hop. unfold run_docs in *. rewrite !foldl_app. cbn.
  destruct (IH Hops). split; [by apply mem_step|by apply sql_step].
Qed.

(** ** Reading *)

Lemma parse_entry ns key x row : namespace_ok ns → time_encodes x.1.2 = true → time_encodes x.2 = true → row_holds x row →
  parseDocument (encodeNamespace ns) key row = Ok (entry_doc ns key x).
Proof.
  intros [Hne Hf] Ht1 Ht2 (Hv & Hc & Hu). destruct x as [[v c] u]. cbn in Ht1, Ht2, Hv, Hc, Hu.
  unfold parseDocument, entry_doc. rewrite Hv, Hc, Hu.
  cbn -[parse_rfc3339 FormatRFC3339Nano split_colon encodeNamespace]. rewrite !parse_FormatRFC3339Nano by done.
  cbn -[split_colon encodeNamespace]. do 2 f_equal.
  unfold encodeNamespace. destruct ns as [|p ns]; [done|]. destruct (String.eqb_spec (String.concat colon (p :: ns)) "") as [E|_];
    [|by apply split_concat].
  apply (f_equal split_colon) in E. rewrite split_concat in E by done. by cbn in E; subst.
Qed.

(** A list of documents is exactly those of a namespace. *)
Definition lists (m : DocMap) (ns : list string) (l : list Document) : Prop :=
  NoDup l ∧ ∀ d, d ∈ l ↔ ∃ key x, m !! (ns, key) = Some x ∧ d = copyDocument (entry_doc ns key x).

Lemma copy_inj ns key x key' x' : copyDocument (entry_doc ns key x) = copyDocument (entry_doc ns key' x') → key = key'.
Proof. by intros [= ?]. Qed.

Lemma mem_List_lists m s ns order : MemHolds m s → namespace_ok ns → order ≡ₚ (map_to_list s).*2 → lists m ns (mem_List ns order).
Proof.
  intros H Hns Hord. assert (Hin : ∀ d, d ∈ order ↔ ∃ ns' key x, m !! (ns', key) = Some x ∧ d = entry_doc ns' key x).
  { intros d. rewrite Hord, list_elem_of_fmap. split.
    - intros ([k d'] & -> & Hd%elem_of_map_to_list). apply (hm_docs _ _ H) in Hd as (ns' & key & x & ? & _ & ?). by exists ns', key, x.
    - intros (ns' & key & x & Hm & ->). exists (makeCompositeKey ns' key, entry_doc ns' key x). split; [done|].
      apply elem_of_map_to_list, (hm_docs _ _ H). by exists ns', key, x. }
  assert (Hns' : ∀ ns' key x, m !! (ns', key) = Some x → in_namespace ns (entry_doc ns' key x) = true → ns' = ns).
  { intros ns' key x Hm E%String.eqb_eq. apply encodeNamespace_inj; [by eapply (hm_names _ _ H)|done|exact E]. }
  unfold mem_List. split.
  - apply NoDup_fmap_2_strong.
    + intros d d' [Hd (ns1 & k1 & x1 & Hm1 & ->)%Hin]%list_elem_of_filter [Hd' (ns2 & k2 & x2 & Hm2 & ->)%Hin]%list_elem_of_filter E.
      pose proof (Hns' _ _ _ Hm1 Hd) as ->. pose proof (Hns' _ _ _ Hm2 Hd') as ->. pose proof (copy_inj _ _ _ _ _ E) as ->. congruence.
    + apply NoDup_filter. rewrite Hord. apply NoDup_fmap_2_strong; [|apply NoDup_map_to_list].
      intros [k d] [k' d'] Hd%elem_of_map_to_list Hd'%elem_of_map_to_list E. cbn in E. subst d'.
      apply (hm_docs _ _ H) in Hd as (? & ? & x1 & _ & -> & ->), Hd' as (? & ? & x2 & _ & -> & E). by injection E as -> -> _.
  - intros d. rewrite list_elem_of_fmap. split.
    + intros (d' & -> & [Hd (ns1 & k1 & x1 & Hm1 & ->)%Hin]%list_elem_of_filter). pose proof (Hns' _ _ _ Hm1 Hd) as ->. by exists k1, x1.
    + intros (key & x & Hm & ->). exists (entry_doc ns key x). split; [done|]. apply list_elem_of_filter.
      split; [by apply String.eqb_eq|]. apply Hin. by exists ns, key, x.
Qed.

(** A row of the namespace, and the document it is read as. *)
Definition row_of (m : DocMap) (db : gmap (string * string) DocRow) (ns : list string) (r : string * string * DocRow) (d : Document) : Prop :=
  ∃ key x row, m !! (ns, key) = Some x ∧ r = (encodeNamespace ns, key, row) ∧ db !! (encodeNamespace ns, key) = Some row ∧
    row_holds x row ∧ d = entry_doc ns key x.
Lemma row_of_same m db ns r r' d d' : row_of m db ns r d → row_of m db ns r' d' →
  copyDocument d = copyDocument d' → r = r' ∧ d = d'.
Proof.
  intros (key & x & row & Hm & -> & Hd & _ & ->) (key' & x' & row' & Hm' & -> & Hd' & _ & ->) ->%copy_inj.
  rewrite Hm in Hm'. rewrite Hd in Hd'. by simplify_eq.
Qed.
Lemma scan_doc_rows m db ns rows : SqlHolds m db → namespace_ok ns → (∀ r, r ∈ rows → ∃ d, row_of m db ns r d) →
  ∃ l, scanDocuments rows = Ok l ∧ Forall2 (row_of m db ns) rows l.
Proof.
  intros H Hns. induction rows as [|r rows IH]; intros Hr; [by exists []|].
  destruct (Hr r) as (d & Hd); [by left|]. destruct IH as (l & El & Hl); [intros; apply Hr; by right|].
  exists (d :: l). split; [|by constructor]. destruct Hd as (key & x & row & Hm & -> & _ & Hrow & ->).
  destruct (hq_names _ _ H _ _ _ Hm) as (_ & Ht1 & Ht2). cbn [scanDocuments].
  rewrite (parse_entry ns key x row) by done. cbn. by rewrite El.
Qed.
Lemma rows_lists m db ns rows l : NoDup rows → Forall2 (row_of m db ns) rows l →
  (∀ key x, m !! (ns, key) = Some x → ∃ r, r ∈ rows ∧ row_of m db ns r (entry_doc ns key x)) → lists m ns (copyDocument <$> l).
Proof.
  intros Hnd Hrl Hall. split.
  - clear Hall. induction Hrl as [|r d rows l Hrd Hrl IH]; [constructor|].
    apply NoDup_cons in Hnd as [Hr Hnd]. cbn. constructor; [|by apply IH]. intros (d' & E & Hd)%list_elem_of_fmap.
    apply list_elem_of_lookup in Hd as [i Hd]. destruct (Forall2_lookup_r _ _ _ _ _ Hrl Hd) as (r' & Hi & Hrd').
    destruct (row_of_same _ _ _ _ _ _ _ Hrd Hrd' E) as [-> _]. apply Hr. by eapply list_elem_of_lookup_2.
  - intros d. rewrite list_elem_of_fmap. split.
    + intros (d' & -> & [i Hd]%list_elem_of_lookup).
      destruct (Forall2_lookup_r _ _ _ _ _ Hrl Hd) as (r & _ & key & x & row & Hm & _ & _ & _ & ->). by exists key, x.
    + intros (key & x & Hm & ->). destruct (Hall key x Hm) as (r & [i Hi]%list_elem_of_lookup & Hr).
      exists (entry_doc ns key x). split; [done|]. destruct (Forall2_lookup_l _ _ _ _ _ Hrl Hi) as (d & Hd & Hr').
      enough (d = entry_doc ns key x) as <- by (by eapply list_elem_of_lookup_2).
      destruct Hr as (k1 & x1 & w1 & Hm1 & -> & _ & _ & Ed), Hr' as (k2 & x2 & w2 & Hm2 & [= <- <-] & _ & _ & ->).
      injection Ed as <- _ _ _. congruence.
Qed.
Lemma sdoc_List_lists m db ns order : SqlHolds m db → namespace_ok ns → order ≡ₚ map_to_list db →
  ∃ l, sdoc_List ns None order = Ok l ∧ lists m ns (copyDocument <$> l).
Proof.
  intros H Hns Hord. unfold sdoc_List. set (rows := filter _ order).
  assert (Hin : ∀ n key row, (n, key, row) ∈ rows ↔ n = encodeNamespace ns ∧ db !! (n, key) = Some row).
  { intros n key row. unfold rows. by rewrite list_elem_of_filter, Hord, elem_of_map_to_list. }
  destruct (scan_doc_rows m db ns rows H Hns) as (l & -> & Hl).
  { intros [[n key] row] [-> Hr]%Hin. destruct (hq_entry _ _ H _ _ _ Hr) as (ns' & x & Hm & E).
    apply encodeNamespace_inj in E as <-; [|done|by eapply (hq_names _ _ H)].
    destruct (hq_row _ _ H _ _ _ Hm) as (row' & Hr' & Hx). rewrite Hr in Hr'. injection Hr' as <-.
    eexists. by exists key, x, row. }
  exists l. split; [done|]. apply (rows_lists m db ns rows l); [|done|].
  - apply NoDup_filter. rewrite Hord. apply NoDup_map_to_list.
  - intros key x Hm. destruct (hq_row _ _ H _ _ _ Hm) as (row & Hr & Hx).
    exists (encodeNamespace ns, key, row). split; [by apply Hin|]. by exists key, x, row.
Qed.

(** C21: each document store implements a map from namespace and key to documents: after any
    puts and deletions with names without colons, a store gets the value put last under a
    name, with the times of its creation and last change, and lists exactly the documents
    of a namespace, each once, in whatever order the map or the table is read.  The value
    is, in memory, the map [toMap] makes of the one given and, from the table, the map that
    encoding/json reads from what it wrote of that; a put fails, and changes nothing,
    exactly when there is no such value; and for a map of values that survive JSON both
    are the map that was given. *)
Theorem stores_refine_map ops : Forall doc_op_ok ops →
  let mm := run_docs (spec_op mem_keep) ops ∅ in let mq := run_docs (spec_op sql_keep) ops ∅ in
  let s := run_docs mem_op ops ∅ in let db := run_docs sdoc_op ops ∅ in
  (∀ ns key, name_ok ns key →
     mem_Get ns key s = copyDocument ∘ entry_doc ns key <$> mm !! (ns, key) ∧
     sdoc_Get ns key None db = Ok (entry_doc ns key <$> mq !! (ns, key))) ∧
  (∀ ns order rows, namespace_ok ns → order ≡ₚ (map_to_list s).*2 → rows ≡ₚ map_to_list db →
     lists mm ns (mem_List ns order) ∧ ∃ l, sdoc_List ns None rows = Ok l ∧ lists mq ns (copyDocument <$> l)) ∧
  (∀ ns key value now,
     (is_ok (mem_Put ns key value now s).2 = is_ok (mem_keep value)) ∧
     (is_ok (sdoc_Put ns key value now None db).2 = is_ok (sql_keep value))) ∧
  (∀ fields, any_ok (AMap fields) = true →
     mem_keep (AMap fields) = Ok (Some (list_to_map fields)) ∧ sql_keep (AMap fields) = Ok (Some (list_to_map fields))).
Proof.
  intros Hops mm mq s db. destruct (holds_run ops Hops) as [HM HQ]. fold mm mq s db in HM, HQ. split_and!.
  - intros ns key Hn. unfold mem_Get, sdoc_Get. rewrite (mem_lookup mm) by done.
    pose proof (sql_lookup mq db ns key HQ Hn) as Hl. split; [by destruct (mm !! (ns, key))|].
    destruct (mq !! (ns, key)) as [x|] eqn:E; [|by rewrite Hl]. destruct Hl as (row & -> & Hrow).
    destruct (hq_names _ _ HQ _ _ _ E) as (_ & Ht1 & Ht2). by rewrite (parse_entry ns key x row); [|apply Hn|..].
  - intros ns order rows Hns Ho Hr. split; [by eapply mem_List_lists|by eapply sdoc_List_lists].
  - intros ns key value now. unfold mem_Put, sdoc_Put, mem_keep. split; [by destruct (toMap value)|].
    destruct (valueJSON value) as [data|e] eqn:Ed; [|by rewrite (sql_keep_fails value e)].
    by destruct (valueJSON_reads value data Ed) as (vm & _ & ->).
  - apply keeps_agree.
Qed.

(** ** Searching *)

Definition ascii_byte (a : Ascii.ascii) : Prop := byte_in 0 127 a = true.
Definition plain_byte (a : Ascii.ascii) : Prop := a ≠ percent ∧ a ≠ underscore.
Lemma after_ascii d t : ascii_byte d → after_char (d :: t) = t.
Proof. intros Hd. unfold after_char, rune_len. by rewrite Hd. Qed.

Lemma like_any fuel t : Forall ascii_byte t → (length t + 1 < fuel)%nat → like fuel [percent] t = true.
Proof.
  revert fuel. induction t as [|d t IH]; intros fuel Ht Hf; (destruct fuel as [|fuel]; [lia|]); cbn [like].
  - rewrite Ascii.eqb_refl. destruct fuel; [cbn in Hf; lia|done].
  - apply Forall_cons in Ht as [Hd Ht]. rewrite Ascii.eqb_refl, after_ascii by done. rewrite IH; [by rewrite orb_true_r|done|cbn in Hf; lia].
Qed.
(** A pattern without wildcards matches a prefix of the text. *)
Lemma like_prefix fuel p t : Forall ascii_byte t → Forall plain_byte p → (length p + length t + 1 < fuel)%nat →
  like fuel (p ++ [percent]) t = true ↔ ∃ a b, t = a ++ b ∧ lower_byte <$> a = lower_byte <$> p.
Proof.
  revert fuel t. induction p as [|c p IH]; intros fuel t Ht Hp Hf; cbn [app].
  { rewrite like_any by (try done; cbn in Hf; lia). split; [|done]. intros _. by exists [], t. }
  apply Forall_cons in Hp as [[Hc1 Hc2] Hp]. destruct fuel as [|fuel]; [lia|]. cbn [like].
  destruct (Ascii.eqb_spec c percent) as [|_]; [done|]. destruct (Ascii.eqb_spec c underscore) as [|_]; [done|].
  destruct t as [|d t].
  { split; [done|]. intros ([|a0 a] & b & E & Ea); done. }
  apply Forall_cons in Ht as [Hd Ht]. rewrite andb_true_iff, IH by (try done; cbn in Hf; lia). split.
  - intros [E%Ascii.eqb_eq (a & b & -> & Ea)]. exists (d :: a), b. split; [done|]. cbn. by rewrite Ea, E.
  - intros ([|a0 a] & b & E & Ea); [done|]. injection E as <- ->. injection Ea as Ec Ea. split; [by apply Ascii.eqb_eq|]. by exists a, b.
Qed.
Lemma like_infix fuel p t : Forall ascii_byte t → Forall plain_byte p → (length p + length t + 2 < fuel)%nat →
  like fuel (percent :: p ++ [percent]) t = true ↔ ∃ a b c, t = a ++ b ++ c ∧ lower_byte <$> b = lower_byte <$> p.
Proof.
  revert fuel. induction t as [|d t IH]; intros fuel Ht Hp Hf; (destruct fuel as [|fuel]; [lia|]); cbn [like]; rewrite Ascii.eqb_refl.
  - rewrite orb_false_r, like_prefix by (try done; cbn in Hf |- *; lia). split.
    + intros (a & b & E & Ea). by exists [], a, b.
    + intros ([|] & b & c & E & Eb); [|done]. by exists b, c.
  - apply Forall_cons in Ht as [Hd Ht]. rewrite after_ascii by done. rewrite orb_true_iff, IH, like_prefix by (try done; try (by constructor); cbn in Hf |- *; lia). split.
    + intros [(a & b & E & Ea)|(a & b & c & -> & Eb)]; [by exists [], a, b|by exists (d :: a), b, c].
    + intros ([|a0 a] & b & c & E & Eb); [left; by exists b, c|]. right. injection E as -> ->. by exists a, b, c.
Qed.

Lemma bytes_app a b : bytes (a +:+ b) = bytes a ++ bytes b.
Proof.
  induction a as [|c a IH]; [done|]. rewrite append_cons. change (c :: bytes (a +:+ b) = c :: bytes a ++ bytes b). by rewrite IH.
Qed.
Lemma bytes_inj a b : bytes a = bytes b → a = b.
Proof. intros E. by rewrite <-(String.string_of_list_ascii_of_string a), <-(String.string_of_list_ascii_of_string b), E. Qed.
Lemma strip_prefix_Some p s r : strip_prefix p s = Some r ↔ bytes s = bytes p ++ bytes r.
Proof.
  revert s. induction p as [|c p IH]; intros s; cbn.
  { split; [by intros [= ->]|]. by intros ->%bytes_inj. }
  destruct s as [|d s]; cbn; [done|]. destruct (Ascii.eqb_spec c d) as [->|Hc]; [|split; [done|congruence]].
  rewrite IH. split; [by intros ->|by intros [= ->]].
Qed.
Lemma Contains_iff s sub : Contains s sub = true ↔ ∃ a c, bytes s = a ++ bytes sub ++ c.
Proof.
  unfold Contains. assert (Hgen : ∀ fuel, (String.length s ≤ fuel)%nat →
    Contains_from fuel s sub = true ↔ ∃ a c, bytes s = a ++ bytes sub ++ c); [|by apply Hgen].
  induction s as [|d s IH]; intros fuel Hf.
  - assert (Contains_from fuel "" sub = match strip_prefix sub "" with Some _ => true | None => false end) as ->.
    { by destruct fuel; cbn; destruct (strip_prefix sub ""). }
    split.
    + destruct (strip_prefix sub "") as [r|] eqn:E; [|done]. apply strip_prefix_Some in E. intros _. by exists [], (bytes r).
    + intros (a & c & E). destruct (strip_prefix sub "") as [r|] eqn:E'; [done|].
      assert (strip_prefix sub "" = Some ""); [|congruence]. apply strip_prefix_Some. cbn in E |- *.
      symmetry in E. apply app_nil in E as [_ [-> _]%app_nil]. done.
  - destruct fuel as [|fuel]; [cbn in Hf; lia|]. cbn [Contains_from].
    destruct (strip_prefix sub (String d s)) as [r|] eqn:E.
    { apply strip_prefix_Some in E. split; [|done]. intros _. by exists [], (bytes r). }
    rewrite IH by (cbn in Hf; lia). split.
    + intros (a & c & Es). exists (d :: a), c. cbn. by rewrite Es.
    + intros ([|a0 a] & c & Es).
      * assert (strip_prefix sub (String d s) = Some (String.string_of_list_ascii c)); [|congruence].
        apply strip_prefix_Some. rewrite String.list_ascii_of_string_of_list_ascii. exact Es.
      * injection Es as _ Es. by exists a, c.
Qed.

Lemma lower_plain c : plain_byte c → plain_byte (lower_byte c).
Proof. destruct c as [[][][][][][][][]]; vm_compute; intros [H1 H2]; split; congruence. Qed.
Lemma lower_idem c : lower_byte (lower_byte c) = lower_byte c.
Proof. by destruct c as [[][][][][][][][]]. Qed.
Lemma lower_ascii c : ascii_byte c → ascii_byte (lower_byte c).
Proof. by destruct c as [[][][][][][][][]]. Qed.
Lemma ascii_only_Forall s : ascii_only s = true ↔ Forall ascii_byte (bytes s).
Proof. unfold ascii_only. rewrite forallb_forall, Forall_forall. split; intros H c Hc; apply H; by apply list_elem_of_In. Qed.

Lemma ToLower_ascii s : ascii_only s = true → bytes (ToLower s) = lower_byte <$> bytes s.
Proof.
  rewrite ascii_only_Forall. unfold ToLower.
  assert (Hgen : ∀ fuel, (String.length s ≤ fuel)%nat → Forall ascii_byte (bytes s) →
    bytes (lower_from fuel s) = lower_byte <$> bytes s); [|by apply Hgen].
  induction s as [|c s IH]; intros fuel Hf Hs; [by destruct fuel|]. destruct fuel as [|fuel]; [cbn in Hf; lia|].
  cbn [String.list_ascii_of_string] in Hs. apply Forall_cons in Hs as [Hc Hs].
  assert (∀ a p, byte_in 0 127 a = false → strip_prefix (String a p) (String c s) = None) as Hno.
  { intros a p Ha. cbn. destruct (Ascii.eqb_spec a c) as [->|]; [|done]. unfold ascii_byte in Hc. congruence. }
  cbn [lower_from]. assert (strip_prefix kelvin_sign (String c s) = None) as -> by (by apply Hno).
  assert (strip_prefix dotted_I (String c s) = None) as -> by (by apply Hno). cbn. rewrite IH; [done|cbn in Hf; lia|done].
Qed.

(** On ASCII texts, a search for a query without wildcards finds the same documents in
    both stores: those whose JSON text contains it in either case of letters. *)
Theorem search_agrees json_text ns query ns' key value valueMap data created updated d :
  namespace_ok ns → namespace_ok ns' →
  mem_keep value = Ok valueMap → valueJSON value = Ok data → doc_Namespace d = ns' → doc_Value d = valueMap →
  ascii_only (json_text data) = true → ascii_only query = true → Forall plain_byte (bytes query) →
  sdoc_matches json_text (encodeNamespace ns) query (encodeNamespace ns', key, MkDocRow data created updated) =
  mem_matches json_text ns query d.
Proof.
  intros Hns Hns' Hk Hd <- <- Ht Hq Hp. unfold sdoc_matches, mem_matches, in_namespace. cbn [fst snd drow_value].
  assert (marshal_value (doc_Value d) = Ok data) as ->.
  { unfold valueJSON, mem_keep in *. rewrite Hk in Hd. cbn in Hd. by destruct (marshal_value (doc_Value d)). }
  unfold encodeNamespace. f_equal. set (text := json_text data) in *. clearbody text.
  apply eq_true_iff_eq. rewrite Contains_iff, !ToLower_ascii by done. unfold LIKE.
  rewrite !bytes_app, ToLower_ascii by done. cbn [String.list_ascii_of_string app].
  assert (bytes (sql_lower text) = lower_byte <$> bytes text) as Hl by apply String.list_ascii_of_string_of_list_ascii.
  rewrite Hl. rewrite like_infix.
  - set (t := bytes text). set (q := bytes query). split.
    + intros (a & b & c & E & Eb). exists a, c. rewrite E. do 2 f_equal.
      assert (lower_byte <$> (lower_byte <$> q) = lower_byte <$> q) as Hqq
        by (rewrite <-list_fmap_compose; apply list_fmap_ext; intros; apply lower_idem).
      rewrite Hqq in Eb. rewrite <-Eb.
      assert (Forall (λ d, lower_byte d = d) b) as Hb.
      { assert (Forall (λ d, lower_byte d = d) (lower_byte <$> t)) as Hall by (apply Forall_fmap, Forall_true; intros; apply lower_idem).
        rewrite E in Hall. by apply Forall_app in Hall as [_ [? _]%Forall_app]. }
      clear -Hb. induction Hb as [|d b Hd _ IH]; [done|]. cbn. by rewrite Hd, <-IH.
    + intros (a & c & E). exists a, (lower_byte <$> q), c. done.
  - apply Forall_fmap. eapply Forall_impl; [by apply ascii_only_Forall|]. apply lower_ascii.
  - apply Forall_fmap. eapply Forall_impl; [exact Hp|]. apply lower_plain.
  - assert (∀ s, String.length s = length (bytes s)) as Hlen by (induction s; cbn; congruence).
    rewrite !Hlen, !bytes_app, !length_app, Hl, ToLower_ascii by done. cbn. lia.
Qed.

(** ** The buffer *)

Lemma buffer_add_drop n l msgs : 0 ≤ n →
  buffer_Add msgs (MkBufferMemory (drop (length l - Z.to_nat n) l) n) =
    Some (MkBufferMemory (drop (length (l ++ msgs) - Z.to_nat n) (l ++ msgs)) n).
Proof.
  intros Hn. unfold buffer_Add. cbn [bm_messages bm_maxSize].
  assert (drop (length l - Z.to_nat n) l ++ msgs = drop (length l - Z.to_nat n) (l ++ msgs)) as ->.
  { by rewrite drop_app_le by lia. }
  rewrite length_drop, length_app. destruct (Z.gtb_spec (Z.of_nat (length l + length msgs - (length l - Z.to_nat n))) n) as [Hg|Hg].
  - destruct (Z.ltb_spec n 0); [lia|]. rewrite drop_drop. do 3 f_equal. lia.
  - do 3 f_equal. lia.
Qed.
(** The buffer holds the last messages added, as many as its size. *)
Theorem buffer_keeps_last n batches : 0 ≤ n →
  foldl (λ b msgs, b ≫= buffer_Add msgs) (Some (NewBuffer (Some n))) batches =
    Some (MkBufferMemory (drop (length (concat batches) - Z.to_nat n) (concat batches)) n).
Proof.
  intros Hn. induction batches as [|msgs batches IH] using rev_ind; [done|].
  rewrite foldl_app, IH. cbn [foldl]. rewrite concat_app. cbn [concat]. rewrite app_nil_r. by apply buffer_add_drop.
Qed.

(** ** Examples *)

Definition note (s : string) : any := AMap [("note", AString s)].
Definition demo_docs : list DocOp :=
  [DocPut ["user"; "prefs"] "theme" (note "dark") 1; DocPut ["user"] "name" (note "Ann") 2;
   DocPut ["user"; "prefs"] "theme" (AMap [("n", AInt (2 ^ 53 + 1))]) 3; DocDelete ["user"] "name";
   DocPut ["user"; "prefs"] "theme" (AOpaque 1) 4].
Lemma demo_docs_ok : Forall doc_op_ok demo_docs.
Proof. repeat constructor; try done; vm_compute; set_solver. Qed.
(** An integer: the store in memory gets it as it was put, the table as the nearest float. *)
Lemma stores_refine_map_witness :
  mem_Get ["user"; "prefs"] "theme" (run_docs mem_op demo_docs ∅) =
    Some (MkDocument ["user"; "prefs"] "theme" (Some {[ "n" := AInt (2 ^ 53 + 1) ]}) 1 3) ∧
  sdoc_Get ["user"; "prefs"] "theme" None (run_docs sdoc_op demo_docs ∅) =
    Ok (Some (MkDocument ["user"; "prefs"] "theme" (Some {[ "n" := AFloat (FInt (2 ^ 53)) ]}) 1 3)).
Proof.
  destruct (stores_refine_map demo_docs demo_docs_ok) as (H & _ & _ & _). destruct (H ["user"; "prefs"] "theme") as [Hm Hq].
  - exact (proj1 (Forall_inv demo_docs_ok)).
  - rewrite Hm, Hq. split; vm_compute; reflexivity.
Defined.

(** Where the stores differ: an integer, a struct inside a map, and a value that
    encoding/json refuses, which only the SQLite store looks at. *)
Lemma values_differ :
  mem_keep (AMap [("n", AInt 1)]) = Ok (Some {[ "n" := AInt 1 ]}) ∧
  sql_keep (AMap [("n", AInt 1)]) = Ok (Some {[ "n" := AFloat (FInt 1) ]}) ∧
  mem_keep (AStruct [("n", AInt 1)]) = Ok (Some {[ "n" := AFloat (FInt 1) ]}) ∧
  sql_keep (AMap [("s", AStruct [("n", AInt 1)])]) = Ok (Some {[ "s" := AMap [("n", AFloat (FInt 1))] ]}) ∧
  is_ok (mem_keep (AMap [("c", AOpaque 1)])) = true ∧ is_ok (sql_keep (AMap [("c", AOpaque 1)])) = false.
Proof. split_and!; vm_compute; reflexivity. Qed.

(** Two names with the same composite key are one document in memory: the second value
    replaces the first, which is then found under the name of the first only.  The
    SQLite store keeps them apart. *)
Lemma namespace_collision :
  let ops := [DocPut ["a"] "b:c" (note "first") 1; DocPut ["a"; "b"] "c" (note "second") 2] in
  let s := run_docs mem_op ops ∅ in let db := run_docs sdoc_op ops ∅ in
  mem_Get ["a"] "b:c" s = Some (MkDocument ["a"] "b:c" (Some {[ "note" := AString "second" ]}) 1 2) ∧
  mem_List ["a"; "b"] (map_to_list s).*2 = [] ∧
  sdoc_Get ["a"] "b:c" None db = Ok (Some (MkDocument ["a"] "b:c" (Some {[ "note" := AString "first" ]}) 1 1)).
Proof. vm_compute. done. Qed.

(** A query with a wildcard of [LIKE] finds documents that do not contain it. *)
Lemma wildcard_finds_all :
  let json_text _ := "xyz" in
  let ops := [DocPut ["a"] "k" (note "xyz") 1] in
  mem_Search json_text ["a"] "_" 0 (map_to_list (run_docs mem_op ops ∅)).*2 = [] ∧
  length <$> sdoc_Search json_text ["a"] "_" 0 None (map_to_list (run_docs sdoc_op ops ∅)) = Ok 1%nat.
Proof. vm_compute. done. Qed.
