(* ===== verification/CoreUtil.v ===== *)
(** * Helpers of the core

    Ready-made guardrails (src/core/guardrails.go), run conditions (condition.go) and
    interceptors (interceptor.go), batches of runs (batch.go) and the text of a model
    stream (src/core/streamutil/streamutil.go). *)

From S2P Require Import Prelude Errors Usage Messages AgentTypes AutoContext AgentTools AgentLoop Steer Stream ModelUtil TimeText.

(** ** Guardrails, conditions and interceptors *)

Section guards.
Context {W : Type}.

Definition MaxPromptLength (maxChars : Z) (prompt : string) : res string :=
  let len := Z.of_nat (String.length prompt) in
  if len >? maxChars
  then Err (ENew ("prompt length " +:+ itoa len +:+ " exceeds maximum " +:+ itoa maxChars +:+ " characters"))
  else Ok prompt.
Fixpoint ContentFilter (blocked : list string) (prompt : string) : res string :=
  match blocked with
  | [] => Ok prompt
  | b :: blocked =>
    if Contains (ToLower prompt) (ToLower b) then Err (ENew ("prompt contains blocked content: " +:+ go_quote b))
    else ContentFilter blocked prompt
  end.
Definition MaxTurns (n : Z) : TurnGuardrailFunc W := λ rc _ w,
  (w, if rc_RunStep rc >? n then Some (ENew ("exceeded maximum of " +:+ itoa n +:+ " turns")) else None).

Fixpoint Or (conditions : list (RunCondition W)) : RunCondition W := λ rc resp w,
  match conditions with
  | [] => (w, (false, ""))
  | cond :: conditions =>
    match cond rc resp w with
    | (w, (true, reason)) => (w, (true, reason))
    | (w, (false, _)) => Or conditions rc resp w
    end
  end.
Fixpoint and_loop (conditions : list (RunCondition W)) (reasons : list string) : RunCondition W := λ rc resp w,
  match conditions with
  | [] => (w, (true, String.concat "; " reasons))
  | cond :: conditions =>
    match cond rc resp w with
    | (w, (false, _)) => (w, (false, ""))
    | (w, (true, reason)) =>
      and_loop conditions (if String.eqb reason "" then reasons else reasons ++ [reason]) rc resp w
    end
  end.
Definition And (conditions : list (RunCondition W)) : RunCondition W := and_loop conditions [].
(** [elapsed]: [time.Since] of the start of the run. *)
Definition MaxRunDuration (elapsed : W → Duration) (d : Duration) : RunCondition W := λ _ _ w,
  (w, if elapsed w >=? d then (true, "max run duration exceeded") else (false, "")).
Definition TextContains (substr : string) : RunCondition W := λ _ resp w,
  (w, if Contains (TextContent resp) substr then (true, "text contains " +:+ substr) else (false, "")).
Definition ToolCallCount (max : Z) : RunCondition W := λ rc _ w,
  let max := if max <=? 0 then 1 else max in
  (w, if Usage.ToolCalls (rc_Usage rc) >=? max then (true, "tool call count limit reached") else (false, "")).
Definition ResponseContains (fn : ModelResponse → bool) : RunCondition W := λ _ resp w,
  (w, if fn resp then (true, "response predicate matched") else (false, "")).

(** [replace]: [ReplaceAllString] of the compiled pattern. *)
Definition redact_part (replace : string → string) (p : RequestPart) : RequestPart :=
  match p with UserPromptPart c => UserPromptPart (replace c) | _ => p end.
Definition redact_message (replace : string → string) (m : ModelMessage) : ModelMessage :=
  match m with ModelRequest ps => ModelRequest (redact_part replace <$> ps) | Response _ => m end.
Definition part_redacted (replace : string → string) (p : RequestPart) : bool :=
  match p with UserPromptPart c => negb (String.eqb (replace c) c) | _ => false end.
Definition RedactPII (replace : string → string) : MessageInterceptor W := λ msgs w,
  let changed := existsb (λ m, match m with
    | ModelRequest ps => existsb (part_redacted replace) ps | Response _ => false end) msgs in
  (w, if changed then MkInterceptResult MessageModify (redact_message replace <$> msgs)
      else MkInterceptResult MessageAllow []).
Definition AuditLog (logger : string → list ModelMessage → W → W) : MessageInterceptor W := λ msgs w,
  (logger "request" msgs w, MkInterceptResult MessageAllow []).

(** ** What they decide *)

(** The conditions that were asked, with their answers. *)
Fixpoint answers_of (conditions : list (RunCondition W)) (rc : RunContext) (resp : ModelResponse) (w : W)
    : list (bool * string) :=
  match conditions with
  | [] => []
  | cond :: conditions => let '(w, a) := cond rc resp w in a :: answers_of conditions rc resp w
  end.
(** [Or] stops with the reason of the first condition that stops. *)
Lemma Or_first conds rc resp w :
  (Or conds rc resp w).2 = default (false, "") (head (filter (λ a : bool * string, a.1 = true) (answers_of conds rc resp w))).
Proof.
  revert w. induction conds as [|cond conds IH]; intros w; [done|]. cbn.
  destruct (cond rc resp w) as [w' [[] reason]]; cbn; [done|]. by rewrite IH.
Qed.
(** [And] stops if all do, with the reasons that are not empty. *)
Lemma And_all conds rc resp w :
  (And conds rc resp w).2 =
    if forallb fst (answers_of conds rc resp w)
    then (true, String.concat "; " (filter (λ r, r ≠ "") (answers_of conds rc resp w).*2)) else (false, "").
Proof.
  unfold And. assert (Hgen : ∀ rs w, (and_loop conds rs rc resp w).2 =
    if forallb fst (answers_of conds rc resp w)
    then (true, String.concat "; " (rs ++ filter (λ r, r ≠ "") (answers_of conds rc resp w).*2)) else (false, ""));
    [|by rewrite Hgen].
  induction conds as [|cond conds IH]; intros rs w0; cbn -[filter]; [by rewrite app_nil_r|].
  destruct (cond rc resp w0) as [w' [[] reason]]; cbn -[filter]; [|done]. rewrite IH, filter_cons.
  destruct (String.eqb_spec reason "") as [->|Hne]; [by case_decide|]. rewrite decide_True by done.
  by rewrite <-(assoc_L (++)).
Qed.

(** What the model sees after [RedactPII]: every user prompt replaced, everything else
    as it was, also when nothing had to be replaced. *)
Theorem RedactPII_redacts replace msgs w :
  let '(_, r) := RedactPII replace msgs w in
  match ir_Action r with MessageModify => ir_Messages r | _ => msgs end = redact_message replace <$> msgs.
Proof.
  unfold RedactPII. destruct (existsb _ msgs) eqn:E; cbn; [done|].
  induction msgs as [|m msgs IH]; [done|]. cbn in E |- *. apply orb_false_iff in E as [Em E]. rewrite <-IH by done. f_equal.
  destruct m as [ps|]; [|done]. cbn. f_equal. clear -Em. induction ps as [|p ps IH]; [done|].
  cbn in Em |- *. apply orb_false_iff in Em as [Ep Em]. rewrite <-IH by done. f_equal.
  destruct p; try done. cbn in Ep |- *. apply negb_false_iff, String.eqb_eq in Ep. by rewrite Ep.
Qed.
End guards.

(** ** The text of a stream *)

Record StreamTextOptions := MkStreamTextOptions { opt_Delta : bool; opt_Debounce : Duration }.
Definition text_content (ev : StreamEvent) : string :=
  match ev with
  | PartStartEvent _ (TextPart c) => c
  | PartDeltaEvent _ (TextPartDelta c) => c
  | _ => ""
  end.
Record TextState := MkTextState { ts_accumulated : string; ts_pending : string; ts_lastYield : option Time }.
Definition text_of (opts : StreamTextOptions) (s : TextState) : string :=
  if opt_Delta opts then ts_pending s else ts_accumulated s.

(** An event comes with the times that [time.Since] and [time.Now] read at it; before the
    first yield the time since the last is longer than any window.  [more n] is what the
    consumer answers to its [n]-th value; [failure] is how the stream ends ([None]: the
    end of file). *)
Fixpoint stream_text (opts : StreamTextOptions) (more : nat → bool) (evs : list (StreamEvent * (Time * Time)))
    (failure : option error) (n : nat) (s : TextState) : list (res string) :=
  match evs with
  | [] =>
    match failure with
    | Some e => [Err e]
    | None => if String.eqb (ts_pending s) "" then [] else [Ok (text_of opts s)]
    end
  | (ev, (since, now)) :: evs =>
    if String.eqb (text_content ev) "" then stream_text opts more evs failure n s
    else
      let s := MkTextState (ts_accumulated s +:+ text_content ev) (ts_pending s +:+ text_content ev) (ts_lastYield s) in
      if (0 <? opt_Debounce opts) && match ts_lastYield s with Some t => since - t <? opt_Debounce opts | None => false end
      then stream_text opts more evs failure n s
      else
        Ok (text_of opts s) ::
        (if more n then stream_text opts more evs failure (S n) (MkTextState (ts_accumulated s) "" (Some now)) else [])
  end.
Definition StreamUtil_StreamText (opts : StreamTextOptions) (more : nat → bool) (evs : list (StreamEvent * (Time * Time)))
    (failure : option error) : list (res string) :=
  stream_text opts more evs failure 0 (MkTextState "" "" None).

Lemma string_nil_r s : s +:+ "" = s.
Proof. induction s as [|c s IH]; [done|]. by rewrite append_cons, IH. Qed.

Definition all_text (evs : list (StreamEvent * (Time * Time))) : string := String.concat "" (text_content ∘ fst <$> evs).
Lemma all_text_cons ev evs : all_text (ev :: evs) = text_content ev.1 +:+ all_text evs.
Proof. unfold all_text. rewrite fmap_cons. cbn. destruct ((text_content ∘ fst) <$> evs); cbn; [by rewrite string_nil_r|done]. Qed.
Definition yielded (l : list (res string)) : list string := omap (λ r, match r with Ok s => Some s | Err _ => None end) l.
Lemma concat_cons_nil a l : String.concat "" (a :: l) = a +:+ String.concat "" l.
Proof. destruct l; cbn; [by rewrite string_nil_r|done]. Qed.

(** The deltas of a stream that ends are its text, whatever the window. *)
Lemma deltas_complete debounce evs n s :
  String.concat "" (yielded (stream_text (MkStreamTextOptions true debounce) (λ _, true) evs None n s)) = ts_pending s +:+ all_text evs.
Proof.
  revert n s. induction evs as [|[ev [since now]] evs IH]; intros n s.
  - cbn. destruct (String.eqb_spec (ts_pending s) "") as [->|_]; cbn; [done|]. by rewrite string_nil_r.
  - rewrite all_text_cons. cbn [stream_text fst]. destruct (String.eqb_spec (text_content ev) "") as [->|_]; [apply IH|].
    destruct (_ && _); [rewrite IH; cbn; by rewrite string_app_assoc|].
    unfold text_of. cbn -[String.concat]. rewrite concat_cons_nil, IH. cbn. by rewrite string_app_assoc.
Qed.
(** Accumulated texts are prefixes of the whole text. *)
Lemma accumulated_prefix debounce more evs failure n s y :
  y ∈ yielded (stream_text (MkStreamTextOptions false debounce) more evs failure n s) →
  ∃ rest, ts_accumulated s +:+ all_text evs = y +:+ rest.
Proof.
  revert n s. induction evs as [|[ev [since now]] evs IH]; intros n s.
  - cbn. destruct failure; cbn; [set_solver|]. destruct (String.eqb (ts_pending s) ""); cbn; [set_solver|].
    intros ->%list_elem_of_singleton. by exists "".
  - rewrite all_text_cons. cbn [stream_text fst]. destruct (String.eqb_spec (text_content ev) "") as [->|_]; [apply IH|].
    rewrite <-string_app_assoc. destruct (_ && _); [apply IH|]. unfold text_of. cbn. intros [->|Hy]%elem_of_cons; [by eexists|].
    destruct (more n); [|by cbn in Hy; set_solver]. by apply IH in Hy.
Qed.
Lemma accumulated_last debounce evs n s :
  ts_pending s +:+ all_text evs ≠ "" →
  last (yielded (stream_text (MkStreamTextOptions false debounce) (λ _, true) evs None n s)) = Some (ts_accumulated s +:+ all_text evs).
Proof.
  revert n s. induction evs as [|[ev [since now]] evs IH]; intros n s Hne.
  - cbn in Hne |- *. rewrite string_nil_r in Hne |- *. destruct (String.eqb_spec (ts_pending s) "") as [E|_]; [congruence|done].
  - rewrite all_text_cons in Hne |- *. cbn [stream_text fst] in Hne |- *.
    destruct (String.eqb_spec (text_content ev) "") as [E|Ht]; [rewrite E in Hne |- *; by apply IH|].
    rewrite <-!string_app_assoc in Hne |- *. destruct (_ && _); [by apply IH|]. unfold text_of. cbn.
    destruct (decide (all_text evs = "")) as [E|E].
    + rewrite E, string_nil_r. assert (∀ n s, ts_pending s = "" → yielded (stream_text (MkStreamTextOptions false debounce) (λ _, true) evs None n s) = []) as ->;
        [|done|done]. clear -E. induction evs as [|[ev [since now]] evs IH]; intros n s Hs; [cbn; by rewrite Hs|].
      rewrite all_text_cons in E. cbn in E. assert (text_content ev = "" ∧ all_text evs = "") as [E1 E2] by (destruct (text_content ev); done).
      cbn. rewrite E1. by apply IH.
    + rewrite last_cons, IH by done. done.
Qed.

(** A stream that ends is yielded completely, with or without a window: the deltas add up
    to its text, and accumulated texts are prefixes of it up to the whole. *)
Theorem stream_text_complete debounce evs :
  String.concat "" (yielded (StreamUtil_StreamText (MkStreamTextOptions true debounce) (λ _, true) evs None)) = all_text evs ∧
  (∀ y, y ∈ yielded (StreamUtil_StreamText (MkStreamTextOptions false debounce) (λ _, true) evs None) → ∃ rest, all_text evs = y +:+ rest) ∧
  (all_text evs ≠ "" →
   last (yielded (StreamUtil_StreamText (MkStreamTextOptions false debounce) (λ _, true) evs None)) = Some (all_text evs)).
Proof.
  unfold StreamUtil_StreamText. split_and!; [apply deltas_complete|intros y Hy; by apply accumulated_prefix in Hy|].
  intros Hne. by apply accumulated_last.
Qed.

(** Text that waits in the window when the stream fails is never yielded. *)
Lemma pending_text_is_lost :
  StreamUtil_StreamText (MkStreamTextOptions true 100) (λ _, true)
    [(PartStartEvent 0 (TextPart "a"), (0, 0)); (PartDeltaEvent 0 (TextPartDelta "b"), (1, 1))] (Some (ENew "broken")) =
    [Ok "a"; Err (ENew "broken")].
Proof. done. Qed.
