(* ===== verification/Batch.v ===== *)
(** * Batches of runs

    src/core/batch.go: [RunBatch] starts a goroutine per prompt; each takes a place in the
    semaphore or sees its context end, runs the agent and writes its slot of the results.
    An action is one step of one goroutine; what a run returns is an argument of its
    action. *)

From S2P Require Import Prelude Errors Usage Messages AgentTypes AutoContext AgentTools AgentLoop.

Section batch.
Context {T : Type}.

Record BatchResult := MkBatchResult { bres_Index : nat; bres_outcome : RunResult T + RunError }.

Inductive BatchPhase := BWaiting | BRunning | BReturned | BDone.
#[local] Instance BatchPhase_eq_dec : EqDecision BatchPhase.
Proof. solve_decision. Defined.
Record BatchState := MkBatchState {
  bt_phase : list BatchPhase;                       (* of each goroutine *)
  bt_sem : nat;                                     (* places taken *)
  bt_results : list (option BatchResult);
  bt_cancelled : bool;
}.
#[local] Instance BatchState_eta : RecordEta BatchState := λ s,
  MkBatchState (bt_phase s) (bt_sem s) (bt_results s) (bt_cancelled s).

Inductive BatchAction :=
| BAcquire (i : nat)                                (* the select takes a place *)
| BGiveUp (i : nat)                                 (* the select sees the end of the context *)
| BReturn (i : nat) (out : RunResult T + RunError)  (* the run returned: the slot is written *)
| BRelease (i : nat)                                (* deferred: the place is given back *)
| BCancel.                                          (* the context ends *)

Definition start_batch (n : nat) : BatchState := MkBatchState (replicate n BWaiting) 0 (replicate n None) false.
Definition batchConcurrency (gomaxprocs option : Z) : nat := Z.to_nat (if option >? 0 then option else gomaxprocs).

Definition ctx_error : RunResult T + RunError := inr (RunFailed (ESentinel "context canceled")).

Definition batch_act (concurrency : nat) (a : BatchAction) (s : BatchState) : option BatchState :=
  match a with
  | BAcquire i =>
    match bt_phase s !! i with
    | Some BWaiting =>
      if (bt_sem s <? concurrency)%nat then
        Some (s <| bt_phase ::= <[i := BRunning]> |> <| bt_sem ::= S |>) else None
    | _ => None
    end
  | BGiveUp i =>
    match bt_phase s !! i with
    | Some BWaiting =>
      if bt_cancelled s then
        Some (s <| bt_phase ::= <[i := BDone]> |> <| bt_results ::= <[i := Some (MkBatchResult i ctx_error)]> |>)
      else None
    | _ => None
    end
  | BReturn i out =>
    match bt_phase s !! i with
    | Some BRunning =>
      Some (s <| bt_phase ::= <[i := BReturned]> |> <| bt_results ::= <[i := Some (MkBatchResult i out)]> |>)
    | _ => None
    end
  | BRelease i =>
    match bt_phase s !! i with
    | Some BReturned => Some (s <| bt_phase ::= <[i := BDone]> |> <| bt_sem ::= pred |>)
    | _ => None
    end
  | BCancel => Some (s <| bt_cancelled := true |>)
  end.
Fixpoint batch_run (concurrency : nat) (acts : list BatchAction) (s : BatchState) : option BatchState :=
  match acts with [] => Some s | a :: acts => batch_act concurrency a s ≫= batch_run concurrency acts end.

(** [wg.Wait] returns. *)
Definition batch_over (s : BatchState) : Prop := Forall (eq BDone) (bt_phase s).

(** ** The invariant *)

Definition holds_place (p : BatchPhase) : bool := match p with BRunning | BReturned => true | _ => false end.
Definition wrote (p : BatchPhase) : bool := match p with BReturned | BDone => true | _ => false end.
Definition places (l : list BatchPhase) : nat := length (filter (λ p, holds_place p = true) l).

Lemma places_insert l i p p' : l !! i = Some p →
  (places (<[i := p']> l) + (if holds_place p then 1 else 0) = places l + (if holds_place p' then 1 else 0))%nat.
Proof.
  revert i. unfold places. induction l as [|q l IH]; intros [|i] H; [done..| |].
  - injection H as ->. change (<[0%nat := p']> (p :: l)) with (p' :: l). rewrite !filter_cons.
    destruct (holds_place p), (holds_place p'); repeat case_decide; try done; cbn [length]; lia.
  - specialize (IH i H). change (<[S i := p']> (q :: l)) with (q :: <[i := p']> l). rewrite !filter_cons.
    case_decide; cbn [length]; lia.
Qed.

Record BatchInv (n concurrency : nat) (s : BatchState) : Prop := MkBatchInv {
  bv_phase : length (bt_phase s) = n;
  bv_results : length (bt_results s) = n;
  bv_sem : bt_sem s = places (bt_phase s);
  bv_bound : (bt_sem s ≤ concurrency)%nat;
  bv_slots : ∀ i p, bt_phase s !! i = Some p → wrote p = true → ∃ out, bt_results s !! i = Some (Some (MkBatchResult i out));
}.

Lemma start_batch_inv n concurrency : BatchInv n concurrency (start_batch n).
Proof.
  split; cbn; rewrite ?length_replicate; try done; try lia.
  - unfold places. by induction n.
  - intros i p Hp. apply lookup_replicate in Hp as [-> _]. done.
Qed.
(** A slot is written by its own goroutine only. *)
Lemma batch_act_inv n concurrency a s s' : BatchInv n concurrency s → batch_act concurrency a s = Some s' → BatchInv n concurrency s'.
Proof.
  intros [H1 H2 H3 H4 H5] Ha.
  destruct a as [i|i|i out|i|]; cbn [batch_act] in Ha; [..|injection Ha as <-; by split]; destruct (bt_phase s !! i) as [[]|] eqn:Ei; try done.
  - destruct (Nat.ltb_spec (bt_sem s) concurrency); [|done]. injection Ha as <-.
    pose proof (places_insert _ i _ BRunning Ei) as Hp. cbn -[places] in Hp. split; cbn -[places]; rewrite ?length_insert; try assumption; try lia.
    intros j p. destruct (decide (i = j)) as [<-|Hne]; [|rewrite list_lookup_insert_ne by done; apply H5].
    rewrite list_lookup_insert_eq by (by eapply lookup_lt_Some). by intros [= <-].
  - destruct (bt_cancelled s); [|done]. injection Ha as <-.
    pose proof (places_insert _ i _ BDone Ei) as Hp. cbn -[places] in Hp. split; cbn -[places]; rewrite ?length_insert; try assumption; try lia.
    intros j p. destruct (decide (i = j)) as [<-|Hne]; [|rewrite !list_lookup_insert_ne by done; apply H5].
    intros _ _. eexists. rewrite list_lookup_insert_eq; [done|]. rewrite H2, <-H1. by eapply lookup_lt_Some.
  - injection Ha as <-. pose proof (places_insert _ i _ BReturned Ei) as Hp. cbn -[places] in Hp. split; cbn -[places]; rewrite ?length_insert; try assumption; try lia.
    intros j p. destruct (decide (i = j)) as [<-|Hne]; [|rewrite !list_lookup_insert_ne by done; apply H5].
    intros _ _. eexists. rewrite list_lookup_insert_eq; [done|]. rewrite H2, <-H1. by eapply lookup_lt_Some.
  - injection Ha as <-. pose proof (places_insert _ i _ BDone Ei) as Hp. cbn -[places] in Hp. split; cbn -[places]; rewrite ?length_insert; try assumption; try lia.
    intros j p. destruct (decide (i = j)) as [<-|Hne]; [|rewrite !list_lookup_insert_ne by done; apply H5].
    intros _ _. by eapply H5.
Qed.
Lemma batch_run_inv n concurrency acts s s' : BatchInv n concurrency s → batch_run concurrency acts s = Some s' → BatchInv n concurrency s'.
Proof.
  revert s. induction acts as [|a acts IH]; intros s Hi; cbn; [by intros [= <-]|].
  destruct (batch_act concurrency a s) as [s1|] eqn:Ea; [|done]. cbn. apply IH. by eapply batch_act_inv.
Qed.

(** A place can be taken or is held. *)
Lemma batch_progress n concurrency s : BatchInv n concurrency s → (0 < concurrency)%nat → ¬ batch_over s →
  ∃ i, is_Some (batch_act concurrency (BAcquire i) s) ∨ (∀ out, is_Some (batch_act concurrency (BReturn i out) s)) ∨
       is_Some (batch_act concurrency (BRelease i) s).
Proof.
  intros [H1 H2 H3 H4 H5] Hc Hover.
  destruct (decide (places (bt_phase s) = 0%nat)) as [Hz|Hz].
  - assert (∃ i, bt_phase s !! i = Some BWaiting) as [i Hi].
    { unfold batch_over in Hover. clear -Hz Hover. unfold places in Hz. induction (bt_phase s) as [|p l IH]; [by destruct Hover|].
      rewrite filter_cons in Hz. destruct (decide (holds_place p = true)) as [|Hp]; [done|].
      destruct (decide (p = BWaiting)) as [->|Hw]; [by exists 0%nat|].
      assert (p = BDone) as -> by (by destruct p). destruct IH as [i Hi]; [|done|by exists (S i)].
      contradict Hover. by constructor. }
    exists i. left. cbn [batch_act]. rewrite Hi, (proj2 (Nat.ltb_lt _ _)) by lia. by eexists.
  - assert (∃ i p, bt_phase s !! i = Some p ∧ holds_place p = true) as (i & p & Hi & Hp).
    { unfold places in Hz. destruct (filter (λ p, holds_place p = true) (bt_phase s)) as [|p l] eqn:E; [done|].
      assert (p ∈ filter (λ p, holds_place p = true) (bt_phase s)) as [Hp [i Hi]%list_elem_of_lookup]%list_elem_of_filter by (rewrite E; by left).
      by exists i, p. }
    exists i. right. destruct p; try done; [left; intros out|right]; cbn; rewrite Hi; by eexists.
Qed.

(** In every interleaving at most [concurrency] runs are under way, a batch that is not
    over can always go on, and when it is over there is exactly one result for each
    prompt, at its position and with its index. *)
Theorem batch_results_in_order n concurrency acts s :
  (0 < concurrency)%nat → batch_run concurrency acts (start_batch n) = Some s →
  (places (bt_phase s) ≤ concurrency)%nat ∧
  (¬ batch_over s → ∃ i, is_Some (batch_act concurrency (BAcquire i) s) ∨
     (∀ out, is_Some (batch_act concurrency (BReturn i out) s)) ∨ is_Some (batch_act concurrency (BRelease i) s)) ∧
  (batch_over s → length (bt_results s) = n ∧
     ∀ i, (i < n)%nat → ∃ out, bt_results s !! i = Some (Some (MkBatchResult i out))).
Proof.
  intros Hc Hrun. pose proof (batch_run_inv n concurrency acts _ s (start_batch_inv n concurrency) Hrun) as Hi.
  split_and!; [rewrite <-(bv_sem _ _ _ Hi); apply (bv_bound _ _ _ Hi)|by apply batch_progress with n|].
  intros Hover. split; [apply (bv_results _ _ _ Hi)|]. intros i Hlt. rewrite <-(bv_phase _ _ _ Hi) in Hlt.
  destruct (lookup_lt_is_Some_2 _ _ Hlt) as [p Hp]. apply (bv_slots _ _ _ Hi i p Hp).
  unfold batch_over in Hover. by rewrite Forall_lookup in Hover; rewrite <-(Hover i p Hp).
Qed.
End batch.
