(* ===== verification/Middleware.v ===== *)
(** * The middleware package

    src/ext/middleware: chains of middleware around a model (middleware.go), the response
    cache (cache.go) and retries (retry.go).  A handler is a function on the world of the
    model.  Responses of the cache are pointers into a heap, so that what a caller writes
    to its response is visible wherever the same pointer is kept.  The overflow of a delay
    that is doubled is not modelled. *)

From S2P Require Import Prelude Errors Usage Messages AgentTypes Json Serialize.

(** ** Chains *)

Section chain.
Context {W Call Resp Str : Type}.

Definition Handler (R : Type) : Type := Call → W → W * res R.
(** A middleware; one that is no [StreamMiddleware] has no second part. *)
Record Middleware := MkMiddleware {
  mw_WrapRequest : Handler Resp → Handler Resp;
  mw_WrapStreamRequest : option (Handler Str → Handler Str);
}.
Definition MwFunc (f : Handler Resp → Handler Resp) : Middleware := MkMiddleware f None.
Definition MwStreamFunc (request : option (Handler Resp → Handler Resp)) (stream : option (Handler Str → Handler Str))
    : Middleware := MkMiddleware (default id request) (Some (default id stream)).

(** The loops run over the middlewares from the last to the first. *)
Definition wrapped_Request (inner : Handler Resp) (middlewares : list Middleware) : Handler Resp :=
  foldl (λ handler mw, mw_WrapRequest mw handler) inner (rev middlewares).
Definition wrapped_RequestStream (inner : Handler Str) (middlewares : list Middleware) : Handler Str :=
  foldl (λ handler mw, match mw_WrapStreamRequest mw with Some f => f handler | None => handler end)
    inner (rev middlewares).

(** The first middleware is the outermost, and wrapping a wrapped model is wrapping with
    both chains. *)
Theorem wrap_nests inner_req inner_str l1 l2 :
  wrapped_Request inner_req (l1 ++ l2) = wrapped_Request (wrapped_Request inner_req l2) l1 ∧
  wrapped_RequestStream inner_str (l1 ++ l2) = wrapped_RequestStream (wrapped_RequestStream inner_str l2) l1 ∧
  wrapped_Request inner_req l1 = foldr mw_WrapRequest inner_req l1 ∧
  wrapped_RequestStream inner_str l1 = foldr id inner_str (omap mw_WrapStreamRequest l1).
Proof.
  unfold wrapped_Request, wrapped_RequestStream. rewrite rev_app_distr, !foldl_app. split_and!; [done..| |].
  - induction l1 as [|mw l1 IH]; [done|]. cbn [rev foldr]. by rewrite foldl_app, IH.
  - induction l1 as [|mw l1 IH]; [done|]. cbn [rev]. rewrite foldl_app, IH. cbn. by destruct (mw_WrapStreamRequest mw).
Qed.
End chain.

(** ** The cache *)

Section cache.
Context {TF : TimeFormat} {TL : TimeFormatLaws}.
Context {W : Type} (clock : W → Time).

Definition cloneModelResponse (resp : option FullResponse) : res (option FullResponse) :=
  match resp with
  | None => Ok None
  | Some r =>
    encoded ← wrap_error "cache: encode response clone: " (EncodeModelResponse (Some r));
    cloned ← wrap_error "cache: decode response clone: " (DecodeModelResponse (Some encoded));
    Ok (Some cloned)
  end.

(** [None] is a nil pointer. *)
Definition pointer : Type := option nat.
Definition deref (heap : list FullResponse) (p : pointer) : option FullResponse := p ≫= λ i, heap !! i.
Definition alloc (r : option FullResponse) (heap : list FullResponse) : list FullResponse * pointer :=
  match r with Some r => (heap ++ [r], Some (length heap)) | None => (heap, None) end.

Record cacheEntry := MkCacheEntry { ce_response : pointer; ce_createdAt : Time }.
Record cacheMiddleware := MkCacheMiddleware {
  cm_entries : gmap string cacheEntry; cm_ttl : Duration; cm_Hits : Z; cm_Misses : Z;
  cm_heap : list FullResponse; cm_world : W;
}.
#[local] Instance cacheMiddleware_eta : RecordEta cacheMiddleware := λ c,
  MkCacheMiddleware (cm_entries c) (cm_ttl c) (cm_Hits c) (cm_Misses c) (cm_heap c) (cm_world c).

Definition call_next (next : W → W * res (option FullResponse)) (c : cacheMiddleware) : cacheMiddleware * res pointer :=
  let '(w, r) := next (cm_world c) in
  let c := c <| cm_world := w |> in
  match r with
  | Err e => (c, Err e)
  | Ok resp => let '(heap, p) := alloc resp (cm_heap c) in (c <| cm_heap := heap |>, Ok p)
  end.
(** The handler of a request whose hash is [key]. *)
Definition cache_WrapRequest (key : res string) (next : W → W * res (option FullResponse)) (c : cacheMiddleware)
    : cacheMiddleware * res pointer :=
  match key with
  | Err _ => call_next next c
  | Ok key =>
    let now := clock (cm_world c) in
    let miss (c : cacheMiddleware) :=
      let c := c <| cm_Misses ::= Z.succ |> in
      match call_next next c with
      | (c, Err e) => (c, Err e)
      | (c, Ok p) =>
        match cloneModelResponse (deref (cm_heap c) p) with
        | Err e => (c, Err e)
        | Ok stored =>
          let '(heap, sp) := alloc stored (cm_heap c) in
          let c := c <| cm_heap := heap |> in
          match cloneModelResponse (deref (cm_heap c) sp) with
          | Err e => (c, Err e)
          | Ok returned =>
            let '(heap, rp) := alloc returned (cm_heap c) in
            (c <| cm_heap := heap |> <| cm_entries ::= <[key := MkCacheEntry sp now]> |>, Ok rp)
          end
        end
      end in
    match cm_entries c !! key with
    | None => miss c
    | Some entry =>
      if now - ce_createdAt entry <? cm_ttl c then
        match cloneModelResponse (deref (cm_heap c) (ce_response entry)) with
        | Err e => (c, Err e)
        | Ok r => let '(heap, p) := alloc r (cm_heap c) in (c <| cm_heap := heap |> <| cm_Hits ::= Z.succ |>, Ok p)
        end
      else miss (c <| cm_entries ::= delete key |>)
    end
  end.

(** A response that JSON can carry is cloned exactly. *)
Lemma clone_ok r : ok_message (FResponse r) = true → cloneModelResponse (Some r) = Ok (Some r).
Proof.
  intros (env & He & Hd & _)%encodeMessage_roundtrip. unfold cloneModelResponse, EncodeModelResponse, DecodeModelResponse.
  rewrite He. cbn. by rewrite Hd.
Qed.

(** What a caller does to its copy does not reach the cache: after a request that misses,
    whatever is written through the pointer it returned, the same request within the time
    to live returns a new pointer to the response of the model, and does not call it. *)
Theorem cached_response_is_copy key next c r w' c1 p garbage later c2 q :
  cm_entries c !! key = None → next (cm_world c) = (w', Ok (Some r)) → ok_message (FResponse r) = true →
  cache_WrapRequest (Ok key) next c = (c1, Ok (Some p)) →
  clock later - clock (cm_world c) < cm_ttl c →
  cache_WrapRequest (Ok key) next (c1 <| cm_heap := <[p := garbage]> (cm_heap c1) |> <| cm_world := later |>) = (c2, Ok q) →
  cm_heap c1 !! p = Some r ∧ deref (cm_heap c2) q = Some r ∧ q ≠ Some p ∧ cm_world c2 = later ∧
  cm_Hits c2 = cm_Hits c + 1 ∧ cm_Misses c2 = cm_Misses c + 1.
Proof.
  intros Hnone Hnext Hok. unfold cache_WrapRequest, call_next. rewrite Hnone. cbn. rewrite Hnext. cbn.
  assert (∀ (l : list FullResponse) x, (l ++ [x]) !! length l = Some x) as Hlast by (intros; by rewrite list_lookup_middle).
  rewrite Hlast, clone_ok by done. cbn. rewrite Hlast, clone_ok by done. cbn. intros [= <- <-] Hage. cbn.
  rewrite lookup_insert_eq. cbn. rewrite (proj2 (Z.ltb_lt _ _)) by done.
  generalize (cm_heap c). intros h. rewrite !length_app. cbn [length].
  assert (<[(length h + 1 + 1)%nat := garbage]> (((h ++ [r]) ++ [r]) ++ [r]) !! (length h + 1)%nat = Some r) as ->.
  { rewrite list_lookup_insert_ne by lia. rewrite lookup_app_l by (rewrite !length_app; cbn; lia).
    rewrite lookup_app_r by (rewrite !length_app; cbn; lia). rewrite length_app. cbn. by rewrite Nat.sub_diag. }
  rewrite clone_ok by done. cbn. intros [= <- <-]. cbn. split_and!; try lia; try done.
  - rewrite lookup_app_r by (rewrite !length_app; cbn; lia). rewrite !length_app. cbn. by rewrite Nat.sub_diag.
  - rewrite length_insert, !length_app. cbn. intros [= E]. lia.
Qed.
End cache.

(** ** Retries *)

Section retry.
Context {W R : Type}.

Record retryConfig := MkRetryConfig { initialDelay : Duration; maxDelay : Duration; retryIf : error → bool }.
Definition default_retry : retryConfig := MkRetryConfig 1000000000 30000000000 (λ _, true).

(** [sleepFunc]; the list has the delays slept.  [n] is the number of
    attempts left; [None] is the nil response without error of a negative [maxRetries]. *)
Context (sleepFunc : Duration → W → W * option error) (cfg : retryConfig) (next : W → W * res R).
Fixpoint retry_from (n : nat) (lastErr : option error) (delay : Duration) (w : W) : W * list Duration * option (res R) :=
  match n with
  | O => (w, [], Err <$> lastErr)
  | S n =>
    match next w with
    | (w, Ok r) => (w, [], Some (Ok r))
    | (w, Err e) =>
      if negb (retryIf cfg e) then (w, [], Some (Err e))
      else
        match n with
        | O => retry_from n (Some e) delay w
        | S _ =>
          match sleepFunc delay w with
          | (w, Some e') => (w, [delay], Some (Err e'))
          | (w, None) =>
            let d := delay * 2 in
            let '(w, log, r) := retry_from n (Some e) (if d >? maxDelay cfg then maxDelay cfg else d) w in
            (w, delay :: log, r)
          end
        end
    end
  end.
Definition RetryMiddleware_request (maxRetries : Z) (w : W) : W * list Duration * option (res R) :=
  retry_from (Z.to_nat (maxRetries + 1)) None (initialDelay cfg) w.

(** The delays double up to the maximum. *)
Fixpoint delays (n : nat) (d : Duration) : list Duration :=
  match n with O => [] | S n => d :: delays n (Z.min (d * 2) (maxDelay cfg)) end.

Lemma retry_from_delays n lastErr d w w' log r :
  retry_from n lastErr d w = (w', log, r) → (length log ≤ pred n)%nat ∧ log = delays (length log) d ∧ (r = None → n = 0%nat ∧ lastErr = None).
Proof.
  revert lastErr d w w' log r. induction n as [|n IH]; intros lastErr d w w' log r.
  { cbn. intros [= <- <- <-]. split_and!; [done..|]. intros E. split; [done|]. by destruct lastErr. }
  cbn [retry_from]. destruct (next w) as [w1 [v|e]]; [by intros [= <- <- <-]; split_and!; cbn; try lia|].
  destruct (retryIf cfg e); cbn [negb]; [|by intros [= <- <- <-]; split_and!; cbn; try lia].
  destruct n as [|n]; [cbn; by intros [= <- <- <-]; split_and!; cbn; try lia|].
  destruct (sleepFunc d w1) as [w2 [e'|]]; [by intros [= <- <- <-]; split_and!; cbn; try lia|].
  destruct (retry_from (S n) (Some e) _ w2) as [[w3 log3] r3] eqn:E. intros [= <- <- <-].
  apply IH in E as (Hl & Hd & Hr). cbn [length delays pred]. split_and!; [lia| |intros ->; by destruct Hr].
  f_equal. rewrite Hd at 1. f_equal. destruct (Z.gtb_spec (d * 2) (maxDelay cfg)); lia.
Qed.

(** A retried request sleeps at most [maxRetries] times, for delays that double up to the
    maximum, and returns something unless [maxRetries] is negative. *)
Theorem retry_request_bounded maxRetries w w' log r :
  RetryMiddleware_request maxRetries w = (w', log, r) →
  (Z.of_nat (length log) ≤ Z.max 0 maxRetries) ∧ log = delays (length log) (initialDelay cfg) ∧ (r = None ↔ maxRetries < 0).
Proof.
  unfold RetryMiddleware_request. intros E. pose proof E as (Hl & Hd & Hr)%retry_from_delays. split_and!; [lia|done|]. split.
  - intros ->. destruct Hr as [Hn _]; [done|]. lia.
  - intros Hn. replace (Z.to_nat (maxRetries + 1)) with 0%nat in E by lia. by injection E as <- <- <-.
Qed.
End retry.
